(* ===== verification/_CoqProject ===== *)
-Q . S2P
Prelude.v
Defs.v
MemoryMap.v
SelfMod.v
Tlb.v
Decode.v
Lut.v
Hart.v
State.v
Mmu.v
Mmio.v
Rv64i.v
Rv64m.v
Rv64a.v
Rv64c.v
Zb.v
Float.v
Rv64f.v
Rv64d.v
FloatLemmas.v
FloatSpec.v
Priv.v
Zicsr.v
Isa.v
Exec.v
Precise.v
Counters.v
Block.v
Device.v
Plic.v
Uart.v
Clint.v
I2c.v
Virtio.v
VirtioSpec.v
Syscon.v
Platform.v
Fdt.v
FdtBlob.v
FdtForest.v
DeviceTree.v
Gdb.v
GdbSpec.v
Elf.v
X86.v
X86Enc.v
X86Code.v
JitEmit.v
JitAlu.v
JitIsa.v
JitGen.v
JitAlloc.v
JitSim.v
JitDiv.v
JitIns.v
JitCorrect.v
JitExit.v
JitTail.v
Jit.v
JitChain.v
JitFit.v
JitCache.v
Machine.v
Witnesses.v
WitnessesJit.v
