(* ===== verification/Prelude.v ===== *)
(** * rv64-vm: a verification of the emulator

    rv64-vm emulates an RV64IMAC machine, with the floating-point and the
    bit-manipulation extensions, the machine, supervisor and user levels, Sv39 paging and a
    set of memory-mapped devices. This library translates its interpreter, its
    block dispatcher, its native compiler and its core devices into functions
    that run, and proves what makes them correct.

    ** How the program fits together

    A [Machine] ([src/machine.cpp]) owns the memory map, the devices on the
    [MMIO] bus, the harts and a cache of code blocks. Its work loop gives each
    hart a batch of instructions through [Hart::run_blocks] ([src/block.cpp])
    and counts them as device time; every 4096 of it the devices tick. A hart
    fetches through the [MMU] (TLB, then the page-table walk), decodes through a
    two-way cache over two lookup tables, and runs the handler of the
    instruction. A handler that loads or stores goes to the bus, which
    translates, splits what crosses a page, and reaches RAM or a device. Traps
    and interrupts change the mode and the pc of the hart. Devices raise
    interrupts by setting bits of [Hart::ip], directly (CLINT) or through the
    interrupt controller (PLIC). In a build with [USE_JIT] the block dispatcher
    first asks a cache of native code ([src/jit/]) for the block at the pc; it
    compiles what is hot, and compiled blocks hop to each other through a cache
    of their own.

    ** Files and the code they model

    - [Prelude]: machine integers, bit-fields, the outcome monad (a value, an
      exception the C++ throws, or undefined behaviour), Hoare triples for it,
      and the tactics and hint databases of the library.
    - [Defs]: the enums, the CSR numbers and the unions of
      [include/defines/].
    - [MemoryMap], [SelfMod]: [include/memory_map.hpp],
      [include/self_mod.hpp].
    - [Tlb], [Mmu]: [include/tlb.hpp], [src/tlb.cpp], [include/mmu.hpp],
      [include/mmu.inl].
    - [Decode], [Lut], [Isa]: [include/decode.hpp], [src/decode.cpp]:
      immediates and patterns; the lookup tables and the decode cache; the
      registration of the whole instruction set.
    - [Hart]: the registers, CSRs, traps and interrupts of
      [include/hart.hpp], [src/hart.cpp].
    - [State]: what an instruction can see and change (the hart, its TLB, the
      memory map, the code pages, the state of the bus), and the monad of the
      handlers.
    - [Mmio]: [include/mmio.hpp], [src/mmio.cpp], over any devices: class
      [BusOps] is what the bus calls, [BusLaws] what it relies on.
    - [Rv64i], [Rv64m], [Rv64a], [Rv64c], [Zb], [Priv], [Zicsr]: the handlers
      of [src/sets/], one definition each, and their registration.
    - [Float]: IEEE 754 as C++ gives it to the program: the double and single
      operations of the host in its four rounding modes, their exceptions, and
      the classification and comparison functions.
    - [Rv64f], [Rv64d]: the handlers of [src/sets/rv64f.cpp] and
      [src/sets/rv64d.cpp], over the state and the host's floating-point
      environment. [FloatLemmas], [FloatSpec]: rounding and exactness; what
      the handlers compute.
    - [Exec], [Precise], [Counters]: the interpreter step of [src/hart.cpp],
      precise traps and the counters.
    - [Block]: [include/block_cache.hpp], [src/block.cpp].
    - [Device], [Plic], [Uart], [Clint], [I2c], [Syscon]: the state a device
      shares with the harts, and [src/devices/].
    - [Platform]: these devices as an instance of [BusOps] and [BusLaws], so
      every theorem on the interpreter holds for harts with real devices.
    - [Virtio], [VirtioSpec]: the block and the entropy device of
      [src/devices/virtio/], and their effect on memory seen as bytes.
    - [Fdt], [FdtBlob], [FdtForest]: [src/libfdt.cpp]: nodes on a heap and the
      C interface; the flattened format, with a reader for it; the shape of
      the heap and the handles.
    - [DeviceTree]: the tree [Machine::init_fdt] and the constructors of the
      devices build.
    - [Gdb], [GdbSpec]: the GDB stub of [src/gdbstub.cpp]: the description of
      the registers, the packets, the commands; what a debugger gets.
    - [Elf]: [src/elfparser.cpp] and [MemoryMap::load_buffer].
    - [X86]: a reference for the part of x86-64 the compiler emits, written
      from the manual. [X86Enc], [X86Code]: the encoders of
      [include/jit/rvjit_x86_64.hpp] and the instructions they stand for.
    - [JitEmit], [JitAlu], [JitIsa]: [src/jit/arch/x86_64/]: the register
      allocator, the exits, memory accesses and stubs of a block; arithmetic;
      the translators and their registration.
    - [JitGen], [JitAlloc], [JitSim], [JitDiv], [JitIns], [JitCorrect]: triples
      for code that emits code; the allocator as an injection; the code of each
      arithmetic instruction against the interpreter.
    - [JitExit], [JitTail]: the code that leaves a block.
    - [Jit]: [include/jit/rvjit.hpp], [src/jit/rvjit.cpp]: the arenas, the
      cache of compiled blocks, the compiler, the chain dispatcher. [JitChain]:
      the dispatcher's machine code. [JitFit], [JitCache]: the size of a block;
      the invariant of the cache, the arenas and the protected pages.
    - [Machine]: the work loop and the reset of [src/machine.cpp].
    - [Witnesses], [WitnessesJit]: each property applied to a concrete state.

    A C++ struct is a [Record], an enum an [Inductive], a method a function of
    the same name; a [w]-bit integer is a [Z] with its wrap-around written out
    ([u64], [s32], ...). State is passed by the monads [M] (handlers) and [DM]
    (devices), whose results are [Ret], [Throw] (std::out_of_range of
    [MemoryMap]) and [Undef] (an index past the end of an array, a shift by the
    width, signed overflow). A theorem that an operation returns is therefore
    also a theorem that the C++ has no undefined behaviour there.

    ** What the theorems show

    - Memory and translation: what is stored is loaded; TLB insertion, lookup
      and the four flushes, which leave other address spaces alone;
      [translate_impl] implements Sv39 as the manual has it ([Mmu.Arch], stated
      with numbers and apart from the code), and the TLB gives what the walk
      gave.
    - Decoding: the immediates; the lookup tables end and hold the most
      specific pattern; the cache is transparent; every word of the
      instruction set decodes to the handler it matches.
    - Instructions: arithmetic, multiplication and division, bit manipulation,
      atomics, compressed expansion, CSR access control (every 12-bit number)
      and views, trap entry with the interrupts it masks, trap return, each
      against a definition written from the manual.
    - Floating point: the double operations and FMUL.S are the IEEE operation
      of the selected mode whatever the host was doing before; order, minimum
      and maximum; saturating conversions to integers; moves, signs, classes.
    - Execution: fetch, of an instruction across two pages too; precise traps; every run of the interpreter keeps the
      state in its types and the caches sound ([ticks_invariant]); a block does
      what its instructions do one by one, and [run_blocks] ends.
    - Devices: interrupt lines, claim and completion of the PLIC; the UART as
      a bounded queue; exact timers and interrupts of the CLINT; I2C round
      trips; a guest store to the comparand that raises the timer interrupt;
      block requests against the image, the end of every virtio queue, the
      stream of the entropy device.
    - Device tree: what is serialized is read back; the nodes stay a forest
      and handles stay distinct.
    - Debugger: packets are commands run once; registers, memory and the
      description arrive as they are; breakpoints are a set and stop the
      machine; the loops over memory end.
    - Native code: the bytes of every encoder decode to the instruction meant;
      the code of every arithmetic instruction leaves the guest registers the
      interpreter leaves, wherever the allocator put them; the chain dispatcher
      finds what the C++ put in the chain cache; a block the cache hands out is
      mapped, and a store to its text takes it out of reach.
    - Machine: a pass of the work loop runs every hart in turn and ticks the
      devices exactly once for every 4096 of device time charged, none lost;
      an ELF image is loaded segment by segment, across regions too and for
      any value of the locals the C++ leaves uninitialised; reset loads
      firmware, kernel and device tree where the harts are told they are.

    ** Bounds and fuel

    Loops whose count the code fixes are structural. The others have a fuel
    that is proved to be enough: [fill_slots] of [build_lut] (two to the
    number of free bits, the subsets it enumerates),
    [scan_word] of the PLIC (32, one bit is cleared per pass), [MARK_FUEL] of
    [compile_block] (3 pages), the page walk (3 levels), [dispatch_loop]
    ([max_insts + 1] passes, since each one that goes on finishes an
    instruction), [drain] (16 periods, the largest 16-bit device time),
    [process_loop] of a virtio queue (two to the 16, the indices), and the
    walks over a device tree ([heap_fuel], the number of nodes), and the
    debugger's loops over memory (the number of bytes, since a chunk has one).
    The loop over the pages of a compiled block takes at most 3 pages, enough for
    4096 bytes of text ([block_pages_returns]); the compiler translates at most
    [RVJIT_MAX_INSTRUCTIONS] instructions. [jit_code_safe] is about the calls
    of the cache that return.
    [i2c_tick] reaches a command after 100 ticks.

    ** The configuration, and what is not modelled

    The build modelled has the block dispatcher, and [run_blocks] is that of a
    build without the native JIT; the work
    loop of [Machine] is that of a machine without a debugger, and what a
    debugger adds to a pass is [Gdb.gdb_after_pass].
    The instruction tables of [Isa] are those of [USE_FPU=0]; the
    floating-point handlers, which a build with [USE_FPU=1] adds to them, have a
    state of their own: the hart's and the rounding mode and exceptions that
    one instruction leaves in the host for the next. Their operations are
    evaluated in the order of the source, tininess is found after rounding,
    and [llrint] out of range gives the integer indefinite value, as on the
    x86-64 the program is built for. Contraction of a product and a sum cannot
    change a handler: FMADD.S multiplies singles in double, which is exact. Atomics are plain values: the
    harts take turns on one thread in the source as well, and the device
    threads are operations that may happen between steps.

    - The JIT section of [run_blocks] ([src/block.cpp]), which memoizes what the
      code cache answers and calls the host code, and the invalidations other
      files do under [USE_JIT]. Of the code generated, the arithmetic and the
      chain tail are proved; the branches, the inline TLB check with its loads
      and stores, and the composition of a whole block are modelled without a
      theorem on what they do to the host. Compilation on several threads
      is one thread's: the spin lock has no state.
    - The framebuffer and the windows, the sockets of the GDB stub (which take
      and give bytes), reading of files and threads are input and output of the
      host.
    - USB, HID, PCI and the argument parser are not modelled yet. *)

From stdpp Require Export base tactics numbers list gmap.
From Stdlib Require Export ZArith Lia.
From Stdlib Require Import Btauto.
#[global] Open Scope Z_scope.

(** ** Machine integers

    A C++ unsigned integer of [w] bits is a [Z] in [[0, 2^w)]; a cast to
    [uintW_t] is [uN w], a cast to [intW_t] is [sN w]. *)

Definition uN (w x : Z) : Z := x mod 2 ^ w.

Definition sN (w x : Z) : Z := (x + 2 ^ (w - 1)) mod 2 ^ w - 2 ^ (w - 1).

Abbreviation u8 := (uN 8).
Abbreviation u16 := (uN 16).
Abbreviation u32 := (uN 32).
Abbreviation u64 := (uN 64).
Abbreviation u128 := (uN 128).
Abbreviation s8 := (sN 8).
Abbreviation s16 := (sN 16).
Abbreviation s32 := (sN 32).
Abbreviation s64 := (sN 64).

(** [x] is a value of a [w]-bit unsigned type. *)
Definition inw (w x : Z) : Prop := 0 <= x < 2 ^ w.

#[global] Instance inw_dec w x : Decision (inw w x).
Proof. unfold inw. apply _. Defined.

(** [~x] on a 64-bit operand. *)
Definition not64 (x : Z) : Z := u64 (Z.lnot x).

(** A C++ condition used as a number. *)
Abbreviation b2z := Z.b2z.

(** ** Bit-fields of a union: [len] bits of [raw] from bit [lo]. *)

Definition bf_get (raw lo len : Z) : Z := Z.land (Z.shiftr raw lo) (Z.ones len).

Definition bf_set (raw lo len v : Z) : Z :=
  Z.lor (Z.ldiff raw (Z.shiftl (Z.ones len) lo))
        (Z.shiftl (Z.land v (Z.ones len)) lo).

(** ** Outcome of a C++ computation: a value, an exception that leaves the
    function, or undefined behaviour. *)

Inductive Exn := out_of_range | invalid_argument | logic_error.

Inductive outcome (A : Type) :=
| Ret (a : A)
| Throw (e : Exn)
| Undef.
Arguments Ret {A} a.
Arguments Throw {A} e.
Arguments Undef {A}.

#[global] Instance Exn_eq_dec : EqDecision Exn.
Proof. solve_decision. Defined.

#[global] Instance outcome_ret : MRet outcome := fun A a => Ret a.
#[global] Instance outcome_bind : MBind outcome := fun A B f m =>
  match m with Ret a => f a | Throw e => Throw e | Undef => Undef end.

(** State-passing computations over a state [S]. *)
Definition ST (S A : Type) : Type := S -> outcome (A * S).

#[global] Instance ST_ret {S} : MRet (ST S) := fun A a s => Ret (a, s).
#[global] Instance ST_bind {S} : MBind (ST S) := fun A B f m s =>
  match m s with
  | Ret (a, s') => f a s'
  | Throw e => Throw e
  | Undef => Undef
  end.

Definition throw {S A} (e : Exn) : ST S A := fun _ => Throw e.
Definition undef {S A} : ST S A := fun _ => Undef.
Definition gets {S A} (f : S -> A) : ST S A := fun s => Ret (f s, s).
Definition get_st {S} : ST S S := fun s => Ret (s, s).
Definition modify {S} (f : S -> S) : ST S unit := fun s => Ret (tt, f s).

(** Postconditions: when [m] returns from a state satisfying [P], the result
    and the new state satisfy [Q]; an exception or undefined behaviour is not
    constrained. [returns m s] says that there is neither. *)
Definition hoare {S A} (P : S -> Prop) (m : ST S A) (Q : A -> S -> Prop) : Prop :=
  forall s, P s -> match m s with Ret (a, s') => Q a s' | _ => True end.

Definition returns {S A} (m : ST S A) (s : S) : Prop := exists a s', m s = Ret (a, s').

Lemma hoare_ret {S A} (P : S -> Prop) (a : A) (Q : A -> S -> Prop) :
  (forall s, P s -> Q a s) -> hoare P (mret a) Q.
Proof. intros H s Hs. by apply H. Qed.

Lemma hoare_bind {S A B} (P : S -> Prop) (m : ST S A) (f : A -> ST S B) R Q :
  hoare P m R -> (forall a, hoare (R a) (f a) Q) -> hoare P (m ≫= f) Q.
Proof.
  intros Hm Hf s Hs. specialize (Hm s Hs). cbv [mbind ST_bind].
  destruct (m s) as [[a s']| |]; try done. by apply Hf.
Qed.

Lemma hoare_weaken {S A} (P P' : S -> Prop) (m : ST S A) (Q Q' : A -> S -> Prop) :
  hoare P m Q -> (forall s, P' s -> P s) -> (forall a s, Q a s -> Q' a s) -> hoare P' m Q'.
Proof.
  intros Hm HP HQ s Hs. specialize (Hm s (HP s Hs)). destruct (m s) as [[a s']| |]; try done.
  by apply HQ.
Qed.

Lemma hoare_gets {S A} (P : S -> Prop) (f : S -> A) Q :
  (forall s, P s -> Q (f s) s) -> hoare P (gets f) Q.
Proof. intros H s Hs. by apply H. Qed.

Lemma hoare_modify {S} (P : S -> Prop) (f : S -> S) Q :
  (forall s, P s -> Q tt (f s)) -> hoare P (modify f) Q.
Proof. intros H s Hs. by apply H. Qed.

Lemma hoare_throw {S A} (P : S -> Prop) e (Q : A -> S -> Prop) : hoare P (throw e) Q.
Proof. by intros s Hs. Qed.

Lemma hoare_undef {S A} (P : S -> Prop) (Q : A -> S -> Prop) : hoare P undef Q.
Proof. by intros s Hs. Qed.

Lemma hoare_if {S A} (P : S -> Prop) (b : bool) (m1 m2 : ST S A) Q :
  (b = true -> hoare P m1 Q) -> (b = false -> hoare P m2 Q) ->
  hoare P (if b then m1 else m2) Q.
Proof. destruct b; auto. Qed.

(** Split the conditionals at the head of a run program. *)
Ltac split_ifs :=
  repeat match goal with
  | |- match (if ?b then _ else _) with _ => _ end => destruct b eqn:?
  end.

(** ** Growable C++ vectors with a default element, stored sparsely. *)

Record svec := mkSvec { sv_size : Z; sv_data : gmap Z Z }.

Definition sv_empty : svec := mkSvec 0 ∅.
Definition sv_get (v : svec) (i : Z) : Z := default 0 (sv_data v !! i).
Definition sv_set (v : svec) (i x : Z) : svec :=
  mkSvec (sv_size v) (<[i := x]> (sv_data v)).
(** [resize(n, 0)] for a growing vector: the new elements are 0. *)
Definition sv_resize (v : svec) (n : Z) : svec :=
  mkSvec n (filter (fun kv => kv.1 < sv_size v) (sv_data v)).
(** [std::fill(begin, end, 0)]. *)
Definition sv_fill0 (v : svec) : svec := mkSvec (sv_size v) ∅.

#[global] Arguments Z.testbit : simpl never.

(** ** Automation *)

Create Rewrite HintDb rv.
Create HintDb rvw.

(** Destruct the scrutinee of a match or conditional in the goal or a
    hypothesis, keeping its equation. *)
Ltac case_goal :=
  match goal with
  | |- context [match ?x with _ => _ end] =>
      lazymatch x with
      | context [match _ with _ => _ end] => fail
      | _ => let E := fresh "E" in destruct x eqn:E
      end
  end.

Ltac case_hyp H :=
  match type of H with
  | context [match ?x with _ => _ end] =>
      lazymatch x with
      | context [match _ with _ => _ end] => fail
      | _ => let E := fresh "E" in destruct x eqn:E
      end
  end.

(** Turn boolean comparisons in the context into propositions. *)
Ltac bool_hyps :=
  repeat match goal with
  | H : (_ && _)%bool = true |- _ => apply andb_true_iff in H; destruct H
  | H : (_ || _)%bool = false |- _ => apply orb_false_iff in H; destruct H
  | H : negb _ = true |- _ => apply negb_true_iff in H
  | H : negb _ = false |- _ => apply negb_false_iff in H
  | H : (_ =? _) = true |- _ => apply Z.eqb_eq in H
  | H : (_ =? _) = false |- _ => apply Z.eqb_neq in H
  | H : (_ <? _) = true |- _ => apply Z.ltb_lt in H
  | H : (_ <? _) = false |- _ => apply Z.ltb_ge in H
  | H : (_ <=? _) = true |- _ => apply Z.leb_le in H
  | H : (_ <=? _) = false |- _ => apply Z.leb_gt in H
  end.

(** ** Bits of the integer operations *)

Lemma uN_bits w x i : 0 <= w -> Z.testbit (uN w x) i = ((i <? w) && Z.testbit x i)%bool.
Proof.
  intros Hw. unfold uN. destruct (Z.ltb_spec i w) as [Hlt|Hge]; simpl.
  - destruct (Z.neg_nonneg_cases i).
    + by rewrite !Z.testbit_neg_r.
    + apply Z.mod_pow2_bits_low. lia.
  - apply Z.mod_pow2_bits_high. lia.
Qed.

Lemma uN_land w x : 0 <= w -> uN w x = Z.land x (Z.ones w).
Proof. intros. unfold uN. by rewrite Z.land_ones. Qed.

Lemma ones_bits n i : 0 <= n -> Z.testbit (Z.ones n) i = ((0 <=? i) && (i <? n))%bool.
Proof. intros. by apply Z.testbit_ones. Qed.

Lemma lnot_bits x i : 0 <= i -> Z.testbit (Z.lnot x) i = negb (Z.testbit x i).
Proof. apply Z.lnot_spec. Qed.

Lemma bf_get_bits raw lo len i : 0 <= len -> 0 <= i ->
  Z.testbit (bf_get raw lo len) i = ((i <? len) && Z.testbit raw (i + lo))%bool.
Proof.
  intros. unfold bf_get.
  rewrite Z.land_spec, Z.shiftr_spec, ones_bits by lia.
  rewrite (proj2 (Z.leb_le 0 i)) by lia. simpl. btauto.
Qed.

Lemma bf_set_bits raw lo len v i : 0 <= lo -> 0 <= len -> 0 <= i ->
  Z.testbit (bf_set raw lo len v) i =
  if ((lo <=? i) && (i <? lo + len))%bool then Z.testbit v (i - lo) else Z.testbit raw i.
Proof.
  intros. unfold bf_set.
  rewrite Z.lor_spec, Z.ldiff_spec, !Z.shiftl_spec, Z.land_spec, !ones_bits by lia.
  destruct (Z.leb_spec lo i), (Z.ltb_spec i (lo + len)),
    (Z.leb_spec 0 (i - lo)), (Z.ltb_spec (i - lo) len); simpl; try lia; btauto.
Qed.

Lemma shiftl_bits x m i : 0 <= m -> Z.testbit (Z.shiftl x m) i = Z.testbit x (i - m).
Proof.
  intros. destruct (Z.neg_nonneg_cases i); [|by apply Z.shiftl_spec].
  by rewrite !Z.testbit_neg_r by lia.
Qed.

Lemma shiftr_bits x m i : 0 <= m ->
  Z.testbit (Z.shiftr x m) i = ((0 <=? i) && Z.testbit x (i + m))%bool.
Proof.
  intros. destruct (Z.leb_spec 0 i); simpl; [by apply Z.shiftr_spec|].
  by apply Z.testbit_neg_r.
Qed.

Lemma lnot_bits' x i : Z.testbit (Z.lnot x) i = ((0 <=? i) && negb (Z.testbit x i))%bool.
Proof.
  destruct (Z.leb_spec 0 i); simpl; [by apply Z.lnot_spec|]. by apply Z.testbit_neg_r.
Qed.

Lemma bf_get_bits' raw lo len i : 0 <= lo -> 0 <= len ->
  Z.testbit (bf_get raw lo len) i = ((0 <=? i) && ((i <? len) && Z.testbit raw (i + lo)))%bool.
Proof.
  intros. destruct (Z.leb_spec 0 i); simpl; [by apply bf_get_bits|].
  by apply Z.testbit_neg_r.
Qed.

(** Sign extension repeats bit [w - 1] upwards. *)
Lemma sN_bits w x i : 0 < w -> Z.testbit (sN w x) i = Z.testbit x (Z.min i (w - 1)).
Proof.
  intros Hw. destruct (Z.neg_nonneg_cases i) as [Hi|Hi].
  { rewrite !Z.testbit_neg_r by lia. done. }
  assert (forall j, 0 <= j < w -> Z.testbit (sN w x) j = Z.testbit x j) as Hlow.
  { intros j Hj. assert (uN w (sN w x) = uN w x) as He.
    { unfold sN, uN. rewrite Zminus_mod_idemp_l. f_equal. lia. }
    apply (f_equal (fun z => Z.testbit z j)) in He. rewrite !uN_bits in He by lia.
    by rewrite (proj2 (Z.ltb_lt j w)) in He by lia. }
  destruct (Z.lt_ge_cases i w); [rewrite Z.min_l by lia; by apply Hlow|].
  rewrite Z.min_r, <- Hlow by lia.
  assert (Z.shiftr (sN w x) (w - 1) = 0 \/ Z.shiftr (sN w x) (w - 1) = -1) as Hs.
  { rewrite Z.shiftr_div_pow2 by lia. unfold sN.
    pose proof (Z.mod_pos_bound (x + 2 ^ (w - 1)) (2 ^ w)) as Hb.
    assert (2 ^ w = 2 * 2 ^ (w - 1)) as Hd.
    { rewrite <- Z.pow_succ_r by lia. f_equal. lia. }
    assert (0 < 2 ^ (w - 1)) by (apply Z.pow_pos_nonneg; lia).
    set (y := (x + 2 ^ (w - 1)) mod 2 ^ w) in *.
    destruct (Z.lt_ge_cases y (2 ^ (w - 1))).
    - right. symmetry. apply (Z.div_unique_pos _ _ (-1) y); lia.
    - left. apply Z.div_small. lia. }
  replace i with (i - (w - 1) + (w - 1)) by lia.
  replace (w - 1) with (0 + (w - 1)) at 3 by lia.
  rewrite <- !Z.shiftr_spec by lia.
  destruct Hs as [-> | ->]; [by rewrite !Z.bits_0|by rewrite !Z.bits_m1 by lia].
Qed.

(** Bitwise equality of two integers: compare them at an arbitrary bit. *)
Ltac tb :=
  repeat first
    [ rewrite Z.land_spec | rewrite Z.lor_spec | rewrite Z.lxor_spec
    | rewrite Z.ldiff_spec | rewrite Z.bits_0
    | rewrite lnot_bits'
    | rewrite shiftr_bits by lia | rewrite shiftl_bits by lia
    | rewrite uN_bits by lia | rewrite ones_bits by lia | rewrite sN_bits by lia
    | rewrite bf_get_bits' by lia | rewrite bf_set_bits by lia ].

Ltac zbits i := apply Z.bits_inj'; intros i ?; tb.

(** Case split on every integer comparison of the goal. *)
Ltac zcases :=
  repeat match goal with
  | |- context [?a <=? ?b] => destruct (Z.leb_spec a b); try lia
  | |- context [?a <? ?b] => destruct (Z.ltb_spec a b); try lia
  | |- context [?a =? ?b] => destruct (Z.eqb_spec a b); try lia
  end; cbn [andb orb negb xorb Z.b2z].

(** ** Ranges *)

Lemma pow2_pos w : 0 <= w -> 0 < 2 ^ w.
Proof. intros. apply Z.pow_pos_nonneg; lia. Qed.

Lemma uN_inw w x : 0 <= w -> inw w (uN w x).
Proof. intros. unfold inw, uN. apply Z.mod_pos_bound. by apply pow2_pos. Qed.

Lemma uN_id w x : inw w x -> uN w x = x.
Proof. intros. unfold uN. by apply Z.mod_small. Qed.

Lemma sN_range w x : 0 < w -> - 2 ^ (w - 1) <= sN w x < 2 ^ (w - 1).
Proof.
  intros. unfold sN. pose proof (Z.mod_pos_bound (x + 2 ^ (w - 1)) (2 ^ w)) as Hb.
  pose proof (pow2_pos w ltac:(lia)).
  assert (2 ^ w = 2 * 2 ^ (w - 1)) as Hd.
  { rewrite <- Z.pow_succ_r by lia. f_equal. lia. }
  lia.
Qed.

Lemma sN_uN w x : 0 < w -> sN w (uN w x) = sN w x.
Proof. intros. unfold sN, uN. by rewrite Zplus_mod_idemp_l. Qed.

Lemma uN_sN w x : 0 < w -> uN w (sN w x) = uN w x.
Proof.
  intros. unfold sN, uN. rewrite Zminus_mod_idemp_l. f_equal. lia.
Qed.

Lemma sN_eq w x : 0 < w -> inw w x ->
  sN w x = if x <? 2 ^ (w - 1) then x else x - 2 ^ w.
Proof.
  intros Hw [H0 H1]. unfold sN.
  assert (2 ^ w = 2 * 2 ^ (w - 1)) as Hd.
  { rewrite <- Z.pow_succ_r by lia. f_equal. lia. }
  pose proof (pow2_pos (w - 1) ltac:(lia)).
  destruct (Z.ltb_spec x (2 ^ (w - 1))).
  - rewrite Z.mod_small by lia. lia.
  - replace (x + 2 ^ (w - 1)) with (x - 2 ^ (w - 1) + 1 * 2 ^ w) by lia.
    rewrite Z_mod_plus_full, Z.mod_small by lia. lia.
Qed.

Lemma sN_small w x : 0 < w -> - 2 ^ (w - 1) <= x < 2 ^ (w - 1) -> sN w x = x.
Proof.
  intros Hw Hx. unfold sN.
  assert (2 ^ w = 2 * 2 ^ (w - 1)) as Hd.
  { rewrite <- Z.pow_succ_r by lia. f_equal. lia. }
  rewrite Z.mod_small by lia. lia.
Qed.

Lemma sN_inj w x y : 0 < w -> inw w x -> inw w y -> sN w x = sN w y -> x = y.
Proof.
  intros Hw Hx Hy H. rewrite <- (uN_id w x), <- (uN_id w y) by done.
  by rewrite <- (uN_sN w x), <- (uN_sN w y), H by done.
Qed.

Lemma inw_bits w x : 0 <= w -> 0 <= x ->
  (forall i, w <= i -> Z.testbit x i = false) -> inw w x.
Proof.
  intros Hw Hx Hb. split; [done|].
  assert (x = uN w x) as ->.
  { apply Z.bits_inj'. intros i Hi. rewrite uN_bits by done.
    destruct (Z.ltb_spec i w); [done|]. rewrite Hb by lia. done. }
  apply uN_inw. done.
Qed.

Lemma inw_high w x i : inw w x -> w <= i -> Z.testbit x i = false.
Proof.
  intros Hx Hi. destruct (Z.neg_nonneg_cases w) as [Hw|Hw].
  - destruct Hx. rewrite Z.pow_neg_r in * by lia. lia.
  - rewrite <- (uN_id w x) by done. rewrite uN_bits by done.
    by rewrite (proj2 (Z.ltb_ge i w)).
Qed.

Lemma inw_mono w w' x : w <= w' -> inw w x -> inw w' x.
Proof.
  intros Hw [H0 H1]. split; [done|].
  eapply Z.lt_le_trans; [done|]. apply Z.pow_le_mono_r; lia.
Qed.

Lemma inw_land w x y : 0 <= w -> inw w x -> 0 <= y -> inw w (Z.land x y).
Proof.
  intros Hw Hx Hy. apply inw_bits; [done| |].
  - apply Z.land_nonneg. left. by destruct Hx.
  - intros i Hi. rewrite Z.land_spec, (inw_high w x) by done. done.
Qed.

Lemma inw_lor w x y : 0 <= w -> inw w x -> inw w y -> inw w (Z.lor x y).
Proof.
  intros Hw Hx Hy. apply inw_bits; [done| |].
  - apply Z.lor_nonneg. split; [by destruct Hx | by destruct Hy].
  - intros i Hi. by rewrite Z.lor_spec, (inw_high w x), (inw_high w y).
Qed.

Lemma inw_lxor w x y : 0 <= w -> inw w x -> inw w y -> inw w (Z.lxor x y).
Proof.
  intros Hw Hx Hy. apply inw_bits; [done| |].
  - apply Z.lxor_nonneg. destruct Hx, Hy; lia.
  - intros i Hi. by rewrite Z.lxor_spec, (inw_high w x), (inw_high w y).
Qed.

Lemma inw_shiftr w x n : 0 <= w -> 0 <= n -> inw w x -> inw w (Z.shiftr x n).
Proof.
  intros Hw Hn Hx. apply inw_bits; [done| |].
  - apply Z.shiftr_nonneg. by destruct Hx.
  - intros i Hi. rewrite Z.shiftr_spec by lia. eapply inw_high; [done|lia].
Qed.

Lemma inw_0 w : 0 <= w -> inw w 0.
Proof. intros. split; [lia|]. by apply pow2_pos. Qed.

Lemma inw_b2z b : inw 64 (b2z b).
Proof. destruct b; split; simpl; lia. Qed.

Lemma bf_get_range raw lo len : 0 <= len -> inw len (bf_get raw lo len).
Proof.
  intros. unfold bf_get. rewrite Z.land_ones by done. by apply uN_inw.
Qed.

Lemma bf_set_inw w raw lo len v : 0 <= lo -> 0 <= len -> lo + len <= w ->
  inw w raw -> inw w (bf_set raw lo len v).
Proof.
  intros Hlo Hlen Hw Hraw. apply inw_bits; [lia| |].
  - unfold bf_set. apply Z.lor_nonneg. split.
    + apply Z.ldiff_nonneg. left. by destruct Hraw.
    + apply Z.shiftl_nonneg. apply Z.land_nonneg. right.
      rewrite Z.ones_equiv. pose proof (pow2_pos len). lia.
  - intros i Hi. rewrite bf_set_bits by lia.
    rewrite (proj2 (Z.ltb_ge i (lo + len))) by lia. rewrite andb_false_r.
    by apply (inw_high w).
Qed.

Lemma bf_get_set_same raw lo len v : 0 <= lo -> 0 <= len ->
  bf_get (bf_set raw lo len v) lo len = uN len v.
Proof.
  intros. zbits i. zcases. f_equal. lia.
Qed.

Lemma bf_get_set_other raw lo len v lo' len' : 0 <= lo -> 0 <= len -> 0 <= lo' -> 0 <= len' ->
  lo' + len' <= lo \/ lo + len <= lo' ->
  bf_get (bf_set raw lo len v) lo' len' = bf_get raw lo' len'.
Proof.
  intros. zbits i. zcases; done.
Qed.

Lemma bf_get_id w x : 0 <= w -> inw w x -> bf_get x 0 w = x.
Proof.
  intros. unfold bf_get. rewrite Z.shiftr_0_r, Z.land_ones by done. by apply uN_id.
Qed.

#[export] Hint Resolve uN_inw inw_land inw_lor inw_lxor inw_shiftr inw_0 inw_b2z
  bf_get_range bf_set_inw : rvw.
#[export] Hint Extern 1 (_ <= _) => lia : rvw.
#[export] Hint Extern 1 (_ < _) => lia : rvw.
#[export] Hint Rewrite bf_get_set_same using lia : rv.

(** ** Sparse vectors *)

Lemma sv_get_set_eq v i x : sv_get (sv_set v i x) i = x.
Proof. unfold sv_get, sv_set. simpl. by rewrite lookup_insert_eq. Qed.

Lemma sv_get_set_ne v i j x : i <> j -> sv_get (sv_set v i x) j = sv_get v j.
Proof. intros. unfold sv_get, sv_set. simpl. by rewrite lookup_insert_ne. Qed.

Lemma sv_get_resize v n i : i < sv_size v -> sv_get (sv_resize v n) i = sv_get v i.
Proof.
  intros Hi. unfold sv_get, sv_resize. simpl. f_equal.
  rewrite map_lookup_filter. destruct (sv_data v !! i) eqn:E; simpl; [|done].
  rewrite option_guard_True; [done|]. done.
Qed.
