(* ===== verification/Defs.v ===== *)
(** * Constants and data shared by every component

    [include/defines/traps.hpp] (exception codes, access sizes, the return
    records of handlers and memory operations) and
    [include/defines/csr.hpp] (CSR numbers and the bit-field unions of the
    status, interrupt, floating-point and translation registers). *)

From S2P Require Import Prelude.

(** ** Exception codes *)

Definition EXC_INST_ADDR_MISALIGNED : Z := 0.
Definition EXC_INST_ACCESS_FAULT : Z := 1.
Definition EXC_ILLEGAL_INSTRUCTION : Z := 2.
Definition EXC_BREAKPOINT : Z := 3.
Definition EXC_LOAD_ACCESS_FAULT : Z := 5.
Definition EXC_STORE_ACCESS_FAULT : Z := 7.
Definition EXC_ENV_CALL_FROM_U : Z := 8.
Definition EXC_ENV_CALL_FROM_S : Z := 9.
Definition EXC_ENV_CALL_FROM_M : Z := 11.
Definition EXC_INST_PAGE_FAULT : Z := 12.
Definition EXC_LOAD_PAGE_FAULT : Z := 13.
Definition EXC_STORE_PAGE_FAULT : Z := 15.

(** ** Return records *)

Record ExecReturn := mkExec {
  er_success : bool;
  er_can_change_pc : bool;
  er_increase_pc : Z;
  er_cause : Z;
  er_tval : Z }.

(** [{ true, false, 4, 0, 0 }] and [{ true, false, 2, 0, 0 }]: the handler
    completed and the hart moves to the next (compressed) instruction. *)
Definition exec_ok : ExecReturn := mkExec true false 4 0 0.
Definition exec_ok2 : ExecReturn := mkExec true false 2 0 0.
(** [{ true, true, 0, 0, 0 }]: the handler set the pc itself. *)
Definition exec_jump : ExecReturn := mkExec true true 0 0 0.

Record MemoryReturn := mkMem {
  mr_success : bool;
  mr_exc_code : Z;
  mr_tval : Z }.

Definition mem_ok : MemoryReturn := mkMem true 0 0.

(** [enum class MemorySize : int]. The code casts other integers to it
    ([(MemorySize)first_size]), so it is the underlying integer. *)
Definition MemorySize := Z.
Definition Byte : MemorySize := 1.
Definition Short : MemorySize := 2.
Definition Int : MemorySize := 4.
Definition Long : MemorySize := 8.

Inductive AccessType := LOAD | STORE | EXEC.

#[global] Instance AccessType_eq_dec : EqDecision AccessType.
Proof. solve_decision. Defined.

Inductive PrivilegeMode := User | Supervisor | Hypervisor | Machine.

#[global] Instance PrivilegeMode_eq_dec : EqDecision PrivilegeMode.
Proof. solve_decision. Defined.

Definition mode_val (m : PrivilegeMode) : Z :=
  match m with User => 0 | Supervisor => 1 | Hypervisor => 2 | Machine => 3 end.

(** [static_cast<PrivilegeMode>] of a two-bit field. *)
Definition mode_of (v : Z) : PrivilegeMode :=
  if v =? 0 then User else if v =? 1 then Supervisor
  else if v =? 2 then Hypervisor else Machine.

(** ** CSR numbers *)

Definition CSR_FFLAGS : Z := 0x001.
Definition CSR_FRM : Z := 0x002.
Definition CSR_FCSR : Z := 0x003.
Definition CSR_CYCLE : Z := 0xC00.
Definition CSR_TIME : Z := 0xC01.
Definition CSR_INSTRET : Z := 0xC02.
Definition CSR_HPMCOUNTER3 : Z := 0xC03.
Definition CSR_HPMCOUNTER31 : Z := 0xC1F.
Definition CSR_SSTATUS : Z := 0x100.
Definition CSR_SIE : Z := 0x104.
Definition CSR_STVEC : Z := 0x105.
Definition CSR_SCOUNTEREN : Z := 0x106.
Definition CSR_SCOUNTOVF : Z := 0xDA0.
Definition CSR_SSTATEEN0 : Z := 0x10C.
Definition CSR_SSTATEEN3 : Z := 0x10F.
Definition CSR_SEPC : Z := 0x141.
Definition CSR_SCAUSE : Z := 0x142.
Definition CSR_STVAL : Z := 0x143.
Definition CSR_SIP : Z := 0x144.
Definition CSR_STIMECMP : Z := 0x14D.
Definition CSR_SATP : Z := 0x180.
Definition CSR_MVENDORID : Z := 0xF11.
Definition CSR_MARCHID : Z := 0xF12.
Definition CSR_MIMPID : Z := 0xF13.
Definition CSR_MHARTID : Z := 0xF14.
Definition CSR_MSTATUS : Z := 0x300.
Definition CSR_MISA : Z := 0x301.
Definition CSR_MEDELEG : Z := 0x302.
Definition CSR_MIDELEG : Z := 0x303.
Definition CSR_MIE : Z := 0x304.
Definition CSR_MTVEC : Z := 0x305.
Definition CSR_MCOUNTEREN : Z := 0x306.
Definition CSR_MSTATEEN0 : Z := 0x30C.
Definition CSR_MSTATEEN3 : Z := 0x30F.
Definition CSR_MCYCLECFG : Z := 0x321.
Definition CSR_MEPC : Z := 0x341.
Definition CSR_MCAUSE : Z := 0x342.
Definition CSR_MTVAL : Z := 0x343.
Definition CSR_MIP : Z := 0x344.
Definition CSR_MCYCLE : Z := 0xB00.
Definition CSR_MINSTRET : Z := 0xB02.
Definition CSR_TSELECT : Z := 0x7A0.
Definition CSR_TDATA1 : Z := 0x7A1.
Definition CSR_TDATA3 : Z := 0x7A3.
Definition CSR_MTOPI : Z := 0xFB0.

Definition SSTATUS_MASK : Z := 0x80000003000DE762.
Definition SE_MASK : Z := 0x222.
Definition MSTATUS_RO_MASK : Z := 0xF00000000.

(** ** Bit-field unions

    A union is its [raw] integer; a member of its [fields] struct is the
    bits [[bf_lo, bf_lo + bf_len)] of it. *)

Record bitfield := BF { bf_lo : Z; bf_len : Z }.

Definition getf (raw : Z) (f : bitfield) : Z := bf_get raw (bf_lo f) (bf_len f).
Definition setf (raw : Z) (f : bitfield) (v : Z) : Z := bf_set raw (bf_lo f) (bf_len f) v.
(** A one-bit field used as a condition. *)
Definition flag (raw : Z) (f : bitfield) : bool := negb (getf raw f =? 0).

Module Status.
Definition SIE := BF 1 1.
Definition MIE := BF 3 1.
Definition SPIE := BF 5 1.
Definition UBE := BF 6 1.
Definition MPIE := BF 7 1.
Definition SPP := BF 8 1.
Definition VS := BF 9 2.
Definition MPP := BF 11 2.
Definition FS := BF 13 2.
Definition XS := BF 15 2.
Definition MPRV := BF 17 1.
Definition SUM := BF 18 1.
Definition MXR := BF 19 1.
Definition TVM := BF 20 1.
Definition TW := BF 21 1.
Definition TSR := BF 22 1.
Definition UXL := BF 32 2.
Definition SXL := BF 34 2.
Definition SBE := BF 36 1.
Definition MBE := BF 37 1.
Definition SD := BF 63 1.
End Status.

(** [ip_t] and [ie_t] share one layout. *)
Module Irq.
Definition SSI := BF 1 1.
Definition MSI := BF 3 1.
Definition STI := BF 5 1.
Definition MTI := BF 7 1.
Definition SEI := BF 9 1.
Definition MEI := BF 11 1.
End Irq.

Module Fcsr.
Definition fflags := BF 0 5.
Definition frm := BF 5 3.
End Fcsr.

Module Satp.
Definition ppn := BF 0 44.
Definition asid := BF 44 16.
Definition mode := BF 60 4.
End Satp.

(** ** Lemmas on fields *)

Definition bf_ok (w : Z) (f : bitfield) : bool :=
  (0 <=? bf_lo f) && (0 <=? bf_len f) && (bf_lo f + bf_len f <=? w).

Definition bf_disjoint (f g : bitfield) : bool :=
  bf_ok 64 f && bf_ok 64 g &&
  ((bf_lo g + bf_len g <=? bf_lo f) || (bf_lo f + bf_len f <=? bf_lo g)).

Lemma getf_setf_same raw f v : bf_ok 64 f = true ->
  getf (setf raw f v) f = uN (bf_len f) v.
Proof. unfold bf_ok. intros. bool_hyps. apply bf_get_set_same; lia. Qed.

Lemma getf_setf_other raw f g v : bf_disjoint f g = true ->
  getf (setf raw f v) g = getf raw g.
Proof.
  unfold bf_disjoint, bf_ok. intros H. bool_hyps.
  apply bf_get_set_other; lia.
Qed.

Lemma flag_setf_other raw f g v : bf_disjoint f g = true ->
  flag (setf raw f v) g = flag raw g.
Proof. intros. unfold flag. by rewrite getf_setf_other. Qed.

Lemma flag_setf_same raw f v : bf_ok 64 f = true ->
  flag (setf raw f v) f = negb (uN (bf_len f) v =? 0).
Proof. intros. unfold flag. by rewrite getf_setf_same. Qed.

Lemma setf_inw w raw f v : bf_ok w f = true -> inw w raw -> inw w (setf raw f v).
Proof. unfold bf_ok. intros. bool_hyps. apply bf_set_inw; lia || done. Qed.

Lemma getf_inw raw f : 0 <= bf_len f -> inw (bf_len f) (getf raw f).
Proof. intros. by apply bf_get_range. Qed.

(** A one-bit field is 0 or 1. *)
Lemma getf_bit raw f : bf_len f = 1 -> getf raw f = b2z (flag raw f).
Proof.
  intros Hl. unfold flag. pose proof (getf_inw raw f) as H. rewrite Hl in H.
  destruct H as [H0 H1]; [lia|]. change (2 ^ 1) with 2 in H1.
  destruct (Z.eqb_spec (getf raw f) 0); simpl; lia.
Qed.

Lemma mode_of_val m : mode_of (mode_val m) = m.
Proof. by destruct m. Qed.

Lemma mode_val_inw m : inw 2 (mode_val m).
Proof. destruct m; split; simpl; lia. Qed.

(** Simplify reads of fields after writes of other fields. *)
Ltac fields :=
  repeat first
    [ rewrite getf_setf_same by reflexivity
    | rewrite getf_setf_other by reflexivity
    | rewrite flag_setf_other by reflexivity ].
