(* ===== verification/MemoryMap.v ===== *)
(** * Guest memory ([include/memory_map.hpp])

    A [MemoryMap] is a vector of heap-allocated regions plus [ram_direct], a
    pointer to the region that serves every address from [0x80000000] up;
    [ram_direct] is modelled as the index of that region in the vector, so
    that an access through either path reaches the same bytes. A region's
    array is sparse, absent bytes being the zeros [new uint8_t[size]{0}]
    stored. An access outside a region's array is undefined behaviour. *)

From S2P Require Import Prelude Defs.

Definition RAM_BASE : Z := 0x80000000.

Record MemoryRegion := mkRegion {
  base_addr : Z;
  size : Z;
  data : gmap Z Z }.

Record MemoryMap := mkMemoryMap {
  regions : list MemoryRegion;
  ram_direct : option nat }.

(** ** Bytes of an array *)

(** [p[i]] as a value, and a little-endian read of [n] bytes from [off]. *)
Definition byte_at (d : gmap Z Z) (i : Z) : Z := default 0 (d !! i).

Fixpoint le_read (d : gmap Z Z) (off : Z) (n : nat) : Z :=
  match n with
  | O => 0
  | S n' => Z.lor (byte_at d off) (Z.shiftl (le_read d (off + 1) n') 8)
  end.

Fixpoint le_write (d : gmap Z Z) (off : Z) (n : nat) (v : Z) : gmap Z Z :=
  match n with
  | O => d
  | S n' => <[off := u8 v]> (le_write d (off + 1) n' (Z.shiftr v 8))
  end.

(** [*(uintN_t* )(data + off)] of [n] bytes, read and written: undefined
    outside the array. *)
Definition in_array (r : MemoryRegion) (off : Z) (n : nat) : bool :=
  (0 <=? off) && (off + Z.of_nat n <=? size r).

Definition reg_read (r : MemoryRegion) (off : Z) (n : nat) : outcome Z :=
  if in_array r off n then Ret (le_read (data r) off n) else Undef.

Definition reg_write (r : MemoryRegion) (off : Z) (n : nat) (v : Z) : outcome MemoryRegion :=
  if in_array r off n
  then Ret (mkRegion (base_addr r) (size r) (le_write (data r) off n v))
  else Undef.

(** ** [MemoryRegion] *)

(** [ptr]: the offset of [addr] in the array, or [std::out_of_range]; the
    bound [base_addr + size] is computed in 64 bits. *)
Definition ptr (r : MemoryRegion) (addr : Z) : outcome Z :=
  if (addr <? base_addr r) || (u64 (base_addr r + size r) <=? addr)
  then Throw out_of_range
  else Ret (addr - base_addr r).

(** [MemoryRegion(base, sz)]. *)
Definition new_region (base sz : Z) : MemoryRegion := mkRegion base sz ∅.

(** ** [MemoryMap] *)

Definition mmap_empty : MemoryMap := mkMemoryMap [] None.

Definition add_region (m : MemoryMap) (base sz : Z) : MemoryMap :=
  mkMemoryMap (regions m ++ [new_region base sz])
              (if RAM_BASE <=? base then Some (length (regions m)) else ram_direct m).

Definition region_contains (r : MemoryRegion) (addr : Z) : bool :=
  (base_addr r <=? addr) && (addr <? u64 (base_addr r + size r)).

(** The loop of [find_region] over [regions]. *)
Fixpoint find_in (rs : list MemoryRegion) (i : nat) (addr : Z) : option nat :=
  match rs with
  | [] => None
  | r :: rs' => if region_contains r addr then Some i else find_in rs' (S i) addr
  end.

(** [find_region]: the region pointer (possibly null, when no RAM region was
    added) or an exception. *)
Definition find_region (m : MemoryMap) (addr : Z) : outcome (option nat) :=
  if RAM_BASE <=? addr then Ret (ram_direct m)
  else match find_in (regions m) 0 addr with
       | Some i => Ret (Some i)
       | None => Throw out_of_range
       end.

(** Dereference of a region pointer. *)
Definition deref (m : MemoryMap) (p : option nat) : outcome MemoryRegion :=
  match p ≫= (fun i => regions m !! i) with
  | Some r => Ret r
  | None => Undef
  end.

Definition set_region (m : MemoryMap) (p : option nat) (r : MemoryRegion) : MemoryMap :=
  match p with
  | Some i => mkMemoryMap (<[i := r]> (regions m)) (ram_direct m)
  | None => m
  end.

(** [for(i = 0; i < n; ++i) value |= p[i] << (i * 8)]: [k] iterations are left. *)
Fixpoint load_loop (r : MemoryRegion) (off i : Z) (k : nat) (value : Z) : outcome Z :=
  match k with
  | O => Ret value
  | S k' =>
      b ← reg_read r (off + i) 1;
      load_loop r off (i + 1) k' (Z.lor value (Z.shiftl b (i * 8)))
  end.

Definition bad_size (sz : Z) : bool := (sz =? 0) || (64 <? sz) || negb (Z.land sz 7 =? 0).

Definition load (m : MemoryMap) (addr sz : Z) : outcome Z :=
  p ← find_region m addr;
  r ← deref m p;
  off ← ptr r addr;
  if sz =? 8 then reg_read r off 1
  else if sz =? 16 then
    b0 ← reg_read r off 1; b1 ← reg_read r (off + 1) 1;
    Ret (Z.lor b0 (Z.shiftl b1 8))
  else if sz =? 32 then
    b0 ← reg_read r off 1; b1 ← reg_read r (off + 1) 1;
    b2 ← reg_read r (off + 2) 1; b3 ← reg_read r (off + 3) 1;
    Ret (Z.lor (Z.lor (Z.lor b0 (Z.shiftl b1 8)) (Z.shiftl b2 16)) (Z.shiftl b3 24))
  else if sz =? 64 then load_loop r off 0 8 0
  else if bad_size sz then Throw invalid_argument
  else load_loop r off 0 (Z.to_nat (Z.shiftr sz 3)) 0.

(** [for(i = 0; i < n; ++i) p[i] = (uint8_t)(value >> (i * 8))]. *)
Fixpoint store_loop (r : MemoryRegion) (off i : Z) (k : nat) (value : Z) : outcome MemoryRegion :=
  match k with
  | O => Ret r
  | S k' =>
      r' ← reg_write r (off + i) 1 (Z.shiftr value (i * 8));
      store_loop r' off (i + 1) k' value
  end.

Definition store (m : MemoryMap) (addr sz value : Z) : outcome MemoryMap :=
  p ← find_region m addr;
  r ← deref m p;
  off ← ptr r addr;
  r' ← (if sz =? 8 then reg_write r off 1 value
        else if sz =? 16 then
          r1 ← reg_write r off 1 value; reg_write r1 (off + 1) 1 (Z.shiftr value 8)
        else if sz =? 32 then
          r1 ← reg_write r off 1 value; r2 ← reg_write r1 (off + 1) 1 (Z.shiftr value 8);
          r3 ← reg_write r2 (off + 2) 1 (Z.shiftr value 16);
          reg_write r3 (off + 3) 1 (Z.shiftr value 24)
        else if sz =? 64 then store_loop r off 0 8 value
        else if bad_size sz then Throw invalid_argument
        else store_loop r off 0 (Z.to_nat (Z.shiftr sz 3)) value);
  Ret (set_region m p r').

(** ** Raw accesses through [get_ram_direct()->get_data()] *)

Definition ram (m : MemoryMap) : option MemoryRegion :=
  ram_direct m ≫= (fun i => regions m !! i).

Definition ram_read (m : MemoryMap) (off : Z) (n : nat) : outcome Z :=
  r ← deref m (ram_direct m); reg_read r off n.

Definition ram_write (m : MemoryMap) (off : Z) (n : nat) (v : Z) : outcome MemoryMap :=
  r ← deref m (ram_direct m);
  r' ← reg_write r off n v;
  Ret (set_region m (ram_direct m) r').

(** ** Lemmas on byte arrays *)

Lemma le_write_byte d off n v i :
  byte_at (le_write d off n v) i =
  if ((off <=? i) && (i <? off + Z.of_nat n))%bool
  then u8 (Z.shiftr v (8 * (i - off))) else byte_at d i.
Proof.
  revert off v. induction n as [|n IH]; intros off v; simpl le_write.
  - replace (off + Z.of_nat 0) with off by lia. zcases; done.
  - unfold byte_at at 1. rewrite lookup_insert. case_decide as Heq.
    + subst. simpl. replace (8 * (i - i)) with 0 by lia.
      rewrite Z.shiftr_0_r. zcases; done.
    + fold (byte_at (le_write d (off + 1) n (Z.shiftr v 8)) i). rewrite IH.
      rewrite Nat2Z.inj_succ. zcases; try done.
      rewrite Z.shiftr_shiftr by lia. do 2 f_equal. lia.
Qed.

Lemma le_read_ext d1 d2 off n :
  (forall i, off <= i < off + Z.of_nat n -> byte_at d1 i = byte_at d2 i) ->
  le_read d1 off n = le_read d2 off n.
Proof.
  revert off. induction n as [|n IH]; intros off H; simpl; [done|].
  rewrite H by lia. rewrite (IH (off + 1)); [done|]. intros. apply H. lia.
Qed.

Lemma le_read_bytes d off n v :
  (forall i, 0 <= i < Z.of_nat n -> byte_at d (off + i) = u8 (Z.shiftr v (8 * i))) ->
  le_read d off n = uN (8 * Z.of_nat n) v.
Proof.
  revert off v. induction n as [|n IH]; intros off v H; simpl le_read.
  - unfold uN. simpl. by rewrite Z.mod_1_r.
  - rewrite (IH (off + 1) (Z.shiftr v 8)).
    + specialize (H 0 ltac:(lia)). rewrite Z.add_0_r in H. rewrite H.
      rewrite Z.shiftr_0_r. zbits i. zcases; rewrite ?orb_false_r; f_equal; lia.
    + intros i Hi. specialize (H (1 + i) ltac:(lia)).
      rewrite Z.add_assoc in H. rewrite H. rewrite Z.shiftr_shiftr by lia.
      do 2 f_equal. lia.
Qed.

Lemma le_read_write_same d off n v : le_read (le_write d off n v) off n = uN (8 * Z.of_nat n) v.
Proof.
  apply le_read_bytes. intros i Hi. rewrite le_write_byte.
  zcases. do 2 f_equal. lia.
Qed.

Lemma le_read_write_disj d off n v off' n' :
  off' + Z.of_nat n' <= off \/ off + Z.of_nat n <= off' ->
  le_read (le_write d off n v) off' n' = le_read d off' n'.
Proof. intros H. apply le_read_ext. intros i Hi. rewrite le_write_byte. zcases; done. Qed.

(** Writing [k] bytes and then the byte above them is writing [k + 1] bytes. *)
Lemma le_write_snoc d off k v :
  <[off + Z.of_nat k := u8 (Z.shiftr v (8 * Z.of_nat k))]> (le_write d off k v) =
  le_write d off (S k) v.
Proof.
  revert off v. induction k as [|k IH]; intros off v.
  - simpl. by rewrite Z.add_0_r, Z.shiftr_0_r.
  - change (le_write d off (S (S k)) v)
      with (<[off := u8 v]> (le_write d (off + 1) (S k) (Z.shiftr v 8))).
    rewrite <- (IH (off + 1)). simpl (le_write d off (S k) v).
    rewrite Z.shiftr_shiftr, insert_insert_ne by lia.
    replace (off + Z.of_nat (S k)) with (off + 1 + Z.of_nat k) by lia.
    replace (8 * Z.of_nat (S k)) with (8 + 8 * Z.of_nat k) by lia. done.
Qed.

Lemma le_read_snoc d off k :
  le_read d off (S k) =
  Z.lor (le_read d off k) (Z.shiftl (byte_at d (off + Z.of_nat k)) (8 * Z.of_nat k)).
Proof.
  revert off. induction k as [|k IH]; intros off.
  - simpl. rewrite Z.add_0_r, Z.shiftl_0_r, Z.lor_0_r. done.
  - change (le_read d off (S (S k)))
      with (Z.lor (byte_at d off) (Z.shiftl (le_read d (off + 1) (S k)) 8)).
    rewrite IH. simpl (le_read d off (S k)).
    rewrite Z.shiftl_lor, Z.lor_assoc, Z.shiftl_shiftl by lia.
    f_equal. f_equal; [f_equal|]; lia.
Qed.

Lemma le_read_inw d off n : (forall i, inw 8 (byte_at d i)) -> inw (8 * Z.of_nat n) (le_read d off n).
Proof.
  intros Hd. revert off. induction n as [|n IH]; intros off; simpl le_read.
  - split; simpl; lia.
  - apply inw_bits; [lia| |].
    + apply Z.lor_nonneg. split; [by destruct (Hd off)|].
      apply Z.shiftl_nonneg. by destruct (IH (off + 1)).
    + intros i Hi. rewrite Z.lor_spec, Z.shiftl_spec by lia.
      rewrite (inw_high 8 (byte_at d off)) by (done || lia).
      rewrite (inw_high _ _ (i - 8) (IH (off + 1))) by lia. done.
Qed.

(** ** The unrolled sizes of [load] and [store] are the byte loop, and the
    loop is one little-endian access. *)

Lemma in_array_byte r off k : 0 <= off -> off + Z.of_nat k <= size r ->
  in_array r (off + Z.of_nat k) 1 = in_array r off (S k).
Proof. intros. unfold in_array. zcases; done. Qed.

Lemma in_array_S r off k : in_array r off (S k) = true -> in_array r off k = true.
Proof. unfold in_array. intros. bool_hyps. zcases; done. Qed.

Lemma reg_read_snoc r off k : 0 <= off ->
  (b ← reg_read r off k; c ← reg_read r (off + Z.of_nat k) 1;
   Ret (Z.lor b (Z.shiftl c (8 * Z.of_nat k)))) = reg_read r off (S k).
Proof.
  intros Hoff. unfold reg_read. destruct (in_array r off k) eqn:E.
  - unfold in_array in E. bool_hyps. rewrite in_array_byte by lia.
    destruct (in_array r off (S k)); [|done]. cbn. rewrite Z.lor_0_r.
    rewrite <- le_read_snoc. done.
  - destruct (in_array r off (S k)) eqn:E2; [|done].
    apply in_array_S in E2. congruence.
Qed.

Lemma reg_write_snoc r off k v : 0 <= off ->
  (r1 ← reg_write r off k v; reg_write r1 (off + Z.of_nat k) 1 (Z.shiftr v (8 * Z.of_nat k)))
  = reg_write r off (S k) v.
Proof.
  intros Hoff. unfold reg_write. destruct (in_array r off k) eqn:E.
  - unfold in_array in E. bool_hyps. cbn [mbind outcome_bind].
    assert (in_array (mkRegion (base_addr r) (size r) (le_write (data r) off k v))
              (off + Z.of_nat k) 1 = in_array r off (S k)) as ->.
    { rewrite in_array_byte by (simpl; lia). done. }
    destruct (in_array r off (S k)); [|done].
    rewrite <- (le_write_snoc (data r)). done.
  - destruct (in_array r off (S k)) eqn:E2; [|done].
    apply in_array_S in E2. congruence.
Qed.

Lemma load_loop_read r off j k : 0 <= off ->
  (a ← reg_read r off j; load_loop r off (Z.of_nat j) k a) = reg_read r off (j + k).
Proof.
  intros Hoff. revert j. induction k as [|k IH]; intros j.
  - rewrite Nat.add_0_r. by destruct (reg_read r off j).
  - replace (j + S k)%nat with (S j + k)%nat by lia. rewrite <- IH, <- reg_read_snoc by done.
    simpl load_loop. replace (Z.of_nat j + 1) with (Z.of_nat (S j)) by lia.
    replace (Z.of_nat j * 8) with (8 * Z.of_nat j) by lia.
    destruct (reg_read r off j); [|done..]. cbn [mbind outcome_bind].
    by destruct (reg_read r (off + Z.of_nat j) 1).
Qed.

Lemma store_loop_write r off j k v : 0 <= off ->
  (r1 ← reg_write r off j v; store_loop r1 off (Z.of_nat j) k v) = reg_write r off (j + k) v.
Proof.
  intros Hoff. revert j. induction k as [|k IH]; intros j.
  - rewrite Nat.add_0_r. by destruct (reg_write r off j v).
  - replace (j + S k)%nat with (S j + k)%nat by lia. rewrite <- IH, <- reg_write_snoc by done.
    simpl store_loop. replace (Z.of_nat j + 1) with (Z.of_nat (S j)) by lia.
    replace (Z.of_nat j * 8) with (8 * Z.of_nat j) by lia.
    by destruct (reg_write r off j v).
Qed.

(** ** Well-formed maps: bytes are bytes, bases are addresses, and
    [ram_direct] points into the vector. *)

Definition wf_region (r : MemoryRegion) : Prop :=
  inw 64 (base_addr r) /\ inw 64 (size r) /\ forall i, inw 8 (byte_at (data r) i).

Definition wf_mmap (m : MemoryMap) : Prop :=
  Forall wf_region (regions m) /\
  match ram_direct m with Some i => (i < length (regions m))%nat | None => True end.

(** The number of bytes a legal access size moves. *)
Definition nbytes (sz : Z) : nat := Z.to_nat (Z.shiftr sz 3).

Lemma ptr_ret r addr off : wf_region r -> ptr r addr = Ret off ->
  off = addr - base_addr r /\ 0 <= off < size r.
Proof.
  intros (Hb & Hs & _) H. unfold ptr in H. case_hyp H; [done|]. simplify_eq.
  apply orb_false_iff in E as [E1 E2]. bool_hyps.
  pose proof (Z.mod_le (base_addr r + size r) (2 ^ 64)) as Hm.
  destruct Hb, Hs. unfold uN in *. lia.
Qed.

Lemma reg_read_0 r off : 0 <= off <= size r -> reg_read r off 0 = Ret 0.
Proof. intros. unfold reg_read, in_array. zcases. done. Qed.

Lemma reg_write_0 r off v : 0 <= off <= size r -> reg_write r off 0 v = Ret r.
Proof. intros. unfold reg_write, in_array. zcases. by destruct r. Qed.

Lemma deref_wf m p r : wf_mmap m -> deref m p = Ret r ->
  exists i, p = Some i /\ regions m !! i = Some r /\ wf_region r.
Proof.
  intros [Hf _] H. unfold deref in H. destruct p as [i|]; [|done]. simpl in H.
  destruct (regions m !! i) as [r'|] eqn:E; [|done]. simplify_eq.
  exists i. repeat split; try done. all: eapply Forall_lookup_1 in Hf; [|done]; apply Hf.
Qed.

Lemma load_read m addr sz : wf_mmap m -> bad_size sz = false ->
  load m addr sz =
  (p ← find_region m addr; r ← deref m p; off ← ptr r addr; reg_read r off (nbytes sz)).
Proof.
  intros Hm Hsz. unfold load. destruct (find_region m addr) as [p|e|]; [|done..]. simpl.
  destruct (deref m p) as [r|e|] eqn:Er; [|done..]. simpl.
  destruct (ptr r addr) as [off|e|] eqn:Ep; [|done..]. simpl.
  apply deref_wf in Er as (i & _ & _ & Hr); [|done].
  apply ptr_ret in Ep as [_ Hoff]; [|done].
  destruct (Z.eqb_spec sz 8) as [->|]; [done|].
  destruct (Z.eqb_spec sz 16) as [->|]; [by change (nbytes 16) with 2%nat; rewrite <- (reg_read_snoc r off 1) by lia|].
  destruct (Z.eqb_spec sz 32) as [->|].
  { change (nbytes 32) with 4%nat. rewrite <- (reg_read_snoc r off 3), <- (reg_read_snoc r off 2),
      <- (reg_read_snoc r off 1) by lia.
    change (Z.of_nat 1) with 1; change (Z.of_nat 2) with 2; change (Z.of_nat 3) with 3.
    destruct (reg_read r off 1); [|done..]. cbn [mbind outcome_bind].
    destruct (reg_read r (off + 1) 1); [|done..]. cbn [mbind outcome_bind].
    by destruct (reg_read r (off + 2) 1). }
  rewrite Hsz. destruct (Z.eqb_spec sz 64) as [->|].
  all: match goal with |- _ = reg_read _ _ ?n =>
         pose proof (load_loop_read r off 0 n) as Hl end;
       rewrite reg_read_0 in Hl by lia; apply Hl; lia.
Qed.

Lemma store_write m addr sz v : wf_mmap m -> bad_size sz = false ->
  store m addr sz v =
  (p ← find_region m addr; r ← deref m p; off ← ptr r addr;
   r' ← reg_write r off (nbytes sz) v; Ret (set_region m p r')).
Proof.
  intros Hm Hsz. unfold store. destruct (find_region m addr) as [p|e|]; [|done..]. simpl.
  destruct (deref m p) as [r|e|] eqn:Er; [|done..]. simpl.
  destruct (ptr r addr) as [off|e|] eqn:Ep; [|done..]. simpl.
  apply deref_wf in Er as (i & _ & _ & Hr); [|done].
  apply ptr_ret in Ep as [_ Hoff]; [|done].
  f_equal.
  destruct (Z.eqb_spec sz 8) as [->|]; [done|].
  destruct (Z.eqb_spec sz 16) as [->|]; [by change (nbytes 16) with 2%nat; rewrite <- (reg_write_snoc r off 1) by lia|].
  destruct (Z.eqb_spec sz 32) as [->|].
  { change (nbytes 32) with 4%nat. rewrite <- (reg_write_snoc r off 3), <- (reg_write_snoc r off 2),
      <- (reg_write_snoc r off 1) by lia.
    change (Z.of_nat 1) with 1; change (Z.of_nat 2) with 2; change (Z.of_nat 3) with 3.
    destruct (reg_write r off 1 v) as [r1| |]; [|done..]. cbn [mbind outcome_bind].
    by destruct (reg_write r1 (off + 1) 1 _). }
  rewrite Hsz. destruct (Z.eqb_spec sz 64) as [->|].
  all: match goal with |- _ = reg_write _ _ ?n _ =>
         pose proof (store_loop_write r off 0 n v) as Hl end;
       rewrite reg_write_0 in Hl by lia; apply Hl; lia.
Qed.

(** ** Stores keep the layout: the bases and sizes of the regions and the
    RAM pointer. *)

Definition layout (m : MemoryMap) : list (Z * Z) * option nat :=
  (map (fun r => (base_addr r, size r)) (regions m), ram_direct m).

Lemma find_in_layout rs rs' i addr :
  map (fun r => (base_addr r, size r)) rs = map (fun r => (base_addr r, size r)) rs' ->
  find_in rs i addr = find_in rs' i addr.
Proof.
  revert rs' i. induction rs as [|r rs IH]; intros [|r' rs'] i H; try done.
  injection H as Hb Hs Ht. simpl. unfold region_contains. rewrite Hb, Hs. by rewrite (IH rs').
Qed.

Lemma find_region_layout m m' addr : layout m = layout m' ->
  find_region m addr = find_region m' addr.
Proof.
  unfold layout. intros [= Hr Hd]. unfold find_region.
  rewrite Hd. by rewrite (find_in_layout _ (regions m')).
Qed.

Lemma set_region_layout m i r r' : regions m !! i = Some r ->
  base_addr r' = base_addr r -> size r' = size r ->
  layout (set_region m (Some i) r') = layout m.
Proof.
  intros Hi Hb Hs. unfold layout, set_region. simpl. f_equal.
  rewrite <- (list_insert_id (regions m) i r) at 2 by done.
  rewrite !list_fmap_insert. by rewrite Hb, Hs.
Qed.

Lemma reg_write_ret r off n v r' : reg_write r off n v = Ret r' ->
  in_array r off n = true /\ base_addr r' = base_addr r /\ size r' = size r /\
  data r' = le_write (data r) off n v.
Proof. unfold reg_write. destruct (in_array r off n); intros; by simplify_eq/=. Qed.

Lemma reg_write_wf r off n v r' : wf_region r -> reg_write r off n v = Ret r' -> wf_region r'.
Proof.
  intros (Hb & Hs & Hd) H. apply reg_write_ret in H as (_ & Hb' & Hs' & Hd').
  unfold wf_region. rewrite Hb', Hs', Hd'. split; [done|]. split; [done|].
  intros i. rewrite le_write_byte. case_match; [by apply uN_inw|apply Hd].
Qed.

Lemma set_region_wf m i r : wf_mmap m -> wf_region r -> wf_mmap (set_region m (Some i) r).
Proof.
  intros [Hf Hr] Hw. split; simpl.
  - by apply Forall_insert.
  - by rewrite length_insert.
Qed.

(** What a successful [store] did. *)
Lemma store_ret m addr sz v m' : wf_mmap m -> bad_size sz = false ->
  store m addr sz v = Ret m' ->
  exists i r r', find_region m addr = Ret (Some i) /\ regions m !! i = Some r /\
    ptr r addr = Ret (addr - base_addr r) /\ wf_region r /\
    reg_write r (addr - base_addr r) (nbytes sz) v = Ret r' /\
    m' = set_region m (Some i) r'.
Proof.
  intros Hm Hsz H. rewrite store_write in H by done.
  destruct (find_region m addr) as [p|e|] eqn:Ef; [|done..]. simpl in H.
  destruct (deref m p) as [r|e|] eqn:Er; [|done..]. simpl in H.
  destruct (ptr r addr) as [off|e|] eqn:Ep; [|done..]. simpl in H.
  destruct (reg_write r off (nbytes sz) v) as [r'|e|] eqn:Ew; [|done..]. simpl in H.
  apply deref_wf in Er as (i & -> & Hi & Hr); [|done].
  pose proof (ptr_ret r addr off Hr Ep) as [-> _]. simplify_eq.
  eauto 12.
Qed.

Lemma nbytes_bits sz : 0 <= sz -> bad_size sz = false ->
  8 * Z.of_nat (nbytes sz) = sz /\ 0 < sz <= 64.
Proof.
  unfold bad_size, nbytes. intros Hp H. bool_hyps.
  change 7 with (Z.ones 3) in *. rewrite Z.land_ones in * by lia.
  rewrite Z.shiftr_div_pow2 by lia. change (2 ^ 3) with 8 in *.
  split; [|lia]. rewrite Z2Nat.id by (apply Z.div_pos; lia).
  pose proof (Z.div_mod sz 8). lia.
Qed.

Lemma load_set_region m i r r' a sz : wf_mmap m -> wf_mmap (set_region m (Some i) r') ->
  regions m !! i = Some r -> base_addr r' = base_addr r -> size r' = size r ->
  bad_size sz = false ->
  (find_region m a = Ret (Some i) -> forall off, off = a - base_addr r ->
     le_read (data r') off (nbytes sz) = le_read (data r) off (nbytes sz)) ->
  load (set_region m (Some i) r') a sz = load m a sz.
Proof.
  intros Hm Hm' Hi Hb Hs Hsz Hsame. rewrite !load_read by done.
  rewrite (find_region_layout _ m) by (by eapply set_region_layout).
  destruct (find_region m a) as [p|e|] eqn:Ef; [|done..]. simpl.
  destruct p as [j|]; [|done]. unfold deref. simpl. rewrite list_lookup_insert.
  destruct (decide (i = j)) as [->|Hne].
  2:{ rewrite decide_False by naive_solver. done. }
  rewrite Hi. assert (j < length (regions m))%nat by (by eapply lookup_lt_Some).
  rewrite decide_True by done. simpl. unfold ptr. rewrite Hb, Hs.
  destruct (_ || _); [done|]. simpl. unfold reg_read, in_array. rewrite Hs.
  by rewrite (Hsame eq_refl _ eq_refl).
Qed.

(** A value stored with a legal size is loaded back, truncated to that
    size, from the same address. *)
Lemma load_store_same m addr sz v m' :
  wf_mmap m -> 0 <= sz -> bad_size sz = false -> store m addr sz v = Ret m' ->
  load m' addr sz = Ret (uN sz v).
Proof.
  intros Hm Hp Hsz H. apply store_ret in H as (i & r & r' & Hf & Hi & Hpt & Hr & Hw & ->); [|done..].
  pose proof (reg_write_wf _ _ _ _ _ Hr Hw) as Hr'.
  apply reg_write_ret in Hw as (Hin & Hb & Hs & Hd).
  rewrite load_read by (done || by apply set_region_wf).
  rewrite (find_region_layout _ m) by (by eapply set_region_layout). rewrite Hf. simpl.
  unfold deref. simpl. rewrite list_lookup_insert_eq by (by eapply lookup_lt_Some). simpl.
  unfold ptr in *. rewrite Hb, Hs. destruct (_ || _); [done|]. simpl.
  unfold reg_read, in_array in *. rewrite Hs, Hin, Hd, le_read_write_same.
  by destruct (nbytes_bits sz) as [-> _].
Qed.

(** A store changes no other byte: a load of any range of addresses
    disjoint from the stored one gives what it gave before, in the same region
    or in another one, faults included. *)
Lemma load_store_disjoint m addr sz v m' a sz' :
  wf_mmap m -> 0 <= sz -> 0 <= sz' -> bad_size sz = false -> bad_size sz' = false ->
  store m addr sz v = Ret m' ->
  a + sz' / 8 <= addr \/ addr + sz / 8 <= a ->
  load m' a sz' = load m a sz'.
Proof.
  intros Hm Hp Hp' Hsz Hsz' H Hdis.
  apply store_ret in H as (i & r & r' & Hf & Hi & Hpt & Hr & Hw & ->); [|done..].
  pose proof (reg_write_wf _ _ _ _ _ Hr Hw) as Hr'.
  apply reg_write_ret in Hw as (Hin & Hb & Hs & Hd).
  apply (load_set_region m i r r'); try done; [by apply set_region_wf|].
  intros _ off ->. rewrite Hd. apply le_read_write_disj.
  destruct (nbytes_bits sz) as [E _]; [done..|].
  destruct (nbytes_bits sz') as [E' _]; [done..|].
  rewrite <- E, <- E' in Hdis. rewrite !(Z.mul_comm 8), !Z.div_mul in Hdis by lia. lia.
Qed.

(** [add_region] and [store] keep the map well-formed. *)
Lemma mmap_ops_wf m :
  wf_mmap m ->
  (forall base sz, inw 64 base -> inw 64 sz -> wf_mmap (add_region m base sz)) /\
  (forall addr sz v m', bad_size sz = false -> store m addr sz v = Ret m' -> wf_mmap m').
Proof.
  intros Hm. split.
  - intros base sz Hb Hsz. destruct Hm as [Hf Hd]. split; simpl.
    + apply Forall_app. split; [done|]. apply Forall_singleton.
      split; [done|]. split; [done|]. intros i. unfold byte_at. simpl.
      rewrite lookup_empty. by apply inw_0.
    + rewrite length_app. simpl. destruct (RAM_BASE <=? base); [lia|].
      destruct (ram_direct m); [lia|done].
  - intros addr sz v m' Hsz H.
    apply store_ret in H as (i & r & r' & Hf & Hi & Hpt & Hr & Hw & ->); [|done..].
    apply set_region_wf; [done|]. by eapply reg_write_wf.
Qed.

(** C1: a value stored with a legal size at a mapped address is loaded back
    truncated to that size, loads of disjoint addresses are unaffected, and
    the memory map stays well-formed. *)
Theorem load_store m addr sz v m' :
  wf_mmap m -> 0 <= sz -> bad_size sz = false -> store m addr sz v = Ret m' ->
  wf_mmap m' /\ load m' addr sz = Ret (uN sz v) /\
  forall a sz', 0 <= sz' -> bad_size sz' = false -> a + sz' / 8 <= addr \/ addr + sz / 8 <= a ->
    load m' a sz' = load m a sz'.
Proof.
  intros Hm Hp Hsz H. split; [by eapply (proj2 (mmap_ops_wf m Hm))|]. split; [by eapply load_store_same|].
  intros a sz' Hp' Hsz' Hdis. by apply (load_store_disjoint m addr sz v).
Qed.
