(* ===== verification/SelfMod.v ===== *)
(** * Self-modifying-code tracking ([include/self_mod.hpp])

    The process-wide epoch and the two page tables that record which guest
    pages were ever executed and at which epoch compiled code was last
    installed on them. *)

From S2P Require Import Prelude Defs.

Record SelfMod := mkSelfMod {
  g_smc_epoch : Z;
  g_executed_pages : svec;
  g_code_page_gen : svec }.

Definition smc_init : SelfMod := mkSelfMod 0 sv_empty sv_empty.

(** [if(page >= v.size()) v.resize(page + 8192, 0); v[page] = x]. *)
Definition grow_set (v : svec) (page x : Z) : svec :=
  sv_set (if sv_size v <=? page then sv_resize v (page + 8192) else v) page x.

Definition mark_page_executed (s : SelfMod) (phys : Z) : SelfMod :=
  let page := Z.shiftr phys 12 in
  mkSelfMod (g_smc_epoch s) (grow_set (g_executed_pages s) page 1) (g_code_page_gen s).

Definition mark_page_code (s : SelfMod) (phys : Z) : SelfMod :=
  let page := Z.shiftr phys 12 in
  mkSelfMod (g_smc_epoch s)
            (grow_set (g_executed_pages s) page 1)
            (grow_set (g_code_page_gen s) page (g_smc_epoch s)).

Definition was_page_executed (s : SelfMod) (phys : Z) : bool :=
  let page := Z.shiftr phys 12 in
  (page <? sv_size (g_executed_pages s)) && negb (sv_get (g_executed_pages s) page =? 0).

Definition smc_store_hit (s : SelfMod) (phys : Z) : SelfMod :=
  let page := Z.shiftr phys 12 in
  if (page <? sv_size (g_executed_pages s)) && negb (sv_get (g_executed_pages s) page =? 0)
  then
    let cur := g_smc_epoch s in
    if (page <? sv_size (g_code_page_gen s)) && (sv_get (g_code_page_gen s) page =? cur)
    then mkSelfMod (u64 (cur + 1)) (g_executed_pages s) (g_code_page_gen s)
    else mkSelfMod cur (sv_set (g_executed_pages s) page 0) (g_code_page_gen s)
  else s.

(** ** Lemmas *)

Lemma sv_get_grow_set v page x i :
  0 <= i -> sv_get (grow_set v page x) i =
    if i =? page then x
    else if (sv_size v <=? page) && (sv_size v <=? i) then 0 else sv_get v i.
Proof.
  intros Hi. unfold grow_set. destruct (Z.eqb_spec i page) as [->|Hne].
  - by rewrite sv_get_set_eq.
  - rewrite sv_get_set_ne by done. destruct (Z.leb_spec (sv_size v) page); simpl; [|done].
    destruct (Z.leb_spec (sv_size v) i).
    + unfold sv_get, sv_resize. simpl. rewrite map_lookup_filter.
      destruct (sv_data v !! i); simpl; [|done]. rewrite option_guard_False; [done|].
      simpl. lia.
    + rewrite sv_get_resize by lia. done.
Qed.

Lemma sv_size_grow_set v page x : sv_size (grow_set v page x) =
  if sv_size v <=? page then page + 8192 else sv_size v.
Proof. unfold grow_set. by destruct (sv_size v <=? page). Qed.

Lemma was_page_executed_mark s phys phys' : 0 <= phys -> 0 <= phys' ->
  was_page_executed (mark_page_executed s phys) phys' =
  ((Z.shiftr phys' 12 =? Z.shiftr phys 12) || was_page_executed s phys')%bool.
Proof.
  intros H0 H1. unfold was_page_executed, mark_page_executed.
  cbn [g_smc_epoch g_executed_pages g_code_page_gen].
  assert (0 <= Z.shiftr phys' 12) by (by apply Z.shiftr_nonneg).
  rewrite sv_get_grow_set, sv_size_grow_set by done.
  destruct (Z.eqb_spec (Z.shiftr phys' 12) (Z.shiftr phys 12)) as [->|Hne]; simpl.
  - destruct (Z.leb_spec (sv_size (g_executed_pages s)) (Z.shiftr phys 12)); zcases; done.
  - destruct (Z.leb_spec (sv_size (g_executed_pages s)) (Z.shiftr phys 12)); simpl; [|done].
    destruct (Z.leb_spec (sv_size (g_executed_pages s)) (Z.shiftr phys' 12)); simpl.
    + rewrite andb_false_r. by rewrite (proj2 (Z.ltb_ge _ _)) by lia.
    + by rewrite !(proj2 (Z.ltb_lt _ _)) by lia.
Qed.

(** A page marked by the JIT as hosting current-epoch code is one whose next
    store advances the epoch, which is what makes every cached block of the
    old epoch stale. *)
Lemma store_to_code_page_bumps s phys phys' : 0 <= phys -> 0 <= phys' ->
  Z.shiftr phys' 12 = Z.shiftr phys 12 ->
  g_smc_epoch (smc_store_hit (mark_page_code s phys) phys') = u64 (g_smc_epoch s + 1).
Proof.
  intros H0 H1 Hp. unfold smc_store_hit, mark_page_code.
  cbn [g_smc_epoch g_executed_pages g_code_page_gen]. rewrite Hp.
  assert (0 <= Z.shiftr phys 12) by (by apply Z.shiftr_nonneg).
  rewrite !sv_get_grow_set, !sv_size_grow_set by done. rewrite !Z.eqb_refl. simpl.
  destruct (Z.leb_spec (sv_size (g_executed_pages s)) (Z.shiftr phys 12)),
    (Z.leb_spec (sv_size (g_code_page_gen s)) (Z.shiftr phys 12));
    rewrite !(proj2 (Z.ltb_lt _ _)) by lia; simpl; by rewrite ?Z.eqb_refl.
Qed.
