(* ===== verification/Tlb.v ===== *)
(** * Translation lookaside buffer ([include/tlb.hpp], [src/tlb.cpp])

    A direct-mapped array of [SIZE] entries indexed by [va >> 12], validated by
    a generation stamp, with a census of the physical pages that resident
    writable entries cover. The array is sparse, absent slots being
    default-constructed entries. [host_page] is the offset of the page in the
    RAM array ([None] for a null pointer); the host address of that array is
    not modelled. *)

From S2P Require Import Prelude Defs SelfMod.

Record TlbEntry := mkTlbEntry {
  vpage_mask_inv : Z;
  vpage_base : Z;
  generation : Z;
  host_ptr : option Z;
  ppage_base : Z;
  asid : Z;
  page_bits : Z;
  perm : Z;
  global : bool }.

Definition not_u64 (x : Z) : Z := u64 (Z.lnot x).

Definition default_entry : TlbEntry :=
  mkTlbEntry (2 ^ 64 - 1) (2 ^ 64 - 1) 0 None 0 0 12 0 false.

Definition PERM_R : Z := 1.
Definition PERM_W : Z := 2.
Definition PERM_X : Z := 4.
Definition PERM_U : Z := 8.
Definition PERM_A : Z := 16.
Definition PERM_D : Z := 32.

Definition SIZE : Z := Z.shiftl 2 16.
Definition W_CREDIT_CAP_PAGES : Z := 512.

Record TLB := mkTLB {
  entries : gmap Z TlbEntry;
  tlb_generation : Z;
  w_writable : svec;
  w_writable_oversized : bool;
  g_flush_count : Z }.

Definition tlb_init : TLB := mkTLB ∅ 1 sv_empty false 0.

Definition index (va : Z) : Z := Z.land (Z.shiftr va 12) (SIZE - 1).

Definition entry_at (t : TLB) (i : Z) : TlbEntry := default default_entry (entries t !! i).

Definition set_entry (t : TLB) (i : Z) (e : TlbEntry) : TLB :=
  mkTLB (<[i := e]> (entries t)) (tlb_generation t) (w_writable t)
        (w_writable_oversized t) (g_flush_count t).

Definition set_writable (t : TLB) (w : svec) (o : bool) : TLB :=
  mkTLB (entries t) (tlb_generation t) w o (g_flush_count t).

Definition has (p bit : Z) : bool := negb (Z.land p bit =? 0).

Definition page_mask_of (bits : Z) : Z := Z.shiftl 1 bits - 1.

(** ** Lookup *)

Definition tlb_lookup (t : TLB) (va : Z) (type : AccessType) (asid_ : Z) (mode : PrivilegeMode)
    (mxr sum : bool) : option Z :=
  let e := entry_at t (index va) in
  if negb (generation e =? tlb_generation t) then None else
  let page_mask := page_mask_of (page_bits e) in
  if negb (Z.land va (not_u64 page_mask) =? vpage_base e) then None else
  if negb (global e) && negb (asid e =? asid_) then None else
  let p := perm e in
  let type_ok :=
    match type with
    | STORE => has p PERM_W && has p PERM_D
    | EXEC => has p PERM_X && negb (bool_decide (mode = Supervisor) && has p PERM_U)
    | LOAD => has p PERM_R || (has p PERM_X && mxr)
    end in
  if negb type_ok then None else
  let is_u_page := has p PERM_U in
  let mode_ok :=
    match mode with
    | User => is_u_page
    | Supervisor => negb (is_u_page && negb sum)
    | _ => true
    end in
  if negb mode_ok then None else
  Some (Z.lor (ppage_base e) (Z.land va page_mask)).

(** ** The writable-page census *)

(** [for(i < pages) if(w[first + i] != 0xFF) w[first + i]++]. *)
Fixpoint credit_pages (w : svec) (first : Z) (n : nat) : svec :=
  match n with
  | O => w
  | S n' =>
      let x := sv_get w first in
      credit_pages (if x =? 0xFF then w else sv_set w first (x + 1)) (first + 1) n'
  end.

Definition add_writable (t : TLB) (e : TlbEntry) : TLB :=
  if negb (has (perm e) PERM_W) then t else
  let first := Z.shiftr (ppage_base e) 12 in
  let pages := Z.shiftl 1 (page_bits e - 12) in
  if W_CREDIT_CAP_PAGES <? pages then set_writable t (w_writable t) true else
  let w := if sv_size (w_writable t) <? first + pages
           then sv_resize (w_writable t) (first + pages + 8192) else w_writable t in
  set_writable t (credit_pages w first (Z.to_nat pages)) (w_writable_oversized t).

(** [for(i = 0; first + i < w.size(); i++) { if(i >= pages) break; ... }]:
    at most [n] pages are left. *)
Fixpoint debit_pages (w : svec) (first : Z) (n : nat) : svec :=
  match n with
  | O => w
  | S n' =>
      if sv_size w <=? first then w else
      let x := sv_get w first in
      debit_pages (if x =? 0 then w else sv_set w first (x - 1)) (first + 1) n'
  end.

Definition drop_writable (t : TLB) (e : TlbEntry) : TLB :=
  if negb (generation e =? tlb_generation t) || negb (has (perm e) PERM_W) then t else
  let first := Z.shiftr (ppage_base e) 12 in
  let pages := Z.shiftl 1 (page_bits e - 12) in
  if W_CREDIT_CAP_PAGES <? pages then set_writable t (w_writable t) true else
  set_writable t (debit_pages (w_writable t) first (Z.to_nat pages)) (w_writable_oversized t).

(** ** Insertion *)

Definition tlb_insert (t : TLB) (s : SelfMod) (va pa bits perm_ asid_ : Z) (global_ : bool)
    (host_page : option Z) : TLB :=
  let t := drop_writable t (entry_at t (index va)) in
  let page_mask := page_mask_of bits in
  let vpage := Z.land va (not_u64 page_mask) in
  let ppage := Z.land pa (not_u64 page_mask) in
  let leaf_pa := u64 (ppage + Z.land va page_mask) in
  let p := if has perm_ PERM_W && was_page_executed s leaf_pa
           then Z.ldiff perm_ (Z.lor PERM_W PERM_D) else perm_ in
  let e := mkTlbEntry (not_u64 page_mask) vpage (tlb_generation t)
             ((fun h => u64 (h - vpage)) <$> host_page) ppage asid_ bits p global_ in
  add_writable (set_entry t (index va) e) e.

(** ** Flushes *)

Definition flush_all (t : TLB) : TLB :=
  mkTLB (entries t) (u64 (tlb_generation t + 1)) (sv_fill0 (w_writable t)) false
        (u64 (g_flush_count t + 1)).

Definition note_exec (t : TLB) (phys : Z) : TLB :=
  let page := Z.shiftr phys 12 in
  if negb (w_writable_oversized t) && (page <? sv_size (w_writable t))
     && negb (sv_get (w_writable t) page =? 0)
  then flush_all t else t.

Definition invalidate (e : TlbEntry) : TlbEntry :=
  mkTlbEntry (vpage_mask_inv e) (vpage_base e) 0 (host_ptr e) (ppage_base e) (asid e)
             (page_bits e) (perm e) (global e).

(** [drop_writable(e); e.generation = 0] on slot [i]. *)
Definition kill (t : TLB) (i : Z) : TLB :=
  set_entry (drop_writable t (entry_at t i)) i (invalidate (entry_at t i)).

Definition flush_addr (t : TLB) (va : Z) : TLB :=
  let i := index va in
  if generation (entry_at t i) =? tlb_generation t then kill t i else t.

Definition asid_match (t : TLB) (a : Z) (e : TlbEntry) : bool :=
  (generation e =? tlb_generation t) && negb (global e) && (asid e =? a).

Definition flush_asid (t : TLB) (a : Z) : TLB :=
  foldl (fun t i => if asid_match t a (entry_at t i) then kill t i else t) t (seqZ 0 SIZE).

Definition flush_addr_asid (t : TLB) (va a : Z) : TLB :=
  let i := index va in
  if asid_match t a (entry_at t i) then kill t i else t.

(** ** Permission check *)

(** [check_perm]: declared beside [lookup], the walk's rule without the dirty bit. *)
Definition check_perm (p : Z) (type : AccessType) (mode : PrivilegeMode) (mxr sum : bool) : bool :=
  let u := has p PERM_U in
  match mode with
  | User => u
  | Supervisor => negb (u && (bool_decide (type = EXEC) || negb sum))
  | _ => true
  end &&
  match type with
  | LOAD => has p PERM_R || (has p PERM_X && mxr)
  | STORE => has p PERM_W
  | EXEC => has p PERM_X
  end.

(** ** Lemmas *)

Lemma page_mask_ones bits : page_mask_of bits = Z.ones bits.
Proof. unfold page_mask_of. by rewrite Z.ones_equiv, Z.shiftl_1_l, Z.sub_1_r. Qed.

(** [va & ~page_mask] keeps the page number of a 64-bit address. *)
Lemma page_base_shift va bits : 0 <= bits -> inw 64 va ->
  Z.land va (not_u64 (page_mask_of bits)) = Z.shiftl (Z.shiftr va bits) bits.
Proof.
  intros Hb Hva. rewrite page_mask_ones. unfold not_u64. apply Z.bits_inj'. intros i Hi.
  rewrite Z.land_spec, uN_bits, lnot_bits, ones_bits, Z.shiftl_spec by lia.
  rewrite (proj2 (Z.leb_le 0 i)) by lia. simpl.
  destruct (Z.ltb_spec i bits); simpl.
  - rewrite (Z.testbit_neg_r _ (i - bits)) by lia. by rewrite !andb_false_r.
  - rewrite Z.shiftr_spec by lia. replace (i - bits + bits) with i by lia.
    destruct (Z.ltb_spec i 64); simpl; [by rewrite andb_true_r|].
    rewrite (inw_high 64 va) by (done || lia). done.
Qed.

Lemma page_base_inj va va' bits : 0 <= bits ->
  Z.shiftl (Z.shiftr va bits) bits = Z.shiftl (Z.shiftr va' bits) bits <->
  Z.shiftr va bits = Z.shiftr va' bits.
Proof.
  intros Hb. split; [|by intros ->]. intros H.
  apply (f_equal (fun z => Z.shiftr z bits)) in H.
  by rewrite !Z.shiftr_shiftl_l, !Z.sub_diag, !Z.shiftl_0_r in H by done.
Qed.

Lemma set_writable_frame t w o :
  entries (set_writable t w o) = entries t /\ tlb_generation (set_writable t w o) = tlb_generation t.
Proof. done. Qed.

Lemma add_writable_frame t e :
  entries (add_writable t e) = entries t /\ tlb_generation (add_writable t e) = tlb_generation t.
Proof. unfold add_writable. repeat case_goal; done. Qed.

Lemma drop_writable_frame t e :
  entries (drop_writable t e) = entries t /\ tlb_generation (drop_writable t e) = tlb_generation t.
Proof. unfold drop_writable. repeat case_goal; done. Qed.

Lemma entry_at_set t i e j : entry_at (set_entry t i e) j = if j =? i then e else entry_at t j.
Proof.
  unfold entry_at, set_entry. simpl. rewrite lookup_insert.
  destruct (Z.eqb_spec j i) as [->|]; [by rewrite decide_True|by rewrite decide_False].
Qed.

Lemma entry_at_frame t t' i : entries t = entries t' -> entry_at t i = entry_at t' i.
Proof. unfold entry_at. by intros ->. Qed.

Lemma entry_at_kill t i j :
  entry_at (kill t i) j = if j =? i then invalidate (entry_at t i) else entry_at t j.
Proof.
  unfold kill. rewrite entry_at_set. case_match; [done|].
  apply entry_at_frame, drop_writable_frame.
Qed.

Lemma gen_kill t i : tlb_generation (kill t i) = tlb_generation t.
Proof. unfold kill. simpl. apply drop_writable_frame. Qed.

(** A lookup reads one slot and the current generation. *)
Lemma tlb_lookup_frame t t' va type a mode mxr sum :
  entry_at t (index va) = entry_at t' (index va) -> tlb_generation t = tlb_generation t' ->
  tlb_lookup t va type a mode mxr sum = tlb_lookup t' va type a mode mxr sum.
Proof. intros He Hg. unfold tlb_lookup. by rewrite He, Hg. Qed.

Lemma tlb_lookup_dead t va type a mode mxr sum :
  generation (entry_at t (index va)) <> tlb_generation t ->
  tlb_lookup t va type a mode mxr sum = None.
Proof. intros H. unfold tlb_lookup. by rewrite (proj2 (Z.eqb_neq _ _) H). Qed.

(** The permission tests of [lookup] are [check_perm] plus the dirty bit of a store. *)
Definition lookup_perm (p : Z) (type : AccessType) (mode : PrivilegeMode) (mxr sum : bool) : bool :=
  check_perm p type mode mxr sum && (negb (bool_decide (type = STORE)) || has p PERM_D).

Lemma tlb_lookup_eq t va type a mode mxr sum :
  tlb_lookup t va type a mode mxr sum =
  let e := entry_at t (index va) in
  if (generation e =? tlb_generation t)
     && (Z.land va (not_u64 (page_mask_of (page_bits e))) =? vpage_base e)
     && (global e || (asid e =? a)) && lookup_perm (perm e) type mode mxr sum
  then Some (Z.lor (ppage_base e) (Z.land va (page_mask_of (page_bits e)))) else None.
Proof.
  unfold tlb_lookup, lookup_perm, check_perm. cbv zeta.
  destruct (generation _ =? _), (Z.land va _ =? _), (global _), (asid _ =? a); simpl; try done.
  all: destruct type, mode; rewrite ?bool_decide_true, ?bool_decide_false by done; simpl;
    repeat match goal with |- context [has ?p ?b] => destruct (has p b) end;
    destruct mxr, sum; done.
Qed.

(** The entry [insert] leaves at the slot of [va]. *)
Definition inserted_perm (s : SelfMod) (va pa bits p : Z) : Z :=
  if has p PERM_W && was_page_executed s
       (u64 (Z.land pa (not_u64 (page_mask_of bits)) + Z.land va (page_mask_of bits)))
  then Z.ldiff p (Z.lor PERM_W PERM_D) else p.

Lemma entry_at_insert t s va pa bits p a g host i :
  entry_at (tlb_insert t s va pa bits p a g host) i =
  if i =? index va then
    mkTlbEntry (not_u64 (page_mask_of bits)) (Z.land va (not_u64 (page_mask_of bits)))
      (tlb_generation t) ((fun h => u64 (h - Z.land va (not_u64 (page_mask_of bits)))) <$> host)
      (Z.land pa (not_u64 (page_mask_of bits))) a bits (inserted_perm s va pa bits p) g
  else entry_at t i.
Proof.
  unfold tlb_insert. cbv zeta.
  rewrite (entry_at_frame _ _ i (proj1 (add_writable_frame _ _))), entry_at_set.
  case_match; [|apply entry_at_frame, drop_writable_frame].
  by rewrite (proj2 (drop_writable_frame t _)).
Qed.

Lemma gen_insert t s va pa bits p a g host :
  tlb_generation (tlb_insert t s va pa bits p a g host) = tlb_generation t.
Proof.
  unfold tlb_insert. rewrite (proj2 (add_writable_frame _ _)). simpl.
  apply drop_writable_frame.
Qed.

(** After [insert], an address of the inserted page that maps to the same
    slot hits exactly when the address space and the permissions (with W and D
    withheld from an executed page) allow the access, and the physical address
    is the inserted page's with the offset of the access; every other slot
    answers as before. *)
Lemma tlb_insert_lookup t s va pa bits p a g host va' type a' mode mxr sum :
  0 <= bits -> inw 64 va -> inw 64 va' -> inw 64 pa ->
  tlb_lookup (tlb_insert t s va pa bits p a g host) va' type a' mode mxr sum =
  if index va' =? index va then
    if (Z.shiftr va' bits =? Z.shiftr va bits) && (g || (a =? a'))
       && lookup_perm (inserted_perm s va pa bits p) type mode mxr sum
    then Some (Z.lor (Z.shiftl (Z.shiftr pa bits) bits) (uN bits va'))
    else None
  else tlb_lookup t va' type a' mode mxr sum.
Proof.
  intros Hb Hva Hva' Hpa. destruct (Z.eqb_spec (index va') (index va)) as [Hi|Hi].
  - rewrite tlb_lookup_eq. cbv zeta. rewrite entry_at_insert, gen_insert, Hi, Z.eqb_refl.
    cbn [generation page_bits vpage_base global asid perm ppage_base].
    rewrite Z.eqb_refl, !page_base_shift, page_mask_ones, <- uN_land by done.
    assert ((Z.shiftl (Z.shiftr va' bits) bits =? Z.shiftl (Z.shiftr va bits) bits) =
            (Z.shiftr va' bits =? Z.shiftr va bits)) as ->; [|done].
    apply eq_true_iff_eq. rewrite !Z.eqb_eq. by apply page_base_inj.
  - apply tlb_lookup_frame; [|by rewrite gen_insert].
    rewrite entry_at_insert. by rewrite (proj2 (Z.eqb_neq _ _) Hi).
Qed.

(** ** Invariant: stamps never run ahead of the generation, and 0, the stamp
    of an invalidated entry, is never current. The counter is 64-bit; it is
    assumed not to wrap. *)
Definition tlb_wf (t : TLB) : Prop :=
  0 < tlb_generation t < 2 ^ 64 - 1 /\
  forall i, 0 <= generation (entry_at t i) <= tlb_generation t.

Lemma tlb_wf_init : tlb_wf tlb_init.
Proof. split; [done|]. intros i. unfold entry_at. simpl. rewrite lookup_empty. simpl. lia. Qed.

Lemma tlb_wf_insert t s va pa bits p a g host :
  tlb_wf t -> tlb_wf (tlb_insert t s va pa bits p a g host).
Proof.
  intros [Hg He]. split; [by rewrite gen_insert|]. intros i.
  rewrite entry_at_insert, gen_insert. case_match; [simpl; lia|apply He].
Qed.

Lemma tlb_wf_kill t i : tlb_wf t -> tlb_wf (kill t i).
Proof.
  intros [Hg He]. split; [by rewrite gen_kill|]. intros j.
  rewrite entry_at_kill, gen_kill. case_match; [simpl; lia|apply He].
Qed.

Lemma seqZ_SIZE i : 0 <= i < SIZE -> i ∈ seqZ 0 SIZE.
Proof. intros. apply elem_of_seqZ. lia. Qed.

Lemma index_range va : 0 <= index va < SIZE.
Proof.
  unfold index. change (SIZE - 1) with (Z.ones 17). rewrite Z.land_ones by lia.
  change SIZE with (2 ^ 17). apply Z.mod_pos_bound. lia.
Qed.

Lemma flush_asid_fold t a l : NoDup l ->
  let t' := foldl (fun t i => if asid_match t a (entry_at t i) then kill t i else t) t l in
  tlb_generation t' = tlb_generation t /\
  forall j, entry_at t' j =
    if bool_decide (j ∈ l) && asid_match t a (entry_at t j)
    then invalidate (entry_at t j) else entry_at t j.
Proof.
  revert t. induction l as [|i l IH]; intros t Hnd; cbn [foldl].
  - split; [done|]. intros j. by rewrite bool_decide_false by set_solver.
  - apply NoDup_cons in Hnd as [Hni Hnd].
    set (t1 := if asid_match t a (entry_at t i) then kill t i else t).
    assert (tlb_generation t1 = tlb_generation t) as Hg.
    { unfold t1. case_match; [apply gen_kill|done]. }
    destruct (IH t1 Hnd) as [IHg IHe]. split; [by rewrite IHg|]. intros j. rewrite IHe.
    assert (forall e, asid_match t1 a e = asid_match t a e) as Hm.
    { intros e. unfold asid_match. by rewrite Hg. }
    rewrite Hm. destruct (decide (j = i)) as [->|Hne].
    + rewrite bool_decide_false by done. simpl. rewrite bool_decide_true by set_solver.
      simpl. unfold t1. destruct (asid_match t a (entry_at t i)); [|done].
      by rewrite entry_at_kill, Z.eqb_refl.
    + assert (entry_at t1 j = entry_at t j) as ->.
      { unfold t1. case_match; [|done]. rewrite entry_at_kill.
        by rewrite (proj2 (Z.eqb_neq j i) Hne). }
      assert (bool_decide (j ∈ i :: l) = bool_decide (j ∈ l)) as ->; [|done].
      apply bool_decide_ext. set_solver.
Qed.

Lemma flush_asid_entries t a :
  tlb_generation (flush_asid t a) = tlb_generation t /\
  forall va, entry_at (flush_asid t a) (index va) =
    if asid_match t a (entry_at t (index va))
    then invalidate (entry_at t (index va)) else entry_at t (index va).
Proof.
  unfold flush_asid. destruct (flush_asid_fold t a (seqZ 0 SIZE) (NoDup_seqZ 0 SIZE)) as [Fg Fe].
  split; [exact Fg|]. intros va. rewrite Fe.
  by rewrite (bool_decide_true (index va ∈ seqZ 0 SIZE) (seqZ_SIZE _ (index_range va))).
Qed.

Lemma asid_match_miss t va type a mode mxr sum :
  asid_match t a (entry_at t (index va)) = false -> global (entry_at t (index va)) = false ->
  tlb_lookup t va type a mode mxr sum = None.
Proof.
  unfold asid_match. rewrite tlb_lookup_eq. cbv zeta. intros Hm Hg. rewrite Hg in *.
  destruct (generation _ =? _); simpl in *; [|done]. by rewrite Hm, !andb_false_r.
Qed.

Lemma asid_match_local t a e : asid_match t a e = true -> global e = false.
Proof. unfold asid_match. by destruct (global e); rewrite ?andb_false_r. Qed.

Lemma asid_match_other t va a' a type mode mxr sum :
  asid_match t a' (entry_at t (index va)) = true -> a' <> a ->
  tlb_lookup t va type a mode mxr sum = None.
Proof.
  unfold asid_match. intros H Hne. bool_hyps. rewrite tlb_lookup_eq. cbv zeta.
  destruct (global _); [done|]. destruct (Z.eqb_spec (asid (entry_at t (index va))) a); [congruence|].
  simpl. by rewrite !andb_false_r.
Qed.

(** C2: what the four [SFENCE.VMA] flushes leave. [flush_all] leaves no hit at
    all; [flush_addr] none for its address; [flush_asid] and
    [flush_addr_asid] none for their address space through a non-global entry.
    Everything else answers as before: a global entry, every lookup of another
    address space, and, for the address forms, every other slot. *)
Theorem tlb_flush_correct t va a type mode mxr sum :
  tlb_wf t ->
  (forall va', tlb_lookup (flush_all t) va' type a mode mxr sum = None) /\
  tlb_lookup (flush_addr t va) va type a mode mxr sum = None /\
  (forall va', index va' <> index va ->
     tlb_lookup (flush_addr t va) va' type a mode mxr sum = tlb_lookup t va' type a mode mxr sum /\
     forall a', tlb_lookup (flush_addr_asid t va a') va' type a mode mxr sum =
                tlb_lookup t va' type a mode mxr sum) /\
  tlb_lookup (flush_addr_asid t va a) va type a mode mxr sum =
    (if global (entry_at t (index va)) then tlb_lookup t va type a mode mxr sum else None) /\
  (forall va', tlb_lookup (flush_asid t a) va' type a mode mxr sum =
    if global (entry_at t (index va')) then tlb_lookup t va' type a mode mxr sum else None) /\
  (forall va' a', a' <> a ->
     tlb_lookup (flush_asid t a') va' type a mode mxr sum = tlb_lookup t va' type a mode mxr sum /\
     tlb_lookup (flush_addr_asid t va a') va' type a mode mxr sum =
       tlb_lookup t va' type a mode mxr sum).
Proof.
  intros [Hg He]. split_and!.
  - intros va'. apply tlb_lookup_dead. unfold flush_all.
    change (entry_at _ _) with (entry_at t (index va')). simpl.
    specialize (He (index va')). rewrite uN_id by (split; lia). lia.
  - unfold flush_addr. case_match; bool_hyps; apply tlb_lookup_dead; [|done].
    rewrite entry_at_kill, gen_kill, Z.eqb_refl. simpl. lia.
  - intros va' Hne. split; [|intros a'];
      [unfold flush_addr|unfold flush_addr_asid]; case_match; try done;
      (apply tlb_lookup_frame; [|by rewrite gen_kill]);
      rewrite entry_at_kill; by rewrite (proj2 (Z.eqb_neq _ _) Hne).
  - unfold flush_addr_asid. destruct (asid_match t a (entry_at t (index va))) eqn:Em.
    + rewrite (asid_match_local _ _ _ Em). apply tlb_lookup_dead.
      rewrite entry_at_kill, gen_kill, Z.eqb_refl. simpl. lia.
    + destruct (global _) eqn:Eg; [done|]. by apply asid_match_miss.
  - intros va'. destruct (flush_asid_entries t a) as [Fg Fe]. specialize (Fe va').
    destruct (asid_match t a (entry_at t (index va'))) eqn:Em.
    + rewrite (asid_match_local _ _ _ Em). apply tlb_lookup_dead. rewrite Fe, Fg. simpl. lia.
    + rewrite (tlb_lookup_frame _ t) by done.
      destruct (global _) eqn:Eg; [done|]. by apply asid_match_miss.
  - intros va' a' Ha. split.
    + destruct (flush_asid_entries t a') as [Fg Fe]. specialize (Fe va').
      destruct (asid_match t a' (entry_at t (index va'))) eqn:Em.
      * etrans; [apply tlb_lookup_dead; rewrite Fe, Fg; simpl; lia|].
        exact (eq_sym (asid_match_other _ _ _ _ _ _ _ _ Em Ha)).
      * by apply tlb_lookup_frame.
    + unfold flush_addr_asid. destruct (asid_match t a' (entry_at t (index va))) eqn:Em; [|done].
      destruct (Z.eqb_spec (index va') (index va)) as [Hi|Hi].
      * rewrite <- Hi in *.
        etrans; [apply tlb_lookup_dead; rewrite entry_at_kill, gen_kill, Z.eqb_refl; simpl; lia|].
        exact (eq_sym (asid_match_other _ _ _ _ _ _ _ _ Em Ha)).
      * apply tlb_lookup_frame; [|by rewrite gen_kill].
        rewrite entry_at_kill. by rewrite (proj2 (Z.eqb_neq _ _) Hi).
Qed.

(** ** Entries hold 64-bit page addresses *)

Definition tlb_ok (t : TLB) : Prop :=
  forall i, inw 64 (ppage_base (entry_at t i)) /\ 0 <= page_bits (entry_at t i).

Lemma tlb_ok_init : tlb_ok tlb_init.
Proof. intros i. unfold entry_at. simpl. rewrite lookup_empty. by repeat split. Qed.

Lemma tlb_ok_insert t s va pa bits p a g host : 0 <= bits -> 0 <= pa ->
  tlb_ok t -> tlb_ok (tlb_insert t s va pa bits p a g host).
Proof.
  intros Hb Hp Ht i. rewrite entry_at_insert. case_match; [|apply Ht]. simpl. split; [|done].
  rewrite Z.land_comm. apply inw_land; [lia| |done]. by apply uN_inw.
Qed.

Lemma tlb_ok_kill t i : tlb_ok t -> tlb_ok (kill t i).
Proof. intros Ht j. rewrite entry_at_kill. case_match; apply Ht. Qed.

Lemma tlb_ok_flush t va a : tlb_ok t ->
  tlb_ok (flush_all t) /\ tlb_ok (flush_addr t va) /\ tlb_ok (flush_asid t a) /\
  tlb_ok (flush_addr_asid t va a).
Proof.
  intros Ht. split_and!.
  - exact Ht.
  - unfold flush_addr. case_match; [by apply tlb_ok_kill|done].
  - unfold flush_asid. generalize (seqZ 0 SIZE). intros l. revert t Ht.
    induction l as [|i l IH]; intros t Ht; cbn [foldl]; [done|]. apply IH.
    case_match; [by apply tlb_ok_kill|done].
  - unfold flush_addr_asid. case_match; [by apply tlb_ok_kill|done].
Qed.

Lemma tlb_lookup_inw t va type a mode mxr sum pa : tlb_ok t -> inw 64 va ->
  tlb_lookup t va type a mode mxr sum = Some pa -> inw 64 pa.
Proof.
  intros Ht Hva. rewrite tlb_lookup_eq. cbv zeta. case_match; [|done]. intros [= <-].
  destruct (Ht (index va)) as [Hp Hb]. apply inw_lor; [lia|done|]. apply inw_land; [lia|done|].
  rewrite page_mask_ones. pose proof (pow2_pos _ Hb). rewrite Z.ones_equiv. lia.
Qed.

Lemma tlb_ok_flush_all t : tlb_ok t -> tlb_ok (flush_all t).
Proof. done. Qed.
#[export] Hint Resolve tlb_ok_flush_all : rvw.
