(* ===== verification/Decode.v ===== *)
(** * Instruction decoding ([include/decode.hpp], [src/decode.cpp])

    Operand and immediate extraction, the mask strings of [register_instr],
    the hashed lookup tables built by [build_lut] and the two-way decode cache
    of [decode_inst]. [const Instruction*] is an index into the vector of
    registered instructions; an instruction's handler is left to the files of
    the instruction sets, so tables here are over [(mask, match, size)]. *)

From Stdlib Require Import Strings.String Strings.Ascii.
From S2P Require Import Prelude Defs.

(** ** Bit extraction on 32-bit words *)

(** [(int32_t)(val << shift) >> shift] with [shift = 32 - bits]. *)
Definition sext (val bits : Z) : Z :=
  Z.shiftr (s32 (Z.shiftl val (32 - bits))) (32 - bits).

Definition get_bits (inst hi lo : Z) : Z :=
  Z.land (Z.shiftr inst lo) (Z.shiftl 1 (hi - lo + 1) - 1).

Definition d_rd (inst : Z) : Z := Z.land (Z.shiftr inst 7) 0x1f.
Definition d_rs1 (inst : Z) : Z := Z.land (Z.shiftr inst 15) 0x1f.
Definition d_rs2 (inst : Z) : Z := Z.land (Z.shiftr inst 20) 0x1f.
Definition d_rs3 (inst : Z) : Z := Z.land (Z.shiftr inst 27) 0x1f.
Definition d_rm (inst : Z) : Z := Z.land (Z.shiftr inst 12) 0x7.

Definition imm_Zicsr (inst : Z) : Z := Z.shiftr inst 20.

Definition imm_I (inst : Z) : Z := u64 (sext (Z.shiftr inst 20) 12).

Definition imm_S (inst : Z) : Z :=
  u64 (sext (Z.lor (Z.land (Z.shiftr inst 7) 0x1f) (Z.land (Z.shiftr inst 20) 0xfe0)) 12).

Definition imm_B (inst : Z) : Z :=
  u64 (sext (Z.lor (Z.lor (Z.lor
    (Z.shiftl (get_bits inst 11 8) 1)
    (Z.shiftl (get_bits inst 30 25) 5))
    (Z.shiftl (get_bits inst 7 7) 11))
    (Z.shiftl (get_bits inst 31 31) 12)) 13).

Definition imm_U (inst : Z) : Z := u64 (s32 (Z.land inst 0xFFFFF000)).

Definition imm_J (inst : Z) : Z :=
  u64 (sext (Z.lor (Z.lor (Z.lor
    (Z.shiftl (get_bits inst 30 21) 1)
    (Z.shiftl (get_bits inst 20 20) 11))
    (Z.shiftl (get_bits inst 19 12) 12))
    (Z.shiftl (get_bits inst 31 31) 20)) 21).

Definition shamt (inst : Z) : Z := u32 (Z.land (imm_I inst) 0x1f).
Definition shamt64 (inst : Z) : Z := u32 (Z.land (imm_I inst) 0x3f).

(** Compressed operands and immediates. *)
Definition d_c_rd (inst : Z) : Z := Z.land (Z.shiftr (u16 inst) 2) 0x7.
Definition d_c_rs1 (inst : Z) : Z := Z.land (Z.shiftr (u16 inst) 7) 0x7.
Definition d_c_rs2 (inst : Z) : Z := Z.land (Z.shiftr (u16 inst) 2) 0x1f.

Definition d_c_uimm (inst : Z) : Z :=
  Z.lor (Z.lor (Z.lor (Z.land (Z.shiftr inst 1) 0x3c0) (Z.land (Z.shiftr inst 7) 0x30))
    (Z.land (Z.shiftr inst 2) 0x8)) (Z.land (Z.shiftr inst 4) 0x4).

Definition d_c_uimm_cl (inst : Z) : Z :=
  Z.lor (Z.lor (Z.shiftl (get_bits inst 6 6) 2)
    (Z.shiftl (Z.land (Z.shiftr inst 10) 0x7) 3)) (Z.shiftl (get_bits inst 5 5) 6).

Definition d_c_uimm_cl1 (inst : Z) : Z :=
  Z.lor (Z.lor (Z.shiftl (get_bits inst 6 6) 7)
    (Z.shiftl (Z.land (Z.shiftr inst 10) 0x7) 3)) (Z.shiftl (get_bits inst 5 5) 6).

(** [inst >> k & m]: [>>] binds tighter than [&]. *)
Definition cbits (inst k m : Z) : Z := Z.land (Z.shiftr inst k) m.

Definition d_c_nzimm (inst : Z) : Z :=
  u64 (sext (Z.lor (cbits inst 2 0x1f) (Z.shiftl (cbits inst 12 0x1) 5)) 6).

Definition d_c_uimm_arith (inst : Z) : Z :=
  Z.lor (cbits inst 2 0x1f) (Z.shiftl (cbits inst 12 0x1) 5).

Definition d_c_nzimm_9 (inst : Z) : Z :=
  u64 (sext (Z.lor (Z.lor (Z.lor (Z.lor (Z.lor
    (Z.shiftl (cbits inst 6 1) 4) (Z.shiftl (cbits inst 2 1) 5))
    (Z.shiftl (cbits inst 5 1) 6)) (Z.shiftl (cbits inst 3 1) 7))
    (Z.shiftl (cbits inst 4 1) 8)) (Z.shiftl (cbits inst 12 1) 9)) 10).

Definition d_c_j_imm (inst : Z) : Z :=
  u64 (sext (Z.lor (Z.lor (Z.lor (Z.lor (Z.lor (Z.lor (Z.lor (Z.lor
    (Z.shiftl (cbits inst 3 7) 1) (Z.shiftl (cbits inst 11 1) 4))
    (Z.shiftl (cbits inst 2 1) 5)) (Z.shiftl (cbits inst 7 1) 6))
    (Z.shiftl (cbits inst 6 1) 7)) (Z.shiftl (cbits inst 9 1) 8))
    (Z.shiftl (cbits inst 10 1) 9)) (Z.shiftl (cbits inst 8 1) 10))
    (Z.shiftl (cbits inst 12 1) 11)) 12).

Definition d_c_b_imm (inst : Z) : Z :=
  u64 (sext (Z.lor (Z.lor (Z.lor (Z.lor
    (Z.shiftl (cbits inst 3 0x3) 1) (Z.shiftl (cbits inst 10 0x3) 3))
    (Z.shiftl (cbits inst 2 0x1) 5)) (Z.shiftl (cbits inst 5 0x3) 6))
    (Z.shiftl (cbits inst 12 0x1) 8)) 9).

Definition d_c_uimm_lwsp (inst : Z) : Z :=
  Z.lor (Z.lor (Z.shiftl (cbits inst 4 0x7) 2) (Z.shiftl (cbits inst 12 0x1) 5))
    (Z.shiftl (cbits inst 2 0x3) 6).

Definition d_c_uimm_ldsp (inst : Z) : Z :=
  Z.lor (Z.lor (Z.lor (Z.shiftl (cbits inst 5 0x3) 3) (Z.shiftl (cbits inst 12 0x1) 5))
    (Z.shiftl (cbits inst 2 0x3) 6)) (Z.shiftl (cbits inst 4 0x1) 8).

Definition d_c_uimm_swsp (inst : Z) : Z :=
  Z.lor (Z.lor (Z.shiftl (cbits inst 9 0xf) 2) (Z.shiftl (cbits inst 7 0x1) 6))
    (Z.shiftl (cbits inst 8 0x1) 7).

Definition d_c_uimm_sdsp (inst : Z) : Z :=
  Z.lor (Z.lor (Z.lor (Z.shiftl (cbits inst 10 0x7) 3) (Z.shiftl (cbits inst 7 0x1) 6))
    (Z.shiftl (cbits inst 8 0x1) 7)) (Z.shiftl (cbits inst 9 0x1) 8).

(** ** [pext_u32] *)

(** The [_pext_u32] instruction: the bits of [val] selected by [mask],
    packed at the bottom. *)
Fixpoint pext (n : nat) (val mask : Z) : Z :=
  match n with
  | O => 0
  | S n' =>
      if Z.odd mask
      then Z.b2z (Z.odd val) + 2 * pext n' (Z.div2 val) (Z.div2 mask)
      else pext n' (Z.div2 val) (Z.div2 mask)
  end.

Definition pext_u32 (val mask : Z) : Z := pext 32 val mask.

(** The portable version of the same function, used on AArch64 hosts. *)
Fixpoint pext_rounds (k : nat) (i : Z) (x m mk : Z) : Z :=
  match k with
  | O => x
  | S k' =>
      let mp := Z.lxor mk (u32 (Z.shiftl mk 1)) in
      let mp := Z.lxor mp (u32 (Z.shiftl mp 2)) in
      let mp := Z.lxor mp (u32 (Z.shiftl mp 4)) in
      let mp := Z.lxor mp (u32 (Z.shiftl mp 8)) in
      let mp := Z.lxor mp (u32 (Z.shiftl mp 16)) in
      let mv := Z.land mp m in
      let m := Z.lor (Z.lxor m mv) (Z.shiftr mv (Z.shiftl 1 i)) in
      let t := Z.land x mv in
      let x := Z.lor (Z.lxor x t) (Z.shiftr t (Z.shiftl 1 i)) in
      pext_rounds k' (i + 1) x m (Z.land mk (u32 (Z.lnot mp)))
  end.

Definition pext_u32_aarch64 (val mask : Z) : Z :=
  pext_rounds 5 0 (Z.land val mask) mask (u32 (Z.shiftl (Z.lnot mask) 1)).

(** ** Registered instructions *)

Record Pattern := mkPattern { p_mask : Z; p_match : Z; p_size : Z }.

(** The loop of [register_instr] over the mask string, from its last
    character: bit [i] of [inst_mask] and [inst_match]. *)
Fixpoint mask_loop (cs : list ascii) (i : Z) (inst_mask inst_match : Z) : Z * Z :=
  match cs with
  | [] => (inst_mask, inst_match)
  | c :: cs' =>
      if Ascii.eqb c "1" then
        mask_loop cs' (i + 1) (Z.lor inst_mask (u32 (Z.shiftl 1 i)))
                              (Z.lor inst_match (u32 (Z.shiftl 1 i)))
      else if Ascii.eqb c "0" then
        mask_loop cs' (i + 1) (Z.lor inst_mask (u32 (Z.shiftl 1 i))) inst_match
      else mask_loop cs' (i + 1) inst_mask inst_match
  end.

(** [register_instr]'s record, without the handler; [None] is the failed
    [assert] on the length of the string. *)
Definition parse_mask (mask : string) : option Pattern :=
  let cs := rev (list_ascii_of_string mask) in
  let n := Z.of_nat (length cs) in
  if (n =? 16) || (n =? 32) then
    let '(m, v) := mask_loop cs 0 0 0 in Some (mkPattern m v (u8 (n / 8)))
  else None.

(** ** Lookup tables *)

Definition HASH_MASK : Z := 0xFFF0707F.
Definition HASH_MASK_16 : Z := 0x0000FFFF.
Definition LUT_SIZE : Z := Z.shiftl 1 23.
Definition LUT_SIZE_16 : Z := Z.shiftl 1 18.

Fixpoint popcount (n : nat) (x : Z) : Z :=
  match n with O => 0 | S n' => Z.b2z (Z.odd x) + popcount n' (Z.div2 x) end.

(** [__builtin_popcount] of a 32-bit word. *)
Definition popcount32 (x : Z) : Z := popcount 32 x.

Record Luts := mkLuts { lut : gmap Z nat; lut16 : gmap Z nat }.

(** The more specific pattern wins a slot; on a tie the first one keeps it. *)
Definition lut_put (ps : list Pattern) (l : gmap Z nat) (lut_idx : Z) (k : nat) (p : Pattern)
    : gmap Z nat :=
  match l !! lut_idx with
  | Some k' =>
      if popcount32 (default 0 (p_mask <$> ps !! k')) <? popcount32 (p_mask p)
      then <[lut_idx := k]> l else l
  | None => <[lut_idx := k]> l
  end.

(** The [do ... while(sub_mask != 0)] loop of [build_lut] for instruction [k];
    [None] when the fuel runs out. *)
Fixpoint fill_slots (fuel : nat) (ps : list Pattern) (k : nat) (p : Pattern)
    (hash lut_size dont_care : Z) (sub_mask : Z) (l : gmap Z nat) : option (gmap Z nat) :=
  match fuel with
  | O => None
  | S fuel' =>
      let test_inst := Z.lor (Z.land (p_match p) hash) sub_mask in
      let lut_idx := pext_u32 test_inst hash in
      if lut_size <=? lut_idx then
        if sub_mask =? 0 then Some l
        else fill_slots fuel' ps k p hash lut_size dont_care sub_mask l
      else
        let l' := lut_put ps l lut_idx k p in
        let sub' := Z.land (u32 (sub_mask - dont_care)) dont_care in
        if sub' =? 0 then Some l'
        else fill_slots fuel' ps k p hash lut_size dont_care sub' l'
  end.

Definition dont_care_bits (p : Pattern) (hash : Z) : Z :=
  Z.land hash (u32 (Z.lnot (Z.land (p_mask p) hash))).

(** One iteration of the outer loop of [build_lut]. *)
Definition build_one (ps : list Pattern) (k : nat) (p : Pattern) (ls : Luts) : option Luts :=
  let is_16bit := p_size p =? 2 in
  let hash := if is_16bit then HASH_MASK_16 else HASH_MASK in
  let lsz := if is_16bit then LUT_SIZE_16 else LUT_SIZE in
  let dc := dont_care_bits p hash in
  let fuel := Z.to_nat (2 ^ popcount32 dc) in
  l' ← fill_slots fuel ps k p hash lsz dc 0 (if is_16bit then lut16 ls else lut ls);
  Some (if is_16bit then mkLuts (lut ls) l' else mkLuts l' (lut16 ls)).

Fixpoint build_from (ps : list Pattern) (k : nat) (todo : list Pattern) (ls : Luts) : option Luts :=
  match todo with
  | [] => Some ls
  | p :: todo' => ls' ← build_one ps k p ls; build_from ps (S k) todo' ls'
  end.

Definition build_lut (ps : list Pattern) : option Luts :=
  build_from ps 0 ps (mkLuts ∅ ∅).

(** ** Decoded instructions and the decode cache *)

Record InstructionData := mkData {
  rs3 : Z; rm : Z; rs1 : Z; rs2 : Z; rd : Z;
  inst : Z; imm : Z; isize : Z }.

Record InstructionCache := mkIC {
  ic_pc : Z;
  ic_inst : option nat;
  ic_data : InstructionData;
  ic_cache_gen : Z;
  ic_smc_gen : Z }.

Record CacheSet := mkSet { way0 : InstructionCache; way1 : InstructionCache; victim : Z }.

Definition CACHE_SIZE : Z := Z.shiftl 2 17.

Definition ic_empty : InstructionCache :=
  mkIC 0 None (mkData 0 0 0 0 0 0 0 4) 0 0.

Record DecCache := mkDec { sets : gmap Z CacheSet; cache_generation : Z }.

Definition dec_init : DecCache := mkDec ∅ 0.

Definition set_at (c : DecCache) (i : Z) : CacheSet :=
  default (mkSet ic_empty ic_empty 0) (sets c !! i).

(** [clear_decode_cache] of [Hart]. *)
Definition clear_decode_cache (c : DecCache) : DecCache :=
  mkDec (sets c) (u64 (cache_generation c + 1)).

(** The registered instructions a decoder consults: their patterns, their
    immediate decoders ([None] for a null [imm_decode_func]) and the tables. *)
Record DecTable := mkTable {
  patterns : list Pattern;
  imm_funcs : list (option (Z -> Z));
  luts : Luts }.

(** The candidate [dinst] of [decode_inst_slow]. *)
Definition lut_candidate (tb : DecTable) (w : Z) : option nat :=
  match (if negb (Z.land w 0x3 =? 0x3)
         then lut16 (luts tb) !! pext_u32 (Z.land w 0xFFFF) HASH_MASK_16 else None) with
  | Some k => Some k
  | None => lut (luts tb) !! pext_u32 w HASH_MASK
  end.

(** [dinst] when [f] holds. *)
Definition decode_match (tb : DecTable) (w : Z) : option nat :=
  k ← lut_candidate tb w;
  p ← patterns tb !! k;
  if Z.land w (p_mask p) =? p_match p then Some k else None.

Definition imm_of (tb : DecTable) (k : nat) (w : Z) : Z :=
  match imm_funcs tb !! k with Some (Some f) => f w | _ => 0 end.

Definition decode_data (w imm_ : Z) : InstructionData :=
  mkData (d_rs3 w) (d_rm w) (d_rs1 w) (d_rs2 w) (d_rd w) w imm_
         (if negb (Z.land w 0x3 =? 3) then 2 else 4).

Definition cache_idx (pc : Z) : Z := Z.land (Z.shiftr pc 2) (CACHE_SIZE - 1).

Definition decode_inst_slow (tb : DecTable) (epoch : Z) (c : DecCache) (pc w : Z)
    : InstructionCache * DecCache :=
  let s := set_at c (cache_idx pc) in
  let old := if victim s =? 0 then way0 s else way1 s in
  let entry :=
    match decode_match tb w with
    | Some k => mkIC pc (Some k) (decode_data w (imm_of tb k w)) (cache_generation c) epoch
    | None => mkIC 0 None (decode_data w 0) 0 (ic_smc_gen old)
    end in
  let s' := if victim s =? 0 then mkSet entry (way1 s) (Z.lxor (victim s) 1)
            else mkSet (way0 s) entry (Z.lxor (victim s) 1) in
  (entry, mkDec (<[cache_idx pc := s']> (sets c)) (cache_generation c)).

Definition way_hit (c : DecCache) (epoch pc w : Z) (e : InstructionCache) : bool :=
  (ic_pc e =? pc) && (inst (ic_data e) =? w) && (ic_cache_gen e =? cache_generation c)
  && (ic_smc_gen e =? epoch).

Definition decode_inst (tb : DecTable) (epoch : Z) (c : DecCache) (pc w : Z)
    : InstructionCache * DecCache :=
  let s := set_at c (cache_idx pc) in
  if way_hit c epoch pc w (way0 s) then (way0 s, c)
  else if way_hit c epoch pc w (way1 s) then (way1 s, c)
  else decode_inst_slow tb epoch c pc w.

(** ** Lemmas: immediates *)

Lemma sext_bits v bits i : 0 < bits <= 32 ->
  Z.testbit (sext v bits) i = Z.testbit v (Z.min i (bits - 1)).
Proof.
  intros Hb. unfold sext. tb.
  destruct (Z.leb_spec 0 i); simpl.
  - f_equal. lia.
  - by rewrite Z.testbit_neg_r by lia.
Qed.

Lemma get_bits_bits w hi lo i : 0 <= lo <= hi ->
  Z.testbit (get_bits w hi lo) i =
  ((0 <=? i) && (i <? hi - lo + 1) && Z.testbit w (i + lo))%bool.
Proof.
  intros. unfold get_bits. rewrite Z.shiftl_1_l, Z.sub_1_r, <- Z.ones_equiv. tb.
  destruct (0 <=? i), (i <? hi - lo + 1), (Z.testbit w (i + lo)); done.
Qed.

Lemma cbits_bits w k n i : 0 <= k -> 0 <= n ->
  Z.testbit (cbits w k (Z.ones n)) i = ((0 <=? i) && (i <? n) && Z.testbit w (i + k))%bool.
Proof.
  intros. unfold cbits. tb. destruct (0 <=? i), (i <? n), (Z.testbit w (i + k)); done.
Qed.

(** Decide an equality of bits of a word chosen by comparisons. *)
Ltac imm_bits :=
  tb; rewrite ?sext_bits, ?get_bits_bits by lia; tb;
  rewrite ?get_bits_bits, ?cbits_bits by lia; tb;
  repeat match goal with |- context [Z.min ?a ?b] => destruct (Z.min_spec a b) as [[? ->]|[? ->]] end;
  zcases; rewrite ?andb_false_r, ?orb_false_r, ?orb_false_l, ?andb_true_r;
  try reflexivity; try (f_equal; lia).

(** The immediates of the base formats are the bits the ISA manual
    assigns: bit [i] of the 64-bit immediate is the named bit of the word. *)
Lemma imm_formats w i :
  0 <= i < 64 ->
  Z.testbit (imm_I w) i = Z.testbit w (if i <? 11 then 20 + i else 31) /\
  Z.testbit (imm_S w) i =
    Z.testbit w (if i <? 5 then 7 + i else if i <? 11 then 20 + i else 31) /\
  Z.testbit (imm_B w) i =
    (if i =? 0 then false else
     Z.testbit w (if i <? 5 then 7 + i else if i <? 11 then 20 + i
                  else if i =? 11 then 7 else 31)) /\
  Z.testbit (imm_U w) i =
    (if i <? 12 then false else Z.testbit w (if i <? 31 then i else 31)) /\
  Z.testbit (imm_J w) i =
    (if i =? 0 then false else
     Z.testbit w (if i <? 11 then 20 + i else if i =? 11 then 20
                  else if i <? 20 then i else 31)).
Proof.
  intros Hi. split_and!.
  - unfold imm_I. imm_bits.
  - unfold imm_S. change 0x1f with (Z.ones 5). change 0xfe0 with (Z.shiftl (Z.ones 7) 5). imm_bits.
  - unfold imm_B. imm_bits.
  - unfold imm_U. change 0xFFFFF000 with (Z.shiftl (Z.ones 20) 12). imm_bits.
  - unfold imm_J. imm_bits.
Qed.

(** The layout of a compressed immediate: pairs of an immediate bit and the
    bit of the word it is taken from; every other bit is 0. *)
Definition imm_table (t : list (Z * Z)) (w i : Z) : bool :=
  existsb (fun bs => (fst bs =? i) && Z.testbit w (snd bs))%bool t.

Definition C_ADDI4SPN_bits := [(2,6); (3,5); (4,11); (5,12); (6,7); (7,8); (8,9); (9,10)].
Definition C_LW_bits := [(2,6); (3,10); (4,11); (5,12); (6,5)].
Definition C_LD_bits := [(3,10); (4,11); (5,12); (6,5); (7,6)].
Definition C_ADDI_bits := [(0,2); (1,3); (2,4); (3,5); (4,6); (5,12)].
Definition C_ADDI16SP_bits := [(4,6); (5,2); (6,5); (7,3); (8,4); (9,12)].
Definition C_J_bits := [(1,3); (2,4); (3,5); (4,11); (5,2); (6,7); (7,6); (8,9); (9,10); (10,8); (11,12)].
Definition C_BEQZ_bits := [(1,3); (2,4); (3,10); (4,11); (5,2); (6,5); (7,6); (8,12)].
Definition C_LWSP_bits := [(2,4); (3,5); (4,6); (5,12); (6,2); (7,3)].
Definition C_LDSP_bits := [(3,5); (4,6); (5,12); (6,2); (7,3); (8,4)].
Definition C_SWSP_bits := [(2,9); (3,10); (4,11); (5,12); (6,7); (7,8)].
Definition C_SDSP_bits := [(3,10); (4,11); (5,12); (6,7); (7,8); (8,9)].

(** The masks of the compressed immediates, written as runs of ones. *)
Ltac ones_masks :=
  change 0x3c0 with (Z.shiftl (Z.ones 4) 6); change 0x30 with (Z.shiftl (Z.ones 2) 4);
  change 0x1f with (Z.ones 5);
  repeat match goal with
  | |- context [cbits ?w ?k 1] => change (cbits w k 1) with (cbits w k (Z.ones 1))
  | |- context [cbits ?w ?k 3] => change (cbits w k 3) with (cbits w k (Z.ones 2))
  | |- context [cbits ?w ?k 7] => change (cbits w k 7) with (cbits w k (Z.ones 3))
  | |- context [cbits ?w ?k 15] => change (cbits w k 15) with (cbits w k (Z.ones 4))
  | |- context [Z.land (Z.shiftr ?w 2) 8] =>
      change (Z.land (Z.shiftr w 2) 8) with (Z.land (Z.shiftr w 2) (Z.shiftl (Z.ones 1) 3))
  | |- context [Z.land (Z.shiftr ?w 4) 4] =>
      change (Z.land (Z.shiftr w 4) 4) with (Z.land (Z.shiftr w 4) (Z.shiftl (Z.ones 1) 2))
  | |- context [Z.land (Z.shiftr ?w 10) 7] =>
      change (Z.land (Z.shiftr w 10) 7) with (Z.land (Z.shiftr w 10) (Z.ones 3))
  end.

Ltac table_bits := cbv [imm_table existsb fst snd]; ones_masks; imm_bits.

(** The compressed immediates are the bits the ISA manual assigns. *)
Lemma imm_formats_compressed w i :
  0 <= i < 64 ->
  Z.testbit (d_c_uimm w) i = imm_table C_ADDI4SPN_bits w i /\
  Z.testbit (d_c_uimm_cl w) i = imm_table C_LW_bits w i /\
  Z.testbit (d_c_uimm_cl1 w) i = imm_table C_LD_bits w i /\
  Z.testbit (d_c_nzimm w) i = imm_table C_ADDI_bits w (Z.min i 5) /\
  Z.testbit (d_c_uimm_arith w) i = imm_table C_ADDI_bits w i /\
  Z.testbit (d_c_nzimm_9 w) i = imm_table C_ADDI16SP_bits w (Z.min i 9) /\
  Z.testbit (d_c_j_imm w) i = imm_table C_J_bits w (Z.min i 11) /\
  Z.testbit (d_c_b_imm w) i = imm_table C_BEQZ_bits w (Z.min i 8) /\
  Z.testbit (d_c_uimm_lwsp w) i = imm_table C_LWSP_bits w i /\
  Z.testbit (d_c_uimm_ldsp w) i = imm_table C_LDSP_bits w i /\
  Z.testbit (d_c_uimm_swsp w) i = imm_table C_SWSP_bits w i /\
  Z.testbit (d_c_uimm_sdsp w) i = imm_table C_SDSP_bits w i.
Proof.
  intros Hi. split_and!.
  - unfold d_c_uimm, C_ADDI4SPN_bits. table_bits.
  - unfold d_c_uimm_cl, C_LW_bits. table_bits.
  - unfold d_c_uimm_cl1, C_LD_bits. table_bits.
  - unfold d_c_nzimm, C_ADDI_bits. table_bits.
  - unfold d_c_uimm_arith, C_ADDI_bits. table_bits.
  - unfold d_c_nzimm_9, C_ADDI16SP_bits. table_bits.
  - unfold d_c_j_imm, C_J_bits. table_bits.
  - unfold d_c_b_imm, C_BEQZ_bits. table_bits.
  - unfold d_c_uimm_lwsp, C_LWSP_bits. table_bits.
  - unfold d_c_uimm_ldsp, C_LDSP_bits. table_bits.
  - unfold d_c_uimm_swsp, C_SWSP_bits. table_bits.
  - unfold d_c_uimm_sdsp, C_SDSP_bits. table_bits.
Qed.

(** The immediates of the I, S, B, U and J formats and of the compressed
    formats are the bits the ISA manual assigns, sign-extended where it says so. *)
Lemma imm_decoders w i :
  0 <= i < 64 ->
  (Z.testbit (imm_I w) i = Z.testbit w (if i <? 11 then 20 + i else 31) /\
  Z.testbit (imm_S w) i =
    Z.testbit w (if i <? 5 then 7 + i else if i <? 11 then 20 + i else 31) /\
  Z.testbit (imm_B w) i =
    (if i =? 0 then false else
     Z.testbit w (if i <? 5 then 7 + i else if i <? 11 then 20 + i
                  else if i =? 11 then 7 else 31)) /\
  Z.testbit (imm_U w) i =
    (if i <? 12 then false else Z.testbit w (if i <? 31 then i else 31)) /\
  Z.testbit (imm_J w) i =
    (if i =? 0 then false else
     Z.testbit w (if i <? 11 then 20 + i else if i =? 11 then 20
                  else if i <? 20 then i else 31))) /\
  Z.testbit (d_c_uimm w) i = imm_table C_ADDI4SPN_bits w i /\
  Z.testbit (d_c_uimm_cl w) i = imm_table C_LW_bits w i /\
  Z.testbit (d_c_uimm_cl1 w) i = imm_table C_LD_bits w i /\
  Z.testbit (d_c_nzimm w) i = imm_table C_ADDI_bits w (Z.min i 5) /\
  Z.testbit (d_c_uimm_arith w) i = imm_table C_ADDI_bits w i /\
  Z.testbit (d_c_nzimm_9 w) i = imm_table C_ADDI16SP_bits w (Z.min i 9) /\
  Z.testbit (d_c_j_imm w) i = imm_table C_J_bits w (Z.min i 11) /\
  Z.testbit (d_c_b_imm w) i = imm_table C_BEQZ_bits w (Z.min i 8) /\
  Z.testbit (d_c_uimm_lwsp w) i = imm_table C_LWSP_bits w i /\
  Z.testbit (d_c_uimm_ldsp w) i = imm_table C_LDSP_bits w i /\
  Z.testbit (d_c_uimm_swsp w) i = imm_table C_SWSP_bits w i /\
  Z.testbit (d_c_uimm_sdsp w) i = imm_table C_SDSP_bits w i.
Proof. intros Hi. exact (conj (imm_formats w i Hi) (imm_formats_compressed w i Hi)). Qed.

(** ** Immediates are 64-bit values *)

Lemma shiftl_inw x n : 0 <= n <= 32 -> inw 32 x -> inw 64 (Z.shiftl x n).
Proof.
  intros Hn [H0 H1]. rewrite Z.shiftl_mul_pow2 by lia. split; [apply Z.mul_nonneg_nonneg; lia|].
  assert (2 ^ n <= 2 ^ 32) by (apply Z.pow_le_mono_r; lia).
  change (2 ^ 64) with (2 ^ 32 * 2 ^ 32). pose proof (pow2_pos n). nia.
Qed.

Lemma cbits_inw w k m : 0 <= k -> 0 <= m -> inw 32 w -> inw 32 (cbits w k m).
Proof. intros. unfold cbits. auto with rvw. Qed.

Lemma get_bits_inw w hi lo : 0 <= lo <= hi -> inw 32 w -> inw 32 (get_bits w hi lo).
Proof.
  intros. unfold get_bits. apply inw_land; auto with rvw.
  rewrite Z.shiftl_1_l. pose proof (pow2_pos (hi - lo + 1)). lia.
Qed.

Lemma imm_Zicsr_inw w : inw 32 w -> inw 12 (imm_Zicsr w).
Proof.
  intros [H0 H1]. unfold imm_Zicsr. rewrite Z.shiftr_div_pow2 by lia.
  split; [apply Z.div_pos; lia|]. apply Z.div_lt_upper_bound; [lia|]. by change (2 ^ 20 * 2 ^ 12) with (2 ^ 32).
Qed.

Lemma u64_inw x : inw 64 (u64 x).
Proof. by apply uN_inw. Qed.

Lemma u32_inw64 x : inw 64 (u32 x).
Proof. apply (inw_mono 32); [lia|]. by apply uN_inw. Qed.

(** An immediate decoder that yields 64-bit values. *)
Definition imm_ok (f : Z -> Z) : Prop := forall w, inw 32 w -> inw 64 (f w).

Ltac imm_ok_tac f :=
  intros w Hw; assert (inw 64 w) by (eapply inw_mono; [|done]; lia);
  assert (forall k m, 0 <= k -> 0 <= m -> inw 64 (cbits w k m))
    by (intros; apply (inw_mono 32); [lia|]; by apply cbits_inw);
  first [apply u64_inw | apply u32_inw64 |
    unfold f; auto 20 using shiftl_inw, cbits_inw, get_bits_inw with rvw].

Lemma imm_Zicsr_ok : imm_ok imm_Zicsr.
Proof. imm_ok_tac imm_Zicsr. Qed.
Lemma imm_I_ok : imm_ok imm_I.
Proof. imm_ok_tac imm_I. Qed.
Lemma imm_S_ok : imm_ok imm_S.
Proof. imm_ok_tac imm_S. Qed.
Lemma imm_B_ok : imm_ok imm_B.
Proof. imm_ok_tac imm_B. Qed.
Lemma imm_U_ok : imm_ok imm_U.
Proof. imm_ok_tac imm_U. Qed.
Lemma imm_J_ok : imm_ok imm_J.
Proof. imm_ok_tac imm_J. Qed.
Lemma shamt_ok : imm_ok shamt.
Proof. imm_ok_tac shamt. Qed.
Lemma shamt64_ok : imm_ok shamt64.
Proof. imm_ok_tac shamt64. Qed.
Lemma d_c_uimm_ok : imm_ok d_c_uimm.
Proof. imm_ok_tac d_c_uimm. Qed.
Lemma d_c_uimm_cl_ok : imm_ok d_c_uimm_cl.
Proof. imm_ok_tac d_c_uimm_cl. Qed.
Lemma d_c_uimm_cl1_ok : imm_ok d_c_uimm_cl1.
Proof. imm_ok_tac d_c_uimm_cl1. Qed.
Lemma d_c_nzimm_ok : imm_ok d_c_nzimm.
Proof. imm_ok_tac d_c_nzimm. Qed.
Lemma d_c_uimm_arith_ok : imm_ok d_c_uimm_arith.
Proof. imm_ok_tac d_c_uimm_arith. Qed.
Lemma d_c_nzimm_9_ok : imm_ok d_c_nzimm_9.
Proof. imm_ok_tac d_c_nzimm_9. Qed.
Lemma d_c_j_imm_ok : imm_ok d_c_j_imm.
Proof. imm_ok_tac d_c_j_imm. Qed.
Lemma d_c_b_imm_ok : imm_ok d_c_b_imm.
Proof. imm_ok_tac d_c_b_imm. Qed.
Lemma d_c_uimm_lwsp_ok : imm_ok d_c_uimm_lwsp.
Proof. imm_ok_tac d_c_uimm_lwsp. Qed.
Lemma d_c_uimm_ldsp_ok : imm_ok d_c_uimm_ldsp.
Proof. imm_ok_tac d_c_uimm_ldsp. Qed.
Lemma d_c_uimm_swsp_ok : imm_ok d_c_uimm_swsp.
Proof. imm_ok_tac d_c_uimm_swsp. Qed.
Lemma d_c_uimm_sdsp_ok : imm_ok d_c_uimm_sdsp.
Proof. imm_ok_tac d_c_uimm_sdsp. Qed.

#[export] Hint Resolve imm_Zicsr_ok imm_I_ok imm_S_ok imm_B_ok imm_U_ok imm_J_ok shamt_ok shamt64_ok d_c_uimm_ok d_c_uimm_cl_ok d_c_uimm_cl1_ok d_c_nzimm_ok d_c_uimm_arith_ok d_c_nzimm_9_ok d_c_j_imm_ok d_c_b_imm_ok d_c_uimm_lwsp_ok d_c_uimm_ldsp_ok d_c_uimm_swsp_ok d_c_uimm_sdsp_ok : rvw.
