(* ===== verification/Lut.v ===== *)
(** * The hashed lookup tables of the decoder ([src/decode.cpp], [build_lut])

    [build_lut] enumerates, for every registered instruction, the settings of
    the hash bits its mask leaves free and stores the instruction in each slot
    unless a more specific one is there. This file shows that the enumeration
    [sub_mask = (sub_mask - dont_care) & dont_care] visits every setting
    before it returns to 0, so the loop terminates, and that the tables hold
    the most specific instruction compatible with the hash bits of a word. *)

From S2P Require Import Prelude Defs Decode.

(** ** Recursion on bits *)

Lemma z_bits_split x : x = b2z (Z.odd x) + 2 * Z.div2 x.
Proof. pose proof (Z.div2_odd x). lia. Qed.

Lemma land_split x y :
  Z.land x y = b2z (Z.odd x && Z.odd y) + 2 * Z.land (Z.div2 x) (Z.div2 y).
Proof.
  rewrite (z_bits_split (Z.land x y)). f_equal.
  - rewrite <- !Z.bit0_odd, Z.land_spec. done.
  - f_equal. rewrite !Z.div2_spec. apply Z.shiftr_land.
Qed.

Lemma odd_split (b : bool) x : Z.odd (b2z b + 2 * x) = b.
Proof. rewrite Z.odd_add_mul_2. by destruct b. Qed.

Lemma div2_split (b : bool) x : Z.div2 (b2z b + 2 * x) = x.
Proof.
  rewrite Z.div2_div. symmetry. apply (Z.div_unique_pos _ _ _ (b2z b)); [|lia].
  destruct b; simpl; lia.
Qed.

Lemma split_inj (a b : bool) x y : b2z a + 2 * x = b2z b + 2 * y -> a = b /\ x = y.
Proof. destruct a, b; simpl; intros; split; try lia; done. Qed.

Lemma odd_land x y : Z.odd (Z.land x y) = (Z.odd x && Z.odd y)%bool.
Proof. by rewrite <- !Z.bit0_odd, Z.land_spec. Qed.

Lemma div2_land x y : Z.div2 (Z.land x y) = Z.land (Z.div2 x) (Z.div2 y).
Proof. rewrite !Z.div2_spec. apply Z.shiftr_land. Qed.

(** ** [pext] *)

Lemma popcount_nonneg n x : 0 <= popcount n x.
Proof. revert x. induction n; intros; simpl; [lia|]. pose proof (IHn (Z.div2 x)). destruct (Z.odd x); simpl; lia. Qed.

Lemma pext_range n v m : 0 <= pext n v m < 2 ^ popcount n m.
Proof.
  revert v m. induction n as [|n IH]; intros v m; cbn [pext popcount]; [lia|].
  specialize (IH (Z.div2 v) (Z.div2 m)). pose proof (popcount_nonneg n (Z.div2 m)).
  destruct (Z.odd m); cbn [Z.b2z]; [|by rewrite Z.add_0_l].
  rewrite Z.pow_add_r, Z.pow_1_r by lia. destruct (Z.odd v); cbn [Z.b2z]; lia.
Qed.

(** [pext] reads only the bits of the mask ... *)
Lemma pext_land n v m : pext n (Z.land v m) m = pext n v m.
Proof.
  revert v m. induction n as [|n IH]; intros v m; cbn [pext popcount]; [done|].
  rewrite odd_land, div2_land, IH. destruct (Z.odd m); [|done]. by rewrite andb_true_r.
Qed.

(** ... and all of them. *)
Lemma pext_inj n v w m : inw (Z.of_nat n) m ->
  pext n v m = pext n w m -> Z.land v m = Z.land w m.
Proof.
  revert v w m. induction n as [|n IH]; intros v w m Hm H.
  { destruct Hm. change (2 ^ Z.of_nat 0) with 1 in *. replace m with 0 by lia. by rewrite !Z.land_0_r. }
  assert (inw (Z.of_nat n) (Z.div2 m)) as Hm'.
  { destruct Hm as [? Hm]. rewrite Nat2Z.inj_succ, Z.pow_succ_r in Hm by lia.
    pose proof (z_bits_split m). split; destruct (Z.odd m); simpl in *; lia. }
  cbn [pext] in H. rewrite (land_split v), (land_split w).
  destruct (Z.odd m).
  - apply split_inj in H as [-> H]. by rewrite (IH _ _ _ Hm' H).
  - by rewrite (IH _ _ _ Hm' H), !andb_false_r.
Qed.

(** ** Submask enumeration *)

Definition submask (s d : Z) : Prop := Z.land s d = s.

Lemma submask_div2 s d : submask s d -> submask (Z.div2 s) (Z.div2 d).
Proof. unfold submask. intros H. by rewrite <- div2_land, H. Qed.

Lemma submask_odd s d : submask s d -> Z.odd d = false -> Z.odd s = false.
Proof. unfold submask. intros <- Hd. by rewrite odd_land, Hd, andb_false_r. Qed.

Lemma submask_full s d : submask s d -> Z.land (s - d - 1) d = s.
Proof.
  intros Hs. replace (s - d - 1) with (s + Z.lnot d) by (unfold Z.lnot; lia).
  rewrite Z.add_nocarry_lor.
  - rewrite Z.land_lor_distr_l, Hs, (Z.land_comm _ d), Z.land_lnot_diag. apply Z.lor_0_r.
  - rewrite <- Hs, <- Z.land_assoc, Z.land_lnot_diag. apply Z.land_0_r.
Qed.

(** The next submask in the enumeration has the next packed value, and the
    last one is followed by 0. *)
Lemma pext_next n s d : submask s d ->
  pext n (Z.land (s - d) d) d = (pext n s d + 1) mod 2 ^ popcount n d.
Proof.
  revert s d. induction n as [|n IH]; intros s d Hs; cbn [pext popcount]; [done|].
  pose proof (submask_div2 _ _ Hs) as Hs'. pose proof (IH _ _ Hs') as HI.
  pose proof (z_bits_split s) as Es. pose proof (z_bits_split d) as Ed.
  pose proof (popcount_nonneg n (Z.div2 d)).
  pose proof (pext_range n (Z.div2 s) (Z.div2 d)) as Hr.
  rewrite odd_land, div2_land.
  destruct (Z.odd d) eqn:Od; cbn [Z.b2z].
  - rewrite Z.pow_add_r, Z.pow_1_r, andb_true_r by lia.
    destruct (Z.odd s) eqn:Os; cbn [Z.b2z] in *.
    + assert (s - d = b2z false + 2 * (Z.div2 s - Z.div2 d)) as -> by (cbn [Z.b2z]; lia).
      rewrite odd_split, div2_split, HI. cbn [Z.b2z].
      replace (1 + _ + 1) with (2 * (pext n (Z.div2 s) (Z.div2 d) + 1)) by lia.
      rewrite Zmult_mod_distr_l. lia.
    + assert (s - d = b2z true + 2 * (Z.div2 s - Z.div2 d - 1)) as -> by (cbn [Z.b2z]; lia).
      rewrite odd_split, div2_split, submask_full by done. cbn [Z.b2z].
      rewrite Z.mod_small by lia. lia.
  - rewrite (submask_odd s d Hs Od) in *. cbn [Z.b2z andb] in *.
    assert (s - d = b2z false + 2 * (Z.div2 s - Z.div2 d)) as -> by (cbn [Z.b2z]; lia).
    by rewrite div2_split, HI, Z.add_0_l.
Qed.

(** ** One slot *)

(** What [lut_put] of instruction [k] does to the slot it addresses. *)
Definition put_val (ps : list Pattern) (k : nat) (p : Pattern) (o : option nat) : option nat :=
  match o with
  | Some k' =>
      if popcount32 (default 0 (p_mask <$> ps !! k')) <? popcount32 (p_mask p)
      then Some k else o
  | None => Some k
  end.

Lemma lut_put_lookup ps l i k p x :
  lut_put ps l i k p !! x = if decide (i = x) then put_val ps k p (l !! x) else l !! x.
Proof.
  unfold lut_put, put_val. destruct (decide (i = x)) as [->|Hne].
  - repeat case_goal; rewrite ?lookup_insert_eq; try congruence; done.
  - repeat case_goal; rewrite ?lookup_insert_ne by done; done.
Qed.

(** ** The inner loop *)

Lemma pext_0 n m : pext n 0 m = 0.
Proof. revert m. induction n; intros m; cbn [pext]; [done|]. rewrite IHn. by destruct (Z.odd m). Qed.

Lemma pext_u32_inj v w m : inw 32 m ->
  pext_u32 v m = pext_u32 w m -> Z.land v m = Z.land w m.
Proof. apply (pext_inj 32). Qed.

Lemma pext_u32_range v m : 0 <= pext_u32 v m < 2 ^ popcount32 m.
Proof. apply pext_range. Qed.

Lemma pext_u32_next s d : submask s d ->
  pext_u32 (Z.land (s - d) d) d = (pext_u32 s d + 1) mod 2 ^ popcount32 d.
Proof. apply pext_next. Qed.

Lemma pext_u32_0 m : pext_u32 0 m = 0.
Proof. apply pext_0. Qed.

Lemma pext_u32_land v m : pext_u32 (Z.land v m) m = pext_u32 v m.
Proof. apply pext_land. Qed.

#[local] Opaque pext_u32 popcount32.

(** A registered pattern: 32-bit words, no match bit outside the mask. *)
Definition pattern_ok (p : Pattern) : Prop :=
  inw 32 (p_mask p) /\ inw 32 (p_match p) /\ submask (p_match p) (p_mask p).

#[global] Instance pattern_ok_dec p : Decision (pattern_ok p).
Proof. unfold pattern_ok, submask. apply _. Defined.

Section fill.
Context (ps : list Pattern) (k : nat) (p : Pattern) (hash lsz : Z).
Hypothesis Hp : pattern_ok p.
Hypothesis Hhash : inw 32 hash.
Hypothesis Hsz : 2 ^ popcount32 hash <= lsz.

Let dc := dont_care_bits p hash.
Let slot (s : Z) := pext_u32 (Z.lor (Z.land (p_match p) hash) s) hash.

Lemma dc_inw : inw 32 dc.
Proof. unfold dc, dont_care_bits. apply inw_land; [lia|done|]. apply uN_inw. lia. Qed.

Lemma dc_bits i : Z.testbit dc i = (Z.testbit hash i && negb (Z.testbit (p_mask p) i))%bool.
Proof.
  destruct (Z.neg_nonneg_cases i); [by rewrite !Z.testbit_neg_r|].
  unfold dc, dont_care_bits. tb.
  destruct (Z.ltb_spec i 32).
  - rewrite (proj2 (Z.leb_le 0 i)) by lia. by destruct (Z.testbit hash i), (Z.testbit (p_mask p) i).
  - by rewrite (inw_high 32 hash).
Qed.

(** Different submasks address different slots. *)
Lemma slot_inj s s' : submask s dc -> submask s' dc -> slot s = slot s' -> s = s'.
Proof.
  intros Hs Hs' H. unfold slot in H. apply pext_u32_inj in H; [|done].
  destruct Hp as (_ & _ & Hmm). apply Z.bits_inj'. intros i Hi.
  apply (f_equal (fun z => Z.testbit z i)) in H, Hs, Hs', Hmm.
  rewrite !Z.land_spec, !Z.lor_spec, !Z.land_spec in H. rewrite Z.land_spec, dc_bits in Hs, Hs'.
  rewrite Z.land_spec in Hmm.
  destruct (Z.testbit s i), (Z.testbit s' i), (Z.testbit hash i), (Z.testbit (p_mask p) i),
    (Z.testbit (p_match p) i); done.
Qed.

Lemma submask_step s : submask s dc ->
  let s' := Z.land (u32 (s - dc)) dc in
  submask s' dc /\
  (s' = 0 -> pext_u32 s dc + 1 = 2 ^ popcount32 dc) /\
  (s' <> 0 -> pext_u32 s' dc = pext_u32 s dc + 1).
Proof.
  intros Hs s'. assert (s' = Z.land (s - dc) dc) as Es'.
  { subst s'. rewrite uN_land by lia. rewrite <- Z.land_assoc, (Z.land_comm (Z.ones 32)).
    rewrite Z.land_ones by lia. f_equal. apply Z.mod_small, dc_inw. }
  pose proof (pext_u32_next s dc Hs) as Hn. rewrite <- Es' in Hn.
  pose proof (pext_u32_range s dc) as Hb.
  assert (submask s' dc) as Hs'.
  { rewrite Es'. unfold submask. by rewrite <- Z.land_assoc, Z.land_diag. }
  split_and!; [done| |].
  - intros E. rewrite E, pext_u32_0 in Hn.
    destruct (Z.eq_dec (pext_u32 s dc + 1) (2 ^ popcount32 dc)); [done|].
    rewrite Z.mod_small in Hn by lia. lia.
  - intros E. destruct (Z.eq_dec (pext_u32 s dc + 1) (2 ^ popcount32 dc)) as [He|].
    + rewrite He, Z.mod_same in Hn by lia. destruct E. rewrite <- Hs', <- (Z.land_0_l dc).
      apply pext_u32_inj; [apply dc_inw|]. by rewrite Hn, pext_u32_0.
    + by rewrite Z.mod_small in Hn by lia.
Qed.

(** From submask [s] on, the loop puts [k] in the slots of the submasks not
    yet visited, within [2 ^ popcount dc] rounds. *)
Lemma fill_slots_spec m : forall fuel s l,
  submask s dc -> 2 ^ popcount32 dc - pext_u32 s dc = Z.of_nat m -> (m <= fuel)%nat ->
  exists l', fill_slots fuel ps k p hash lsz dc s l = Some l' /\
    (forall s', submask s' dc -> pext_u32 s dc <= pext_u32 s' dc ->
       l' !! slot s' = put_val ps k p (l !! slot s')) /\
    (forall x, (forall s', submask s' dc -> pext_u32 s dc <= pext_u32 s' dc -> slot s' <> x) ->
       l' !! x = l !! x).
Proof.
  induction m as [|m IH]; intros fuel s l Hs Hm Hf.
  { pose proof (pext_u32_range s dc). lia. }
  destruct fuel as [|fuel]; [lia|]. cbn [fill_slots].
  pose proof (pext_u32_range (Z.lor (Z.land (p_match p) hash) s) hash) as Hr.
  rewrite (proj2 (Z.leb_gt lsz _)) by (lia).
  destruct (submask_step s Hs) as (Hs' & Hz & Hnz).
  set (s1 := Z.land (u32 (s - dc)) dc) in *.
  assert (forall s', submask s' dc -> pext_u32 s' dc = pext_u32 s dc -> s' = s) as Huniq.
  { intros s' Hs1 He. apply pext_u32_inj in He; [|apply dc_inw]. by rewrite Hs, Hs1 in He. }
  fold (slot s).
  destruct (Z.eqb_spec s1 0) as [E|E].
  - eexists. split_and!; [done| |].
    + intros s' Hs1 Hle. rewrite lut_put_lookup, (Huniq s' Hs1); [by rewrite decide_True|].
      pose proof (pext_u32_range s' dc). specialize (Hz E). lia.
    + intros x Hx. rewrite lut_put_lookup, decide_False; [done|]. apply Hx; [done|lia].
  - specialize (Hnz E).
    destruct (IH fuel s1 (lut_put ps l (slot s) k p) Hs') as (l' & Hl' & H1 & H2); [lia|lia|].
    exists l'. split_and!; [done| |].
    + intros s' Hs1 Hle. destruct (Z.eq_dec (pext_u32 s' dc) (pext_u32 s dc)) as [He|Hne].
      * rewrite (Huniq s' Hs1 He), H2, lut_put_lookup; [by rewrite decide_True|].
        intros s2 Hs2 Hle2 Heq. apply slot_inj in Heq; [|done..]. subst s2. lia.
      * rewrite (H1 s' Hs1) by lia. rewrite lut_put_lookup, decide_False; [reflexivity|].
        intros Heq. apply slot_inj in Heq; [|done..]. congruence.
    + intros x Hx. rewrite H2, lut_put_lookup.
      * rewrite decide_False; [done|]. apply Hx; [done|lia].
      * intros s2 Hs2 Hle2. apply Hx; [done|lia].
Qed.

(** [p] is compatible with the hash bits of the word [w]. *)
Definition hash_compat (w : Z) : Prop :=
  Z.land (Z.land w (p_mask p)) hash = Z.land (p_match p) hash.

Lemma hash_compat_slot w : hash_compat w -> slot (Z.land w dc) = pext_u32 w hash.
Proof.
  intros Hw. unfold slot. rewrite <- (pext_u32_land w), <- pext_u32_land.
  apply (f_equal (fun z => pext_u32 z hash)).
  destruct Hp as (_ & _ & Hmm). apply Z.bits_inj'. intros i Hi. tb. rewrite dc_bits.
  apply (f_equal (fun z => Z.testbit z i)) in Hw, Hmm. rewrite !Z.land_spec in Hmm.
  repeat rewrite Z.land_spec in Hw.
  destruct (Z.testbit w i), (Z.testbit hash i), (Z.testbit (p_mask p) i),
    (Z.testbit (p_match p) i); done.
Qed.

Lemma slot_hash_compat w s : submask s dc -> slot s = pext_u32 w hash -> hash_compat w.
Proof.
  intros Hs H. unfold slot in H. apply pext_u32_inj in H; [|done].
  destruct Hp as (_ & _ & Hmm). apply Z.bits_inj'. intros i Hi. tb.
  apply (f_equal (fun z => Z.testbit z i)) in H, Hs, Hmm.
  rewrite !Z.land_spec, !Z.lor_spec, !Z.land_spec in H. rewrite Z.land_spec, dc_bits in Hs.
  rewrite Z.land_spec in Hmm.
  destruct (Z.testbit s i), (Z.testbit w i), (Z.testbit hash i), (Z.testbit (p_mask p) i),
    (Z.testbit (p_match p) i); done.
Qed.

#[global] Instance hash_compat_dec w : Decision (hash_compat w).
Proof. unfold hash_compat. apply _. Defined.

(** The whole inner loop, at the slot of a word. *)
Lemma fill_slots_all l : exists l',
  fill_slots (Z.to_nat (2 ^ popcount32 dc)) ps k p hash lsz dc 0 l = Some l' /\
  forall w, l' !! pext_u32 w hash =
    if decide (hash_compat w) then put_val ps k p (l !! pext_u32 w hash)
    else l !! pext_u32 w hash.
Proof.
  assert (pext_u32 0 dc = 0) as E0 by apply pext_u32_0.
  destruct (fill_slots_spec (Z.to_nat (2 ^ popcount32 dc)) (Z.to_nat (2 ^ popcount32 dc)) 0 l)
    as (l' & Hl' & H1 & H2).
  { unfold submask. apply Z.land_0_l. }
  { pose proof (pext_u32_range 0 dc). lia. }
  { done. }
  exists l'. split; [done|]. intros w. destruct (decide (hash_compat w)) as [Hc|Hc].
  - rewrite <- (hash_compat_slot w Hc). apply H1.
    + unfold submask. by rewrite <- Z.land_assoc, Z.land_diag.
    + rewrite E0. apply pext_u32_range.
  - apply H2. intros s' Hs' _ He. by apply Hc, (slot_hash_compat w s').
Qed.
End fill.

(** ** The whole table *)

Definition is16 (p : Pattern) : bool := p_size p =? 2.
Definition hash_of (b16 : bool) : Z := if b16 then HASH_MASK_16 else HASH_MASK.
Definition table_of (b16 : bool) (ls : Luts) : gmap Z nat := if b16 then lut16 ls else lut ls.

(** Instruction [j] is a [b16]-class instruction compatible with the hashed
    bits of [w]. *)
Definition candidate (ps : list Pattern) (b16 : bool) (w : Z) (j : nat) (q : Pattern) : Prop :=
  ps !! j = Some q /\ is16 q = b16 /\ hash_compat q (hash_of b16) w.

(** Among the first [n] instructions, [k] is the candidate with the largest
    mask, the first one of those. *)
Definition best_upto (ps : list Pattern) (b16 : bool) (w : Z) (n k : nat) : Prop :=
  (k < n)%nat /\ exists p, candidate ps b16 w k p /\
  forall j q, (j < n)%nat -> candidate ps b16 w j q ->
    popcount32 (p_mask q) < popcount32 (p_mask p) \/
    popcount32 (p_mask q) = popcount32 (p_mask p) /\ (k <= j)%nat.

Definition slot_ok (ps : list Pattern) (b16 : bool) (w : Z) (n : nat) (o : option nat) : Prop :=
  match o with
  | Some k => best_upto ps b16 w n k
  | None => forall j q, (j < n)%nat -> ~ candidate ps b16 w j q
  end.

Lemma slot_ok_put ps b16 w n p o : candidate ps b16 w n p ->
  slot_ok ps b16 w n o -> slot_ok ps b16 w (S n) (put_val ps n p o).
Proof.
  intros Hc Ho. pose proof Hc as (Hn & _).
  assert (forall j q, candidate ps b16 w j q -> (j < S n)%nat -> (j < n)%nat \/ j = n /\ q = p)
    as Hsplit.
  { intros j q (Hj & _) Hlt. destruct (decide (j = n)) as [->|]; [right|left; lia].
    split; congruence. }
  destruct o as [k|]; simpl in *.
  - destruct Ho as (Hk & p' & Hp' & Hbest). pose proof Hp' as (Hk' & _). rewrite Hk'. simpl.
    destruct (Z.ltb_spec (popcount32 (p_mask p')) (popcount32 (p_mask p))) as [Hlt|Hge]; simpl.
    + split; [lia|]. exists p. split; [done|]. intros j q Hj Hq.
      destruct (Hsplit j q Hq Hj) as [Hj'|[-> ->]]; [|right; split; [done|lia]].
      left. destruct (Hbest j q Hj' Hq) as [|[? _]]; lia.
    + split; [lia|]. exists p'. split; [done|]. intros j q Hj Hq.
      destruct (Hsplit j q Hq Hj) as [Hj'|[-> ->]]; [by apply Hbest|].
      destruct (Z.eq_dec (popcount32 (p_mask p)) (popcount32 (p_mask p'))); [right|left]; lia.
  - split; [lia|]. exists p. split; [done|]. intros j q Hj Hq.
    destruct (Hsplit j q Hq Hj) as [Hj'|[-> ->]]; [by destruct (Ho j q Hj')|].
    right. split; [done|lia].
Qed.

Lemma slot_ok_skip ps b16 w n o : (forall p, ~ candidate ps b16 w n p) ->
  slot_ok ps b16 w n o -> slot_ok ps b16 w (S n) o.
Proof.
  intros Hno Ho. assert (forall j q, (j < S n)%nat -> candidate ps b16 w j q -> (j < n)%nat) as Hs.
  { intros j q Hj Hq. destruct (decide (j = n)) as [->|]; [by destruct (Hno q)|lia]. }
  destruct o as [k|]; simpl in *.
  - destruct Ho as (Hk & p & Hp & Hb). split; [lia|]. exists p. split; [done|].
    intros j q Hj Hq. apply Hb; [by eapply Hs|done].
  - intros j q Hj Hq. apply (Ho j q); [by eapply Hs|done].
Qed.

Lemma hash_of_inw b : inw 32 (hash_of b).
Proof. destruct b; split; vm_compute; congruence. Qed.

Lemma build_one_spec ps n p ls : ps !! n = Some p -> pattern_ok p ->
  (forall b w, slot_ok ps b w n (table_of b ls !! pext_u32 w (hash_of b))) ->
  exists ls', build_one ps n p ls = Some ls' /\
  forall b w, slot_ok ps b w (S n) (table_of b ls' !! pext_u32 w (hash_of b)).
Proof.
  intros Hn Hp Hinv. unfold build_one.
  assert (2 ^ popcount32 (hash_of (is16 p)) <= if is16 p then LUT_SIZE_16 else LUT_SIZE) as Hsz
    by (destruct (is16 p); vm_compute; congruence).
  destruct (fill_slots_all ps n p (hash_of (is16 p)) _ Hp (hash_of_inw _) Hsz
              (table_of (is16 p) ls)) as (l' & Hl' & Hx).
  fold (is16 p). fold (hash_of (is16 p)). fold (table_of (is16 p) ls). rewrite Hl'. simpl.
  eexists. split; [done|]. intros b w.
  destruct (decide (is16 p = b)) as [Hb|Hb].
  - assert (forall X, table_of b (if is16 p then mkLuts (lut ls) X else mkLuts X (lut16 ls)) = X)
      as -> by (intros; subst b; by destruct (is16 p)).
    rewrite <- Hb, Hx. rewrite Hb. destruct (decide (hash_compat p (hash_of b) w)) as [Hc|Hc].
    + apply slot_ok_put; [done|apply Hinv].
    + apply slot_ok_skip; [|apply Hinv]. intros q (Hq & _ & Hc'). congruence.
  - assert (forall X, table_of b (if is16 p then mkLuts (lut ls) X else mkLuts X (lut16 ls)) = table_of b ls)
      as -> by (intros; by destruct (is16 p), b).
    apply slot_ok_skip; [|apply Hinv]. intros q (Hq & Hc' & _). congruence.
Qed.

Lemma build_from_spec ps todo : forall n ls,
  drop n ps = todo -> (n <= length ps)%nat -> Forall pattern_ok todo ->
  (forall b w, slot_ok ps b w n (table_of b ls !! pext_u32 w (hash_of b))) ->
  exists ls', build_from ps n todo ls = Some ls' /\
  forall b w, slot_ok ps b w (length ps) (table_of b ls' !! pext_u32 w (hash_of b)).
Proof.
  induction todo as [|p todo IH]; intros n ls Hd Hn Hok Hinv; cbn [build_from].
  - exists ls. split; [done|]. intros b w.
    assert (length ps = n) as ->; [|apply Hinv].
    apply (f_equal length) in Hd. rewrite length_drop in Hd. simpl in Hd. lia.
  - assert (ps !! n = Some p) as Hp.
    { rewrite <- (Nat.add_0_r n), <- lookup_drop, Hd. done. }
    inversion Hok as [|? ? Hp' Hok']; subst.
    destruct (build_one_spec ps n p ls Hp Hp' Hinv) as (ls' & -> & Hinv'). simpl.
    apply IH; [|by apply lookup_lt_Some in Hp|done|done].
    by rewrite <- Nat.add_1_r, <- drop_drop, Hd.
Qed.

Lemma build_lut_spec ps : Forall pattern_ok ps ->
  exists ls, build_lut ps = Some ls /\
  forall b w, slot_ok ps b w (length ps) (table_of b ls !! pext_u32 w (hash_of b)).
Proof.
  intros Hok. apply build_from_spec; [by rewrite drop_0|lia|done|].
  intros [] w; simpl; rewrite lookup_empty; simpl; lia.
Qed.

(** [build_lut] terminates on every list of registered patterns, and slot
    [pext(w)] of a table holds the most specific instruction of its class
    compatible with the hashed bits of [w] (the first registered one of the
    most specific), and is null when there is none. *)
Lemma build_lut_correct ps : Forall pattern_ok ps ->
  exists ls, build_lut ps = Some ls /\
  forall b16 w k,
    (table_of b16 ls !! pext_u32 w (hash_of b16) = Some k <-> best_upto ps b16 w (length ps) k) /\
    (table_of b16 ls !! pext_u32 w (hash_of b16) = None <->
       forall j q, ~ candidate ps b16 w j q).
Proof.
  intros Hok. destruct (build_lut_spec ps Hok) as (ls & Hls & Hs).
  exists ls. split; [done|]. intros b w k. specialize (Hs b w).
  destruct (table_of b ls !! _) as [k'|] eqn:E; simpl in Hs.
  - split; split; try done; [by intros [= ->]| |].
    + intros (Hk & p & Hp & Hb). destruct Hs as (Hk' & p' & Hp' & Hb').
      specialize (Hb k' p' Hk' Hp'). specialize (Hb' k p Hk Hp). f_equal. lia.
    + intros Hno. destruct Hs as (_ & p & Hp & _). by apply Hno in Hp.
  - assert (forall j q, ~ candidate ps b w j q) as Hno.
    { intros j q Hq. apply (Hs j q); [|done]. destruct Hq as (Hq & _). by eapply lookup_lt_Some. }
    split; split; try done. intros (_ & p & Hp & _). by apply Hno in Hp.
Qed.

(** ** The decode cache *)

(** The decoding of [w], with no cache. *)
Definition pure_decode (tb : DecTable) (w : Z) : option nat * InstructionData :=
  let k := decode_match tb w in
  (k, decode_data w (match k with Some k => imm_of tb k w | None => 0 end)).

(** A live way (its [pc] is not 0) holds the decoding of its own word, which
    some instruction matches. *)
Definition way_ok (tb : DecTable) (e : InstructionCache) : Prop :=
  ic_pc e <> 0 ->
  (ic_inst e, ic_data e) = pure_decode tb (inst (ic_data e)) /\ decode_match tb (inst (ic_data e)) <> None.

Definition cache_ok (tb : DecTable) (c : DecCache) : Prop :=
  forall i, way_ok tb (way0 (set_at c i)) /\ way_ok tb (way1 (set_at c i)).

Lemma cache_ok_init tb : cache_ok tb dec_init.
Proof. intros i. unfold set_at, dec_init. simpl. rewrite lookup_empty. by split; intros []. Qed.

Lemma cache_ok_clear tb c : cache_ok tb c -> cache_ok tb (clear_decode_cache c).
Proof. done. Qed.

(** What the entry returned for [w] says. *)
Definition entry_ok (tb : DecTable) (w : Z) (e : InstructionCache) : Prop :=
  (ic_inst e, ic_data e) = pure_decode tb w /\ (ic_pc e = 0 <-> decode_match tb w = None).

Lemma decode_inst_slow_ok tb epoch c pc w : cache_ok tb c -> pc <> 0 ->
  let '(e, c') := decode_inst_slow tb epoch c pc w in entry_ok tb w e /\ cache_ok tb c'.
Proof.
  intros Hc Hpc. unfold decode_inst_slow.
  set (e := match decode_match tb w with Some _ => _ | None => _ end).
  assert (entry_ok tb w e /\ inst (ic_data e) = w) as [He Hw].
  { subst e. unfold entry_ok, pure_decode. by destruct (decode_match tb w). }
  assert (way_ok tb e) as Hway.
  { intros Hne. rewrite Hw. destruct He as [He Hn]. split; [done|]. by rewrite <- Hn. }
  split; [done|]. intros i. unfold set_at. simpl.
  destruct (decide (i = cache_idx pc)) as [->|Hne].
  - rewrite lookup_insert_eq. simpl. destruct (Hc (cache_idx pc)) as [H0 H1]. unfold set_at in H0, H1.
    by destruct (_ =? 0); split.
  - rewrite lookup_insert_ne by done. apply Hc.
Qed.

Lemma way_hit_ok tb c epoch pc w e : pc <> 0 -> way_ok tb e -> way_hit c epoch pc w e = true ->
  entry_ok tb w e.
Proof.
  intros Hpc Hok Hh. unfold way_hit in Hh. bool_hyps. subst. destruct (Hok Hpc) as [He Hm].
  split; [done|]. by split.
Qed.

Lemma decode_inst_ok tb epoch c pc w : cache_ok tb c -> pc <> 0 ->
  let '(e, c') := decode_inst tb epoch c pc w in entry_ok tb w e /\ cache_ok tb c'.
Proof.
  intros Hc Hpc. unfold decode_inst. pose proof (Hc (cache_idx pc)) as [H0 H1].
  destruct (way_hit c epoch pc w (way0 _)) eqn:E0; [split; [by eapply way_hit_ok|done]|].
  destruct (way_hit c epoch pc w (way1 _)) eqn:E1; [split; [by eapply way_hit_ok|done]|].
  by apply decode_inst_slow_ok.
Qed.

(** C3: the decode cache is transparent: whatever it holds, fetching the word
    [w] at a [pc] other than 0 decodes [w], reports an illegal instruction
    ([pc] 0) exactly when no instruction matches, and keeps the cache valid. *)
Theorem decode_inst_transparent tb epoch c pc w : cache_ok tb c -> pc <> 0 ->
  let '(e, c') := decode_inst tb epoch c pc w in
  (ic_inst e, ic_data e) = pure_decode tb w /\ (ic_pc e = 0 <-> decode_match tb w = None) /\
  cache_ok tb c'.
Proof.
  intros Hc Hpc. pose proof (decode_inst_ok tb epoch c pc w Hc Hpc) as H.
  destruct (decode_inst tb epoch c pc w) as [e c']. by destruct H as [[? ?] ?].
Qed.
