(* ===== verification/Hart.v ===== *)
(** * The hart ([include/hart.hpp], [src/hart.cpp])

    Registers, control and status registers, traps and interrupt selection.
    [csrs] is sparse: an absent entry is 0. [FPR] holds the raw bits of the
    [double] registers. [MMU::tlb] is the field [tlb]; the pointers [mmap],
    [mmio] and [idec] of the C++ class are the other components of the record
    [State] of [State.v]. *)

From S2P Require Import Prelude Defs SelfMod Tlb.

Record Reservation := mkRes { paddr : Z; rsize : MemorySize; valid : bool }.

Record Hart := mkHart {
  hid : Z;
  GPR : list Z;
  FPR : list Z;
  pc : Z;
  mode : PrivilegeMode;
  status : Z;
  ie : Z;
  ip : Z;
  stimecmp : Z;
  fcsr : Z;
  satp : Z;
  cycle : Z;
  instret : Z;
  ctime : Z;
  WFI : bool;
  csrs : gmap Z Z;
  reservation : Reservation;
  memsize : Z;
  tlb : TLB }.

Definition set_GPR (x : list Z) (h : Hart) : Hart :=
  mkHart (hid h) x (FPR h) (pc h) (mode h) (status h) (ie h) (ip h) (stimecmp h) (fcsr
    h) (satp h) (cycle h) (instret h) (ctime h) (WFI h) (csrs h) (reservation h)
    (memsize h) (tlb h).
Definition set_FPR (x : list Z) (h : Hart) : Hart :=
  mkHart (hid h) (GPR h) x (pc h) (mode h) (status h) (ie h) (ip h) (stimecmp h) (fcsr
    h) (satp h) (cycle h) (instret h) (ctime h) (WFI h) (csrs h) (reservation h)
    (memsize h) (tlb h).
Definition set_pc (x : Z) (h : Hart) : Hart :=
  mkHart (hid h) (GPR h) (FPR h) x (mode h) (status h) (ie h) (ip h) (stimecmp h) (fcsr
    h) (satp h) (cycle h) (instret h) (ctime h) (WFI h) (csrs h) (reservation h)
    (memsize h) (tlb h).
Definition set_mode (x : PrivilegeMode) (h : Hart) : Hart :=
  mkHart (hid h) (GPR h) (FPR h) (pc h) x (status h) (ie h) (ip h) (stimecmp h) (fcsr h)
    (satp h) (cycle h) (instret h) (ctime h) (WFI h) (csrs h) (reservation h) (memsize
    h) (tlb h).
Definition set_status (x : Z) (h : Hart) : Hart :=
  mkHart (hid h) (GPR h) (FPR h) (pc h) (mode h) x (ie h) (ip h) (stimecmp h) (fcsr h)
    (satp h) (cycle h) (instret h) (ctime h) (WFI h) (csrs h) (reservation h) (memsize
    h) (tlb h).
Definition set_ie (x : Z) (h : Hart) : Hart :=
  mkHart (hid h) (GPR h) (FPR h) (pc h) (mode h) (status h) x (ip h) (stimecmp h) (fcsr
    h) (satp h) (cycle h) (instret h) (ctime h) (WFI h) (csrs h) (reservation h)
    (memsize h) (tlb h).
Definition set_ip (x : Z) (h : Hart) : Hart :=
  mkHart (hid h) (GPR h) (FPR h) (pc h) (mode h) (status h) (ie h) x (stimecmp h) (fcsr
    h) (satp h) (cycle h) (instret h) (ctime h) (WFI h) (csrs h) (reservation h)
    (memsize h) (tlb h).
Definition set_stimecmp (x : Z) (h : Hart) : Hart :=
  mkHart (hid h) (GPR h) (FPR h) (pc h) (mode h) (status h) (ie h) (ip h) x (fcsr h)
    (satp h) (cycle h) (instret h) (ctime h) (WFI h) (csrs h) (reservation h) (memsize
    h) (tlb h).
Definition set_fcsr (x : Z) (h : Hart) : Hart :=
  mkHart (hid h) (GPR h) (FPR h) (pc h) (mode h) (status h) (ie h) (ip h) (stimecmp h) x
    (satp h) (cycle h) (instret h) (ctime h) (WFI h) (csrs h) (reservation h) (memsize
    h) (tlb h).
Definition set_satp (x : Z) (h : Hart) : Hart :=
  mkHart (hid h) (GPR h) (FPR h) (pc h) (mode h) (status h) (ie h) (ip h) (stimecmp h)
    (fcsr h) x (cycle h) (instret h) (ctime h) (WFI h) (csrs h) (reservation h) (memsize
    h) (tlb h).
Definition set_cycle (x : Z) (h : Hart) : Hart :=
  mkHart (hid h) (GPR h) (FPR h) (pc h) (mode h) (status h) (ie h) (ip h) (stimecmp h)
    (fcsr h) (satp h) x (instret h) (ctime h) (WFI h) (csrs h) (reservation h) (memsize
    h) (tlb h).
Definition set_instret (x : Z) (h : Hart) : Hart :=
  mkHart (hid h) (GPR h) (FPR h) (pc h) (mode h) (status h) (ie h) (ip h) (stimecmp h)
    (fcsr h) (satp h) (cycle h) x (ctime h) (WFI h) (csrs h) (reservation h) (memsize h)
    (tlb h).
Definition set_ctime (x : Z) (h : Hart) : Hart :=
  mkHart (hid h) (GPR h) (FPR h) (pc h) (mode h) (status h) (ie h) (ip h) (stimecmp h)
    (fcsr h) (satp h) (cycle h) (instret h) x (WFI h) (csrs h) (reservation h) (memsize
    h) (tlb h).
Definition set_WFI (x : bool) (h : Hart) : Hart :=
  mkHart (hid h) (GPR h) (FPR h) (pc h) (mode h) (status h) (ie h) (ip h) (stimecmp h)
    (fcsr h) (satp h) (cycle h) (instret h) (ctime h) x (csrs h) (reservation h)
    (memsize h) (tlb h).
Definition set_csrs (x : gmap Z Z) (h : Hart) : Hart :=
  mkHart (hid h) (GPR h) (FPR h) (pc h) (mode h) (status h) (ie h) (ip h) (stimecmp h)
    (fcsr h) (satp h) (cycle h) (instret h) (ctime h) (WFI h) x (reservation h) (memsize
    h) (tlb h).
Definition set_reservation (x : Reservation) (h : Hart) : Hart :=
  mkHart (hid h) (GPR h) (FPR h) (pc h) (mode h) (status h) (ie h) (ip h) (stimecmp h)
    (fcsr h) (satp h) (cycle h) (instret h) (ctime h) (WFI h) (csrs h) x (memsize h)
    (tlb h).
Definition set_tlb (x : TLB) (h : Hart) : Hart :=
  mkHart (hid h) (GPR h) (FPR h) (pc h) (mode h) (status h) (ie h) (ip h) (stimecmp h)
    (fcsr h) (satp h) (cycle h) (instret h) (ctime h) (WFI h) (csrs h) (reservation h)
    (memsize h) x.

Definition invalidate_reservation (h : Hart) : Hart :=
  set_reservation (mkRes (paddr (reservation h)) (rsize (reservation h)) false) h.

Definition csr_get (h : Hart) (n : Z) : Z := default 0 (csrs h !! n).
Definition csr_put (n v : Z) (h : Hart) : Hart := set_csrs (<[n := v]> (csrs h)) h.

(** [GPR[i]] and [FPR[i]]: every index of the code is below 32. *)
Definition gpr (h : Hart) (i : Z) : Z := nth (Z.to_nat i) (GPR h) 0.
Definition put_gpr (i v : Z) (h : Hart) : Hart := set_GPR (<[Z.to_nat i := v]> (GPR h)) h.
Definition fpr (h : Hart) (i : Z) : Z := nth (Z.to_nat i) (FPR h) 0.
Definition put_fpr (i v : Z) (h : Hart) : Hart := set_FPR (<[Z.to_nat i := v]> (FPR h)) h.

(** An assignment to a member of [status.fields]. *)
Definition put_status (f : bitfield) (v : Z) (h : Hart) : Hart :=
  set_status (setf (status h) f v) h.

(** ** Accessors *)

Definition get_effective_mode (h : Hart) (access_type : AccessType) : PrivilegeMode :=
  if bool_decide (mode h = Machine) && flag (status h) Status.MPRV
     && match access_type with LOAD | STORE => true | EXEC => false end
  then mode_of (getf (status h) Status.MPP)
  else mode h.

Definition amo_check_reservation (pa : Z) (h : Hart) : Hart :=
  let r := reservation h in
  if valid r && (pa <=? paddr r) && (pa <=? u64 (paddr r + rsize r))
  then invalidate_reservation h else h.

(** ** Initialisation *)

(** RV64IMAFDCBSU. *)
Definition MISA_VALUE : Z :=
  foldl Z.lor 0 (map (Z.shiftl 1) [63; 8; 12; 0; 5; 3; 2; 1; 18; 20]).

Definition init (dtb_pos_at_memory entry_pc : Z) (h : Hart) : Hart :=
  let h := set_pc entry_pc h in
  let h := set_mode Machine h in
  let h := put_gpr 10 (hid h) h in
  let h := put_gpr 11 dtb_pos_at_memory h in
  let h := csr_put CSR_MISA MISA_VALUE h in
  let h := csr_put CSR_MHARTID (hid h) h in
  let h := put_status Status.SXL 2 h in
  put_status Status.UXL 2 h.

(** ** Traps *)

(** A shift by [cause >= 64] is undefined; it is evaluated only below
    machine mode. *)
Definition trap (cause tval : Z) (interrupt : bool) : ST Hart unit := fun h =>
  let h := set_WFI false (invalidate_reservation h) in
  let trap_pc := pc h in
  let prev_mode := mode h in
  let deleg := if interrupt then csr_get h CSR_MIDELEG else csr_get h CSR_MEDELEG in
  if negb (bool_decide (prev_mode = Machine)) && (64 <=? cause) then Undef else
  let delegate_to_s :=
    negb (bool_decide (prev_mode = Machine)) && negb (Z.land (Z.shiftr deleg cause) 1 =? 0) in
  let cause_reg := Z.lor (if interrupt then Z.shiftl 1 63 else 0) cause in
  let vector tvec := if (Z.land tvec 3 =? 1) && interrupt then u64 (4 * cause) else 0 in
  let h := put_status Status.MPRV 0 h in
  if delegate_to_s then
    let h := set_mode Supervisor h in
    let stvec := csr_get h CSR_STVEC in
    let h := set_pc (u64 (Z.land stvec (not64 3) + vector stvec)) h in
    let h := csr_put CSR_SEPC trap_pc h in
    let h := csr_put CSR_SCAUSE cause_reg h in
    let h := csr_put CSR_STVAL tval h in
    let h := put_status Status.SPIE (getf (status h) Status.SIE) h in
    let h := put_status Status.SIE 0 h in
    Ret (tt, put_status Status.SPP (b2z (negb (bool_decide (prev_mode = User)))) h)
  else
    let h := set_mode Machine h in
    let mtvec := csr_get h CSR_MTVEC in
    let h := set_pc (u64 (Z.land mtvec (not64 3) + vector mtvec)) h in
    let h := csr_put CSR_MEPC trap_pc h in
    let h := csr_put CSR_MCAUSE cause_reg h in
    let h := csr_put CSR_MTVAL tval h in
    let h := put_status Status.MPIE (getf (status h) Status.MIE) h in
    let h := put_status Status.MIE 0 h in
    Ret (tt, put_status Status.MPP (mode_val prev_mode) h).

(** ** Interrupts *)

Definition int_local_pending (h : Hart) : bool :=
  let pending_all := Z.land (ip h) (ie h) in
  if pending_all =? 0 then false else
  let mideleg := csr_get h CSR_MIDELEG in
  if negb (Z.land pending_all (not64 mideleg) =? 0) then true else
  if mode_val (mode h) <=? mode_val Supervisor
  then negb (Z.land (Z.land pending_all SE_MASK) mideleg =? 0)
  else false.

(** [63 - __builtin_clzll(x)] for [x <> 0]: the index of the highest set bit. *)
Definition highest_bit (x : Z) : Z := Z.log2 x.

Definition check_ints : ST Hart bool := fun h =>
  let pending_all := Z.land (ip h) (ie h) in
  if pending_all =? 0 then Ret (false, h) else
  let mideleg := csr_get h CSR_MIDELEG in
  let m_global := if bool_decide (mode h = Machine) then flag (status h) Status.MIE
                  else mode_val (mode h) <? mode_val Machine in
  let pending_m := Z.land pending_all (not64 mideleg) in
  if m_global && negb (pending_m =? 0) then
    (_ ← trap (highest_bit pending_m) 0 true; mret true) h
  else
  let s_global := if bool_decide (mode h = Supervisor) then flag (status h) Status.SIE
                  else mode_val (mode h) <? mode_val Supervisor in
  let pending_s := Z.land (Z.land (Z.land (ip h) SE_MASK) mideleg) (Z.land (ie h) SE_MASK) in
  if s_global && negb (pending_s =? 0) then
    (_ ← trap (highest_bit pending_s) 0 true; mret true) h
  else Ret (false, h).

(** ** Control and status registers *)

Definition SatpMode_Bare : Z := 0.
Definition SatpMode_Sv39 : Z := 8.
Definition SatpMode_Sv48 : Z := 9.
Definition SatpMode_Sv57 : Z := 10.

(** The [FS] check of the floating-point CSRs: a trap raised from inside the
    access, or [k]. *)
Definition with_fs {A} (csr : Z) (dflt : A) (k : ST Hart A) : ST Hart A := fun h =>
  if getf (status h) Status.FS =? 0
  then (_ ← trap EXC_ILLEGAL_INSTRUCTION csr false; mret dflt) h
  else k h.

Definition csr_write (csr val : Z) : ST Hart unit := fun h =>
  let ret h' := Ret (tt, h') in
  if csr =? CSR_MSTATUS then
    ret (set_status (Z.lor (Z.land (status h) MSTATUS_RO_MASK)
                           (Z.land val (not64 MSTATUS_RO_MASK))) h)
  else if csr =? CSR_SSTATUS then
    ret (set_status (Z.lor (Z.land (status h) (not64 SSTATUS_MASK)) (Z.land val SSTATUS_MASK)) h)
  else if csr =? CSR_SIE then
    ret (set_ie (u16 (Z.lor (Z.land (ie h) (not64 SE_MASK)) (Z.land val SE_MASK))) h)
  else if csr =? CSR_SIP then
    ret (set_ip (u16 (Z.lor (Z.land (ip h) (not64 SE_MASK)) (Z.land val SE_MASK))) h)
  else if csr =? CSR_MIE then ret (set_ie (u16 val) h)
  else if csr =? CSR_MIP then ret (set_ip (u16 val) h)
  else if csr =? CSR_STIMECMP then ret (set_stimecmp val h)
  else if csr =? CSR_SATP then
    let old_val := satp h in
    let h1 := set_satp val h in
    if (getf (satp h1) Satp.mode =? SatpMode_Sv48) || (getf (satp h1) Satp.mode =? SatpMode_Sv57)
    then ret (set_satp old_val h1)
    else if negb (satp h1 =? val)
    then ret (set_tlb (flush_all (tlb h1)) (set_satp val h1))
    else ret h1
  else if csr =? CSR_FCSR then
    with_fs csr tt (modify (fun h => set_fcsr val (put_status Status.FS 3 h))) h
  else if csr =? CSR_FFLAGS then
    with_fs csr tt (modify (fun h => set_fcsr (setf (fcsr h) Fcsr.fflags val) h)) h
  else if csr =? CSR_FRM then
    with_fs csr tt (modify (fun h => set_fcsr (setf (fcsr h) Fcsr.frm val) h)) h
  else if (csr =? CSR_MVENDORID) || (csr =? CSR_MARCHID) || (csr =? CSR_MIMPID) then ret h
  else if csr <? 4096 then ret (csr_put csr val h)
  else Undef.

Definition csr_read (csr : Z) : ST Hart Z := fun h =>
  let ret v := Ret (v, h) in
  if csr =? CSR_MSTATUS then ret (status h)
  else if csr =? CSR_SSTATUS then ret (Z.land (status h) SSTATUS_MASK)
  else if csr =? CSR_SIE then ret (Z.land (ie h) SE_MASK)
  else if csr =? CSR_SIP then ret (Z.land (ip h) SE_MASK)
  else if csr =? CSR_MIP then ret (ip h)
  else if csr =? CSR_MIE then ret (ie h)
  else if (csr =? CSR_CYCLE) || (csr =? CSR_MCYCLE) then ret (cycle h)
  else if csr =? CSR_TIME then ret (ctime h)
  else if (csr =? CSR_INSTRET) || (csr =? CSR_MINSTRET) then ret (instret h)
  else if (CSR_HPMCOUNTER3 <=? csr) && (csr <=? CSR_HPMCOUNTER31) then
    ret (csr_get h (csr - 0x100))
  else if csr =? CSR_STIMECMP then ret (stimecmp h)
  else if csr =? CSR_SATP then ret (satp h)
  else if csr =? CSR_FCSR then with_fs csr 0 (gets fcsr) h
  else if csr =? CSR_FFLAGS then with_fs csr 0 (gets (fun h => getf (fcsr h) Fcsr.fflags)) h
  else if csr =? CSR_FRM then with_fs csr 0 (gets (fun h => getf (fcsr h) Fcsr.frm)) h
  else if csr <? 4096 then ret (csr_get h csr)
  else Undef.

(** ** Well-formed harts: every register holds a value of its C++ type *)

Record hart_wf (h : Hart) : Prop := {
  wf_gpr_len : length (GPR h) = 32%nat;
  wf_gpr : Forall (inw 64) (GPR h);
  wf_fpr_len : length (FPR h) = 32%nat;
  wf_fpr : Forall (inw 64) (FPR h);
  wf_hid : inw 8 (hid h);
  wf_pc : inw 64 (pc h);
  wf_status : inw 64 (status h);
  wf_ie : inw 16 (ie h);
  wf_ip : inw 16 (ip h);
  wf_stimecmp : inw 64 (stimecmp h);
  wf_fcsr : inw 64 (fcsr h);
  wf_satp : inw 64 (satp h);
  wf_cycle : inw 64 (cycle h);
  wf_instret : inw 64 (instret h);
  wf_ctime : inw 64 (ctime h);
  wf_csrs : forall n v, csrs h !! n = Some v -> inw 64 v;
  wf_memsize : inw 64 (memsize h);
  wf_tlb : tlb_ok (tlb h) }.

#[export] Hint Resolve wf_pc wf_status wf_ie wf_ip wf_stimecmp wf_fcsr wf_satp wf_cycle
  wf_instret wf_ctime wf_tlb : rvw.

(** [ie] and [ip] are 16-bit unions, read as 64-bit words. *)
Lemma irq_inw h : hart_wf h -> inw 64 (ie h) /\ inw 64 (ip h).
Proof. intros Hh. split; (eapply inw_mono; [|apply Hh]; lia). Qed.

Lemma ie_inw h : hart_wf h -> inw 64 (ie h).
Proof. apply irq_inw. Qed.

Lemma ip_inw h : hart_wf h -> inw 64 (ip h).
Proof. apply irq_inw. Qed.

#[export] Hint Resolve ie_inw ip_inw : rvw.

Lemma csr_get_wf h n : hart_wf h -> inw 64 (csr_get h n).
Proof.
  intros H. unfold csr_get. destruct (csrs h !! n) eqn:E; simpl; [by eapply wf_csrs|].
  by apply inw_0.
Qed.

Lemma gpr_wf h i : hart_wf h -> inw 64 (gpr h i).
Proof.
  intros H. unfold gpr. destruct (nth_in_or_default (Z.to_nat i) (GPR h) 0) as [Hi|Hd].
  - apply list_elem_of_In in Hi. eapply Forall_forall in Hi; [done|apply H].
  - rewrite Hd. by apply inw_0.
Qed.

Lemma fpr_wf h i : hart_wf h -> inw 64 (fpr h i).
Proof.
  intros H. unfold fpr. destruct (nth_in_or_default (Z.to_nat i) (FPR h) 0) as [Hi|Hd].
  - apply list_elem_of_In in Hi. eapply Forall_forall in Hi; [done|apply H].
  - rewrite Hd. by apply inw_0.
Qed.

Section setters_wf.
Context (h : Hart) (Hwf : hart_wf h).

Lemma set_pc_wf x : inw 64 x -> hart_wf (set_pc x h).
Proof. intros. destruct Hwf. by constructor. Qed.
Lemma set_mode_wf x : hart_wf (set_mode x h).
Proof. destruct Hwf. by constructor. Qed.
Lemma set_status_wf x : inw 64 x -> hart_wf (set_status x h).
Proof. intros. destruct Hwf. by constructor. Qed.
Lemma set_ie_wf x : inw 16 x -> hart_wf (set_ie x h).
Proof. intros. destruct Hwf. by constructor. Qed.
Lemma set_ip_wf x : inw 16 x -> hart_wf (set_ip x h).
Proof. intros. destruct Hwf. by constructor. Qed.
Lemma set_stimecmp_wf x : inw 64 x -> hart_wf (set_stimecmp x h).
Proof. intros. destruct Hwf. by constructor. Qed.
Lemma set_fcsr_wf x : inw 64 x -> hart_wf (set_fcsr x h).
Proof. intros. destruct Hwf. by constructor. Qed.
Lemma set_satp_wf x : inw 64 x -> hart_wf (set_satp x h).
Proof. intros. destruct Hwf. by constructor. Qed.
Lemma set_cycle_wf x : inw 64 x -> hart_wf (set_cycle x h).
Proof. intros. destruct Hwf. by constructor. Qed.
Lemma set_instret_wf x : inw 64 x -> hart_wf (set_instret x h).
Proof. intros. destruct Hwf. by constructor. Qed.
Lemma set_ctime_wf x : inw 64 x -> hart_wf (set_ctime x h).
Proof. intros. destruct Hwf. by constructor. Qed.
Lemma set_WFI_wf x : hart_wf (set_WFI x h).
Proof. destruct Hwf. by constructor. Qed.
Lemma set_reservation_wf x : hart_wf (set_reservation x h).
Proof. destruct Hwf. by constructor. Qed.
Lemma set_tlb_wf x : tlb_ok x -> hart_wf (set_tlb x h).
Proof. intros. destruct Hwf. by constructor. Qed.
Lemma csr_put_wf n x : inw 64 x -> hart_wf (csr_put n x h).
Proof.
  intros. destruct Hwf. constructor; try done. intros m v. simpl.
  rewrite lookup_insert. case_decide; [|by eauto]. by intros [= <-].
Qed.
Lemma put_gpr_wf i x : inw 64 x -> hart_wf (put_gpr i x h).
Proof.
  intros. destruct Hwf. constructor; try done; simpl.
  - by rewrite length_insert.
  - by apply Forall_insert.
Qed.
Lemma put_fpr_wf i x : inw 64 x -> hart_wf (put_fpr i x h).
Proof.
  intros. destruct Hwf. constructor; try done; simpl.
  - by rewrite length_insert.
  - by apply Forall_insert.
Qed.
Lemma put_status_wf f x : bf_ok 64 f = true -> hart_wf (put_status f x h).
Proof. intros. apply set_status_wf. apply setf_inw; [done|apply Hwf]. Qed.
Lemma amo_check_reservation_wf pa : hart_wf (amo_check_reservation pa h).
Proof. unfold amo_check_reservation. case_match; [apply set_reservation_wf|done]. Qed.
Lemma invalidate_reservation_wf : hart_wf (invalidate_reservation h).
Proof. apply set_reservation_wf. Qed.
End setters_wf.

#[export] Hint Resolve csr_get_wf gpr_wf fpr_wf set_pc_wf set_mode_wf set_status_wf set_ie_wf
  set_ip_wf set_stimecmp_wf set_fcsr_wf set_satp_wf set_cycle_wf set_instret_wf set_ctime_wf
  set_WFI_wf set_reservation_wf set_tlb_wf csr_put_wf put_gpr_wf put_fpr_wf
  amo_check_reservation_wf invalidate_reservation_wf : rvw.
#[export] Hint Extern 1 (hart_wf (put_status _ _ _)) =>
  apply put_status_wf; [|reflexivity] : rvw.

Lemma not64_inw x : inw 64 (not64 x).
Proof. by apply uN_inw. Qed.
Lemma not64_nonneg x : 0 <= not64 x.
Proof. apply not64_inw. Qed.

Lemma masks_nonneg : 0 <= MSTATUS_RO_MASK /\ 0 <= SSTATUS_MASK /\ 0 <= SE_MASK.
Proof. by split_and!. Qed.

#[export] Hint Resolve not64_inw not64_nonneg mode_val_inw : rvw.

Lemma cause_inw (b : bool) c : inw 64 c -> inw 64 (Z.lor (if b then Z.shiftl 1 63 else 0) c).
Proof. intros. apply inw_lor; [lia| |done]. destruct b; split; vm_compute; congruence. Qed.

Lemma trap_wf cause tval i : inw 64 cause -> inw 64 tval ->
  hoare hart_wf (trap cause tval i) (fun _ => hart_wf).
Proof.
  intros Hc Ht h Hh. unfold trap. cbv zeta.
  destruct (negb _ && (64 <=? cause))%bool; [done|].
  pose proof (cause_inw i cause Hc).
  assert (inw 64 (pc h)) by eauto with rvw.
  destruct (negb _ && negb (_ =? 0))%bool; auto 20 with rvw.
Qed.

Lemma masked_inw a b m : inw 64 a -> inw 64 b -> 0 <= m ->
  inw 64 (Z.lor (Z.land a (not64 m)) (Z.land b m)).
Proof.
  intros. apply inw_lor; [lia|apply inw_land; [lia|done|]|by apply inw_land]. apply not64_inw.
Qed.

Lemma with_fs_wf {A} csr (d : A) k Q : inw 64 csr -> (forall h, hart_wf h -> Q d h) ->
  hoare hart_wf k Q -> hoare hart_wf (with_fs csr d k) Q.
Proof.
  intros Hc Hd Hk h Hh. unfold with_fs. split_ifs; [|by apply Hk].
  apply (hoare_bind hart_wf _ _ (fun _ => hart_wf)); [by apply trap_wf| |done].
  intros []. by apply hoare_ret.
Qed.

Lemma csr_write_wf csr val : inw 16 csr -> inw 64 val ->
  hoare hart_wf (csr_write csr val) (fun _ => hart_wf).
Proof.
  intros Hc Hv h Hh. unfold csr_write. assert (inw 64 csr) by (eapply inw_mono; [|done]; lia).
  cbv zeta. split_ifs; try done;
    try (apply with_fs_wf; [done|done| |done]; apply hoare_modify; intros);
    pose proof masks_nonneg as (? & ? & ?); auto 7 using masked_inw, setf_inw with rvw.
Qed.

Lemma csr_read_wf csr : inw 16 csr ->
  hoare hart_wf (csr_read csr) (fun v h => hart_wf h /\ inw 64 v).
Proof.
  intros Hc h Hh. unfold csr_read. assert (inw 64 csr) by (eapply inw_mono; [|done]; lia).
  cbv zeta. split_ifs; try done;
    try (apply with_fs_wf; [done|intros; split; [done|by apply inw_0]| |done];
         apply hoare_gets; intros);
    split; auto with rvw; try (eapply inw_mono; [|apply getf_inw]; simpl; lia);
    apply inw_land; auto with rvw; vm_compute; congruence.
Qed.

(** ** Traps and interrupts: specification *)

(** The level a trap is taken to. *)
Definition trap_target (h : Hart) (cause : Z) (interrupt : bool) : PrivilegeMode :=
  if bool_decide (mode h <> Machine) &&
     Z.testbit (csr_get h (if interrupt then CSR_MIDELEG else CSR_MEDELEG)) cause
  then Supervisor else Machine.

(** The CSRs and status fields of a trap level. *)
Record TrapRegs := mkTrapRegs {
  t_epc : Z; t_cause : Z; t_tval : Z; t_tvec : Z;
  t_ie : bitfield; t_pie : bitfield; t_pp : bitfield }.

Definition trap_regs (m : PrivilegeMode) : TrapRegs :=
  match m with
  | Machine => mkTrapRegs CSR_MEPC CSR_MCAUSE CSR_MTVAL CSR_MTVEC Status.MIE Status.MPIE Status.MPP
  | _ => mkTrapRegs CSR_SEPC CSR_SCAUSE CSR_STVAL CSR_STVEC Status.SIE Status.SPIE Status.SPP
  end.

(** An interrupt that the hart takes at the next [check_ints]: pending, enabled
    and either not delegated and taken in machine mode, or delegated, one of
    the supervisor interrupts, and taken in supervisor mode. *)
Definition m_enabled (h : Hart) : bool :=
  bool_decide (mode h <> Machine) || flag (status h) Status.MIE.
Definition s_enabled (h : Hart) : bool :=
  bool_decide (mode h = User) || (bool_decide (mode h = Supervisor) && flag (status h) Status.SIE).
Definition m_int (h : Hart) (i : Z) : bool :=
  Z.testbit (ip h) i && Z.testbit (ie h) i && negb (Z.testbit (csr_get h CSR_MIDELEG) i).
Definition s_int (h : Hart) (i : Z) : bool :=
  Z.testbit (ip h) i && Z.testbit (ie h) i && Z.testbit (csr_get h CSR_MIDELEG) i
  && Z.testbit SE_MASK i.
Definition takes_int (h : Hart) (i : Z) : bool :=
  (m_enabled h && m_int h i) || (s_enabled h && s_int h i).

Lemma shiftr_bit_eqb x i : 0 <= i -> negb (Z.land (Z.shiftr x i) 1 =? 0) = Z.testbit x i.
Proof.
  intros Hi. rewrite (Z.land_ones _ 1), <- Z.bit0_mod, Z.shiftr_spec, Z.add_0_l by lia.
  by destruct (Z.testbit x i).
Qed.

Lemma csr_get_put h n v m : csr_get (csr_put n v h) m = if decide (n = m) then v else csr_get h m.
Proof. unfold csr_get, csr_put. simpl. rewrite lookup_insert. by case_decide. Qed.

Lemma getf_uN raw f : 0 <= bf_len f -> uN (bf_len f) (getf raw f) = getf raw f.
Proof. intros. apply uN_id. by apply getf_inw. Qed.

Lemma aligned4 x : Z.land (Z.land x (not64 3)) 3 = 0.
Proof.
  change 3 with (Z.ones 2) at 2. unfold not64. zbits i. zcases; rewrite ?andb_false_r; try done.
  destruct (Z.testbit x i); [|done]. simpl. assert (i = 0 \/ i = 1) as [-> | ->] by lia; done.
Qed.

Lemma trap_pc_aligned x y : Z.land x 3 = 0 -> Z.land (u64 (x + u64 (4 * y))) 3 = 0.
Proof.
  change 3 with (Z.ones 2). rewrite !Z.land_ones by lia. change (2 ^ 2) with 4. intros Hx.
  unfold uN.
  assert (forall a, (a mod 2 ^ 64) mod 4 = a mod 4) as Hm.
  { intros a. change (2 ^ 64) with (4 * 2 ^ 62).
    rewrite Z.rem_mul_r by lia. rewrite (Z.mul_comm 4), Z_mod_plus_full. apply Zmod_mod. }
  rewrite Hm, Z.add_mod, Hm, Hx by lia. rewrite (Z.mul_comm 4), Z_mod_mult. done.
Qed.

Lemma base4 x : inw 64 x -> Z.land x (not64 3) = x - x mod 4.
Proof.
  intros Hx. assert (Z.land x (not64 3) = Z.ldiff x (Z.ones 2)) as ->.
  { unfold not64. change 3 with (Z.ones 2). zbits i. tb. zcases; rewrite ?andb_false_r; try done.
    by rewrite (inw_high 64 x). }
  rewrite Z.ldiff_ones_r, Z.shiftl_mul_pow2, Z.shiftr_div_pow2 by lia.
  change (2 ^ 2) with 4. pose proof (Z.div_mod x 4). lia.
Qed.

Lemma trap_target_level h cause interrupt :
  trap_target h cause interrupt = Supervisor /\ mode h <> Machine \/
  trap_target h cause interrupt = Machine.
Proof.
  unfold trap_target. destruct (decide (mode h = Machine)) as [E|E].
  - right. by rewrite bool_decide_eq_false_2 by (by intros []).
  - destruct (_ && _)%bool; [by left|by right].
Qed.

(** The body of [trap] once its level [m] is known. *)
Definition enter (m : PrivilegeMode) (cause tval : Z) (interrupt : bool) (h : Hart) : Hart :=
  let r := trap_regs m in
  let tvec := csr_get h (t_tvec r) in
  let vector := if (Z.land tvec 3 =? 1) && interrupt then u64 (4 * cause) else 0 in
  let h1 := set_mode m (put_status Status.MPRV 0 (set_WFI false (invalidate_reservation h))) in
  let h2 := csr_put (t_tval r) tval
              (csr_put (t_cause r) (Z.lor (if interrupt then Z.shiftl 1 63 else 0) cause)
                (csr_put (t_epc r) (pc h)
                  (set_pc (u64 (Z.land tvec (not64 3) + vector)) h1))) in
  let h3 := put_status (t_ie r) 0 (put_status (t_pie r) (getf (status h2) (t_ie r)) h2) in
  put_status (t_pp r)
    (match m with Machine => mode_val (mode h) | _ => b2z (negb (bool_decide (mode h = User))) end) h3.

Lemma trap_enter h cause tval interrupt : 0 <= cause < 64 ->
  trap cause tval interrupt h = Ret (tt, enter (trap_target h cause interrupt) cause tval interrupt h).
Proof.
  intros Hc. unfold trap, trap_target. cbv zeta.
  assert (bool_decide (mode h <> Machine) = negb (bool_decide (mode h = Machine))) as ->.
  { repeat case_bool_decide; done. }
  assert ((64 <=? cause) = false) as -> by lia. rewrite andb_false_r, shiftr_bit_eqb by lia.
  cbn [mode set_WFI invalidate_reservation set_reservation].
  assert (csr_get h (if interrupt then CSR_MIDELEG else CSR_MEDELEG) =
          if interrupt then csr_get h CSR_MIDELEG else csr_get h CSR_MEDELEG) as ->
    by by destruct interrupt.
  by destruct (negb _ && Z.testbit _ cause)%bool.
Qed.

Section enter.
Context (m : PrivilegeMode) (cause tval : Z) (interrupt : bool) (h : Hart).
Let h' := enter m cause tval interrupt h.
Let r := trap_regs m.

Lemma enter_csrs :
  csr_get h' (t_epc r) = pc h /\
  csr_get h' (t_cause r) = Z.lor (Z.shiftl (b2z interrupt) 63) cause /\
  csr_get h' (t_tval r) = tval /\
  (forall n, n <> t_epc r -> n <> t_cause r -> n <> t_tval r -> csr_get h' n = csr_get h n).
Proof.
  unfold h', enter. fold r. split_and!; [..|intros n ? ? ?]; unfold csr_get; cbn;
    rewrite ?(lookup_insert_ne _ _ n), ?lookup_insert_eq by done; try done.
  - by rewrite !lookup_insert_ne, lookup_insert_eq by (by destruct m).
  - rewrite lookup_insert_ne, lookup_insert_eq by (by destruct m). by destruct interrupt.
Qed.

Lemma enter_status :
  getf (status h') (t_pp r) =
    match m with Machine => mode_val (mode h) | _ => b2z (negb (bool_decide (mode h = User))) end /\
  flag (status h') (t_pie r) = flag (status h) (t_ie r) /\
  flag (status h') (t_ie r) = false /\ flag (status h') Status.MPRV = false.
Proof.
  unfold h', enter. fold r. cbn [status put_status set_status]. split_and!.
  - rewrite getf_setf_same by (by destruct m). apply uN_id.
    destruct m; try apply mode_val_inw; case_bool_decide; split; done.
  - rewrite !flag_setf_other, flag_setf_same by (by destruct m).
    change (status (csr_put _ _ _)) with (setf (status h) Status.MPRV 0).
    assert (bf_len (t_pie r) = bf_len (t_ie r)) as -> by (by destruct m).
    by rewrite getf_setf_other, getf_uN by (by destruct m).
  - by rewrite flag_setf_other, flag_setf_same by (by destruct m).
  - rewrite !flag_setf_other by (by destruct m). change (status (csr_put _ _ _)) with (setf (status h) Status.MPRV 0).
    by rewrite flag_setf_same.
Qed.

Lemma enter_status_kept f :
  forallb (fun g => bf_disjoint g f) [t_ie r; t_pie r; t_pp r; Status.MPRV] = true ->
  getf (status h') f = getf (status h) f.
Proof.
  cbn [forallb]. intros H. bool_hyps. unfold h', enter. fold r. cbn [status put_status set_status].
  rewrite !getf_setf_other by done.
  change (status (csr_put _ _ _)) with (setf (status h) Status.MPRV 0).
  by apply getf_setf_other.
Qed.

Lemma enter_pc : inw 64 (csr_get h (t_tvec r)) -> 0 <= cause < 64 ->
  Z.land (pc h') 3 = 0 /\
  pc h' = u64 (csr_get h (t_tvec r) - csr_get h (t_tvec r) mod 4 +
               if (csr_get h (t_tvec r) mod 4 =? 1) && interrupt then 4 * cause else 0).
Proof.
  intros Hw Hc. change (pc h') with (u64 (Z.land (csr_get h (t_tvec r)) (not64 3) +
    if (Z.land (csr_get h (t_tvec r)) 3 =? 1) && interrupt then u64 (4 * cause) else 0)).
  split.
  - pose proof (aligned4 (csr_get h (t_tvec r))) as Ha. destruct (_ && _)%bool.
    + by apply trap_pc_aligned.
    + apply (trap_pc_aligned _ 0 Ha).
  - rewrite base4 by done. change 3 with (Z.ones 2). rewrite Z.land_ones by lia.
    change (2 ^ 2) with 4. by rewrite (uN_id 64 (4 * cause)) by (split; lia).
Qed.
End enter.

(** ** Interrupt selection *)

Lemma highest_bit_spec x : 0 < x ->
  0 <= highest_bit x /\ Z.testbit x (highest_bit x) = true /\
  forall i, highest_bit x < i -> Z.testbit x i = false.
Proof.
  intros Hx. unfold highest_bit. split_and!; [apply Z.log2_nonneg|by apply Z.bit_log2|].
  intros i Hi. apply Z.bits_above_log2; lia.
Qed.

Lemma land_zero_bits x y i : Z.land x y = 0 -> Z.testbit x i && Z.testbit y i = false.
Proof. intros H. by rewrite <- Z.land_spec, H, Z.bits_0. Qed.

Lemma highest_pending x i : 0 <= x -> inw 64 x -> Z.testbit x i = true -> 0 <= i ->
  highest_bit x < 64 /\ i <= highest_bit x.
Proof.
  intros H0 Hx Hi Hi0. assert (0 < x).
  { destruct (Z.eq_dec x 0) as [->|]; [|lia]. by rewrite Z.bits_0 in Hi. }
  destruct (highest_bit_spec x) as (? & Ht & Hhi); [done|]. split.
  - destruct (Z.lt_ge_cases (highest_bit x) 64); [done|].
    by rewrite (inw_high 64) in Ht by done.
  - destruct (Z.le_gt_cases i (highest_bit x)); [done|]. by rewrite Hhi in Hi by lia.
Qed.
Section ints.
Context (h : Hart) (Hwf : hart_wf h).

Let pending_m := Z.land (Z.land (ip h) (ie h)) (not64 (csr_get h CSR_MIDELEG)).
Let pending_s :=
  Z.land (Z.land (Z.land (ip h) SE_MASK) (csr_get h CSR_MIDELEG)) (Z.land (ie h) SE_MASK).

Lemma pending_m_bits i : Z.testbit pending_m i = m_int h i.
Proof.
  unfold pending_m, m_int, not64. destruct (Z.neg_nonneg_cases i).
  { by rewrite !Z.testbit_neg_r by lia. }
  tb. zcases; [done|]. by rewrite (inw_high 64 (ip h)) by eauto with rvw.
Qed.

Lemma pending_s_bits i : Z.testbit pending_s i = s_int h i.
Proof.
  unfold pending_s, s_int. tb.
  by destruct (Z.testbit (ip h) i), (Z.testbit (ie h) i), (Z.testbit SE_MASK i),
    (Z.testbit (csr_get h CSR_MIDELEG) i).
Qed.

Lemma pending_m_nonneg : 0 <= pending_m.
Proof. apply Z.land_nonneg. right. apply not64_inw. Qed.

Lemma pending_s_nonneg : 0 <= pending_s.
Proof. apply Z.land_nonneg. right. apply Z.land_nonneg. right. by vm_compute. Qed.

Lemma s_int_m i : s_int h i = true -> m_int h i = false.
Proof. unfold s_int, m_int. intros. bool_hyps. destruct (Z.testbit (csr_get _ _) i); [|done]. by rewrite andb_false_r. Qed.

Lemma check_ints_eq : mode h <> Hypervisor ->
  check_ints h =
    if m_enabled h && negb (pending_m =? 0) then (_ ← trap (highest_bit pending_m) 0 true; mret true) h
    else if s_enabled h && negb (pending_s =? 0) then (_ ← trap (highest_bit pending_s) 0 true; mret true) h
    else Ret (false, h).
Proof.
  intros HH. unfold check_ints. cbv zeta. fold pending_m pending_s.
  assert (m_enabled h = (if bool_decide (mode h = Machine) then flag (status h) Status.MIE
                         else mode_val (mode h) <? mode_val Machine)) as <-.
  { unfold m_enabled. by destruct (mode h). }
  assert (s_enabled h = (if bool_decide (mode h = Supervisor) then flag (status h) Status.SIE
                         else mode_val (mode h) <? mode_val Supervisor)) as <-.
  { unfold s_enabled. by destruct (mode h). }
  destruct (Z.eqb_spec (Z.land (ip h) (ie h)) 0) as [E|]; [|done].
  assert (pending_m = 0) as -> by (unfold pending_m; by rewrite E, Z.land_0_l).
  assert (pending_s = 0) as ->.
  { apply Z.bits_inj'. intros i Hi. rewrite pending_s_bits, Z.bits_0. unfold s_int.
    by rewrite (land_zero_bits _ _ i E). }
  by rewrite !andb_false_r.
Qed.

(** What [check_ints] takes from a pending word whose bits are [f]. *)
Lemma pick_highest x (f : Z -> bool) : 0 <= x -> inw 64 x -> (forall i, Z.testbit x i = f i) -> (x =? 0) = false ->
  0 <= highest_bit x < 64 /\ f (highest_bit x) = true /\ forall j, 0 <= j -> f j = true -> j <= highest_bit x.
Proof.
  intros H0 Hx Hf Hz. apply Z.eqb_neq in Hz. destruct (highest_bit_spec x) as (Hb & Ht & _); [lia|].
  destruct (highest_pending x (highest_bit x) H0 Hx Ht Hb) as [Hlt _]. rewrite Hf in Ht. split_and!; [done..|].
  intros j Hj Hfj. apply (highest_pending x); [done..| |done]. by rewrite Hf.
Qed.

Lemma pick_m : (pending_m =? 0) = false ->
  0 <= highest_bit pending_m < 64 /\ m_int h (highest_bit pending_m) = true /\
  forall j, 0 <= j -> m_int h j = true -> j <= highest_bit pending_m.
Proof.
  apply pick_highest; [apply pending_m_nonneg| |apply pending_m_bits].
  apply inw_land; auto with rvw; apply inw_land; auto with rvw; apply Hwf.
Qed.

Lemma pick_s : (pending_s =? 0) = false ->
  0 <= highest_bit pending_s < 64 /\ s_int h (highest_bit pending_s) = true /\
  forall j, 0 <= j -> s_int h j = true -> j <= highest_bit pending_s.
Proof.
  apply pick_highest; [apply pending_s_nonneg| |apply pending_s_bits].
  unfold pending_s. rewrite <- (Z.land_comm (Z.land (ie h) SE_MASK)). apply inw_land; [lia| |];
    [apply inw_land; auto with rvw; by vm_compute|].
  apply Z.land_nonneg. left. apply Z.land_nonneg. right. by vm_compute.
Qed.

Lemma no_pending_m j : (pending_m =? 0) = true -> m_int h j = false.
Proof. intros E%Z.eqb_eq. by rewrite <- pending_m_bits, E, Z.bits_0. Qed.

Lemma no_pending_s j : (pending_s =? 0) = true -> s_int h j = false.
Proof. intros E%Z.eqb_eq. by rewrite <- pending_s_bits, E, Z.bits_0. Qed.

End ints.

(** C5: interrupt selection. [check_ints] traps exactly when some interrupt is
    pending, enabled and unmasked at the current level; it then takes the
    highest-numbered one, those not delegated before those delegated, and it
    is taken to the level its delegation bit names. *)
Theorem check_ints_spec h : hart_wf h -> mode h <> Hypervisor ->
  ((forall i, 0 <= i -> takes_int h i = false) -> check_ints h = Ret (false, h)) /\
  (forall k, 0 <= k -> takes_int h k = true ->
    exists i h', check_ints h = Ret (true, h') /\ trap i 0 true h = Ret (tt, h') /\
      0 <= i < 64 /\ takes_int h i = true /\
      (forall j, 0 <= j -> m_enabled h && m_int h j = true -> m_int h i = true /\ j <= i) /\
      (m_int h i = false -> forall j, 0 <= j -> s_int h j = true -> j <= i)).
Proof.
  intros Hwf HH. rewrite check_ints_eq by done. unfold takes_int.
  set (pm := Z.land (Z.land (ip h) (ie h)) _). set (ps := Z.land (Z.land _ _) (Z.land (ie h) _)).
  pose proof (pick_m h Hwf) as Pm. pose proof (pick_s h Hwf) as Ps. fold pm in Pm. fold ps in Ps.
  destruct (_ && negb _)%bool eqn:Em; [|destruct (s_enabled h && negb _)%bool eqn:Es].
  - apply andb_true_iff in Em as [He Hz%negb_true_iff]. rewrite He.
    destruct (Pm Hz) as (Hb & Ht & Hhi). split.
    { intros Hno. specialize (Hno _ (proj1 Hb)). by rewrite Ht in Hno. }
    intros k Hk _. exists (highest_bit pm). eexists. cbv [mbind ST_bind]. rewrite trap_enter by apply Hb.
    split_and!; [done|done|apply Hb|apply Hb|by rewrite Ht|by eauto|by rewrite Ht].
  - apply andb_true_iff in Es as [He Hz%negb_true_iff]. rewrite He.
    assert (forall j, m_enabled h && m_int h j = false) as Hnom.
    { intros j. destruct (m_enabled h); [|done]. by apply no_pending_m, negb_false_iff. }
    destruct (Ps Hz) as (Hb & Ht & Hhi). split.
    { intros Hno. specialize (Hno _ (proj1 Hb)). by rewrite Ht, orb_true_r in Hno. }
    intros k Hk _. exists (highest_bit ps). eexists. cbv [mbind ST_bind]. rewrite trap_enter by apply Hb.
    split_and!; [done|done|apply Hb|apply Hb|by rewrite Ht, orb_true_r| |done].
    intros j Hj. by rewrite Hnom.
  - split; [done|]. intros k Hk. apply andb_false_iff in Em. apply andb_false_iff in Es.
    destruct Em as [->|Em%negb_false_iff]; [|rewrite (no_pending_m h Hwf k Em), andb_false_r];
      (destruct Es as [->|Es%negb_false_iff]; [|rewrite (no_pending_s h k Es), andb_false_r]); done.
Qed.

(** With its interrupts disabled the hart takes none of its own level, and in
    supervisor mode only those that are not delegated. *)
Lemma check_ints_masked h : hart_wf h ->
  mode h = Machine /\ flag (status h) Status.MIE = false \/
  mode h = Supervisor /\ flag (status h) Status.SIE = false /\ (forall i, m_int h i = false) ->
  check_ints h = Ret (false, h).
Proof.
  intros Hwf H. rewrite check_ints_eq by (by destruct H as [[-> ?]|[-> ?]]).
  unfold m_enabled, s_enabled.
  destruct H as [[-> ->]|(-> & -> & Hm)]; cbn; [done|].
  assert (Z.land (Z.land (ip h) (ie h)) (not64 (csr_get h CSR_MIDELEG)) = 0) as ->; [|done].
  apply Z.bits_inj'. intros i _. by rewrite (pending_m_bits h Hwf i), Hm, Z.bits_0.
Qed.

Lemma takes_int_pending h i : hart_wf h -> 0 <= i -> takes_int h i = true ->
  int_local_pending h = true.
Proof.
  intros Hwf Hi Ht. unfold int_local_pending. cbv zeta.
  destruct (Z.eqb_spec (Z.land (ip h) (ie h)) 0) as [E|_].
  { apply (land_zero_bits _ _ i) in E. unfold takes_int, m_int, s_int in Ht.
    by rewrite E, !andb_false_r in Ht. }
  pose proof (pending_m_bits h Hwf i) as Bm. unfold takes_int in Ht.
  destruct (Z.eqb_spec (Z.land (Z.land (ip h) (ie h)) (not64 (csr_get h CSR_MIDELEG))) 0) as [E|]; [|done].
  rewrite E, Z.bits_0 in Bm. rewrite <- Bm, andb_false_r in Ht. simpl in Ht.
  apply andb_true_iff in Ht as [He Hs].
  assert ((mode_val (mode h) <=? mode_val Supervisor) = true) as ->.
  { unfold s_enabled in He. by destruct (mode h). }
  unfold s_int in Hs. bool_hyps. cbn [negb]. apply negb_true_iff, Z.eqb_neq. intros E'.
  apply (f_equal (fun z => Z.testbit z i)) in E'. repeat rewrite Z.land_spec in E'.
  rewrite Z.bits_0 in E'.
  by repeat match goal with H : Z.testbit _ _ = true |- _ => rewrite H in E'; clear H end.
Qed.

(** C4: trap entry. A trap with a cause below 64 is taken to the level the
    delegation registers name, never below the current level; the interrupted
    pc, the cause (with the interrupt bit) and the trap value go to that
    level's CSRs, the previous mode and interrupt enable to its status fields,
    its interrupts are disabled, MPRV and WFI are cleared, the reservation is
    lost, and the new pc is the base of the vector, offset by four times the
    cause for an interrupt in vectored mode. No other register and no other
    status field changes. The hart then takes no further interrupt: none in
    machine mode, and in supervisor mode none that is delegated. *)
Theorem trap_entry h cause tval interrupt :
  hart_wf h -> mode h <> Hypervisor -> 0 <= cause < 64 ->
  let m := trap_target h cause interrupt in
  let r := trap_regs m in
  let base := csr_get h (t_tvec r) - csr_get h (t_tvec r) mod 4 in
  let vectored := csr_get h (t_tvec r) mod 4 =? 1 in
  exists h', trap cause tval interrupt h = Ret (tt, h') /\
  mode h' = m /\ mode_val (mode h) <= mode_val m /\
  csr_get h' (t_epc r) = pc h /\
  csr_get h' (t_cause r) = Z.lor (Z.shiftl (b2z interrupt) 63) cause /\
  csr_get h' (t_tval r) = tval /\
  (forall n, n <> t_epc r -> n <> t_cause r -> n <> t_tval r -> csr_get h' n = csr_get h n) /\
  mode_of (getf (status h') (t_pp r)) = mode h /\
  flag (status h') (t_pie r) = flag (status h) (t_ie r) /\
  flag (status h') (t_ie r) = false /\ flag (status h') Status.MPRV = false /\
  (forall f, forallb (fun g => bf_disjoint g f) [t_ie r; t_pie r; t_pp r; Status.MPRV] = true ->
     getf (status h') f = getf (status h) f) /\
  Z.land (pc h') 3 = 0 /\
  pc h' = u64 (base + if vectored && interrupt then 4 * cause else 0) /\
  WFI h' = false /\ valid (reservation h') = false /\
  GPR h' = GPR h /\ FPR h' = FPR h /\ ie h' = ie h /\ ip h' = ip h /\ satp h' = satp h /\
  fcsr h' = fcsr h /\ stimecmp h' = stimecmp h /\ cycle h' = cycle h /\ instret h' = instret h /\
  tlb h' = tlb h /\
  (inw 64 tval -> m = Machine \/ (forall i, m_int h' i = false) ->
   check_ints h' = Ret (false, h')).
Proof.
  intros Hwf HH Hc m r base vectored. exists (enter m cause tval interrupt h).
  pose proof (trap_enter h cause tval interrupt Hc) as Ht. fold m in Ht.
  split; [done|].
  pose proof (enter_csrs m cause tval interrupt h) as (? & ? & ? & ?).
  pose proof (enter_status m cause tval interrupt h) as (Hpp & ? & Hie & ?).
  pose proof (enter_status_kept m cause tval interrupt h).
  pose proof (enter_pc m cause tval interrupt h (csr_get_wf _ _ Hwf) Hc) as (? & ?).
  assert (m = Supervisor /\ mode h <> Machine \/ m = Machine) as Hm by apply trap_target_level.
  split_and!; try done.
  - destruct Hm as [[-> ?]| ->]; destruct (mode h); simpl; done || lia.
  - fold r in Hpp. rewrite Hpp. destruct Hm as [[-> ?]| ->]; destruct (mode h); done.
  - intros Hv Hno. pose proof (trap_wf cause tval interrupt ltac:(split; lia) Hv h Hwf) as Hwf'.
    rewrite Ht in Hwf'. apply check_ints_masked; [exact Hwf'|].
    destruct Hm as [[Em ?]|Em]; rewrite Em in *; [right|by left].
    destruct Hno as [Hno|Hno]; [done|]. by split_and!.
Qed.

