(* ===== verification/State.v ===== *)
(** * The state a hart runs in, and the interface of the device bus

    A handler of the emulator receives a [Hart&] and reaches, through the
    hart's pointers, the guest memory ([mmap]), the memory controller
    ([mmio]), the instruction decoder ([idec]) and the process-wide tables of
    [self_mod.hpp]. [State] gathers them. The devices behind [MMIO::devs] are
    a parameter: a type [B] of bus states with the operations of [BusOps];
    [BusLaws] is what the memory controller and the hart rely on. *)

From Stdlib Require Import Strings.String.
From S2P Require Import Prelude Defs MemoryMap SelfMod Tlb Decode Hart.

Record State (B : Type) := mkState {
  hart : Hart;
  mmap : MemoryMap;
  smc : SelfMod;
  idec : DecCache;
  mmio_memsize : Z;
  bus : B }.
Arguments mkState {B}.
Arguments hart {B}.
Arguments mmap {B}.
Arguments smc {B}.
Arguments idec {B}.
Arguments mmio_memsize {B}.
Arguments bus {B}.

Section state.
Context {B : Type}.

Definition set_hart (x : Hart) (s : State B) : State B :=
  mkState x (mmap s) (smc s) (idec s) (mmio_memsize s) (bus s).
Definition set_mmap (x : MemoryMap) (s : State B) : State B :=
  mkState (hart s) x (smc s) (idec s) (mmio_memsize s) (bus s).
Definition set_smc (x : SelfMod) (s : State B) : State B :=
  mkState (hart s) (mmap s) x (idec s) (mmio_memsize s) (bus s).
Definition set_idec (x : DecCache) (s : State B) : State B :=
  mkState (hart s) (mmap s) (smc s) x (mmio_memsize s) (bus s).
Definition set_bus (x : B) (s : State B) : State B :=
  mkState (hart s) (mmap s) (smc s) (idec s) (mmio_memsize s) x.

(** Programs over the state. *)
Definition M (A : Type) : Type := ST (State B) A.

Definition on_hart {A} (m : ST Hart A) : M A := fun s =>
  match m (hart s) with
  | Ret (a, h) => Ret (a, set_hart h s)
  | Throw e => Throw e
  | Undef => Undef
  end.

Definition mod_hart (f : Hart -> Hart) : M unit := modify (fun s => set_hart (f (hart s)) s).

(** A read of the memory, and an update of it. *)
Definition on_mem {A} (f : MemoryMap -> outcome A) : M A := fun s =>
  match f (mmap s) with Ret a => Ret (a, s) | Throw e => Throw e | Undef => Undef end.

Definition upd_mem (f : MemoryMap -> outcome MemoryMap) : M unit := fun s =>
  match f (mmap s) with Ret m => Ret (tt, set_mmap m s) | Throw e => Throw e | Undef => Undef end.

Definition reg (i : Z) : M Z := gets (fun s => gpr (hart s) i).
Definition setreg (i v : Z) : M unit := mod_hart (put_gpr i v).
End state.

Arguments M : clear implicits.

(** The devices: their address ranges [(start, size)] in registration order
    and their [read] and [write] methods, by position in that list. A device
    may act on the whole state: it raises interrupts in [ip] and DMA writes
    guest memory. *)
Class BusOps (B : Type) := {
  dev_ranges : B -> list (Z * Z);
  dev_read : nat -> Z -> MemorySize -> M B Z;
  dev_write : nat -> Z -> MemorySize -> Z -> M B unit }.

(** A device changes, of the hart, only the pending interrupts and the time,
    and keeps the shape of the memory map. *)
Definition bus_frame {B} (s s' : State B) : Prop :=
  (exists p t, inw 16 p /\ inw 64 t /\ hart s' = set_ip p (set_ctime t (hart s))) /\
  (wf_mmap (mmap s) -> wf_mmap (mmap s')) /\
  ram_direct (mmap s') = ram_direct (mmap s) /\
  mmio_memsize s' = mmio_memsize s /\
  idec s' = idec s.

Class BusLaws (B : Type) `{BusOps B} := {
  dev_read_frame : forall k a sz s v s', hart_wf (hart s) ->
    dev_read k a sz s = Ret (v, s') -> bus_frame s s' /\ inw 64 v;
  dev_write_frame : forall k a sz v s s', hart_wf (hart s) ->
    dev_write k a sz v s = Ret (tt, s') -> bus_frame s s' }.

(** A bus with no devices. *)
#[export] Instance no_devices : BusOps unit := {
  dev_ranges := fun _ => [];
  dev_read := fun _ _ _ => mret 0;
  dev_write := fun _ _ _ _ => mret tt }.

Lemma bus_frame_refl {B} (s : State B) : hart_wf (hart s) -> bus_frame s s.
Proof.
  intros Hh. split_and!; try done. exists (ip (hart s)), (ctime (hart s)).
  split_and!; [apply Hh|apply Hh|]. by destruct (hart s).
Qed.

#[export] Instance no_devices_laws : BusLaws unit.
Proof.
  split.
  - intros k a sz s v s' Hh [= <- <-]. split; [by apply bus_frame_refl|by apply inw_0].
  - intros k a sz v s s' Hh [= <-]. by apply bus_frame_refl.
Qed.

Lemma hoare_on_hart {B A} (P : State B -> Prop) (m : ST Hart A) Q :
  (forall s, P s -> match m (hart s) with Ret (a, h) => Q a (set_hart h s) | _ => True end) ->
  hoare P (on_hart m) Q.
Proof. intros H s Hs. specialize (H s Hs). unfold on_hart. by destruct (m (hart s)) as [[]| |]. Qed.

(** ** The type invariant of the state *)

Definition st_wf {B} (s : State B) : Prop := hart_wf (hart s) /\ wf_mmap (mmap s).

(** A result whose exception code and trap value are values of their type;
    every code is a defined exception. *)
Definition mem_ret_ok (r : MemoryReturn) : Prop :=
  0 <= mr_exc_code r < 16 /\ inw 64 (mr_tval r).
Definition exec_ret_ok (r : ExecReturn) : Prop :=
  0 <= er_cause r < 16 /\ inw 64 (er_tval r) /\ 0 <= er_increase_pc r <= 4.

Lemma bus_frame_wf {B} (s s' : State B) : bus_frame s s' -> st_wf s -> st_wf s'.
Proof.
  intros ((p & t & Hp & Ht & Hh) & Hm & _) [Hwf Hmm]. split; [|by apply Hm].
  rewrite Hh. auto with rvw.
Qed.

Lemma mem_ok_ret : mem_ret_ok mem_ok.
Proof. by repeat split. Qed.

Lemma inw_lt16 x : 0 <= x < 16 -> inw 64 x.
Proof. intros. split; [lia|]. change (2 ^ 64) with 18446744073709551616. lia. Qed.

(** The type invariant in a state whose decode cache holds [x]. *)
Definition st_inv {B} (x : gmap Z CacheSet) (s : State B) : Prop := st_wf s /\ sets (idec s) = x.

(** Programs that keep the type invariant and the contents of the decode cache
    (its generation may move) and return a value satisfying [Q]. *)
Definition keeps {B A} (m : M B A) (Q : A -> Prop) : Prop :=
  forall x, hoare (st_inv x) m (fun a s => st_inv x s /\ Q a).

Section keeps.
Context {B : Type}.
Implicit Types m : State B.

Lemma keeps_ret {A} (a : A) (Q : A -> Prop) : Q a -> keeps (B := B) (mret a) Q.
Proof. intros H x s Hs. done. Qed.

Lemma keeps_bind {A C} (m : M B A) (f : A -> M B C) (R : A -> Prop) Q :
  keeps m R -> (forall a, R a -> keeps (f a) Q) -> keeps (m ≫= f) Q.
Proof.
  intros Hm Hf x. eapply hoare_bind; [apply Hm|]. intros a s [Hs Ha]. by apply Hf.
Qed.

Lemma keeps_weaken {A} (m : M B A) (Q Q' : A -> Prop) :
  keeps m Q -> (forall a, Q a -> Q' a) -> keeps m Q'.
Proof. intros Hm HQ x. eapply hoare_weaken; [apply Hm|done|]. intros a s [? ?]. auto. Qed.

Lemma keeps_gets {A} (f : State B -> A) (Q : A -> Prop) :
  (forall s, st_wf s -> Q (f s)) -> keeps (gets f) Q.
Proof. intros H x s Hs. split; [done|apply H, Hs]. Qed.

Lemma keeps_get_st (Q : State B -> Prop) : (forall s, st_wf s -> Q s) -> keeps get_st Q.
Proof. intros H x s Hs. split; [done|apply H, Hs]. Qed.

Lemma keeps_mod_hart (f : Hart -> Hart) :
  (forall h, hart_wf h -> hart_wf (f h)) -> keeps (B := B) (mod_hart f) (fun _ => True).
Proof. intros H x s [[Hh Hm] Hx]. split; [|done]. split; [|done]. split; [by apply H|done]. Qed.

Lemma keeps_if {A} (b : bool) (m1 m2 : M B A) Q :
  (b = true -> keeps m1 Q) -> (b = false -> keeps m2 Q) -> keeps (if b then m1 else m2) Q.
Proof. by destruct b; auto. Qed.

Lemma keeps_on_hart {A} (m : ST Hart A) Q :
  hoare hart_wf m (fun a h => hart_wf h /\ Q a) -> keeps (B := B) (on_hart m) Q.
Proof.
  intros Hm x s [[Hh Hmm] Hx]. unfold on_hart. specialize (Hm _ Hh).
  destruct (m (hart s)) as [[a h]| |]; try done. destruct Hm as [? ?]. done.
Qed.

Lemma keeps_reg i : keeps (B := B) (reg i) (inw 64).
Proof. apply keeps_gets. intros s [Hh _]. auto with rvw. Qed.

Lemma keeps_setreg i v : inw 64 v -> keeps (B := B) (setreg i v) (fun _ => True).
Proof. intros. apply keeps_mod_hart. auto with rvw. Qed.

Lemma keeps_trap c t i : 0 <= c < 16 -> inw 64 t -> keeps (B := B) (on_hart (trap c t i)) (fun _ => True).
Proof.
  intros. apply keeps_on_hart. eapply hoare_weaken; [apply trap_wf; [by apply inw_lt16|done]|done|].
  intros [] h Hh. done.
Qed.

Lemma keeps_throw {A} e (Q : A -> Prop) : keeps (B := B) (throw e) Q.
Proof. done. Qed.
Lemma keeps_undef {A} (Q : A -> Prop) : keeps (B := B) undef Q.
Proof. done. Qed.
End keeps.

#[export] Hint Resolve keeps_ret keeps_reg keeps_setreg keeps_throw keeps_undef : rvw.

(** Bind when nothing is needed of the intermediate value. *)
Ltac kbind := apply (keeps_bind _ _ (fun _ => True)).

(** ** Programs that leave the architectural registers alone

    [same_arch h h']: [h'] differs from [h] at most in the TLB, the pending
    interrupts, the time and the reservation. *)
Definition same_arch (h h' : Hart) : Prop :=
  GPR h' = GPR h /\ FPR h' = FPR h /\ pc h' = pc h /\ mode h' = mode h /\ status h' = status h /\
  ie h' = ie h /\ fcsr h' = fcsr h /\ satp h' = satp h /\ csrs h' = csrs h /\ instret h' = instret h.

Lemma same_arch_refl h : same_arch h h.
Proof. by repeat split. Qed.

(** [keeps], and the architectural registers as well. *)
Definition framed {B A} (m : M B A) (Q : A -> Prop) : Prop :=
  forall x h, hoare (fun s => st_inv x s /\ same_arch h (hart s)) m
                (fun a s => (st_inv x s /\ same_arch h (hart s)) /\ Q a).

Section framed.
Context {B : Type}.

Lemma framed_keeps {A} (m : M B A) Q : framed m Q -> keeps m Q.
Proof.
  intros Hm x s Hs. specialize (Hm x (hart s) s (conj Hs (same_arch_refl _))).
  destruct (m s) as [[a s']| |]; [|done..]. by destruct Hm as [[? _] ?].
Qed.

Lemma framed_ret {A} (a : A) (Q : A -> Prop) : Q a -> framed (B := B) (mret a) Q.
Proof. intros Ha x h s Hs. done. Qed.

Lemma framed_bind {A C} (m : M B A) (f : A -> M B C) (R : A -> Prop) Q :
  framed m R -> (forall a, R a -> framed (f a) Q) -> framed (m ≫= f) Q.
Proof.
  intros Hm Hf x h. eapply hoare_bind; [apply Hm|]. intros a s [Hs Ha]. by apply Hf.
Qed.

Lemma framed_gets {A} (f : State B -> A) (Q : A -> Prop) :
  (forall s, st_wf s -> Q (f s)) -> framed (gets f) Q.
Proof. intros H x h s [Hs Hh]. split; [done|apply H, Hs]. Qed.

Lemma framed_get_st (Q : State B -> Prop) : (forall s, st_wf s -> Q s) -> framed get_st Q.
Proof. intros H x h s [Hs Hh]. split; [done|apply H, Hs]. Qed.

Lemma framed_if {A} (b : bool) (m1 m2 : M B A) Q :
  (b = true -> framed m1 Q) -> (b = false -> framed m2 Q) -> framed (if b then m1 else m2) Q.
Proof. by destruct b; auto. Qed.

Lemma framed_mod_hart (f : Hart -> Hart) :
  (forall h, hart_wf h -> hart_wf (f h)) -> (forall h, same_arch h (f h)) ->
  framed (B := B) (mod_hart f) (fun _ => True).
Proof.
  intros Hw Hf x h s [[[Hh Hm] Hx] Ha]. split; [|done]. split; [split; [by split; [apply Hw|]|done]|].
  destruct (Hf (hart s)) as (?&?&?&?&?&?&?&?&?&?), Ha as (?&?&?&?&?&?&?&?&?&?).
  cbn [hart set_hart]. unfold same_arch. split_and!; congruence.
Qed.

Lemma framed_reg i : framed (B := B) (reg i) (inw 64).
Proof. apply framed_gets. intros s [Hh _]. auto with rvw. Qed.

(** Programs that do not touch the hart. *)
Lemma framed_hart {A} (m : M B A) Q : keeps m Q ->
  (forall s a s', m s = Ret (a, s') -> hart s' = hart s) -> framed m Q.
Proof.
  intros Hm Hh x h s [Hs Ha]. specialize (Hm x s Hs). destruct (m s) as [[a s']| |] eqn:E; [|done..].
  destruct Hm as [Hs' HQ]. rewrite (Hh _ _ _ E). done.
Qed.
End framed.

Ltac fbind := apply (framed_bind _ _ (fun _ => True)).

(** ** Instruction handlers

    An entry of the decoder's table: the arguments of [register_instr]. *)

Record Instr (B : Type) := mkInstr {
  i_mask : string;
  i_func : InstructionData -> M B ExecReturn;
  i_imm : option (Z -> Z) }.
Arguments mkInstr {B}.
Arguments i_mask {B}.
Arguments i_func {B}.
Arguments i_imm {B}.

(** The operands [decode_inst] hands to a handler are values of their types. *)
Definition data_ok (d : InstructionData) : Prop := inw 64 (imm d) /\ inw 32 (inst d) /\ 0 <= rs1 d < 32.

(** A handler that keeps the type invariant and returns a well-formed result. *)
Definition instr_keeps {B} (i : Instr B) : Prop :=
  (forall d, data_ok d -> keeps (i_func i d) exec_ret_ok) /\
  match i_imm i with Some f => imm_ok f | None => True end.

Lemma exec_ok_ret : exec_ret_ok exec_ok.
Proof. by repeat split. Qed.
Lemma exec_ok2_ret : exec_ret_ok exec_ok2.
Proof. by repeat split. Qed.
Lemma exec_jump_ret : exec_ret_ok exec_jump.
Proof. by repeat split. Qed.
#[export] Hint Resolve exec_ok_ret exec_ok2_ret exec_jump_ret mem_ok_ret : rvw.

Lemma exec_ret_fail p len c t : 0 <= len <= 4 -> 0 <= c < 16 -> inw 64 t -> exec_ret_ok (mkExec false p len c t).
Proof. done. Qed.

Lemma keeps_pc {B} : keeps (B := B) (gets (fun s => pc (hart s))) (inw 64).
Proof. apply keeps_gets. intros s [Hh _]. apply Hh. Qed.

Lemma keeps_set_pc {B} p : inw 64 p -> keeps (B := B) (mod_hart (set_pc p)) (fun _ => True).
Proof. intros. apply keeps_mod_hart. auto with rvw. Qed.
#[export] Hint Resolve exec_ret_fail keeps_pc keeps_set_pc : rvw.
