(* ===== verification/Mmu.v ===== *)
(** * Memory management unit ([include/mmu.hpp], [include/mmu.inl])

    Address translation: the identity mapping of machine mode and of bare
    [satp], the TLB, and the Sv39 page-table walk with its permission checks
    and its update of the accessed and dirty bits. A page table outside guest
    memory makes [MemoryMap::load] throw, and the exception leaves
    [translate]. *)

From S2P Require Import Prelude Defs MemoryMap SelfMod Tlb Hart State.

(** ** Sv39 *)

Module Sv39.
Definition LEVELS : Z := 3.
Definition PTESIZE : Z := 8.
Definition SHIFTS (idx : Z) : Z := 12 + 9 * idx.

(** [VirtualAddress::isvalid]: bits 63 to 38 are equal. *)
Definition isvalid (raw : Z) : bool :=
  let shifted := Z.shiftr (s64 raw) 38 in (shifted =? 0) || (shifted =? -1).

Definition get_vpn (raw idx : Z) : Z := Z.land (Z.shiftr raw (SHIFTS idx)) 0x1FF.

Definition V := BF 0 1.
Definition R := BF 1 1.
Definition W := BF 2 1.
Definition X := BF 3 1.
Definition U := BF 4 1.
Definition G := BF 5 1.
Definition A := BF 6 1.
Definition D := BF 7 1.

Definition get_solid_ppn (raw : Z) : Z := Z.land (Z.shiftr raw 10) 0xFFFFFFFFFFF.
End Sv39.

Definition PAGE_SIZE : Z := 4096.

Definition AccessType_to_Fault (type : AccessType) : Z :=
  match type with
  | LOAD => EXC_LOAD_PAGE_FAULT
  | STORE => EXC_STORE_PAGE_FAULT
  | EXEC => EXC_INST_PAGE_FAULT
  end.

(** [addr >= ram_base && addr - ram_base <= ram_len - PTESIZE * 8]. *)
Definition pte_in_ram (r : MemoryRegion) (addr : Z) : bool :=
  (base_addr r <=? addr) && (addr - base_addr r <=? u64 (size r - Sv39.PTESIZE * 8)).

(** The fetch of a PTE: [get_ram_direct()] is dereferenced first. *)
Definition pte_fetch (m : MemoryMap) (addr : Z) : outcome Z :=
  r ← deref m (ram_direct m);
  if pte_in_ram r addr then ram_read m (addr - base_addr r) 8
  else load m addr (Sv39.PTESIZE * 8).

Definition pte_store (addr v : Z) (m : MemoryMap) : outcome MemoryMap :=
  r ← deref m (ram_direct m);
  if pte_in_ram r addr then ram_write m (addr - base_addr r) 8 v
  else store m addr (Sv39.PTESIZE * 8) v.

(** The loop of [translate_impl] at level [i] of the table at [a]: the address
    and value of the leaf PTE and its level, [None] for a page fault. *)
Fixpoint walk (m : MemoryMap) (va : Z) (i : nat) (a : Z) : outcome (option (Z * Z * Z)) :=
  let index := Sv39.get_vpn va (Z.of_nat i) in
  let addr := u64 (a + index * Sv39.PTESIZE) in
  pte ← pte_fetch m addr;
  if negb (flag pte Sv39.V) || (flag pte Sv39.W && negb (flag pte Sv39.R)) then Ret None
  else if flag pte Sv39.R || flag pte Sv39.X then Ret (Some (addr, pte, Z.of_nat i))
  else match i with
       | O => Ret None
       | S i' => walk m va i' (u64 (Sv39.get_solid_ppn pte * PAGE_SIZE))
       end.

(** The checks on the leaf: alignment of a superpage, user pages, and the
    permission bit of the access. *)
Definition leaf_allowed (st : Z) (md : PrivilegeMode) (type : AccessType) (pte i : Z) : bool :=
  if (0 <? i) && negb (Z.land (Sv39.get_solid_ppn pte) (Z.shiftl 1 (i * 9) - 1) =? 0) then false
  else if match md with
          | User => negb (flag pte Sv39.U)
          | Supervisor => flag pte Sv39.U && (bool_decide (type = EXEC) || negb (flag st Status.SUM))
          | _ => false
          end then false
  else match type with
       | LOAD => flag pte Sv39.R || (flag pte Sv39.X && flag st Status.MXR)
       | STORE => flag pte Sv39.W
       | EXEC => flag pte Sv39.X
       end.

(** The A/D update: the PTE and whether it is written back. *)
Definition ad_needed (type : AccessType) (pte : Z) : bool :=
  negb (flag pte Sv39.A) || (bool_decide (type = STORE) && negb (flag pte Sv39.D)).

Definition ad_update (type : AccessType) (pte : Z) : Z :=
  if ad_needed type pte then
    let pte := setf pte Sv39.A 1 in
    if bool_decide (type = STORE) then setf pte Sv39.D 1 else pte
  else pte.

Definition pte_perm (pte : Z) : Z :=
  foldl Z.lor 0 [if flag pte Sv39.R then PERM_R else 0; if flag pte Sv39.W then PERM_W else 0;
                 if flag pte Sv39.X then PERM_X else 0; if flag pte Sv39.U then PERM_U else 0;
                 if flag pte Sv39.A then PERM_A else 0; if flag pte Sv39.D then PERM_D else 0].

(** The offset in the RAM array of a page wholly inside RAM. *)
Definition host_page_of (m : MemoryMap) (pa_aligned len : Z) : option Z :=
  match ram m with
  | Some r =>
      if (base_addr r <=? pa_aligned) && (u64 (pa_aligned - base_addr r + len) <=? size r)
      then Some (pa_aligned - base_addr r) else None
  | None => None
  end.

Section mmu.
Context {B : Type}.

(** [{ true, 0, 0 }] with [*pa] set, and a page fault with [*pa = 0]. *)
Definition tr_ok (pa : Z) : M B (MemoryReturn * Z) := mret (mem_ok, pa).
Definition tr_fault (type : AccessType) (va : Z) : M B (MemoryReturn * Z) :=
  mret (mkMem false (AccessType_to_Fault type) va, 0).

Definition tlb_fill (va pa bits perm asid : Z) (glob : bool) (host : option Z) : M B unit :=
  modify (fun s => set_hart (set_tlb (tlb_insert (tlb (hart s)) (smc s) va pa bits perm asid glob host)
                                     (hart s)) s).

(** [translate_impl<Sv39>]. *)
Definition translate_impl (type : AccessType) (raw_va : Z) : M B (MemoryReturn * Z) :=
  if negb (Sv39.isvalid raw_va) then tr_fault type raw_va else
  h ← gets hart;
  let a := u64 (getf (satp h) Satp.ppn * PAGE_SIZE) in
  w ← on_mem (fun m => walk m raw_va 2 a);
  match w with
  | None => tr_fault type raw_va
  | Some (addr, pte, i) =>
      if negb (leaf_allowed (status h) (get_effective_mode h type) type pte i)
      then tr_fault type raw_va else
      let pte' := ad_update type pte in
      _ ← (if ad_needed type pte then upd_mem (pte_store addr pte') else mret tt);
      let page_bits := 12 + i * 9 in
      let vmask := Z.shiftl 1 page_bits - 1 in
      let pa := Z.lor (u64 (Z.shiftl (Sv39.get_solid_ppn pte') 12)) (Z.land raw_va vmask) in
      s ← get_st;
      let perm := if was_page_executed (smc s) pa || bool_decide (type = EXEC)
                  then Z.ldiff (pte_perm pte') (Z.lor PERM_W PERM_D) else pte_perm pte' in
      let pa_aligned := Z.land pa (not_u64 vmask) in
      _ ← tlb_fill raw_va pa_aligned page_bits perm (getf (satp h) Satp.asid)
                   (flag pte' Sv39.G) (host_page_of (mmap s) pa_aligned (Z.shiftl 1 page_bits));
      tr_ok pa
  end.

Definition PERM_ALL : Z := 63.

(** [translate]. *)
Definition translate (type : AccessType) (va : Z) : M B (MemoryReturn * Z) :=
  s ← get_st;
  let h := hart s in
  let md := get_effective_mode h type in
  let asid := getf (satp h) Satp.asid in
  let satp_mode := getf (satp h) Satp.mode in
  if bool_decide (md = Machine) || (satp_mode =? SatpMode_Bare) then
    let base := Z.land va (not64 0xFFF) in
    let perm := if was_page_executed (smc s) va
                then Z.ldiff PERM_ALL (Z.lor PERM_W PERM_D) else PERM_ALL in
    _ ← tlb_fill va base 12 perm asid true (host_page_of (mmap s) base 0x1000);
    tr_ok va
  else
    match tlb_lookup (tlb h) va type asid md (flag (status h) Status.MXR) (flag (status h) Status.SUM) with
    | Some pa => tr_ok pa
    | None =>
        if satp_mode =? SatpMode_Sv39 then translate_impl type va
        else throw logic_error
    end.
End mmu.

(** ** Where a page-table entry lives *)

(** The region that serves the PTE at [addr]. *)
Definition pte_loc (m : MemoryMap) (addr : Z) : outcome nat :=
  r ← deref m (ram_direct m);
  p ← (if pte_in_ram r addr then Ret (ram_direct m)
       else p ← find_region m addr; r ← deref m p; _ ← ptr r addr; Ret p);
  match p with Some i => Ret i | None => Undef end.

Lemma pte_fetch_loc m addr : wf_mmap m ->
  pte_fetch m addr =
  (i ← pte_loc m addr; r ← deref m (Some i); reg_read r (addr - base_addr r) 8).
Proof.
  intros Hm. unfold pte_fetch, pte_loc, ram_read.
  destruct (deref m (ram_direct m)) as [r|e|] eqn:Er; [|done..]. cbn [mbind outcome_bind].
  destruct (pte_in_ram r addr); cbn [mbind outcome_bind].
  - destruct (ram_direct m); [|done]. cbn [mbind outcome_bind]. by rewrite Er.
  - rewrite load_read by done. destruct (find_region m addr) as [p|e|]; [|done..].
    cbn [mbind outcome_bind]. destruct (deref m p) as [r'|e|] eqn:Er'; [|done..].
    cbn [mbind outcome_bind]. destruct (ptr r' addr) as [off|e|] eqn:Ep; [|done..].
    cbn [mbind outcome_bind]. pose proof Er' as (j & -> & _ & Hr)%deref_wf; [|done].
    cbn [mbind outcome_bind]. rewrite Er'. cbn [mbind outcome_bind].
    by apply ptr_ret in Ep as [-> _].
Qed.

Lemma pte_store_loc m addr v : wf_mmap m ->
  pte_store addr v m =
  (i ← pte_loc m addr; r ← deref m (Some i);
   r' ← reg_write r (addr - base_addr r) 8 v; Ret (set_region m (Some i) r')).
Proof.
  intros Hm. unfold pte_store, pte_loc, ram_write.
  destruct (deref m (ram_direct m)) as [r|e|] eqn:Er; [|done..]. cbn [mbind outcome_bind].
  destruct (pte_in_ram r addr); cbn [mbind outcome_bind].
  - destruct (ram_direct m); [|done]. cbn [mbind outcome_bind]. by rewrite Er.
  - rewrite store_write by done. destruct (find_region m addr) as [p|e|]; [|done..].
    cbn [mbind outcome_bind]. destruct (deref m p) as [r'|e|] eqn:Er'; [|done..].
    cbn [mbind outcome_bind]. destruct (ptr r' addr) as [off|e|] eqn:Ep; [|done..].
    cbn [mbind outcome_bind]. pose proof Er' as (j & -> & _ & Hr)%deref_wf; [|done].
    cbn [mbind outcome_bind]. rewrite Er'. cbn [mbind outcome_bind].
    by apply ptr_ret in Ep as [-> _].
Qed.

Lemma deref_layout {A} m m' p (f f' : MemoryRegion -> outcome A) : layout m = layout m' ->
  (forall r r', base_addr r = base_addr r' -> size r = size r' -> f r = f' r') ->
  (r ← deref m p; f r) = (r ← deref m' p; f' r).
Proof.
  intros [= Hr Hd] Hf. unfold deref. destruct p as [i|]; [|done]. simpl.
  apply (f_equal (fun l => l !! i)) in Hr. rewrite !list_lookup_fmap in Hr.
  destruct (regions m !! i), (regions m' !! i); simpl in *; try done.
  injection Hr as ? ?. by apply Hf.
Qed.

Lemma pte_loc_layout m m' addr : layout m = layout m' -> pte_loc m addr = pte_loc m' addr.
Proof.
  intros Hl. pose proof Hl as [= _ Hd]. unfold pte_loc. rewrite (find_region_layout m m') by done.
  rewrite Hd. apply deref_layout; [done|]. intros r r' Hb Hs.
  unfold pte_in_ram. rewrite Hb, Hs. destruct (_ && _)%bool; [done|].
  destruct (find_region m' addr) as [p|e|]; [|done..]. cbn [mbind outcome_bind].
  rewrite (deref_layout m m' p _ (fun r => _ ← ptr r addr; Ret p) Hl); [done|].
  intros q q' Hb' Hs'.
  unfold ptr. by rewrite Hb', Hs'.
Qed.

Lemma pte_store_ret m addr v m' : wf_mmap m -> pte_store addr v m = Ret m' ->
  exists i r r', pte_loc m addr = Ret i /\ regions m !! i = Some r /\ wf_region r /\
    reg_write r (addr - base_addr r) 8 v = Ret r' /\ m' = set_region m (Some i) r' /\
    wf_mmap m' /\ layout m' = layout m.
Proof.
  intros Hm H. rewrite pte_store_loc in H by done.
  destruct (pte_loc m addr) as [i|e|] eqn:El; [|done..]. cbn [mbind outcome_bind] in H.
  destruct (deref m (Some i)) as [r|e|] eqn:Er; [|done..]. cbn [mbind outcome_bind] in H.
  destruct (reg_write r _ 8 v) as [r'|e|] eqn:Ew; [|done..]. cbn [mbind outcome_bind] in H.
  simplify_eq. apply deref_wf in Er as (j & [= <-] & Hi & Hr); [|done].
  exists i, r, r'. split_and!; try done.
  - apply set_region_wf; [done|]. by eapply reg_write_wf.
  - apply reg_write_ret in Ew as (_ & ? & ? & _). by eapply set_region_layout.
Qed.

Lemma pte_fetch_store_same m addr v m' : wf_mmap m -> inw 64 v ->
  pte_store addr v m = Ret m' -> pte_fetch m' addr = Ret v.
Proof.
  intros Hm Hv H. apply pte_store_ret in H as (i & r & r' & El & Hi & Hr & Hw & Em & Hm' & Hl); [|done].
  rewrite pte_fetch_loc, (pte_loc_layout m' m), El by done. cbn [mbind outcome_bind].
  apply reg_write_ret in Hw as (Hin & Hb & Hs & Hd). subst m'.
  unfold deref. simpl. rewrite list_lookup_insert_eq by (by eapply lookup_lt_Some).
  cbn [mbind outcome_bind]. unfold reg_read, in_array in *. rewrite Hb, Hs, Hin, Hd, le_read_write_same.
  f_equal. by apply uN_id.
Qed.

Lemma pte_fetch_store_disj m addr v m' a : wf_mmap m -> a + 8 <= addr \/ addr + 8 <= a ->
  pte_store addr v m = Ret m' -> pte_fetch m' a = pte_fetch m a.
Proof.
  intros Hm Hdis H. apply pte_store_ret in H as (i & r & r' & El & Hi & Hr & Hw & Em & Hm' & Hl); [|done].
  rewrite !pte_fetch_loc, (pte_loc_layout m' m) by done.
  destruct (pte_loc m a) as [j|e|]; [|done..]. cbn [mbind outcome_bind].
  apply reg_write_ret in Hw as (Hin & Hb & Hs & Hd). subst m'. unfold deref. simpl.
  rewrite list_lookup_insert. destruct (decide (i = j)) as [->|Hne].
  2:{ rewrite decide_False; [done|]. by intros [? _]. }
  rewrite decide_True by (split; [done|by eapply lookup_lt_Some]). rewrite Hi.
  cbn [mbind outcome_bind]. unfold reg_read, in_array. rewrite Hb, Hs, Hd.
  by rewrite le_read_write_disj by lia.
Qed.

(** ** The walk *)

(** Two PTEs that differ at most in the A and D bits. *)
Definition same_leaf (p p' : Z) : Prop :=
  flag p Sv39.V = flag p' Sv39.V /\ flag p Sv39.R = flag p' Sv39.R /\
  flag p Sv39.W = flag p' Sv39.W /\ flag p Sv39.X = flag p' Sv39.X /\
  flag p Sv39.U = flag p' Sv39.U /\ flag p Sv39.G = flag p' Sv39.G /\
  Sv39.get_solid_ppn p = Sv39.get_solid_ppn p'.

Lemma solid_ppn_setf p f v : 0 <= bf_lo f -> 0 <= bf_len f -> bf_lo f + bf_len f <= 10 ->
  Sv39.get_solid_ppn (setf p f v) = Sv39.get_solid_ppn p.
Proof.
  intros. unfold Sv39.get_solid_ppn, setf. change 0xFFFFFFFFFFF with (Z.ones 44).
  zbits i. zcases; done.
Qed.

Lemma ad_update_same type p : same_leaf (ad_update type p) p.
Proof.
  unfold ad_update. destruct (ad_needed type p); [|by repeat split].
  destruct (bool_decide (type = STORE)); unfold same_leaf;
    rewrite !flag_setf_other, !solid_ppn_setf by done; done.
Qed.

Lemma ad_update_inw type p : inw 64 p -> inw 64 (ad_update type p).
Proof.
  intros. unfold ad_update. destruct (ad_needed type p); [|done].
  destruct (bool_decide (type = STORE)); auto using setf_inw.
Qed.

(** After the update nothing is left to update for that access. *)
Lemma ad_update_done type p : ad_needed type (ad_update type p) = false.
Proof.
  unfold ad_update. destruct (ad_needed type p) eqn:E; [|done]. unfold ad_needed.
  destruct (bool_decide (type = STORE)) eqn:Et; rewrite ?flag_setf_same by done;
    rewrite ?flag_setf_other, ?flag_setf_same by done; done.
Qed.

Lemma pte_fetch_inw m addr p : wf_mmap m -> pte_fetch m addr = Ret p -> inw 64 p.
Proof.
  intros Hm H. rewrite pte_fetch_loc in H by done.
  destruct (pte_loc m addr) as [i|e|]; [|done..]. cbn [mbind outcome_bind] in H.
  destruct (deref m (Some i)) as [r|e|] eqn:Er; [|done..]. cbn [mbind outcome_bind] in H.
  apply deref_wf in Er as (j & _ & _ & Hr); [|done]. unfold reg_read in H.
  destruct (in_array r _ 8); [|done]. simplify_eq. apply (le_read_inw (data r) _ 8). apply Hr.
Qed.

Lemma table_aligned x : u64 (x * PAGE_SIZE) mod 8 = 0.
Proof.
  unfold uN, PAGE_SIZE. change (2 ^ 64) with (8 * 2 ^ 61).
  rewrite Z.rem_mul_r, (Z.mul_comm 8 (_ mod _)), Z_mod_plus_full, Zmod_mod by lia.
  replace (x * 4096) with (x * 512 * 8) by lia. apply Z_mod_mult.
Qed.

Lemma pte_addr_aligned a i : a mod 8 = 0 -> u64 (a + i * Sv39.PTESIZE) mod 8 = 0.
Proof.
  intros Ha. unfold uN, Sv39.PTESIZE. change (2 ^ 64) with (8 * 2 ^ 61).
  rewrite Z.rem_mul_r, (Z.mul_comm 8 (_ mod _)), Z_mod_plus_full, Zmod_mod by lia.
  by rewrite Z_mod_plus_full.
Qed.

Definition walk_addr (va : Z) (i : nat) (a : Z) : Z :=
  u64 (a + Sv39.get_vpn va (Z.of_nat i) * Sv39.PTESIZE).

Definition pte_bad (p : Z) : bool :=
  negb (flag p Sv39.V) || (flag p Sv39.W && negb (flag p Sv39.R)).
Definition pte_is_leaf (p : Z) : bool := flag p Sv39.R || flag p Sv39.X.

Lemma walk_unfold m va i a :
  walk m va i a =
  (p ← pte_fetch m (walk_addr va i a);
   if pte_bad p then Ret None
   else if pte_is_leaf p then Ret (Some (walk_addr va i a, p, Z.of_nat i))
   else match i with
        | O => Ret None
        | S i' => walk m va i' (u64 (Sv39.get_solid_ppn p * PAGE_SIZE))
        end).
Proof. by destruct i. Qed.

(** What a successful walk ends at. *)
Lemma walk_leaf m va i : forall a addr p l, a mod 8 = 0 ->
  walk m va i a = Ret (Some (addr, p, l)) ->
  pte_fetch m addr = Ret p /\ addr mod 8 = 0 /\ 0 <= l <= Z.of_nat i /\
  pte_bad p = false /\ pte_is_leaf p = true.
Proof.
  induction i as [|i IH]; intros a addr p l Ha H; rewrite walk_unfold in H;
    destruct (pte_fetch m _) as [q|e|] eqn:Eq; try done; cbn [mbind outcome_bind] in H;
    destruct (pte_bad q) eqn:Ev; try done; destruct (pte_is_leaf q) eqn:El; simplify_eq.
  1,2: split_and!; try done; try lia; by apply pte_addr_aligned.
  destruct (IH _ _ _ _ (table_aligned _) H) as (? & ? & ? & ? & ?). split_and!; done || lia.
Qed.

Lemma same_leaf_kind p p' : same_leaf p p' ->
  pte_bad p = pte_bad p' /\ pte_is_leaf p = pte_is_leaf p' /\
  Sv39.get_solid_ppn p = Sv39.get_solid_ppn p'.
Proof. intros (H1 & H2 & H3 & H4 & _ & _ & H5). unfold pte_bad, pte_is_leaf. by rewrite H1, H2, H3, H4, H5. Qed.

(** Walking again after the leaf's A and D bits changed ends at the updated
    leaf: the other levels of the walk are not touched, since they are pointers
    and the leaf is not, so they are different entries of the tables. *)
Lemma walk_after_store m va p' m' addr p i : forall a l, wf_mmap m -> a mod 8 = 0 ->
  inw 64 p' -> same_leaf p' p -> pte_store addr p' m = Ret m' ->
  walk m va i a = Ret (Some (addr, p, l)) -> walk m' va i a = Ret (Some (addr, p', l)).
Proof.
  induction i as [|i IH]; intros a l Hm Ha Hp' Hs Hst H;
    pose proof (walk_leaf _ _ _ _ _ _ _ Ha H) as (Hf & Hal & _ & Hb & Hleaf);
    pose proof (same_leaf_kind _ _ Hs) as (Kb & Kl & _);
    rewrite walk_unfold in H |- *;
    pose proof (pte_addr_aligned a) as Hal0;
    destruct (pte_fetch m (walk_addr va _ a)) as [q|e|] eqn:Eq; try done; cbn [mbind outcome_bind] in H;
    destruct (pte_bad q) eqn:Ev; try done; destruct (pte_is_leaf q) eqn:El; simplify_eq.
  1,2: rewrite (pte_fetch_store_same m _ p' m') by done; cbn [mbind outcome_bind];
    by rewrite Kb, Kl, Hb, Hleaf.
  assert (walk_addr va (S i) a <> addr) as Hne by congruence.
  rewrite (pte_fetch_store_disj m addr p'), Eq; [|done| |done].
  - cbn [mbind outcome_bind]. rewrite Ev, El. apply IH; try done. apply table_aligned.
  - specialize (Hal0 (Sv39.get_vpn va (Z.of_nat (S i))) Ha). fold (walk_addr va (S i) a) in Hal0.
    pose proof (Z.div_mod addr 8). pose proof (Z.div_mod (walk_addr va (S i) a) 8). lia.
Qed.

(** ** Translation *)

(** The access rule of the privileged architecture for a leaf at level [i]. *)
Definition arch_allows (st : Z) (md : PrivilegeMode) (type : AccessType) (p i : Z) : Prop :=
  (i = 0 \/ Sv39.get_solid_ppn p mod 2 ^ (9 * i) = 0) /\
  (md = User -> flag p Sv39.U = true) /\
  (md = Supervisor -> flag p Sv39.U = true -> type <> EXEC /\ flag st Status.SUM = true) /\
  match type with
  | LOAD => flag p Sv39.R = true \/ (flag p Sv39.X = true /\ flag st Status.MXR = true)
  | STORE => flag p Sv39.W = true
  | EXEC => flag p Sv39.X = true
  end.

(** The mode check of the leaf. *)
Definition mode_rejects (st : Z) (md : PrivilegeMode) (type : AccessType) (p : Z) : bool :=
  match md with
  | User => negb (flag p Sv39.U)
  | Supervisor => flag p Sv39.U && (bool_decide (type = EXEC) || negb (flag st Status.SUM))
  | _ => false
  end.

Lemma mode_rejects_arch st md type p :
  mode_rejects st md type p = false <->
  (md = User -> flag p Sv39.U = true) /\
  (md = Supervisor -> flag p Sv39.U = true -> type <> EXEC /\ flag st Status.SUM = true).
Proof.
  unfold mode_rejects. generalize (flag p Sv39.U) (flag st Status.SUM). intros u sum.
  destruct md, type, u, sum; vm_compute; intuition congruence.
Qed.

Lemma type_allows_arch st type p :
  match type with
  | LOAD => flag p Sv39.R || (flag p Sv39.X && flag st Status.MXR)
  | STORE => flag p Sv39.W
  | EXEC => flag p Sv39.X
  end = true <->
  match type with
  | LOAD => flag p Sv39.R = true \/ (flag p Sv39.X = true /\ flag st Status.MXR = true)
  | STORE => flag p Sv39.W = true
  | EXEC => flag p Sv39.X = true
  end.
Proof. destruct type; [|done..]. by rewrite orb_true_iff, andb_true_iff. Qed.

Lemma leaf_aligned p i : 0 <= i ->
  (0 <? i) && negb (Z.land (Sv39.get_solid_ppn p) (Z.shiftl 1 (i * 9) - 1) =? 0) = false <->
  (i = 0 \/ Sv39.get_solid_ppn p mod 2 ^ (9 * i) = 0).
Proof.
  intros Hi. rewrite Z.shiftl_1_l, Z.sub_1_r, <- Z.ones_equiv, Z.land_ones, (Z.mul_comm i) by lia.
  generalize (Sv39.get_solid_ppn p mod 2 ^ (9 * i)). intros r.
  destruct (Z.ltb_spec 0 i), (Z.eqb_spec r 0); cbn [andb negb]; intuition (done || lia).
Qed.

Lemma leaf_allowed_arch st md type p i : 0 <= i ->
  leaf_allowed st md type p i = true <-> arch_allows st md type p i.
Proof.
  intros Hi. unfold leaf_allowed, arch_allows. fold (mode_rejects st md type p).
  rewrite <- (leaf_aligned p i Hi), <- type_allows_arch.
  pose proof (mode_rejects_arch st md type p) as Hm.
  destruct ((0 <? i) && _)%bool; [by split; [|intros (? & _)]|].
  destruct (mode_rejects st md type p); [|tauto].
  split; [done|]. intros (_ & Hu & Hs & _). by rewrite (proj2 Hm (conj Hu Hs)).
Qed.

Lemma perm_bits p :
  has (pte_perm p) PERM_R = flag p Sv39.R /\ has (pte_perm p) PERM_W = flag p Sv39.W /\
  has (pte_perm p) PERM_X = flag p Sv39.X /\ has (pte_perm p) PERM_U = flag p Sv39.U /\
  has (pte_perm p) PERM_D = flag p Sv39.D.
Proof.
  unfold pte_perm.
  by destruct (flag p Sv39.R), (flag p Sv39.W), (flag p Sv39.X), (flag p Sv39.U),
    (flag p Sv39.A), (flag p Sv39.D).
Qed.

(** Withholding W and D keeps the other permissions. *)
Lemma perm_bits_strip p : let q := Z.ldiff (pte_perm p) (Z.lor PERM_W PERM_D) in
  has q PERM_R = flag p Sv39.R /\ has q PERM_X = flag p Sv39.X /\ has q PERM_U = flag p Sv39.U /\
  has q PERM_W = false.
Proof.
  unfold pte_perm.
  by destruct (flag p Sv39.R), (flag p Sv39.W), (flag p Sv39.X), (flag p Sv39.U),
    (flag p Sv39.A), (flag p Sv39.D).
Qed.

Lemma pte_store_total m addr v p : wf_mmap m -> pte_fetch m addr = Ret p ->
  exists m', pte_store addr v m = Ret m'.
Proof.
  intros Hm H. rewrite pte_fetch_loc in H by done. rewrite pte_store_loc by done.
  destruct (pte_loc m addr) as [i|e|]; [|done..]. cbn [mbind outcome_bind] in *.
  destruct (deref m (Some i)) as [r|e|]; [|done..]. cbn [mbind outcome_bind] in *.
  unfold reg_read in H. unfold reg_write. destruct (in_array r _ 8); [|done].
  cbn [mbind outcome_bind]. eauto.
Qed.

(** ** The privileged architecture's Sv39, stated on numbers

    Nothing below uses the definitions above but the contents of the page
    tables, [pte_fetch]. *)

Module Arch.
(** VPN[i]: bits 12 + 9 i to 20 + 9 i of the virtual address. *)
Definition vpn (va : Z) (i : nat) : Z := va / 2 ^ (12 + 9 * Z.of_nat i) mod 512.
(** The physical page number: bits 10 to 53 of a PTE. *)
Definition ppn (p : Z) : Z := p / 2 ^ 10 mod 2 ^ 44.
(** Bits 63 to 38 of the virtual address are equal. *)
Definition canonical (va : Z) : Prop := va mod 2 ^ 64 < 2 ^ 38 \/ 2 ^ 64 - 2 ^ 38 <= va mod 2 ^ 64.

Definition bit_V := 0.
Definition bit_R := 1.
Definition bit_W := 2.
Definition bit_X := 3.
Definition bit_U := 4.
Definition bit_G := 5.
Definition bit_A := 6.
Definition bit_D := 7.
Definition bit_SUM := 18.
Definition bit_MXR := 19.
Definition bit_MPRV := 17.

Definition invalid (p : Z) : Prop :=
  Z.testbit p bit_V = false \/ (Z.testbit p bit_R = false /\ Z.testbit p bit_W = true).
Definition leaf (p : Z) : Prop := Z.testbit p bit_R = true \/ Z.testbit p bit_X = true.

(** The walk from the table at [a] of level [i]: what reading the table does
    when it fails, no leaf, or the address, value and level of the leaf. *)
Inductive walks (m : MemoryMap) (va : Z) : nat -> Z -> outcome (option (Z * Z * nat)) -> Prop :=
| walks_throw i a e :
    pte_fetch m (a + 8 * vpn va i) = Throw e -> walks m va i a (Throw e)
| walks_undef i a :
    pte_fetch m (a + 8 * vpn va i) = Undef -> walks m va i a Undef
| walks_invalid i a p :
    pte_fetch m (a + 8 * vpn va i) = Ret p -> invalid p -> walks m va i a (Ret None)
| walks_leaf i a p :
    pte_fetch m (a + 8 * vpn va i) = Ret p -> ~ invalid p -> leaf p ->
    walks m va i a (Ret (Some (a + 8 * vpn va i, p, i)))
| walks_last a p :
    pte_fetch m (a + 8 * vpn va 0) = Ret p -> ~ invalid p -> ~ leaf p ->
    walks m va 0 a (Ret None)
| walks_next i a p w :
    pte_fetch m (a + 8 * vpn va (S i)) = Ret p -> ~ invalid p -> ~ leaf p ->
    walks m va i (ppn p * 4096) w -> walks m va (S i) a w.

(** The mode of a data access honours MPRV. *)
Definition access_mode (h : Hart) (type : AccessType) : PrivilegeMode :=
  if bool_decide (type <> EXEC) && bool_decide (mode h = Machine) && Z.testbit (status h) bit_MPRV
  then mode_of (status h / 2 ^ 11 mod 4) else mode h.

(** The access a leaf of level [i] allows. *)
Definition allows (st : Z) (md : PrivilegeMode) (type : AccessType) (p : Z) (i : nat) : Prop :=
  ppn p mod 2 ^ (9 * Z.of_nat i) = 0 /\
  (md = User -> Z.testbit p bit_U = true) /\
  (md = Supervisor -> Z.testbit p bit_U = true -> type <> EXEC /\ Z.testbit st bit_SUM = true) /\
  match type with
  | LOAD => Z.testbit p bit_R = true \/ (Z.testbit p bit_X = true /\ Z.testbit st bit_MXR = true)
  | STORE => Z.testbit p bit_W = true
  | EXEC => Z.testbit p bit_X = true
  end.

Definition page_fault (type : AccessType) : Z :=
  match type with EXEC => 12 | LOAD => 13 | STORE => 15 end.

(** The leaf after the access: A set, D set by a store, the rest as before. *)
Definition accessed (type : AccessType) (p p' : Z) : Prop :=
  forall j, 0 <= j -> Z.testbit p' j =
    (j =? bit_A) || ((j =? bit_D) && bool_decide (type = STORE)) || Z.testbit p j.

(** The physical page number of the leaf, less its low 9 i bits, and the
    offset in the page of that level. *)
Definition address (p : Z) (i : nat) (va : Z) : Z :=
  let span := 2 ^ (12 + 9 * Z.of_nat i) in
  ppn p / 2 ^ (9 * Z.of_nat i) * span + va mod span.
End Arch.

(** ** The definitions of the walk, read as the architecture's *)

Lemma pte_flag_bit p k : 0 <= k -> flag p (BF k 1) = Z.testbit p k.
Proof. intros. by apply shiftr_bit_eqb. Qed.

Lemma get_solid_ppn_arch p : Sv39.get_solid_ppn p = Arch.ppn p.
Proof.
  unfold Sv39.get_solid_ppn, Arch.ppn. change 0xFFFFFFFFFFF with (Z.ones 44).
  by rewrite Z.land_ones, Z.shiftr_div_pow2.
Qed.

Lemma get_vpn_arch va i : Sv39.get_vpn va (Z.of_nat i) = Arch.vpn va i.
Proof.
  unfold Sv39.get_vpn, Arch.vpn, Sv39.SHIFTS. change 0x1FF with (Z.ones 9).
  by rewrite Z.land_ones, Z.shiftr_div_pow2 by lia.
Qed.

Lemma isvalid_arch va : Sv39.isvalid va = true <-> Arch.canonical va.
Proof.
  unfold Sv39.isvalid, Arch.canonical. cbv zeta. pose proof (Z.mod_pos_bound va (2 ^ 64)) as Hb.
  rewrite <- (sN_uN 64 va) by done. fold (u64 va) in *. rewrite sN_eq by (done || by apply uN_inw).
  rewrite orb_true_iff, !Z.eqb_eq, Z.shiftr_div_pow2 by lia.
  change (2 ^ (64 - 1)) with (2 ^ 63). generalize dependent (u64 va). intros x Hx.
  destruct (Z.ltb_spec x (2 ^ 63)); split; intros; Z.div_mod_to_equations; lia.
Qed.

Lemma access_mode_arch h type : get_effective_mode h type = Arch.access_mode h type.
Proof.
  unfold get_effective_mode, Arch.access_mode. rewrite (pte_flag_bit _ 17) by done.
  assert (getf (status h) Status.MPP = status h / 2 ^ 11 mod 4) as ->.
  { unfold getf, bf_get. cbn [bf_lo bf_len Status.MPP]. by rewrite Z.land_ones, Z.shiftr_div_pow2. }
  destruct type; simpl; rewrite ?andb_true_r, ?andb_false_r; done.
Qed.

Lemma invalid_arch p : pte_bad p = true <-> Arch.invalid p.
Proof.
  unfold pte_bad, Arch.invalid, Sv39.V, Sv39.R, Sv39.W. rewrite !pte_flag_bit by done.
  rewrite orb_true_iff, andb_true_iff, !negb_true_iff. tauto.
Qed.

Lemma leaf_arch p : pte_is_leaf p = true <-> Arch.leaf p.
Proof. unfold pte_is_leaf, Arch.leaf, Sv39.R, Sv39.X. rewrite !pte_flag_bit by done. by rewrite orb_true_iff. Qed.

Lemma allows_arch st md type p i :
  arch_allows st md type p (Z.of_nat i) <-> Arch.allows st md type p i.
Proof.
  unfold arch_allows, Arch.allows, Sv39.R, Sv39.W, Sv39.X, Sv39.U, Status.SUM, Status.MXR.
  rewrite get_solid_ppn_arch, !pte_flag_bit by done.
  assert (Z.of_nat i = 0 -> Arch.ppn p mod 2 ^ (9 * Z.of_nat i) = 0) as H0.
  { intros ->. apply Z.mod_1_r. }
  split; intros (? & ? & ? & ?); split_and!; try done; [by intuition|by right].
Qed.

Lemma ad_update_arch type p : Arch.accessed type p (ad_update type p).
Proof.
  intros j Hj. unfold ad_update, ad_needed, Sv39.A, Sv39.D. rewrite !pte_flag_bit by done.
  unfold Arch.bit_A, Arch.bit_D.
  assert (forall q f, bf_len f = 1 -> 0 <= bf_lo f ->
    Z.testbit (setf q f 1) j = (j =? bf_lo f) || Z.testbit q j) as Hset.
  { intros q f Hl H0. unfold setf. rewrite Hl, bf_set_bits by lia.
    destruct (Z.eqb_spec j (bf_lo f)) as [->|Hne].
    - rewrite (proj2 (Z.leb_le _ _)), (proj2 (Z.ltb_lt _ _)), Z.sub_diag by lia. done.
    - destruct (Z.leb_spec (bf_lo f) j), (Z.ltb_spec j (bf_lo f + 1)); simpl; try done; lia. }
  destruct (bool_decide (type = STORE)); cbn [andb]; rewrite ?orb_false_r, ?andb_false_r, ?andb_true_r.
  - destruct (Z.testbit p 6) eqn:E6, (Z.testbit p 7) eqn:E7; cbn [negb orb];
      rewrite ?Hset by done; cbn [bf_lo];
      destruct (Z.eqb_spec j 6), (Z.eqb_spec j 7); subst; by rewrite ?E6, ?E7.
  - destruct (Z.testbit p 6) eqn:E6; cbn [negb]; rewrite ?Hset by done; cbn [bf_lo];
      destruct (Z.eqb_spec j 6); subst; by rewrite ?E6.
Qed.

Lemma walk_addr_arch va i a : 0 <= a < 2 ^ 63 ->
  walk_addr va i a = a + 8 * Arch.vpn va i.
Proof.
  intros Ha. unfold walk_addr, Sv39.PTESIZE. rewrite get_vpn_arch, (Z.mul_comm _ 8).
  assert (0 <= Arch.vpn va i < 512) by (by apply Z.mod_pos_bound). apply uN_id. split; lia.
Qed.

Lemma table_arch p : u64 (Sv39.get_solid_ppn p * PAGE_SIZE) = Arch.ppn p * 4096 /\
  0 <= Arch.ppn p * 4096 < 2 ^ 63.
Proof.
  rewrite get_solid_ppn_arch. assert (0 <= Arch.ppn p < 2 ^ 44) by (by apply Z.mod_pos_bound).
  unfold PAGE_SIZE. split; [apply uN_id; split|]; lia.
Qed.

(** The program's walk is the architecture's. *)
Lemma walk_walks m va i : forall a, 0 <= a < 2 ^ 63 ->
  Arch.walks m va i a
    (match walk m va i a with
     | Ret (Some (addr, p, l)) => Ret (Some (addr, p, Z.to_nat l))
     | Ret None => Ret None
     | Throw e => Throw e
     | Undef => Undef
     end).
Proof.
  induction i as [|i IH]; intros a Ha; rewrite walk_unfold, walk_addr_arch by done;
    (destruct (pte_fetch m _) as [p|e|] eqn:Ef;
      [|by constructor..]); cbn [mbind outcome_bind];
    (destruct (pte_bad p) eqn:Ei;
      [by eapply Arch.walks_invalid; [|apply invalid_arch]|]);
    assert (~ Arch.invalid p) by (rewrite <- invalid_arch; congruence);
    (destruct (pte_is_leaf p) eqn:El;
      [rewrite Nat2Z.id; by apply Arch.walks_leaf; [..|apply leaf_arch]|]);
    assert (~ Arch.leaf p) by (rewrite <- leaf_arch; congruence).
  - by eapply Arch.walks_last.
  - destruct (table_arch p) as [-> Hp]. eapply Arch.walks_next; eauto.
Qed.

Lemma walks_det m va i a w w' : Arch.walks m va i a w -> Arch.walks m va i a w' -> w = w'.
Proof.
  induction 1 in w' |- *; inversion 1; subst;
    repeat match goal with H1 : pte_fetch m ?x = _, H2 : pte_fetch m ?x = _ |- _ =>
      rewrite H1 in H2; simplify_eq end; first [done|eauto].
Qed.

(** Page tables in RAM or in any other region are read as the memory map loads. *)
Lemma pte_fetch_load m r addr : wf_mmap m -> ram m = Some r -> base_addr r = RAM_BASE ->
  64 <= size r < 2 ^ 64 - RAM_BASE -> pte_fetch m addr = load m addr 64.
Proof.
  intros Hm Hr Hb Hs. unfold pte_fetch. unfold ram in Hr.
  destruct (ram_direct m) as [k|] eqn:Ed; [|done]. cbn in Hr.
  assert (deref m (Some k) = Ret r) as Ek by (unfold deref; simpl; by rewrite Hr).
  rewrite Ek. cbn [mbind outcome_bind].
  destruct (pte_in_ram r addr) eqn:Ep; [|done]. unfold pte_in_ram in Ep. bool_hyps.
  pose proof Ek as (? & _ & _ & (Hwb & Hws & _))%deref_wf; [|done].
  unfold Sv39.PTESIZE in *. rewrite uN_id in * by (destruct Hws; split; lia).
  rewrite load_read by done. unfold find_region. rewrite (proj2 (Z.leb_le _ _)) by lia.
  cbn [mbind outcome_bind]. rewrite Ed, Ek. cbn [mbind outcome_bind].
  assert (ptr r addr = Ret (addr - base_addr r)) as ->; [|unfold ram_read; by rewrite Ed, Ek].
  unfold ptr. rewrite Hb in *. destruct (Z.ltb_spec addr RAM_BASE); [lia|].
  rewrite uN_id by (unfold RAM_BASE in *; split; lia).
  destruct (Z.leb_spec (RAM_BASE + size r) addr); [lia|done].
Qed.

Section translate.
Context {B : Type}.

Definition sv39_root (s : State B) : Z := u64 (getf (satp (hart s)) Satp.ppn * PAGE_SIZE).

(** The physical address of [va] through the leaf [p] of level [i]. *)
Definition leaf_pa (p i va : Z) : Z :=
  Z.lor (u64 (Z.shiftl (Sv39.get_solid_ppn p) 12)) (Z.land va (Z.shiftl 1 (12 + i * 9) - 1)).

Lemma leaf_pa_bits p i va j : 0 <= i -> 0 <= j ->
  (i = 0 \/ Sv39.get_solid_ppn p mod 2 ^ (9 * i) = 0) ->
  Z.testbit (leaf_pa p i va) j =
  if j <? 12 + 9 * i then Z.testbit va j
  else Z.testbit (Sv39.get_solid_ppn p) (j - 12).
Proof.
  intros Hi Hj Hal. unfold leaf_pa.
  rewrite Z.shiftl_1_l, Z.sub_1_r, <- Z.ones_equiv. tb.
  assert (inw 44 (Sv39.get_solid_ppn p)) as Hppn.
  { unfold Sv39.get_solid_ppn. change 0xFFFFFFFFFFF with (Z.ones 44).
    rewrite Z.land_ones by lia. by apply (uN_inw 44). }
  assert (j < 12 + 9 * i -> Z.testbit (Sv39.get_solid_ppn p) (j - 12) = false) as Hlow.
  { intros Hlt. destruct (Z.neg_nonneg_cases (j - 12)); [by apply Z.testbit_neg_r|].
    destruct Hal as [->|Hal]; [lia|].
    rewrite <- (Z.mod_pow2_bits_low _ (9 * i)), Hal by lia. apply Z.bits_0. }
  assert (64 <= j -> Z.testbit (Sv39.get_solid_ppn p) (j - 12) = false) as Hhigh.
  { intros. apply (inw_high 44); [done|lia]. }
  zcases; rewrite ?Hlow, ?Hhigh, ?andb_false_r, ?orb_false_r, ?andb_true_r by lia; done.
Qed.

Lemma leaf_pa_same p p' i va : same_leaf p' p -> leaf_pa p' i va = leaf_pa p i va.
Proof. intros (_ & _ & _ & _ & _ & _ & H). unfold leaf_pa. by rewrite H. Qed.

Lemma leaf_pa_split p i va : 0 <= i ->
  (i = 0 \/ Sv39.get_solid_ppn p mod 2 ^ (9 * i) = 0) ->
  uN (12 + 9 * i) (leaf_pa p i va) = uN (12 + 9 * i) va /\
  Z.shiftr (leaf_pa p i va) (12 + 9 * i) = Z.shiftr (Sv39.get_solid_ppn p) (9 * i).
Proof.
  intros Hi Hal. split.
  - zbits j. rewrite leaf_pa_bits by (done || lia). zcases; done.
  - zbits j. rewrite leaf_pa_bits by (done || lia). zcases. f_equal. lia.
Qed.

(** The A/D update of a leaf that the walk found. *)
Lemma ad_store_spec (s : State B) type va addr p i : wf_mmap (mmap s) ->
  walk (mmap s) va 2 (sv39_root s) = Ret (Some (addr, p, i)) ->
  exists m', (if ad_needed type p then upd_mem (pte_store addr (ad_update type p)) else mret tt) s
             = Ret (tt, set_mmap m' s) /\ wf_mmap m' /\ layout m' = layout (mmap s) /\
    walk m' va 2 (sv39_root s) = Ret (Some (addr, ad_update type p, i)) /\
    (ad_needed type p = false -> m' = mmap s) /\
    pte_fetch m' addr = Ret (ad_update type p) /\
    (forall a, a + 8 <= addr \/ addr + 8 <= a -> pte_fetch m' a = pte_fetch (mmap s) a).
Proof.
  intros Hm Hw. pose proof (walk_leaf _ _ _ _ _ _ _ (table_aligned _) Hw) as (Hf & _).
  destruct (ad_needed type p) eqn:E.
  - destruct (pte_store_total _ addr (ad_update type p) _ Hm Hf) as (m' & Hst).
    exists m'. unfold upd_mem. rewrite Hst. split; [done|].
    pose proof (pte_store_ret _ _ _ _ Hm Hst) as (? & ? & ? & _ & _ & _ & _ & _ & Hm' & Hl).
    assert (inw 64 (ad_update type p)) as Hp' by (by apply ad_update_inw, (pte_fetch_inw (mmap s) addr)).
    split_and!; try done.
    + apply (walk_after_store (mmap s) va (ad_update type p) m' addr p 2); try done;
        [apply table_aligned|apply ad_update_same].
    + by apply (pte_fetch_store_same (mmap s) _ _ m').
    + intros a Ha. by apply (pte_fetch_store_disj (mmap s) addr (ad_update type p)).
  - exists (mmap s). unfold ad_update. rewrite E. split_and!; try done. by destruct s.
Qed.

(** The permissions and the TLB after a walk to the leaf [p] at level [i]. *)
Definition fill_perm (s : State B) (type : AccessType) (p pa : Z) : Z :=
  if was_page_executed (smc s) pa || bool_decide (type = EXEC)
  then Z.ldiff (pte_perm p) (Z.lor PERM_W PERM_D) else pte_perm p.

Definition walk_fill (s : State B) (m : MemoryMap) (type : AccessType) (va p i : Z) : TLB :=
  let pa := leaf_pa p i va in
  let page := Z.land pa (not_u64 (Z.shiftl 1 (12 + i * 9) - 1)) in
  tlb_insert (tlb (hart s)) (smc s) va page (12 + i * 9) (fill_perm s type p pa)
    (getf (satp (hart s)) Satp.asid) (flag p Sv39.G) (host_page_of m page (Z.shiftl 1 (12 + i * 9))).

Lemma translate_impl_ok s type va addr p i : wf_mmap (mmap s) -> Sv39.isvalid va = true ->
  walk (mmap s) va 2 (sv39_root s) = Ret (Some (addr, p, i)) ->
  leaf_allowed (status (hart s)) (get_effective_mode (hart s) type) type p i = true ->
  exists m', translate_impl type va s =
      Ret ((mem_ok, leaf_pa p i va),
           set_hart (set_tlb (walk_fill s m' type va (ad_update type p) i) (hart s)) (set_mmap m' s)) /\
    wf_mmap m' /\ layout m' = layout (mmap s) /\
    walk m' va 2 (sv39_root s) = Ret (Some (addr, ad_update type p, i)) /\
    (ad_needed type p = false -> m' = mmap s) /\
    pte_fetch m' addr = Ret (ad_update type p) /\
    (forall a, a + 8 <= addr \/ addr + 8 <= a -> pte_fetch m' a = pte_fetch (mmap s) a).
Proof.
  intros Hm Hv Ew Ha.
  destruct (ad_store_spec s type va addr p i Hm Ew) as (m' & Hst & Hrest). exists m'.
  split; [|done]. unfold translate_impl. rewrite Hv. cbn [negb].
  cbv [mbind ST_bind gets get_st on_mem]. fold (sv39_root s). rewrite Ew, Ha. cbn [negb].
  rewrite Hst. rewrite <- (leaf_pa_same _ _ i va (ad_update_same type p)). reflexivity.
Qed.

(** [translate_impl] as a function of the walk's outcome. *)
Lemma translate_impl_spec (s : State B) type va :
  wf_mmap (mmap s) ->
  let h := hart s in
  let fault := Ret ((mkMem false (AccessType_to_Fault type) va, 0), s) in
  match (if Sv39.isvalid va then walk (mmap s) va 2 (sv39_root s) else Ret None) with
  | Ret (Some (addr, p, i)) =>
      (arch_allows (status h) (get_effective_mode h type) type p i ->
       exists s' p' pa, translate_impl type va s = Ret ((mem_ok, pa), s') /\
         uN (12 + 9 * i) pa = uN (12 + 9 * i) va /\
         Z.shiftr pa (12 + 9 * i) = Z.shiftr (Sv39.get_solid_ppn p) (9 * i) /\
         walk (mmap s') va 2 (sv39_root s') = Ret (Some (addr, p', i)) /\
         same_leaf p' p /\ ad_needed type p' = false /\
         (ad_needed type p = false -> mmap s' = mmap s) /\
         layout (mmap s') = layout (mmap s) /\ wf_mmap (mmap s') /\
         exists t, hart s' = set_tlb t h) /\
      (~ arch_allows (status h) (get_effective_mode h type) type p i ->
       translate_impl type va s = fault)
  | Ret None => translate_impl type va s = fault
  | Throw e => translate_impl type va s = Throw e
  | Undef => translate_impl type va s = Undef
  end.
Proof.
  intros Hm h fault.
  destruct (Sv39.isvalid va) eqn:Hv; [|unfold translate_impl; by rewrite Hv].
  destruct (walk (mmap s) va 2 (sv39_root s)) as [[[[addr p] i]|]|e|] eqn:Ew;
    [|unfold translate_impl; rewrite Hv; cbn [negb]; cbv [mbind ST_bind gets get_st on_mem];
      fold (sv39_root s); by rewrite Ew ..].
  pose proof (walk_leaf _ _ _ _ _ _ _ (table_aligned _) Ew) as (_ & _ & Hi & _).
  pose proof (leaf_allowed_arch (status h) (get_effective_mode h type) type p i ltac:(lia)) as Harch.
  fold h. split.
  - intros Ha. apply Harch in Ha as Hb.
    destruct (translate_impl_ok s type va addr p i Hm Hv Ew Hb) as (m' & Hst & Hm' & Hl & Hw' & Hno & _).
    rewrite Hst. eexists _, (ad_update type p), (leaf_pa p i va). split; [reflexivity|].
    pose proof (leaf_pa_split p i va ltac:(lia) (proj1 Ha)) as [? ?].
    split_and!; try done; [apply ad_update_same|apply ad_update_done|by eexists].
  - intros Ha. unfold translate_impl. rewrite Hv. cbn [negb].
    cbv [mbind ST_bind gets get_st on_mem]. fold (sv39_root s). rewrite Ew. fold h.
    destruct (leaf_allowed _ _ _ _ _); [by destruct Ha; apply Harch|done].
Qed.

Lemma leaf_pa_inw p i va : 0 <= i -> inw 64 va -> inw 64 (leaf_pa p i va).
Proof.
  intros. unfold leaf_pa. apply inw_lor; [lia|by apply uN_inw|].
  apply inw_land; [lia|done|]. rewrite Z.shiftl_1_l. pose proof (pow2_pos (12 + i * 9)). lia.
Qed.

(** The page of a physical address and the offset, put together again. *)
Lemma page_join p i va pa : 0 <= i -> inw 64 va -> pa = leaf_pa p i va ->
  (i = 0 \/ Sv39.get_solid_ppn p mod 2 ^ (9 * i) = 0) ->
  let bits := 12 + i * 9 in
  let page := Z.land pa (not_u64 (Z.shiftl 1 bits - 1)) in
  Z.lor (Z.shiftl (Z.shiftr page bits) bits) (uN bits va) = pa /\
  u64 (Z.land page (not_u64 (page_mask_of bits)) + Z.land va (page_mask_of bits)) = pa.
Proof.
  intros Hi Hva -> Hal bits page.
  pose proof (leaf_pa_inw p i va Hi Hva) as Hpa.
  assert (Z.shiftl 1 bits - 1 = Z.ones bits) as Eo.
  { by rewrite Z.shiftl_1_l, Z.sub_1_r, <- Z.ones_equiv. }
  assert (forall j, 0 <= j -> Z.testbit page j = ((bits <=? j) && Z.testbit (leaf_pa p i va) j)%bool) as Hp.
  { intros j Hj. unfold page, not_u64. rewrite Eo. unfold bits in *. tb.
    zcases; rewrite ?andb_true_r, ?andb_false_r; try done. by rewrite (inw_high 64). }
  assert (forall j, 0 <= j -> j < bits -> Z.testbit va j = Z.testbit (leaf_pa p i va) j) as Hv.
  { intros j Hj Hlt. rewrite leaf_pa_bits by done. unfold bits in *. zcases. done. }
  assert (Z.land page (not_u64 (page_mask_of bits)) = page) as ->.
  { unfold page_mask_of, page. by rewrite <- Z.land_assoc, Z.land_diag. }
  split.
  - unfold bits in *. zbits j. rewrite Hp by lia. zcases; rewrite ?Hv by lia; try done.
    by rewrite orb_false_r; f_equal; lia.
  - rewrite Z.add_nocarry_lor.
    + unfold page_mask_of. rewrite Eo. unfold bits in *. zbits j. rewrite Hp by lia.
      zcases; rewrite ?Hv, ?andb_false_r, ?andb_true_r, ?orb_false_r by lia; try done.
      all: by rewrite (inw_high 64).
    + unfold page_mask_of. rewrite Eo. unfold bits in *. zbits j. rewrite Hp by lia.
      zcases; rewrite ?andb_false_r; done.
Qed.

(** The entry filled by a walk serves the access that filled it, except a
    store to a page that was executed, from which W is withheld. *)
Lemma fill_perm_ok (s : State B) st md type p i pa : 0 <= i ->
  ad_needed type p = false -> arch_allows st md type p i ->
  (type = STORE -> was_page_executed (smc s) pa = false) ->
  lookup_perm (if has (fill_perm s type p pa) PERM_W && was_page_executed (smc s) pa
               then Z.ldiff (fill_perm s type p pa) (Z.lor PERM_W PERM_D)
               else fill_perm s type p pa)
    type md (flag st Status.MXR) (flag st Status.SUM) = true.
Proof.
  intros Hi Had (_ & Hu & Hs & Ht) Hx.
  pose proof (perm_bits p) as (HR & HW & HX & HU & HD).
  pose proof (perm_bits_strip p) as (SR & SX & SU & SW).
  assert (exists q, (if has (fill_perm s type p pa) PERM_W && was_page_executed (smc s) pa
               then Z.ldiff (fill_perm s type p pa) (Z.lor PERM_W PERM_D)
               else fill_perm s type p pa) = q /\
          has q PERM_R = flag p Sv39.R /\ has q PERM_X = flag p Sv39.X /\ has q PERM_U = flag p Sv39.U /\
          (type = STORE -> has q PERM_W = flag p Sv39.W /\ has q PERM_D = flag p Sv39.D))
    as (q & -> & QR & QX & QU & QS).
  { eexists; split; [done|]. unfold fill_perm.
    destruct (was_page_executed (smc s) pa) eqn:Ex, (bool_decide (type = EXEC)) eqn:Et;
      cbn [orb]; rewrite ?SW, ?andb_false_r; cbn [andb]; split_and!; try done;
      intros ->; try done; by specialize (Hx eq_refl). }
  unfold lookup_perm, check_perm. rewrite QR, QX, QU.
  apply andb_true_iff; split; [apply andb_true_iff; split|].
  - destruct md; try done; [by apply Hu|]. destruct (flag p Sv39.U) eqn:EU; [|done].
    destruct (Hs eq_refl eq_refl) as [Hne ->]. rewrite bool_decide_eq_false_2 by done. done.
  - destruct type; [by apply (type_allows_arch st LOAD)|rewrite (proj1 (QS eq_refl)); done|done].
  - destruct (bool_decide (type = STORE)) eqn:Et; [|done]. apply bool_decide_eq_true in Et as ->.
    rewrite (proj2 (QS eq_refl)). unfold ad_needed in Had.
    apply orb_false_iff in Had as [_ Had]. by destruct (flag p Sv39.D).
Qed.

(** Translation is stable: after [translate_impl] filled the TLB, [translate]
    gives the same address for the same kind of access and changes nothing,
    unless it is a store to a page that was executed (those are walked every
    time). *)
Lemma translate_impl_again (s s' : State B) type va pa :
  wf_mmap (mmap s) -> inw 64 va ->
  get_effective_mode (hart s) type <> Machine -> getf (satp (hart s)) Satp.mode <> SatpMode_Bare ->
  translate_impl type va s = Ret ((mem_ok, pa), s') ->
  (type = STORE -> was_page_executed (smc s) pa = false) ->
  translate type va s' = Ret ((mem_ok, pa), s').
Proof.
  intros Hm Hva Hmode Hbare Htr Hx.
  assert (forall t, get_effective_mode (set_tlb t (hart s)) type = get_effective_mode (hart s) type)
    as Hem by done.
  pose proof (translate_impl_spec s type va Hm) as Hspec. cbv zeta in Hspec.
  unfold mem_ok in Htr. destruct (Sv39.isvalid va) eqn:Hv; [|congruence].
  destruct (walk (mmap s) va 2 (sv39_root s)) as [[[[addr p] i]|]|e|] eqn:Ew; try congruence.
  pose proof (walk_leaf _ _ _ _ _ _ _ (table_aligned _) Ew) as (_ & _ & Hi & _).
  destruct (leaf_allowed (status (hart s)) (get_effective_mode (hart s) type) type p i) eqn:Ea.
  2:{ destruct Hspec as [_ Hno]. rewrite Hno in Htr; [congruence|].
      intros Ha%leaf_allowed_arch; [congruence|lia]. }
  destruct (translate_impl_ok s type va addr p i Hm Hv Ew Ea) as (m' & Hst & _).
  rewrite Hst in Htr. injection Htr as <- <-.
  unfold translate. cbv [mbind ST_bind get_st]. cbn [hart set_hart set_mmap tlb set_tlb satp status].
  rewrite Hem. rewrite bool_decide_eq_false_2 by done. rewrite (proj2 (Z.eqb_neq _ _) Hbare).
  cbn [orb]. unfold walk_fill. cbv zeta.
  apply leaf_allowed_arch in Ea; [|lia].
  rewrite tlb_insert_lookup, !Z.eqb_refl, orb_true_r; [|lia|done|done|].
  2:{ apply inw_land; [lia|apply leaf_pa_inw; [lia|done]|]. apply uN_inw. lia. }
  cbn [andb].
  destruct (page_join (ad_update type p) i va _ ltac:(lia) Hva eq_refl) as [Hj1 Hj2].
  { destruct (ad_update_same type p) as (_ & _ & _ & _ & _ & _ & ->). apply Ea. }
  unfold inserted_perm. rewrite Hj1, Hj2, (leaf_pa_same _ _ i va (ad_update_same type p)).
  rewrite (fill_perm_ok s (status (hart s)) _ type _ i); try done; [lia|apply ad_update_done|].
  destruct (ad_update_same type p) as (E1 & E2 & E3 & E4 & E5 & E6 & E7).
  destruct Ea as (Ha1 & Ha2 & Ha3 & Ha4). unfold arch_allows. by rewrite E2, E3, E4, E5, E7.
Qed.

Lemma translate_again (s s' : State B) type va pa :
  wf_mmap (mmap s) -> inw 64 va ->
  get_effective_mode (hart s) type <> Machine -> getf (satp (hart s)) Satp.mode <> SatpMode_Bare ->
  translate type va s = Ret ((mem_ok, pa), s') ->
  (type = STORE -> was_page_executed (smc s) pa = false) ->
  translate type va s' = Ret ((mem_ok, pa), s').
Proof.
  intros Hm Hva Hmode Hbare Htr Hx. pose proof Htr as Htr0.
  unfold translate in Htr. cbv [mbind ST_bind get_st] in Htr.
  rewrite bool_decide_eq_false_2 in Htr by done. rewrite (proj2 (Z.eqb_neq _ _) Hbare) in Htr.
  cbn [orb] in Htr.
  destruct (tlb_lookup _ _ _ _ _ _ _) as [pa0|] eqn:El in Htr.
  { by injection Htr as <- <-. }
  destruct (_ =? SatpMode_Sv39); [|done]. by apply (translate_impl_again s).
Qed.

(** What translation may change: the TLB, and A and D bits in the page tables. *)
Definition tr_frame (s s' : State B) : Prop :=
  exists t m, s' = set_hart (set_tlb t (hart s)) (set_mmap m s) /\
    (tlb_ok (tlb (hart s)) -> tlb_ok t) /\
    (wf_mmap (mmap s) -> wf_mmap m) /\ layout m = layout (mmap s).

Lemma tr_frame_refl (s : State B) : tr_frame s s.
Proof. exists (tlb (hart s)), (mmap s). split_and!; try done. destruct s as [h]. by destruct h. Qed.

Lemma translate_frame s type va pa r s' : wf_mmap (mmap s) -> inw 64 va ->
  translate type va s = Ret ((r, pa), s') ->
  tr_frame s s' /\ (tlb_ok (tlb (hart s)) -> inw 64 pa) /\
  (r = mem_ok \/ r = mkMem false (AccessType_to_Fault type) va).
Proof.
  intros Hm Hva Htr. unfold translate in Htr. cbv [mbind ST_bind get_st] in Htr.
  assert (inw 64 0) by by apply inw_0.
  destruct (bool_decide _ || _)%bool.
  { injection Htr as <- <- <-. split_and!; [|done|by left].
    eexists _, (mmap s). split_and!; [by destruct s| |done..].
    apply tlb_ok_insert; [lia|]. apply Z.land_nonneg. left. apply Hva. }
  destruct (tlb_lookup _ _ _ _ _ _ _) eqn:El.
  { injection Htr as <- <- <-. split_and!; [apply tr_frame_refl| |by left].
    intros Ht. exact (tlb_lookup_inw _ va _ _ _ _ _ _ Ht Hva El). }
  destruct (_ =? SatpMode_Sv39); [|done].
  assert (Hfault : forall e, translate_impl type va s = Ret e ->
    e = ((mkMem false (AccessType_to_Fault type) va, 0), s) ->
    tr_frame s s' /\ (tlb_ok (tlb (hart s)) -> inw 64 pa) /\
    (r = mem_ok \/ r = mkMem false (AccessType_to_Fault type) va)).
  { intros e He ->. rewrite He in Htr. injection Htr as <- <- <-.
    split_and!; [apply tr_frame_refl|done|by right]. }
  pose proof (translate_impl_spec s type va Hm) as Hspec. cbv zeta in Hspec.
  destruct (Sv39.isvalid va) eqn:Hv; [|by eapply Hfault].
  destruct (walk (mmap s) va 2 (sv39_root s)) as [[[[addr p] i]|]|e|] eqn:Ew;
    [|by eapply Hfault|congruence..].
  pose proof (walk_leaf _ _ _ _ _ _ _ (table_aligned _) Ew) as (_ & _ & Hi & _).
  destruct (leaf_allowed (status (hart s)) (get_effective_mode (hart s) type) type p i) eqn:Ea.
  - destruct (translate_impl_ok s type va addr p i Hm Hv Ew Ea) as (m' & Hst & Hm' & Hl & _).
    rewrite Hst in Htr. injection Htr as <- <- <-. split_and!; [|intros; apply leaf_pa_inw; [lia|done]|by left].
    eexists _, m'. split_and!; [done| |done..]. apply tlb_ok_insert; [lia|].
    apply Z.land_nonneg. right. by apply uN_inw.
  - destruct Hspec as [_ Hno]. eapply Hfault; [apply Hno|done].
    intros Ha%leaf_allowed_arch; [congruence|lia].
Qed.
(** A leaf at level [i] whose address the walk gives. *)
Lemma leaf_pa_arch p i va : Arch.ppn p mod 2 ^ (9 * Z.of_nat i) = 0 ->
  leaf_pa p (Z.of_nat i) va = Arch.address p i va.
Proof.
  intros Hal. unfold Arch.address. cbv zeta.
  pose proof (leaf_pa_split p (Z.of_nat i) va ltac:(lia)) as [Hlo Hhi].
  { right. by rewrite get_solid_ppn_arch. }
  rewrite get_solid_ppn_arch, !Z.shiftr_div_pow2 in Hhi by lia. unfold uN in Hlo.
  rewrite <- Hlo, <- Hhi, Z.mul_comm. apply Z.div_mod. pose proof (pow2_pos (12 + 9 * Z.of_nat i)). lia.
Qed.

(** C6: the Sv39 walk against the privileged architecture, whose page-number
    fields, walk, permission rules and A and D update [Arch] states on numbers.
    An address that is not canonical, a walk without a leaf and a leaf that does
    not allow the access raise the page fault of the access and change nothing.
    An allowed leaf gives its page with the offset of the address, and the
    leaf in memory then has its A bit set, and its D bit for a store: nothing
    else in the page tables changes, the walk still ends there, and the entry
    filled into the TLB answers the same access with the same address, except a
    store to an executed page. Page tables are read as the memory map loads;
    a table outside memory ends the walk the way that load ends. *)
Theorem sv39_translate (s : State B) type va :
  wf_mmap (mmap s) -> inw 64 va ->
  let h := hart s in
  let md := Arch.access_mode h type in
  let root := (satp h mod 2 ^ 44) * 4096 in
  let fault := Ret ((mkMem false (Arch.page_fault type) va, 0), s) in
  (forall r addr, ram (mmap s) = Some r -> base_addr r = RAM_BASE -> 64 <= size r < 2 ^ 64 - RAM_BASE ->
     pte_fetch (mmap s) addr = load (mmap s) addr 64) /\
  (~ Arch.canonical va -> translate_impl type va s = fault) /\
  (Arch.canonical va -> exists w, Arch.walks (mmap s) va 2 root w /\
   match w with
   | Ret (Some (addr, p, i)) =>
       (~ Arch.allows (status h) md type p i -> translate_impl type va s = fault) /\
       (Arch.allows (status h) md type p i ->
        exists s' p' t m, let pa := Arch.address p i va in
          translate_impl type va s = Ret ((mem_ok, pa), s') /\
          s' = set_hart (set_tlb t h) (set_mmap m s) /\ wf_mmap m /\ layout m = layout (mmap s) /\
          Arch.accessed type p p' /\ (p' = p -> m = mmap s) /\ pte_fetch m addr = Ret p' /\
          (forall a, a + 8 <= addr \/ addr + 8 <= a -> pte_fetch m a = pte_fetch (mmap s) a) /\
          Arch.walks m va 2 root (Ret (Some (addr, p', i))) /\
          (md <> Machine -> getf (satp h) Satp.mode <> SatpMode_Bare ->
           (type = STORE -> was_page_executed (smc s) pa = false) ->
           translate type va s' = Ret ((mem_ok, pa), s')))
   | Ret None => translate_impl type va s = fault
   | Throw e => translate_impl type va s = Throw e
   | Undef => translate_impl type va s = Undef
   end).
Proof.

  intros Hm Hva h md root fault.
  assert (sv39_root s = root /\ 0 <= root < 2 ^ 63) as [Er Hroot].
  { unfold sv39_root, root, getf, bf_get, PAGE_SIZE. cbn [bf_lo bf_len Satp.ppn].
    rewrite Z.shiftr_0_r, Z.land_ones by done. fold h.
    pose proof (Z.mod_pos_bound (satp h) (2 ^ 44)). split; [apply uN_id; split|]; lia. }
  assert (fault = Ret ((mkMem false (AccessType_to_Fault type) va, 0), s)) as Ef by (by destruct type).
  pose proof (translate_impl_spec s type va Hm) as Hspec. cbv zeta in Hspec. fold h in Hspec.
  rewrite access_mode_arch, <- Ef in Hspec. fold md in Hspec.
  split_and!.
  - intros r addr Hr Hb Hs. by apply (pte_fetch_load _ r).
  - intros Hc. destruct (Sv39.isvalid va) eqn:Hv; [|done]. by destruct Hc; apply isvalid_arch.
  - intros Hc%isvalid_arch. rewrite Hc, Er in Hspec.
    eexists. split; [by apply walk_walks|].
    destruct (walk (mmap s) va 2 root) as [[[[addr p] l]|]|e|] eqn:Ew; try done.
    rewrite <- Er in Ew.
    pose proof (walk_leaf _ _ _ _ _ _ _ (table_aligned _) Ew) as (_ & _ & Hi & _).
    rewrite <- (Z2Nat.id l) in Hspec, Ew by lia. set (i := Z.to_nat l) in *. clearbody i. clear l Hi.
    split; [intros Hno; apply Hspec; by rewrite allows_arch|].
    intros Ha. pose proof (proj1 Ha) as Hal.
    apply allows_arch in Ha as Hb. unfold md in Hb. rewrite <- access_mode_arch in Hb.
    apply leaf_allowed_arch in Hb; [|lia].
    destruct (translate_impl_ok s type va addr p _ Hm Hc Ew Hb)
      as (m' & Hst & Hm' & Hl & Hw' & Hno & Hf & Hd).
    rewrite leaf_pa_arch in Hst by done.
    eexists _, (ad_update type p), _, m'. split; [exact Hst|].
    split_and!; try done.
    + apply ad_update_arch.
    + intros Eu. apply Hno. rewrite <- Eu. apply ad_update_done.
    + pose proof (walk_walks m' va 2 root Hroot) as Hw. rewrite <- Er, Hw', Nat2Z.id in Hw.
      by rewrite <- Er.
    + intros Hmd Hbare Hx. apply (translate_impl_again s); try done. by rewrite access_mode_arch.
Qed.
End translate.
