(* ===== verification/Mmio.v ===== *)
(** * Memory controller ([include/mmio.hpp], [src/mmio.cpp])

    Loads and stores of a hart: translation, the RAM fast path, the dispatch
    to the device whose range covers the access, and accesses that cross a
    page boundary, which are split into two fragments. [isphys] accesses
    skip translation. The cached pointer [direct_ram] is the array of
    [get_ram_direct()]. *)

From S2P Require Import Prelude Defs MemoryMap SelfMod Tlb Hart State Mmu.

(** The access sizes of the [switch]: a fragment of another size falls
    through it. *)
Definition is_size (sz : MemorySize) : bool :=
  (sz =? Byte) || (sz =? Short) || (sz =? Int) || (sz =? Long).

(** [paddr >= 0x80000000 && paddr <= end - access_size]. *)
Definition in_dram (memsz paddr access_size : Z) : bool :=
  (RAM_BASE <=? paddr) && (paddr <=? u64 (u64 (RAM_BASE + memsz) - access_size)).

(** The first device whose range covers the access. *)
Fixpoint find_dev (devs : list (Z * Z)) (k : nat) (paddr access_size : Z) : option nat :=
  match devs with
  | [] => None
  | (start, sz) :: devs' =>
      if (start <=? paddr) && (paddr <=? u64 (u64 (start + sz) - access_size)) then Some k
      else find_dev devs' (S k) paddr access_size
  end.

Section mmio.
Context {B : Type} `{BusOps B}.

Definition read_dram_fast (paddr : Z) (sz : MemorySize) : M B Z :=
  on_mem (fun m =>
    _ ← deref m (ram_direct m);
    if is_size sz then ram_read m (paddr - RAM_BASE) (Z.to_nat sz) else Ret 0).

Definition write_dram_fast (paddr : Z) (sz : MemorySize) (val : Z) : M B unit :=
  _ ← on_mem (fun m => deref m (ram_direct m));
  _ ← modify (fun s => set_smc (smc_store_hit (smc s) paddr) s);
  if is_size sz then upd_mem (fun m => ram_write m (paddr - RAM_BASE) (Z.to_nat sz) val)
  else mret tt.

(** One access at a physical address: RAM, then the devices; [false] when
    neither covers it. *)
Definition phys_write (paddr : Z) (sz : MemorySize) (val : Z) : M B bool :=
  s ← get_st;
  if in_dram (mmio_memsize s) paddr sz then
    _ ← mod_hart (amo_check_reservation paddr);
    _ ← write_dram_fast paddr sz val;
    mret true
  else match find_dev (dev_ranges (bus s)) 0 paddr sz with
       | Some k =>
           _ ← mod_hart (amo_check_reservation paddr);
           _ ← dev_write k paddr sz val;
           mret true
       | None => mret false
       end.

Definition phys_read (paddr : Z) (sz : MemorySize) : M B (option Z) :=
  s ← get_st;
  if in_dram (mmio_memsize s) paddr sz then v ← read_dram_fast paddr sz; mret (Some v)
  else match find_dev (dev_ranges (bus s)) 0 paddr sz with
       | Some k => v ← dev_read k paddr sz; mret (Some v)
       | None => mret None
       end.

(** [!isphys && satp.mode != 0 && (addr & 0xFFF) + access_size > 0x1000]. *)
Definition cross_page (h : Hart) (isphys : bool) (addr : Z) (sz : MemorySize) : bool :=
  negb isphys && negb (getf (satp h) Satp.mode =? 0) && (0x1000 <? Z.land addr 0xFFF + sz).

Definition mem_fault (code tval : Z) : MemoryReturn := mkMem false code tval.

Definition write (addr : Z) (sz : MemorySize) (val : Z) (isphys : bool) : M B MemoryReturn :=
  h ← gets hart;
  if negb (cross_page h isphys addr sz) then
    '(res, paddr) ← (if isphys then mret (mem_ok, addr) else translate STORE addr);
    if negb (mr_success res) then mret res else
    handled ← phys_write paddr sz val;
    mret (if (handled : bool) then mem_ok else mem_fault EXC_STORE_ACCESS_FAULT addr)
  else
    let first_size := 0x1000 - Z.land addr 0xFFF in
    let second_size := u64 (sz - first_size) in
    '(first_res, first_paddr) ← translate STORE addr;
    if negb (mr_success first_res) then mret first_res else
    '(second_res, second_paddr) ← translate STORE (u64 (addr + first_size));
    if negb (mr_success second_res) then mret second_res else
    let first_val := Z.land val (Z.shiftl 1 (first_size * 8) - 1) in
    handled ← phys_write first_paddr first_size first_val;
    if negb handled then mret (mem_fault EXC_STORE_ACCESS_FAULT addr) else
    let second_val := Z.shiftr val (first_size * 8) in
    handled ← phys_write second_paddr second_size second_val;
    if negb handled then mret (mem_fault EXC_STORE_ACCESS_FAULT (u64 (addr + first_size)))
    else mret mem_ok.

(** [read]: the second component is what is written to [*val], truncated to
    the size; it is meaningful when the access succeeds. *)
Definition read (addr : Z) (sz : MemorySize) (isphys : bool) : M B (MemoryReturn * Z) :=
  h ← gets hart;
  if negb (cross_page h isphys addr sz) then
    '(res, paddr) ← (if isphys then mret (mem_ok, addr) else translate LOAD addr);
    if negb (mr_success res) then mret (res, 0) else
    out ← phys_read paddr sz;
    mret (match out with
          | Some out => (mem_ok, uN (8 * sz) out)
          | None => (mem_fault EXC_LOAD_ACCESS_FAULT addr, 0)
          end)
  else
    let first_size := 0x1000 - Z.land addr 0xFFF in
    let second_size := u64 (sz - first_size) in
    '(first_res, first_paddr) ← translate LOAD addr;
    if negb (mr_success first_res) then mret (first_res, 0) else
    '(second_res, second_paddr) ← translate LOAD (u64 (addr + first_size));
    if negb (mr_success second_res) then mret (second_res, 0) else
    first ← phys_read first_paddr first_size;
    match first with
    | None => mret (mem_fault EXC_LOAD_ACCESS_FAULT addr, 0)
    | Some first_out =>
        second ← phys_read second_paddr second_size;
        match second with
        | None => mret (mem_fault EXC_LOAD_ACCESS_FAULT (u64 (addr + first_size)), 0)
        | Some second_out =>
            let out := Z.lor first_out (u64 (Z.shiftl second_out (first_size * 8))) in
            mret (mem_ok, uN (8 * sz) out)
        end
    end.
End mmio.

(** ** RAM behind the controller *)

(** The RAM region starts at [0x80000000] and has the size the controller and
    the hart were created with. *)
Definition dram_ok {B} (s : State B) : Prop :=
  wf_mmap (mmap s) /\ mmio_memsize s <= 2 ^ 62 /\
  exists i r, ram_direct (mmap s) = Some i /\ regions (mmap s) !! i = Some r /\
    base_addr r = RAM_BASE /\ size r = mmio_memsize s.

Definition dram_layout {B} (s s' : State B) : Prop :=
  layout (mmap s') = layout (mmap s) /\ mmio_memsize s' = mmio_memsize s /\
  (wf_mmap (mmap s) -> wf_mmap (mmap s')).

#[global] Instance dram_layout_preorder {B} : PreOrder (@dram_layout B).
Proof.
  split; [done|]. intros s1 s2 s3 (E1 & F1 & G1) (E2 & F2 & G2). split; [congruence|]. split; [congruence|auto].
Qed.

Lemma dram_ok_layout {B} (s s' : State B) : dram_layout s s' -> dram_ok s -> dram_ok s'.
Proof.
  intros (Hl & Hz & Hw) (Hm & Hsz & i & r & Hi & Hr & Hb & Hs).
  pose proof Hl as [= Hrs Hd]. split_and!; [by apply Hw|by rewrite Hz|].
  apply (f_equal (fun l => l !! i)) in Hrs. rewrite !list_lookup_fmap, Hr in Hrs.
  destruct (regions (mmap s') !! i) as [r'|] eqn:E'; [|done]. injection Hrs as Hb' Hs'.
  exists i, r'. split_and!; congruence.
Qed.

Lemma tr_frame_layout {B} (s s' : State B) : tr_frame s s' -> dram_layout s s'.
Proof. intros (t & m & -> & _ & ? & ?). by split_and!. Qed.

Lemma is_size_range sz : is_size sz = true ->
  1 <= sz <= 8 /\ Z.of_nat (Z.to_nat sz) = sz.
Proof. unfold is_size, Byte, Short, Int, Long. intros. rewrite !orb_true_iff, !Z.eqb_eq in *. lia. Qed.

Lemma in_dram_range memsz pa sz : 0 <= memsz <= 2 ^ 62 -> 0 <= sz <= 8 ->
  in_dram memsz pa sz = true <-> 0 <= pa - RAM_BASE /\ pa - RAM_BASE + sz <= memsz.
Proof.
  intros Hm Hs. unfold in_dram, RAM_BASE in *.
  rewrite (uN_id 64 (_ + memsz)), (uN_id 64 (_ - sz)) by (unfold inw; lia).
  rewrite andb_true_iff, !Z.leb_le. lia.
Qed.

(** Reading and writing the array behind [ram_direct]. *)
Lemma ram_read_region m i r off n : ram_direct m = Some i -> regions m !! i = Some r ->
  ram_read m off n = reg_read r off n.
Proof. intros Hi Hr. unfold ram_read, deref. rewrite Hi. cbn. by rewrite Hr. Qed.

Lemma ram_write_spec m i r off n v : wf_mmap m -> ram_direct m = Some i -> regions m !! i = Some r ->
  0 <= off -> off + Z.of_nat n <= size r ->
  exists m', ram_write m off n v = Ret m' /\ layout m' = layout m /\ wf_mmap m' /\
    ram_read m' off n = Ret (uN (8 * Z.of_nat n) v) /\
    (forall off' n', off' + Z.of_nat n' <= off \/ off + Z.of_nat n <= off' ->
       ram_read m' off' n' = ram_read m off' n').
Proof.
  intros Hm Hi Hr H0 H1.
  assert (in_array r off n = true) as Hin by (unfold in_array; lia).
  destruct (reg_write r off n v) as [r'|e|] eqn:Ew; [|by unfold reg_write in Ew; rewrite Hin in Ew..].
  exists (set_region m (Some i) r'). split.
  { unfold ram_write, deref. rewrite Hi. cbn [mbind option_bind]. rewrite Hr.
    cbn [mbind outcome_bind]. by rewrite Ew. }
  assert (wf_region r) as Hwr by (eapply Forall_lookup_1; [apply Hm|done]).
  pose proof (reg_write_wf _ _ _ _ _ Hwr Ew). apply reg_write_ret in Ew as (_ & Hb & Hs & Hd).
  assert (regions (set_region m (Some i) r') !! i = Some r') as Hr'.
  { apply list_lookup_insert_eq. by eapply lookup_lt_Some. }
  split_and!; [by apply (set_region_layout m i r r')|by apply (set_region_wf m i r')|..].
  - rewrite (ram_read_region _ i r') by done. unfold reg_read, in_array in *.
    by rewrite Hs, Hin, Hd, le_read_write_same.
  - intros off' n' Hdis. rewrite (ram_read_region _ i r'), (ram_read_region m i r) by done.
    unfold reg_read, in_array. by rewrite Hs, Hd, le_read_write_disj by lia.
Qed.

Section dram.
Context {B : Type} `{BusOps B}.

(** What is at [sz] bytes of RAM from [pa]. *)
Definition dram (s : State B) (pa sz : Z) : outcome Z :=
  ram_read (mmap s) (pa - RAM_BASE) (Z.to_nat sz).

Lemma deref_ram m i r : ram_direct m = Some i -> regions m !! i = Some r ->
  deref m (ram_direct m) = Ret r.
Proof. intros Hi Hr. unfold deref. rewrite Hi. cbn. by rewrite Hr. Qed.

Lemma dram_region (s : State B) : dram_ok s -> exists i r,
  ram_direct (mmap s) = Some i /\ regions (mmap s) !! i = Some r /\ wf_region r /\
  size r = mmio_memsize s /\ 0 <= mmio_memsize s <= 2 ^ 62.
Proof.
  intros (Hm & Hsz & i & r & Hi & Hr & Hb & Hs). exists i, r.
  assert (wf_region r) as Hwr by (eapply Forall_lookup_1; [apply Hm|done]).
  destruct Hwr as (? & Hsr & ?). split_and!; try done. destruct Hsr. lia.
Qed.

Lemma phys_read_dram s pa sz : dram_ok s -> is_size sz = true ->
  in_dram (mmio_memsize s) pa sz = true ->
  exists v, dram s pa sz = Ret v /\ phys_read pa sz s = Ret (Some v, s).
Proof.
  intros Hd Hz Hin. destruct (dram_region s Hd) as (i & r & Hi & Hr & Hwr & Hs & Hsz).
  pose proof (is_size_range sz Hz) as [? Hn].
  pose proof Hin as Hrng. apply in_dram_range in Hrng; [|done|lia].
  unfold phys_read, dram, read_dram_fast, on_mem. cbv [mbind ST_bind get_st].
  rewrite Hin, Hz, (deref_ram _ i r), (ram_read_region _ i r) by done. cbn [outcome_bind].
  unfold reg_read, in_array. rewrite Hn.
  rewrite (proj2 (Z.leb_le 0 _)), (proj2 (Z.leb_le _ (size r))) by lia. cbn. eauto.
Qed.

Lemma phys_write_dram s pa sz val : dram_ok s -> is_size sz = true ->
  in_dram (mmio_memsize s) pa sz = true ->
  exists s', phys_write pa sz val s = Ret (true, s') /\ dram_layout s s' /\
    hart s' = amo_check_reservation pa (hart s) /\ bus s' = bus s /\
    dram s' pa sz = Ret (uN (8 * sz) val) /\
    (forall pa' sz', 0 <= sz' -> pa' + sz' <= pa \/ pa + sz <= pa' -> dram s' pa' sz' = dram s pa' sz').
Proof.
  intros Hd Hz Hin. destruct (dram_region s Hd) as (i & r & Hi & Hr & Hwr & Hs & Hsz).
  pose proof (is_size_range sz Hz) as [? Hn].
  pose proof Hin as Hrng. apply in_dram_range in Hrng; [|done|lia].
  destruct (ram_write_spec (mmap s) i r (pa - RAM_BASE) (Z.to_nat sz) val (proj1 Hd) Hi Hr)
    as (m' & Hw & Hl & Hm' & Hsame & Hdis); [lia|lia|].
  unfold phys_write, write_dram_fast, on_mem, upd_mem, mod_hart, modify. cbv [mbind ST_bind get_st].
  rewrite Hin. cbn [mmap set_hart]. rewrite (deref_ram _ i r) by done. cbn [outcome_bind].
  rewrite Hz. cbn [mmap set_hart set_smc]. rewrite Hw. eexists. split; [done|].
  unfold dram. cbn [mmap set_mmap hart set_hart set_smc bus]. rewrite Hn in Hsame, Hdis.
  split_and!; try done.
  intros pa' sz' Hp Hdj. apply Hdis. rewrite Z2Nat.id by done. lia.
Qed.

(** A store that does not cross a page, to an address that translates
    into RAM, succeeds, and the bytes at its physical address are then the
    low bytes of the value, so a physical read returns them; no other byte of
    RAM is changed by it beyond the translation's. *)
Lemma write_dram (s s1 : State B) addr sz val isphys pa :
  dram_ok s -> is_size sz = true -> inw 64 addr -> cross_page (hart s) isphys addr sz = false ->
  (if isphys then mret (mem_ok, addr) else translate STORE addr) s = Ret ((mem_ok, pa), s1) ->
  in_dram (mmio_memsize s) pa sz = true ->
  exists s', write addr sz val isphys s = Ret (mem_ok, s') /\ dram_ok s' /\
    phys_read pa sz s' = Ret (Some (uN (8 * sz) val), s') /\
    (forall pa' sz', 0 <= sz' -> pa' + sz' <= pa \/ pa + sz <= pa' -> dram s' pa' sz' = dram s1 pa' sz').
Proof.
  intros Hd Hz Ha Hc Htr Hin.
  assert (dram_layout s s1) as Hl1.
  { destruct isphys; [injection Htr as <- <-; by split_and!|].
    apply tr_frame_layout. eapply translate_frame; [apply Hd|exact Ha|exact Htr]. }
  pose proof (dram_ok_layout _ _ Hl1 Hd) as Hd1. pose proof Hl1 as (_ & Hsz & _).
  destruct (phys_write_dram s1 pa sz val Hd1 Hz) as (s' & Hw & Hl & _ & _ & Hsame & Hdis);
    [by rewrite Hsz|].
  exists s'. pose proof (dram_ok_layout _ _ Hl Hd1) as Hd'. split_and!; try done.
  - unfold write. cbv [mbind ST_bind gets]. rewrite Hc. cbn [negb]. rewrite Htr. cbn [mem_ok mr_success negb].
    by rewrite Hw.
  - destruct (phys_read_dram s' pa sz Hd' Hz) as (v & Hv & ->); [|congruence].
    destruct Hl as (_ & -> & _). by rewrite Hsz.
Qed.

(** A fragment whose size is none of the four is accepted and dropped. *)
Lemma phys_write_dropped s pa sz val : dram_ok s -> is_size sz = false ->
  in_dram (mmio_memsize s) pa sz = true ->
  exists s', phys_write pa sz val s = Ret (true, s') /\ mmap s' = mmap s /\
    mmio_memsize s' = mmio_memsize s.
Proof.
  intros Hd Hz Hin. destruct (dram_region s Hd) as (i & r & Hi & Hr & _).
  unfold phys_write, write_dram_fast, on_mem, upd_mem, mod_hart, modify. cbv [mbind ST_bind get_st].
  rewrite Hin. cbn [mmap set_hart]. rewrite (deref_ram _ i r) by done. cbn [outcome_bind].
  rewrite Hz. by eexists.
Qed.

Lemma low_high_join val fs sz : 0 <= fs <= sz ->
  Z.lor (uN (8 * fs) (Z.land val (Z.shiftl 1 (fs * 8) - 1)))
        (Z.shiftl (uN (8 * (sz - fs)) (Z.shiftr val (fs * 8))) (fs * 8)) = uN (8 * sz) val.
Proof.
  intros. rewrite Z.shiftl_1_l, Z.sub_1_r, <- Z.ones_equiv. zbits j.
  zcases; rewrite ?andb_true_r, ?orb_false_r; try done; f_equal; lia.
Qed.

Section cross.
Context (s s1 s2 : State B) (addr sz val p1 p2 : Z).
Let fs := 0x1000 - Z.land addr 0xFFF.
Let ss := sz - fs.
Hypothesis Hd : dram_ok s.
Hypothesis Ha : inw 64 addr.
Hypothesis Hsz : is_size sz = true.
Hypothesis Hc : cross_page (hart s) false addr sz = true.
Hypothesis Htr1 : translate STORE addr s = Ret ((mem_ok, p1), s1).
Hypothesis Htr2 : translate STORE (u64 (addr + fs)) s1 = Ret ((mem_ok, p2), s2).
Hypothesis Hin1 : in_dram (mmio_memsize s) p1 fs = true.
Hypothesis Hin2 : in_dram (mmio_memsize s) p2 ss = true.

Lemma cross_sizes : 0 < fs < sz /\ u64 (sz - fs) = ss.
Proof.
  unfold cross_page in Hc. pose proof (is_size_range sz Hsz) as [? _].
  apply andb_true_iff in Hc as [_ Hlt]. apply Z.ltb_lt in Hlt.
  pose proof (Z.mod_pos_bound addr 4096) as Hb. fold fs in Hlt.
  change 0xFFF with (Z.ones 12) in *. rewrite Z.land_ones in * by lia.
  change (2 ^ 12) with 4096 in *. unfold ss, fs in *. change 0xFFF with (Z.ones 12).
  rewrite Z.land_ones by lia. change (2 ^ 12) with 4096. split; [lia|]. apply uN_id. split; lia.
Qed.

Lemma cross_frame : dram_ok s2 /\ mmio_memsize s2 = mmio_memsize s.
Proof.
  pose proof (translate_frame _ _ _ _ _ _ (proj1 Hd) Ha Htr1) as [F1%tr_frame_layout _].
  pose proof (dram_ok_layout _ _ F1 Hd) as Hd1.
  pose proof (translate_frame _ _ _ _ _ _ (proj1 Hd1) (uN_inw 64 _ ltac:(lia)) Htr2) as [F2%tr_frame_layout _].
  split; [by apply (dram_ok_layout s1)|]. destruct F1 as (_ & ? & _), F2 as (_ & ? & _). congruence.
Qed.

(** The crossing path of [write] once both pages are translated. *)
Lemma write_cross_eq :
  write addr sz val false s =
  (handled ← phys_write p1 fs (Z.land val (Z.shiftl 1 (fs * 8) - 1));
   if negb handled then mret (mem_fault EXC_STORE_ACCESS_FAULT addr) else
   handled ← phys_write p2 ss (Z.shiftr val (fs * 8));
   if negb handled then mret (mem_fault EXC_STORE_ACCESS_FAULT (u64 (addr + fs)))
   else mret mem_ok) s2.
Proof.
  pose proof cross_sizes as [_ Es].
  unfold write. cbv [mbind ST_bind gets]. rewrite Hc. cbn [negb]. rewrite Htr1. cbn [mem_ok mr_success negb].
  unfold fs in *. rewrite Htr2, Es. done.
Qed.

(** A store that crosses a page whose two fragments have legal sizes
    puts the low bytes of the value at the end of the first page and the rest
    at the start of the second, wherever the two pages are; put together they
    are the value. *)
Lemma write_cross_page : is_size fs = true -> is_size ss = true ->
  p1 + fs <= p2 \/ p2 + ss <= p1 ->
  exists s' v1 v2, write addr sz val false s = Ret (mem_ok, s') /\ dram_ok s' /\
    dram s' p1 fs = Ret v1 /\ dram s' p2 ss = Ret v2 /\
    Z.lor v1 (Z.shiftl v2 (fs * 8)) = uN (8 * sz) val /\
    (forall pa' n, 0 <= n -> pa' + n <= p1 \/ p1 + fs <= pa' -> pa' + n <= p2 \/ p2 + ss <= pa' ->
       dram s' pa' n = dram s2 pa' n).
Proof.
  intros Hz1 Hz2 Hdis. destruct cross_frame as [Hd2 Em]. pose proof cross_sizes as [Hfs _].
  destruct (phys_write_dram s2 p1 fs (Z.land val (Z.shiftl 1 (fs * 8) - 1)) Hd2 Hz1)
    as (s3 & Hw1 & L1 & _ & _ & Hs1 & Ho1); [by rewrite Em|].
  pose proof (dram_ok_layout _ _ L1 Hd2) as Hd3. pose proof L1 as (_ & Em3 & _).
  destruct (phys_write_dram s3 p2 ss (Z.shiftr val (fs * 8)) Hd3 Hz2)
    as (s4 & Hw2 & L2 & _ & _ & Hs2 & Ho2); [by rewrite Em3, Em|].
  exists s4. eexists _, _. rewrite write_cross_eq. cbv [mbind ST_bind]. rewrite Hw1. cbn [negb].
  rewrite Hw2. cbn [negb]. split_and!; try done.
  - by apply (dram_ok_layout s3).
  - rewrite Ho2, Hs1 by lia. done.
  - apply low_high_join. lia.
  - intros pa' n Hn D1 D2. rewrite Ho2, Ho1 by done. done.
Qed.

(** When neither fragment has one of the four legal sizes (a doubleword
    at page offset [0xFFB] or [0xFFD]) the store reports success and writes
    nothing. *)
Lemma write_cross_page_lost : is_size fs = false -> is_size ss = false ->
  exists s', write addr sz val false s = Ret (mem_ok, s') /\ mmap s' = mmap s2.
Proof.
  intros Hz1 Hz2. destruct cross_frame as [Hd2 Em].
  destruct (phys_write_dropped s2 p1 fs (Z.land val (Z.shiftl 1 (fs * 8) - 1)) Hd2 Hz1)
    as (s3 & Hw1 & E1 & M1); [by rewrite Em|].
  assert (dram_ok s3) as Hd3.
  { apply (dram_ok_layout s2); [|done]. unfold dram_layout. by rewrite E1, M1. }
  destruct (phys_write_dropped s3 p2 ss (Z.shiftr val (fs * 8)) Hd3 Hz2)
    as (s4 & Hw2 & E2 & _); [by rewrite M1, Em|].
  exists s4. rewrite write_cross_eq. cbv [mbind ST_bind]. rewrite Hw1. cbn [negb].
  rewrite Hw2. cbn [negb]. split; [done|congruence].
Qed.

(** A store that crosses a page writes both fragments, at the two
    translated addresses and nowhere else, when the fragments have sizes 1, 2,
    4 or 8; when they have not, it reports success and writes nothing. *)
Lemma write_crossing :
  (is_size fs = true -> is_size ss = true ->
  p1 + fs <= p2 \/ p2 + ss <= p1 ->
  exists s' v1 v2, write addr sz val false s = Ret (mem_ok, s') /\ dram_ok s' /\
    dram s' p1 fs = Ret v1 /\ dram s' p2 ss = Ret v2 /\
    Z.lor v1 (Z.shiftl v2 (fs * 8)) = uN (8 * sz) val /\
    (forall pa' n, 0 <= n -> pa' + n <= p1 \/ p1 + fs <= pa' -> pa' + n <= p2 \/ p2 + ss <= pa' ->
       dram s' pa' n = dram s2 pa' n)) /\
  (is_size fs = false -> is_size ss = false ->
  exists s', write addr sz val false s = Ret (mem_ok, s') /\ mmap s' = mmap s2).
Proof. exact (conj write_cross_page write_cross_page_lost). Qed.
End cross.
End dram.

(** ** Type invariant *)

Section mmio_wf.
Context {B : Type} `{BusLaws B}.

Lemma fault_code_ok type : 0 <= AccessType_to_Fault type < 16.
Proof. by destruct type. Qed.

Lemma translate_framed type va : inw 64 va ->
  framed (B := B) (translate type va) (fun r => mem_ret_ok (fst r) /\ inw 64 (snd r)).
Proof.
  intros Hva x h s [[[Hh Hm] Hx] Ha]. destruct (translate type va s) as [[[r pa] s']|e|] eqn:E; [|done..].
  pose proof (translate_frame _ _ _ _ _ _ Hm Hva E) as ((t & m & -> & Ht & Hwm & _) & Hpa & Hr).
  pose proof (wf_tlb _ Hh). split_and!.
  - split; [|done]. split; [by apply set_tlb_wf; [|apply Ht]|by apply Hwm].
  - exact Ha.
  - destruct Hr as [-> | ->]; [apply mem_ok_ret|]. split; [apply fault_code_ok|done].
  - by apply Hpa.
Qed.

Lemma keeps_on_mem {A} (f : MemoryMap -> outcome A) : keeps (B := B) (on_mem f) (fun _ => True).
Proof. intros x s Hs. unfold on_mem. by destruct (f (mmap s)). Qed.

Lemma ram_write_wf m off n v m' : wf_mmap m -> ram_write m off n v = Ret m' -> wf_mmap m'.
Proof.
  intros Hm Hw. unfold ram_write in Hw.
  destruct (deref m (ram_direct m)) as [r|e|] eqn:Er; [|done..]. cbn [mbind outcome_bind] in Hw.
  destruct (reg_write r off n v) as [r'|e|] eqn:Ew; [|done..]. cbn [mbind outcome_bind] in Hw.
  apply deref_wf in Er as (i & Hi & _ & Hr); [|done]. rewrite Hi in Hw. injection Hw as <-.
  apply set_region_wf; [done|]. by eapply reg_write_wf.
Qed.

Lemma keeps_upd_mem (f : MemoryMap -> outcome MemoryMap) :
  (forall m m', wf_mmap m -> f m = Ret m' -> wf_mmap m') ->
  keeps (B := B) (upd_mem f) (fun _ => True).
Proof.
  intros Hf x s [[Hh Hm] Hx]. unfold upd_mem. destruct (f (mmap s)) as [m'| |] eqn:E; [|done..].
  split; [|done]. split; [|done]. split; [done|by eapply Hf].
Qed.

Lemma bus_frame_arch (s s' : State B) h : bus_frame s s' -> same_arch h (hart s) -> same_arch h (hart s').
Proof. intros ((p & t & _ & _ & ->) & _) Ha. exact Ha. Qed.

Lemma framed_dev_write k a sz v : framed (B := B) (dev_write k a sz v) (fun _ => True).
Proof.
  intros x h s [[Hs Hx] Ha]. destruct (dev_write k a sz v s) as [[[] s']|e|] eqn:E; [|done..].
  assert (bus_frame s s') as Hf by (eapply dev_write_frame; [apply Hs|done]).
  split; [|done]. split; [|by eapply bus_frame_arch]. split; [by eapply bus_frame_wf|].
  destruct Hf as (_ & _ & _ & _ & ->). done.
Qed.

Lemma framed_dev_read k a sz : framed (B := B) (dev_read k a sz) (fun _ => True).
Proof.
  intros x h s [[Hs Hx] Ha]. destruct (dev_read k a sz s) as [[v s']|e|] eqn:E; [|done..].
  assert (bus_frame s s') as Hf by (eapply dev_read_frame; [apply Hs|done]).
  split; [|done]. split; [|by eapply bus_frame_arch]. split; [by eapply bus_frame_wf|].
  destruct Hf as (_ & _ & _ & _ & ->). done.
Qed.

Lemma framed_on_mem {A} (f : MemoryMap -> outcome A) : framed (B := B) (on_mem f) (fun _ => True).
Proof.
  apply framed_hart; [apply keeps_on_mem|]. intros s a s'. unfold on_mem.
  destruct (f (mmap s)); [|done..]. by intros [= _ <-].
Qed.

Lemma framed_upd_mem (f : MemoryMap -> outcome MemoryMap) :
  (forall m m', wf_mmap m -> f m = Ret m' -> wf_mmap m') -> framed (B := B) (upd_mem f) (fun _ => True).
Proof.
  intros Hf. apply framed_hart; [by apply keeps_upd_mem|]. intros s a s'. unfold upd_mem.
  destruct (f (mmap s)); [|done..]. by intros [= _ <-].
Qed.

Lemma amo_framed pa : framed (B := B) (mod_hart (amo_check_reservation pa)) (fun _ => True).
Proof.
  apply framed_mod_hart; [auto with rvw|]. intros h. unfold amo_check_reservation.
  by destruct (_ && _)%bool.
Qed.

Lemma phys_write_framed pa sz v : framed (B := B) (phys_write pa sz v) (fun _ => True).
Proof.
  fbind; [by apply framed_get_st|]. intros s _. apply framed_if; intros _.
  - fbind; [apply amo_framed|]. intros [] _.
    fbind; [|by intros; apply framed_ret].
    fbind; [apply framed_on_mem|]. intros r _.
    fbind; [by intros x h s' [[? ?] ?]|]. intros [] _.
    apply framed_if; intros _; [|by apply framed_ret].
    apply framed_upd_mem. intros m m' Hm Hw. by eapply ram_write_wf.
  - destruct (find_dev _ _ _ _); [|by apply framed_ret].
    fbind; [apply amo_framed|]. intros [] _.
    fbind; [apply framed_dev_write|]. by intros; apply framed_ret.
Qed.

Lemma phys_read_framed pa sz : framed (B := B) (phys_read pa sz) (fun _ => True).
Proof.
  fbind; [by apply framed_get_st|]. intros s _. apply framed_if; intros _.
  - fbind; [apply framed_on_mem|]. by intros; apply framed_ret.
  - destruct (find_dev _ _ _ _); [|by apply framed_ret].
    fbind; [apply framed_dev_read|]. by intros; apply framed_ret.
Qed.

Lemma mem_fault_ok c t : 0 <= c < 16 -> inw 64 t -> mem_ret_ok (mem_fault c t).
Proof. done. Qed.

Lemma write_framed addr sz v isphys : inw 64 addr ->
  framed (B := B) (write addr sz v isphys) mem_ret_ok.
Proof.
  intros Ha. fbind; [by apply framed_gets|]. intros h _.
  pose proof mem_ok_ret. assert (forall t, inw 64 t -> mem_ret_ok (mem_fault EXC_STORE_ACCESS_FAULT t)) as Hf
    by (intros; by apply mem_fault_ok).
  pose proof (uN_inw 64 (addr + (0x1000 - Z.land addr 0xFFF)) ltac:(lia)).
  apply framed_if; intros _.
  - apply (framed_bind _ _ (fun r => mem_ret_ok (fst r) /\ inw 64 (snd r))).
    { destruct isphys; [by apply framed_ret|by apply translate_framed]. }
    intros [res pa] [Hr Hpa]. apply framed_if; intros _; [by apply framed_ret|].
    fbind; [apply phys_write_framed|]. intros [] _; apply framed_ret; auto.
  - apply (framed_bind _ _ (fun r => mem_ret_ok (fst r) /\ inw 64 (snd r))); [by apply translate_framed|].
    intros [r1 p1] [Hr1 Hp1]. apply framed_if; intros _; [by apply framed_ret|].
    apply (framed_bind _ _ (fun r => mem_ret_ok (fst r) /\ inw 64 (snd r))); [by apply translate_framed|].
    intros [r2 p2] [Hr2 Hp2]. apply framed_if; intros _; [by apply framed_ret|].
    fbind; [apply phys_write_framed|]. intros b1 _. apply framed_if; intros _; [apply framed_ret; auto|].
    fbind; [apply phys_write_framed|]. intros b2 _. apply framed_if; intros _; apply framed_ret; auto.
Qed.

Lemma read_framed addr sz isphys : inw 64 addr -> is_size sz = true ->
  framed (B := B) (read addr sz isphys) (fun r => mem_ret_ok (fst r) /\ inw (8 * sz) (snd r)).
Proof.
  intros Ha Hsz. fbind; [by apply framed_gets|]. intros h _.
  pose proof (is_size_range sz Hsz) as [Hs _].
  pose proof mem_ok_ret. assert (forall t, inw 64 t -> mem_ret_ok (mem_fault EXC_LOAD_ACCESS_FAULT t)) as Hf
    by (intros; by apply mem_fault_ok).
  pose proof (uN_inw 64 (addr + (0x1000 - Z.land addr 0xFFF)) ltac:(lia)).
  assert (forall v, inw (8 * sz) (uN (8 * sz) v)) as Hv by (intros; apply uN_inw; lia).
  assert (inw (8 * sz) 0) as Hz0 by (apply inw_0; lia).
  apply framed_if; intros _.
  - apply (framed_bind _ _ (fun r => mem_ret_ok (fst r) /\ inw 64 (snd r))).
    { destruct isphys; [by apply framed_ret|by apply translate_framed]. }
    intros [res pa] [Hr Hpa]. apply framed_if; intros _; [by apply framed_ret|].
    fbind; [apply phys_read_framed|]. intros [v|] _; apply framed_ret; split; cbn [fst snd]; auto.
  - apply (framed_bind _ _ (fun r => mem_ret_ok (fst r) /\ inw 64 (snd r))); [by apply translate_framed|].
    intros [r1 p1] [Hr1 Hp1]. apply framed_if; intros _; [by apply framed_ret|].
    apply (framed_bind _ _ (fun r => mem_ret_ok (fst r) /\ inw 64 (snd r))); [by apply translate_framed|].
    intros [r2 p2] [Hr2 Hp2]. apply framed_if; intros _; [by apply framed_ret|].
    fbind; [apply phys_read_framed|]. intros [v1|] _; [|apply framed_ret; split; cbn [fst snd]; auto].
    fbind; [apply phys_read_framed|]. intros [v2|] _; apply framed_ret; split; cbn [fst snd]; auto.
Qed.

Lemma translate_keeps type va : inw 64 va ->
  keeps (B := B) (translate type va) (fun r => mem_ret_ok (fst r) /\ inw 64 (snd r)).
Proof. intros. by apply framed_keeps, translate_framed. Qed.

Lemma write_keeps addr sz v isphys : inw 64 addr -> keeps (B := B) (write addr sz v isphys) mem_ret_ok.
Proof. intros. by apply framed_keeps, write_framed. Qed.

Lemma read_keeps addr sz isphys : inw 64 addr -> is_size sz = true ->
  keeps (B := B) (read addr sz isphys) (fun r => mem_ret_ok (fst r) /\ inw (8 * sz) (snd r)).
Proof. intros. by apply framed_keeps, read_framed. Qed.
End mmio_wf.

(** ** Physical accesses *)

Section phys.
Context {B : Type} `{BusOps B}.

Lemma read_phys (s : State B) pa sz : dram_ok s -> is_size sz = true ->
  in_dram (mmio_memsize s) pa sz = true ->
  exists v, dram s pa sz = Ret v /\ inw (8 * sz) v /\ read pa sz true s = Ret ((mem_ok, v), s).
Proof.
  intros Hd Hz Hin. destruct (phys_read_dram s pa sz Hd Hz Hin) as (v & Hv & Hr). exists v.
  assert (inw (8 * sz) v) as Hw.
  { destruct (dram_region s Hd) as (i & r & Hi & Hr' & (_ & _ & Hwr) & _).
    unfold dram in Hv. rewrite (ram_read_region _ i r) in Hv by done. unfold reg_read in Hv.
    destruct (in_array r _ _); [|done]. simplify_eq.
    pose proof (is_size_range sz Hz) as [_ Hn]. rewrite <- Hn at 1. by apply le_read_inw. }
  split_and!; try done. unfold read. cbv [mbind ST_bind gets]. cbn [cross_page negb andb].
  cbn [mret ST_ret mr_success mem_ok negb]. rewrite Hr. cbn. by rewrite uN_id.
Qed.

Lemma write_phys (s : State B) pa sz val : dram_ok s -> is_size sz = true ->
  in_dram (mmio_memsize s) pa sz = true ->
  exists s', write pa sz val true s = Ret (mem_ok, s') /\ dram_layout s s' /\
    hart s' = amo_check_reservation pa (hart s) /\
    dram s' pa sz = Ret (uN (8 * sz) val) /\
    (forall pa' sz', 0 <= sz' -> pa' + sz' <= pa \/ pa + sz <= pa' -> dram s' pa' sz' = dram s pa' sz').
Proof.
  intros Hd Hz Hin. destruct (phys_write_dram s pa sz val Hd Hz Hin) as (s' & Hw & Hl & Hh & _ & Hs & Ho).
  exists s'. split_and!; try done. unfold write. cbv [mbind ST_bind gets]. cbn [cross_page negb andb].
  cbn [mret ST_ret mr_success mem_ok negb]. by rewrite Hw.
Qed.
End phys.
