(* ===== verification/Rv64i.v ===== *)
(** * Base integer instructions ([src/sets/rv64i.cpp])

    One definition per handler. The value a register instruction computes is
    the function [op_X] of its operands; [alu_rr] and [alu_ri] are the frame
    the handlers share: read the sources, write [GPR[rd]], move to the next
    instruction. *)

From Stdlib Require Import Strings.String.
From S2P Require Import Prelude Defs MemoryMap SelfMod Tlb Decode Hart State Mmu Mmio.

(** ** Register values *)

Definition op_ADDW (a b : Z) : Z := u64 (s32 (u32 (u32 a + u32 b))).
Definition op_SUBW (a b : Z) : Z := u64 (s32 (u32 (u32 a - u32 b))).
Definition op_SLLW (a b : Z) : Z := u64 (s32 (u32 (Z.shiftl (u32 a) (Z.land (u32 b) 0x1F)))).
Definition op_SRLW (a b : Z) : Z := u64 (s32 (Z.shiftr (u32 a) (Z.land (u32 b) 0x1F))).
Definition op_SRAW (a b : Z) : Z := u64 (s32 (Z.shiftr (s32 a) (Z.land (u32 b) 0x1F))).
Definition op_ADD (a b : Z) : Z := u64 (a + b).
Definition op_SUB (a b : Z) : Z := u64 (a - b).
Definition op_XOR (a b : Z) : Z := Z.lxor a b.
Definition op_OR (a b : Z) : Z := Z.lor a b.
Definition op_AND (a b : Z) : Z := Z.land a b.
Definition op_SLL (a b : Z) : Z := u64 (Z.shiftl a (Z.land b 0x3f)).
Definition op_SRL (a b : Z) : Z := Z.shiftr a (Z.land b 0x3f).
Definition op_SRA (a b : Z) : Z := u64 (Z.shiftr (s64 a) (Z.land b 0x3f)).
Definition op_SLT (a b : Z) : Z := b2z (s64 a <? s64 b).
Definition op_SLTU (a b : Z) : Z := b2z (a <? b).
Definition op_ADDIW (a im : Z) : Z := u64 (s32 (u64 (u32 a + im))).
Definition op_SLLIW (a im : Z) : Z := u64 (s32 (u32 (Z.shiftl (u32 a) im))).
Definition op_SRLIW (a im : Z) : Z := u64 (s32 (Z.shiftr (u32 a) im)).
Definition op_SRAIW (a im : Z) : Z := u64 (Z.shiftr (s32 a) im).
Definition op_ADDI (a im : Z) : Z := u64 (a + im).
Definition op_XORI (a im : Z) : Z := Z.lxor a im.
Definition op_ORI (a im : Z) : Z := Z.lor a im.
Definition op_ANDI (a im : Z) : Z := Z.land a im.
Definition op_SLLI (a im : Z) : Z := u64 (Z.shiftl a im).
Definition op_SRLI (a im : Z) : Z := Z.shiftr a im.
Definition op_SRAI (a im : Z) : Z := u64 (Z.shiftr (s64 a) im).
Definition op_SLTI (a im : Z) : Z := b2z (s64 a <? s64 im).
Definition op_SLTIU (a im : Z) : Z := b2z (a <? im).

Section rv64i.
Context {B : Type} `{BusOps B}.

(** [GPR[rd] = f(GPR[rs1], GPR[rs2])]. *)
Definition alu_rr (f : Z -> Z -> Z) (d : InstructionData) : M B ExecReturn :=
  a ← reg (rs1 d); b ← reg (rs2 d);
  _ ← setreg (rd d) (f a b);
  mret exec_ok.

(** [GPR[rd] = f(GPR[rs1], imm)]. *)
Definition alu_ri (f : Z -> Z -> Z) (d : InstructionData) : M B ExecReturn :=
  a ← reg (rs1 d);
  _ ← setreg (rd d) (f a (imm d));
  mret exec_ok.

Definition exec_ADDW : InstructionData -> M B ExecReturn := alu_rr op_ADDW.
Definition exec_SUBW : InstructionData -> M B ExecReturn := alu_rr op_SUBW.
Definition exec_SLLW : InstructionData -> M B ExecReturn := alu_rr op_SLLW.
Definition exec_SRLW : InstructionData -> M B ExecReturn := alu_rr op_SRLW.
Definition exec_SRAW : InstructionData -> M B ExecReturn := alu_rr op_SRAW.
Definition exec_ADD : InstructionData -> M B ExecReturn := alu_rr op_ADD.
Definition exec_SUB : InstructionData -> M B ExecReturn := alu_rr op_SUB.
Definition exec_XOR : InstructionData -> M B ExecReturn := alu_rr op_XOR.
Definition exec_OR : InstructionData -> M B ExecReturn := alu_rr op_OR.
Definition exec_AND : InstructionData -> M B ExecReturn := alu_rr op_AND.
Definition exec_SLL : InstructionData -> M B ExecReturn := alu_rr op_SLL.
Definition exec_SRL : InstructionData -> M B ExecReturn := alu_rr op_SRL.
Definition exec_SRA : InstructionData -> M B ExecReturn := alu_rr op_SRA.
Definition exec_SLT : InstructionData -> M B ExecReturn := alu_rr op_SLT.
Definition exec_SLTU : InstructionData -> M B ExecReturn := alu_rr op_SLTU.
Definition exec_ADDIW : InstructionData -> M B ExecReturn := alu_ri op_ADDIW.
Definition exec_SLLIW : InstructionData -> M B ExecReturn := alu_ri op_SLLIW.
Definition exec_SRLIW : InstructionData -> M B ExecReturn := alu_ri op_SRLIW.
Definition exec_SRAIW : InstructionData -> M B ExecReturn := alu_ri op_SRAIW.
Definition exec_ADDI : InstructionData -> M B ExecReturn := alu_ri op_ADDI.
Definition exec_XORI : InstructionData -> M B ExecReturn := alu_ri op_XORI.
Definition exec_ORI : InstructionData -> M B ExecReturn := alu_ri op_ORI.
Definition exec_ANDI : InstructionData -> M B ExecReturn := alu_ri op_ANDI.
Definition exec_SLLI : InstructionData -> M B ExecReturn := alu_ri op_SLLI.
Definition exec_SRLI : InstructionData -> M B ExecReturn := alu_ri op_SRLI.
Definition exec_SRAI : InstructionData -> M B ExecReturn := alu_ri op_SRAI.
Definition exec_SLTI : InstructionData -> M B ExecReturn := alu_ri op_SLTI.
Definition exec_SLTIU : InstructionData -> M B ExecReturn := alu_ri op_SLTIU.

(** The return of a memory handler. *)
Definition mem_exec (len : Z) (r : MemoryReturn) : ExecReturn :=
  mkExec (mr_success r) false len (mr_exc_code r) (mr_tval r).

(** Load [sz] bytes at [GPR[rs1] + imm]; [ext] widens the value read. *)
Definition load_to (sz : MemorySize) (ext : Z -> Z) (d : InstructionData) : M B ExecReturn :=
  a ← reg (rs1 d);
  '(success, val) ← read (u64 (a + imm d)) sz false;
  _ ← (if mr_success success then setreg (rd d) (ext val) else mret tt);
  mret (mem_exec 4 success).

Definition exec_LD : InstructionData -> M B ExecReturn := load_to Long (fun v => v).
Definition exec_LWU : InstructionData -> M B ExecReturn := load_to Int (fun v => v).
Definition exec_LB : InstructionData -> M B ExecReturn := load_to Byte (fun v => u64 (s8 v)).
Definition exec_LH : InstructionData -> M B ExecReturn := load_to Short (fun v => u64 (s16 v)).
Definition exec_LW : InstructionData -> M B ExecReturn := load_to Int (fun v => u64 (s32 v)).
Definition exec_LBU : InstructionData -> M B ExecReturn := load_to Byte (fun v => v).
Definition exec_LHU : InstructionData -> M B ExecReturn := load_to Short (fun v => v).

(** Store [GPR[rs2]] at [GPR[rs1] + imm]. *)
Definition store_from (sz : MemorySize) (d : InstructionData) : M B ExecReturn :=
  a ← reg (rs1 d); b ← reg (rs2 d);
  out ← write (u64 (a + imm d)) sz b false;
  mret (mem_exec 4 out).

Definition exec_SD : InstructionData -> M B ExecReturn := store_from Long.
Definition exec_SB : InstructionData -> M B ExecReturn := store_from Byte.
Definition exec_SH : InstructionData -> M B ExecReturn := store_from Short.
Definition exec_SW : InstructionData -> M B ExecReturn := store_from Int.

(** Conditional branch to [pc + imm]. *)
Definition branch (cond : Z -> Z -> bool) (d : InstructionData) : M B ExecReturn :=
  a ← reg (rs1 d); b ← reg (rs2 d);
  if cond a b then
    p ← gets (fun s => pc (hart s));
    let target := u64 (p + imm d) in
    if negb (target mod 2 =? 0)
    then mret (mkExec false false 0 EXC_INST_ADDR_MISALIGNED target)
    else _ ← mod_hart (set_pc target); mret exec_jump
  else mret exec_ok.

Definition exec_BEQ : InstructionData -> M B ExecReturn := branch (fun a b => s64 a =? s64 b).
Definition exec_BNE : InstructionData -> M B ExecReturn := branch (fun a b => negb (s64 a =? s64 b)).
Definition exec_BLT : InstructionData -> M B ExecReturn := branch (fun a b => s64 a <? s64 b).
Definition exec_BGE : InstructionData -> M B ExecReturn := branch (fun a b => s64 b <=? s64 a).
Definition exec_BLTU : InstructionData -> M B ExecReturn := branch (fun a b => a <? b).
Definition exec_BGEU : InstructionData -> M B ExecReturn := branch (fun a b => b <=? a).

Definition exec_JAL (d : InstructionData) : M B ExecReturn :=
  tmp ← gets (fun s => pc (hart s));
  let target := u64 (tmp + imm d) in
  if negb (target mod 2 =? 0)
  then mret (mkExec false true 0 EXC_INST_ADDR_MISALIGNED target)
  else
    _ ← mod_hart (set_pc target);
    _ ← setreg (rd d) (u64 (tmp + 4));
    mret exec_jump.

Definition exec_JALR (d : InstructionData) : M B ExecReturn :=
  tmp ← gets (fun s => pc (hart s));
  a ← reg (rs1 d);
  let target := Z.land (u64 (a + imm d)) (not64 1) in
  if negb (target mod 2 =? 0)
  then mret (mkExec false true 0 EXC_INST_ADDR_MISALIGNED target)
  else
    _ ← mod_hart (set_pc target);
    _ ← setreg (rd d) (u64 (tmp + 4));
    mret exec_jump.

Definition exec_LUI (d : InstructionData) : M B ExecReturn :=
  _ ← setreg (rd d) (imm d); mret exec_ok.

Definition exec_AUIPC (d : InstructionData) : M B ExecReturn :=
  p ← gets (fun s => pc (hart s));
  _ ← setreg (rd d) (u64 (p + imm d)); mret exec_ok.

Definition exec_ECALL (d : InstructionData) : M B ExecReturn :=
  md ← gets (fun s => mode (hart s));
  mret (match md with
        | Machine => mkExec false true 0 EXC_ENV_CALL_FROM_M 0
        | Supervisor => mkExec false true 0 EXC_ENV_CALL_FROM_S 0
        | User => mkExec false true 0 EXC_ENV_CALL_FROM_U 0
        | Hypervisor => exec_ok
        end).

Definition exec_EBREAK (d : InstructionData) : M B ExecReturn :=
  p ← gets (fun s => pc (hart s)); mret (mkExec false true 0 EXC_BREAKPOINT p).

Definition exec_FENCE (d : InstructionData) : M B ExecReturn := mret exec_ok.
(** [init_rv64i]. *)
Definition init_rv64i : list (Instr B) :=
  [
   mkInstr "0000000**********000*****0110011" exec_ADD None;
   mkInstr "0000000**********000*****0111011" exec_ADDW None;
   mkInstr "0100000**********000*****0110011" exec_SUB None;
   mkInstr "0100000**********000*****0111011" exec_SUBW None;
   mkInstr "0000000**********100*****0110011" exec_XOR None;
   mkInstr "0000000**********110*****0110011" exec_OR None;
   mkInstr "0000000**********111*****0110011" exec_AND None;
   mkInstr "0000000**********001*****0110011" exec_SLL None;
   mkInstr "0000000**********001*****0111011" exec_SLLW None;
   mkInstr "0000000**********101*****0110011" exec_SRL None;
   mkInstr "0000000**********101*****0111011" exec_SRLW None;
   mkInstr "0100000**********101*****0110011" exec_SRA None;
   mkInstr "0100000**********101*****0111011" exec_SRAW None;
   mkInstr "0000000**********010*****0110011" exec_SLT None;
   mkInstr "0000000**********011*****0110011" exec_SLTU None;
   mkInstr "*****************000*****0010011" exec_ADDI (Some imm_I);
   mkInstr "*****************000*****0011011" exec_ADDIW (Some imm_I);
   mkInstr "*****************100*****0010011" exec_XORI (Some imm_I);
   mkInstr "*****************110*****0010011" exec_ORI (Some imm_I);
   mkInstr "*****************111*****0010011" exec_ANDI (Some imm_I);
   mkInstr "000000***********001*****0010011" exec_SLLI (Some shamt64);
   mkInstr "0000000**********001*****0011011" exec_SLLIW (Some shamt);
   mkInstr "0000000**********101*****0011011" exec_SRLIW (Some shamt);
   mkInstr "0100000**********101*****0011011" exec_SRAIW (Some shamt);
   mkInstr "000000***********101*****0010011" exec_SRLI (Some shamt64);
   mkInstr "010000***********101*****0010011" exec_SRAI (Some shamt64);
   mkInstr "*****************010*****0010011" exec_SLTI (Some imm_I);
   mkInstr "*****************011*****0010011" exec_SLTIU (Some imm_I);
   mkInstr "*****************000*****0000011" exec_LB (Some imm_I);
   mkInstr "*****************001*****0000011" exec_LH (Some imm_I);
   mkInstr "*****************010*****0000011" exec_LW (Some imm_I);
   mkInstr "*****************011*****0000011" exec_LD (Some imm_I);
   mkInstr "*****************100*****0000011" exec_LBU (Some imm_I);
   mkInstr "*****************101*****0000011" exec_LHU (Some imm_I);
   mkInstr "*****************110*****0000011" exec_LWU (Some imm_I);
   mkInstr "*****************000*****0100011" exec_SB (Some imm_S);
   mkInstr "*****************001*****0100011" exec_SH (Some imm_S);
   mkInstr "*****************010*****0100011" exec_SW (Some imm_S);
   mkInstr "*****************011*****0100011" exec_SD (Some imm_S);
   mkInstr "*****************000*****1100011" exec_BEQ (Some imm_B);
   mkInstr "*****************001*****1100011" exec_BNE (Some imm_B);
   mkInstr "*****************100*****1100011" exec_BLT (Some imm_B);
   mkInstr "*****************101*****1100011" exec_BGE (Some imm_B);
   mkInstr "*****************110*****1100011" exec_BLTU (Some imm_B);
   mkInstr "*****************111*****1100011" exec_BGEU (Some imm_B);
   mkInstr "*************************1101111" exec_JAL (Some imm_J);
   mkInstr "*****************000*****1100111" exec_JALR (Some imm_I);
   mkInstr "*************************0110111" exec_LUI (Some imm_U);
   mkInstr "*************************0010111" exec_AUIPC (Some imm_U);
   mkInstr "00000000000000000000000001110011" exec_ECALL None;
   mkInstr "00000000000100000000000001110011" exec_EBREAK None;
   mkInstr "0000********00000000000000001111" exec_FENCE (Some imm_I)].
End rv64i.

(** ** Arithmetic meaning of the register operations *)

Lemma land_mask_mod b n : 0 <= n -> Z.land b (Z.ones n) = b mod 2 ^ n.
Proof. apply Z.land_ones. Qed.

Lemma sN_sN w w' x : 0 < w <= w' -> sN w' (sN w x) = sN w x.
Proof.
  intros. apply sN_small; [lia|]. pose proof (sN_range w x).
  assert (2 ^ (w - 1) <= 2 ^ (w' - 1)) by (apply Z.pow_le_mono_r; lia). lia.
Qed.

(** A 64-bit register holding a sign-extended word. *)
Lemma s64_word x : s64 (u64 (s32 x)) = s32 x.
Proof. rewrite sN_uN, sN_sN by lia. done. Qed.

Lemma s32_cong x y : x mod 2 ^ 32 = y mod 2 ^ 32 -> s32 x = s32 y.
Proof. intros He. rewrite <- (sN_uN 32 x), <- (sN_uN 32 y) by lia. unfold uN. by rewrite He. Qed.

Lemma s64_cong x y : x mod 2 ^ 64 = y mod 2 ^ 64 -> s64 x = s64 y.
Proof. intros He. rewrite <- (sN_uN 64 x), <- (sN_uN 64 y) by lia. unfold uN. by rewrite He. Qed.

Lemma s64_mod x : s64 x mod 2 ^ 64 = x mod 2 ^ 64.
Proof. apply (uN_sN 64). lia. Qed.

Lemma s64_shiftr x n : 0 <= n -> s64 (u64 (Z.shiftr (s64 x) n)) = s64 x / 2 ^ n.
Proof.
  intros Hn. rewrite sN_uN, Z.shiftr_div_pow2 by lia. apply sN_small; [lia|].
  pose proof (sN_range 64 x ltac:(lia)). pose proof (pow2_pos n Hn).
  split; [apply Z.div_le_lower_bound|apply Z.div_lt_upper_bound]; nia.
Qed.

Lemma s32_shiftr x n : 0 <= n -> s64 (u64 (Z.shiftr (s32 x) n)) = s32 x / 2 ^ n.
Proof.
  intros Hn. rewrite <- (sN_sN 32 64 x) by lia. rewrite s64_shiftr by done. done.
Qed.

Lemma mod_mod_pow x a b : 0 <= a <= b -> (x mod 2 ^ b) mod 2 ^ a = x mod 2 ^ a.
Proof.
  intros. apply Z.bits_inj'. intros i Hi.
  change (Z.testbit (uN a (uN b x)) i = Z.testbit (uN a x) i). tb. zcases; done.
Qed.

Lemma b2z_less (x y : Z) : (x < y -> b2z (x <? y) = 1) /\ (y <= x -> b2z (x <? y) = 0).
Proof. by split; intros; zcases. Qed.

(** C7: the register-register and register-immediate operations compute what
    the ISA manual defines, read as integers: sums and differences modulo the
    width, signed and unsigned comparisons, the bitwise operations bit by bit,
    logical shifts as multiplication and division by a power of two,
    arithmetic shifts as floor division of the signed value, and the W forms as
    the sign extension of the 32-bit result. *)
Theorem rv64i_ops a b sh : inw 64 a -> inw 64 b -> 0 <= sh < 64 ->
  (s64 (op_ADD a b) = s64 (s64 a + s64 b) /\ s64 (op_SUB a b) = s64 (s64 a - s64 b) /\
   s64 (op_ADDI a b) = s64 (s64 a + s64 b)) /\
  (s64 (op_ADDW a b) = s32 (a + b) /\ s64 (op_SUBW a b) = s32 (a - b) /\
   s64 (op_ADDIW a b) = s32 (a + b)) /\
  (s64 a < s64 b -> op_SLT a b = 1 /\ op_SLTI a b = 1) /\
  (s64 b <= s64 a -> op_SLT a b = 0 /\ op_SLTI a b = 0) /\
  (a < b -> op_SLTU a b = 1 /\ op_SLTIU a b = 1) /\
  (b <= a -> op_SLTU a b = 0 /\ op_SLTIU a b = 0) /\
  (forall i, 0 <= i ->
     Z.testbit (op_XOR a b) i = negb (Bool.eqb (Z.testbit a i) (Z.testbit b i)) /\
     Z.testbit (op_OR a b) i = Z.testbit a i || Z.testbit b i /\
     Z.testbit (op_AND a b) i = Z.testbit a i && Z.testbit b i) /\
  (op_XORI a b = op_XOR a b /\ op_ORI a b = op_OR a b /\ op_ANDI a b = op_AND a b) /\
  (op_SLL a b = (a * 2 ^ (b mod 64)) mod 2 ^ 64 /\ op_SRL a b = a / 2 ^ (b mod 64) /\
   s64 (op_SRA a b) = s64 a / 2 ^ (b mod 64)) /\
  (s64 (op_SLLW a b) = s32 (a * 2 ^ (b mod 32)) /\
   s64 (op_SRLW a b) = s32 (a mod 2 ^ 32 / 2 ^ (b mod 32)) /\
   s64 (op_SRAW a b) = s32 a / 2 ^ (b mod 32)) /\
  (op_SLLI a sh = (a * 2 ^ sh) mod 2 ^ 64 /\ op_SRLI a sh = a / 2 ^ sh /\
   s64 (op_SRAI a sh) = s64 a / 2 ^ sh) /\
  (sh < 32 -> s64 (op_SLLIW a sh) = s32 (a * 2 ^ sh) /\
   s64 (op_SRLIW a sh) = s32 (a mod 2 ^ 32 / 2 ^ sh) /\ s64 (op_SRAIW a sh) = s32 a / 2 ^ sh).
Proof.
  intros Ha Hb Hs.
  assert (Z.land b 0x3f = b mod 64) as E64 by (apply (land_mask_mod b 6); lia).
  assert (Z.land (u32 b) 0x1F = b mod 32) as E32.
  { rewrite (land_mask_mod _ 5) by lia. apply (mod_mod_pow b 5 32). lia. }
  pose proof (Z.mod_pos_bound b 64). pose proof (Z.mod_pos_bound b 32).
  assert (forall n, 0 <= n -> s32 (u32 (Z.shiftl (u32 a) n)) = s32 (a * 2 ^ n)) as Hsl.
  { intros n Hn. rewrite sN_uN, Z.shiftl_mul_pow2 by lia. apply s32_cong. unfold uN.
    by rewrite Zmult_mod_idemp_l. }
  unfold op_ADD, op_SUB, op_ADDW, op_SUBW, op_ADDIW, op_SLL, op_SRL, op_SRA, op_SLLW, op_SRLW,
    op_SRAW, op_SLLI, op_SRLI, op_SRAI, op_SLLIW, op_SRLIW, op_SRAIW.
  assert (s64 (u64 (a + b)) = s64 (s64 a + s64 b)) as Eadd.
  { rewrite sN_uN by lia. apply s64_cong. symmetry. rewrite Z.add_mod, !s64_mod, <- Z.add_mod by lia. done. }
  unfold op_SLT, op_SLTI, op_SLTU, op_SLTIU, op_XOR, op_XORI, op_OR, op_ORI, op_AND, op_ANDI, op_ADDI.
  pose proof (b2z_less a b) as [U1 U0]. pose proof (b2z_less (s64 a) (s64 b)) as [L1 L0].
  split; [|split; [|split; [by intros ?%L1|split; [by intros ?%L0|split; [by intros ?%U1|split;
    [by intros ?%U0|split; [|split; [done|]]]]]]]].
  3:{ intros i Hi. rewrite Z.lxor_spec, Z.lor_spec, Z.land_spec.
      by destruct (Z.testbit a i), (Z.testbit b i). }
  all: rewrite ?E64, ?E32; repeat match goal with |- _ /\ _ => split | |- (_ < _) -> _ => intros ? end;
    rewrite ?Eadd, ?s64_word, ?s64_shiftr, ?s32_shiftr, ?Hsl, ?Z.shiftr_div_pow2, ?Z.shiftl_mul_pow2 by lia; try done.
  - rewrite sN_uN by lia. apply s64_cong. symmetry. rewrite Zminus_mod, !s64_mod, <- Zminus_mod. done.
  - rewrite sN_uN by lia. apply s32_cong. unfold uN. by rewrite <- Z.add_mod by lia.
  - rewrite sN_uN by lia. apply s32_cong. unfold uN. by rewrite <- Zminus_mod.
  - apply s32_cong. unfold uN. rewrite (mod_mod_pow _ 32 64) by lia. by rewrite Zplus_mod_idemp_l.
  - apply sN_small; [lia|]. pose proof (sN_range 32 a ltac:(lia)).
    pose proof (pow2_pos (b mod 32) ltac:(lia)).
    split; [apply Z.div_le_lower_bound|apply Z.div_lt_upper_bound]; nia.
Qed.

(** ** Type invariant *)

Definition closed2 (f : Z -> Z -> Z) : Prop := forall a b, inw 64 a -> inw 64 b -> inw 64 (f a b).

Section rv64i_wf.
Context {B : Type} `{BusLaws B}.

Lemma alu_rr_keeps f d : closed2 f -> keeps (B := B) (alu_rr f d) exec_ret_ok.
Proof.
  intros Hf. apply (keeps_bind _ _ (inw 64)); [apply keeps_reg|]. intros a Ha.
  apply (keeps_bind _ _ (inw 64)); [apply keeps_reg|]. intros b Hb.
  kbind; [apply keeps_setreg; by apply Hf|]. auto with rvw.
Qed.

Lemma alu_ri_keeps f d : closed2 f -> data_ok d -> keeps (B := B) (alu_ri f d) exec_ret_ok.
Proof.
  intros Hf [Hi _]. apply (keeps_bind _ _ (inw 64)); [apply keeps_reg|]. intros a Ha.
  kbind; [apply keeps_setreg; by apply Hf|]. auto with rvw.
Qed.

Lemma mem_exec_ok len r : 0 <= len <= 4 -> mem_ret_ok r -> exec_ret_ok (mem_exec len r).
Proof. by intros ? [? ?]. Qed.

Lemma load_to_keeps sz ext d : is_size sz = true -> (forall v, inw (8 * sz) v -> inw 64 (ext v)) ->
  keeps (B := B) (load_to sz ext d) exec_ret_ok.
Proof.
  intros Hsz Hext. apply (keeps_bind _ _ (inw 64)); [apply keeps_reg|]. intros a Ha.
  eapply keeps_bind; [apply read_keeps; [by apply uN_inw|done]|]. intros [r v] [Hr Hv].
  kbind; [|intros; apply keeps_ret; by apply mem_exec_ok].
  apply keeps_if; intros _; [apply keeps_setreg; by apply Hext|by apply keeps_ret].
Qed.

Lemma store_from_keeps sz d : keeps (B := B) (store_from sz d) exec_ret_ok.
Proof.
  apply (keeps_bind _ _ (inw 64)); [apply keeps_reg|]. intros a Ha.
  apply (keeps_bind _ _ (inw 64)); [apply keeps_reg|]. intros b Hb.
  eapply keeps_bind; [apply write_keeps; by apply uN_inw|]. intros r Hr.
  apply keeps_ret. by apply mem_exec_ok.
Qed.

Lemma branch_keeps c d : keeps (B := B) (branch c d) exec_ret_ok.
Proof.
  apply (keeps_bind _ _ (inw 64)); [apply keeps_reg|]. intros a Ha.
  apply (keeps_bind _ _ (inw 64)); [apply keeps_reg|]. intros b Hb.
  apply keeps_if; intros _; [|auto with rvw].
  apply (keeps_bind _ _ (inw 64)); [apply keeps_pc|]. intros p Hp.
  apply keeps_if; intros _; [apply keeps_ret; apply exec_ret_fail; auto with rvw; done|].
  kbind; auto with rvw.
Qed.

Lemma jump_keeps d target tmp : inw 64 target -> inw 64 tmp ->
  keeps (B := B) (if negb (target mod 2 =? 0)
    then mret (mkExec false true 0 EXC_INST_ADDR_MISALIGNED target)
    else _ ← mod_hart (set_pc target); _ ← setreg (rd d) (u64 (tmp + 4)); mret exec_jump) exec_ret_ok.
Proof.
  intros Ht Htmp. apply keeps_if; intros _; [by apply keeps_ret|].
  kbind; [auto with rvw|]. intros _ _. kbind; auto with rvw.
Qed.

Lemma word_inw w x : 0 < w <= 64 -> inw 64 (u64 (sN w x)).
Proof. intros. by apply uN_inw. Qed.

Lemma load_ext_inw sz v : is_size sz = true -> inw (8 * sz) v -> inw 64 v.
Proof. intros Hs Hv. apply is_size_range in Hs as [? _]. eapply inw_mono; [|done]. lia. Qed.
End rv64i_wf.

Ltac closed2_tac :=
  intros ? ? ? ?;
  first [ by apply uN_inw | by apply inw_b2z
        | apply inw_lxor; auto with rvw | apply inw_lor; auto with rvw
        | apply inw_land; auto with rvw; match goal with H : inw _ _ |- _ => by destruct H end
        | apply inw_shiftr; auto with rvw;
          first [apply Z.land_nonneg; right; done
                |match goal with H : inw _ _ |- 0 <= _ => by destruct H end] ].

(** Operations whose results are shown to be 64-bit values separately. *)
Create HintDb closed.

(** Dispatch on the shared shapes of the handlers. *)
Ltac handler_keeps :=
  lazymatch goal with
  | |- keeps (alu_rr _ _) _ => apply alu_rr_keeps; first [solve [auto 1 with closed nocore]|closed2_tac]
  | |- keeps (alu_ri _ _) _ => apply alu_ri_keeps; [closed2_tac|done]
  | |- keeps (load_to _ _ _) _ =>
      apply load_to_keeps; [reflexivity|];
      let v := fresh in let Hv := fresh in intros v Hv; cbn beta;
      lazymatch goal with
      | |- inw _ (uN _ _) => apply uN_inw; lia
      | _ => refine (load_ext_inw _ v _ Hv); reflexivity
      end
  | |- keeps (store_from _ _) _ => apply store_from_keeps
  | |- keeps (branch _ _) _ => apply branch_keeps
  end.

Ltac head t := lazymatch t with ?f _ => head f | _ => t end.

Ltac open_handler :=
  lazymatch goal with |- keeps ?t _ => let h := head t in unfold h end.

(** Lemmas on single handlers, looked up before the shared shapes. *)
Create HintDb handlers.

Ltac instrs_keep :=
  repeat (apply List.Forall_cons;
    [split; [intros d Hd; cbn [i_func]; first [solve [auto 2 with handlers nocore] | open_handler; handler_keeps]
            |cbn [i_imm]; first [exact I|solve [auto with rvw]]]|]);
  apply List.Forall_nil.

Section rv64i_all.
Context {B : Type} `{BusLaws B}.

Lemma exec_JAL_keeps d : keeps (B := B) (exec_JAL d) exec_ret_ok.
Proof.
  apply (keeps_bind _ _ (inw 64)); [apply keeps_pc|]. intros p Hp. apply jump_keeps; [by apply uN_inw|done].
Qed.

Lemma exec_JALR_keeps d : keeps (B := B) (exec_JALR d) exec_ret_ok.
Proof.
  apply (keeps_bind _ _ (inw 64)); [apply keeps_pc|]. intros p Hp.
  apply (keeps_bind _ _ (inw 64)); [apply keeps_reg|]. intros a Ha.
  apply jump_keeps; [|done]. apply inw_land; auto with rvw.
Qed.

Lemma exec_LUI_keeps d : data_ok d -> keeps (B := B) (exec_LUI d) exec_ret_ok.
Proof. intros [Hi _]. kbind; auto with rvw. Qed.

Lemma exec_AUIPC_keeps d : keeps (B := B) (exec_AUIPC d) exec_ret_ok.
Proof.
  apply (keeps_bind _ _ (inw 64)); [apply keeps_pc|]. intros p Hp. kbind; auto with rvw.
Qed.

Lemma exec_ECALL_keeps d : keeps (B := B) (exec_ECALL d) exec_ret_ok.
Proof. kbind; [by apply keeps_gets|]. intros [] _; apply keeps_ret; by repeat split. Qed.

Lemma exec_EBREAK_keeps d : keeps (B := B) (exec_EBREAK d) exec_ret_ok.
Proof.
  apply (keeps_bind _ _ (inw 64)); [apply keeps_pc|]. intros p Hp. by apply keeps_ret.
Qed.

Lemma exec_FENCE_keeps d : keeps (B := B) (exec_FENCE d) exec_ret_ok.
Proof. apply keeps_ret, exec_ok_ret. Qed.

#[local] Hint Resolve exec_JAL_keeps exec_JALR_keeps exec_LUI_keeps exec_AUIPC_keeps exec_ECALL_keeps
  exec_EBREAK_keeps exec_FENCE_keeps : handlers.

Lemma rv64i_keeps : Forall instr_keeps (init_rv64i (B := B)).
Proof. unfold init_rv64i. instrs_keep. Qed.
End rv64i_all.
