(* ===== verification/Rv64m.v ===== *)
(** * Multiplication and division ([src/sets/rv64m.cpp])

    [exec_MULW] multiplies two [int32_t]: a product outside that type is
    undefined behaviour. *)

From Stdlib Require Import Strings.String.
From S2P Require Import Prelude Defs MemoryMap SelfMod Tlb Decode Hart State Mmu Mmio Rv64i.

Definition INT32_MIN : Z := - 2 ^ 31.
Definition UINT64_MAX : Z := 2 ^ 64 - 1.

Definition op_MULW (a b : Z) : outcome Z :=
  let p := s32 a * s32 b in
  if (INT32_MIN <=? p) && (p <? 2 ^ 31) then Ret (u64 p) else Undef.

Definition op_DIVW (a b : Z) : Z :=
  if s32 b =? 0 then UINT64_MAX
  else if s32 a =? 0 then 0
  else if (s32 a =? INT32_MIN) && (s32 b =? -1) then u64 (s32 a)
  else u64 (Z.quot (s32 a) (s32 b)).

Definition op_DIVUW (a b : Z) : Z :=
  if u32 b =? 0 then UINT64_MAX
  else if u32 a =? 0 then 0
  else u64 (s32 (u32 a / u32 b)).

Definition op_REMW (a b : Z) : Z :=
  if s32 b =? 0 then u64 (s32 a)
  else if (s32 a =? INT32_MIN) && (s32 b =? -1) then 0
  else u64 (Z.rem (s32 a) (s32 b)).

Definition op_REMUW (a b : Z) : Z :=
  if u32 b =? 0 then a else u64 (s32 (u32 a mod u32 b)).

Definition op_MUL (a b : Z) : Z := u64 (a * b).
Definition op_MULH (a b : Z) : Z := u64 (Z.shiftr (s64 a * s64 b) 64).
Definition op_MULHSU (a b : Z) : Z := u64 (Z.shiftr (u128 (u128 (s64 a) * b)) 64).
Definition op_MULHU (a b : Z) : Z := u64 (Z.shiftr (u128 (a * b)) 64).

Definition op_DIV (a b : Z) : Z :=
  if b =? 0 then UINT64_MAX
  else if a =? 0 then 0
  else if (a =? 2 ^ 63) && (b =? UINT64_MAX) then a
  else u64 (Z.quot (s64 a) (s64 b)).

Definition op_DIVU (a b : Z) : Z :=
  if b =? 0 then UINT64_MAX else if a =? 0 then 0 else a / b.

Definition op_REM (a b : Z) : Z :=
  if b =? 0 then a
  else if (a =? 2 ^ 63) && (b =? UINT64_MAX) then 0
  else u64 (Z.rem (s64 a) (s64 b)).

Definition op_REMU (a b : Z) : Z :=
  if b =? 0 then a else a mod u64 (s64 b).

Section rv64m.
Context {B : Type} `{BusOps B}.

(** [alu_rr] for an operation that may be undefined. *)
Definition alu_rr_ub (f : Z -> Z -> outcome Z) (d : InstructionData) : M B ExecReturn :=
  a ← reg (rs1 d); b ← reg (rs2 d);
  match f a b with
  | Ret v => _ ← setreg (rd d) v; mret exec_ok
  | Throw e => throw e
  | Undef => undef
  end.

Definition exec_MULW : InstructionData -> M B ExecReturn := alu_rr_ub op_MULW.
Definition exec_DIVW : InstructionData -> M B ExecReturn := alu_rr op_DIVW.
Definition exec_DIVUW : InstructionData -> M B ExecReturn := alu_rr op_DIVUW.
Definition exec_REMW : InstructionData -> M B ExecReturn := alu_rr op_REMW.
Definition exec_REMUW : InstructionData -> M B ExecReturn := alu_rr op_REMUW.
Definition exec_MUL : InstructionData -> M B ExecReturn := alu_rr op_MUL.
Definition exec_MULH : InstructionData -> M B ExecReturn := alu_rr op_MULH.
Definition exec_MULHSU : InstructionData -> M B ExecReturn := alu_rr op_MULHSU.
Definition exec_MULHU : InstructionData -> M B ExecReturn := alu_rr op_MULHU.
Definition exec_DIV : InstructionData -> M B ExecReturn := alu_rr op_DIV.
Definition exec_DIVU : InstructionData -> M B ExecReturn := alu_rr op_DIVU.
Definition exec_REM : InstructionData -> M B ExecReturn := alu_rr op_REM.
Definition exec_REMU : InstructionData -> M B ExecReturn := alu_rr op_REMU.

(** [init_rv64m]. *)
Definition init_rv64m : list (Instr B) :=
  [
   mkInstr "0000001**********000*****0110011" exec_MUL None;
   mkInstr "0000001**********000*****0111011" exec_MULW None;
   mkInstr "0000001**********001*****0110011" exec_MULH None;
   mkInstr "0000001**********010*****0110011" exec_MULHSU None;
   mkInstr "0000001**********011*****0110011" exec_MULHU None;
   mkInstr "0000001**********100*****0110011" exec_DIV None;
   mkInstr "0000001**********101*****0110011" exec_DIVU None;
   mkInstr "0000001**********101*****0111011" exec_DIVUW None;
   mkInstr "0000001**********100*****0111011" exec_DIVW None;
   mkInstr "0000001**********110*****0110011" exec_REM None;
   mkInstr "0000001**********111*****0110011" exec_REMU None;
   mkInstr "0000001**********111*****0111011" exec_REMUW None;
   mkInstr "0000001**********110*****0111011" exec_REMW None].
End rv64m.

(** ** Specification *)

Lemma s64_eq_0 x : inw 64 x -> s64 x = 0 <-> x = 0.
Proof. intros Hx. rewrite sN_eq by (lia || done). destruct Hx. zcases; change (2 ^ 64) with (2 * 2 ^ (64 - 1)) in *; lia. Qed.

Lemma quot_bound a b n : 0 < n -> - 2 ^ n <= a < 2 ^ n -> b <> 0 -> (a = - 2 ^ n -> b <> -1) ->
  - 2 ^ n <= Z.quot a b < 2 ^ n.
Proof.
  intros Hn Ha Hb Hov. pose proof (pow2_pos n).
  pose proof (Z.quot_rem a b Hb) as He. pose proof (Z.rem_bound_abs a b Hb) as Hr.
  pose proof (Z.rem_sign_nz a b Hb) as Hs.
  assert (Z.abs (Z.quot a b) <= Z.abs a).
  { rewrite <- Z.quot_abs by done. apply Z.quot_le_upper_bound; nia. }
  destruct (Z.eq_dec (Z.quot a b) (2 ^ n)) as [E|]; [|lia].
  exfalso. assert (a = - 2 ^ n) by lia. assert (b < 0) by nia. nia.
Qed.

Lemma u128_hi x : u64 (Z.shiftr (u128 x) 64) = u64 (x / 2 ^ 64).
Proof. rewrite <- Z.shiftr_div_pow2 by lia. zbits i. zcases; done. Qed.

(** Multiplication. MUL is the low half of the product; MULH, MULHSU and
    MULHU are the high halves of the signed, mixed and unsigned products; MULW
    is the 32-bit product, sign-extended, when it does not overflow. *)
Lemma rv64m_mul a b : inw 64 a -> inw 64 b ->
  op_MUL a b = (a * b) mod 2 ^ 64 /\
  s64 (op_MULH a b) = s64 a * s64 b / 2 ^ 64 /\
  s64 (op_MULHSU a b) = s64 a * b / 2 ^ 64 /\
  op_MULHU a b = a * b / 2 ^ 64 /\
  (INT32_MIN <= s32 a * s32 b < 2 ^ 31 ->
   exists v, op_MULW a b = Ret v /\ s64 v = s32 a * s32 b).
Proof.
  intros Ha Hb. pose proof (sN_range 64 a ltac:(lia)) as Ra. pose proof (sN_range 64 b ltac:(lia)) as Rb.
  change (2 ^ (64 - 1)) with (2 ^ 63) in *. destruct Ha as [A0 A1], Hb as [B0 B1]. split_and!.
  - done.
  - unfold op_MULH. rewrite sN_uN, Z.shiftr_div_pow2 by lia. apply sN_small; [lia|].
    split; [apply Z.div_le_lower_bound|apply Z.div_lt_upper_bound]; nia.
  - unfold op_MULHSU. rewrite u128_hi.
    assert (u64 (u128 (s64 a) * b / 2 ^ 64) = u64 (s64 a * b / 2 ^ 64)) as ->.
    { rewrite <- !u128_hi. do 2 f_equal. unfold uN. by rewrite Zmult_mod_idemp_l. }
    rewrite sN_uN by lia. apply sN_small; [lia|].
    split; [apply Z.div_le_lower_bound|apply Z.div_lt_upper_bound]; nia.
  - unfold op_MULHU. rewrite u128_hi. apply uN_id. split; [apply Z.div_pos; nia|].
    apply Z.div_lt_upper_bound; nia.
  - intros Hr. unfold op_MULW. eexists.
    rewrite (proj2 (Z.leb_le _ _)), (proj2 (Z.ltb_lt _ _)) by lia. split; [done|].
    rewrite sN_uN by lia. apply sN_small; [lia|]. unfold INT32_MIN in Hr.
    assert (2 ^ 31 <= 2 ^ 63) by (by apply Z.pow_le_mono_r). change (2 ^ (64 - 1)) with (2 ^ 63). lia.
Qed.

Lemma rem_s64 x y n : 0 < n <= 64 -> y <> 0 -> - 2 ^ (n - 1) <= y < 2 ^ (n - 1) ->
  s64 (u64 (Z.rem x y)) = Z.rem x y.
Proof.
  intros Hn Hy Hr. rewrite sN_uN by lia. apply sN_small; [lia|].
  pose proof (Z.rem_bound_abs x y Hy).
  assert (2 ^ (n - 1) <= 2 ^ (64 - 1)) by (apply Z.pow_le_mono_r; lia). lia.
Qed.

Lemma quot_s64 x y n : 1 < n <= 64 -> y <> 0 -> - 2 ^ (n - 1) <= x < 2 ^ (n - 1) ->
  (x = - 2 ^ (n - 1) -> y <> -1) -> s64 (u64 (Z.quot x y)) = Z.quot x y.
Proof.
  intros Hn Hy Hr Hov. rewrite sN_uN by lia. apply sN_small; [lia|].
  pose proof (quot_bound x y (n - 1) ltac:(lia) Hr Hy Hov).
  assert (2 ^ (n - 1) <= 2 ^ (64 - 1)) by (apply Z.pow_le_mono_r; lia). lia.
Qed.

(** The signed value that a 64-bit comparison against a constant tests. *)
Lemma s64_eqb x c : inw 64 x -> inw 64 c -> (x =? c) = (s64 x =? s64 c).
Proof.
  intros Hx Hc. destruct (Z.eqb_spec x c) as [->|Hne]; [by rewrite Z.eqb_refl|].
  symmetry. apply Z.eqb_neq. intros He. apply Hne. by apply (sN_inj 64).
Qed.

(** The result of a signed division of [w]-bit operands that the ISA manual
    prescribes: quotient and remainder, with -1 and the dividend for a zero
    divisor, and the dividend and 0 on overflow. *)
Definition isa_div (w x y : Z) : Z :=
  if y =? 0 then -1 else if (x =? - 2 ^ (w - 1)) && (y =? -1) then x else Z.quot x y.
Definition isa_rem (w x y : Z) : Z :=
  if y =? 0 then x else if (x =? - 2 ^ (w - 1)) && (y =? -1) then 0 else Z.rem x y.

(** Division. DIV, REM and their W forms compute the signed quotient and
    remainder that the ISA manual prescribes, zero divisors and overflow
    included, DIVU, REMU, DIVUW and REMUW the unsigned ones; REMUW by zero is
    the exception, where the manual asks for the sign-extended word and the
    code returns the whole register. *)
Lemma rv64m_div a b : inw 64 a -> inw 64 b ->
  s64 (op_DIV a b) = isa_div 64 (s64 a) (s64 b) /\ s64 (op_REM a b) = isa_rem 64 (s64 a) (s64 b) /\
  s64 (op_DIVW a b) = isa_div 32 (s32 a) (s32 b) /\ s64 (op_REMW a b) = isa_rem 32 (s32 a) (s32 b) /\
  op_DIVU a b = (if b =? 0 then 2 ^ 64 - 1 else a / b) /\
  op_REMU a b = (if b =? 0 then a else a mod b) /\
  s64 (op_DIVUW a b) = (if u32 b =? 0 then -1 else s32 (u32 a / u32 b)) /\
  (u32 b <> 0 -> s64 (op_REMUW a b) = s32 (u32 a mod u32 b)) /\
  (u32 b = 0 -> op_REMUW a b = a).
Proof.
  intros Ha Hb. pose proof (sN_range 64 a ltac:(lia)) as Ra. pose proof (sN_range 64 b ltac:(lia)) as Rb.
  pose proof (sN_range 32 a ltac:(lia)) as Wa. pose proof (sN_range 32 b ltac:(lia)) as Wb.
  assert (inw 64 0) as H0 by by apply inw_0.
  assert (inw 64 (2 ^ 63)) as H63 by done. assert (inw 64 UINT64_MAX) as HM by done.
  assert (s64 0 = 0 /\ s64 (2 ^ 63) = - 2 ^ 63 /\ s64 UINT64_MAX = -1) as (E0 & E63 & EM) by done.
  split_and!.
  - unfold op_DIV, isa_div. change (64 - 1) with 63 in *.
    rewrite (s64_eqb b 0), (s64_eqb a 0), (s64_eqb a (2 ^ 63)), (s64_eqb b UINT64_MAX) by done.
    rewrite E0, E63, EM.
    destruct (Z.eqb_spec (s64 b) 0); [done|]. destruct (Z.eqb_spec (s64 a) 0) as [E|].
    { rewrite E. simpl. by rewrite Z.quot_0_l. }
    destruct (Z.eqb_spec (s64 a) (- 2 ^ 63)), (Z.eqb_spec (s64 b) (-1)); cbn [andb]; try done;
      rewrite (quot_s64 _ _ 64); try lia; done.
  - unfold op_REM, isa_rem. change (64 - 1) with 63 in *.
    rewrite (s64_eqb b 0), (s64_eqb a (2 ^ 63)), (s64_eqb b UINT64_MAX) by done.
    rewrite E0, E63, EM.
    destruct (Z.eqb_spec (s64 b) 0); [done|].
    destruct (_ && _)%bool; [done|]. by rewrite (rem_s64 _ _ 64) by (done || lia).
  - unfold op_DIVW, isa_div, INT32_MIN. change (32 - 1) with 31 in *.
    destruct (Z.eqb_spec (s32 b) 0); [done|]. destruct (Z.eqb_spec (s32 a) 0) as [E|].
    { rewrite E. simpl. by rewrite Z.quot_0_l. }
    destruct (Z.eqb_spec (s32 a) (- 2 ^ 31)), (Z.eqb_spec (s32 b) (-1)); cbn [andb];
      rewrite ?s64_word; try done; rewrite (quot_s64 _ _ 32); try lia; done.
  - unfold op_REMW, isa_rem, INT32_MIN. change (32 - 1) with 31 in *.
    destruct (Z.eqb_spec (s32 b) 0); [by rewrite s64_word|].
    destruct (_ && _)%bool; [done|]. by rewrite (rem_s64 _ _ 32) by (done || lia).
  - unfold op_DIVU. destruct (Z.eqb_spec b 0); [done|]. destruct (Z.eqb_spec a 0) as [->|]; [|done].
    by rewrite Z.div_0_l.
  - unfold op_REMU. rewrite uN_sN, uN_id by (lia || done). done.
  - unfold op_DIVUW. destruct (Z.eqb_spec (u32 b) 0); [done|].
    destruct (Z.eqb_spec (u32 a) 0) as [->|]; [|by rewrite s64_word]. by rewrite Z.div_0_l.
  - intros Hz. unfold op_REMUW. rewrite (proj2 (Z.eqb_neq _ _) Hz). apply s64_word.
  - intros Hz. unfold op_REMUW. by rewrite Hz.
Qed.

(** C8: the multiplications give the low or the high half of the product
    (MULW wherever the 32-bit product does not overflow); division and
    remainder follow the ISA table, division by zero and signed overflow
    included, except REMUW by zero, which is not sign-extended. *)
Theorem rv64m_ops a b : inw 64 a -> inw 64 b ->
  (op_MUL a b = (a * b) mod 2 ^ 64 /\
  s64 (op_MULH a b) = s64 a * s64 b / 2 ^ 64 /\
  s64 (op_MULHSU a b) = s64 a * b / 2 ^ 64 /\
  op_MULHU a b = a * b / 2 ^ 64 /\
  (INT32_MIN <= s32 a * s32 b < 2 ^ 31 ->
   exists v, op_MULW a b = Ret v /\ s64 v = s32 a * s32 b)) /\
  s64 (op_DIV a b) = isa_div 64 (s64 a) (s64 b) /\ s64 (op_REM a b) = isa_rem 64 (s64 a) (s64 b) /\
  s64 (op_DIVW a b) = isa_div 32 (s32 a) (s32 b) /\ s64 (op_REMW a b) = isa_rem 32 (s32 a) (s32 b) /\
  op_DIVU a b = (if b =? 0 then 2 ^ 64 - 1 else a / b) /\
  op_REMU a b = (if b =? 0 then a else a mod b) /\
  s64 (op_DIVUW a b) = (if u32 b =? 0 then -1 else s32 (u32 a / u32 b)) /\
  (u32 b <> 0 -> s64 (op_REMUW a b) = s32 (u32 a mod u32 b)) /\
  (u32 b = 0 -> op_REMUW a b = a).
Proof. intros Ha Hb. exact (conj (rv64m_mul a b Ha Hb) (rv64m_div a b Ha Hb)). Qed.

(** ** Type invariant *)

Section rv64m_wf.
Context {B : Type} `{BusLaws B}.

Lemma alu_rr_ub_keeps f d :
  (forall a b v, inw 64 a -> inw 64 b -> f a b = Ret v -> inw 64 v) ->
  keeps (B := B) (alu_rr_ub f d) exec_ret_ok.
Proof.
  intros Hf. apply (keeps_bind _ _ (inw 64)); [apply keeps_reg|]. intros a Ha.
  apply (keeps_bind _ _ (inw 64)); [apply keeps_reg|]. intros b Hb.
  destruct (f a b) as [v| |] eqn:E; [|auto with rvw..].
  kbind; [apply keeps_setreg; by apply (Hf a b)|]. auto with rvw.
Qed.

Lemma exec_MULW_keeps d : keeps (B := B) (exec_MULW d) exec_ret_ok.
Proof.
  apply alu_rr_ub_keeps. intros a b v _ _. unfold op_MULW. case_match; intros; [|done].
  simplify_eq. by apply uN_inw.
Qed.

Lemma div_inw a b : inw 64 a -> inw 64 b -> inw 64 (a / b).
Proof.
  intros [A0 A1] [B0 B1]. destruct (Z.eq_dec b 0) as [->|]; [rewrite Z.div_0_r; by apply inw_0|].
  split; [apply Z.div_pos; lia|]. apply Z.div_lt_upper_bound; nia.
Qed.
End rv64m_wf.

Ltac closed_ifs op :=
  intros a b Ha Hb; unfold op;
  repeat match goal with |- context [if ?c then _ else _] => destruct c eqn:? end;
  first [done | by apply uN_inw | by apply div_inw].

Lemma op_DIVW_closed : closed2 op_DIVW.
Proof. closed_ifs op_DIVW. Qed.
Lemma op_DIVUW_closed : closed2 op_DIVUW.
Proof. closed_ifs op_DIVUW. Qed.
Lemma op_REMW_closed : closed2 op_REMW.
Proof. closed_ifs op_REMW. Qed.
Lemma op_REMUW_closed : closed2 op_REMUW.
Proof. closed_ifs op_REMUW. Qed.
Lemma op_MUL_closed : closed2 op_MUL.
Proof. closed_ifs op_MUL. Qed.
Lemma op_MULH_closed : closed2 op_MULH.
Proof. closed_ifs op_MULH. Qed.
Lemma op_MULHSU_closed : closed2 op_MULHSU.
Proof. closed_ifs op_MULHSU. Qed.
Lemma op_MULHU_closed : closed2 op_MULHU.
Proof. closed_ifs op_MULHU. Qed.
Lemma op_DIV_closed : closed2 op_DIV.
Proof. closed_ifs op_DIV. Qed.
Lemma op_DIVU_closed : closed2 op_DIVU.
Proof. closed_ifs op_DIVU. Qed.
Lemma op_REM_closed : closed2 op_REM.
Proof. closed_ifs op_REM. Qed.
Lemma op_REMU_closed : closed2 op_REMU.
Proof.
  intros a b Ha Hb. unfold op_REMU. destruct (Z.eqb_spec b 0); [done|].
  rewrite uN_sN, uN_id by (lia || done). destruct Ha, Hb.
  pose proof (Z.mod_pos_bound a b). split; lia.
Qed.

#[export] Hint Resolve op_DIVW_closed op_DIVUW_closed op_REMW_closed op_REMUW_closed op_MUL_closed op_MULH_closed op_MULHSU_closed op_MULHU_closed op_DIV_closed op_DIVU_closed op_REM_closed op_REMU_closed : closed.
#[export] Hint Resolve exec_MULW_keeps : handlers.

Lemma rv64m_keeps {B} `{BusLaws B} : Forall instr_keeps (init_rv64m (B := B)).
Proof. unfold init_rv64m. instrs_keep. Qed.
