(* ===== verification/Rv64a.v ===== *)
(** * Atomic instructions ([src/sets/rv64a.cpp])

    Load-reserved, store-conditional and the read-modify-write operations, all
    on the physical address of a store translation. *)

From Stdlib Require Import Strings.String.
From S2P Require Import Prelude Defs MemoryMap SelfMod Tlb Decode Hart State Mmu Mmio Rv64i.

Section rv64a.
Context {B : Type} `{BusOps B}.

(** [AMO_SC]; the second component is the byte written to [*out_val]. *)
Definition AMO_SC (va : Z) (sz : MemorySize) (val : Z) : M B (MemoryReturn * Z) :=
  '(ret, pa) ← translate STORE va;
  if negb (mr_success ret) then mret (ret, 0) else
  r ← gets (fun s => reservation (hart s));
  if valid r && (paddr r =? pa) && (rsize r =? sz) then
    out ← write pa sz val true;
    if negb (mr_success out) then mret (out, 0) else
    _ ← mod_hart invalidate_reservation;
    mret (out, 0)
  else
    _ ← mod_hart invalidate_reservation;
    mret (mem_ok, 1).

(** [AMO_LR]; the second component is the value written to [*val]. *)
Definition AMO_LR (va : Z) (sz : MemorySize) : M B (MemoryReturn * Z) :=
  '(ret, pa) ← translate LOAD va;
  if negb (mr_success ret) then mret (ret, 0) else
  '(p, value) ← read pa sz true;
  if negb (mr_success p) then mret (p, 0) else
  _ ← mod_hart (set_reservation (mkRes pa sz true));
  mret (p, value).

Definition exec_LR_D (d : InstructionData) : M B ExecReturn :=
  a ← reg (rs1 d);
  '(out, val) ← AMO_LR a Long;
  if negb (mr_success out) then mret (mkExec false false 4 (mr_exc_code out) (mr_tval out)) else
  _ ← setreg (rd d) val;
  mret exec_ok.

Definition exec_SC_D (d : InstructionData) : M B ExecReturn :=
  a ← reg (rs1 d); b ← reg (rs2 d);
  '(out, val) ← AMO_SC a Long b;
  if negb (mr_success out) then mret (mkExec false false 4 (mr_exc_code out) (mr_tval out)) else
  _ ← setreg (rd d) val;
  mret exec_ok.

Definition exec_LR_W (d : InstructionData) : M B ExecReturn :=
  a ← reg (rs1 d);
  '(out, val) ← AMO_LR a Int;
  if negb (mr_success out) then mret (mkExec false false 0 (mr_exc_code out) (mr_tval out)) else
  _ ← setreg (rd d) (u64 (s32 val));
  mret exec_ok.

Definition exec_SC_W (d : InstructionData) : M B ExecReturn :=
  a ← reg (rs1 d); b ← reg (rs2 d);
  '(out, val) ← AMO_SC a Int (u32 b);
  if negb (mr_success out) then mret (mkExec false false 0 (mr_exc_code out) (mr_tval out)) else
  _ ← setreg (rd d) val;
  mret exec_ok.

(** [AMO64] and [AMO32]: the second component is the value read. *)
Definition AMO64 (va r2 : Z) (func : Z -> Z -> Z) : M B (MemoryReturn * Z) :=
  '(ret, pa) ← translate STORE va;
  if negb (mr_success ret) then mret (ret, 0) else
  '(out, val) ← read pa Long true;
  if negb (mr_success out) then mret (out, 0) else
  let new_val := func val r2 in
  w ← write pa Long new_val true;
  if negb (mr_success w) then mret (w, 0) else mret (mem_ok, val).

Definition AMO32 (va r2 : Z) (func : Z -> Z -> Z) : M B (MemoryReturn * Z) :=
  '(ret, pa) ← translate STORE va;
  if negb (mr_success ret) then mret (ret, 0) else
  '(out, val) ← read pa Int true;
  if negb (mr_success out) then mret (out, 0) else
  let new_val := func val r2 in
  w ← write pa Int new_val true;
  if negb (mr_success w) then mret (w, 0) else mret (mem_ok, val).

(** The handlers around them. *)
Definition amo_d (func : Z -> Z -> Z) (d : InstructionData) : M B ExecReturn :=
  a ← reg (rs1 d); b ← reg (rs2 d);
  '(out, val) ← AMO64 a b func;
  _ ← (if mr_success out then setreg (rd d) val else mret tt);
  mret (mem_exec 4 out).

Definition amo_w (func : Z -> Z -> Z) (d : InstructionData) : M B ExecReturn :=
  a ← reg (rs1 d); b ← reg (rs2 d);
  '(out, val) ← AMO32 a (u32 b) func;
  _ ← (if mr_success out then setreg (rd d) (u64 (s32 val)) else mret tt);
  mret (mem_exec 4 out).

Definition exec_AMOSWAP_D : InstructionData -> M B ExecReturn := amo_d (fun a b => b).
Definition exec_AMOADD_D : InstructionData -> M B ExecReturn := amo_d (fun a b => u64 (a + b)).
Definition exec_AMOXOR_D : InstructionData -> M B ExecReturn := amo_d (fun a b => Z.lxor a b).
Definition exec_AMOAND_D : InstructionData -> M B ExecReturn := amo_d (fun a b => Z.land a b).
Definition exec_AMOOR_D : InstructionData -> M B ExecReturn := amo_d (fun a b => Z.lor a b).
Definition exec_AMOMIN_D : InstructionData -> M B ExecReturn := amo_d (fun a b => u64 (Z.min (s64 a) (s64 b))).
Definition exec_AMOMAX_D : InstructionData -> M B ExecReturn := amo_d (fun a b => u64 (Z.max (s64 a) (s64 b))).
Definition exec_AMOMINU_D : InstructionData -> M B ExecReturn := amo_d (fun a b => Z.min a b).
Definition exec_AMOMAXU_D : InstructionData -> M B ExecReturn := amo_d (fun a b => Z.max a b).
Definition exec_AMOSWAP_W : InstructionData -> M B ExecReturn := amo_w (fun a b => b).
Definition exec_AMOADD_W : InstructionData -> M B ExecReturn := amo_w (fun a b => u32 (a + b)).
Definition exec_AMOXOR_W : InstructionData -> M B ExecReturn := amo_w (fun a b => Z.lxor a b).
Definition exec_AMOAND_W : InstructionData -> M B ExecReturn := amo_w (fun a b => Z.land a b).
Definition exec_AMOOR_W : InstructionData -> M B ExecReturn := amo_w (fun a b => Z.lor a b).
Definition exec_AMOMIN_W : InstructionData -> M B ExecReturn := amo_w (fun a b => u32 (Z.min (s32 a) (s32 b))).
Definition exec_AMOMAX_W : InstructionData -> M B ExecReturn := amo_w (fun a b => u32 (Z.max (s32 a) (s32 b))).
Definition exec_AMOMINU_W : InstructionData -> M B ExecReturn := amo_w (fun a b => Z.min a b).
Definition exec_AMOMAXU_W : InstructionData -> M B ExecReturn := amo_w (fun a b => Z.max a b).

(** [init_rv64a]. *)
Definition init_rv64a : list (Instr B) :=
  [
   mkInstr "00001************010*****0101111" exec_AMOSWAP_W None;
   mkInstr "00000************010*****0101111" exec_AMOADD_W None;
   mkInstr "01100************010*****0101111" exec_AMOAND_W None;
   mkInstr "00100************010*****0101111" exec_AMOXOR_W None;
   mkInstr "01000************010*****0101111" exec_AMOOR_W None;
   mkInstr "10000************010*****0101111" exec_AMOMIN_W None;
   mkInstr "11000************010*****0101111" exec_AMOMINU_W None;
   mkInstr "10100************010*****0101111" exec_AMOMAX_W None;
   mkInstr "11100************010*****0101111" exec_AMOMAXU_W None;
   mkInstr "00010************010*****0101111" exec_LR_W None;
   mkInstr "00011************010*****0101111" exec_SC_W None;
   mkInstr "00001************011*****0101111" exec_AMOSWAP_D None;
   mkInstr "00000************011*****0101111" exec_AMOADD_D None;
   mkInstr "01100************011*****0101111" exec_AMOAND_D None;
   mkInstr "00100************011*****0101111" exec_AMOXOR_D None;
   mkInstr "01000************011*****0101111" exec_AMOOR_D None;
   mkInstr "10000************011*****0101111" exec_AMOMIN_D None;
   mkInstr "11000************011*****0101111" exec_AMOMINU_D None;
   mkInstr "10100************011*****0101111" exec_AMOMAX_D None;
   mkInstr "11100************011*****0101111" exec_AMOMAXU_D None;
   mkInstr "00010************011*****0101111" exec_LR_D None;
   mkInstr "00011************011*****0101111" exec_SC_D None].
End rv64a.

(** ** Specification *)

Section rv64a_spec.
Context {B : Type} `{BusOps B}.

(** Load-reserved and store-conditional. A load-reserved of RAM returns
    the bytes there and reserves them; a store-conditional of the reserved
    address and size then succeeds, stores the value, touches no other byte of
    RAM and ends the reservation. *)
Lemma lr_sc (s s1 : State B) va sz pa val : dram_ok s -> inw 64 va -> is_size sz = true ->
  in_dram (mmio_memsize s) pa sz = true ->
  (translate LOAD va s = Ret ((mem_ok, pa), s1) ->
   exists v, dram s1 pa sz = Ret v /\
     AMO_LR va sz s = Ret ((mem_ok, v), set_hart (set_reservation (mkRes pa sz true) (hart s1)) s1)) /\
  (translate STORE va s = Ret ((mem_ok, pa), s1) -> reservation (hart s) = mkRes pa sz true ->
   exists s', AMO_SC va sz val s = Ret ((mem_ok, 0), s') /\
     dram s' pa sz = Ret (uN (8 * sz) val) /\ valid (reservation (hart s')) = false /\
     (forall pa' n, 0 <= n -> pa' + n <= pa \/ pa + sz <= pa' -> dram s' pa' n = dram s1 pa' n)).
Proof.
  intros Hd Hva Hz Hin. split; [intros Htr|intros Htr Hres];
    pose proof (translate_frame _ _ _ _ _ _ (proj1 Hd) Hva Htr) as [Hf _];
    pose proof (dram_ok_layout _ _ (tr_frame_layout _ _ Hf) Hd) as Hd1;
    destruct (tr_frame_layout _ _ Hf) as (_ & Hsz & _).
  - destruct (read_phys s1 pa sz Hd1 Hz) as (v & Hv & _ & Hr); [by rewrite Hsz|].
    exists v. split; [done|]. unfold AMO_LR. cbv [mbind ST_bind]. rewrite Htr. cbn [mem_ok mr_success negb].
    rewrite Hr. done.
  - destruct (write_phys s1 pa sz val Hd1 Hz) as (s' & Hw & _ & _ & Hs & Ho); [by rewrite Hsz|].
    exists (set_hart (invalidate_reservation (hart s')) s'). split_and!; try done.
    unfold AMO_SC. cbv [mbind ST_bind gets]. rewrite Htr. cbn [mem_ok mr_success negb].
    assert (reservation (hart s1) = mkRes pa sz true) as -> by (destruct Hf as (t & m & -> & _); done).
    cbn [valid paddr rsize]. rewrite !Z.eqb_refl. cbn [andb]. by rewrite Hw.
Qed.

(** A store-conditional without a matching reservation fails: it returns
    1, stores nothing, and ends the reservation. *)
Lemma sc_fails (s s1 : State B) va sz pa val :
  wf_mmap (mmap s) -> inw 64 va -> translate STORE va s = Ret ((mem_ok, pa), s1) ->
  let r := reservation (hart s) in
  valid r = false \/ paddr r <> pa \/ rsize r <> sz ->
  exists s', AMO_SC va sz val s = Ret ((mem_ok, 1), s') /\ mmap s' = mmap s1 /\
    valid (reservation (hart s')) = false.
Proof.
  intros Hm Hva Htr r Hno. pose proof (translate_frame _ _ _ _ _ _ Hm Hva Htr) as [Hf _].
  assert (reservation (hart s1) = r) as Er by (destruct Hf as (t & m & -> & _); done).
  assert (valid r && (paddr r =? pa) && (rsize r =? sz) = false) as Hc.
  { destruct Hno as [->|[?|?]]; [done|..].
    - by rewrite (proj2 (Z.eqb_neq _ _)), andb_false_r by done.
    - by rewrite (proj2 (Z.eqb_neq _ sz)), andb_false_r by done. }
  exists (set_hart (invalidate_reservation (hart s1)) s1). split_and!; try done.
  unfold AMO_SC. cbv [mbind ST_bind gets]. rewrite Htr. cbn [mem_ok mr_success negb].
  by rewrite Er, Hc.
Qed.

(** C9: a load-reserved returns the value in RAM and reserves it; a
    store-conditional to the reservation writes, returns 0 and ends it; one
    without a matching reservation returns 1, writes nothing and ends it. *)
Theorem reservations (s s1 : State B) va sz pa val : dram_ok s -> inw 64 va -> is_size sz = true ->
  in_dram (mmio_memsize s) pa sz = true ->
  (translate LOAD va s = Ret ((mem_ok, pa), s1) ->
   exists v, dram s1 pa sz = Ret v /\
     AMO_LR va sz s = Ret ((mem_ok, v), set_hart (set_reservation (mkRes pa sz true) (hart s1)) s1)) /\
  (translate STORE va s = Ret ((mem_ok, pa), s1) ->
   let r := reservation (hart s) in
   (r = mkRes pa sz true -> exists s', AMO_SC va sz val s = Ret ((mem_ok, 0), s') /\
     dram s' pa sz = Ret (uN (8 * sz) val) /\ valid (reservation (hart s')) = false /\
     (forall pa' n, 0 <= n -> pa' + n <= pa \/ pa + sz <= pa' -> dram s' pa' n = dram s1 pa' n)) /\
   (valid r = false \/ paddr r <> pa \/ rsize r <> sz -> exists s', AMO_SC va sz val s = Ret ((mem_ok, 1), s') /\
     mmap s' = mmap s1 /\ valid (reservation (hart s')) = false)).
Proof.
  intros Hd Hva Hz Hin. destruct (lr_sc s s1 va sz pa val Hd Hva Hz Hin) as [Hlr Hsc].
  split; [exact Hlr|]. intros Htr r. split; [exact (Hsc Htr)|]. exact (sc_fails s s1 va sz pa val (proj1 Hd) Hva Htr).
Qed.

(** A store of the hart itself to the reserved address ends the
    reservation; so does one to any lower address, but a store strictly above
    the reserved address, inside the reserved bytes or not, leaves it valid. *)
Lemma store_and_reservation (s : State B) pa sz val : dram_ok s -> is_size sz = true ->
  in_dram (mmio_memsize s) pa sz = true ->
  valid (reservation (hart s)) = true -> 0 <= rsize (reservation (hart s)) <= 8 ->
  0 <= paddr (reservation (hart s)) < 2 ^ 63 ->
  exists s', write pa sz val true s = Ret (mem_ok, s') /\
    valid (reservation (hart s')) = negb (pa <=? paddr (reservation (hart s))).
Proof.
  intros Hd Hz Hin Hv Hr Hp. destruct (write_phys s pa sz val Hd Hz Hin) as (s' & Hw & _ & Hh & _).
  exists s'. split; [done|]. rewrite Hh. unfold amo_check_reservation. rewrite Hv.
  rewrite uN_id by (split; lia). destruct (Z.leb_spec pa (paddr (reservation (hart s)))); cbn [andb negb]; [|done].
  by rewrite (proj2 (Z.leb_le _ _)) by lia.
Qed.

(** A read-modify-write on RAM returns the old value and leaves the
    function of it and the operand in its place, and nothing else changes in
    RAM. *)
Lemma amo_rmw (s s1 : State B) va r2 f pa : dram_ok s -> inw 64 va ->
  translate STORE va s = Ret ((mem_ok, pa), s1) ->
  (in_dram (mmio_memsize s) pa Long = true ->
   exists v s', dram s1 pa Long = Ret v /\ AMO64 va r2 f s = Ret ((mem_ok, v), s') /\
     dram s' pa Long = Ret (u64 (f v r2)) /\
     (forall pa' n, 0 <= n -> pa' + n <= pa \/ pa + 8 <= pa' -> dram s' pa' n = dram s1 pa' n)) /\
  (in_dram (mmio_memsize s) pa Int = true ->
   exists v s', dram s1 pa Int = Ret v /\ AMO32 va r2 f s = Ret ((mem_ok, v), s') /\
     dram s' pa Int = Ret (u32 (f v r2)) /\
     (forall pa' n, 0 <= n -> pa' + n <= pa \/ pa + 4 <= pa' -> dram s' pa' n = dram s1 pa' n)).
Proof.
  intros Hd Hva Htr. pose proof (translate_frame _ _ _ _ _ _ (proj1 Hd) Hva Htr) as [Hf _].
  pose proof (dram_ok_layout _ _ (tr_frame_layout _ _ Hf) Hd) as Hd1.
  destruct (tr_frame_layout _ _ Hf) as (_ & Hsz & _). rewrite <- Hsz. split; intros Hin.
  - destruct (read_phys s1 pa Long Hd1 eq_refl Hin) as (v & Hv & _ & Hr).
    destruct (write_phys s1 pa Long (f v r2) Hd1 eq_refl Hin) as (s' & Hw & _ & _ & Hs & Ho).
    exists v, s'. split_and!; try done. unfold AMO64. cbv [mbind ST_bind]. rewrite Htr.
    cbn [mem_ok mr_success negb]. rewrite Hr. cbn [mem_ok mr_success negb]. by rewrite Hw.
  - destruct (read_phys s1 pa Int Hd1 eq_refl Hin) as (v & Hv & _ & Hr).
    destruct (write_phys s1 pa Int (f v r2) Hd1 eq_refl Hin) as (s' & Hw & _ & _ & Hs & Ho).
    exists v, s'. split_and!; try done. unfold AMO32. cbv [mbind ST_bind]. rewrite Htr.
    cbn [mem_ok mr_success negb]. rewrite Hr. cbn [mem_ok mr_success negb]. by rewrite Hw.
Qed.
End rv64a_spec.

(** ** Type invariant *)

Section rv64a_wf.
Context {B : Type} `{BusLaws B}.

Definition mem_val_ok (r : MemoryReturn * Z) : Prop := mem_ret_ok (fst r) /\ inw 64 (snd r).

Lemma mem_val_0 r : mem_ret_ok r -> mem_val_ok (r, 0).
Proof. intros. split; [done|by apply inw_0]. Qed.

Lemma AMO_SC_keeps va sz v : inw 64 va -> keeps (B := B) (AMO_SC va sz v) mem_val_ok.
Proof.
  intros Hva. eapply keeps_bind; [by apply translate_keeps|]. intros [r pa] [Hr Hpa].
  apply keeps_if; intros _; [by apply keeps_ret, mem_val_0|].
  kbind; [by apply keeps_gets|]. intros res _. apply keeps_if; intros _.
  - eapply keeps_bind; [by apply write_keeps|]. intros out Ho.
    apply keeps_if; intros _; [by apply keeps_ret, mem_val_0|].
    kbind; [apply keeps_mod_hart; auto with rvw|]. intros; by apply keeps_ret, mem_val_0.
  - kbind; [apply keeps_mod_hart; auto with rvw|]. intros. by apply keeps_ret.
Qed.

Lemma read_val_keeps addr sz isphys : inw 64 addr -> is_size sz = true ->
  keeps (B := B) (read addr sz isphys) mem_val_ok.
Proof.
  intros Ha Hz. eapply keeps_weaken; [by apply read_keeps|]. intros [r v] [? ?].
  split; [done|]. by eapply load_ext_inw.
Qed.

Lemma AMO_LR_keeps va sz : inw 64 va -> is_size sz = true -> keeps (B := B) (AMO_LR va sz) mem_val_ok.
Proof.
  intros Hva Hz. eapply keeps_bind; [by apply translate_keeps|]. intros [r pa] [Hr Hpa].
  apply keeps_if; intros _; [by apply keeps_ret, mem_val_0|].
  eapply keeps_bind; [by apply read_val_keeps|]. intros [p v] [Hp Hv].
  apply keeps_if; intros _; [by apply keeps_ret, mem_val_0|].
  kbind; [apply keeps_mod_hart; auto with rvw|]. intros. by apply keeps_ret.
Qed.

Lemma AMO_keeps va r2 f : inw 64 va ->
  keeps (B := B) (AMO64 va r2 f) mem_val_ok /\ keeps (B := B) (AMO32 va r2 f) mem_val_ok.
Proof.
  intros Hva. split; (eapply keeps_bind; [by apply translate_keeps|]; intros [r pa] [Hr Hpa];
    apply keeps_if; intros _; [by apply keeps_ret, mem_val_0|];
    eapply keeps_bind; [by apply read_val_keeps|]; intros [out v] [Ho Hv];
    apply keeps_if; intros _; [by apply keeps_ret, mem_val_0|];
    eapply keeps_bind; [by apply write_keeps|]; intros w Hw;
    apply keeps_if; intros _; [by apply keeps_ret, mem_val_0|]; by apply keeps_ret).
Qed.

Lemma amo_wrap_keeps i (m : M B (MemoryReturn * Z)) ext :
  keeps m mem_val_ok -> (forall v, inw 64 v -> inw 64 (ext v)) ->
  keeps (B := B) ('(out, val) ← m;
    _ ← (if mr_success out then setreg i (ext val) else mret tt); mret (mem_exec 4 out)) exec_ret_ok.
Proof.
  intros Hm Hext. eapply keeps_bind; [exact Hm|]. intros [out v] [Ho Hv].
  kbind; [|intros; by apply keeps_ret, mem_exec_ok].
  apply keeps_if; intros _; [apply keeps_setreg; auto|by apply keeps_ret].
Qed.

Lemma amo_keeps f d : keeps (B := B) (amo_d f d) exec_ret_ok /\ keeps (B := B) (amo_w f d) exec_ret_ok.
Proof.
  split; (apply (keeps_bind _ _ (inw 64)); [apply keeps_reg|]; intros a Ha;
    apply (keeps_bind _ _ (inw 64)); [apply keeps_reg|]; intros b Hb).
  - apply (amo_wrap_keeps _ _ (fun v => v)); [apply (proj1 (AMO_keeps _ _ _ Ha))|done].
  - apply (amo_wrap_keeps _ _ (fun v => u64 (s32 v))); [apply (proj2 (AMO_keeps _ _ _ Ha))|].
    intros. by apply uN_inw.
Qed.

(** The tail of the LR and SC handlers. *)
Lemma amo_tail_keeps i out v w : mem_ret_ok out -> inw 64 v -> 0 <= w <= 4 ->
  keeps (B := B) (if negb (mr_success out) then mret (mkExec false false w (mr_exc_code out) (mr_tval out))
    else _ ← setreg i v; mret exec_ok) exec_ret_ok.
Proof.
  intros [Hc Ht] Hv Hw. apply keeps_if; intros _; [by apply keeps_ret|].
  kbind; [by apply keeps_setreg|]. auto with rvw.
Qed.

Lemma exec_LR_keeps d : keeps (B := B) (exec_LR_D d) exec_ret_ok /\ keeps (B := B) (exec_LR_W d) exec_ret_ok.
Proof.
  split; (apply (keeps_bind _ _ (inw 64)); [apply keeps_reg|]; intros a Ha;
    eapply keeps_bind; [by apply AMO_LR_keeps|]; intros [out v] [Ho Hv];
    apply amo_tail_keeps; [done| |done]; auto with rvw).
Qed.

Lemma exec_SC_keeps d : keeps (B := B) (exec_SC_D d) exec_ret_ok /\ keeps (B := B) (exec_SC_W d) exec_ret_ok.
Proof.
  split; (apply (keeps_bind _ _ (inw 64)); [apply keeps_reg|]; intros a Ha;
    apply (keeps_bind _ _ (inw 64)); [apply keeps_reg|]; intros b Hb;
    eapply keeps_bind; [by apply AMO_SC_keeps|]; intros [out v] [Ho Hv]; by apply amo_tail_keeps).
Qed.

Ltac amo_handler :=
  lazymatch goal with
  | |- keeps (exec_LR_D _) _ => apply (proj1 (exec_LR_keeps _))
  | |- keeps (exec_LR_W _) _ => apply (proj2 (exec_LR_keeps _))
  | |- keeps (exec_SC_D _) _ => apply (proj1 (exec_SC_keeps _))
  | |- keeps (exec_SC_W _) _ => apply (proj2 (exec_SC_keeps _))
  | _ => open_handler; lazymatch goal with
         | |- keeps (amo_d _ _) _ => apply (proj1 (amo_keeps _ _))
         | |- keeps (amo_w _ _) _ => apply (proj2 (amo_keeps _ _))
         end
  end.

Lemma rv64a_keeps : Forall instr_keeps (init_rv64a (B := B)).
Proof.
  repeat (apply List.Forall_cons; [split; [intros d Hd; cbn [i_func]; amo_handler|exact I]|]).
  apply List.Forall_nil.
Qed.
End rv64a_wf.
