(* ===== verification/Rv64c.v ===== *)
(** * Compressed instructions ([src/sets/rv64c.cpp])

    The handlers decode the three-bit registers of the compressed formats from
    the instruction word; [rd] and [imm] are the decoder's. The floating-point
    loads and stores move raw 64-bit values. *)

From Stdlib Require Import Strings.String.
From S2P Require Import Prelude Defs MemoryMap SelfMod Tlb Decode Hart State Mmu Mmio Rv64i.

Section rv64c.
Context {B : Type} `{BusOps B}.

Definition freg (i : Z) : M B Z := gets (fun s => fpr (hart s) i).
Definition setfreg (i v : Z) : M B unit := mod_hart (put_fpr i v).

Definition exec_C_ADDI4SPN (d : InstructionData) : M B ExecReturn :=
  sp ← reg 2;
  _ ← setreg (8 + d_c_rd (inst d)) (u64 (sp + imm d));
  mret exec_ok2.

(** Loads and stores: [set] receives the value read. *)
Definition c_load (addr : Z) (sz : MemorySize) (set : Z -> M B unit) : M B ExecReturn :=
  '(success, val) ← read addr sz false;
  _ ← (if mr_success success then set val else mret tt);
  mret (mem_exec 2 success).

Definition c_store (addr : Z) (sz : MemorySize) (val : Z) : M B ExecReturn :=
  success ← write addr sz val false;
  mret (mem_exec 2 success).

Definition exec_C_LW (d : InstructionData) : M B ExecReturn :=
  a ← reg (8 + d_c_rs1 (inst d));
  c_load (u64 (a + imm d)) Int (fun v => setreg (8 + d_c_rd (inst d)) (u64 (s32 v))).

Definition exec_C_LD (d : InstructionData) : M B ExecReturn :=
  a ← reg (8 + d_c_rs1 (inst d));
  c_load (u64 (a + imm d)) Long (setreg (8 + d_c_rd (inst d))).

Definition exec_C_FLD (d : InstructionData) : M B ExecReturn :=
  a ← reg (8 + d_c_rs1 (inst d));
  c_load (u64 (a + imm d)) Long (setfreg (8 + d_c_rd (inst d))).

Definition exec_C_SW (d : InstructionData) : M B ExecReturn :=
  a ← reg (8 + d_c_rs1 (inst d)); v ← reg (8 + d_c_rd (inst d));
  c_store (u64 (a + imm d)) Int v.

Definition exec_C_SD (d : InstructionData) : M B ExecReturn :=
  a ← reg (8 + d_c_rs1 (inst d)); v ← reg (8 + d_c_rd (inst d));
  c_store (u64 (a + imm d)) Long v.

Definition exec_C_FSD (d : InstructionData) : M B ExecReturn :=
  a ← reg (8 + d_c_rs1 (inst d)); v ← freg (8 + d_c_rd (inst d));
  c_store (u64 (a + imm d)) Long v.

Definition exec_C_NOP (d : InstructionData) : M B ExecReturn := mret exec_ok2.

(** [GPR[i] = f(GPR[i])] and the next compressed instruction. *)
Definition c_upd (i : Z) (f : Z -> Z) : M B ExecReturn :=
  a ← reg i; _ ← setreg i (f a); mret exec_ok2.

Definition exec_C_ADDI (d : InstructionData) : M B ExecReturn :=
  c_upd (rd d) (fun a => u64 (a + imm d)).

Definition exec_C_ADDIW (d : InstructionData) : M B ExecReturn :=
  c_upd (rd d) (fun a => u64 (s32 (u64 (a + imm d)))).

Definition exec_C_LI (d : InstructionData) : M B ExecReturn :=
  _ ← setreg (rd d) (imm d); mret exec_ok2.

Definition exec_C_LUI_ADDI16SP (d : InstructionData) : M B ExecReturn :=
  if rd d =? 2 then c_upd 2 (fun a => u64 (a + sext (u32 (d_c_nzimm_9 (inst d))) 10))
  else _ ← setreg (rd d) (u64 (Z.shiftl (imm d) 12)); mret exec_ok2.

(** [GPR[8 + rd]] with the five-bit [rd]; the pattern of the instruction leaves
    [rd < 8]. *)
Definition exec_C_SRLI (d : InstructionData) : M B ExecReturn :=
  if 32 <=? 8 + rd d then undef else c_upd (8 + rd d) (fun a => Z.shiftr a (imm d)).

Definition c_reg (d : InstructionData) : Z := 8 + Z.land (rd d) 0x7.

Definition exec_C_SRAI (d : InstructionData) : M B ExecReturn :=
  c_upd (c_reg d) (fun a => u64 (Z.shiftr (s64 a) (imm d))).

Definition exec_C_ANDI (d : InstructionData) : M B ExecReturn :=
  c_upd (c_reg d) (fun a => Z.land a (u64 (sext (u32 (imm d)) 6))).

(** [GPR[8 + (rd & 7)] = f(GPR[8 + (rd & 7)], GPR[8 + d_c_rd(inst)])]. *)
Definition c_arith (f : Z -> Z -> Z) (d : InstructionData) : M B ExecReturn :=
  a ← reg (c_reg d); b ← reg (8 + d_c_rd (inst d));
  _ ← setreg (c_reg d) (f a b);
  mret exec_ok2.

Definition exec_C_SUB : InstructionData -> M B ExecReturn := c_arith op_SUB.
Definition exec_C_XOR : InstructionData -> M B ExecReturn := c_arith op_XOR.
Definition exec_C_OR : InstructionData -> M B ExecReturn := c_arith op_OR.
Definition exec_C_AND : InstructionData -> M B ExecReturn := c_arith op_AND.
Definition exec_C_SUBW : InstructionData -> M B ExecReturn := c_arith (fun a b => u64 (s32 (u64 (a - b)))).
Definition exec_C_ADDW : InstructionData -> M B ExecReturn := c_arith (fun a b => u64 (s32 (u64 (a + b)))).

(** [pc += (int32_t)imm]. *)
Definition c_jump (d : InstructionData) : M B ExecReturn :=
  _ ← mod_hart (fun h => set_pc (u64 (pc h + s32 (imm d))) h); mret exec_jump.

Definition exec_C_J (d : InstructionData) : M B ExecReturn := c_jump d.

Definition exec_C_BEQZ (d : InstructionData) : M B ExecReturn :=
  a ← reg (c_reg d); if a =? 0 then c_jump d else mret exec_ok2.

Definition exec_C_BNEZ (d : InstructionData) : M B ExecReturn :=
  a ← reg (c_reg d); if negb (a =? 0) then c_jump d else mret exec_ok2.

Definition exec_C_SLLI (d : InstructionData) : M B ExecReturn :=
  c_upd (rd d) (fun a => u64 (Z.shiftl a (imm d))).

Definition exec_C_LWSP (d : InstructionData) : M B ExecReturn :=
  sp ← reg 2; c_load (u64 (sp + imm d)) Int (fun v => setreg (rd d) (u64 (s32 v))).

Definition exec_C_LDSP (d : InstructionData) : M B ExecReturn :=
  sp ← reg 2; c_load (u64 (sp + imm d)) Long (setreg (rd d)).

Definition exec_C_FLDSP (d : InstructionData) : M B ExecReturn :=
  sp ← reg 2; c_load (u64 (sp + imm d)) Long (setfreg (rd d)).

Definition exec_C_JR (d : InstructionData) : M B ExecReturn :=
  a ← reg (rd d);
  _ ← mod_hart (set_pc (Z.land a (not64 1)));
  mret exec_jump.

Definition exec_C_MV (d : InstructionData) : M B ExecReturn :=
  b ← reg (d_c_rs2 (inst d)); _ ← setreg (rd d) b; mret exec_ok2.

Definition exec_C_EBREAK (d : InstructionData) : M B ExecReturn :=
  p ← gets (fun s => pc (hart s)); mret (mkExec false true 0 EXC_BREAKPOINT p).

Definition exec_C_JALR (d : InstructionData) : M B ExecReturn :=
  p ← gets (fun s => pc (hart s));
  a ← reg (rd d);
  _ ← mod_hart (set_pc (Z.land a (not64 1)));
  _ ← setreg 1 (u64 (p + 2));
  mret exec_jump.

Definition exec_C_ADD (d : InstructionData) : M B ExecReturn :=
  a ← reg (rd d); b ← reg (d_c_rs2 (inst d));
  _ ← setreg (rd d) (u64 (a + b));
  mret exec_ok2.

Definition exec_C_SWSP (d : InstructionData) : M B ExecReturn :=
  sp ← reg 2; v ← reg (d_c_rs2 (inst d)); c_store (u64 (sp + imm d)) Int v.

Definition exec_C_SDSP (d : InstructionData) : M B ExecReturn :=
  sp ← reg 2; v ← reg (d_c_rs2 (inst d)); c_store (u64 (sp + imm d)) Long v.

Definition exec_C_FSDSP (d : InstructionData) : M B ExecReturn :=
  sp ← reg 2; v ← freg (d_c_rs2 (inst d)); c_store (u64 (sp + imm d)) Long v.

(** [init_rv64c] without [USE_FPU], and the entries it adds with it. *)
Definition init_rv64c : list (Instr B) :=
  [
   mkInstr "000***********00" exec_C_ADDI4SPN (Some d_c_uimm);
   mkInstr "010***********00" exec_C_LW (Some d_c_uimm_cl);
   mkInstr "011***********00" exec_C_LD (Some d_c_uimm_cl1);
   mkInstr "110***********00" exec_C_SW (Some d_c_uimm_cl);
   mkInstr "111***********00" exec_C_SD (Some d_c_uimm_cl1);
   mkInstr "0000000000000001" exec_C_NOP None;
   mkInstr "000***********01" exec_C_ADDI (Some d_c_nzimm);
   mkInstr "001***********01" exec_C_ADDIW (Some d_c_nzimm);
   mkInstr "010***********01" exec_C_LI (Some d_c_nzimm);
   mkInstr "011***********01" exec_C_LUI_ADDI16SP (Some d_c_nzimm);
   mkInstr "100*00********01" exec_C_SRLI (Some d_c_uimm_arith);
   mkInstr "100*01********01" exec_C_SRAI (Some d_c_uimm_arith);
   mkInstr "100*10********01" exec_C_ANDI (Some d_c_uimm_arith);
   mkInstr "100011***00***01" exec_C_SUB None;
   mkInstr "100011***01***01" exec_C_XOR None;
   mkInstr "100011***10***01" exec_C_OR None;
   mkInstr "100011***11***01" exec_C_AND None;
   mkInstr "100111***00***01" exec_C_SUBW None;
   mkInstr "100111***01***01" exec_C_ADDW None;
   mkInstr "101***********01" exec_C_J (Some d_c_j_imm);
   mkInstr "110***********01" exec_C_BEQZ (Some d_c_b_imm);
   mkInstr "111***********01" exec_C_BNEZ (Some d_c_b_imm);
   mkInstr "000***********10" exec_C_SLLI (Some d_c_uimm_arith);
   mkInstr "010***********10" exec_C_LWSP (Some d_c_uimm_lwsp);
   mkInstr "011***********10" exec_C_LDSP (Some d_c_uimm_ldsp);
   mkInstr "1000*****0000010" exec_C_JR None;
   mkInstr "1000**********10" exec_C_MV None;
   mkInstr "1001000000000010" exec_C_EBREAK None;
   mkInstr "1001*****0000010" exec_C_JALR None;
   mkInstr "1001**********10" exec_C_ADD None;
   mkInstr "110***********10" exec_C_SWSP (Some d_c_uimm_swsp);
   mkInstr "111***********10" exec_C_SDSP (Some d_c_uimm_sdsp)].

Definition init_rv64c_fpu : list (Instr B) :=
  [
   mkInstr "001***********00" exec_C_FLD (Some d_c_uimm_cl1);
   mkInstr "101***********00" exec_C_FSD (Some d_c_uimm_cl1);
   mkInstr "001***********10" exec_C_FLDSP (Some d_c_uimm_ldsp);
   mkInstr "101***********10" exec_C_FSDSP (Some d_c_uimm_sdsp)].
End rv64c.

(** ** Type invariant *)

Section rv64c_wf.
Context {B : Type} `{BusLaws B}.

Lemma keeps_freg i : keeps (B := B) (freg i) (inw 64).
Proof. apply keeps_gets. intros s [Hh _]. auto with rvw. Qed.

Lemma keeps_setfreg i v : inw 64 v -> keeps (B := B) (setfreg i v) (fun _ => True).
Proof. intros. apply keeps_mod_hart. auto with rvw. Qed.

Lemma c_load_keeps addr sz set : inw 64 addr -> is_size sz = true ->
  (forall v, inw 64 v -> keeps (B := B) (set v) (fun _ => True)) ->
  keeps (B := B) (c_load addr sz set) exec_ret_ok.
Proof.
  intros Ha Hz Hs. eapply keeps_bind; [by apply read_keeps|]. intros [r v] [Hr Hv].
  kbind; [|intros; by apply keeps_ret, mem_exec_ok].
  apply keeps_if; intros _; [|by apply keeps_ret]. apply Hs. by eapply load_ext_inw.
Qed.

Lemma c_store_keeps addr sz v : inw 64 addr -> keeps (B := B) (c_store addr sz v) exec_ret_ok.
Proof.
  intros Ha. eapply keeps_bind; [by apply write_keeps|]. intros r Hr. by apply keeps_ret, mem_exec_ok.
Qed.

Lemma c_upd_keeps i f : (forall a, inw 64 a -> inw 64 (f a)) -> keeps (B := B) (c_upd i f) exec_ret_ok.
Proof.
  intros Hf. apply (keeps_bind _ _ (inw 64)); [apply keeps_reg|]. intros a Ha.
  kbind; [apply keeps_setreg; auto|]. auto with rvw.
Qed.

Lemma c_arith_keeps f d : closed2 f -> keeps (B := B) (c_arith f d) exec_ret_ok.
Proof.
  intros Hf. apply (keeps_bind _ _ (inw 64)); [apply keeps_reg|]. intros a Ha.
  apply (keeps_bind _ _ (inw 64)); [apply keeps_reg|]. intros b Hb.
  kbind; [apply keeps_setreg; by apply Hf|]. auto with rvw.
Qed.

Lemma c_jump_keeps d : keeps (B := B) (c_jump d) exec_ret_ok.
Proof. kbind; [apply keeps_mod_hart; auto with rvw|]. auto with rvw. Qed.

Lemma and_not1_inw a : inw 64 a -> inw 64 (Z.land a (not64 1)).
Proof. intros. apply inw_land; auto with rvw. Qed.
End rv64c_wf.

(** One step of a compressed handler. *)
Ltac c_step :=
  lazymatch goal with
  | |- keeps (c_load _ _ _) _ => apply c_load_keeps; [by apply uN_inw|reflexivity|intros]
  | |- keeps (c_store _ _ _) _ => apply c_store_keeps; by apply uN_inw
  | |- keeps (c_upd _ _) _ => apply c_upd_keeps; intros
  | |- keeps (c_arith _ _) _ => apply c_arith_keeps; closed2_tac
  | |- keeps (c_jump _) _ => apply c_jump_keeps
  | |- keeps (if _ then _ else _) _ => apply keeps_if; intros _
  | |- keeps (mret _) _ => apply keeps_ret; first [solve [auto with rvw]|done]
  | |- keeps undef _ => apply keeps_undef
  | |- keeps (setreg _ _) _ => apply keeps_setreg
  | |- keeps (setfreg _ _) _ => apply keeps_setfreg
  | |- keeps (mod_hart (set_pc _)) _ => apply keeps_set_pc
  | |- keeps (reg _ ≫= _) _ => apply (keeps_bind _ _ (inw 64)); [apply keeps_reg|intros ? ?]
  | |- keeps (freg _ ≫= _) _ => apply (keeps_bind _ _ (inw 64)); [apply keeps_freg|intros ? ?]
  | |- keeps (gets (fun s => pc (hart s)) ≫= _) _ => apply (keeps_bind _ _ (inw 64)); [apply keeps_pc|intros ? ?]
  | |- keeps (_ ≫= _) _ => kbind; [|intros ? _]
  | |- inw 64 (uN 64 _) => by apply uN_inw
  | |- inw 64 (Z.land _ (not64 1)) => by apply and_not1_inw
  | |- inw 64 (Z.land _ (uN _ _)) => apply inw_land; [lia|assumption|by apply uN_inw]
  | |- inw 64 (Z.shiftr _ (imm _)) => apply inw_shiftr; [lia|by match goal with H : data_ok _ |- _ => destruct H as [[? _] _] end|assumption]
  | |- inw 64 (imm _) => by match goal with H : data_ok _ |- _ => destruct H as [? _] end
  | |- inw 64 _ => assumption
  end.

Lemma rv64c_keeps {B} `{BusLaws B} : Forall instr_keeps (init_rv64c ++ init_rv64c_fpu (B := B)).
Proof.
  unfold init_rv64c, init_rv64c_fpu. cbn [app].
  repeat (apply List.Forall_cons;
    [split; [intros d Hd; cbn [i_func]; open_handler; repeat c_step
            |cbn [i_imm]; first [exact I|solve [auto with rvw]]]|]).
  apply List.Forall_nil.
Qed.

(** ** Expansion into base instructions *)

(** The operands of the 32-bit instruction a compressed one stands for. *)
Definition with_ops (d : InstructionData) (r1 r2 rd_ imm_ : Z) : InstructionData :=
  mkData (rs3 d) (rm d) r1 r2 rd_ (inst d) imm_ (isize d).

Section expand.
Context {B : Type} `{BusOps B}.

(** [m] with the length of its instruction changed from 4 to 2. *)
Definition short (m : M B ExecReturn) : M B ExecReturn :=
  r ← m;
  mret (mkExec (er_success r) (er_can_change_pc r)
          (if er_increase_pc r =? 4 then 2 else er_increase_pc r) (er_cause r) (er_tval r)).

Lemma s32_wide x y : s32 (u64 x) = s32 y <-> s32 x = s32 y.
Proof.
  rewrite (s32_cong (u64 x) x); [done|]. unfold uN. by apply mod_mod_pow.
Qed.

Lemma word_sum a b : s32 (u64 (a + b)) = s32 (u32 (u32 a + u32 b)) /\
  s32 (u64 (a - b)) = s32 (u32 (u32 a - u32 b)) /\ s32 (u64 (a + b)) = s32 (u64 (u32 a + b)).
Proof.
  rewrite !s32_wide, sN_uN by lia.
  split_and!; [|rewrite sN_uN by lia|symmetry; apply s32_wide]; apply s32_cong; unfold uN.
  - by rewrite <- Z.add_mod by lia.
  - by rewrite <- Zminus_mod.
  - by rewrite Zplus_mod_idemp_l.
Qed.

Lemma short_load sz ext d (a b : Z) (s : State B) : 
  c_load (u64 (gpr (hart s) a + imm d)) sz (fun v => setreg b (ext v)) s =
  short (load_to sz ext (with_ops d a 0 b (imm d))) s.
Proof.
  unfold c_load, short, load_to, reg, gets. cbv [mbind ST_bind]. cbn [rs1 rd imm with_ops].
  destruct (read _ sz false s) as [[[r v] s']|e|]; [|done..].
  by destruct (mr_success r).
Qed.

Lemma short_store sz d (a b : Z) (s : State B) :
  c_store (u64 (gpr (hart s) a + imm d)) sz (gpr (hart s) b) s =
  short (store_from sz (with_ops d a b 0 (imm d))) s.
Proof.
  unfold c_store, short, store_from, reg, gets. cbv [mbind ST_bind]. cbn [rs1 rs2 imm with_ops].
  by destruct (write _ sz _ false s) as [[r s']|e|].
Qed.

(** [m] with x0 zeroed afterwards, as the loop that runs the handlers does. *)
Definition x0_clear (m : M B ExecReturn) : M B ExecReturn :=
  r ← m; _ ← setreg 0 0; mret r.

Lemma u64_add_r p x : u64 (p + u64 x) = u64 (p + x).
Proof. unfold uN. apply Zplus_mod_idemp_r. Qed.

Lemma put_gpr0_id h : gpr h 0 = 0 -> put_gpr 0 0 h = h.
Proof.
  unfold gpr, put_gpr, set_GPR. destruct h as [? G]. cbn. destruct G as [|x G]; [done|]. simpl. by intros ->.
Qed.

Lemma put_gpr0_twice v h : put_gpr 0 0 (put_gpr 0 v h) = put_gpr 0 0 h.
Proof. unfold put_gpr, set_GPR. cbn. by rewrite list_insert_insert_eq. Qed.

Lemma setreg0_id (s : State B) : gpr (hart s) 0 = 0 -> setreg 0 0 s = Ret (tt, s).
Proof. intros H0. unfold setreg, mod_hart, modify. rewrite put_gpr0_id by done. by destruct s. Qed.

Lemma setreg0_twice v (s : State B) :
  match setreg 0 v s with Ret (_, s') => setreg 0 0 s' | Throw e => Throw e | Undef => Undef end =
  setreg 0 0 s.
Proof. unfold setreg, mod_hart, modify. cbn. by rewrite put_gpr0_twice. Qed.

Lemma land_not1_even x : Z.land x (not64 1) mod 2 = 0.
Proof. rewrite <- Z.bit0_mod, Z.land_spec. by rewrite andb_comm. Qed.

Lemma u64_even x : x mod 2 = 0 -> u64 x mod 2 = 0.
Proof.
  intros He. unfold uN. change (2 ^ 64) with (2 * 2 ^ 63).
  by rewrite Z.rem_mul_r, (Z.mul_comm 2), Z_mod_plus_full, Zmod_mod by lia.
Qed.

(** A branch on a register and x0. *)
Lemma short_branch cond d r (s : State B) : gpr (hart s) 0 = 0 ->
  (pc (hart s) + s32 (imm d)) mod 2 = 0 ->
  short (branch cond (with_ops d r 0 0 (u64 (s32 (imm d))))) s =
  if cond (gpr (hart s) r) 0 then c_jump d s else Ret (exec_ok2, s).
Proof.
  intros H0 He. unfold short, branch, reg, gets, c_jump. cbv [mbind ST_bind]. cbn [rs1 rs2 imm with_ops].
  rewrite H0. destruct (cond _ 0); [|done]. cbv beta. by rewrite u64_add_r, u64_even.
Qed.

Lemma s64_eqb0 a : inw 64 a -> (s64 a =? s64 0) = (a =? 0).
Proof.
  intros Ha. destruct (Z.eqb_spec a 0) as [->|Hn]; [done|]. apply Z.eqb_neq. intros E.
  apply sN_inj in E; [done|lia|done|by apply inw_0].
Qed.

(** C10: compressed instructions expand: run from any state, a compressed
    instruction does what the 32-bit instruction the ISA manual names for it
    does on the operands its fields encode, and is two bytes long. Where the
    32-bit instruction reads x0 or writes to it, x0 is zero before and zeroed
    after, and jump targets are even. C.JALR, whose link is the address of the
    next compressed instruction, has no 32-bit equivalent and is given in full. *)
Theorem compressed_expand (d : InstructionData) (s : State B) :
  let rdc := 8 + d_c_rd (inst d) in
  let rs1c := 8 + d_c_rs1 (inst d) in
  let rd3 := c_reg d in
  let rs2c := d_c_rs2 (inst d) in
  let d' := with_ops d in
  exec_C_ADDI4SPN d s = short (exec_ADDI (d' 2 0 rdc (imm d))) s /\
  exec_C_LW d s = short (exec_LW (d' rs1c 0 rdc (imm d))) s /\
  exec_C_LD d s = short (exec_LD (d' rs1c 0 rdc (imm d))) s /\
  exec_C_SW d s = short (exec_SW (d' rs1c rdc 0 (imm d))) s /\
  exec_C_SD d s = short (exec_SD (d' rs1c rdc 0 (imm d))) s /\
  exec_C_LWSP d s = short (exec_LW (d' 2 0 (rd d) (imm d))) s /\
  exec_C_LDSP d s = short (exec_LD (d' 2 0 (rd d) (imm d))) s /\
  exec_C_SWSP d s = short (exec_SW (d' 2 rs2c 0 (imm d))) s /\
  exec_C_SDSP d s = short (exec_SD (d' 2 rs2c 0 (imm d))) s /\
  exec_C_ADDI d s = short (exec_ADDI (d' (rd d) 0 (rd d) (imm d))) s /\
  exec_C_ADDIW d s = short (exec_ADDIW (d' (rd d) 0 (rd d) (imm d))) s /\
  (rd d <> 2 -> exec_C_LUI_ADDI16SP d s = short (exec_LUI (d' 0 0 (rd d) (u64 (Z.shiftl (imm d) 12)))) s) /\
  (rd d < 8 -> exec_C_SRLI d s = short (exec_SRLI (d' (8 + rd d) 0 (8 + rd d) (imm d))) s) /\
  exec_C_SRAI d s = short (exec_SRAI (d' rd3 0 rd3 (imm d))) s /\
  exec_C_ANDI d s = short (exec_ANDI (d' rd3 0 rd3 (u64 (sext (u32 (imm d)) 6)))) s /\
  exec_C_SUB d s = short (exec_SUB (d' rd3 rdc rd3 0)) s /\
  exec_C_XOR d s = short (exec_XOR (d' rd3 rdc rd3 0)) s /\
  exec_C_OR d s = short (exec_OR (d' rd3 rdc rd3 0)) s /\
  exec_C_AND d s = short (exec_AND (d' rd3 rdc rd3 0)) s /\
  exec_C_SUBW d s = short (exec_SUBW (d' rd3 rdc rd3 0)) s /\
  exec_C_ADDW d s = short (exec_ADDW (d' rd3 rdc rd3 0)) s /\
  exec_C_SLLI d s = short (exec_SLLI (d' (rd d) 0 (rd d) (imm d))) s /\
  exec_C_ADD d s = short (exec_ADD (d' (rd d) rs2c (rd d) 0)) s /\
  (rd d = 2 -> exec_C_LUI_ADDI16SP d s =
     short (exec_ADDI (d' 2 0 2 (u64 (sext (u32 (d_c_nzimm_9 (inst d))) 10)))) s) /\
  exec_C_EBREAK d s = exec_EBREAK d s /\
  exec_C_JALR d s =
    Ret (exec_jump, set_hart (put_gpr 1 (u64 (pc (hart s) + 2))
                               (set_pc (Z.land (gpr (hart s) (rd d)) (not64 1)) (hart s))) s) /\
  (hart_wf (hart s) -> gpr (hart s) 0 = 0 -> inw 64 (imm d) ->
     exec_C_NOP d s = short (exec_ADDI (d' 0 0 0 0)) s /\
     exec_C_LI d s = short (exec_ADDI (d' 0 0 (rd d) (imm d))) s /\
     exec_C_MV d s = short (exec_ADD (d' 0 rs2c (rd d) 0)) s /\
     x0_clear (exec_C_JR d) s = x0_clear (short (exec_JALR (d' (rd d) 0 0 0))) s /\
     ((pc (hart s) + s32 (imm d)) mod 2 = 0 ->
        let off := u64 (s32 (imm d)) in
        x0_clear (exec_C_J d) s = x0_clear (short (exec_JAL (d' 0 0 0 off))) s /\
        exec_C_BEQZ d s = short (exec_BEQ (d' rd3 0 0 off)) s /\
        exec_C_BNEZ d s = short (exec_BNE (d' rd3 0 0 off)) s)).
Proof.
  intros rdc rs1c rd3 rs2c d'.
  repeat match goal with |- _ /\ _ => split | |- (_ <> _) -> _ => intros ? | |- (_ < _) -> _ => intros ?
    | |- (rd d = 2) -> _ => intros ? end;
    try reflexivity.
  1-8: first
    [ exact (short_load _ (fun v => u64 (s32 v)) d _ _ s) | exact (short_load _ (fun v => v) d _ _ s)
    | exact (short_store _ d _ _ s) ].
  - unfold exec_C_ADDIW, c_upd, short, exec_ADDIW, alu_ri, op_ADDIW. cbv [mbind ST_bind reg gets].
    cbn [rs1 rd imm with_ops d']. by rewrite (proj2 (proj2 (word_sum _ _))).
  - unfold exec_C_LUI_ADDI16SP. by rewrite (proj2 (Z.eqb_neq _ _)).
  - unfold exec_C_SRLI. by rewrite (proj2 (Z.leb_gt 32 _)) by lia.
  - unfold exec_C_SUBW, c_arith, short, exec_SUBW, alu_rr, op_SUBW. cbv [mbind ST_bind reg gets].
    cbn [rs1 rs2 rd imm with_ops d']. by rewrite (proj1 (proj2 (word_sum _ _))).
  - unfold exec_C_ADDW, c_arith, short, exec_ADDW, alu_rr, op_ADDW. cbv [mbind ST_bind reg gets].
    cbn [rs1 rs2 rd imm with_ops d']. by rewrite (proj1 (word_sum _ _)).
  - unfold exec_C_LUI_ADDI16SP. rewrite (proj2 (Z.eqb_eq _ _)) by done.
    unfold c_upd, short, exec_ADDI, alu_ri, op_ADDI. cbv [mbind ST_bind reg gets].
    cbn [rs1 rd imm with_ops d']. by rewrite u64_add_r.
  - intros Hw H0 Hi. assert (forall i, inw 64 (gpr (hart s) i)) as Hg by (intros; by apply gpr_wf).
    split_and!.
    5:{ intros He off. unfold exec_BEQ, exec_BNE, off, d'. rewrite !short_branch, s64_eqb0 by (done || apply Hg).
        split_and!; [|unfold exec_C_BEQZ, exec_C_BNEZ; cbv [mbind ST_bind reg gets]; unfold rd3;
          by destruct (gpr (hart s) (c_reg d) =? 0)..]. unfold exec_C_J, exec_JAL, c_jump, short, x0_clear.
        cbv [mbind ST_bind reg gets]. cbn [rs1 rs2 rd imm with_ops d'].
        rewrite u64_add_r, u64_even by done. cbn. by rewrite put_gpr0_twice. }
    all: unfold exec_C_LI, exec_C_MV, exec_C_NOP, exec_C_JR, short, exec_ADDI, exec_ADD, alu_ri, alu_rr,
      op_ADDI, op_ADD, exec_JALR, x0_clear;
    cbv [mbind ST_bind reg gets]; cbn [rs1 rs2 rd imm with_ops d'];
    rewrite ?H0, ?Z.add_0_l, ?Z.add_0_r, ?uN_id by (done || apply Hg || by apply inw_0); try done.
    + by rewrite setreg0_id.
    + rewrite land_not1_even. cbn. by rewrite put_gpr0_twice.
Qed.
End expand.
