(* ===== verification/Zb.v ===== *)
(** * Bit manipulation ([src/sets/zba.cpp], [zbb.cpp], [zbc.cpp], [zbs.cpp])

    One definition per handler; [op_X] is the value written to [GPR[rd]]. A
    loop over the bits or bytes of a register is a fold over its index range,
    a loop left by [break] a recursive function. A shift by the width of the
    operand is undefined behaviour: [shl64] and [shr64]. *)

From Stdlib Require Import Strings.String.
From S2P Require Import Prelude Defs MemoryMap SelfMod Tlb Decode Hart State Mmu Mmio Rv64i Rv64m.

(** [x << n] and [x >> n] on [uint64_t]. *)
Definition shl64 (x n : Z) : outcome Z := if n <? 64 then Ret (u64 (Z.shiftl x n)) else Undef.
Definition shr64 (x n : Z) : outcome Z := if n <? 64 then Ret (Z.shiftr x n) else Undef.

(** ** Address generation *)

Definition op_ADD_UW (a b : Z) : Z := u64 (b + u32 a).
Definition op_SH1ADD (a b : Z) : Z := u64 (b + u64 (Z.shiftl a 1)).
Definition op_SH1ADD_UW (a b : Z) : Z := u64 (b + u64 (Z.shiftl (u32 a) 1)).
Definition op_SH2ADD (a b : Z) : Z := u64 (b + u64 (Z.shiftl a 2)).
Definition op_SH2ADD_UW (a b : Z) : Z := u64 (b + u64 (Z.shiftl (u32 a) 2)).
Definition op_SH3ADD (a b : Z) : Z := u64 (b + u64 (Z.shiftl a 3)).
Definition op_SH3ADD_UW (a b : Z) : Z := u64 (b + u64 (Z.shiftl (u32 a) 3)).
Definition op_SLLI_UW (a im : Z) : outcome Z := shl64 (u32 a) im.

(** ** Basic bit manipulation *)

Definition op_ANDN (a b : Z) : Z := Z.land a (not64 b).
Definition op_ORN (a b : Z) : Z := Z.lor a (not64 b).
Definition op_XNOR (a b : Z) : Z := not64 (Z.lxor a b).

(** [(x >> i) & 1]. *)
Definition bit_at (x i : Z) : Z := Z.land (Z.shiftr x i) 1.

(** The loops of [exec_CLZ] ([i] from [n - 1] down to 0) and [exec_CTZ]
    ([n] iterations from [i]), which leave at the first set bit; [c] is the
    value of the variable when no bit is set. *)
Fixpoint clz_loop (x c : Z) (n : nat) : Z :=
  match n with
  | O => c
  | S k => if negb (bit_at x (Z.of_nat k) =? 0) then Z.of_nat k else clz_loop x c k
  end.

Fixpoint ctz_loop (x c i : Z) (n : nat) : Z :=
  match n with
  | O => c
  | S k => if negb (bit_at x i =? 0) then i else ctz_loop x c (i + 1) k
  end.

Definition op_CLZ (a : Z) : Z := u64 (63 - clz_loop a (u64 (-1)) 64).
Definition op_CLZW (a : Z) : Z := u64 (31 - clz_loop (u32 a) (u64 (-1)) 32).
Definition op_CTZ (a : Z) : Z := ctz_loop a 64 0 64.
Definition op_CTZW (a : Z) : Z := ctz_loop (u32 a) 32 0 32.

(** The counter is a [uint8_t]. *)
Definition cpop_loop (x n : Z) : Z := foldl (fun c i => u8 (c + bit_at x i)) 0 (seqZ 0 n).
Definition op_CPOP (a : Z) : Z := cpop_loop a 64.
Definition op_CPOPW (a : Z) : Z := cpop_loop (u32 a) 32.

Definition op_MAX (a b : Z) : Z := u64 (Z.max (s64 a) (s64 b)).
Definition op_MAXU (a b : Z) : Z := Z.max a b.
Definition op_MIN (a b : Z) : Z := u64 (Z.min (s64 a) (s64 b)).
Definition op_MINU (a b : Z) : Z := Z.min a b.
Definition op_SEXT_B (a : Z) : Z := u64 (s8 a).
Definition op_SEXT_H (a : Z) : Z := u64 (s16 a).
Definition op_ZEXT_H (a : Z) : Z := Z.land a 0xFFFF.

Definition op_ROL (a b : Z) : outcome Z :=
  let shamt := Z.land b 0x3F in
  x ← shl64 a shamt; y ← shr64 a (64 - shamt); Ret (Z.lor x y).
Definition op_ROLW (a b : Z) : Z :=
  let shamt := Z.land b 0x1F in
  u64 (s32 (Z.lor (u64 (Z.shiftl (u32 a) shamt)) (Z.shiftr (u32 a) (32 - shamt)))).
Definition op_ROR (a b : Z) : outcome Z :=
  let shamt := Z.land b 0x3F in
  x ← shr64 a shamt; y ← shl64 a (64 - shamt); Ret (Z.lor x y).
Definition op_RORI (a im : Z) : outcome Z :=
  x ← shr64 a im; y ← shl64 a (u64 (64 - im)); Ret (Z.lor x y).
Definition op_RORIW (a im : Z) : outcome Z :=
  x ← shr64 (u32 a) im; y ← shl64 (u32 a) (u64 (32 - im)); Ret (Z.lor x y).
Definition op_RORW (a b : Z) : Z :=
  let shamt := Z.land b 0x1F in
  u64 (s32 (Z.lor (Z.shiftr (u32 a) shamt) (u64 (Z.shiftl (u32 a) (32 - shamt))))).

Definition op_ORC_B (a : Z) : Z :=
  foldl (fun out k =>
    let i := 8 * k in
    let b := Z.land (Z.shiftr a i) 0xFF in
    Z.lor out (Z.shiftl (if b =? 0 then 0x00 else 0xFF) i)) 0 (seqZ 0 8).

Definition op_REV8 (a : Z) : Z :=
  foldl (fun out i =>
    Z.lor out (Z.shiftl (Z.land (Z.shiftr a (i * 8)) 0xFF) ((64 / 8 - 1 - i) * 8))) 0 (seqZ 0 8).

(** ** Carry-less multiplication *)

Definition op_CLMUL (a b : Z) : Z :=
  foldl (fun out i => if negb (bit_at b i =? 0) then Z.lxor out (u64 (Z.shiftl a i)) else out) 0 (seqZ 0 64).
Definition op_CLMULH (a b : Z) : Z :=
  foldl (fun out i => if negb (bit_at b i =? 0) then Z.lxor out (Z.shiftr a (64 - i)) else out) 0 (seqZ 1 63).
Definition op_CLMULR (a b : Z) : Z :=
  foldl (fun out i => if negb (bit_at b i =? 0) then Z.lxor out (Z.shiftr a (63 - i)) else out) 0 (seqZ 0 64).

(** ** Single bits; the immediate forms use the same functions. *)

Definition bit_index (b : Z) : Z := Z.land b 0x3f.
Definition op_BCLR (a b : Z) : Z := Z.land a (not64 (u64 (Z.shiftl 1 (bit_index b)))).
Definition op_BEXT (a b : Z) : Z := Z.land (Z.shiftr a (bit_index b)) 1.
Definition op_BINV (a b : Z) : Z := Z.lxor a (u64 (Z.shiftl 1 (bit_index b))).
Definition op_BSET (a b : Z) : Z := Z.lor a (u64 (Z.shiftl 1 (bit_index b))).

Section zb.
Context {B : Type} `{BusOps B}.

(** [GPR[rd] = f(GPR[rs1])]. *)
Definition alu_r (f : Z -> Z) (d : InstructionData) : M B ExecReturn :=
  a ← reg (rs1 d);
  _ ← setreg (rd d) (f a);
  mret exec_ok.

(** [alu_ri] for an operation that may be undefined. *)
Definition alu_ri_ub (f : Z -> Z -> outcome Z) (d : InstructionData) : M B ExecReturn :=
  a ← reg (rs1 d);
  match f a (imm d) with
  | Ret v => _ ← setreg (rd d) v; mret exec_ok
  | Throw e => throw e
  | Undef => undef
  end.

Definition exec_ADD_UW : InstructionData -> M B ExecReturn := alu_rr op_ADD_UW.
Definition exec_SH1ADD : InstructionData -> M B ExecReturn := alu_rr op_SH1ADD.
Definition exec_SH1ADD_UW : InstructionData -> M B ExecReturn := alu_rr op_SH1ADD_UW.
Definition exec_SH2ADD : InstructionData -> M B ExecReturn := alu_rr op_SH2ADD.
Definition exec_SH2ADD_UW : InstructionData -> M B ExecReturn := alu_rr op_SH2ADD_UW.
Definition exec_SH3ADD : InstructionData -> M B ExecReturn := alu_rr op_SH3ADD.
Definition exec_SH3ADD_UW : InstructionData -> M B ExecReturn := alu_rr op_SH3ADD_UW.
Definition exec_SLLI_UW : InstructionData -> M B ExecReturn := alu_ri_ub op_SLLI_UW.
Definition exec_ANDN : InstructionData -> M B ExecReturn := alu_rr op_ANDN.
Definition exec_ORN : InstructionData -> M B ExecReturn := alu_rr op_ORN.
Definition exec_XNOR : InstructionData -> M B ExecReturn := alu_rr op_XNOR.
Definition exec_CLZ : InstructionData -> M B ExecReturn := alu_r op_CLZ.
Definition exec_CLZW : InstructionData -> M B ExecReturn := alu_r op_CLZW.
Definition exec_CTZ : InstructionData -> M B ExecReturn := alu_r op_CTZ.
Definition exec_CTZW : InstructionData -> M B ExecReturn := alu_r op_CTZW.
Definition exec_CPOP : InstructionData -> M B ExecReturn := alu_r op_CPOP.
Definition exec_CPOPW : InstructionData -> M B ExecReturn := alu_r op_CPOPW.
Definition exec_MAX : InstructionData -> M B ExecReturn := alu_rr op_MAX.
Definition exec_MAXU : InstructionData -> M B ExecReturn := alu_rr op_MAXU.
Definition exec_MIN : InstructionData -> M B ExecReturn := alu_rr op_MIN.
Definition exec_MINU : InstructionData -> M B ExecReturn := alu_rr op_MINU.
Definition exec_SEXT_B : InstructionData -> M B ExecReturn := alu_r op_SEXT_B.
Definition exec_SEXT_H : InstructionData -> M B ExecReturn := alu_r op_SEXT_H.
Definition exec_ZEXT_H : InstructionData -> M B ExecReturn := alu_r op_ZEXT_H.
Definition exec_ROL : InstructionData -> M B ExecReturn := alu_rr_ub op_ROL.
Definition exec_ROLW : InstructionData -> M B ExecReturn := alu_rr op_ROLW.
Definition exec_ROR : InstructionData -> M B ExecReturn := alu_rr_ub op_ROR.
Definition exec_RORI : InstructionData -> M B ExecReturn := alu_ri_ub op_RORI.
Definition exec_RORIW : InstructionData -> M B ExecReturn := alu_ri_ub op_RORIW.
Definition exec_RORW : InstructionData -> M B ExecReturn := alu_rr op_RORW.
Definition exec_ORC_B : InstructionData -> M B ExecReturn := alu_r op_ORC_B.
Definition exec_REV8 : InstructionData -> M B ExecReturn := alu_r op_REV8.
Definition exec_CLMUL : InstructionData -> M B ExecReturn := alu_rr op_CLMUL.
Definition exec_CLMULH : InstructionData -> M B ExecReturn := alu_rr op_CLMULH.
Definition exec_CLMULR : InstructionData -> M B ExecReturn := alu_rr op_CLMULR.
Definition exec_BCLR : InstructionData -> M B ExecReturn := alu_rr op_BCLR.
Definition exec_BCLRI : InstructionData -> M B ExecReturn := alu_ri op_BCLR.
Definition exec_BEXT : InstructionData -> M B ExecReturn := alu_rr op_BEXT.
Definition exec_BEXTI : InstructionData -> M B ExecReturn := alu_ri op_BEXT.
Definition exec_BINV : InstructionData -> M B ExecReturn := alu_rr op_BINV.
Definition exec_BINVI : InstructionData -> M B ExecReturn := alu_ri op_BINV.
Definition exec_BSET : InstructionData -> M B ExecReturn := alu_rr op_BSET.
Definition exec_BSETI : InstructionData -> M B ExecReturn := alu_ri op_BSET.

(** [init_zba]. *)
Definition init_zba : list (Instr B) :=
  [
   mkInstr "0000100**********000*****0111011" exec_ADD_UW None;
   mkInstr "0010000**********010*****0110011" exec_SH1ADD None;
   mkInstr "0010000**********010*****0111011" exec_SH1ADD_UW None;
   mkInstr "0010000**********100*****0110011" exec_SH2ADD None;
   mkInstr "0010000**********100*****0111011" exec_SH2ADD_UW None;
   mkInstr "0010000**********110*****0110011" exec_SH3ADD None;
   mkInstr "0010000**********110*****0111011" exec_SH3ADD_UW None;
   mkInstr "000010***********001*****0011011" exec_SLLI_UW None].

(** [init_zbb]. *)
Definition init_zbb : list (Instr B) :=
  [
   mkInstr "0100000**********111*****0110011" exec_ANDN None;
   mkInstr "0100000**********110*****0110011" exec_ORN None;
   mkInstr "0100000**********100*****0110011" exec_XNOR None;
   mkInstr "011000000000*****001*****0010011" exec_CLZ None;
   mkInstr "011000000000*****001*****0011011" exec_CLZW None;
   mkInstr "011000000001*****001*****0010011" exec_CTZ None;
   mkInstr "011000000001*****001*****0011011" exec_CTZW None;
   mkInstr "011000000010*****001*****0010011" exec_CPOP None;
   mkInstr "011000000010*****001*****0011011" exec_CPOPW None;
   mkInstr "0000101**********110*****0110011" exec_MAX None;
   mkInstr "0000101**********111*****0110011" exec_MAXU None;
   mkInstr "0000101**********100*****0110011" exec_MIN None;
   mkInstr "0000101**********101*****0110011" exec_MINU None;
   mkInstr "011000000100*****001*****0010011" exec_SEXT_B None;
   mkInstr "011000000101*****001*****0010011" exec_SEXT_H None;
   mkInstr "000010000000*****100*****0111011" exec_ZEXT_H None;
   mkInstr "0110000**********001*****0110011" exec_ROL None;
   mkInstr "0110000**********001*****0111011" exec_ROLW None;
   mkInstr "0110000**********101*****0110011" exec_ROR None;
   mkInstr "011000***********101*****0010011" exec_RORI None;
   mkInstr "0110000**********101*****0011011" exec_RORIW None;
   mkInstr "0110000**********101*****0111011" exec_RORW None;
   mkInstr "001010000111*****101*****0010011" exec_ORC_B None;
   mkInstr "011010111000*****101*****0010011" exec_REV8 None].

(** [init_zbc]. *)
Definition init_zbc : list (Instr B) :=
  [
   mkInstr "0000101**********001*****0110011" exec_CLMUL None;
   mkInstr "0000101**********011*****0110011" exec_CLMULH None;
   mkInstr "0000101**********010*****0110011" exec_CLMULR None].

(** [init_zbs]. *)
Definition init_zbs : list (Instr B) :=
  [
   mkInstr "0100100**********001*****0110011" exec_BCLR None;
   mkInstr "010010***********001*****0010011" exec_BCLRI None;
   mkInstr "0100100**********101*****0110011" exec_BEXT None;
   mkInstr "010010***********101*****0010011" exec_BEXTI None;
   mkInstr "0110100**********001*****0110011" exec_BINV None;
   mkInstr "011010***********001*****0010011" exec_BINVI None;
   mkInstr "0010100**********001*****0110011" exec_BSET None;
   mkInstr "001010***********001*****0010011" exec_BSETI None].
End zb.

(** ** Bits of the loops *)

Lemma bit_at_spec x i : 0 <= i -> negb (bit_at x i =? 0) = Z.testbit x i.
Proof.
  intros Hi. unfold bit_at. change 1 with (Z.ones 1). rewrite Z.land_ones by lia.
  change (2 ^ 1) with 2. rewrite <- Z.bit0_mod, Z.shiftr_spec, Z.add_0_l by lia. by destruct (Z.testbit x i).
Qed.

Lemma bit_at_b2z x i : 0 <= i -> bit_at x i = b2z (Z.testbit x i).
Proof.
  intros Hi. unfold bit_at. change 1 with (Z.ones 1). rewrite Z.land_ones by lia.
  change (2 ^ 1) with 2. by rewrite <- Z.bit0_mod, Z.shiftr_spec, Z.add_0_l by lia.
Qed.

(** The highest set bit below [n], and the lowest one at or above [i]. *)
Lemma clz_loop_spec x c n :
  (exists k, clz_loop x c n = k /\ 0 <= k < Z.of_nat n /\ Z.testbit x k = true /\
     forall j, k < j < Z.of_nat n -> Z.testbit x j = false) \/
  (clz_loop x c n = c /\ forall j, 0 <= j < Z.of_nat n -> Z.testbit x j = false).
Proof.
  induction n as [|n IH]; cbn [clz_loop]; [right; split; [done|intros; lia]|].
  rewrite bit_at_spec by lia. destruct (Z.testbit x (Z.of_nat n)) eqn:E.
  - left. exists (Z.of_nat n). split_and!; [done|lia|lia|done|intros; lia].
  - destruct IH as [(k & Hk & Hr & Hb & Hj)|[Hc Hj]]; [left; exists k|right]; split_and!; try done; try lia.
    + intros j ?. destruct (decide (j = Z.of_nat n)) as [->|]; [done|apply Hj; lia].
    + intros j ?. destruct (decide (j = Z.of_nat n)) as [->|]; [done|apply Hj; lia].
Qed.

Lemma ctz_loop_spec x c i n : 0 <= i ->
  (exists k, ctz_loop x c i n = k /\ i <= k < i + Z.of_nat n /\ Z.testbit x k = true /\
     forall j, i <= j < k -> Z.testbit x j = false) \/
  (ctz_loop x c i n = c /\ forall j, i <= j < i + Z.of_nat n -> Z.testbit x j = false).
Proof.
  revert i. induction n as [|n IH]; intros i Hi; cbn [ctz_loop]; [right; split; [done|intros; lia]|].
  rewrite bit_at_spec by lia. destruct (Z.testbit x i) eqn:E.
  - left. exists i. split_and!; [done|lia|lia|done|intros; lia].
  - destruct (IH (i + 1) ltac:(lia)) as [(k & Hk & Hr & Hb & Hj)|[Hc Hj]]; [left; exists k|right];
      split_and!; try done; try lia.
    + intros j ?. destruct (decide (j = i)) as [->|]; [done|apply Hj; lia].
    + intros j ?. destruct (decide (j = i)) as [->|]; [done|apply Hj; lia].
Qed.

Lemma testbit_log2 w x k : inw w x -> 0 <= k -> Z.testbit x k = true ->
  (forall j, k < j < w -> Z.testbit x j = false) -> x <> 0 /\ Z.log2 x = k.
Proof.
  intros Hx Hk Hb Hh.
  assert (x <> 0) as Hx0 by (intros ->; by rewrite Z.bits_0 in Hb).
  assert (0 < x) as Hpos by (destruct Hx; lia). split; [done|].
  destruct (Z.lt_trichotomy (Z.log2 x) k) as [Hl|[Hl|Hl]]; [|done|].
  - by rewrite Z.bits_above_log2 in Hb by lia.
  - pose proof (Z.bit_log2 x Hpos) as Hlog. destruct (Z.lt_ge_cases (Z.log2 x) w).
    + by rewrite Hh in Hlog by lia.
    + by rewrite (inw_high w) in Hlog by done.
Qed.

Lemma no_bits w x : inw w x -> (forall j, 0 <= j < w -> Z.testbit x j = false) -> x = 0.
Proof.
  intros Hx Hb. apply Z.bits_inj'. intros j Hj. rewrite Z.bits_0.
  destruct (Z.lt_ge_cases j w); [apply Hb; lia|by apply (inw_high w)].
Qed.

(** Leading zeros of a [w]-bit value. *)
Definition isa_clz (w x : Z) : Z := if x =? 0 then w else w - 1 - Z.log2 x.

(** [r] is the number of trailing zeros of the [w]-bit value [x]. *)
Definition isa_ctz (w x r : Z) : Prop :=
  if x =? 0 then r = w else 0 <= r < w /\ x mod 2 ^ r = 0 /\ Z.odd (x / 2 ^ r) = true.

Lemma clz_loop_log2 w x : 0 < w <= 64 -> inw w x ->
  u64 (w - 1 - clz_loop x (u64 (-1)) (Z.to_nat w)) = isa_clz w x.
Proof.
  intros Hw Hx. unfold isa_clz.
  destruct (clz_loop_spec x (u64 (-1)) (Z.to_nat w)) as [(k & -> & Hk & Hb & Hj)|[-> Hj]];
    rewrite Z2Nat.id in * by lia.
  - destruct (testbit_log2 w x k) as [Hx0 Hl]; try done; [lia|].
    rewrite (proj2 (Z.eqb_neq x 0)), Hl by done. apply uN_id.
    split; [lia|]. change (2 ^ 64) with 18446744073709551616. lia.
  - rewrite (no_bits w x) by done. cbn [Z.eqb].
    unfold uN. rewrite Zminus_mod_idemp_r. replace (w - 1 - -1) with w by lia. apply Z.mod_small.
    change (2 ^ 64) with 18446744073709551616. lia.
Qed.

Lemma ctz_loop_odd w x : 0 < w -> inw w x -> isa_ctz w x (ctz_loop x w 0 (Z.to_nat w)).
Proof.
  intros Hw Hx. unfold isa_ctz.
  destruct (ctz_loop_spec x w 0 (Z.to_nat w)) as [(k & -> & Hk & Hb & Hj)|[-> Hj]]; [lia| |];
    rewrite Z2Nat.id in * by lia.
  - rewrite (proj2 (Z.eqb_neq x 0)) by (intros ->; by rewrite Z.bits_0 in Hb).
    split_and!; [lia|lia| |].
    + apply Z.bits_inj'. intros j ?. rewrite Z.bits_0.
      destruct (Z.lt_ge_cases j k); [|apply Z.mod_pow2_bits_high; lia].
      rewrite Z.mod_pow2_bits_low by lia. apply Hj. lia.
    + rewrite <- Z.bit0_odd, Z.div_pow2_bits by lia. by rewrite Z.add_0_l.
  - rewrite (no_bits w x) by (done || intros; apply Hj; lia). done.
Qed.

(** Number of set bits among the first [n]. *)
Definition isa_cpop (n x : Z) : Z :=
  Z.of_nat (length (filter (fun i => Z.testbit x i = true) (seqZ 0 n))).

Lemma cpop_fold x l c : Forall (fun i => 0 <= i) l -> 0 <= c -> c + Z.of_nat (length l) < 256 ->
  foldl (fun c i => u8 (c + bit_at x i)) c l =
  c + Z.of_nat (length (filter (fun i => Z.testbit x i = true) l)).
Proof.
  intros Hl. revert c. induction Hl as [|i l Hi Hl IH]; intros c Hc Hb; cbn [foldl]; [cbn; lia|].
  cbn [length] in Hb. rewrite bit_at_b2z, filter_cons by done.
  rewrite (uN_id 8) by (split; destruct (Z.testbit x i); cbn; lia).
  destruct (decide (Z.testbit x i = true)) as [E|E].
  - rewrite E. cbn [b2z length]. rewrite IH by lia. lia.
  - rewrite (not_true_is_false _ E). cbn [b2z]. rewrite IH by lia. lia.
Qed.

Lemma cpop_loop_spec x n : 0 <= n <= 64 -> cpop_loop x n = isa_cpop n x.
Proof.
  intros Hn. unfold cpop_loop, isa_cpop. rewrite cpop_fold; [done| |done|].
  - apply Forall_forall. intros i Hi%elem_of_seqZ. lia.
  - rewrite length_seqZ. lia.
Qed.

(** Counting instructions: CLZ and CLZW return the distance of the highest
    set bit from the top (the width for 0), CTZ and CTZW the largest power of
    two dividing the operand (the width for 0), CPOP and CPOPW the number of
    set bits; the W forms look at the low word only. *)
Lemma zbb_counts (a : Z) : inw 64 a ->
  op_CLZ a = isa_clz 64 a /\ op_CLZW a = isa_clz 32 (a mod 2 ^ 32) /\
  isa_ctz 64 a (op_CTZ a) /\ isa_ctz 32 (a mod 2 ^ 32) (op_CTZW a) /\
  op_CPOP a = isa_cpop 64 a /\ op_CPOPW a = isa_cpop 32 (a mod 2 ^ 32).
Proof.
  intros Ha. assert (inw 32 (u32 a)) as Hw by by apply uN_inw.
  split_and!.
  - by apply (clz_loop_log2 64).
  - by apply (clz_loop_log2 32).
  - by apply (ctz_loop_odd 64).
  - by apply (ctz_loop_odd 32).
  - by apply cpop_loop_spec.
  - by apply cpop_loop_spec.
Qed.

(** ** Carry-less products *)

(** A fold of conditional exclusive-ors, bit by bit. *)
Lemma xor_fold_bits (g : Z -> Z) b l acc j : Forall (fun i => 0 <= i) l ->
  Z.testbit (foldl (fun out i => if negb (bit_at b i =? 0) then Z.lxor out (g i) else out) acc l) j =
  foldl (fun t i => xorb t (Z.testbit b i && Z.testbit (g i) j)) (Z.testbit acc j) l.
Proof.
  intros Hl. revert acc. induction Hl as [|i l Hi Hl IH]; intros acc; cbn [foldl]; [done|].
  rewrite IH, bit_at_spec by done. destruct (Z.testbit b i); cbn [andb]; [by rewrite Z.lxor_spec|].
  by rewrite xorb_false_r.
Qed.

Lemma foldl_xor_ext (f g : Z -> bool) l acc : (forall i, i ∈ l -> f i = g i) ->
  foldl (fun t i => xorb t (f i)) acc l = foldl (fun t i => xorb t (g i)) acc l.
Proof.
  revert acc. induction l as [|i l IH]; intros acc Hl; cbn [foldl]; [done|].
  rewrite (Hl i) by by left. apply IH. intros. apply Hl. by right.
Qed.

(** The product of [a] and [b] as polynomials over GF(2). *)
Definition clmul (a b : Z) : Z :=
  foldl (fun out i => if negb (bit_at b i =? 0) then Z.lxor out (Z.shiftl a i) else out) 0 (seqZ 0 64).

Lemma seqZ_nonneg m n : 0 <= m -> Forall (fun i => 0 <= i) (seqZ m n).
Proof. intros. apply Forall_forall. intros i Hi%elem_of_seqZ. lia. Qed.

Lemma clmul_bits a b j :
  Z.testbit (clmul a b) j = foldl (fun t i => xorb t (Z.testbit b i && Z.testbit a (j - i))) false (seqZ 0 64).
Proof.
  unfold clmul. rewrite xor_fold_bits by by apply seqZ_nonneg. rewrite Z.bits_0.
  apply foldl_xor_ext. intros i Hi%elem_of_seqZ. by rewrite shiftl_bits by lia.
Qed.

(** The first step of a fold over [0 .. 63] whose first term is false. *)
Lemma seqZ_fold_skip (f : Z -> bool) : f 0 = false ->
  foldl (fun t i => xorb t (f i)) false (seqZ 0 64) = foldl (fun t i => xorb t (f i)) false (seqZ 1 63).
Proof. intros Hf. rewrite (seqZ_cons 0 64) by lia. cbn [foldl]. by rewrite Hf. Qed.

Lemma foldl_xor_none (f : Z -> bool) l acc : (forall i, i ∈ l -> f i = false) ->
  foldl (fun t i => xorb t (f i)) acc l = acc.
Proof.
  revert acc. induction l as [|i l IH]; intros acc Hl; cbn [foldl]; [done|].
  rewrite (Hl i), xorb_false_r by by left. apply IH. intros. apply Hl. by right.
Qed.

(** A loop whose step [i] adds bits [k - i] and up of [a] computes 64 bits of
    the product from bit [k]. *)
Lemma clmul_slice (g : Z -> Z) a b k l : inw 64 a -> 0 <= k ->
  l = seqZ 0 64 \/ (l = seqZ 1 63 /\ k = 64) ->
  (forall i j, i ∈ l -> 0 <= j -> Z.testbit (g i) j = ((j <? 64) && Z.testbit a (j + k - i))%bool) ->
  foldl (fun out i => if negb (bit_at b i =? 0) then Z.lxor out (g i) else out) 0 l =
  clmul a b / 2 ^ k mod 2 ^ 64.
Proof.
  intros Ha Hk Hl Hg. rewrite <- Z.shiftr_div_pow2 by lia. fold (uN 64 (Z.shiftr (clmul a b) k)).
  apply Z.bits_inj'. intros j Hj.
  rewrite xor_fold_bits by (destruct Hl as [->|[-> _]]; by apply seqZ_nonneg).
  rewrite uN_bits, shiftr_bits, clmul_bits, Z.bits_0, (proj2 (Z.leb_le 0 j)) by lia.
  rewrite (foldl_xor_ext _ (fun i => Z.testbit b i && ((j <? 64) && Z.testbit a (j + k - i)))%bool)
    by (intros i Hi; by rewrite Hg).
  destruct (j <? 64); cbn [andb]; [|apply foldl_xor_none; intros; apply andb_false_r].
  destruct Hl as [->|[-> ->]]; [done|]. symmetry. apply seqZ_fold_skip.
  rewrite (inw_high 64 a) by (done || lia). apply andb_false_r.
Qed.

(** Carry-less multiplication: CLMUL, CLMULH and CLMULR are the low word,
    the high word and bits 63 to 126 of one 127-bit carry-less product. *)
Lemma zbc_clmul (a b : Z) : inw 64 a ->
  op_CLMUL a b = clmul a b mod 2 ^ 64 /\
  op_CLMULH a b = clmul a b / 2 ^ 64 mod 2 ^ 64 /\
  op_CLMULR a b = clmul a b / 2 ^ 63 mod 2 ^ 64.
Proof.
  intros Ha.
  assert (forall i j k, 0 <= i <= k -> i < 64 -> 63 <= k -> 0 <= j ->
    Z.testbit (Z.shiftr a (k - i)) j = ((j <? 64) && Z.testbit a (j + k - i))%bool) as Hr.
  { intros i j k ? ? ? ?. rewrite shiftr_bits, (proj2 (Z.leb_le 0 j)) by lia. cbn [andb].
    replace (j + (k - i)) with (j + k - i) by lia.
    destruct (Z.ltb_spec j 64); [done|]. apply (inw_high 64); [done|lia]. }
  split_and!.
  - transitivity (clmul a b / 2 ^ 0 mod 2 ^ 64); [|by rewrite Z.div_1_r].
    apply clmul_slice; [done|done|by left|]. intros i j Hi%elem_of_seqZ Hj.
    rewrite uN_bits, shiftl_bits, Z.add_0_r by lia. done.
  - apply clmul_slice; [done|done|by right|]. intros i j Hi%elem_of_seqZ Hj. apply Hr; lia.
  - apply clmul_slice; [done|done|by left|]. intros i j Hi%elem_of_seqZ Hj. apply Hr; lia.
Qed.

(** ** Bytes *)

(** A word assembled by or-ing values shifted to the positions [p k]. *)
Lemma or_fold_bits (f p : Z -> Z) l acc j : Forall (fun k => 0 <= p k) l ->
  Z.testbit (foldl (fun out k => Z.lor out (Z.shiftl (f k) (p k))) acc l) j =
  (Z.testbit acc j || existsb (fun k => Z.testbit (f k) (j - p k)) l)%bool.
Proof.
  intros Hl. revert acc. induction Hl as [|k l Hk Hl IH]; intros acc; cbn [foldl existsb].
  - by rewrite orb_false_r.
  - rewrite IH, Z.lor_spec, shiftl_bits by done. by rewrite orb_assoc.
Qed.

Lemma or_fold_byte (f p : Z -> Z) l m : m ∈ l -> 
  (forall k, k ∈ l -> 0 <= p k /\ inw 8 (f k)) ->
  (forall k, k ∈ l -> k <> m -> p k + 8 <= p m \/ p m + 8 <= p k) ->
  bf_get (foldl (fun out k => Z.lor out (Z.shiftl (f k) (p k))) 0 l) (p m) 8 = f m.
Proof.
  intros Hm Hp Hd. destruct (Hp m Hm) as [Hpm Hfm].
  apply Z.bits_inj'. intros j Hj. rewrite bf_get_bits by lia.
  rewrite or_fold_bits, Z.bits_0 by (apply Forall_forall; intros k Hk; by apply Hp).
  destruct (Z.ltb_spec j 8); cbn [andb orb]; [|symmetry; by apply (inw_high 8)].
  apply eq_true_iff_eq. rewrite existsb_exists. split.
  - intros (k & Hk%list_elem_of_In & Hb). destruct (decide (k = m)) as [->|Hne].
    + by replace (j + p m - p m) with j in Hb by lia.
    + destruct (Hp k Hk) as [_ Hfk]. destruct (Hd k Hk Hne).
      * by rewrite (inw_high 8 (f k)) in Hb by (done || lia).
      * by rewrite Z.testbit_neg_r in Hb by lia.
  - intros Hb. exists m. split; [by apply list_elem_of_In|]. by replace (j + p m - p m) with j by lia.
Qed.

Lemma byte_of_land x i : Z.land (Z.shiftr x i) 0xFF = bf_get x i 8.
Proof. done. Qed.

(** Byte [k] of a register. *)
Definition byte_of (x k : Z) : Z := bf_get x (8 * k) 8.

Lemma orc_b_byte a k : 0 <= k < 8 -> byte_of (op_ORC_B a) k = if byte_of a k =? 0 then 0 else 255.
Proof.
  intros Hk. unfold byte_of at 1.
  refine (or_fold_byte (fun k => if bf_get a (8 * k) 8 =? 0 then 0 else 255) (fun k => 8 * k) (seqZ 0 8) k _ _ _).
  - apply elem_of_seqZ. lia.
  - intros i Hi%elem_of_seqZ. split; [lia|]. by destruct (_ =? 0).
  - intros i Hi%elem_of_seqZ Hne. lia.
Qed.

Lemma rev8_byte a k : 0 <= k < 8 -> byte_of (op_REV8 a) (7 - k) = byte_of a k.
Proof.
  intros Hk. unfold byte_of. replace (8 * (7 - k)) with ((64 / 8 - 1 - k) * 8) by (change (64 / 8) with 8; lia).
  replace (8 * k) with (k * 8) by lia.
  refine (or_fold_byte (fun i => bf_get a (i * 8) 8) (fun i => (64 / 8 - 1 - i) * 8) (seqZ 0 8) k _ _ _);
    change (64 / 8) with 8.
  - apply elem_of_seqZ. lia.
  - intros i Hi%elem_of_seqZ. split; [lia|]. apply bf_get_range. lia.
  - intros i Hi%elem_of_seqZ Hne. lia.
Qed.

(** ** Rotations and single bits *)

Lemma land_mask n b : 0 <= n -> Z.land b (Z.ones n) = b mod 2 ^ n.
Proof. apply Z.land_ones. Qed.

(** [i + c] reduced modulo [w], for an offset [c] known modulo [w]. *)
Lemma mod_shift w i b : 0 < w -> 0 <= i < w ->
  (i - b) mod w = if b mod w <=? i then i - b mod w else i - b mod w + w.
Proof.
  intros Hw Hi. pose proof (Z.mod_pos_bound b w Hw).
  rewrite <- Zminus_mod_idemp_r. destruct (Z.leb_spec (b mod w) i).
  - apply Z.mod_small. lia.
  - rewrite <- (Z_mod_plus_full (i - b mod w) 1), Z.mod_small by lia. lia.
Qed.

(** A left shift or-ed with the complementary right shift rotates a [w]-bit value. *)
Lemma rot_bits w a b i : 0 < w -> inw w a -> 0 <= i < w ->
  (Z.testbit (Z.shiftl a (b mod w)) i || Z.testbit (Z.shiftr a (w - b mod w)) i)%bool =
  Z.testbit a ((i - b) mod w).
Proof.
  intros Hw Ha Hi. pose proof (Z.mod_pos_bound b w Hw).
  rewrite shiftl_bits, shiftr_bits, mod_shift, (proj2 (Z.leb_le 0 i)) by lia. cbn [andb].
  destruct (Z.leb_spec (b mod w) i).
  - rewrite (inw_high w a (i + _)) by (done || lia). apply orb_false_r.
  - rewrite (Z.testbit_neg_r a (i - _)) by lia. cbn [orb]. f_equal. lia.
Qed.

(** Rotating right by [b] is rotating left by [- b]. *)
Lemma rot_bits_r w a b i : 0 < w -> inw w a -> 0 <= i < w ->
  (Z.testbit (Z.shiftr a (b mod w)) i || Z.testbit (Z.shiftl a (w - b mod w)) i)%bool =
  Z.testbit a ((i + b) mod w).
Proof.
  intros Hw Ha Hi. pose proof (Z.mod_pos_bound b w Hw).
  rewrite shiftl_bits, shiftr_bits, (proj2 (Z.leb_le 0 i)) by lia. cbn [andb].
  rewrite <- Zplus_mod_idemp_r. destruct (Z.lt_ge_cases (i + b mod w) w).
  - rewrite (Z.mod_small (i + b mod w)), (Z.testbit_neg_r a (i - _)) by lia. apply orb_false_r.
  - rewrite <- (Z_mod_plus_full (i + b mod w) (-1)), (Z.mod_small (_ + _ * _)), (inw_high w a (i + _)) by (done || lia).
    cbn [orb]. f_equal. lia.
Qed.

(** The value a rotation returns: 64-bit rotations by a multiple of 64 shift
    by the width of the operand. *)
Definition rotates (o : outcome Z) (bits : Z -> bool) (b : Z) : Prop :=
  if b mod 64 =? 0 then o = Undef
  else exists r, o = Ret r /\ inw 64 r /\ forall i, 0 <= i < 64 -> Z.testbit r i = bits i.

Lemma rol_spec a b : inw 64 a -> rotates (op_ROL a b) (fun i => Z.testbit a ((i - b) mod 64)) b.
Proof.
  intros Ha. unfold rotates, op_ROL, shl64, shr64. change 0x3F with (Z.ones 6).
  rewrite land_mask by lia. change (2 ^ 6) with 64. pose proof (Z.mod_pos_bound b 64 ltac:(lia)).
  rewrite (proj2 (Z.ltb_lt (b mod 64) 64)) by lia. cbn [mbind outcome_bind].
  destruct (Z.eqb_spec (b mod 64) 0) as [->|]; [done|].
  rewrite (proj2 (Z.ltb_lt (64 - b mod 64) 64)) by lia. eexists. split_and!; [done|by auto 6 with rvw..|].
  intros i Hi. rewrite Z.lor_spec, uN_bits, (proj2 (Z.ltb_lt i 64)) by lia. by apply rot_bits.
Qed.

Lemma ror_spec a b : inw 64 a -> rotates (op_ROR a b) (fun i => Z.testbit a ((i + b) mod 64)) b.
Proof.
  intros Ha. unfold rotates, op_ROR, shl64, shr64. change 0x3F with (Z.ones 6).
  rewrite land_mask by lia. change (2 ^ 6) with 64. pose proof (Z.mod_pos_bound b 64 ltac:(lia)).
  rewrite (proj2 (Z.ltb_lt (b mod 64) 64)) by lia. cbn [mbind outcome_bind].
  destruct (Z.eqb_spec (b mod 64) 0) as [->|]; [done|].
  rewrite (proj2 (Z.ltb_lt (64 - b mod 64) 64)) by lia. eexists. split_and!; [done|by auto 6 with rvw..|].
  intros i Hi. rewrite Z.lor_spec, uN_bits, (proj2 (Z.ltb_lt i 64)) by lia. by apply rot_bits_r.
Qed.

Lemma rolw_spec a b i : 0 <= i < 64 ->
  Z.testbit (op_ROLW a b) i = Z.testbit (u32 a) ((Z.min i 31 - b) mod 32) /\
  Z.testbit (op_RORW a b) i = Z.testbit (u32 a) ((Z.min i 31 + b) mod 32).
Proof.
  intros Hi. unfold op_ROLW, op_RORW. change 0x1F with (Z.ones 5).
  rewrite land_mask by lia. change (2 ^ 5) with 32. pose proof (Z.mod_pos_bound b 32 ltac:(lia)).
  assert (inw 32 (u32 a)) as Ha by by apply uN_inw.
  rewrite !(uN_bits 64), !sN_bits, !Z.lor_spec, !(uN_bits 64) by lia. change (32 - 1) with 31.
  rewrite (proj2 (Z.ltb_lt i 64)), (proj2 (Z.ltb_lt (Z.min i 31) 64)) by lia. cbn [andb].
  change (Z.ones 5) with 31. split; [apply rot_bits|apply rot_bits_r]; (done || lia).
Qed.

Lemma bit_mask_bits b i : 0 <= i < 64 ->
  Z.testbit (u64 (Z.shiftl 1 (bit_index b))) i = (i =? b mod 64).
Proof.
  intros Hi. unfold bit_index. change 0x3f with (Z.ones 6). rewrite land_mask by lia.
  change (2 ^ 6) with 64. pose proof (Z.mod_pos_bound b 64 ltac:(lia)).
  rewrite uN_bits, (proj2 (Z.ltb_lt i 64)) by lia. cbn [andb].
  rewrite Z.shiftl_1_l, Z.pow2_bits_eqb by lia. apply Z.eqb_sym.
Qed.

(** C11: CLZ, CTZ, CPOP and their W forms are the distance of the highest and
    lowest set bit and the number of set bits; CLMUL, CLMULH and CLMULR are
    the low word, the high word and the reversed word of the carry-less
    product. Bit positions: rotations move bit [i] by the amount in the register
    (a 64-bit rotation by a multiple of 64 is undefined behaviour), ORC.B
    saturates each non-zero byte, REV8 reverses the bytes and the Zbs
    instructions clear, set, invert or extract the one bit they name. *)
Theorem zb_bits (a b : Z) : inw 64 a ->
  (op_CLZ a = isa_clz 64 a /\ op_CLZW a = isa_clz 32 (a mod 2 ^ 32) /\
  isa_ctz 64 a (op_CTZ a) /\ isa_ctz 32 (a mod 2 ^ 32) (op_CTZW a) /\
  op_CPOP a = isa_cpop 64 a /\ op_CPOPW a = isa_cpop 32 (a mod 2 ^ 32)) /\
  (op_CLMUL a b = clmul a b mod 2 ^ 64 /\
  op_CLMULH a b = clmul a b / 2 ^ 64 mod 2 ^ 64 /\
  op_CLMULR a b = clmul a b / 2 ^ 63 mod 2 ^ 64) /\
  rotates (op_ROL a b) (fun i => Z.testbit a ((i - b) mod 64)) b /\
  rotates (op_ROR a b) (fun i => Z.testbit a ((i + b) mod 64)) b /\
  (forall i, 0 <= i < 64 ->
    Z.testbit (op_ROLW a b) i = Z.testbit (u32 a) ((Z.min i 31 - b) mod 32) /\
    Z.testbit (op_RORW a b) i = Z.testbit (u32 a) ((Z.min i 31 + b) mod 32) /\
    Z.testbit (op_BCLR a b) i = (Z.testbit a i && negb (i =? b mod 64))%bool /\
    Z.testbit (op_BSET a b) i = (Z.testbit a i || (i =? b mod 64))%bool /\
    Z.testbit (op_BINV a b) i = xorb (Z.testbit a i) (i =? b mod 64)) /\
  op_BEXT a b = b2z (Z.testbit a (b mod 64)) /\
  (forall k, 0 <= k < 8 ->
    byte_of (op_ORC_B a) k = (if byte_of a k =? 0 then 0 else 255) /\
    byte_of (op_REV8 a) (7 - k) = byte_of a k).
Proof.
  intros Ha. split; [exact (zbb_counts a Ha)|]. split; [exact (zbc_clmul a b Ha)|]. split; [by apply rol_spec|].
  split; [by apply ror_spec|]. split; [|split].
  - intros i Hi. destruct (rolw_spec a b i Hi). split; [done|]. split; [done|].
    unfold op_BCLR, op_BSET, op_BINV, not64.
    rewrite Z.land_spec, Z.lor_spec, Z.lxor_spec, (uN_bits 64 (Z.lnot _)), lnot_bits by lia.
    rewrite bit_mask_bits by done. by rewrite (proj2 (Z.ltb_lt i 64)) by lia.
  - unfold op_BEXT, bit_index. change 0x3f with (Z.ones 6). rewrite land_mask by lia.
    apply bit_at_b2z. apply Z.mod_pos_bound. lia.
  - intros k Hk. split; [by apply orc_b_byte|by apply rev8_byte].
Qed.

(** The immediate rotations never get their operand: the decoder passes 0,
    for which RORI is undefined and RORIW returns the word doubled. *)
Lemma rori_zero a : op_RORI a 0 = Undef /\
  op_RORIW a 0 = Ret (Z.lor (u32 a) (u64 (Z.shiftl (u32 a) 32))).
Proof. unfold op_RORI, op_RORIW, shr64, shl64. rewrite !Z.shiftr_0_r. done. Qed.

(** ** Type invariant *)

Lemma closed_max : closed2 op_MAXU /\ closed2 op_MINU.
Proof. split; intros a b [] []; unfold op_MAXU, op_MINU; split; lia. Qed.

Lemma xor_fold_inw (g : Z -> Z) b l acc : inw 64 acc -> (forall i, i ∈ l -> inw 64 (g i)) ->
  inw 64 (foldl (fun out i => if negb (bit_at b i =? 0) then Z.lxor out (g i) else out) acc l).
Proof.
  revert acc. induction l as [|i l IH]; intros acc Hacc Hl; cbn [foldl]; [done|].
  apply IH; [|intros; apply Hl; by right]. destruct (negb _); [|done].
  apply inw_lxor; [lia|done|]. apply Hl. by left.
Qed.

Lemma or_fold_inw (f p : Z -> Z) l acc : inw 64 acc ->
  (forall k, k ∈ l -> 0 <= p k /\ inw 64 (Z.shiftl (f k) (p k))) ->
  inw 64 (foldl (fun out k => Z.lor out (Z.shiftl (f k) (p k))) acc l).
Proof.
  revert acc. induction l as [|i l IH]; intros acc Hacc Hl; cbn [foldl]; [done|].
  apply IH; [|intros; apply Hl; by right]. apply inw_lor; [lia|done|]. apply Hl. by left.
Qed.

Lemma byte_shift_inw x p : 0 <= p <= 56 -> inw 8 x -> inw 64 (Z.shiftl x p).
Proof.
  intros Hp [Hx Hx']. rewrite Z.shiftl_mul_pow2 by lia. pose proof (pow2_pos p ltac:(lia)).
  split; [nia|]. change (2 ^ 64) with (2 ^ 8 * 2 ^ 56).
  assert (2 ^ p <= 2 ^ 56) by (apply Z.pow_le_mono_r; lia). nia.
Qed.

Lemma clmul_inw a b : inw 64 a -> inw 64 (op_CLMUL a b) /\ inw 64 (op_CLMULH a b) /\ inw 64 (op_CLMULR a b).
Proof.
  intros Ha. split_and!; apply xor_fold_inw; try done; intros i Hi%elem_of_seqZ; auto with rvw.
Qed.

Lemma bytes_inw a : inw 64 (op_ORC_B a) /\ inw 64 (op_REV8 a).
Proof.
  split.
  - apply (or_fold_inw (fun k => if Z.land (Z.shiftr a (8 * k)) 0xFF =? 0 then 0 else 0xFF)); [done|].
    intros k Hk%elem_of_seqZ. split; [lia|]. apply byte_shift_inw; [lia|]. by destruct (_ =? 0).
  - apply (or_fold_inw (fun i => bf_get a (i * 8) 8) (fun i => (64 / 8 - 1 - i) * 8)); [done|].
    change (64 / 8) with 8. intros k Hk%elem_of_seqZ. split; [lia|].
    apply byte_shift_inw; [lia|]. apply bf_get_range. lia.
Qed.

Lemma ctz_inw x w n : 0 <= w <= 64 -> Z.of_nat n <= 64 -> inw 64 (ctz_loop x w 0 n).
Proof.
  intros Hw Hn. destruct (ctz_loop_spec x w 0 n) as [(k & -> & Hk & _)|[-> _]]; [lia| |];
    (split; [lia|]); change (2 ^ 64) with 18446744073709551616; lia.
Qed.

Lemma cpop_inw x n : 0 <= n <= 64 -> inw 64 (cpop_loop x n).
Proof.
  intros Hn. rewrite cpop_loop_spec by done. unfold isa_cpop.
  pose proof (length_filter (fun i => Z.testbit x i = true) (seqZ 0 n)) as Hl.
  rewrite length_seqZ in Hl. split; [lia|]. change (2 ^ 64) with 18446744073709551616. lia.
Qed.

Lemma rot_closed o bits b r : rotates o bits b -> o = Ret r -> inw 64 r.
Proof. unfold rotates. destruct (_ =? 0); [by intros ->|]. intros (r' & -> & Hr & _) [= <-]. done. Qed.

Definition closed_ub (f : Z -> Z -> outcome Z) : Prop :=
  forall a b r, inw 64 a -> inw 64 b -> f a b = Ret r -> inw 64 r.

Lemma shift_or_closed (f g : outcome Z) r :
  (forall x, f = Ret x -> inw 64 x) -> (forall y, g = Ret y -> inw 64 y) ->
  (x ← f; y ← g; Ret (Z.lor x y)) = Ret r -> inw 64 r.
Proof.
  intros Hf Hg. destruct f as [x| |], g as [y| |]; cbn; try done. intros [= <-]. auto with rvw.
Qed.

Lemma shl64_inw x n r : shl64 x n = Ret r -> inw 64 r.
Proof. unfold shl64. destruct (_ <? _); [|done]. intros [= <-]. by apply uN_inw. Qed.

Lemma shr64_inw x n r : inw 64 x -> 0 <= n -> shr64 x n = Ret r -> inw 64 r.
Proof. unfold shr64. destruct (_ <? _); [|done]. intros ? ? [= <-]. auto with rvw. Qed.

Lemma zb_closed_ub : closed_ub op_ROL /\ closed_ub op_ROR /\ closed_ub op_RORI /\ closed_ub op_RORIW /\
  closed_ub op_SLLI_UW.
Proof.
  split_and!; intros a b r Ha Hb.
  - apply (rot_closed _ (fun i => Z.testbit a ((i - b) mod 64)) b). by apply rol_spec.
  - apply (rot_closed _ (fun i => Z.testbit a ((i + b) mod 64)) b). by apply ror_spec.
  - intros H. apply (shift_or_closed _ _ _ (fun x => shr64_inw _ _ x Ha (proj1 Hb)) (shl64_inw _ _) H).
  - intros H. apply (shift_or_closed _ _ _ (fun x => shr64_inw _ _ x (u32_inw64 a) (proj1 Hb)) (shl64_inw _ _) H).
  - apply shl64_inw.
Qed.

Section zb_wf.
Context {B : Type} `{BusLaws B}.

Lemma alu_r_keeps f d : (forall a, inw 64 a -> inw 64 (f a)) -> keeps (B := B) (alu_r f d) exec_ret_ok.
Proof.
  intros Hf. apply (keeps_bind _ _ (inw 64)); [apply keeps_reg|]. intros a Ha.
  kbind; [apply keeps_setreg; by apply Hf|]. auto with rvw.
Qed.

Lemma alu_rr_ub_closed_keeps f d : closed_ub f -> keeps (B := B) (alu_rr_ub f d) exec_ret_ok.
Proof.
  intros Hf. apply (keeps_bind _ _ (inw 64)); [apply keeps_reg|]. intros a Ha.
  apply (keeps_bind _ _ (inw 64)); [apply keeps_reg|]. intros b Hb.
  destruct (f a b) as [v| |] eqn:E; [|auto with rvw..].
  kbind; [apply keeps_setreg; by apply (Hf a b)|]. auto with rvw.
Qed.

Lemma alu_ri_ub_keeps f d : closed_ub f -> data_ok d -> keeps (B := B) (alu_ri_ub f d) exec_ret_ok.
Proof.
  intros Hf [Hi _]. apply (keeps_bind _ _ (inw 64)); [apply keeps_reg|]. intros a Ha.
  destruct (f a (imm d)) as [v| |] eqn:E; [|auto with rvw..].
  kbind; [apply keeps_setreg; by apply (Hf a (imm d))|]. auto with rvw.
Qed.

Lemma zb_closed : closed2 op_MAXU /\ closed2 op_MINU /\ closed2 op_CLMUL /\ closed2 op_CLMULH /\ closed2 op_CLMULR /\
  closed2 op_ANDN /\ closed2 op_ORN /\ closed2 op_BCLR /\ closed2 op_BEXT /\ closed2 op_BINV /\ closed2 op_BSET.
Proof.
  split; [exact (proj1 closed_max)|]. split; [exact (proj2 closed_max)|].
  split; [intros a b Ha _; exact (proj1 (clmul_inw a b Ha))|].
  split; [intros a b Ha _; exact (proj1 (proj2 (clmul_inw a b Ha)))|].
  split; [intros a b Ha _; exact (proj2 (proj2 (clmul_inw a b Ha)))|].
  split_and!; intros a b Ha Hb.
  - apply inw_land; [lia|done|]. apply not64_inw.
  - apply inw_lor; [lia|done|]. apply not64_inw.
  - apply inw_land; [lia|done|]. apply not64_inw.
  - apply inw_land; [lia| |lia]. apply inw_shiftr; [lia| |done]. apply Z.land_nonneg. right. done.
  - apply inw_lxor; [lia|done|]. by apply uN_inw.
  - apply inw_lor; [lia|done|]. by apply uN_inw.
Qed.

Lemma zb_closed1 a : inw 64 a -> inw 64 (op_CTZ a) /\ inw 64 (op_CTZW a) /\ inw 64 (op_CPOP a) /\
  inw 64 (op_CPOPW a) /\ inw 64 (op_ORC_B a) /\ inw 64 (op_REV8 a) /\ inw 64 (op_ZEXT_H a).
Proof.
  intros Ha. split; [apply ctz_inw; lia|]. split; [apply ctz_inw; lia|].
  split; [apply cpop_inw; lia|]. split; [apply cpop_inw; lia|].
  split; [exact (proj1 (bytes_inw a))|]. split; [exact (proj2 (bytes_inw a))|].
  apply inw_land; [lia|done|lia].
Qed.

Lemma zb_keeps : Forall instr_keeps (init_zba ++ init_zbb ++ init_zbc ++ init_zbs (B := B)).
Proof.
  destruct zb_closed as (?&?&?&?&?&?&?&?&?&?&?). destruct zb_closed_ub as (?&?&?&?&?).
  unfold init_zba, init_zbb, init_zbc, init_zbs. cbn [app].
  repeat (apply List.Forall_cons; [split; [intros d Hd; cbn [i_func]; open_handler|exact I]|]); [..|apply List.Forall_nil].
  all: lazymatch goal with
    | |- keeps (alu_r _ _) _ => apply alu_r_keeps; intros a Ha;
        destruct (zb_closed1 a Ha) as (?&?&?&?&?&?&?); first [assumption | by apply uN_inw]
    | |- keeps (alu_rr_ub _ _) _ => by apply alu_rr_ub_closed_keeps
    | |- keeps (alu_ri_ub _ _) _ => by apply alu_ri_ub_keeps
    | |- keeps (alu_ri _ _) _ => by apply alu_ri_keeps
    | |- keeps (alu_rr _ _) _ => apply alu_rr_keeps; first [assumption | closed2_tac]
    end.
Qed.
End zb_wf.
