(* ===== verification/Float.v ===== *)
(** * The floating point of the host

    [rv64f.cpp] and [rv64d.cpp] compute with [float] and [double], the
    functions of [<cmath>] and the rounding mode and exceptions of [<cfenv>].
    These are the formats binary32 and binary64 of IEEE 754, in which every
    operation is the exact result, rounded once. A value is the integer of its
    bits. A subnormal result is detected after rounding, as x86-64 does, and
    [round] raises no exception. The payload of a NaN that an operation
    computes is not kept: the handlers replace it. *)

From S2P Require Import Prelude.

(** ** Formats *)

(** The widths of the fraction and of the exponent field. *)
Record fmt := mkFmt { mw : Z; ew : Z }.

Definition binary32 : fmt := mkFmt 23 8.
Definition binary64 : fmt := mkFmt 52 11.

Definition prec (f : fmt) : Z := mw f + 1.
(** The weight of the last place of a subnormal number. *)
Definition emin (f : fmt) : Z := 3 - 2 ^ (ew f - 1) - prec f.
Definition inf_bits (f : fmt) : Z := (2 ^ ew f - 1) * 2 ^ mw f.
Definition sign_bit (f : fmt) : Z := 2 ^ (mw f + ew f).
Definition qnan (f : fmt) : Z := inf_bits f + 2 ^ (mw f - 1).

Inductive fval := NaN | Inf (s : bool) | Fin (s : bool) (m e : Z).

Definition signbit (f : fmt) (b : Z) : bool := Z.testbit b (mw f + ew f).
Definition magnitude (f : fmt) (b : Z) : Z := b mod sign_bit f.

(** The value of a bit pattern: [Fin s m e] is [m * 2 ^ e] with its sign. *)
Definition dec (f : fmt) (b : Z) : fval :=
  let s := signbit f b in
  let a := magnitude f b in
  let ex := a / 2 ^ mw f in
  let fr := a mod 2 ^ mw f in
  if ex =? 2 ^ ew f - 1 then (if fr =? 0 then Inf s else NaN)
  else if ex =? 0 then Fin s fr (emin f)
  else Fin s (fr + 2 ^ mw f) (emin f + ex - 1).

Definition with_sign (f : fmt) (s : bool) (a : Z) : Z := if s then sign_bit f + a else a.

Definition isnan (f : fmt) (b : Z) : bool := match dec f b with NaN => true | _ => false end.
Definition isinf (f : fmt) (b : Z) : bool := match dec f b with Inf _ => true | _ => false end.
Definition signaling (f : fmt) (b : Z) : bool := isnan f b && negb (Z.testbit b (mw f - 1)).

(** [-x] and [copysign(x, y)]. *)
Definition fneg (f : fmt) (b : Z) : Z := with_sign f (negb (signbit f b)) (magnitude f b).
Definition copysign (f : fmt) (x y : Z) : Z := with_sign f (signbit f y) (magnitude f x).

(** ** Rounding modes and exceptions *)

Inductive Rounding := FE_TONEAREST | FE_TOWARDZERO | FE_DOWNWARD | FE_UPWARD.

Record Exc := mkExc { x_invalid : bool; x_divbyzero : bool; x_overflow : bool; x_underflow : bool; x_inexact : bool }.

Definition no_exc : Exc := mkExc false false false false false.
Definition invalid (b : bool) : Exc := mkExc b false false false false.
Definition exc_or (x y : Exc) : Exc :=
  mkExc (x_invalid x || x_invalid y) (x_divbyzero x || x_divbyzero y) (x_overflow x || x_overflow y)
    (x_underflow x || x_underflow y) (x_inexact x || x_inexact y).

(** Whether [q], the quotient by [2 ^ k] with remainder [r], is rounded away
    from zero; [st] says that the value is a little more than this. *)
Definition round_up (md : Rounding) (s : bool) (q r k : Z) (st : bool) : bool :=
  if (r =? 0) && negb st then false else
  match md with
  | FE_TOWARDZERO => false
  | FE_DOWNWARD => s
  | FE_UPWARD => negb s
  | FE_TONEAREST => (2 ^ k <? 2 * r) || ((2 * r =? 2 ^ k) && (st || Z.odd q))
  end.

(** [m * 2 ^ (- k)] as an integer, and whether it is inexact. *)
Definition round_at (md : Rounding) (s : bool) (m : Z) (st : bool) (k : Z) : Z * bool :=
  if k <=? 0 then (m * 2 ^ (- k), st)
  else let q := m / 2 ^ k in
       let r := m mod 2 ^ k in
       (q + b2z (round_up md s q r k st), negb (r =? 0) || st).

(** Below the least normal number after rounding without a least exponent. *)
Definition tiny (f : fmt) (md : Rounding) (s : bool) (m e : Z) (st : bool) : bool :=
  let t := e + Z.log2 m + 1 - prec f in
  (t <? emin f) && (Z.log2 (round_at md s m st (t - e)).1 + t <? emin f + mw f).

(** The number [m * 2 ^ e], [m > 0], with its sign, in the format. *)
Definition fround (f : fmt) (md : Rounding) (s : bool) (m e : Z) (st : bool) : Z * Exc :=
  let t := Z.max (e + Z.log2 m + 1 - prec f) (emin f) in
  let '(q, nx) := round_at md s m st (t - e) in
  let a := (t - emin f) * 2 ^ mw f + q in
  if inf_bits f <=? a then
    let up := match md with FE_TONEAREST => true | FE_TOWARDZERO => false | FE_DOWNWARD => s | FE_UPWARD => negb s end in
    (with_sign f s (if up then inf_bits f else inf_bits f - 1), mkExc false false true false true)
  else (with_sign f s a, mkExc false false false (nx && tiny f md s m e st) nx).

(** ** Operations: the result and the exceptions it raises *)

Definition nan_of (f : fmt) (x y : Z) : Z * Exc := (qnan f, invalid (signaling f x || signaling f y)).

Definition signed (s : bool) (m : Z) : Z := if s then - m else m.

(** The sum of two exact numbers; [s0] is the sign of a zero result. *)
Definition fsum (f : fmt) (md : Rounding) (s1 : bool) (m1 e1 : Z) (s2 : bool) (m2 e2 : Z) : Z * Exc :=
  let e := Z.min e1 e2 in
  let x := signed s1 (m1 * 2 ^ (e1 - e)) + signed s2 (m2 * 2 ^ (e2 - e)) in
  if x =? 0 then
    (with_sign f (if Bool.eqb s1 s2 then s1 else match md with FE_DOWNWARD => true | _ => false end) 0, no_exc)
  else fround f md (x <? 0) (Z.abs x) e false.

Definition fadd (f : fmt) (md : Rounding) (a b : Z) : Z * Exc :=
  match dec f a, dec f b with
  | NaN, _ | _, NaN => nan_of f a b
  | Inf s, Inf s' => if Bool.eqb s s' then (with_sign f s (inf_bits f), no_exc) else (qnan f, invalid true)
  | Inf s, _ | _, Inf s => (with_sign f s (inf_bits f), no_exc)
  | Fin s1 m1 e1, Fin s2 m2 e2 => fsum f md s1 m1 e1 s2 m2 e2
  end.

Definition fsub (f : fmt) (md : Rounding) (a b : Z) : Z * Exc :=
  if isnan f b then nan_of f a b else fadd f md a (fneg f b).

(** The product of two exact numbers. *)
Definition fprod (f : fmt) (md : Rounding) (s : bool) (m e : Z) : Z * Exc :=
  if m =? 0 then (with_sign f s 0, no_exc) else fround f md s m e false.

Definition fmul (f : fmt) (md : Rounding) (a b : Z) : Z * Exc :=
  match dec f a, dec f b with
  | NaN, _ | _, NaN => nan_of f a b
  | Inf s, Inf s' => (with_sign f (xorb s s') (inf_bits f), no_exc)
  | Inf s, Fin s' m _ | Fin s m _, Inf s' =>
      if m =? 0 then (qnan f, invalid true) else (with_sign f (xorb s s') (inf_bits f), no_exc)
  | Fin s1 m1 e1, Fin s2 m2 e2 => fprod f md (xorb s1 s2) (m1 * m2) (e1 + e2)
  end.

Definition fdiv (f : fmt) (md : Rounding) (a b : Z) : Z * Exc :=
  match dec f a, dec f b with
  | NaN, _ | _, NaN => nan_of f a b
  | Inf _, Inf _ => (qnan f, invalid true)
  | Inf s, Fin s' _ _ => (with_sign f (xorb s s') (inf_bits f), no_exc)
  | Fin s _ _, Inf s' => (with_sign f (xorb s s') 0, no_exc)
  | Fin s1 m1 e1, Fin s2 m2 e2 =>
      let s := xorb s1 s2 in
      if m2 =? 0 then
        if m1 =? 0 then (qnan f, invalid true) else (with_sign f s (inf_bits f), mkExc false true false false false)
      else if m1 =? 0 then (with_sign f s 0, no_exc)
      else
        let k := Z.max 0 (prec f + 2 + Z.log2 m2 - Z.log2 m1) in
        let n := m1 * 2 ^ k in
        fround f md s (n / m2) (e1 - e2 - k) (negb (n mod m2 =? 0))
  end.

Definition fsqrt (f : fmt) (md : Rounding) (a : Z) : Z * Exc :=
  match dec f a with
  | NaN => nan_of f a a
  | Inf false => (inf_bits f, no_exc)
  | Inf true => (qnan f, invalid true)
  | Fin s m e =>
      if m =? 0 then (with_sign f s 0, no_exc)
      else if s then (qnan f, invalid true)
      else
        let k := 2 * (prec f + 2) in
        let k := if Z.even (e - k) then k else k + 1 in
        let n := m * 2 ^ k in
        fround f md false (Z.sqrt n) ((e - k) / 2) (negb (Z.sqrt n * Z.sqrt n =? n))
  end.

(** [fma(a, b, c)]: the product is not rounded. *)
Definition fma (f : fmt) (md : Rounding) (a b c : Z) : Z * Exc :=
  match dec f a, dec f b, dec f c with
  | NaN, _, _ | _, NaN, _ | _, _, NaN => (qnan f, invalid (signaling f a || signaling f b || signaling f c))
  | Inf s, Fin s' m _, _ | Fin s m _, Inf s', _ =>
      if m =? 0 then (qnan f, invalid true) else
      match dec f c with
      | Inf sc => if Bool.eqb (xorb s s') sc then (with_sign f sc (inf_bits f), no_exc) else (qnan f, invalid true)
      | _ => (with_sign f (xorb s s') (inf_bits f), no_exc)
      end
  | Inf s, Inf s', Inf sc =>
      if Bool.eqb (xorb s s') sc then (with_sign f sc (inf_bits f), no_exc) else (qnan f, invalid true)
  | Inf s, Inf s', Fin _ _ _ => (with_sign f (xorb s s') (inf_bits f), no_exc)
  | Fin _ _ _, Fin _ _ _, Inf sc => (with_sign f sc (inf_bits f), no_exc)
  | Fin s1 m1 e1, Fin s2 m2 e2, Fin sc mc ec => fsum f md (xorb s1 s2) (m1 * m2) (e1 + e2) sc mc ec
  end.

(** ** Conversions *)

(** Between the formats. *)
Definition fcvt (f g : fmt) (md : Rounding) (a : Z) : Z * Exc :=
  match dec f a with
  | NaN => (qnan g, invalid (signaling f a))
  | Inf s => (with_sign g s (inf_bits g), no_exc)
  | Fin s m e => fprod g md s m e
  end.

(** From an integer. *)
Definition of_int (f : fmt) (md : Rounding) (x : Z) : Z * Exc := fprod f md (x <? 0) (Z.abs x) 0.

Definition INT64_MIN : Z := - 2 ^ 63.

(** [llrint]: out of the range of [int64_t] the conversion instruction gives
    its integer indefinite value. *)
Definition llrint (f : fmt) (md : Rounding) (a : Z) : Z :=
  match dec f a with
  | Fin s m e =>
      let x := signed s (round_at md s m false (- e)).1 in
      if (- 2 ^ 63 <=? x) && (x <? 2 ^ 63) then x else INT64_MIN
  | _ => INT64_MIN
  end.

(** [round]: halfway cases go away from zero, whatever the rounding mode. *)
Definition round (f : fmt) (a : Z) : Z :=
  match dec f a with
  | Fin s m e => if 0 <=? e then a else (fprod f FE_TOWARDZERO s ((m + 2 ^ (- e - 1)) / 2 ^ (- e)) 0).1
  | _ => a
  end.

(** ** Comparisons *)

(** A finite number in units of the least subnormal. *)
Definition scaled (f : fmt) (s : bool) (m e : Z) : Z := signed s (m * 2 ^ (e - emin f)).

(** The order of the extended numbers; NaNs have none. *)
Definition fcompare (f : fmt) (a b : Z) : option comparison :=
  match dec f a, dec f b with
  | NaN, _ | _, NaN => None
  | Inf s, Inf s' => Some (if Bool.eqb s s' then Eq else if s then Lt else Gt)
  | Inf s, _ => Some (if s then Lt else Gt)
  | _, Inf s => Some (if s then Gt else Lt)
  | Fin s1 m1 e1, Fin s2 m2 e2 => Some (scaled f s1 m1 e1 ?= scaled f s2 m2 e2)
  end.

Definition feq (f : fmt) (a b : Z) : bool := match fcompare f a b with Some Eq => true | _ => false end.
Definition isless (f : fmt) (a b : Z) : bool := match fcompare f a b with Some Lt => true | _ => false end.
Definition islessequal (f : fmt) (a b : Z) : bool := match fcompare f a b with Some Lt | Some Eq => true | _ => false end.
Definition isgreater (f : fmt) (a b : Z) : bool := isless f b a.

(** [fpclassify]. *)
Inductive FpClass := FP_NAN | FP_INFINITE | FP_ZERO | FP_SUBNORMAL | FP_NORMAL.

Definition fpclassify (f : fmt) (a : Z) : FpClass :=
  match dec f a with
  | NaN => FP_NAN
  | Inf _ => FP_INFINITE
  | Fin _ m _ => if m =? 0 then FP_ZERO else if m <? 2 ^ mw f then FP_SUBNORMAL else FP_NORMAL
  end.

Example add_1_2 : fadd binary64 FE_TONEAREST 0x3FF0000000000000 0x4000000000000000 = (0x4008000000000000, no_exc).
Proof. reflexivity. Qed.

Example third_up : fdiv binary32 FE_UPWARD 0x3F800000 0x40400000 = (0x3EAAAAAB, mkExc false false false false true).
Proof. reflexivity. Qed.

Example sqrt_2 : fsqrt binary64 FE_TONEAREST 0x4000000000000000 = (0x3FF6A09E667F3BCD, mkExc false false false false true).
Proof. reflexivity. Qed.

Example sub_tiny : fmul binary32 FE_TONEAREST 0x00800001 0x3F000000 = (0x00400000, mkExc false false false true true).
Proof. reflexivity. Qed.
