(* ===== verification/Rv64f.v ===== *)
(** * The F extension ([src/sets/rv64f.cpp])

    A handler runs over the state of the hart and the floating-point
    environment of the host: its rounding mode, which stays as the last
    [fesetround] left it, and its exceptions. [FPR] holds the bits of the
    doubles. The expressions are evaluated in the order of the source.
    Comparisons and [llrint] are modelled without exceptions; those they could
    raise are cleared by [FLOAT_START] before any is tested. *)

From Stdlib Require Import Strings.String.
From S2P Require Import Prelude Defs MemoryMap SelfMod Tlb Decode Hart State Mmu Mmio.
From S2P Require Import Rv64i Rv64c Float.

Record Fenv := mkFenv { host_rm : Rounding; host_exc : Exc }.

Section rv64f.
Context {B : Type} `{!BusOps B}.

Definition FX (A : Type) : Type := ST (Fenv * State B) A.

(** A program of the hart, and the host's environment. *)
Definition on_state {A} (m : M B A) : FX A := fun s =>
  match m s.2 with Ret (a, s') => Ret (a, (s.1, s')) | Throw e => Throw e | Undef => Undef end.

Definition fesetround (md : Rounding) : FX unit := modify (fun s => (mkFenv md (host_exc s.1), s.2)).
Definition raise (x : Exc) : FX unit := modify (fun s => (mkFenv (host_rm s.1) (exc_or (host_exc s.1) x), s.2)).
Definition FLOAT_START : FX unit := modify (fun s => (mkFenv (host_rm s.1) no_exc, s.2)).

(** An operation in the current rounding mode. *)
Definition host (op : Rounding -> Z * Exc) : FX Z := fun s =>
  let '(r, x) := op (host_rm s.1) in Ret (r, (mkFenv (host_rm s.1) (exc_or (host_exc s.1) x), s.2)).

Definition fp (i : Z) : FX Z := on_state (freg i).
Definition setfp (i v : Z) : FX unit := on_state (setfreg i v).

(** [fcsr.fields.fflags |= x]. *)
Definition or_fflags (x : Z) (h : Hart) : Hart := set_fcsr (setf (fcsr h) Fcsr.fflags (Z.lor (getf (fcsr h) Fcsr.fflags) x)) h.
Definition fflags_or (x : Z) : FX unit := on_state (mod_hart (or_fflags x)).

Definition exc_bits (x : Exc) : Z :=
  Z.lor (if x_invalid x then Z.shiftl 1 4 else 0) (Z.lor (if x_divbyzero x then Z.shiftl 1 3 else 0)
    (Z.lor (if x_overflow x then Z.shiftl 1 2 else 0) (Z.lor (if x_underflow x then Z.shiftl 1 1 else 0)
      (if x_inexact x then Z.shiftl 1 0 else 0)))).

Definition FLOAT_END : FX unit := x ← gets (fun s => host_exc s.1); fflags_or (exc_bits x).

(** ** Helpers *)

(** [rm_func]: [None] for a reserved mode. A dynamic mode of 7 selects no case
    of the switch. *)
Definition rm_func (val rm : Z) : FX (option Z) :=
  frm ← gets (fun s => getf (fcsr (hart s.2)) Fcsr.frm);
  let cmp := if rm =? 7 then frm else rm in
  if (cmp =? 5) || (cmp =? 6) then mret None
  else if cmp =? 4 then mret (Some (round binary64 val))
  else
    _ ← (if cmp =? 0 then fesetround FE_TONEAREST
         else if cmp =? 1 then fesetround FE_TOWARDZERO
         else if cmp =? 2 then fesetround FE_DOWNWARD
         else if cmp =? 3 then fesetround FE_UPWARD
         else mret tt);
    mret (Some val).

Definition f32_in (reg : Z) : Z := u32 reg.
Definition f32_out (val : Z) : Z := Z.lor 0xFFFFFFFF00000000 val.

(** [(double)x] and [static_cast<float>(x)]. *)
Definition to_double (x : Z) : FX Z := host (fun md => fcvt binary32 binary64 md x).
Definition to_float (x : Z) : FX Z := host (fun md => fcvt binary64 binary32 md x).

Definition cast_float (val : Z) : FX Z :=
  if isnan binary64 val then _ ← fflags_or (Z.shiftl 1 4); mret 0x7FC00000 else to_float val.

Definition issnan_f (bits : Z) : bool :=
  let is_nan := (Z.land bits 0x7F800000 =? 0x7F800000) && negb (Z.land bits 0x007FFFFF =? 0) in
  is_nan && (Z.land bits 0x00400000 =? 0).

(** [(fflags | (1 << 4)) & ~(1 << 0)]. *)
Definition set_invalid (h : Hart) : Hart :=
  set_fcsr (setf (fcsr h) Fcsr.fflags (Z.land (Z.lor (getf (fcsr h) Fcsr.fflags) (Z.shiftl 1 4)) (Z.lnot (Z.shiftl 1 0)))) h.

(** Constant expressions, which the compiler evaluates. *)
Definition const (x : Z) : Z := (of_int binary64 FE_TONEAREST x).1.
Definition const_succ (x : Z) : Z := (fadd binary64 FE_TONEAREST (const x) (const 1)).1.

Section finalize.
(** The template arguments, and the format of [src]. *)
Context (f : fmt) (is_unsigned : bool) (MinValue MaxValue : Z).

Definition finalize_fcvt (src exact rounded : Z) : FX Z :=
  let fail (r : Z) : FX Z := _ ← on_state (mod_hart set_invalid); mret (s64 r) in
  let finish : FX Z :=
    back ← host (fun md => of_int binary64 md rounded);
    _ ← (if negb (feq binary64 back exact) then fflags_or (Z.shiftl 1 0) else mret tt);
    mret rounded in
  if isnan f src then fail MaxValue
  else if is_unsigned then
    if isinf f src && negb (signbit f src) || islessequal binary64 (const_succ MaxValue) exact then fail MaxValue
    else if islessequal binary64 exact (const (- 1)) || ((rounded <? 0) && negb (rounded =? INT64_MIN)) then fail 0
    else finish
  else
    if isinf f src && signbit f src || isless binary64 exact (const MinValue) then fail MinValue
    else if isinf f src && negb (signbit f src) || islessequal binary64 (const_succ MaxValue) exact then fail MaxValue
    else finish.
End finalize.

(** [return { false, false, 4, 2, inst }]. *)
Definition illegal_rm (d : InstructionData) : FX ExecReturn := mret (mkExec false false 4 2 (inst d)).
Definition okf : FX ExecReturn := mret exec_ok.

(** ** Arithmetic *)

(** From [FLOAT_START] on: [RM_HANDLE] converts to [float] and back. *)
Definition finish_s (d : InstructionData) (res : Z) : FX ExecReturn :=
  _ ← FLOAT_START;
  r ← rm_func res (rm d);
  match r with
  | None => illegal_rm d
  | Some inter =>
      v ← to_float inter;
      res ← to_double v;
      _ ← FLOAT_END;
      v ← cast_float res;
      _ ← setfp (rd d) (f32_out v);
      okf
  end.

Definition in_double (i : Z) : FX Z := r ← fp i; to_double (f32_in r).

Definition exec_FMADD_S (d : InstructionData) : FX ExecReturn :=
  s1 ← in_double (rs1 d); s2 ← in_double (rs2 d); s3 ← in_double (rs3 d);
  p ← host (fun md => fmul binary64 md s1 s2);
  res ← host (fun md => fadd binary64 md p s3);
  finish_s d res.

Definition exec_FMSUB_S (d : InstructionData) : FX ExecReturn :=
  s1 ← in_double (rs1 d); s2 ← in_double (rs2 d); s3 ← in_double (rs3 d);
  p ← host (fun md => fmul binary64 md s1 s2);
  res ← host (fun md => fsub binary64 md p s3);
  finish_s d res.

Definition exec_FNMADD_S (d : InstructionData) : FX ExecReturn :=
  s1 ← in_double (rs1 d); s2 ← in_double (rs2 d); s3 ← in_double (rs3 d);
  p ← host (fun md => fmul binary64 md (fneg binary64 s1) s2);
  res ← host (fun md => fsub binary64 md p s3);
  finish_s d res.

Definition exec_FNMSUB_S (d : InstructionData) : FX ExecReturn :=
  s1 ← in_double (rs1 d); s2 ← in_double (rs2 d); s3 ← in_double (rs3 d);
  p ← host (fun md => fmul binary64 md (fneg binary64 s1) s2);
  res ← host (fun md => fadd binary64 md p s3);
  finish_s d res.

Definition arith_s (op : fmt -> Rounding -> Z -> Z -> Z * Exc) (d : InstructionData) : FX ExecReturn :=
  s1 ← in_double (rs1 d); s2 ← in_double (rs2 d);
  res ← host (fun md => op binary64 md s1 s2);
  finish_s d res.

Definition exec_FADD_S : InstructionData -> FX ExecReturn := arith_s fadd.
Definition exec_FSUB_S : InstructionData -> FX ExecReturn := arith_s fsub.
Definition exec_FMUL_S : InstructionData -> FX ExecReturn := arith_s fmul.
Definition exec_FDIV_S : InstructionData -> FX ExecReturn := arith_s fdiv.

Definition exec_FSQRT_S (d : InstructionData) : FX ExecReturn :=
  s1 ← in_double (rs1 d);
  res ← host (fun md => fsqrt binary64 md s1);
  finish_s d res.

(** ** Signs, minimum and maximum *)

(** The result is a [float] that [cast_float] takes as a [double]. *)
Definition sgnj_s (sign : Z -> Z) (d : InstructionData) : FX ExecReturn :=
  r1 ← fp (rs1 d); r2 ← fp (rs2 d);
  let res := copysign binary32 (f32_in r1) (sign (f32_in r2)) in
  x ← to_double res;
  v ← cast_float x;
  _ ← setfp (rd d) (f32_out v);
  okf.

Definition exec_FSGNJ_S : InstructionData -> FX ExecReturn := sgnj_s (fun s2 => s2).
Definition exec_FSGNJN_S : InstructionData -> FX ExecReturn := sgnj_s (fneg binary32).

Definition exec_FSGNJX_S (d : InstructionData) : FX ExecReturn :=
  r1 ← fp (rs1 d); r2 ← fp (rs2 d);
  let bits1 := f32_in r1 in
  let bits2 := f32_in r2 in
  let res_bits := Z.lor (Z.land bits1 (u32 (Z.lnot 0x80000000))) (Z.land (Z.lxor bits1 bits2) 0x80000000) in
  _ ← setfp (rd d) (f32_out res_bits);
  okf.

Section minmax.
(** The format, its test for signaling NaNs, and what prefers the first of
    two zeros and of two numbers. *)
Context (f : fmt) (issnan : Z -> bool) (first_zero : Z -> bool) (first : Z -> Z -> bool).

Definition minmax (s1 s2 : Z) : Z :=
  let nan1 := isnan f s1 in
  let nan2 := isnan f s2 in
  if nan1 && nan2 then qnan f
  else if nan1 then s2
  else if nan2 then s1
  else if feq f s1 0 && feq f s2 0 then (if first_zero s1 then s1 else s2)
  else if first s1 s2 then s1 else s2.

Definition minmax_flags (s1 s2 : Z) : FX unit :=
  if isnan f s1 && issnan s1 || isnan f s2 && issnan s2 then fflags_or (Z.shiftl 1 4) else mret tt.
End minmax.

Definition minmax_s (first_zero : Z -> bool) (first : Z -> Z -> bool) (d : InstructionData) : FX ExecReturn :=
  r1 ← fp (rs1 d); r2 ← fp (rs2 d);
  let s1 := f32_in r1 in
  let s2 := f32_in r2 in
  _ ← minmax_flags binary32 issnan_f s1 s2;
  _ ← setfp (rd d) (f32_out (minmax binary32 first_zero first s1 s2));
  okf.

Definition exec_FMIN_S : InstructionData -> FX ExecReturn := minmax_s (signbit binary32) (isless binary32).
Definition exec_FMAX_S : InstructionData -> FX ExecReturn :=
  minmax_s (fun s => negb (signbit binary32 s)) (isgreater binary32).

(** ** Conversions *)

(** To an integer: [wrap] is the cast of the result to the register. *)
Definition fcvt_int_s (is_unsigned : bool) (MinValue MaxValue : Z) (wrap : Z -> Z) (d : InstructionData) : FX ExecReturn :=
  r1 ← fp (rs1 d);
  let src := f32_in r1 in
  exact ← to_double src;
  i ← rm_func exact (rm d);
  match i with
  | None => illegal_rm d
  | Some intermediate =>
      md ← gets (fun s => host_rm s.1);
      res ← finalize_fcvt binary32 is_unsigned MinValue MaxValue src exact (llrint binary64 md intermediate);
      _ ← on_state (setreg (rd d) (wrap res));
      okf
  end.

Definition exec_FCVT_W_S : InstructionData -> FX ExecReturn := fcvt_int_s false (- 2 ^ 31) (2 ^ 31 - 1) (fun r => u64 (s32 r)).
Definition exec_FCVT_WU_S : InstructionData -> FX ExecReturn := fcvt_int_s true 0 (2 ^ 32 - 1) (fun r => u64 (s32 (u32 r))).
Definition exec_FCVT_L_S : InstructionData -> FX ExecReturn := fcvt_int_s false (- 2 ^ 63) (2 ^ 63 - 1) u64.
Definition exec_FCVT_LU_S : InstructionData -> FX ExecReturn := fcvt_int_s true 0 (2 ^ 64 - 1) u64.

(** From an integer, in two roundings. *)
Definition fcvt_s_int (src_of : Z -> Z) (d : InstructionData) : FX ExecReturn :=
  r ← on_state (reg (rs1 d));
  exact ← host (fun md => of_int binary64 md (src_of r));
  _ ← FLOAT_START;
  i ← rm_func exact (rm d);
  match i with
  | None => illegal_rm d
  | Some inter =>
      v ← to_float inter;
      exact ← to_double v;
      _ ← FLOAT_END;
      v ← to_float exact;
      _ ← setfp (rd d) (f32_out v);
      okf
  end.

Definition exec_FCVT_S_W : InstructionData -> FX ExecReturn := fcvt_s_int s32.
Definition exec_FCVT_S_WU : InstructionData -> FX ExecReturn := fcvt_s_int u32.
Definition exec_FCVT_S_L : InstructionData -> FX ExecReturn := fcvt_s_int s64.
Definition exec_FCVT_S_LU : InstructionData -> FX ExecReturn := fcvt_s_int (fun r => r).

(** ** Moves, comparisons, classes *)

Definition exec_FMV_X_W (d : InstructionData) : FX ExecReturn :=
  r1 ← fp (rs1 d); _ ← on_state (setreg (rd d) (u64 (s32 (f32_in r1)))); okf.

Definition exec_FMV_W_X (d : InstructionData) : FX ExecReturn :=
  r ← on_state (reg (rs1 d)); _ ← setfp (rd d) (f32_out (u32 r)); okf.

(** [bad] is when the operands make the comparison invalid. *)
Definition compare_to (bad cmp : Z -> Z -> bool) (rd s1 s2 : Z) : FX ExecReturn :=
  _ ← (if bad s1 s2 then _ ← fflags_or (Z.shiftl 1 4); on_state (setreg rd 0)
       else on_state (setreg rd (b2z (cmp s1 s2))));
  okf.

Definition compare_s (bad cmp : Z -> Z -> bool) (d : InstructionData) : FX ExecReturn :=
  r1 ← fp (rs1 d); r2 ← fp (rs2 d); compare_to bad cmp (rd d) (f32_in r1) (f32_in r2).

Definition exec_FEQ_S : InstructionData -> FX ExecReturn := compare_s (fun a b => issnan_f a || issnan_f b) (feq binary32).
Definition exec_FLT_S : InstructionData -> FX ExecReturn := compare_s (fun a b => isnan binary32 a || isnan binary32 b) (isless binary32).
Definition exec_FLE_S : InstructionData -> FX ExecReturn :=
  compare_s (fun a b => isnan binary32 a || isnan binary32 b) (islessequal binary32).

Definition class_mask (f : fmt) (quiet : Z) (src : Z) : Z :=
  let sign := signbit f src in
  match fpclassify f src with
  | FP_INFINITE => if sign then Z.shiftl 1 0 else Z.shiftl 1 7
  | FP_ZERO => if sign then Z.shiftl 1 3 else Z.shiftl 1 4
  | FP_SUBNORMAL => if sign then Z.shiftl 1 2 else Z.shiftl 1 5
  | FP_NAN => if negb (Z.land src quiet =? 0) then Z.shiftl 1 9 else Z.shiftl 1 8
  | FP_NORMAL => if sign then Z.shiftl 1 1 else Z.shiftl 1 6
  end.

Definition exec_FCLASS_S (d : InstructionData) : FX ExecReturn :=
  r1 ← fp (rs1 d); _ ← on_state (setreg (rd d) (class_mask binary32 0x00400000 (f32_in r1))); okf.

(** ** Loads and stores *)

Definition fload (sz : MemorySize) (box : Z -> Z) (d : InstructionData) : FX ExecReturn :=
  a ← on_state (reg (rs1 d));
  '(success, val) ← on_state (read (u64 (a + imm d)) sz false);
  _ ← (if mr_success success then setfp (rd d) (box val) else mret tt);
  mret (mem_exec 4 success).

Definition fstore (sz : MemorySize) (unbox : Z -> Z) (d : InstructionData) : FX ExecReturn :=
  a ← on_state (reg (rs1 d)); v ← fp (rs2 d);
  out ← on_state (write (u64 (a + imm d)) sz (unbox v) false);
  mret (mem_exec 4 out).

Definition exec_FLW : InstructionData -> FX ExecReturn := fload Int f32_out.
Definition exec_FSW : InstructionData -> FX ExecReturn := fstore Int f32_in.

(** The handlers of this build have the type of a floating-point program. *)
Record FInstr := mkFInstr { fi_mask : string; fi_func : InstructionData -> FX ExecReturn; fi_imm : option (Z -> Z) }.

Definition init_rv64f : list FInstr := [
  mkFInstr "*****00******************1000011" exec_FMADD_S None;
  mkFInstr "*****00******************1000111" exec_FMSUB_S None;
  mkFInstr "*****00******************1001111" exec_FNMADD_S None;
  mkFInstr "*****00******************1001011" exec_FNMSUB_S None;
  mkFInstr "0000000******************1010011" exec_FADD_S None;
  mkFInstr "0000100******************1010011" exec_FSUB_S None;
  mkFInstr "0001000******************1010011" exec_FMUL_S None;
  mkFInstr "0001100******************1010011" exec_FDIV_S None;
  mkFInstr "010110000000*************1010011" exec_FSQRT_S None;
  mkFInstr "0010000**********000*****1010011" exec_FSGNJ_S None;
  mkFInstr "0010000**********001*****1010011" exec_FSGNJN_S None;
  mkFInstr "0010000**********010*****1010011" exec_FSGNJX_S None;
  mkFInstr "0010100**********000*****1010011" exec_FMIN_S None;
  mkFInstr "0010100**********001*****1010011" exec_FMAX_S None;
  mkFInstr "110000000000*************1010011" exec_FCVT_W_S None;
  mkFInstr "110000000001*************1010011" exec_FCVT_WU_S None;
  mkFInstr "110100000000*************1010011" exec_FCVT_S_W None;
  mkFInstr "110100000001*************1010011" exec_FCVT_S_WU None;
  mkFInstr "110000000010*************1010011" exec_FCVT_L_S None;
  mkFInstr "110000000011*************1010011" exec_FCVT_LU_S None;
  mkFInstr "110100000010*************1010011" exec_FCVT_S_L None;
  mkFInstr "110100000011*************1010011" exec_FCVT_S_LU None;
  mkFInstr "111000000000*****000*****1010011" exec_FMV_X_W None;
  mkFInstr "111100000000*****000*****1010011" exec_FMV_W_X None;
  mkFInstr "1010000**********010*****1010011" exec_FEQ_S None;
  mkFInstr "1010000**********001*****1010011" exec_FLT_S None;
  mkFInstr "1010000**********000*****1010011" exec_FLE_S None;
  mkFInstr "111000000000*****001*****1010011" exec_FCLASS_S None;
  mkFInstr "*****************010*****0000111" exec_FLW (Some imm_I);
  mkFInstr "*****************010*****0100111" exec_FSW (Some imm_S)]%string.
End rv64f.
Arguments FX : clear implicits.
Arguments FInstr : clear implicits.
