(* ===== verification/Rv64d.v ===== *)
(** * The D extension ([src/sets/rv64d.cpp])

    The helpers that this file repeats from [rv64f.cpp] are those of [Rv64f]. *)

From Stdlib Require Import Strings.String.
From S2P Require Import Prelude Defs MemoryMap SelfMod Tlb Decode Hart State Mmu Mmio.
From S2P Require Import Rv64i Rv64c Float Rv64f.

Section rv64d.
Context {B : Type} `{!BusOps B}.

Abbreviation FX := (FX B).
Abbreviation okf := (okf (B := B)).

Definition sanitize_nan (val : Z) : FX Z :=
  if isnan binary64 val then _ ← fflags_or (Z.shiftl 1 4); mret 0x7FF8000000000000 else mret val.

Definition issnan_d (bits : Z) : bool :=
  let is_nan := (Z.land bits 0x7FF0000000000000 =? 0x7FF0000000000000) && negb (Z.land bits 0x000FFFFFFFFFFFFF =? 0) in
  is_nan && (Z.land bits 0x0008000000000000 =? 0).

(** ** Arithmetic *)

(** [RM_HANDLE], the operation between [FLOAT_START] and [FLOAT_END], and the
    result. *)
Definition arith_d (d : InstructionData) (op : FX Z) : FX ExecReturn :=
  r ← rm_func 0 (rm d);
  match r with
  | None => illegal_rm d
  | Some _ =>
      _ ← FLOAT_START;
      res ← op;
      _ ← FLOAT_END;
      v ← sanitize_nan res;
      _ ← setfp (rd d) v;
      okf
  end.

Definition fma_d (neg1 neg3 : Z -> Z) (d : InstructionData) : FX ExecReturn :=
  arith_d d (a ← fp (rs1 d); b ← fp (rs2 d); c ← fp (rs3 d); host (fun md => fma binary64 md (neg1 a) b (neg3 c))).

Definition exec_FMADD_D : InstructionData -> FX ExecReturn := fma_d (fun x => x) (fun x => x).
Definition exec_FMSUB_D : InstructionData -> FX ExecReturn := fma_d (fun x => x) (fneg binary64).
Definition exec_FNMADD_D : InstructionData -> FX ExecReturn := fma_d (fneg binary64) (fneg binary64).
Definition exec_FNMSUB_D : InstructionData -> FX ExecReturn := fma_d (fneg binary64) (fun x => x).

Definition arith2_d (op : fmt -> Rounding -> Z -> Z -> Z * Exc) (d : InstructionData) : FX ExecReturn :=
  arith_d d (a ← fp (rs1 d); b ← fp (rs2 d); host (fun md => op binary64 md a b)).

Definition exec_FADD_D : InstructionData -> FX ExecReturn := arith2_d fadd.
Definition exec_FSUB_D : InstructionData -> FX ExecReturn := arith2_d fsub.
Definition exec_FMUL_D : InstructionData -> FX ExecReturn := arith2_d fmul.
Definition exec_FDIV_D : InstructionData -> FX ExecReturn := arith2_d fdiv.
Definition exec_FSQRT_D (d : InstructionData) : FX ExecReturn :=
  arith_d d (a ← fp (rs1 d); host (fun md => fsqrt binary64 md a)).

(** ** Signs, minimum and maximum *)

Definition sgnj_d (sign : Z -> Z) (d : InstructionData) : FX ExecReturn :=
  src1 ← fp (rs1 d); src2 ← fp (rs2 d); _ ← setfp (rd d) (copysign binary64 src1 (sign src2)); okf.

Definition exec_FSGNJ_D : InstructionData -> FX ExecReturn := sgnj_d (fun s2 => s2).
Definition exec_FSGNJN_D : InstructionData -> FX ExecReturn := sgnj_d (fneg binary64).

Definition exec_FSGNJX_D (d : InstructionData) : FX ExecReturn :=
  bits1 ← fp (rs1 d); bits2 ← fp (rs2 d);
  let res_bits := Z.lor (Z.land bits1 (u64 (Z.lnot 0x8000000000000000))) (Z.land (Z.lxor bits1 bits2) 0x8000000000000000) in
  _ ← setfp (rd d) res_bits;
  okf.

Definition minmax_d (first_zero : Z -> bool) (first : Z -> Z -> bool) (d : InstructionData) : FX ExecReturn :=
  s1 ← fp (rs1 d); s2 ← fp (rs2 d);
  _ ← minmax_flags binary64 issnan_d s1 s2;
  _ ← setfp (rd d) (minmax binary64 first_zero first s1 s2);
  okf.

Definition exec_FMIN_D : InstructionData -> FX ExecReturn := minmax_d (signbit binary64) (isless binary64).
Definition exec_FMAX_D : InstructionData -> FX ExecReturn :=
  minmax_d (fun s => negb (signbit binary64 s)) (isgreater binary64).

(** ** Conversions *)

(** The cast to [float] comes after [FLOAT_END]. *)
Definition exec_FCVT_S_D (d : InstructionData) : FX ExecReturn :=
  src ← fp (rs1 d);
  _ ← FLOAT_START;
  r ← rm_func src (rm d);
  match r with
  | None => illegal_rm d
  | Some exact =>
      _ ← FLOAT_END;
      res_f32 ← to_float exact;
      v ← (if isnan binary32 res_f32 then _ ← fflags_or (Z.shiftl 1 4); mret 0x7FC00000 else mret res_f32);
      _ ← setfp (rd d) (f32_out v);
      okf
  end.

Definition exec_FCVT_D_S (d : InstructionData) : FX ExecReturn :=
  r1 ← fp (rs1 d);
  let src_f32 := f32_in r1 in
  res_double ← to_double src_f32;
  v ← (if isnan binary32 src_f32 then
         quieted ← to_double src_f32;
         _ ← (if issnan_d quieted then fflags_or (Z.shiftl 1 4) else mret tt);
         mret 0x7FF8000000000000
       else mret res_double);
  _ ← setfp (rd d) v;
  okf.

Definition fcvt_int_d (is_unsigned : bool) (MinValue MaxValue : Z) (wrap : Z -> Z) (d : InstructionData) : FX ExecReturn :=
  src ← fp (rs1 d);
  i ← rm_func src (rm d);
  match i with
  | None => illegal_rm d
  | Some intermediate =>
      md ← gets (fun s => host_rm s.1);
      res ← finalize_fcvt binary64 is_unsigned MinValue MaxValue src src (llrint binary64 md intermediate);
      _ ← on_state (setreg (rd d) (wrap res));
      okf
  end.

Definition exec_FCVT_W_D : InstructionData -> FX ExecReturn := fcvt_int_d false (- 2 ^ 31) (2 ^ 31 - 1) (fun r => u64 (s32 r)).
Definition exec_FCVT_WU_D : InstructionData -> FX ExecReturn := fcvt_int_d true 0 (2 ^ 32 - 1) (fun r => u64 (s32 (u32 r))).
Definition exec_FCVT_L_D : InstructionData -> FX ExecReturn := fcvt_int_d false (- 2 ^ 63) (2 ^ 63 - 1) u64.
Definition exec_FCVT_LU_D : InstructionData -> FX ExecReturn := fcvt_int_d true 0 (2 ^ 64 - 1) u64.

(** From a 32-bit integer, which is exact. *)
Definition fcvt_d_w (src_of : Z -> Z) (d : InstructionData) : FX ExecReturn :=
  r ← on_state (reg (rs1 d));
  exact ← host (fun md => of_int binary64 md (src_of r));
  i ← rm_func exact (rm d);
  match i with
  | None => illegal_rm d
  | Some exact => _ ← setfp (rd d) exact; okf
  end.

Definition exec_FCVT_D_W : InstructionData -> FX ExecReturn := fcvt_d_w s32.
Definition exec_FCVT_D_WU : InstructionData -> FX ExecReturn := fcvt_d_w u32.

(** From a 64-bit integer: the conversion comes before the rounding mode is
    set, and before [FLOAT_START]. *)
Definition fcvt_d_l (src_of : Z -> Z) (d : InstructionData) : FX ExecReturn :=
  r ← on_state (reg (rs1 d));
  exact ← host (fun md => of_int binary64 md (src_of r));
  _ ← FLOAT_START;
  i ← rm_func exact (rm d);
  match i with
  | None => illegal_rm d
  | Some exact => _ ← FLOAT_END; _ ← setfp (rd d) exact; okf
  end.

Definition exec_FCVT_D_L : InstructionData -> FX ExecReturn := fcvt_d_l s64.
Definition exec_FCVT_D_LU : InstructionData -> FX ExecReturn := fcvt_d_l (fun r => r).

(** ** Moves, comparisons, classes, loads and stores *)

Definition exec_FMV_X_D (d : InstructionData) : FX ExecReturn := r1 ← fp (rs1 d); _ ← on_state (setreg (rd d) r1); okf.
Definition exec_FMV_D_X (d : InstructionData) : FX ExecReturn := r ← on_state (reg (rs1 d)); _ ← setfp (rd d) r; okf.

Definition compare_d (bad cmp : Z -> Z -> bool) (d : InstructionData) : FX ExecReturn :=
  r1 ← fp (rs1 d); r2 ← fp (rs2 d); compare_to bad cmp (rd d) r1 r2.

Definition exec_FEQ_D : InstructionData -> FX ExecReturn := compare_d (fun a b => issnan_d a || issnan_d b) (feq binary64).
Definition exec_FLT_D : InstructionData -> FX ExecReturn := compare_d (fun a b => isnan binary64 a || isnan binary64 b) (isless binary64).
Definition exec_FLE_D : InstructionData -> FX ExecReturn :=
  compare_d (fun a b => isnan binary64 a || isnan binary64 b) (islessequal binary64).

Definition exec_FCLASS_D (d : InstructionData) : FX ExecReturn :=
  r1 ← fp (rs1 d); _ ← on_state (setreg (rd d) (class_mask binary64 0x0008000000000000 r1)); okf.

Definition exec_FLD : InstructionData -> FX ExecReturn := fload Long (fun v => v).
Definition exec_FSD : InstructionData -> FX ExecReturn := fstore Long (fun v => v).

Definition init_rv64d : list (FInstr B) := [
  mkFInstr "*****01******************1000011" exec_FMADD_D None;
  mkFInstr "*****01******************1000111" exec_FMSUB_D None;
  mkFInstr "*****01******************1001111" exec_FNMADD_D None;
  mkFInstr "*****01******************1001011" exec_FNMSUB_D None;
  mkFInstr "0000001******************1010011" exec_FADD_D None;
  mkFInstr "0000101******************1010011" exec_FSUB_D None;
  mkFInstr "0001001******************1010011" exec_FMUL_D None;
  mkFInstr "0001101******************1010011" exec_FDIV_D None;
  mkFInstr "010110100000*************1010011" exec_FSQRT_D None;
  mkFInstr "0010001**********000*****1010011" exec_FSGNJ_D None;
  mkFInstr "0010001**********001*****1010011" exec_FSGNJN_D None;
  mkFInstr "0010001**********010*****1010011" exec_FSGNJX_D None;
  mkFInstr "0010101**********000*****1010011" exec_FMIN_D None;
  mkFInstr "0010101**********001*****1010011" exec_FMAX_D None;
  mkFInstr "010000000001*************1010011" exec_FCVT_S_D None;
  mkFInstr "010000100000*************1010011" exec_FCVT_D_S None;
  mkFInstr "110000100000*************1010011" exec_FCVT_W_D None;
  mkFInstr "110000100001*************1010011" exec_FCVT_WU_D None;
  mkFInstr "110100100000*************1010011" exec_FCVT_D_W None;
  mkFInstr "110100100001*************1010011" exec_FCVT_D_WU None;
  mkFInstr "110000100010*************1010011" exec_FCVT_L_D None;
  mkFInstr "110000100011*************1010011" exec_FCVT_LU_D None;
  mkFInstr "110100100010*************1010011" exec_FCVT_D_L None;
  mkFInstr "110100100011*************1010011" exec_FCVT_D_LU None;
  mkFInstr "111000100000*****000*****1010011" exec_FMV_X_D None;
  mkFInstr "111100100000*****000*****1010011" exec_FMV_D_X None;
  mkFInstr "1010001**********010*****1010011" exec_FEQ_D None;
  mkFInstr "1010001**********001*****1010011" exec_FLT_D None;
  mkFInstr "1010001**********000*****1010011" exec_FLE_D None;
  mkFInstr "111000100000*****001*****1010011" exec_FCLASS_D None;
  mkFInstr "*****************011*****0000111" exec_FLD (Some imm_I);
  mkFInstr "*****************011*****0100111" exec_FSD (Some imm_S)]%string.
End rv64d.
