(* ===== verification/FloatLemmas.v ===== *)
(** * Facts on the floating point of the host

    Encoding and decoding, exact results, and rounding of equal numbers. *)

From S2P Require Import Prelude Float.

(** ** Encoding *)

Section format.
Context (f : fmt).
Hypothesis Hmw : 1 <= mw f.
Hypothesis Hew : 2 <= ew f.

Abbreviation P := (2 ^ mw f).

Lemma P_pos : 0 < P.
Proof. apply Z.pow_pos_nonneg; lia. Qed.

Lemma prec_pow : 2 ^ prec f = 2 * P.
Proof. unfold prec. rewrite Z.pow_add_r by lia. lia. Qed.

Lemma sign_bit_eq : sign_bit f = P * 2 ^ ew f.
Proof. unfold sign_bit. apply Z.pow_add_r; lia. Qed.

Lemma inf_lt : 0 < inf_bits f < sign_bit f.
Proof.
  unfold inf_bits. rewrite sign_bit_eq. pose proof P_pos. assert (2 ^ 2 <= 2 ^ ew f) by (apply Z.pow_le_mono_r; lia). nia.
Qed.

Lemma with_sign_split s a : 0 <= a < sign_bit f -> signbit f (with_sign f s a) = s /\ magnitude f (with_sign f s a) = a.
Proof.
  intros Ha. assert (0 < sign_bit f) by lia. unfold signbit, magnitude, with_sign. destruct s.
  - split.
    + replace (sign_bit f + a) with (a + 1 * 2 ^ (mw f + ew f)) by (unfold sign_bit; lia).
      rewrite Z.testbit_eqb by lia. unfold sign_bit in *. rewrite Z.div_add, Z.div_small by lia. done.
    + replace (sign_bit f + a) with (a + 1 * sign_bit f) by lia. rewrite Z_mod_plus_full. by apply Z.mod_small.
  - split; [|by apply Z.mod_small]. rewrite Z.testbit_eqb by lia. unfold sign_bit in *. by rewrite Z.div_small.
Qed.

Lemma with_sign_id b : inw (mw f + ew f + 1) b -> with_sign f (signbit f b) (magnitude f b) = b.
Proof.
  intros Hb. unfold signbit, magnitude, with_sign. fold (sign_bit f). assert (0 < sign_bit f) by (pose proof inf_lt; lia).
  assert (b < 2 * sign_bit f) as Hlt by (unfold inw in Hb; unfold sign_bit; rewrite Z.pow_add_r in Hb by lia; lia).
  rewrite Z.testbit_eqb by lia. fold (sign_bit f). pose proof (Z.div_mod b (sign_bit f)). pose proof (Z.mod_pos_bound b (sign_bit f)).
  destruct Hb as [Hb0 _].
  assert (b / sign_bit f = 0 \/ b / sign_bit f = 1) as [E|E].
  { pose proof (Z.div_pos b (sign_bit f)). assert (b / sign_bit f < 2) by (apply Z.div_lt_upper_bound; lia). lia. }
  - rewrite E in H0 |- *. change (0 mod 2 =? 1) with false. cbv iota. lia.
  - rewrite E in H0 |- *. change (1 mod 2 =? 1) with true. cbv iota. lia.
Qed.

(** The fields of an encoded magnitude. *)
Lemma dec_mag s a : 0 <= a < inf_bits f -> dec f (with_sign f s a) =
  if a <? P then Fin s a (emin f) else Fin s (a mod P + P) (emin f + a / P - 1).
Proof.
  intros Ha. pose proof inf_lt. destruct (with_sign_split s a) as [Hs Hm]; [lia|]. unfold dec. rewrite Hs, Hm.
  pose proof P_pos. assert (a / P < 2 ^ ew f - 1) by (apply Z.div_lt_upper_bound; unfold inf_bits in *; lia).
  rewrite (proj2 (Z.eqb_neq (a / P) (2 ^ ew f - 1))) by lia.
  destruct (Z.ltb_spec a P) as [Hlt|Hge].
  - by rewrite Z.div_small, Z.mod_small by lia.
  - assert (1 <= a / P) by (apply Z.div_le_lower_bound; lia). by rewrite (proj2 (Z.eqb_neq (a / P) 0)) by lia.
Qed.

(** An encoded significand at its exponent is that number. *)
Lemma dec_enc s j q : 0 <= j -> 0 <= q <= 2 * P -> (0 < j -> P <= q) -> j * P + q < inf_bits f ->
  exists m e, dec f (with_sign f s (j * P + q)) = Fin s m e /\ emin f <= e /\ m * 2 ^ (e - emin f) = q * 2 ^ j.
Proof.
  intros Hj Hq Hn Hlt. pose proof P_pos. rewrite dec_mag by nia. destruct (Z.ltb_spec (j * P + q) P) as [Hs|Hl].
  - exists (j * P + q), (emin f). assert (j = 0) as -> by nia. rewrite Z.sub_diag. split; [done|]. lia.
  - destruct (Z.eq_dec q (2 * P)) as [->|Hne].
    + exists P, (emin f + (j + 1)). replace (j * P + 2 * P) with ((j + 2) * P) by lia.
      rewrite Z.mod_mul, Z.div_mul by lia. split; [f_equal; lia|]. split; [lia|].
      replace (emin f + (j + 1) - emin f) with (j + 1) by lia. rewrite Z.pow_add_r by lia. lia.
    + assert (P <= q) by (destruct (Z.eq_dec j 0) as [->|]; lia).
      exists q, (emin f + j). replace (j * P + q) with (q - P + (j + 1) * P) by lia.
      rewrite Z_mod_plus_full, Z.div_add, Z.mod_small, Z.div_small by lia. split; [f_equal; lia|]. split; [lia|].
      by replace (emin f + j - emin f) with j by lia.
Qed.

(** ** Rounding *)

Lemma round_at_scale md s m k n : 0 <= k -> round_at md s (m * 2 ^ k) false (n + k) = round_at md s m false n.
Proof.
  intros Hk. assert (0 < 2 ^ k) by (apply Z.pow_pos_nonneg; lia). unfold round_at. destruct (Z.leb_spec n 0) as [Hn|Hn].
  - assert (2 ^ (- n) * 2 ^ (n + k) = 2 ^ k \/ n + k <= 0) as [E|Hs].
    { destruct (Z.le_gt_cases (n + k) 0); [by right|left]. rewrite <- Z.pow_add_r by lia. f_equal. lia. }
    + destruct (Z.leb_spec (n + k) 0) as [Hs|Hs].
      { f_equal. rewrite <- Z.mul_assoc, <- Z.pow_add_r by lia. do 2 f_equal. lia. }
      assert (0 < 2 ^ (n + k)) by (apply Z.pow_pos_nonneg; lia).
      rewrite <- E, Z.mul_assoc, Z.div_mul, Z.mod_mul by lia. cbn. f_equal. lia.
    + rewrite (proj2 (Z.leb_le _ _) Hs). f_equal. rewrite <- Z.mul_assoc, <- Z.pow_add_r by lia. do 2 f_equal. lia.
  - rewrite (proj2 (Z.leb_gt _ _)) by lia. assert (0 < 2 ^ n) by (apply Z.pow_pos_nonneg; lia).
    rewrite Z.pow_add_r, Z.div_mul_cancel_r, Zmult_mod_distr_r by lia. set (q := m / 2 ^ n). set (r := m mod 2 ^ n).
    assert ((r * 2 ^ k =? 0) = (r =? 0)) as -> by (destruct (Z.eqb_spec r 0), (Z.eqb_spec (r * 2 ^ k) 0); nia).
    unfold round_up. rewrite (Z.pow_add_r 2 n k) by lia.
    replace (2 ^ n * 2 ^ k <? 2 * (r * 2 ^ k)) with (2 ^ n <? 2 * r) by (destruct (Z.ltb_spec (2 ^ n) (2 * r)), (Z.ltb_spec (2 ^ n * 2 ^ k) (2 * (r * 2 ^ k))); nia).
    replace (2 * (r * 2 ^ k) =? 2 ^ n * 2 ^ k) with (2 * r =? 2 ^ n) by (destruct (Z.eqb_spec (2 * r) (2 ^ n)), (Z.eqb_spec (2 * (r * 2 ^ k)) (2 ^ n * 2 ^ k)); nia).
    assert ((r * 2 ^ k =? 0) = (r =? 0)) as -> by (destruct (Z.eqb_spec r 0), (Z.eqb_spec (r * 2 ^ k) 0); nia). done.
Qed.

Lemma fround_scale md s m e k : 0 < m -> 0 <= k -> fround f md s (m * 2 ^ k) e false = fround f md s m (e + k) false.
Proof.
  intros Hm Hk. unfold fround, tiny. rewrite Z.log2_mul_pow2 by lia.
  replace (e + (k + Z.log2 m) + 1 - prec f) with (e + k + Z.log2 m + 1 - prec f) by lia. set (t0 := e + k + Z.log2 m + 1 - prec f).
  set (t := Z.max t0 (emin f)). replace (t - e) with (t - (e + k) + k) by lia. replace (t0 - e) with (t0 - (e + k) + k) by lia.
  by rewrite !round_at_scale.
Qed.

(** Equal numbers round to the same. *)
Lemma fround_eq md s c m e m' e' : 0 < m -> 0 < m' -> c <= e -> c <= e' -> m * 2 ^ (e - c) = m' * 2 ^ (e' - c) ->
  fround f md s m e false = fround f md s m' e' false.
Proof.
  intros Hm Hm' He He' E.
  assert (forall m e, 0 < m -> c <= e -> fround f md s m e false = fround f md s (m * 2 ^ (e - c)) c false) as H.
  { intros n x Hn Hx. rewrite fround_scale by lia. f_equal. lia. }
  rewrite (H m e), (H m' e') by done. by rewrite E.
Qed.

(** A number of the format is itself. *)
Lemma fround_dec md b s m e : inw (mw f + ew f + 1) b -> dec f b = Fin s m e -> 0 < m -> fround f md s m e false = (b, no_exc).
Proof.
  intros Hb Hd Hm. pose proof P_pos. pose proof inf_lt. pose proof prec_pow.
  assert (0 <= magnitude f b < sign_bit f) as Ha by (apply Z.mod_pos_bound; lia).
  pose proof (with_sign_id b Hb) as Hw. unfold dec in Hd. set (a := magnitude f b) in *.
  pose proof (Z.div_mod a P). pose proof (Z.mod_pos_bound a P). pose proof (Z.div_pos a P).
  destruct (Z.eqb_spec (a / P) (2 ^ ew f - 1)) as [|Hx]; [by case_match|].
  assert (a / P < 2 ^ ew f) as Hy by (apply Z.div_lt_upper_bound; [lia|]; rewrite <- sign_bit_eq; lia).
  assert (a < inf_bits f) as Hi by (unfold inf_bits; nia).
  destruct (Z.eqb_spec (a / P) 0) as [E0|E0]; injection Hd as <- <- <-.
  - assert (Z.log2 (a mod P) < mw f) by (apply Z.log2_lt_pow2; lia). unfold fround, prec in *.
    rewrite Z.max_r by lia. rewrite Z.sub_diag. unfold round_at. cbn [Z.leb Z.compare Z.opp]. rewrite Z.mul_1_r.
    replace (0 * P + a mod P) with a by lia. rewrite (proj2 (Z.leb_gt _ _)) by lia. by rewrite Hw.
  - assert (Z.log2 (a mod P + P) = mw f) as El by (apply Z.log2_unique; [lia|]; rewrite Z.pow_succ_r by lia; lia).
    unfold fround. rewrite El. replace (Z.max _ _) with (emin f + a / P - 1) by (unfold prec; lia). rewrite Z.sub_diag.
    unfold round_at. cbn [Z.leb Z.compare Z.opp]. rewrite Z.mul_1_r.
    replace ((emin f + a / P - 1 - emin f) * P + (a mod P + P)) with a by nia. rewrite (proj2 (Z.leb_gt _ _)) by lia. by rewrite Hw.
Qed.

(** A number that fits is encoded exactly. *)
Lemma fround_exact md s m e : 0 < m -> Z.log2 m < prec f -> emin f <= e -> e + Z.log2 m + 1 - prec f - emin f <= 2 ^ ew f - 3 ->
  exists b m' e', fround f md s m e false = (b, no_exc) /\ dec f b = Fin s m' e' /\ emin f <= e' /\
    m' * 2 ^ (e' - emin f) = m * 2 ^ (e - emin f).
Proof.
  intros Hm Hl He Hmax. pose proof P_pos. pose proof inf_lt. pose proof prec_pow. pose proof (Z.log2_spec m Hm) as [Hlo Hhi].
  unfold fround. set (t := Z.max _ _). assert (t <= e) by lia. unfold round_at. rewrite (proj2 (Z.leb_le (t - e) 0)) by lia.
  assert (2 <= 2 ^ ew f - 1) as Hexp by (assert (2 ^ 2 <= 2 ^ ew f) by (apply Z.pow_le_mono_r; lia); lia).
  replace (- (t - e)) with (e - t) by lia. set (q := m * 2 ^ (e - t)).
  assert (q < 2 * P) as Hq.
  { rewrite <- prec_pow. unfold q. apply (Z.lt_le_trans _ (2 ^ Z.succ (Z.log2 m) * 2 ^ (e - t))); [apply Z.mul_lt_mono_pos_r; [apply Z.pow_pos_nonneg; lia|done]|].
    rewrite <- Z.pow_add_r by (pose proof (Z.log2_nonneg m); lia). apply Z.pow_le_mono_r; lia. }
  assert (0 < t - emin f -> P <= q) as Hn.
  { intros Ht. unfold q. apply (Z.le_trans _ (2 ^ Z.log2 m * 2 ^ (e - t))); [|apply Z.mul_le_mono_nonneg_r; [apply Z.pow_nonneg; lia|done]].
    rewrite <- Z.pow_add_r by (pose proof (Z.log2_nonneg m); lia). apply Z.pow_le_mono_r; [lia|]. unfold prec in *. lia. }
  assert (0 <= q) by (unfold q; apply Z.mul_nonneg_nonneg; [lia|apply Z.pow_nonneg; lia]).
  assert ((t - emin f) * P + q < inf_bits f) as Hi by (unfold inf_bits; nia).
  destruct (dec_enc s (t - emin f) q) as (m' & e' & Hd & He' & Hv); [lia|lia|done|done|].
  rewrite (proj2 (Z.leb_gt _ _)) by done. exists (with_sign f s ((t - emin f) * P + q)), m', e'. split; [done|]. split; [done|]. split; [done|].
  rewrite Hv. unfold q. rewrite <- Z.mul_assoc, <- Z.pow_add_r by lia. do 2 f_equal. lia.
Qed.
End format.

(** ** What a pattern can denote *)

Lemma dec_bounds f b s m e : 1 <= mw f -> 2 <= ew f -> dec f b = Fin s m e ->
  0 <= m < 2 ^ prec f /\ emin f <= e <= emin f + 2 ^ ew f - 3.
Proof.
  intros Hmw Hew. pose proof (P_pos f Hmw) as HP. pose proof (inf_lt f Hmw Hew) as Hi. rewrite (prec_pow f Hmw). unfold dec.
  set (a := magnitude f b). assert (0 <= a < sign_bit f) by (apply Z.mod_pos_bound; lia).
  assert (2 ^ 2 <= 2 ^ ew f) by (apply Z.pow_le_mono_r; lia).
  assert (0 <= a / 2 ^ mw f < 2 ^ ew f).
  { split; [apply Z.div_pos; lia|]. apply Z.div_lt_upper_bound; [lia|]. rewrite <- sign_bit_eq by lia. lia. }
  pose proof (Z.mod_pos_bound a (2 ^ mw f) HP). destruct (Z.eqb_spec (a / 2 ^ mw f) (2 ^ ew f - 1)); [by case_match|].
  destruct (Z.eqb_spec (a / 2 ^ mw f) 0); intros [= <- <- <-]; lia.
Qed.

Lemma round_at_nonneg md s m st k : 0 <= m -> 0 <= (round_at md s m st k).1.
Proof.
  intros Hm. unfold round_at. destruct (Z.leb_spec k 0); cbn [fst].
  - apply Z.mul_nonneg_nonneg; [done|]. apply Z.pow_nonneg. lia.
  - apply Z.add_nonneg_nonneg; [|by destruct (round_up _ _ _ _ _ _)]. apply Z.div_pos; [done|]. apply Z.pow_pos_nonneg; lia.
Qed.

Lemma fround_inw f md s m e st : 1 <= mw f -> 2 <= ew f -> 0 <= m -> inw (mw f + ew f + 1) (fround f md s m e st).1.
Proof.
  intros Hmw Hew Hm. pose proof (inf_lt f Hmw Hew) as Hi. pose proof (P_pos f Hmw).
  assert (forall a, 0 <= a < sign_bit f -> inw (mw f + ew f + 1) (with_sign f s a)) as Hw.
  { intros a Ha. unfold inw. rewrite Z.pow_add_r by lia. fold (sign_bit f). unfold with_sign. destruct s; lia. }
  unfold fround. set (t := Z.max _ _). assert (emin f <= t) by lia.
  pose proof (round_at_nonneg md s m st (t - e) Hm) as Hq.
  destruct (round_at md s m st (t - e)) as [q nx]. cbn [fst] in Hq. destruct (Z.leb_spec (inf_bits f) ((t - emin f) * 2 ^ mw f + q)); cbn [fst]; apply Hw.
  - case_match; lia.
  - nia.
Qed.

Lemma dec_zero f s : 1 <= mw f -> 2 <= ew f -> dec f (with_sign f s 0) = Fin s 0 (emin f).
Proof.
  intros Hmw Hew. pose proof (P_pos f Hmw). pose proof (inf_lt f Hmw Hew). rewrite dec_mag by lia. by rewrite (proj2 (Z.ltb_lt 0 _)).
Qed.

Lemma dec_inf f s : 1 <= mw f -> 2 <= ew f -> dec f (with_sign f s (inf_bits f)) = Inf s.
Proof.
  intros Hmw Hew. pose proof (P_pos f Hmw). pose proof (inf_lt f Hmw Hew). unfold dec.
  destruct (with_sign_split f Hmw Hew s (inf_bits f)) as [-> ->]; [lia|]. unfold inf_bits. by rewrite Z.div_mul, Z.mod_mul, Z.eqb_refl by lia.
Qed.

(** ** The same number in two formats *)

(** The scale of the least subnormal double. *)
Definition same_num (v w : fval) : Prop :=
  match v, w with
  | NaN, NaN => True
  | Inf s, Inf s' => s = s'
  | Fin s m e, Fin s' m' e' => s = s' /\ - 1074 <= e /\ - 1074 <= e' /\ m * 2 ^ (e + 1074) = m' * 2 ^ (e' + 1074)
  | _, _ => False
  end.

Lemma from_least e : e - -1074 = e + 1074.
Proof. lia. Qed.

Lemma fprod_eq f md s c m e m' e' : 0 <= m -> 0 <= m' -> c <= e -> c <= e' ->
  m * 2 ^ (e - c) = m' * 2 ^ (e' - c) -> fprod f md s m e = fprod f md s m' e'.
Proof.
  intros Hm Hm' He He' E. assert (0 < 2 ^ (e - c) /\ 0 < 2 ^ (e' - c)) as [? ?] by (split; apply Z.pow_pos_nonneg; lia).
  unfold fprod. destruct (Z.eqb_spec m 0), (Z.eqb_spec m' 0); try nia; [done|].
  by apply (fround_eq f md s c); try lia.
Qed.

(** Widening a single is exact. *)
Lemma widen md a : same_num (dec binary32 a) (dec binary64 (fcvt binary32 binary64 md a).1) /\
  (isnan binary32 a = false -> (fcvt binary32 binary64 md a).2 = no_exc).
Proof.
  unfold isnan, fcvt. destruct (dec binary32 a) as [|s|s m e] eqn:Hd.
  - split; [|done]. by vm_compute.
  - split; [|done]. cbn [fst]. by rewrite dec_inf by (cbn; lia).
  - apply dec_bounds in Hd as [Hm He]; [|cbn; lia..]. change (2 ^ prec binary32) with (2 ^ 24) in Hm.
    change (emin binary32) with (- 149) in He. cbn [ew binary32] in He. unfold fprod. destruct (Z.eqb_spec m 0) as [->|Hne].
    + split; [|done]. cbn [fst]. rewrite dec_zero by (cbn; lia). change (emin binary64) with (- 1074). cbn [same_num]. split_and!; (done || lia).
    + assert (Z.log2 m < 24) by (apply Z.log2_lt_pow2; lia). pose proof (Z.log2_nonneg m).
      destruct (fround_exact binary64 ltac:(cbn; lia) ltac:(cbn; lia) md s m e) as (b & m' & e' & -> & Hb & He' & Hv);
        try (change (emin binary64) with (- 1074); change (prec binary64) with 53; cbn [ew binary64]; lia).
      split; [|done]. cbn [fst]. rewrite Hb. change (emin binary64) with (- 1074) in *. rewrite !from_least in Hv. cbn [same_num]. split_and!; (done || lia).
Qed.

(** Narrowing gives what rounding the number gives. *)
Lemma narrow_same md a b : inw 32 a -> isnan binary32 a = false -> same_num (dec binary32 a) (dec binary64 b) ->
  fcvt binary64 binary32 md b = (a, no_exc).
Proof.
  intros Ha Hn. unfold fcvt, isnan in *. destruct (dec binary32 a) as [|s|s m e] eqn:Hd; [done|..].
  - destruct (dec binary64 b) as [|s'|]; [done| |done]. cbn [same_num]. intros <-. f_equal.
    pose proof (with_sign_id binary32 ltac:(cbn; lia) ltac:(cbn; lia) a Ha) as Hw. unfold dec in Hd.
    set (x := magnitude binary32 a) in *. pose proof (Z.div_mod x (2 ^ 23)). cbn [mw ew binary32] in Hd.
    destruct (Z.eqb_spec (x / 2 ^ 23) (2 ^ 8 - 1)); [|by case_match]. destruct (Z.eqb_spec (x mod 2 ^ 23) 0); [|done].
    injection Hd as <-. etrans; [|exact Hw]. f_equal. change (inf_bits binary32) with ((2 ^ 8 - 1) * 2 ^ 23). lia.
  - destruct (dec binary64 b) as [| |s' m' e'] eqn:Hb; [done|done|]. cbn [same_num]. intros (<- & He & He' & E).
    pose proof (dec_bounds binary32 _ _ _ _ ltac:(cbn; lia) ltac:(cbn; lia) Hd) as [Hm _].
    pose proof (dec_bounds binary64 _ _ _ _ ltac:(cbn; lia) ltac:(cbn; lia) Hb) as [Hm' _].
    rewrite <- (fprod_eq binary32 md s (- 1074) m e) by (rewrite ?from_least; lia). unfold fprod. destruct (Z.eqb_spec m 0) as [->|Hne]; [|apply fround_dec; try done; cbn; lia].
    f_equal. pose proof (with_sign_id binary32 ltac:(cbn; lia) ltac:(cbn; lia) a Ha) as Hw. etrans; [|exact Hw]. unfold dec in Hd.
    set (x := magnitude binary32 a) in *. pose proof (Z.div_mod x (2 ^ 23)). pose proof (Z.mod_pos_bound x (2 ^ 23)). cbn [mw ew binary32] in Hd.
    destruct (Z.eqb_spec (x / 2 ^ 23) (2 ^ 8 - 1)); [by case_match|]. destruct (Z.eqb_spec (x / 2 ^ 23) 0); injection Hd as <- ? ?; f_equal; lia.
Qed.

(** Rounding gives a number or an infinity. *)
Lemma fround_num f md s m e st : 1 <= mw f -> 2 <= ew f -> 0 <= m -> isnan f (fround f md s m e st).1 = false.
Proof.
  intros Hmw Hew Hm. pose proof (inf_lt f Hmw Hew) as Hi. pose proof (P_pos f Hmw).
  assert (forall a, 0 <= a < inf_bits f -> isnan f (with_sign f s a) = false) as Hw.
  { intros a Ha. unfold isnan. rewrite dec_mag by done. by destruct (a <? 2 ^ mw f). }
  unfold fround. set (t := Z.max _ _). assert (emin f <= t) by lia.
  pose proof (round_at_nonneg md s m st (t - e) Hm) as Hq. destruct (round_at md s m st (t - e)) as [q nx]. cbn [fst] in Hq.
  destruct (Z.leb_spec (inf_bits f) ((t - emin f) * 2 ^ mw f + q)); cbn [fst].
  - case_match; [unfold isnan; by rewrite dec_inf|apply Hw; lia].
  - apply Hw. nia.
Qed.

Lemma fprod_num f md s m e : 1 <= mw f -> 2 <= ew f -> 0 <= m -> isnan f (fprod f md s m e).1 = false.
Proof. intros Hmw Hew Hm. unfold fprod. case_match; [unfold isnan; cbn [fst]; by rewrite dec_zero|by apply fround_num]. Qed.

Lemma same_zero m e m' e' : - 1074 <= e -> - 1074 <= e' -> m * 2 ^ (e + 1074) = m' * 2 ^ (e' + 1074) -> (m' =? 0) = (m =? 0).
Proof.
  intros He He' E. assert (0 < 2 ^ (e + 1074) /\ 0 < 2 ^ (e' + 1074)) as [? ?] by (split; apply Z.pow_pos_nonneg; lia).
  destruct (Z.eqb_spec m 0), (Z.eqb_spec m' 0); nia.
Qed.

(** Products of significands of singles are exact in double. *)
Lemma prod_exact md s m e : 0 <= m < 2 ^ 48 -> - 1074 <= e <= 800 ->
  exists m' e', dec binary64 (fprod binary64 md s m e).1 = Fin s m' e' /\ 0 <= m' /\ - 1074 <= e' /\ m' * 2 ^ (e' + 1074) = m * 2 ^ (e + 1074).
Proof.
  intros Hm He. unfold fprod. destruct (Z.eqb_spec m 0) as [->|Hne].
  - exists 0, (- 1074). cbn [fst]. rewrite dec_zero by (cbn; lia). split_and!; (done || lia).
  - assert (Z.log2 m < 48) by (apply Z.log2_lt_pow2; lia). pose proof (Z.log2_nonneg m).
    destruct (fround_exact binary64 ltac:(cbn; lia) ltac:(cbn; lia) md s m e) as (b & m' & e' & -> & Hb & He' & Hv);
      try (change (emin binary64) with (- 1074); change (prec binary64) with 53; cbn [ew binary64]; lia).
    exists m', e'. change (emin binary64) with (- 1074) in *. rewrite !from_least in Hv. split; [done|].
    apply dec_bounds in Hb as [[Hb _] _]; [|cbn; lia..]. done.
Qed.

Lemma prod_narrow md md' s m1 e1 m1' e1' m2 e2 m2' e2' :
  0 <= m1 < 2 ^ 24 -> 0 <= m2 < 2 ^ 24 -> 0 <= m1' -> 0 <= m2' -> - 149 <= e1 <= 200 -> - 149 <= e2 <= 200 ->
  - 1074 <= e1' -> - 1074 <= e2' -> m1 * 2 ^ (e1 + 1074) = m1' * 2 ^ (e1' + 1074) -> m2 * 2 ^ (e2 + 1074) = m2' * 2 ^ (e2' + 1074) ->
  let p := (fprod binary64 md' s (m1' * m2') (e1' + e2')).1 in
  isnan binary64 p = false /\ fcvt binary64 binary32 md p = fprod binary32 md s (m1 * m2) (e1 + e2).
Proof.
  intros H1 H2 H1' H2' He1 He2 He1' He2' E1 E2 p. split; [apply fprod_num; cbn; nia|].
  assert (p = (fprod binary64 md' s (m1 * m2) (e1 + e2)).1) as ->.
  { subst p. f_equal. apply (fprod_eq _ _ _ (- 2148)); [nia|nia|lia|lia|].
    replace (e1' + e2' - -2148) with ((e1' + 1074) + (e2' + 1074)) by lia. replace (e1 + e2 - -2148) with ((e1 + 1074) + (e2 + 1074)) by lia.
    rewrite (Z.pow_add_r 2 (e1' + 1074)), (Z.pow_add_r 2 (e1 + 1074)) by lia.
    transitivity ((m1' * 2 ^ (e1' + 1074)) * (m2' * 2 ^ (e2' + 1074))); [ring|]. rewrite <- E1, <- E2. ring. }
  destruct (prod_exact md' s (m1 * m2) (e1 + e2)) as (m' & e' & Hd & Hm' & He' & Hv); [nia|lia|].
  unfold fcvt. rewrite Hd. apply (fprod_eq _ _ _ (- 1074)); rewrite ?from_least; (done || nia).
Qed.

(** The product of two singles, computed in double and narrowed, is the
    product in single: the double is exact. *)
Lemma mul_narrow md md' a b x y : same_num (dec binary32 a) (dec binary64 x) -> same_num (dec binary32 b) (dec binary64 y) ->
  let r := fmul binary32 md a b in
  isnan binary64 (fmul binary64 md' x y).1 = isnan binary32 r.1 /\
  fcvt binary64 binary32 md (fmul binary64 md' x y).1 = (r.1, if isnan binary32 r.1 then no_exc else r.2).
Proof.
  intros Ha Hb r. subst r. unfold fmul.
  destruct (dec binary32 a) as [|s1|s1 m1 e1] eqn:Da, (dec binary64 x) as [|s1'|s1' m1' e1'] eqn:Dx; try done;
  destruct (dec binary32 b) as [|s2|s2 m2 e2] eqn:Db, (dec binary64 y) as [|s2'|s2' m2' e2'] eqn:Dy; try done; cbn [same_num] in Ha, Hb.
  - subst. by destruct s1', s2'.
  - destruct Hb as (<- & He & He' & E). subst. rewrite (same_zero _ _ _ _ He He' E). by destruct (m2 =? 0), s1', s2.
  - destruct Ha as (<- & He & He' & E). subst. rewrite (same_zero _ _ _ _ He He' E). by destruct (m1 =? 0), s1, s2'.
  - destruct Ha as (<- & He1 & He1' & E1), Hb as (<- & He2 & He2' & E2).
    apply dec_bounds in Da as [Hm1 Hx1], Dx as [Hn1 _], Db as [Hm2 Hx2], Dy as [Hn2 _]; try (cbn; lia).
    change (2 ^ prec binary32) with (2 ^ 24) in *. change (emin binary32) with (- 149) in *. cbn [ew binary32] in *.
    destruct (prod_narrow md md' (xorb s1 s2) m1 e1 m1' e1' m2 e2 m2' e2') as [Hn Hp]; try (done || lia).
    rewrite Hn, Hp, fprod_num by (cbn; nia). split; [done|]. by rewrite <- surjective_pairing.
Qed.

(** ** The order of the patterns *)

(** Patterns as signed magnitudes: the order of the numbers, in which the two
    zeros are equal; and the one in which -0 is less than +0. *)
Definition key (f : fmt) (b : Z) : Z := if signbit f b then - magnitude f b else magnitude f b.
Definition total_key (f : fmt) (b : Z) : Z := if signbit f b then - magnitude f b - 1 else magnitude f b.

Section order.
Context (f : fmt).
Hypothesis Hmw : 1 <= mw f.
Hypothesis Hew : 2 <= ew f.

Abbreviation P := (2 ^ mw f).

(** A magnitude in units of the least subnormal. *)
Definition mag_val (x : Z) : Z := if x <? P then x else (x mod P + P) * 2 ^ (x / P - 1).

Lemma mag_val_lt x y : 0 <= x < y -> mag_val x < mag_val y.
Proof.
  intros Hxy. pose proof (P_pos f Hmw) as HP. unfold mag_val.
  pose proof (Z.div_mod x P). pose proof (Z.mod_pos_bound x P HP). pose proof (Z.div_mod y P). pose proof (Z.mod_pos_bound y P HP).
  destruct (Z.ltb_spec y P) as [Hy|Hy]; [rewrite (proj2 (Z.ltb_lt x P)) by lia; lia|].
  assert (1 <= y / P) by (apply Z.div_le_lower_bound; lia). assert (0 < 2 ^ (y / P - 1)) by (apply Z.pow_pos_nonneg; lia).
  destruct (Z.ltb_spec x P) as [Hx|Hx]; [nia|]. assert (1 <= x / P) by (apply Z.div_le_lower_bound; lia).
  assert (x / P <= y / P) by (apply Z.div_le_mono; lia). assert (0 < 2 ^ (x / P - 1)) by (apply Z.pow_pos_nonneg; lia).
  destruct (Z.eq_dec (x / P) (y / P)) as [E|Hne]; [rewrite E in *; nia|].
  assert (2 * 2 ^ (x / P - 1) <= 2 ^ (y / P - 1)); [|nia]. rewrite <- Z.pow_succ_r by lia. apply Z.pow_le_mono_r; lia.
Qed.

Lemma mag_val_nonneg x : 0 <= x -> 0 <= mag_val x.
Proof.
  intros Hx. pose proof (P_pos f Hmw). assert (mag_val 0 = 0) as E by (unfold mag_val; by rewrite (proj2 (Z.ltb_lt 0 P))).
  destruct (Z.eq_dec x 0) as [->|]; [lia|]. pose proof (mag_val_lt 0 x). lia.
Qed.

Lemma mag_val_0 : mag_val 0 = 0.
Proof. pose proof (P_pos f Hmw). unfold mag_val. by rewrite (proj2 (Z.ltb_lt 0 P)). Qed.

Lemma magnitude_nonneg b : 0 <= magnitude f b.
Proof. pose proof (inf_lt f Hmw Hew). apply Z.mod_pos_bound. lia. Qed.

Lemma dec_cases b : let x := magnitude f b in
  (x < inf_bits f /\ exists m e, dec f b = Fin (signbit f b) m e /\ m * 2 ^ (e - emin f) = mag_val x) \/
  (x = inf_bits f /\ dec f b = Inf (signbit f b)) \/ (inf_bits f < x /\ dec f b = NaN).
Proof.
  intros x. pose proof (P_pos f Hmw) as HP. pose proof (inf_lt f Hmw Hew). pose proof (magnitude_nonneg b) as H0. fold x in H0.
  assert (x < sign_bit f) as Hx by (apply Z.mod_pos_bound; lia). unfold dec. fold x.
  pose proof (Z.div_mod x P). pose proof (Z.mod_pos_bound x P HP). assert (x / P < 2 ^ ew f).
  { apply Z.div_lt_upper_bound; [lia|]. rewrite <- sign_bit_eq by lia. lia. }
  destruct (Z.eqb_spec (x / P) (2 ^ ew f - 1)) as [E|E].
  - destruct (Z.eqb_spec (x mod P) 0); [right; left|right; right]; (split; [unfold inf_bits; nia|done]).
  - left. split; [unfold inf_bits; nia|]. unfold mag_val. destruct (Z.eqb_spec (x / P) 0) as [E0|E0].
    + exists (x mod P), (emin f). split; [done|]. rewrite Z.sub_diag, (proj2 (Z.ltb_lt x P)) by lia. lia.
    + exists (x mod P + P), (emin f + x / P - 1). split; [done|]. assert (0 <= x / P) by (apply Z.div_pos; lia).
      rewrite (proj2 (Z.ltb_ge x P)) by nia. do 2 f_equal. lia.
Qed.

Lemma isnan_mag b : isnan f b = (inf_bits f <? magnitude f b).
Proof.
  unfold isnan. destruct (dec_cases b) as [(Hx & m & e & -> & _)|[[Hx ->]|[Hx ->]]]; symmetry;
    [apply Z.ltb_ge|apply Z.ltb_ge|apply Z.ltb_lt]; lia.
Qed.

Lemma compare_signed s1 s2 x y : 0 <= x -> 0 <= y ->
  (signed s1 (mag_val x) ?= signed s2 (mag_val y)) = ((if s1 then - x else x) ?= (if s2 then - y else y)).
Proof.
  intros Hx Hy. pose proof mag_val_0 as H0.
  assert (x < y -> mag_val x < mag_val y) by (intros; by apply mag_val_lt). assert (y < x -> mag_val y < mag_val x) by (intros; by apply mag_val_lt).
  assert (x = y -> mag_val x = mag_val y) by congruence. assert (x = 0 -> mag_val x = 0) by congruence. assert (y = 0 -> mag_val y = 0) by congruence.
  assert (0 < x -> 0 < mag_val x) by (intros; rewrite <- H0; by apply mag_val_lt). assert (0 < y -> 0 < mag_val y) by (intros; rewrite <- H0; by apply mag_val_lt).
  destruct s1, s2; cbn [signed];
    match goal with |- (?a ?= ?b) = (?c ?= ?d) => destruct (Z.compare_spec a b), (Z.compare_spec c d) end; try done; exfalso; lia.
Qed.

Lemma fcompare_key a b : fcompare f a b = if isnan f a || isnan f b then None else Some (key f a ?= key f b).
Proof.
  pose proof (magnitude_nonneg a) as Ha0. pose proof (magnitude_nonneg b) as Hb0. pose proof (inf_lt f Hmw Hew).
  rewrite !isnan_mag. unfold fcompare, key.
  destruct (dec_cases a) as [(Hx & m & e & Ea & Hv)|[[Hx Ea]|[Hx Ea]]]; destruct (dec_cases b) as [(Hy & m' & e' & Eb & Hv')|[[Hy Eb]|[Hy Eb]]];
    rewrite Ea, ?Eb; try (rewrite (proj2 (Z.ltb_lt _ (magnitude f a))) by lia; done);
    try (rewrite (proj2 (Z.ltb_lt _ (magnitude f b))), orb_true_r by lia; done);
    rewrite (proj2 (Z.ltb_ge _ (magnitude f a))), (proj2 (Z.ltb_ge _ (magnitude f b))) by lia; cbn [orb]; f_equal.
  { unfold scaled. rewrite Hv, Hv'. by apply compare_signed. }
  all: rewrite ?Hx, ?Hy; destruct (signbit f a), (signbit f b); cbn [Bool.eqb];
    match goal with |- _ = (?c ?= ?d) => destruct (Z.compare_spec c d) end; try done; exfalso; lia.
Qed.

Lemma feq_key a b : feq f a b = negb (isnan f a || isnan f b) && (key f a =? key f b).
Proof. unfold feq. rewrite fcompare_key. destruct (isnan f a || isnan f b); [done|]. by rewrite Z.eqb_compare; case_match. Qed.

Lemma isless_key a b : isless f a b = negb (isnan f a || isnan f b) && (key f a <? key f b).
Proof. unfold isless. rewrite fcompare_key. destruct (isnan f a || isnan f b); [done|]. by rewrite Z.ltb_compare; case_match. Qed.

Lemma islessequal_key a b : islessequal f a b = negb (isnan f a || isnan f b) && (key f a <=? key f b).
Proof. unfold islessequal. rewrite fcompare_key. destruct (isnan f a || isnan f b); [done|]. by rewrite Z.leb_compare; case_match. Qed.

Lemma key_zero : key f 0 = 0 /\ isnan f 0 = false.
Proof.
  pose proof (inf_lt f Hmw Hew). assert (magnitude f 0 = 0) as E by (apply Z.mod_0_l; lia). rewrite isnan_mag. unfold key. rewrite E.
  split; [by destruct (signbit f 0)|]. apply Z.ltb_ge. lia.
Qed.

(** The zero that is preferred, and the number that is: the least or the
    greatest of both, with -0 below +0. *)
Lemma order_zero a : feq f a 0 = true -> magnitude f a = 0.
Proof.
  pose proof key_zero as [Hk Hn]. rewrite feq_key, Hk, Hn. intros H. apply andb_true_iff in H as [_ H]. apply Z.eqb_eq in H.
  unfold key in H. destruct (signbit f a); lia.
Qed.

Lemma key_inj_total a b : key f a < key f b -> total_key f a < total_key f b.
Proof.
  pose proof (magnitude_nonneg a). pose proof (magnitude_nonneg b). unfold key, total_key. destruct (signbit f a), (signbit f b); lia.
Qed.

Lemma key_eq_total a b : key f a = key f b -> magnitude f a <> 0 -> total_key f a = total_key f b.
Proof.
  pose proof (magnitude_nonneg a). pose proof (magnitude_nonneg b). unfold key, total_key. destruct (signbit f a), (signbit f b); lia.
Qed.

(** The test for signaling NaNs with masks. *)
Lemma mask_field b lo len : 0 <= lo -> 0 <= len -> Z.land b ((2 ^ len - 1) * 2 ^ lo) = (b / 2 ^ lo) mod 2 ^ len * 2 ^ lo.
Proof.
  intros Hlo Hlen. replace (2 ^ len - 1) with (Z.ones len) by (rewrite Z.ones_equiv; lia).
  rewrite <- !Z.shiftl_mul_pow2, <- Z.shiftr_div_pow2, <- Z.land_ones by lia.
  apply Z.bits_inj'. intros i Hi. rewrite Z.land_spec, !Z.shiftl_spec, Z.land_spec by lia.
  destruct (Z.ltb_spec i lo); [rewrite !(Z.testbit_neg_r _ (i - lo)) by lia; by rewrite andb_false_r|].
  rewrite Z.shiftr_spec by lia. by replace (i - lo + lo) with i by lia.
Qed.

Lemma magnitude_fields b : magnitude f b / P = (b / P) mod 2 ^ ew f /\ magnitude f b mod P = b mod P.
Proof.
  pose proof (P_pos f Hmw). assert (0 < 2 ^ ew f) by (apply Z.pow_pos_nonneg; lia).
  unfold magnitude. rewrite sign_bit_eq by lia. rewrite (Z.rem_mul_r b P (2 ^ ew f)) by lia. pose proof (Z.mod_pos_bound b P).
  rewrite (Z.mul_comm P), Z.div_add, Z_mod_plus_full, Z.div_small, Z.mod_mod by lia. split; [lia|done].
Qed.

Lemma signaling_mask b : signaling f b =
  (Z.land b (inf_bits f) =? inf_bits f) && negb (Z.land b (P - 1) =? 0) && (Z.land b (2 ^ (mw f - 1)) =? 0).
Proof.
  pose proof (P_pos f Hmw). destruct (magnitude_fields b) as [Ex Ef]. unfold signaling, isnan, dec. rewrite Ex, Ef.
  unfold inf_bits at 1 2. rewrite mask_field by lia.
  replace (Z.land b (P - 1)) with (b mod P) by (rewrite <- Z.land_ones by lia; f_equal; rewrite Z.ones_equiv; lia).
  replace (Z.land b (2 ^ (mw f - 1)) =? 0) with (negb (Z.testbit b (mw f - 1))).
  2: {
       pose proof (mask_field b (mw f - 1) 1 ltac:(lia) ltac:(lia)) as Hm. rewrite Z.pow_1_r, Z.mul_1_l in Hm. rewrite Hm.
       rewrite Z.testbit_eqb by lia. assert (0 < 2 ^ (mw f - 1)) by (apply Z.pow_pos_nonneg; lia).
       pose proof (Z.mod_pos_bound (b / 2 ^ (mw f - 1)) 2). set (r := _ mod 2) in *.
       destruct (Z.eqb_spec r 1) as [E|E], (Z.eqb_spec (r * 2 ^ (mw f - 1)) 0); cbn [negb]; try done; nia. }
  destruct (Z.eqb_spec ((b / P) mod 2 ^ ew f) (2 ^ ew f - 1)) as [E|E].
  - rewrite E, Z.eqb_refl. by destruct (b mod P =? 0).
  - rewrite (proj2 (Z.eqb_neq (_ * P) _)) by (intros Hq; apply E; by apply Z.mul_reg_r in Hq; [|lia]). by destruct (_ =? 0).
Qed.
End order.

(** ** Rounding to an integer *)

(** The integer the ISA manual names for [x * 2 ^ (- k)]. *)
Definition int_of (md : Rounding) (x k : Z) : Z :=
  let q := x / 2 ^ k in
  let r := x mod 2 ^ k in
  match md with
  | FE_DOWNWARD => q
  | FE_UPWARD => - ((- x) / 2 ^ k)
  | FE_TOWARDZERO => Z.quot x (2 ^ k)
  | FE_TONEAREST => if 2 * r <? 2 ^ k then q else if 2 ^ k <? 2 * r then q + 1 else if Z.even q then q else q + 1
  end.

(** Of the number [m * 2 ^ e] with its sign. *)
Definition rounded (md : Rounding) (s : bool) (m e : Z) : Z :=
  if 0 <=? e then signed s m * 2 ^ e else int_of md (signed s m) (- e).

Lemma neg_div m k : 0 < k -> (- m) / k = - (m / k) - (if m mod k =? 0 then 0 else 1) /\
  (- m) mod k = (if m mod k =? 0 then 0 else k - m mod k).
Proof.
  intros Hk. destruct (Z.eqb_spec (m mod k) 0) as [E|E].
  - rewrite Z.div_opp_l_z, Z.mod_opp_l_z by lia. lia.
  - rewrite Z.div_opp_l_nz, Z.mod_opp_l_nz by lia. lia.
Qed.

Lemma round_int md s m e : 0 <= m -> signed s (round_at md s m false (- e)).1 = rounded md s m e.
Proof.
  intros Hm. unfold rounded, round_at. destruct (Z.leb_spec 0 e) as [He|He].
  { rewrite (proj2 (Z.leb_le (- e) 0)) by lia. cbn [fst]. rewrite Z.opp_involutive. destruct s; cbn; lia. }
  rewrite (proj2 (Z.leb_gt (- e) 0)) by lia. cbn [fst]. set (k := 2 ^ (- e)). assert (0 < k) as Hk by (apply Z.pow_pos_nonneg; lia).
  unfold int_of, round_up. fold k. rewrite andb_true_r, orb_false_l. destruct (neg_div m k Hk) as [Hd Hr].
  pose proof (Z.mod_pos_bound m k Hk). pose proof (Z.quot_div_nonneg m k Hm Hk) as Hq. pose proof (Z.negb_odd (m / k)) as Ho.
  destruct s; cbn [signed]; rewrite ?Z.opp_involutive, ?Z.quot_opp_l, ?Hq, ?Hd, ?Hr by lia; rewrite ?Hd, ?Hr.
  all: set (q := m / k) in *; set (r := m mod k) in *; rewrite <- ?Ho.
  - destruct (Z.eqb_spec r 0) as [E|E]; [destruct md; cbn; rewrite ?(proj2 (Z.ltb_lt (2 * 0) k)) by lia; lia|].
    replace (Z.even (- q - 1)) with (Z.odd q) by (rewrite Z.even_sub, Z.even_opp, <- Ho; by destruct (Z.odd q)).
    destruct md; cbn [negb]; destruct (Z.odd q); zcases; cbn; lia.
  - destruct (Z.eqb_spec r 0) as [E|E]; [destruct md; rewrite ?E, ?(proj2 (Z.ltb_lt (2 * 0) k)) by lia; cbn; lia|].
    destruct md; cbn [negb]; destruct (Z.odd q); zcases; cbn; lia.
Qed.

Lemma rounded_small md s m e : 0 <= m < 2 ^ 24 -> e < 0 -> - 2 ^ 24 <= rounded md s m e <= 2 ^ 24.
Proof.
  intros Hm He. rewrite <- round_int by lia. unfold round_at. rewrite (proj2 (Z.leb_gt (- e) 0)) by lia. cbn [fst].
  assert (0 < 2 ^ (- e)) by (apply Z.pow_pos_nonneg; lia). assert (0 <= m / 2 ^ (- e) <= m).
  { split; [apply Z.div_pos; lia|]. apply Z.div_le_upper_bound; nia. }
  destruct (round_up _ _ _ _ _ _), s; cbn [signed b2z]; lia.
Qed.

(** Below -1 before rounding is below 0 after it, and the other way round. *)
Lemma rounded_below md s m e : 0 <= m -> e < 0 -> signed s m <= - 2 ^ (- e) -> rounded md s m e < 0.
Proof.
  intros Hm He Hx. rewrite <- round_int by lia. unfold round_at. rewrite (proj2 (Z.leb_gt (- e) 0)) by lia. cbn [fst].
  assert (0 < 2 ^ (- e)) by (apply Z.pow_pos_nonneg; lia). destruct s; cbn [signed] in *; [|lia].
  assert (1 <= m / 2 ^ (- e)) by (apply Z.div_le_lower_bound; lia). destruct (round_up _ _ _ _ _ _); cbn; lia.
Qed.

Definition in_int64 (x : Z) : bool := (- 2 ^ 63 <=? x) && (x <? 2 ^ 63).

Lemma llrint_ok md s m e w : 0 <= m -> same_num (Fin s m e) (dec binary64 w) ->
  llrint binary64 md w = if in_int64 (rounded md s m e) then rounded md s m e else INT64_MIN.
Proof.
  intros Hm Hw. unfold llrint. destruct (dec binary64 w) as [| |s' m' e'] eqn:Hd; [done..|]. destruct Hw as (<- & He & He' & E).
  assert (round_at md s m' false (- e') = round_at md s m false (- e)) as ->.
  { rewrite <- (round_at_scale md s m' (e' + 1074)), <- (round_at_scale md s m (e + 1074)) by lia. rewrite E. f_equal. lia. }
  rewrite round_int by done. done.
Qed.

(** ** Comparing a number with an integer *)

Definition units (s : bool) (m e : Z) : Z := signed s (m * 2 ^ (e + 1074)).

Lemma compare_units s m e s' m' e' a b : same_num (Fin s m e) (dec binary64 a) -> same_num (Fin s' m' e') (dec binary64 b) ->
  fcompare binary64 a b = Some (units s m e ?= units s' m' e').
Proof.
  intros Ha Hb. unfold fcompare. destruct (dec binary64 a) as [| |sa ma ea]; [done..|]. destruct (dec binary64 b) as [| |sb mb eb]; [done..|].
  destruct Ha as (<- & _ & _ & E), Hb as (<- & _ & _ & E'). unfold scaled, units. change (emin binary64) with (- 1074).
  by rewrite !from_least, E, E'.
Qed.

(** An integer with few significant bits is converted exactly. *)
Lemma of_int_exact md x n j : 0 <= n < 2 ^ 48 -> 0 <= j <= 800 -> Z.abs x = n * 2 ^ j ->
  same_num (Fin (x <? 0) (Z.abs x) 0) (dec binary64 (of_int binary64 md x).1).
Proof.
  intros Hn Hj Hx. unfold of_int. rewrite (fprod_eq binary64 md _ 0 (Z.abs x) 0 n j); try lia; [|rewrite !Z.sub_0_r, Z.pow_0_r; lia].
  destruct (prod_exact md (x <? 0) n j) as (m' & e' & -> & _ & He' & Hv); [done|lia|]. cbn [same_num]. split_and!; [done|lia|done|].
  change (0 + 1074) with 1074. rewrite Hv, Hx, (Z.pow_add_r 2 j 1074) by lia. ring.
Qed.

Lemma units_int x : units (x <? 0) (Z.abs x) 0 = x * 2 ^ 1074.
Proof. unfold units, signed. change (0 + 1074) with 1074. destruct (Z.ltb_spec x 0); [rewrite Z.abs_neq by lia; ring|by rewrite Z.abs_eq by lia]. Qed.

(** A single against an integer beyond its fractions: before and after
    rounding. *)
Lemma units_lt md s m e c : 0 <= m < 2 ^ 24 -> - 149 <= e -> 2 ^ 24 < Z.abs c -> (units s m e <? c * 2 ^ 1074) = (rounded md s m e <? c).
Proof.
  intros Hm He Hc. assert (0 < 2 ^ 1074) as HU by (apply Z.pow_pos_nonneg; lia). set (U := 2 ^ 1074) in *. destruct (Z.le_gt_cases 0 e) as [H0|H0].
  - assert (units s m e = rounded md s m e * U) as ->.
    { unfold units, rounded. rewrite (proj2 (Z.leb_le 0 e)), Z.pow_add_r by lia. fold U. destruct s; cbn [signed]; ring. }
    destruct (Z.ltb_spec (rounded md s m e) c), (Z.ltb_spec (rounded md s m e * U) (c * U)); try done; exfalso; nia.
  - pose proof (rounded_small md s m e Hm H0). assert (2 ^ (e + 1074) <= U) by (apply Z.pow_le_mono_r; lia).
    assert (0 < 2 ^ (e + 1074)) by (apply Z.pow_pos_nonneg; lia). assert (- (2 ^ 24 * U) <= units s m e <= 2 ^ 24 * U) by (unfold units; destruct s; cbn [signed]; nia).
    destruct (Z.ltb_spec (rounded md s m e) c), (Z.ltb_spec (units s m e) (c * U)); try done; exfalso; nia.
Qed.

Lemma units_frac s m e : - 149 <= e < 0 -> exists V, 0 < V /\ units s m e = signed s m * V /\ 2 ^ 1074 = 2 ^ (- e) * V.
Proof.
  intros He. exists (2 ^ (e + 1074)). split; [apply Z.pow_pos_nonneg; lia|]. split; [unfold units; destruct s; cbn [signed]; ring|].
  rewrite <- Z.pow_add_r by lia. f_equal. lia.
Qed.

(** Whether a number is an integer. *)
Definition whole (m e : Z) : bool := (0 <=? e) || (m mod 2 ^ (- e) =? 0).

Lemma whole_units md s m e : 0 <= m -> - 149 <= e -> (units s m e =? rounded md s m e * 2 ^ 1074) = whole m e.
Proof.
  intros Hm He. unfold whole. destruct (Z.leb_spec 0 e) as [H0|H0]; cbn [orb].
  - apply Z.eqb_eq. unfold units, rounded. rewrite (proj2 (Z.leb_le 0 e)), Z.pow_add_r by lia. destruct s; cbn [signed]; ring.
  - destruct (units_frac s m e ltac:(lia)) as (V & HV & -> & ->). assert (0 < 2 ^ (- e)) as Hk by (apply Z.pow_pos_nonneg; lia).
    rewrite <- round_int by done. unfold round_at. rewrite (proj2 (Z.leb_gt (- e) 0)) by lia. cbn [fst]. set (k := 2 ^ (- e)) in *.
    pose proof (Z.div_mod m k ltac:(lia)). pose proof (Z.mod_pos_bound m k Hk).
    destruct (Z.eqb_spec (m mod k) 0) as [E|E]; cbn [andb negb].
    + unfold round_up. rewrite E. cbn [Z.eqb andb negb]. apply Z.eqb_eq. destruct s; cbn [signed b2z]; nia.
    + apply Z.eqb_neq. generalize (round_up md s (m / k) (m mod k) (- e) false). intros up Hc.
      rewrite Z.mul_assoc in Hc. apply Z.mul_reg_r in Hc; [|lia].
      assert (m mod k = k * b2z up) by (destruct s; cbn [signed] in Hc; nia). destruct up; cbn [b2z] in *; lia.
Qed.

(** The test of the unsigned conversions for a negative result. *)
Lemma units_neg md s m e : 0 <= m < 2 ^ 24 -> - 149 <= e ->
  (units s m e <=? - 1 * 2 ^ 1074) || ((if in_int64 (rounded md s m e) then rounded md s m e else INT64_MIN) <? 0) &&
    negb ((if in_int64 (rounded md s m e) then rounded md s m e else INT64_MIN) =? INT64_MIN) = (rounded md s m e <? 0).
Proof.
  intros Hm He. assert (0 < 2 ^ 1074) as HU by (apply Z.pow_pos_nonneg; lia). set (R := rounded md s m e).
  destruct (Z.le_gt_cases 0 e) as [H0|H0].
  - assert (units s m e = R * 2 ^ 1074) as ->.
    { unfold R, units, rounded. rewrite (proj2 (Z.leb_le 0 e)), Z.pow_add_r by lia. destruct s; cbn [signed]; ring. }
    set (U := 2 ^ 1074) in *. assert ((R * U <=? - 1 * U) = (R <? 0)) as -> by (destruct (Z.leb_spec (R * U) (- 1 * U)), (Z.ltb_spec R 0); try done; exfalso; nia).
    destruct (Z.ltb_spec R 0); cbn [orb]; [done|]. unfold in_int64. destruct (Z.leb_spec (- 2 ^ 63) R); [|lia]. cbn [andb].
    destruct (R <? 2 ^ 63); [by rewrite (proj2 (Z.ltb_ge R 0))|done].
  - pose proof (rounded_small md s m e Hm H0) as Hr. fold R in Hr. unfold in_int64.
    rewrite (proj2 (Z.leb_le (- 2 ^ 63) R)), (proj2 (Z.ltb_lt R (2 ^ 63))) by lia. cbn [andb].
    rewrite (proj2 (Z.eqb_neq R INT64_MIN)) by (unfold INT64_MIN; lia). rewrite andb_true_r.
    destruct (Z.ltb_spec R 0); [by rewrite orb_true_r|]. rewrite orb_false_r. apply Z.leb_gt.
    destruct (units_frac s m e ltac:(lia)) as (V & HV & -> & ->). pose proof (rounded_below md s m e ltac:(lia) H0) as Hb. fold R in Hb.
    destruct (Z.le_gt_cases (signed s m) (- 2 ^ (- e))); [lia|]. nia.
Qed.
