(* ===== verification/FloatSpec.v ===== *)
(** * What the floating-point instructions do

    Against single operations of IEEE 754, the order of the numbers, and the
    conversions of the ISA manual; also where the handlers differ from it. *)

From S2P Require Import Prelude Defs MemoryMap SelfMod Tlb Decode Hart State Mmu Mmio.
From S2P Require Import Rv64i Rv64c Float FloatLemmas Rv64f Rv64d.

(** ** The environment *)

(** The rounding mode an instruction selects. *)
Definition mode_of (h : Hart) (rm : Z) : option Rounding :=
  let c := if rm =? 7 then getf (fcsr h) Fcsr.frm else rm in
  if c =? 0 then Some FE_TONEAREST
  else if c =? 1 then Some FE_TOWARDZERO
  else if c =? 2 then Some FE_DOWNWARD
  else if c =? 3 then Some FE_UPWARD
  else None.

Lemma or_fflags_eq x h : inw 5 x -> or_fflags x h = set_fcsr (Z.lor (fcsr h) x) h.
Proof.
  intros Hx. unfold or_fflags, setf, getf. f_equal. cbn [Fcsr.fflags bf_lo bf_len].
  apply Z.bits_inj'. intros i Hi. rewrite bf_set_bits, !Z.lor_spec by lia.
  destruct (Z.leb_spec 0 i), (Z.ltb_spec i (0 + 5)); try lia; cbn [andb].
  - rewrite Z.sub_0_r, bf_get_bits, Z.add_0_r by lia. by rewrite (proj2 (Z.ltb_lt _ _)) by lia.
  - rewrite (inw_high 5 x i), orb_false_r by (done || lia). done.
Qed.

Lemma or_fflags_or x y h : inw 5 x -> inw 5 y -> or_fflags y (or_fflags x h) = or_fflags (Z.lor x y) h.
Proof.
  intros Hx Hy. rewrite !or_fflags_eq by (try apply inw_lor; done || lia). cbn [fcsr set_fcsr]. by rewrite Z.lor_assoc.
Qed.

Lemma or_fflags_0 h : or_fflags 0 h = h.
Proof. rewrite or_fflags_eq by (by apply inw_0). rewrite Z.lor_0_r. by destruct h. Qed.

Lemma exc_bits_inw x : inw 5 (exc_bits x).
Proof. by destruct x as [[] [] [] [] []]. Qed.

Lemma fcvt_inw md b : inw 32 (fcvt binary64 binary32 md b).1.
Proof.
  unfold fcvt. destruct (dec binary64 b) as [|s|s m e] eqn:Hd; [done|by destruct s|].
  apply dec_bounds in Hd as [[Hm _] _]; [|cbn; lia..]. unfold fprod. case_match; [by destruct s|].
  by apply (fround_inw binary32); cbn; lia.
Qed.

Lemma fcvt_nan md b : isnan binary32 (fcvt binary64 binary32 md b).1 = isnan binary64 b.
Proof.
  unfold fcvt, isnan at 2. destruct (dec binary64 b) as [|s|s m e] eqn:Hd; [done|by destruct s|].
  apply dec_bounds in Hd as [[Hm _] _]; [|cbn; lia..]. apply fprod_num; cbn; lia.
Qed.

Lemma exc_or_none x : exc_or x no_exc = x.
Proof. by destruct x as [[] [] [] [] []]. Qed.

Lemma exc_none_or x : exc_or no_exc x = x.
Proof. by destruct x. Qed.

Lemma same_nan a b : same_num (dec binary32 a) (dec binary64 b) -> isnan binary64 b = isnan binary32 a.
Proof. unfold isnan. by destruct (dec binary32 a), (dec binary64 b). Qed.

Section fpu.
Context {B : Type} `{!BusOps B}.
Implicit Types (s : State B) (env : Fenv).

Lemma rm_func_ok val rm env s md : mode_of (hart s) rm = Some md ->
  rm_func val rm (env, s) = Ret (Some val, (mkFenv md (host_exc env), s)).
Proof.
  unfold mode_of, rm_func, gets. cbv [mbind ST_bind mret ST_ret]. cbn [snd]. set (c := if rm =? 7 then _ else _).
  destruct (Z.eqb_spec c 0) as [->|]; [by intros [= <-]|]. destruct (Z.eqb_spec c 1) as [->|]; [by intros [= <-]|].
  destruct (Z.eqb_spec c 2) as [->|]; [by intros [= <-]|]. destruct (Z.eqb_spec c 3) as [->|]; [by intros [= <-]|]. done.
Qed.

(** The flags of an operation; any NaN result counts as invalid. *)
Definition flags_of (f : fmt) (r : Z * Exc) : Z := if isnan f r.1 then 16 else exc_bits r.2.

Lemma finish_s_ok d res env s md : mode_of (hart s) (rm d) = Some md ->
  let r := fcvt binary64 binary32 md res in
  exists x, finish_s d res (env, s) =
    Ret (exec_ok, (mkFenv md x, set_hart (put_fpr (rd d) (f32_out r.1) (or_fflags (if isnan binary64 res then Z.lor (exc_bits r.2) 16 else exc_bits r.2) (hart s))) s)).
Proof.
  intros Hmd r. unfold finish_s, FLOAT_START, modify. cbv [mbind ST_bind]. rewrite (rm_func_ok _ _ _ _ _ Hmd). cbn [host_exc fst snd].
  unfold to_float, host. cbn [host_rm host_exc fst snd]. fold r. pose proof (fcvt_inw md res) as Hv. pose proof (fcvt_nan md res) as Hn.
  fold r in Hv, Hn. destruct (isnan binary64 res) eqn:Hres.
  - assert (r.1 = qnan binary32) as Er by (subst r; unfold fcvt, isnan in *; by destruct (dec binary64 res)).
    destruct r as [v x]. cbn [fst snd] in *. subst v. eexists.
    change (to_double (qnan binary32) ?st) with (Ret (A := Z * _) (qnan binary64, (mkFenv (host_rm st.1) (exc_or (host_exc st.1) no_exc), st.2))).
    cbn [host_rm host_exc fst snd]. unfold FLOAT_END, gets, fflags_or, on_state, mod_hart, modify. cbv [mbind ST_bind]. cbn [host_exc fst snd].
    rewrite exc_or_none, exc_none_or. unfold cast_float. change (isnan binary64 (qnan binary64)) with true.
    unfold fflags_or, on_state, mod_hart, modify, setfp, setfreg, okf. cbv [mbind ST_bind mret ST_ret]. cbn [fst snd set_hart hart].
    change (Z.shiftl 1 4) with 16. by rewrite or_fflags_or by (apply exc_bits_inw || done).
  - destruct r as [v x]. cbn [fst snd] in *. destruct (widen md v) as [Hw Hx]. specialize (Hx Hn). unfold to_double, host.
    cbn [host_rm host_exc fst snd]. destruct (fcvt binary32 binary64 md v) as [w x'] eqn:Ew. cbn [fst snd] in *. subst x'.
    unfold FLOAT_END, gets, fflags_or, on_state, mod_hart, modify. cbv [mbind ST_bind]. cbn [host_exc fst snd]. rewrite exc_or_none, exc_none_or.
    unfold cast_float. rewrite (same_nan v w Hw), Hn. unfold to_float, host. cbn [host_rm host_exc fst snd]. rewrite (narrow_same md v w Hv Hn Hw).
    unfold setfp, setfreg, on_state, mod_hart, modify, okf. cbv [mret ST_ret]. cbn [fst snd set_hart hart]. by eexists.
Qed.

Lemma in_double_ok i env s : exists x, in_double i (env, s) =
  Ret ((fcvt binary32 binary64 (host_rm env) (f32_in (fpr (hart s) i))).1, (mkFenv (host_rm env) x, s)).
Proof.
  unfold in_double, fp, on_state, freg, gets, to_double, host. cbv [mbind ST_bind]. cbn [fst snd].
  destruct (fcvt binary32 binary64 (host_rm env) _) as [r x]. by eexists.
Qed.

(** What the hart is after an operation with result [v] and flags [x]. *)
Definition fp_result (d : InstructionData) (v x : Z) (s : State B) : State B :=
  set_hart (put_fpr (rd d) v (or_fflags x (hart s))) s.

Lemma fmul_s_ok d env s md : mode_of (hart s) (rm d) = Some md ->
  let r := fmul binary32 md (f32_in (fpr (hart s) (rs1 d))) (f32_in (fpr (hart s) (rs2 d))) in
  exists x, exec_FMUL_S d (env, s) = Ret (exec_ok, (mkFenv md x, fp_result d (f32_out r.1) (flags_of binary32 r) s)).
Proof.
  intros Hmd. cbv zeta. set (a := f32_in (fpr (hart s) (rs1 d))). set (b := f32_in (fpr (hart s) (rs2 d))).
  unfold exec_FMUL_S, arith_s. cbv [mbind ST_bind]. destruct (in_double_ok (rs1 d) env s) as [x1 ->]. fold a.
  destruct (in_double_ok (rs2 d) (mkFenv (host_rm env) x1) s) as [x2 ->]. fold b. cbn [host_rm].
  destruct (widen (host_rm env) a) as [Ha _]. destruct (widen (host_rm env) b) as [Hb _].
  unfold host. cbn [host_rm host_exc fst snd]. destruct (mul_narrow md (host_rm env) a b _ _ Ha Hb) as [Hn Hf].
  destruct (fmul binary64 (host_rm env) _ _) as [p xp]. cbn [fst] in Hn, Hf.
  destruct (finish_s_ok d p (mkFenv (host_rm env) (exc_or x2 xp)) s md Hmd) as [x Hx]. exists x. rewrite Hx, Hf, Hn. cbn [fst snd].
  unfold fp_result, flags_of. by destruct (isnan binary32 (fmul binary32 md a b).1).
Qed.

(** The double-precision operations, with the NaN they give made canonical. *)
Definition canon_d (r : Z * Exc) : Z := if isnan binary64 r.1 then 0x7FF8000000000000 else r.1.

Lemma arith_d_ok d env s md (m : FX B Z) op : mode_of (hart s) (rm d) = Some md ->
  m = (fun st => let '(r, x) := op (host_rm st.1) st.2 in Ret (r, (mkFenv (host_rm st.1) (exc_or (host_exc st.1) x), st.2))) ->
  exists x, arith_d d m (env, s) = Ret (exec_ok, (mkFenv md x,
    fp_result d (canon_d (op md s)) (Z.lor (exc_bits (op md s).2) (if isnan binary64 (op md s).1 then 16 else 0)) s)).
Proof.
  intros Hmd ->. unfold arith_d. cbv [mbind ST_bind]. rewrite (rm_func_ok _ _ _ _ _ Hmd). unfold FLOAT_START, modify. cbn [host_rm host_exc fst snd].
  unfold canon_d. destruct (op md s) as [r x]. cbn [fst snd]. rewrite exc_none_or.
  unfold FLOAT_END, gets, fflags_or, on_state, mod_hart, modify. cbv [mbind ST_bind]. cbn [host_exc fst snd]. exists x.
  unfold sanitize_nan. destruct (isnan binary64 r).
  - unfold fflags_or, on_state, mod_hart, modify, setfp, setfreg. cbv [mbind ST_bind mret ST_ret]. cbn [fst snd set_hart hart].
    unfold okf, fp_result. change (Z.shiftl 1 4) with 16. cbv [mret ST_ret]. by rewrite or_fflags_or by (apply exc_bits_inw || done).
  - unfold setfp, setfreg, on_state, mod_hart, modify, okf, fp_result. cbv [mret ST_ret]. cbn [fst snd set_hart hart]. by rewrite Z.lor_0_r.
Qed.

Lemma rm_func_illegal val rm env s : let c := if rm =? 7 then getf (fcsr (hart s)) Fcsr.frm else rm in
  c = 5 \/ c = 6 -> rm_func val rm (env, s) = Ret (None, (env, s)).
Proof.
  intros c Hc. unfold rm_func, gets. cbv [mbind ST_bind mret ST_ret]. cbn [snd]. fold c. by destruct Hc as [-> | ->].
Qed.


End fpu.

(** ** Comparisons *)

Lemma issnan_f_ok a : issnan_f a = signaling binary32 a.
Proof. by rewrite signaling_mask by (cbn; lia). Qed.

Lemma issnan_d_ok a : issnan_d a = signaling binary64 a.
Proof. by rewrite signaling_mask by (cbn; lia). Qed.

(** [r] is the number the minimum or the maximum of [a] and [b] is to give. *)
Definition chosen (f : fmt) (pick : Z -> Z -> Z) (a b r : Z) : Prop :=
  if isnan f a then r = (if isnan f b then qnan f else b)
  else if isnan f b then r = a
  else (r = a \/ r = b) /\ total_key f r = pick (total_key f a) (total_key f b).

Section choice.
Context (f : fmt).
Hypothesis Hmw : 1 <= mw f.
Hypothesis Hew : 2 <= ew f.

(** The first of two numbers is picked when both are zeros and it has the
    sign, or when it is before the other. *)
Lemma zero_keys a b : feq f a 0 && feq f b 0 = true -> total_key f a = (if signbit f a then - 1 else 0) /\ total_key f b = (if signbit f b then - 1 else 0).
Proof.
  intros E. apply andb_true_iff in E as [Ea Eb]. apply order_zero in Ea, Eb; try done. unfold total_key. by rewrite Ea, Eb.
Qed.

Lemma nonzero_keys a b : isnan f a = false -> isnan f b = false -> feq f a 0 && feq f b 0 = false ->
  (key f a <? key f b) = (total_key f a <? total_key f b).
Proof.
  intros Na Nb E. pose proof (key_inj_total f Hmw Hew a b) as H1. pose proof (key_inj_total f Hmw Hew b a) as H2.
  pose proof (key_eq_total f Hmw Hew a b) as H3. pose proof (magnitude_nonneg f Hmw Hew a). pose proof (magnitude_nonneg f Hmw Hew b).
  destruct (key_zero f Hmw Hew) as [Hk Hn]. rewrite !feq_key, Hk, Hn, Na, Nb in E by done. cbn [orb negb andb] in E.
  destruct (Z.ltb_spec (key f a) (key f b)) as [Hlt|Hge], (Z.ltb_spec (total_key f a) (total_key f b)); try done; exfalso; [lia|].
  destruct (Z.eq_dec (key f a) (key f b)) as [Hk'|Hk']; [|lia]. destruct (Z.eq_dec (magnitude f a) 0) as [Hm|Hm]; [|lia].
  assert (key f a = 0) as Ka by (unfold key; rewrite Hm; by destruct (signbit f a)). by rewrite <- Hk', Ka in E.
Qed.

Lemma fmin_chosen a b : chosen f Z.min a b (minmax f (signbit f) (isless f) a b).
Proof.
  unfold chosen, minmax. destruct (isnan f a) eqn:Na; [by destruct (isnan f b)|]. destruct (isnan f b) eqn:Nb; [done|].
  cbn [andb]. destruct (feq f a 0 && feq f b 0) eqn:E0.
  - split; [destruct (signbit f a); auto|]. apply zero_keys in E0 as [Ea Eb]. destruct (signbit f a) eqn:Sa; rewrite Ea, Eb; by destruct (signbit f b).
  - rewrite isless_key, Na, Nb by done. cbn [orb negb andb]. rewrite nonzero_keys by done.
    destruct (Z.ltb_spec (total_key f a) (total_key f b)); (split; [auto|lia]).
Qed.

Lemma fmax_chosen a b : chosen f Z.max a b (minmax f (fun s => negb (signbit f s)) (isgreater f) a b).
Proof.
  unfold chosen, minmax. destruct (isnan f a) eqn:Na; [by destruct (isnan f b)|]. destruct (isnan f b) eqn:Nb; [done|].
  cbn [andb]. destruct (feq f a 0 && feq f b 0) eqn:E0.
  - split; [destruct (signbit f a); auto|]. apply zero_keys in E0 as [Ea Eb]. destruct (signbit f a) eqn:Sa; cbn [negb]; rewrite Ea, Eb; by destruct (signbit f b).
  - unfold isgreater. rewrite isless_key, Na, Nb by done. cbn [orb negb andb]. rewrite nonzero_keys by (done || by rewrite andb_comm).
    destruct (Z.ltb_spec (total_key f b) (total_key f a)); (split; [auto|lia]).
Qed.
End choice.

Section order.
Context {B : Type} `{!BusOps B}.
Implicit Types (s : State B) (env : Fenv).

(** The state after a comparison: [res] in the register, and the flags. *)
Definition cmp_result (d : InstructionData) (res bad : bool) (s : State B) : State B :=
  set_hart (put_gpr (rd d) (b2z res) (or_fflags (if bad then 16 else 0) (hart s))) s.

Lemma compare_ok (bad cmp : Z -> Z -> bool) r x y env s : (bad x y = true -> cmp x y = false) ->
  compare_to bad cmp r x y (env, s) =
  Ret (exec_ok, (env, set_hart (put_gpr r (b2z (cmp x y)) (or_fflags (if bad x y then 16 else 0) (hart s))) s)).
Proof.
  intros H. unfold compare_to, okf, fflags_or, on_state, setreg, mod_hart, modify. cbv [mbind ST_bind mret ST_ret].
  destruct (bad x y).
  - rewrite H by done. by destruct env, s.
  - rewrite or_fflags_0. by destruct env, s.
Qed.

Lemma minmax_ok f issnan fz first a b env s r (out : Z -> Z) : (forall x, issnan x = signaling f x) ->
  (minmax_flags f issnan a b ≫= fun _ => setfp r (out (minmax f fz first a b)) ≫= fun _ => okf) (env, s) =
  Ret (exec_ok, (env, set_hart (put_fpr r (out (minmax f fz first a b)) (or_fflags (if signaling f a || signaling f b then 16 else 0) (hart s))) s)).
Proof.
  intros Hs. unfold minmax_flags. rewrite !Hs.
  assert (forall x, isnan f x && signaling f x = signaling f x) as -> by (intros x; unfold signaling; by destruct (isnan f x)).
  assert (forall x, isnan f x && signaling f x = signaling f x) as -> by (intros x; unfold signaling; by destruct (isnan f x)).
  unfold setfp, setfreg, okf, fflags_or, on_state, mod_hart, modify. cbv [mbind ST_bind mret ST_ret].
  destruct (signaling f a || signaling f b); [by destruct env, s|]. rewrite or_fflags_0. by destruct env, s.
Qed.

(** C37: order. FEQ, FLT and FLE of both precisions compare the numbers: the
    patterns as signed magnitudes, the two zeros equal, and no NaN in any
    relation; the flags are invalid for a signaling NaN, and for any NaN in FLT
    and FLE. FMIN and FMAX give one of their operands, the least or greatest in
    the order in which -0 is below +0, the other operand when one is a NaN, and
    the canonical NaN when both are. The environment of the host is not used. *)
Theorem float_order d env s :
  let a := f32_in (fpr (hart s) (rs1 d)) in let b := f32_in (fpr (hart s) (rs2 d)) in
  let x := fpr (hart s) (rs1 d) in let y := fpr (hart s) (rs2 d) in
  let compares exec res bad := exec d (env, s) = Ret (exec_ok, (env, cmp_result d res bad s)) in
  let selects exec f out pick p q := exists r, chosen f pick p q r /\
    exec d (env, s) = Ret (exec_ok, (env, fp_result d (out r) (if signaling f p || signaling f q then 16 else 0) s)) in
  let ordered f p q := negb (isnan f p || isnan f q) in
  let quiet f p q := signaling f p || signaling f q in
  (compares exec_FEQ_S (ordered binary32 a b && (key binary32 a =? key binary32 b)) (quiet binary32 a b) /\
   compares exec_FLT_S (ordered binary32 a b && (key binary32 a <? key binary32 b)) (negb (ordered binary32 a b)) /\
   compares exec_FLE_S (ordered binary32 a b && (key binary32 a <=? key binary32 b)) (negb (ordered binary32 a b)) /\
   selects exec_FMIN_S binary32 f32_out Z.min a b /\ selects exec_FMAX_S binary32 f32_out Z.max a b) /\
  (compares exec_FEQ_D (ordered binary64 x y && (key binary64 x =? key binary64 y)) (quiet binary64 x y) /\
   compares exec_FLT_D (ordered binary64 x y && (key binary64 x <? key binary64 y)) (negb (ordered binary64 x y)) /\
   compares exec_FLE_D (ordered binary64 x y && (key binary64 x <=? key binary64 y)) (negb (ordered binary64 x y)) /\
   selects exec_FMIN_D binary64 (fun v => v) Z.min x y /\ selects exec_FMAX_D binary64 (fun v => v) Z.max x y).
Proof.
  intros a b x y compares selects ordered quiet.
  assert (forall i, fp i (env, s) = Ret (fpr (hart s) i, (env, s))) as Hfp by done.
  assert (forall f p q, quiet f p q = true -> ordered f p q = false) as Hq.
  { intros f p q. unfold quiet, ordered, signaling. by destruct (isnan f p), (isnan f q). }
  assert (forall bad cmp bad' cmp' (p q : Z), bad p q = bad' -> cmp p q = cmp' -> (bad' = true -> cmp' = false) ->
    compare_to bad cmp (rd d) p q (env, s) = Ret (exec_ok, (env, cmp_result d cmp' bad' s))) as Hc.
  { intros bad cmp bad' cmp' p q <- <- H. by apply compare_ok. }
  split; split_and!;
    try (unfold compares, exec_FEQ_S, exec_FLT_S, exec_FLE_S, exec_FEQ_D, exec_FLT_D, exec_FLE_D, compare_s, compare_d;
      cbv [mbind ST_bind]; rewrite !Hfp; apply Hc; unfold ordered, quiet;
      [by rewrite ?issnan_f_ok, ?issnan_d_ok, ?negb_involutive|by rewrite ?feq_key, ?isless_key, ?islessequal_key by (cbn; lia)|
       by first [intros H; rewrite (Hq _ _ _ H : negb _ = false)|destruct (isnan _ _ || isnan _ _)]]).
  - eexists. split; [by apply fmin_chosen; cbn; lia|]. by apply (minmax_ok binary32 issnan_f _ _ a b env s (rd d) f32_out issnan_f_ok).
  - eexists. split; [by apply fmax_chosen; cbn; lia|]. by apply (minmax_ok binary32 issnan_f _ _ a b env s (rd d) f32_out issnan_f_ok).
  - eexists. split; [by apply fmin_chosen; cbn; lia|]. by apply (minmax_ok binary64 issnan_d _ _ x y env s (rd d) (fun v => v) issnan_d_ok).
  - eexists. split; [by apply fmax_chosen; cbn; lia|]. by apply (minmax_ok binary64 issnan_d _ _ x y env s (rd d) (fun v => v) issnan_d_ok).
Qed.
End order.

(** ** Conversions to integers *)

(** The conversion of the ISA manual to an integer from [lo] to [hi]: the
    value, with whether it is inexact, or [None] when it is invalid. *)
Definition fcvt_value (lo hi : Z) (md : Rounding) (v : fval) : Z * option bool :=
  match v with
  | NaN => (hi, None)
  | Inf s => (if s then lo else hi, None)
  | Fin s m e =>
      let r := rounded md s m e in
      if hi <? r then (hi, None) else if r <? lo then (lo, None) else (r, Some (negb (whole m e)))
  end.

(** The handlers have no value past those of [int64_t]. *)
Definition past_int64 (p : Z * option bool) : Z * option bool :=
  match p.2 with
  | Some _ => if p.1 <? 2 ^ 63 then p else (2 ^ 63, Some true)
  | None => p
  end.

Definition fcvt_flags (x : option bool) (h : Hart) : Hart :=
  match x with Some nx => or_fflags (b2z nx) h | None => set_invalid h end.

Lemma le_units s m e s' m' e' a b : same_num (Fin s m e) (dec binary64 a) -> same_num (Fin s' m' e') (dec binary64 b) ->
  islessequal binary64 a b = (units s m e <=? units s' m' e').
Proof. intros Ha Hb. unfold islessequal. rewrite (compare_units _ _ _ _ _ _ _ _ Ha Hb). unfold Z.leb. by destruct (_ ?= _). Qed.

Lemma lt_units s m e s' m' e' a b : same_num (Fin s m e) (dec binary64 a) -> same_num (Fin s' m' e') (dec binary64 b) ->
  isless binary64 a b = (units s m e <? units s' m' e').
Proof. intros Ha Hb. unfold isless. rewrite (compare_units _ _ _ _ _ _ _ _ Ha Hb). unfold Z.ltb. by destruct (_ ?= _). Qed.

Lemma eq_units s m e s' m' e' a b : same_num (Fin s m e) (dec binary64 a) -> same_num (Fin s' m' e') (dec binary64 b) ->
  feq binary64 a b = (units s m e =? units s' m' e').
Proof. intros Ha Hb. unfold feq. rewrite (compare_units _ _ _ _ _ _ _ _ Ha Hb), Z.eqb_compare. by destruct (_ ?= _). Qed.

(** The double of an integer has its sign and value. *)
Definition is_double (x w : Z) : Prop := same_num (Fin (x <? 0) (Z.abs x) 0) (dec binary64 w).

Lemma const_pow x k : 0 <= k <= 800 -> Z.abs x = 2 ^ k -> is_double x (const x).
Proof. intros Hk Hx. apply (of_int_exact _ x 1 k); lia. Qed.

Lemma rounded_double md md' s m e : 0 <= m < 2 ^ 24 -> - 149 <= e <= 800 ->
  is_double (rounded md s m e) (of_int binary64 md' (rounded md s m e)).1.
Proof.
  intros Hm He. destruct (Z.le_gt_cases 0 e).
  - apply (of_int_exact _ _ m e); [lia..|]. unfold rounded. rewrite (proj2 (Z.leb_le 0 e)) by done.
    pose proof (Z.pow_pos_nonneg 2 e). destruct s; cbn [signed]; lia.
  - pose proof (rounded_small md s m e Hm). apply (of_int_exact _ _ (Z.abs (rounded md s m e)) 0); lia.
Qed.

Section finalize.
Context {B : Type} `{!BusOps B}.
Implicit Types (s : State B) (env : Fenv).

(** The types converted to: powers of two at both ends. *)
Context (uns : bool) (lo hi k : Z).
Hypothesis Hk : 24 < k <= 64.
Hypothesis Hhi : hi = 2 ^ k - 1.
Hypothesis Hsucc : const_succ hi = const (2 ^ k).
Hypothesis Hlo : lo = if uns then 0 else - 2 ^ k.
Hypothesis H63 : uns = false -> k <= 63.

Definition finish_of (md : Rounding) (rl exact : Z) (s : State B) : State B :=
  set_hart (or_fflags (b2z (negb (feq binary64 (of_int binary64 md rl).1 exact))) (hart s)) s.

Lemma fcvt_finish md rl exact env s : host_rm env = md -> exists x,
  (back ← host (fun md => of_int binary64 md rl);
   _ ← (if negb (feq binary64 back exact) then fflags_or (Z.shiftl 1 0) else mret tt);
   mret rl) (env, s) = Ret (rl, (mkFenv md x, finish_of md rl exact s)).
Proof.
  intros <-. unfold host, finish_of. cbv [mbind ST_bind]. cbn [fst snd]. destruct (of_int binary64 (host_rm env) rl) as [b x]. cbn [fst snd].
  eexists. destruct (negb (feq binary64 b exact)); [done|]. rewrite or_fflags_0. by destruct s.
Qed.

Lemma fcvt_finite md neg m e src exact env s : host_rm env = md -> dec binary32 src = Fin neg m e ->
  same_num (Fin neg m e) (dec binary64 exact) ->
  let p := past_int64 (fcvt_value lo hi md (Fin neg m e)) in
  exists x, finalize_fcvt binary32 uns lo hi src exact (llrint binary64 md exact) (env, s) =
    Ret (s64 p.1, (mkFenv md x, set_hart (fcvt_flags p.2 (hart s)) s)).
Proof.
  intros Hmd Hd Hx p. pose proof (dec_bounds binary32 _ _ _ _ ltac:(cbn; lia) ltac:(cbn; lia) Hd) as [Hm He].
  change (2 ^ prec binary32) with (2 ^ 24) in Hm. change (emin binary32) with (- 149) in He. cbn [ew binary32] in He.
  set (r := rounded md neg m e) in *. assert (2 ^ 24 < 2 ^ k) as Hk24 by (apply Z.pow_lt_mono_r; lia).
  assert (islessequal binary64 (const (2 ^ k)) exact = (hi <? r)) as Htop.
  { rewrite (le_units _ _ _ _ _ _ _ _ (const_pow (2 ^ k) k ltac:(lia) ltac:(lia)) Hx), units_int, Z.leb_antisym.
    rewrite (units_lt md) by lia. fold r. rewrite Hhi, <- Z.leb_antisym. destruct (Z.leb_spec (2 ^ k) r), (Z.ltb_spec (2 ^ k - 1) r); lia. }
  assert (isinf binary32 src = false /\ isnan binary32 src = false) as [Hi Hn] by (unfold isinf, isnan; by rewrite Hd).
  assert (llrint binary64 md exact = if in_int64 r then r else INT64_MIN) as Hll by (apply llrint_ok; [lia|done]).
  assert (Hback : forall y, is_double y (of_int binary64 md y).1 -> feq binary64 (of_int binary64 md y).1 exact = (units neg m e =? y * 2 ^ 1074)).
  { intros y Hy. rewrite (eq_units _ _ _ _ _ _ _ _ Hy Hx), units_int. apply Z.eqb_sym. }
  set (rl := llrint binary64 md exact) in *.
  assert (Hin : lo <= r <= hi -> exists x,
    (back ← host (fun md => of_int binary64 md rl);
     _ ← (if negb (feq binary64 back exact) then fflags_or (Z.shiftl 1 0) else mret tt);
     mret rl) (env, s) = Ret (s64 p.1, (mkFenv md x, set_hart (fcvt_flags p.2 (hart s)) s))).
  { intros Hr. destruct (fcvt_finish md rl exact env s Hmd) as [x ->]. exists x. subst p. unfold fcvt_value, finish_of. fold r.
    rewrite (proj2 (Z.ltb_ge hi r)), (proj2 (Z.ltb_ge r lo)) by lia. unfold past_int64. cbn [fst snd]. rewrite Hll.
    assert (- 2 ^ 63 <= r) by (pose proof (Z.pow_le_mono_r 2 k 63); destruct uns; lia). unfold in_int64.
    rewrite (proj2 (Z.leb_le _ _)) by done. cbn [andb]. destruct (Z.ltb_spec r (2 ^ 63)) as [H1|H1].
    - rewrite Hback by (apply rounded_double; lia). unfold r. rewrite whole_units by lia. fold r. cbn [fst snd fcvt_flags]. by rewrite (sN_small 64) by lia.
    - assert (feq binary64 (of_int binary64 md INT64_MIN).1 exact = false) as ->; [|reflexivity].
      rewrite Hback by (apply (of_int_exact md INT64_MIN 1 63); [lia|lia|reflexivity]). apply Z.eqb_neq.
      pose proof (units_lt md neg m e (- 2 ^ 63 + 1) Hm ltac:(lia) ltac:(lia)) as Hu. fold r in Hu. rewrite (proj2 (Z.ltb_ge r _)) in Hu by lia.
      apply Z.ltb_ge in Hu. assert (0 < 2 ^ 1074) by (apply Z.pow_pos_nonneg; lia). unfold INT64_MIN. nia. }
  assert (Hhigh : hi < r -> p = (hi, None)) by (intros; unfold p, fcvt_value; fold r; by rewrite (proj2 (Z.ltb_lt hi r))).
  assert (Hlow : r < lo -> p = (lo, None)).
  { intros. unfold p, fcvt_value. fold r. rewrite (proj2 (Z.ltb_ge hi r)), (proj2 (Z.ltb_lt r lo)); [done..|]. destruct uns; lia. }
  unfold finalize_fcvt in *. rewrite Hsucc, Htop, Hi, Hn. cbn [andb orb]. destruct uns eqn:Hu.
  - destruct (Z.ltb_spec hi r) as [H1|H1]; [rewrite Hhigh by done; subst md; by exists (host_exc env); destruct env|].
    rewrite (le_units _ _ _ _ _ _ _ _ Hx (const_pow (- 1) 0 ltac:(lia) eq_refl)), units_int, Hll. unfold r at 1 2 3 4. rewrite units_neg by lia. fold r.
    destruct (Z.ltb_spec r 0) as [H2|H2]; [|rewrite <- Hll; apply Hin; lia].
    rewrite Hlow by lia. subst md lo. by exists (host_exc env); destruct env.
  - rewrite (lt_units _ _ _ _ _ _ _ _ Hx (const_pow lo k ltac:(lia) ltac:(lia))), units_int, (units_lt md) by lia. fold r.
    destruct (Z.ltb_spec r lo) as [H1|H1]; [rewrite Hlow by done; subst md; by exists (host_exc env); destruct env|].
    destruct (Z.ltb_spec hi r) as [H2|H2]; [rewrite Hhigh by done; subst md; by exists (host_exc env); destruct env|]. apply Hin. lia.
Qed.

Lemma fcvt_ok md src exact env s : host_rm env = md -> same_num (dec binary32 src) (dec binary64 exact) ->
  let p := past_int64 (fcvt_value lo hi md (dec binary32 src)) in
  exists x, finalize_fcvt binary32 uns lo hi src exact (llrint binary64 md exact) (env, s) =
    Ret (s64 p.1, (mkFenv md x, set_hart (fcvt_flags p.2 (hart s)) s)).
Proof.
  intros Hmd Hx. destruct (dec binary32 src) as [|neg|neg m e] eqn:Hd; [| |by apply fcvt_finite].
  - unfold finalize_fcvt, isnan. rewrite Hd. subst md. by exists (host_exc env); destruct env.
  - assert (signbit binary32 src = neg) as Hs by (revert Hd; unfold dec; repeat case_match; congruence).
    assert (Hn : forall y j, 0 <= j <= 800 -> Z.abs y = 2 ^ j -> exists m e, dec binary64 (const y) = Fin (y <? 0) m e).
    { intros y j Hj Hy. pose proof (const_pow y j Hj Hy) as Hc. unfold is_double in Hc. destruct (dec binary64 (const y)) as [| |s' m' e']; [done..|].
      destruct Hc as [-> _]. by exists m', e'. }
    unfold finalize_fcvt, isnan, isinf, islessequal, isless, fcompare. rewrite Hsucc, Hd, Hs. unfold same_num in Hx.
    destruct (dec binary64 exact) as [|neg'|]; [done| |done]. subst neg'.
    destruct (Hn (2 ^ k) k ltac:(lia)) as (m1 & e1 & ->); [lia|]. destruct uns eqn:Hu.
    + destruct (Hn (- 1) 0 ltac:(lia) eq_refl) as (m2 & e2 & ->). subst md lo. exists (host_exc env). destruct env. by destruct neg.
    + destruct (Hn lo k ltac:(lia)) as (m2 & e2 & ->); [lia|]. subst md. exists (host_exc env). destruct env. by destruct neg.
Qed.

(** A handler, with the cast of its result. *)
Lemma fcvt_int_ok wrap d env s md : mode_of (hart s) (rm d) = Some md ->
  let p := past_int64 (fcvt_value lo hi md (dec binary32 (f32_in (fpr (hart s) (rs1 d))))) in
  exists x, fcvt_int_s uns lo hi wrap d (env, s) =
    Ret (exec_ok, (mkFenv md x, set_hart (put_gpr (rd d) (wrap (s64 p.1)) (fcvt_flags p.2 (hart s))) s)).
Proof.
  intros Hmd. unfold fcvt_int_s. cbv [mbind ST_bind]. change (fp (rs1 d) (env, s)) with (Ret (A := Z * _) (fpr (hart s) (rs1 d), (env, s))). cbv iota.
  set (src := f32_in _). destruct (widen (host_rm env) src) as [Hx _]. unfold to_double, host. cbn [host_rm host_exc fst snd].
  destruct (fcvt binary32 binary64 (host_rm env) src) as [exact x1]. cbn [fst] in Hx. rewrite (rm_func_ok _ _ _ _ _ Hmd). cbn [host_exc].
  unfold gets. cbn [host_rm fst]. destruct (fcvt_ok md src exact (mkFenv md (exc_or (host_exc env) x1)) s eq_refl Hx) as [x ->].
  by exists x.
Qed.
End finalize.

Section conversions.
Context {B : Type} `{!BusOps B}.
Implicit Types (s : State B) (env : Fenv).

Lemma past_int64_small lo hi md v : hi < 2 ^ 63 -> past_int64 (fcvt_value lo hi md v) = fcvt_value lo hi md v.
Proof.
  intros Hh. unfold past_int64, fcvt_value. destruct v as [| |sg m e]; [done..|].
  destruct (Z.ltb_spec hi (rounded md sg m e)); [done|]. destruct (rounded md sg m e <? lo); [done|]. cbn [fst snd]. by rewrite (proj2 (Z.ltb_lt _ _)) by lia.
Qed.

Lemma fcvt_value_range lo hi md v : lo <= hi -> lo <= (fcvt_value lo hi md v).1 <= hi.
Proof.
  intros Hl. unfold fcvt_value. destruct v as [|[]|sg m e]; cbn [fst]; [lia..|].
  destruct (Z.ltb_spec hi (rounded md sg m e)); [cbn; lia|]. destruct (Z.ltb_spec (rounded md sg m e) lo); cbn; lia.
Qed.

End conversions.

(** ** Moves, signs and classes *)

(** The class of a pattern, by its magnitude. *)
Definition fclass (f : fmt) (b : Z) : Z :=
  let a := magnitude f b in
  if inf_bits f <? a then (if Z.testbit b (mw f - 1) then 9 else 8)
  else if a =? inf_bits f then (if signbit f b then 0 else 7)
  else if 2 ^ mw f <=? a then (if signbit f b then 1 else 6)
  else if 0 <? a then (if signbit f b then 2 else 5)
  else if signbit f b then 3 else 4.

Lemma fclass_ok f quiet b : 1 <= mw f -> 2 <= ew f -> quiet = 2 ^ (mw f - 1) -> class_mask f quiet b = 2 ^ fclass f b.
Proof.
  intros Hm He ->. unfold class_mask, fpclassify, fclass. cbv zeta.
  assert (negb (Z.land b (2 ^ (mw f - 1)) =? 0) = Z.testbit b (mw f - 1)) as ->.
  { pose proof (mask_field b (mw f - 1) 1 ltac:(lia) ltac:(lia)) as H. rewrite Z.pow_1_r, Z.mul_1_l in H. rewrite H.
    rewrite Z.testbit_eqb by lia. assert (0 < 2 ^ (mw f - 1)) by (apply Z.pow_pos_nonneg; lia).
    pose proof (Z.mod_pos_bound (b / 2 ^ (mw f - 1)) 2). set (r := _ mod 2) in *.
    destruct (Z.eqb_spec r 1) as [E|E], (Z.eqb_spec (r * 2 ^ (mw f - 1)) 0); cbn [negb]; try done; nia. }
  pose proof (magnitude_nonneg f Hm He b). set (a := magnitude f b) in *.
  assert (0 < 2 ^ mw f) as HP by (apply Z.pow_pos_nonneg; lia).
  destruct (dec_cases f Hm He b) as [(Hx & _)|[[Hx ->]|[Hx ->]]]; fold a in Hx.
  - rewrite (proj2 (Z.ltb_ge _ a)), (proj2 (Z.eqb_neq a _)) by lia. unfold dec. fold a.
    assert (a / 2 ^ mw f < 2 ^ ew f - 1) by (apply Z.div_lt_upper_bound; [lia|unfold inf_bits in Hx; lia]).
    assert (0 <= a / 2 ^ mw f) by (apply Z.div_pos; lia). pose proof (Z.div_mod a (2 ^ mw f)). pose proof (Z.mod_pos_bound a (2 ^ mw f)).
    rewrite (proj2 (Z.eqb_neq (a / _) (_ - 1))) by lia. destruct (Z.eqb_spec (a / 2 ^ mw f) 0) as [E|E].
    + rewrite (proj2 (Z.leb_gt (2 ^ mw f) a)) by lia. assert (a mod 2 ^ mw f = a) as -> by lia.
      destruct (Z.eqb_spec a 0), (Z.ltb_spec 0 a); try lia; [by destruct (signbit f b)|].
      rewrite (proj2 (Z.ltb_lt a _)) by lia. by destruct (signbit f b).
    + rewrite (proj2 (Z.leb_le (2 ^ mw f) a)) by nia. rewrite (proj2 (Z.eqb_neq (_ + _) 0)), (proj2 (Z.ltb_ge _ _)) by lia. by destruct (signbit f b).
  - rewrite Hx, Z.ltb_irrefl, Z.eqb_refl. by destruct (signbit f b).
  - rewrite (proj2 (Z.ltb_lt _ a)) by lia. by destruct (Z.testbit b (mw f - 1)).
Qed.

Lemma splice_sign f p q : 1 <= mw f -> 2 <= ew f ->
  Z.lor (Z.land p (sign_bit f - 1)) (Z.land (Z.lxor p q) (sign_bit f)) = with_sign f (xorb (signbit f p) (signbit f q)) (magnitude f p).
Proof.
  intros Hm He. unfold sign_bit, with_sign, magnitude. fold (sign_bit f). unfold sign_bit. set (n := mw f + ew f) in *. assert (0 <= n) by lia.
  replace (2 ^ n - 1) with (Z.ones n) by (rewrite Z.ones_equiv; lia). rewrite Z.land_ones by lia.
  pose proof (mask_field (Z.lxor p q) n 1 ltac:(lia) ltac:(lia)) as E. rewrite Z.pow_1_r, Z.mul_1_l in E. rewrite E.
  unfold signbit. fold n. rewrite <- Z.lxor_spec. rewrite Z.testbit_eqb by lia. set (t := (_ / _) mod 2).
  assert (t = 0 \/ t = 1) as [-> | ->] by (subst t; pose proof (Z.mod_pos_bound (Z.lxor p q / 2 ^ n) 2); lia); cbn [Z.eqb].
  - by rewrite Z.mul_0_l, Z.lor_0_r.
  - rewrite Z.mul_1_l. pose proof (Z.add_lor_land (p mod 2 ^ n) (2 ^ n)) as Ha.
    pose proof (mask_field (p mod 2 ^ n) n 1 ltac:(lia) ltac:(lia)) as Hz. rewrite Z.pow_1_r, Z.mul_1_l in Hz.
    pose proof (Z.mod_pos_bound p (2 ^ n) (Z.pow_pos_nonneg 2 n ltac:(lia) ltac:(lia))).
    rewrite Z.div_small in Hz by lia. change (0 mod 2 * 2 ^ n) with 0 in Hz. rewrite Hz in Ha. change (1 =? 1)%positive with true. cbv iota. lia.
Qed.

Section forms.
Context {B : Type} `{!BusOps B}.
Implicit Types (s : State B) (env : Fenv).

(** A number as a single, and the canonical NaN for a NaN. *)
Definition canon_s (a : Z) : Z := if isnan binary32 a then 0x7FC00000 else a.

Lemma fpr_put h i v : hart_wf h -> 0 <= i < 32 -> fpr (put_fpr i v h) i = v.
Proof.
  intros Hh Hi. unfold fpr, put_fpr. cbn [FPR set_FPR]. apply nth_lookup_Some. rewrite list_lookup_insert_eq; [done|].
  rewrite (wf_fpr_len h Hh). lia.
Qed.

Lemma f32_box v : inw 32 v -> f32_in (f32_out v) = v.
Proof.
  intros Hv. unfold f32_in, f32_out. apply Z.bits_inj'. intros i Hi. rewrite uN_bits by lia. rewrite Z.lor_spec.
  destruct (Z.ltb_spec i 32); cbn [andb].
  - change 0xFFFFFFFF00000000 with (Z.shiftl (Z.ones 32) 32). by rewrite Z.shiftl_spec_low by lia.
  - by rewrite (inw_high 32 v i) by (done || lia).
Qed.

(** Widening, and narrowing in a selected mode, from any environment. *)
Lemma fcvt_d_s_ok d env s : let a := f32_in (fpr (hart s) (rs1 d)) in
  exists w x, exec_FCVT_D_S d (env, s) = Ret (exec_ok, (mkFenv (host_rm env) x, set_hart (put_fpr (rd d) w (hart s)) s)) /\
    same_num (dec binary32 a) (dec binary64 w) /\ isnan binary64 w = isnan binary32 a.
Proof.
  intros a. unfold exec_FCVT_D_S. cbv [mbind ST_bind]. change (fp (rs1 d) (env, s)) with (Ret (A := Z * _) (fpr (hart s) (rs1 d), (env, s))). cbv iota.
  fold a. destruct (widen (host_rm env) a) as [Hw Hx]. pose proof (same_nan _ _ Hw) as Hn. unfold to_double, host. cbn [host_rm host_exc fst snd].
  destruct (isnan binary32 a) eqn:Na.
  - assert (dec binary32 a = NaN) as Hd by (unfold isnan in Na; by destruct (dec binary32 a)).
    unfold fcvt. rewrite Hd. cbn [fst snd]. change (issnan_d (qnan binary64)) with false. cbv iota. unfold mret, ST_ret.
    eexists (qnan binary64), _. split; [reflexivity|]. done.
  - destruct (fcvt binary32 binary64 (host_rm env) a) as [w x]. cbn [fst snd] in *. exists w. eexists. split; [reflexivity|]. done.
Qed.

Lemma fcvt_s_d_ok d env s md a : mode_of (hart s) (rm d) = Some md -> inw 32 a ->
  same_num (dec binary32 a) (dec binary64 (fpr (hart s) (rs1 d))) -> exists x, exec_FCVT_S_D d (env, s) =
  Ret (exec_ok, (mkFenv md x, fp_result d (f32_out (canon_s a)) (if isnan binary32 a then 16 else 0) s)).
Proof.
  intros Hmd Ha Hw. unfold exec_FCVT_S_D, fp_result. cbv [mbind ST_bind].
  change (fp (rs1 d) (env, s)) with (Ret (A := Z * _) (fpr (hart s) (rs1 d), (env, s))). cbv iota.
  set (w := fpr (hart s) (rs1 d)) in *. unfold FLOAT_START, modify. rewrite (rm_func_ok _ _ _ _ _ Hmd). cbn [host_exc fst snd].
  unfold FLOAT_END, gets, fflags_or at 1, on_state, mod_hart, modify. cbv [mbind ST_bind]. cbn [host_exc fst snd].
  change (exc_bits no_exc) with 0. rewrite or_fflags_0. unfold to_float, host. cbn [host_rm host_exc fst snd]. unfold canon_s.
  pose proof (fcvt_nan md w) as Hn. rewrite (same_nan _ _ Hw) in Hn. destruct (isnan binary32 a) eqn:Na.
  - destruct (fcvt binary64 binary32 md w) as [v x]. cbn [fst snd] in *. rewrite Hn. eexists. reflexivity.
  - rewrite (narrow_same md a w Ha Na Hw). rewrite Na, or_fflags_0. eexists. reflexivity.
Qed.

(** Moves, signs and classes. What FMV.W.X and FMV.D.X put in a register
    comes back with FMV.X.W (sign-extended) and FMV.X.D. Widening a single and
    narrowing it again, in any rounding mode, gives the single, boxed, and
    raises nothing; a NaN becomes the canonical one and is invalid. FSGNJ.D,
    FSGNJN.D, FSGNJX.D and FSGNJX.S give the magnitude of the first operand
    with the sign, the opposite sign, or the product of the signs. FCLASS sets
    the one bit of the class of the operand. *)
Lemma float_forms d d' env s : hart_wf (hart s) -> 0 <= rd d < 32 -> rs1 d' = rd d ->
  let h := hart s in
  let x := fpr h (rs1 d) in let y := fpr h (rs2 d) in let g := gpr h (rs1 d) in
  let after (m : FX B ExecReturn) h' := m (env, s) = Ret (exec_ok, (env, set_hart h' s)) in
  after (exec_FMV_W_X d ≫= fun _ => exec_FMV_X_W d') (put_gpr (rd d') (u64 (s32 g)) (put_fpr (rd d) (f32_out (u32 g)) h)) /\
  after (exec_FMV_D_X d ≫= fun _ => exec_FMV_X_D d') (put_gpr (rd d') g (put_fpr (rd d) g h)) /\
  (forall md, mode_of h (rm d') = Some md -> exists w e, (exec_FCVT_D_S d ≫= fun _ => exec_FCVT_S_D d') (env, s) =
    Ret (exec_ok, (mkFenv md e, set_hart (put_fpr (rd d') (f32_out (canon_s (f32_in x)))
      (or_fflags (if isnan binary32 (f32_in x) then 16 else 0) (put_fpr (rd d) w h))) s))) /\
  (let signed sign := put_fpr (rd d) (with_sign binary64 sign (magnitude binary64 x)) h in
   after (exec_FSGNJ_D d) (signed (signbit binary64 y)) /\
   after (exec_FSGNJN_D d) (signed (negb (signbit binary64 y))) /\
   after (exec_FSGNJX_D d) (signed (xorb (signbit binary64 x) (signbit binary64 y))) /\
   after (exec_FSGNJX_S d) (put_fpr (rd d) (f32_out (with_sign binary32 (xorb (signbit binary32 (f32_in x)) (signbit binary32 (f32_in y)))
     (magnitude binary32 (f32_in x)))) h)) /\
  after (exec_FCLASS_S d) (put_gpr (rd d) (2 ^ fclass binary32 (f32_in x)) h) /\
  after (exec_FCLASS_D d) (put_gpr (rd d) (2 ^ fclass binary64 x) h).
Proof.
  intros Hh Hd Hrs h x y g after. pose proof (fun v => fpr_put h (rd d) v Hh Hd) as Hput.
  assert (Hgets : forall i (st : Fenv * State B), fp i st = Ret (fpr (hart st.2) i, st)) by (intros i [e t]; done).
  split; [|split; [|split; [|split; [intros signed; split_and!|split]]]].
  - unfold after, exec_FMV_W_X, exec_FMV_X_W. cbv [mbind ST_bind]. unfold on_state at 1, reg, gets. cbv iota. cbn [fst snd].
    unfold setfp, setfreg, on_state at 1, mod_hart, modify, okf at 1. cbv [mret ST_ret]. cbn [fst snd]. rewrite Hgets. cbn [snd hart set_hart].
    fold h g. rewrite Hrs, Hput, f32_box by (apply uN_inw; lia). unfold setreg, on_state, mod_hart, modify, okf. cbv [mret ST_ret]. cbn [fst snd].
    rewrite (sN_uN 32) by lia. by destruct s.
  - unfold after, exec_FMV_D_X, exec_FMV_X_D. cbv [mbind ST_bind]. unfold on_state at 1, reg, gets. cbv iota. cbn [fst snd].
    unfold setfp, setfreg, on_state at 1, mod_hart, modify, okf at 1. cbv [mret ST_ret]. cbn [fst snd]. rewrite Hgets. cbn [snd hart set_hart].
    fold h g. rewrite Hrs, Hput. unfold setreg, on_state, mod_hart, modify, okf. cbv [mret ST_ret]. cbn [fst snd]. by destruct s.
  - intros md Hmd. cbv [mbind ST_bind]. destruct (fcvt_d_s_ok d env s) as (w & e & -> & Hw & _). fold h x in Hw |- *.
    destruct (fcvt_s_d_ok d' (mkFenv (host_rm env) e) (set_hart (put_fpr (rd d) w h) s) md (f32_in x)) as [e' ->].
    + by destruct s.
    + apply uN_inw. lia.
    + cbn [hart set_hart]. by rewrite Hrs, Hput.
    + exists w, e'. by destruct s.
  - unfold after, exec_FSGNJ_D, sgnj_d. cbv [mbind ST_bind]. rewrite !Hgets. by destruct env, s.
  - unfold after, exec_FSGNJN_D, sgnj_d. cbv [mbind ST_bind]. rewrite !Hgets. cbn [snd]. fold h x y. unfold copysign, fneg.
    destruct (with_sign_split binary64 ltac:(cbn; lia) ltac:(cbn; lia) (negb (signbit binary64 y)) (magnitude binary64 y)) as [-> _].
    { apply Z.mod_pos_bound. by vm_compute. }
    by destruct env, s.
  - unfold after, exec_FSGNJX_D. cbv [mbind ST_bind]. rewrite !Hgets. cbn [snd]. fold h x y.
    pose proof (splice_sign binary64 x y ltac:(cbn; lia) ltac:(cbn; lia)) as E. change (sign_bit binary64) with 0x8000000000000000 in E.
    change (u64 (Z.lnot 0x8000000000000000)) with (0x8000000000000000 - 1). rewrite E. by destruct env, s.
  - unfold after, exec_FSGNJX_S. cbv [mbind ST_bind]. rewrite !Hgets. cbn [snd]. fold h x y.
    pose proof (splice_sign binary32 (f32_in x) (f32_in y) ltac:(cbn; lia) ltac:(cbn; lia)) as E. change (sign_bit binary32) with 0x80000000 in E.
    change (u32 (Z.lnot 0x80000000)) with (0x80000000 - 1). rewrite E. by destruct env, s.
  - unfold after, exec_FCLASS_S. cbv [mbind ST_bind]. rewrite !Hgets. cbn [snd]. fold h x. rewrite fclass_ok by (cbn; lia). by destruct env, s.
  - unfold after, exec_FCLASS_D. cbv [mbind ST_bind]. rewrite !Hgets. cbn [snd]. fold h x. rewrite fclass_ok by (cbn; lia). by destruct env, s.
Qed.
End forms.
