(* ===== verification/Priv.v ===== *)
(** * Privileged instructions, cache-block zeroing and the instruction fence
    ([src/sets/priv.cpp], [zicboz.cpp], [zifencei.cpp])

    [exec_WFI] only stops the hart: the [clock()] it reads is not used. *)

From Stdlib Require Import Strings.String.
From S2P Require Import Prelude Defs MemoryMap SelfMod Tlb Decode Hart State Mmu Mmio Rv64i.

Section priv.
Context {B : Type} `{BusOps B}.

(** [{ false, false, 0, EXC_ILLEGAL_INSTRUCTION, inst.inst }]. *)
Definition illegal (d : InstructionData) : ExecReturn :=
  mkExec false false 0 EXC_ILLEGAL_INSTRUCTION (inst d).

(** The mode [exec_MRET] returns to, and its effect on [MPRV]: a value of
    [MPP] with no case leaves both alone. *)
Definition mret_mode (h : Hart) : Hart :=
  let mpp := getf (status h) Status.MPP in
  if mpp =? 0 then set_mode User (put_status Status.MPRV 0 h)
  else if mpp =? 1 then set_mode Supervisor (put_status Status.MPRV 0 h)
  else if mpp =? 3 then set_mode Machine h
  else h.

Definition exec_MRET (d : InstructionData) : M B ExecReturn :=
  epc ← on_hart (csr_read CSR_MEPC);
  _ ← mod_hart (fun h =>
    let h := mret_mode (set_pc epc h) in
    let h := put_status Status.MIE (getf (status h) Status.MPIE) h in
    let h := put_status Status.MPIE 1 h in
    put_status Status.MPP (mode_val User) h);
  mret exec_jump.

Definition exec_SRET (d : InstructionData) : M B ExecReturn :=
  h ← gets hart;
  if bool_decide (mode h = User) ||
     (bool_decide (mode h = Supervisor) && flag (status h) Status.TSR)
  then mret (illegal d)
  else
    epc ← on_hart (csr_read CSR_SEPC);
    _ ← mod_hart (fun h =>
      let h := put_status Status.MPRV 0 (set_pc epc h) in
      let h := set_mode (if getf (status h) Status.SPP =? 0 then User else Supervisor) h in
      let h := put_status Status.SIE (getf (status h) Status.SPIE) h in
      let h := put_status Status.SPIE 1 h in
      put_status Status.SPP (mode_val User) h);
    mret exec_jump.

Definition exec_SFENCE_VMA (d : InstructionData) : M B ExecReturn :=
  h ← gets hart;
  if bool_decide (mode h = User) then mret (illegal d)
  else if bool_decide (mode h = Supervisor) && flag (status h) Status.TVM then mret (illegal d)
  else
    _ ← mod_hart (fun h =>
      let t := tlb h in
      set_tlb
        (if (rs1 d =? 0) && (rs2 d =? 0) then flush_all t
         else if rs1 d =? 0 then flush_asid t (u16 (gpr h (rs2 d)))
         else if rs2 d =? 0 then flush_addr t (gpr h (rs1 d))
         else flush_addr_asid t (gpr h (rs1 d)) (u16 (gpr h (rs2 d)))) h);
    mret exec_ok.

Definition exec_WFI (d : InstructionData) : M B ExecReturn :=
  h ← gets hart;
  if flag (status h) Status.TW then mret (illegal d)
  else
    _ ← (if Z.land (ip h) (ie h) =? 0 then mod_hart (set_WFI true) else mret tt);
    mret exec_ok.

(** [init_priv]. *)
Definition init_priv : list (Instr B) :=
  [
   mkInstr "00110000001000000000000001110011" exec_MRET None;
   mkInstr "00010000001000000000000001110011" exec_SRET None;
   mkInstr "00010000010100000000000001110011" exec_WFI None;
   mkInstr "0001001**********000000001110011" exec_SFENCE_VMA None].

Definition CBO_SIZE : Z := 64.

(** [memset] runs past the array when [get_memsize()] is larger than it. *)
Definition exec_cbo_zero (d : InstructionData) : M B ExecReturn :=
  a ← reg (rs1 d);
  let va := Z.land a (not64 (CBO_SIZE - 1)) in
  '(ret, pa) ← translate STORE va;
  if negb (mr_success ret) then mret (mkExec false false 0 (mr_exc_code ret) (mr_tval ret))
  else
    ram_size ← gets (fun s => memsize (hart s));
    if (RAM_BASE <=? pa) && (u64 (pa + CBO_SIZE) <=? u64 (RAM_BASE + ram_size)) then
      _ ← upd_mem (fun m => ram_write m (pa - RAM_BASE) (Z.to_nat CBO_SIZE) 0);
      mret exec_ok
    else mret (mkExec false false 0 EXC_STORE_ACCESS_FAULT va).

(** [init_zicboz]. *)
Definition init_zicboz : list (Instr B) :=
  [
   mkInstr "000000000100*****010000000001111" exec_cbo_zero None].

Definition exec_FENCE_I (d : InstructionData) : M B ExecReturn :=
  _ ← modify (fun s => set_idec (clear_decode_cache (idec s)) s);
  mret exec_ok.

(** [init_zifencei]. *)
Definition init_zifencei : list (Instr B) :=
  [
   mkInstr "*****************001*****0001111" exec_FENCE_I None].
End priv.

(** ** Returning from traps *)

Lemma flag_setf_copy raw f raw' g : bf_ok 64 f = true -> bf_len f = bf_len g -> 0 <= bf_len g ->
  flag (setf raw f (getf raw' g)) f = flag raw' g.
Proof. intros Hf Hl Hg. rewrite flag_setf_same, Hl, getf_uN by done. done. Qed.

Lemma mret_mode_frame h :
  pc (mret_mode h) = pc h /\ GPR (mret_mode h) = GPR h /\ csrs (mret_mode h) = csrs h /\
  flag (status (mret_mode h)) Status.MPIE = flag (status h) Status.MPIE /\
  mode (mret_mode h) = (if getf (status h) Status.MPP =? 2 then mode h else mode_of (getf (status h) Status.MPP)).
Proof.
  pose proof (getf_inw (status h) Status.MPP ltac:(done)) as [H0 H1]. change (2 ^ bf_len Status.MPP) with 4 in H1.
  unfold mret_mode, mode_of. cbv zeta.
  destruct (Z.eqb_spec (getf (status h) Status.MPP) 0) as [E|].
  { rewrite E. cbn. by rewrite flag_setf_other. }
  destruct (Z.eqb_spec (getf (status h) Status.MPP) 1) as [E|].
  { rewrite E. cbn. by rewrite flag_setf_other. }
  destruct (Z.eqb_spec (getf (status h) Status.MPP) 3) as [E|]; [by rewrite E|].
  rewrite (proj2 (Z.eqb_eq _ 2)) by lia. done.
Qed.

Lemma trap_target_cases h cause interrupt :
  trap_target h cause interrupt = Machine \/
  trap_target h cause interrupt = Supervisor /\ mode h <> Machine.
Proof.
  unfold trap_target. case_bool_decide; [|by left]. destruct (Z.testbit _ _); [by right|by left].
Qed.

Section priv_spec.
Context {B : Type} `{BusOps B}.
Implicit Types s : State B.

(** What both return instructions do to the rest of the machine. *)
Definition same_rest s s' : Prop :=
  mmap s' = mmap s /\ smc s' = smc s /\ idec s' = idec s /\ bus s' = bus s /\
  GPR (hart s') = GPR (hart s) /\ csrs (hart s') = csrs (hart s).

Lemma mret_spec d s : exists s', exec_MRET d s = Ret (exec_jump, s') /\ same_rest s s' /\
  pc (hart s') = csr_get (hart s) CSR_MEPC /\
  mode (hart s') = (if getf (status (hart s)) Status.MPP =? 2 then mode (hart s)
                    else mode_of (getf (status (hart s)) Status.MPP)) /\
  flag (status (hart s')) Status.MIE = flag (status (hart s)) Status.MPIE /\
  flag (status (hart s')) Status.MPIE = true /\ getf (status (hart s')) Status.MPP = mode_val User.
Proof.
  set (h := set_pc (csr_get (hart s) CSR_MEPC) (hart s)).
  exists (set_hart (put_status Status.MPP (mode_val User) (put_status Status.MPIE 1
    (put_status Status.MIE (getf (status (mret_mode h)) Status.MPIE) (mret_mode h)))) s).
  split; [reflexivity|].
  pose proof (mret_mode_frame h) as (Hpc & Hg & Hc & Hpie & Hm).
  cbn [hart set_hart modify mod_hart]. unfold put_status, same_rest.
  cbn [pc mode GPR csrs status set_status mmap smc idec bus set_hart hart].
  split; [by rewrite Hg, Hc|]. split; [by rewrite Hpc|]. split; [by rewrite Hm|].
  split; [by rewrite !flag_setf_other, flag_setf_copy, Hpie by done|].
  split; [by rewrite flag_setf_other, flag_setf_same by done|by rewrite getf_setf_same].
Qed.

Lemma sret_spec d s : mode (hart s) <> User ->
  (mode (hart s) = Supervisor -> flag (status (hart s)) Status.TSR = false) ->
  exists s', exec_SRET d s = Ret (exec_jump, s') /\ same_rest s s' /\
  pc (hart s') = csr_get (hart s) CSR_SEPC /\
  mode (hart s') = mode_of (getf (status (hart s)) Status.SPP) /\
  flag (status (hart s')) Status.SIE = flag (status (hart s)) Status.SPIE /\
  flag (status (hart s')) Status.SPIE = true /\ flag (status (hart s')) Status.MPRV = false /\
  getf (status (hart s')) Status.SPP = mode_val User.
Proof.
  intros Hu Ht. unfold exec_SRET. cbv [mbind ST_bind gets].
  rewrite (bool_decide_eq_false_2 (mode (hart s) = User)) by done. cbn [orb].
  assert ((bool_decide (mode (hart s) = Supervisor) && flag (status (hart s)) Status.TSR)%bool = false) as ->.
  { case_bool_decide; [by rewrite Ht|done]. }
  set (h := put_status Status.MPRV 0 (set_pc (csr_get (hart s) CSR_SEPC) (hart s))).
  exists (set_hart (put_status Status.SPP (mode_val User) (put_status Status.SPIE 1
    (put_status Status.SIE (getf (status h) Status.SPIE)
      (set_mode (if getf (status h) Status.SPP =? 0 then User else Supervisor) h)))) s).
  split; [reflexivity|]. unfold h.
  cbn [hart set_hart modify mod_hart]. unfold put_status, same_rest.
  cbn [pc mode GPR csrs status set_status set_mode mmap smc idec bus set_hart hart].
  change (status (set_pc (csr_get (hart s) CSR_SEPC) (hart s))) with (status (hart s)).
  split; [done|]. split; [done|]. rewrite (getf_setf_other _ _ Status.SPP) by done.
  split; [rewrite (getf_bit _ Status.SPP) by done; by destruct (flag _ Status.SPP)|].
  split; [by rewrite !flag_setf_other, flag_setf_copy, flag_setf_other by done|].
  split; [by rewrite flag_setf_other, flag_setf_same by done|].
  split; [by rewrite !flag_setf_other, flag_setf_same by done|by rewrite getf_setf_same].
Qed.

Lemma enter_tsr m cause tval interrupt h :
  flag (status (enter m cause tval interrupt h)) Status.TSR = flag (status h) Status.TSR.
Proof.
  unfold enter. cbn [status put_status set_status]. rewrite !flag_setf_other by (by destruct m).
  change (status (csr_put _ _ _)) with (setf (status h) Status.MPRV 0). by rewrite flag_setf_other.
Qed.

(** C12: trap and return: the return instruction of the level a trap is taken
    to (MRET, or SRET when TSR allows it there) resumes the interrupted
    program: same pc, same privilege mode, the same interrupt enable of that
    level, the same registers and memory. *)
Theorem trap_return d s cause tval interrupt h1 :
  hart_wf (hart s) -> mode (hart s) <> Hypervisor -> 0 <= cause < 64 ->
  trap cause tval interrupt (hart s) = Ret (tt, h1) ->
  let m := trap_target (hart s) cause interrupt in
  (m = Supervisor -> flag (status (hart s)) Status.TSR = false) ->
  exists s',
    match m with Machine => exec_MRET d | _ => exec_SRET d end (set_hart h1 s) = Ret (exec_jump, s') /\
    pc (hart s') = pc (hart s) /\ mode (hart s') = mode (hart s) /\
    flag (status (hart s')) (t_ie (trap_regs m)) = flag (status (hart s)) (t_ie (trap_regs m)) /\
    GPR (hart s') = GPR (hart s) /\ mmap s' = mmap s /\ bus s' = bus s.
Proof.
  intros Hwf HH Hc. rewrite trap_enter by done. intros [= <-] m Ht. fold m.
  pose proof (enter_csrs m cause tval interrupt (hart s)) as (Hepc & _).
  pose proof (enter_status m cause tval interrupt (hart s)) as (Hpp & Hpie & _).
  pose proof (enter_tsr m cause tval interrupt (hart s)) as Htsr.
  assert (m = Machine \/ m = Supervisor /\ mode (hart s) <> Machine) as [E|[E Hm]]
    by apply trap_target_cases.
  - rewrite E in *. destruct (mret_spec d (set_hart (enter Machine cause tval interrupt (hart s)) s))
      as (s' & Hr & (Hmm & _ & _ & Hb & Hg & _) & Hpc' & Hmode & Hie & _).
    cbn [trap_regs t_epc t_pp t_pie t_ie hart set_hart mmap bus] in *.
    exists s'. rewrite Hpc', Hepc, Hmode, Hpp, Hie, Hpie, Hg, Hmm, Hb.
    split_and!; try done. by destruct (mode (hart s)).
  - rewrite E in *. specialize (Ht eq_refl).
    destruct (sret_spec d (set_hart (enter Supervisor cause tval interrupt (hart s)) s))
      as (s' & Hr & (Hmm & _ & _ & Hb & Hg & _) & Hpc' & Hmode & Hie & _); [done|by rewrite <- Ht|].
    cbn [trap_regs t_epc t_pp t_pie t_ie hart set_hart mmap bus] in *.
    exists s'. rewrite Hpc', Hepc, Hmode, Hpp, Hie, Hpie, Hg, Hmm, Hb.
    split_and!; try done. by destruct (mode (hart s)).
Qed.
End priv_spec.

(** ** Cache-block zeroing *)

Section cbo.
Context {B : Type} `{BusOps B}.
Implicit Types s : State B.

(** CBO.ZERO: when the 64-byte block of the address in [rs1] translates
    to a block inside RAM, every byte of that block is 0 afterwards and no
    other byte of RAM is changed beyond the translation's; a block outside RAM
    is a store access fault at the block's address that leaves memory alone. *)
Lemma cbo_zero_block d s s1 pa : dram_ok s -> memsize (hart s) = mmio_memsize s ->
  inw 64 (gpr (hart s) (rs1 d)) -> 0 <= pa < 2 ^ 63 ->
  let va := Z.land (gpr (hart s) (rs1 d)) (not64 63) in
  translate STORE va s = Ret ((mem_ok, pa), s1) ->
  (0 <= pa - RAM_BASE /\ pa - RAM_BASE + 64 <= mmio_memsize s ->
   exists s', exec_cbo_zero d s = Ret (exec_ok, s') /\ dram_ok s' /\ hart s' = hart s1 /\
     dram s' pa 64 = Ret 0 /\
     (forall pa' sz', 0 <= sz' -> pa' + sz' <= pa \/ pa + 64 <= pa' -> dram s' pa' sz' = dram s1 pa' sz')) /\
  (pa < RAM_BASE \/ mmio_memsize s < pa - RAM_BASE + 64 ->
   exec_cbo_zero d s = Ret (mkExec false false 0 EXC_STORE_ACCESS_FAULT va, s1)).
Proof.
  intros Hd Hsz Ha Hpa va Htr.
  assert (inw 64 va) as Hva by (apply inw_land; [lia|done|apply not64_inw]).
  pose proof (translate_frame _ _ _ _ _ _ (proj1 Hd) Hva Htr) as [Hf _].
  assert (memsize (hart s1) = mmio_memsize s) as Hsz1 by (destruct Hf as (t & m & -> & _); done).
  pose proof (tr_frame_layout _ _ Hf) as Hl. pose proof (dram_ok_layout _ _ Hl Hd) as Hd1.
  destruct (dram_region s1 Hd1) as (i & r & Hi & Hr & Hwr & Hs & Hms).
  destruct Hl as (_ & Hms' & _). rewrite Hms' in Hs, Hms.
  assert (exec_cbo_zero d s =
    (if (RAM_BASE <=? pa) && (u64 (pa + CBO_SIZE) <=? u64 (RAM_BASE + mmio_memsize s)) then
      _ ← upd_mem (fun m => ram_write m (pa - RAM_BASE) (Z.to_nat CBO_SIZE) 0);
      mret exec_ok
    else mret (mkExec false false 0 EXC_STORE_ACCESS_FAULT va)) s1) as ->.
  { unfold exec_cbo_zero, reg. cbv [mbind ST_bind gets]. unfold CBO_SIZE. change (64 - 1) with 63.
    fold va. rewrite Htr. cbn [mem_ok mr_success negb]. by rewrite Hsz1. }
  unfold CBO_SIZE, RAM_BASE in *. rewrite !(uN_id 64) by (split; lia). split.
  - intros Hin. rewrite (proj2 (Z.leb_le _ pa)), (proj2 (Z.leb_le (pa + 64) _)) by lia. cbn [andb].
    destruct (ram_write_spec (mmap s1) i r (pa - RAM_BASE) 64 0 (proj1 Hd1) Hi Hr)
      as (m' & Hw & Hl' & Hm' & Hsame & Hdis); [unfold RAM_BASE; lia..|].
    exists (set_mmap m' s1). cbv [mbind ST_bind upd_mem]. change (Z.to_nat 64) with 64%nat.
    unfold RAM_BASE in Hw. rewrite Hw. split_and!; try done.
    + by apply (dram_ok_layout s1).
    + intros pa' sz' Hp Hdj. unfold dram. apply Hdis. unfold RAM_BASE. rewrite Z2Nat.id by done. lia.
  - intros Hout. assert ((0x80000000 <=? pa) && (pa + 64 <=? 0x80000000 + mmio_memsize s) = false) as ->; [|done].
    apply andb_false_iff. rewrite !Z.leb_gt. lia.
Qed.
End cbo.

(** ** Type invariant *)

Section priv_wf.
Context {B : Type} `{BusLaws B}.

Lemma csr_read_keeps csr : inw 16 csr -> keeps (B := B) (on_hart (csr_read csr)) (inw 64).
Proof. intros. apply keeps_on_hart. by apply csr_read_wf. Qed.

Lemma csr_write_keeps csr v : inw 16 csr -> inw 64 v ->
  keeps (B := B) (on_hart (csr_write csr v)) (fun _ => True).
Proof.
  intros. apply keeps_on_hart. eapply hoare_weaken; [by apply csr_write_wf|done|]. by intros [] h.
Qed.

Lemma illegal_ret d : data_ok d -> exec_ret_ok (illegal d).
Proof.
  intros (_ & Hi & _). split; [done|]. split; [|done]. eapply inw_mono; [|exact Hi]. lia.
Qed.

Lemma mret_mode_wf h : hart_wf h -> hart_wf (mret_mode h).
Proof. intros. unfold mret_mode. cbv zeta. repeat case_match; auto with rvw. Qed.

Lemma exec_MRET_keeps d : keeps (B := B) (exec_MRET d) exec_ret_ok.
Proof.
  apply (keeps_bind _ _ (inw 64)); [by apply csr_read_keeps|]. intros epc Hepc.
  kbind; [|auto with rvw]. apply keeps_mod_hart. intros h Hh. cbv zeta.
  pose proof (mret_mode_wf (set_pc epc h)). auto 8 with rvw.
Qed.

Lemma exec_SRET_keeps d : data_ok d -> keeps (B := B) (exec_SRET d) exec_ret_ok.
Proof.
  intros Hd. kbind; [by apply keeps_gets|]. intros h _.
  apply keeps_if; intros _; [apply keeps_ret; by apply illegal_ret|].
  apply (keeps_bind _ _ (inw 64)); [by apply csr_read_keeps|]. intros epc Hepc.
  kbind; [|auto with rvw]. apply keeps_mod_hart. intros h' Hh. cbv zeta. auto 9 with rvw.
Qed.

Lemma exec_SFENCE_VMA_keeps d : data_ok d -> keeps (B := B) (exec_SFENCE_VMA d) exec_ret_ok.
Proof.
  intros Hd. kbind; [by apply keeps_gets|]. intros h _.
  apply keeps_if; intros _; [apply keeps_ret; by apply illegal_ret|].
  apply keeps_if; intros _; [apply keeps_ret; by apply illegal_ret|].
  kbind; [|auto with rvw]. apply keeps_mod_hart. intros h' Hh. cbv zeta. apply set_tlb_wf; [done|].
  pose proof (tlb_ok_flush (tlb h') (gpr h' (rs1 d)) (u16 (gpr h' (rs2 d))) (wf_tlb _ Hh)) as (? & ? & ? & ?).
  destruct (_ && _)%bool; [assumption|]. destruct (rs1 d =? 0); [assumption|].
  destruct (rs2 d =? 0); assumption.
Qed.

Lemma exec_WFI_keeps d : data_ok d -> keeps (B := B) (exec_WFI d) exec_ret_ok.
Proof.
  intros Hd. kbind; [by apply keeps_gets|]. intros h _.
  apply keeps_if; intros _; [apply keeps_ret; by apply illegal_ret|].
  kbind; [|auto with rvw]. apply keeps_if; intros _; [|by apply keeps_ret].
  apply keeps_mod_hart. auto with rvw.
Qed.

Lemma exec_cbo_zero_keeps d : keeps (B := B) (exec_cbo_zero d) exec_ret_ok.
Proof.
  apply (keeps_bind _ _ (inw 64)); [apply keeps_reg|]. intros a Ha. cbv zeta.
  assert (inw 64 (Z.land a (not64 (CBO_SIZE - 1)))) as Hva by (apply inw_land; [lia|done|apply not64_inw]).
  eapply keeps_bind; [by apply translate_keeps|]. intros [r pa] [[Hc Ht] Hpa].
  apply keeps_if; intros _; [by apply keeps_ret|].
  kbind; [by apply keeps_gets|]. intros sz _.
  apply keeps_if; intros _; [|by apply keeps_ret].
  kbind; [|auto with rvw]. apply keeps_upd_mem. intros m m' Hm Hw. by eapply ram_write_wf.
Qed.

Lemma exec_FENCE_I_keeps d : keeps (B := B) (exec_FENCE_I d) exec_ret_ok.
Proof. kbind; [|auto with rvw]. by intros x s Hs. Qed.

#[local] Hint Resolve exec_MRET_keeps exec_SRET_keeps exec_SFENCE_VMA_keeps exec_WFI_keeps
  exec_cbo_zero_keeps exec_FENCE_I_keeps : handlers.

Lemma priv_keeps : Forall instr_keeps (init_priv ++ init_zicboz ++ init_zifencei (B := B)).
Proof. unfold init_priv, init_zicboz, init_zifencei. cbn [app]. instrs_keep. Qed.
End priv_wf.
