(* ===== verification/Zicsr.v ===== *)
(** * CSR instructions ([src/sets/zicsr.cpp]) *)

From Stdlib Require Import Strings.String.
From S2P Require Import Prelude Defs MemoryMap SelfMod Tlb Decode Hart State Mmu Mmio Rv64i Priv.

Definition compatible_mode (csr_level cur_mode : PrivilegeMode) : bool :=
  match csr_level with
  | Machine => bool_decide (cur_mode = Machine)
  | Supervisor => bool_decide (cur_mode = Machine) || bool_decide (cur_mode = Supervisor)
  | User => bool_decide (cur_mode = Machine) || bool_decide (cur_mode = Supervisor)
            || bool_decide (cur_mode = User)
  | Hypervisor => true
  end.

(** The level [csr_accessible] assigns to a CSR number. *)
Definition csr_level (csr_addr : Z) : PrivilegeMode :=
  if (0x000 <=? csr_addr) && (csr_addr <=? 0x0FF) then User
  else if (0x100 <=? csr_addr) && (csr_addr <=? 0x1FF) then Supervisor
  else if (0x200 <=? csr_addr) && (csr_addr <=? 0x2FF) then Hypervisor
  else if (0x300 <=? csr_addr) && (csr_addr <=? 0x3FF) then Machine
  else if (0xB00 <=? csr_addr) && (csr_addr <=? 0xBFF) then Machine
  else if (0xC00 <=? csr_addr) && (csr_addr <=? 0xCFF) then User
  else if (0xF00 <=? csr_addr) && (csr_addr <=? 0xFFF) then Machine
  else User.

Definition csr_unimplemented (csr_addr : Z) : bool :=
  (csr_addr =? CSR_SCOUNTOVF)
  || ((CSR_SSTATEEN0 <=? csr_addr) && (csr_addr <=? CSR_SSTATEEN3))
  || ((CSR_MSTATEEN0 <=? csr_addr) && (csr_addr <=? CSR_MSTATEEN3))
  || (csr_addr =? CSR_MTOPI)
  || (csr_addr =? CSR_TSELECT)
  || ((CSR_TDATA1 <=? csr_addr) && (csr_addr <=? CSR_TDATA3))
  || (csr_addr =? CSR_MCYCLECFG)
  || (csr_addr =? CSR_MINSTRET).

Definition csr_read_only (csr_addr : Z) : bool :=
  (csr_addr =? 0xF11) || (csr_addr =? 0xF12) || (csr_addr =? 0xF13) || (csr_addr =? 0xF14)
  || (csr_addr =? 0xF15f)
  || ((0xC00 <=? csr_addr) && (csr_addr <=? 0xC1F)).

Definition csr_accessible (csr_addr : Z) (current_priv : PrivilegeMode) (write : bool) : bool :=
  if negb (compatible_mode (csr_level csr_addr) current_priv) then false
  else if csr_unimplemented csr_addr then false
  else if csr_read_only csr_addr then negb write
  else true.

Definition counter_enabled (addr : Z) : ST Hart bool :=
  if (addr <? 0xC00) || (0xC1F <? addr) then mret true
  else
    md ← gets mode;
    mcounteren ← csr_read CSR_MCOUNTEREN;
    scounteren ← csr_read CSR_SCOUNTEREN;
    let addr_offset := Z.shiftl 1 (addr - 0xC00) in
    mret match md with
         | Machine => true
         | Supervisor => Z.land mcounteren addr_offset =? addr_offset
         | User => (Z.land mcounteren addr_offset =? addr_offset)
                   && (Z.land scounteren addr_offset =? addr_offset)
         | Hypervisor => true
         end.

Section zicsr.
Context {B : Type} `{BusOps B}.

(** The guards all six handlers start with, before [k]. *)
Definition csr_guard (d : InstructionData) (write : bool) (k : M B ExecReturn) : M B ExecReturn :=
  h ← gets hart;
  if bool_decide (mode h = Supervisor) && flag (status h) Status.TVM && (imm d =? CSR_SATP)
  then mret (illegal d) else
  enabled ← on_hart (counter_enabled (u16 (imm d)));
  if negb enabled then mret (illegal d) else
  md ← gets (fun s => mode (hart s));
  if negb (csr_accessible (u16 (imm d)) md write) then mret (illegal d) else k.

Definition exec_CSRRW (d : InstructionData) : M B ExecReturn :=
  csr_guard d true (
    init_val ← on_hart (csr_read (u16 (imm d)));
    v ← reg (rs1 d);
    _ ← on_hart (csr_write (u16 (imm d)) v);
    _ ← (if negb (rd d =? 0) then setreg (rd d) init_val else mret tt);
    mret exec_ok).

Definition exec_CSRRS (d : InstructionData) : M B ExecReturn :=
  csr_guard d (negb (rs1 d =? 0)) (
    init_val ← on_hart (csr_read (u16 (imm d)));
    _ ← (if negb (rs1 d =? 0) then
           mask ← reg (rs1 d); on_hart (csr_write (u16 (imm d)) (Z.lor init_val mask))
         else mret tt);
    _ ← setreg (rd d) init_val;
    mret exec_ok).

Definition exec_CSRRC (d : InstructionData) : M B ExecReturn :=
  csr_guard d (negb (rs1 d =? 0)) (
    init_val ← on_hart (csr_read (u16 (imm d)));
    _ ← (if negb (rs1 d =? 0) then
           mask ← reg (rs1 d); on_hart (csr_write (u16 (imm d)) (Z.land init_val (not64 mask)))
         else mret tt);
    _ ← setreg (rd d) init_val;
    mret exec_ok).

Definition exec_CSRRWI (d : InstructionData) : M B ExecReturn :=
  csr_guard d (negb (rs1 d =? 0)) (
    _ ← (if negb (rd d =? 0) then
           v ← on_hart (csr_read (u16 (imm d))); setreg (rd d) v
         else mret tt);
    _ ← on_hart (csr_write (u16 (imm d)) (rs1 d));
    mret exec_ok).

Definition exec_CSRRSI (d : InstructionData) : M B ExecReturn :=
  csr_guard d (negb (rs1 d =? 0)) (
    init_val ← on_hart (csr_read (u16 (imm d)));
    _ ← (if negb (rs1 d =? 0) then
           on_hart (csr_write (u16 (imm d)) (Z.lor init_val (rs1 d)))
         else mret tt);
    _ ← setreg (rd d) init_val;
    mret exec_ok).

Definition exec_CSRRCI (d : InstructionData) : M B ExecReturn :=
  csr_guard d (negb (rs1 d =? 0)) (
    init_val ← on_hart (csr_read (u16 (imm d)));
    _ ← (if negb (rs1 d =? 0) then
           on_hart (csr_write (u16 (imm d)) (Z.land init_val (not64 (rs1 d))))
         else mret tt);
    _ ← setreg (rd d) init_val;
    mret exec_ok).

(** [init_zicsr]. *)
Definition init_zicsr : list (Instr B) :=
  [
   mkInstr "*****************001*****1110011" exec_CSRRW (Some imm_Zicsr);
   mkInstr "*****************010*****1110011" exec_CSRRS (Some imm_Zicsr);
   mkInstr "*****************011*****1110011" exec_CSRRC (Some imm_Zicsr);
   mkInstr "*****************101*****1110011" exec_CSRRWI (Some imm_Zicsr);
   mkInstr "*****************110*****1110011" exec_CSRRSI (Some imm_Zicsr);
   mkInstr "*****************111*****1110011" exec_CSRRCI (Some imm_Zicsr)].
End zicsr.

(** ** Access control *)

(** Privilege levels and read-only numbers as the ISA encodes them. *)
Definition isa_level (n : Z) : Z := Z.land (Z.shiftr n 8) 3.

(** The number ranges [csr_accessible] knows, without the hypervisor's. *)
Definition known_csr (n : Z) : bool :=
  ((0 <=? n) && (n <? 0x200)) || ((0x300 <=? n) && (n <? 0x400)) ||
  ((0xB00 <=? n) && (n <? 0xD00)) || ((0xF00 <=? n) && (n <? 0x1000)).

Definition counter_off (h : Hart) (n : Z) : bool :=
  (0xC00 <=? n) && (n <? 0xC20) &&
  match mode h with
  | Machine => false
  | Supervisor => negb (Z.testbit (csr_get h CSR_MCOUNTEREN) (n - 0xC00))
  | _ => negb (Z.testbit (csr_get h CSR_MCOUNTEREN) (n - 0xC00)
               && Z.testbit (csr_get h CSR_SCOUNTEREN) (n - 0xC00))
  end.

(** The level an access needs: bits 9 and 8 of a known number. Any other
    number, the hypervisor's included, needs none. *)
Definition needed_level (n : Z) : Z := if known_csr n then isa_level n else 0.

(** scountovf, sstateen0-3, mstateen0-3, mtopi, tselect, tdata1-3, mcyclecfg
    and minstret. *)
Definition absent_csr (n : Z) : bool :=
  existsb (Z.eqb n) [0xDA0; 0x10C; 0x10D; 0x10E; 0x10F; 0x30C; 0x30D; 0x30E; 0x30F; 0xFB0;
                     0x7A0; 0x7A1; 0x7A2; 0x7A3; 0x321; 0xB02].

(** An access that is refused. *)
Definition csr_denied (h : Hart) (n : Z) (write : bool) : bool :=
  (mode_val (mode h) <? needed_level n)
  || absent_csr n
  || (write && ((0xC00 <=? n) && (n <? 0xC20) || (0xF11 <=? n) && (n <=? 0xF14)))
  || counter_off h n
  || (bool_decide (mode h = Supervisor) && flag (status h) Status.TVM && (n =? CSR_SATP)).

Lemma land_pow2_eqb x i : 0 <= i -> (Z.land x (Z.shiftl 1 i) =? Z.shiftl 1 i) = Z.testbit x i.
Proof.
  intros Hi. rewrite Z.shiftl_1_l. destruct (Z.testbit x i) eqn:E.
  - apply Z.eqb_eq. apply Z.bits_inj'. intros j Hj. rewrite Z.land_spec, Z.pow2_bits_eqb by done.
    destruct (Z.eqb_spec i j) as [<-|]; [by rewrite E|by rewrite andb_false_r].
  - apply Z.eqb_neq. intros Heq. apply (f_equal (fun z => Z.testbit z i)) in Heq.
    by rewrite Z.land_spec, Z.pow2_bits_true, E in Heq by done.
Qed.

Lemma counter_enabled_spec h n : mode h <> Hypervisor -> counter_enabled n h = Ret (negb (counter_off h n), h).
Proof.
  intros HH. unfold counter_enabled, counter_off. cbv [mbind ST_bind mret ST_ret gets].
  destruct (Z.ltb_spec n 0xC00), (Z.leb_spec 0xC00 n), (Z.ltb_spec 0xC1F n), (Z.ltb_spec n 0xC20);
    try lia; cbn [orb andb negb]; try done.
  change (csr_read CSR_MCOUNTEREN h) with (Ret (csr_get h CSR_MCOUNTEREN, h)). cbv iota beta.
  change (csr_read CSR_SCOUNTEREN h) with (Ret (csr_get h CSR_SCOUNTEREN, h)). cbv iota beta.
  rewrite !land_pow2_eqb by lia. destruct (mode h); rewrite ?negb_involutive; done.
Qed.

Lemma csr_level_isa n : known_csr n = true -> mode_val (csr_level n) = isa_level n /\ csr_level n <> Hypervisor.
Proof.
  intros Hk.
  assert (isa_level n = n / 256 mod 4) as Hl.
  { unfold isa_level. change 3 with (Z.ones 2). by rewrite Z.land_ones, Z.shiftr_div_pow2 by lia. }
  assert (0 <= n < 0x200 \/ 0x300 <= n < 0x400 \/ 0xB00 <= n < 0xD00 \/ 0xF00 <= n < 0x1000) as Hr.
  { unfold known_csr in Hk. rewrite !orb_true_iff, !andb_true_iff, !Z.leb_le, !Z.ltb_lt in Hk. lia. }
  assert (forall q, q * 256 <= n < q * 256 + 256 -> n / 256 = q) as Hq.
  { intros q Hq. symmetry. apply (Z.div_unique_pos n 256 q (n - q * 256)); lia. }
  rewrite Hl. unfold csr_level.
  repeat match goal with |- context [(?a <=? n) && (n <=? ?b)] =>
    destruct (Z.leb_spec a n); cbn [andb]; try lia; destruct (Z.leb_spec n b); cbn [andb]; try lia end;
  lazymatch goal with
  | H1 : ?a <= n, H2 : n <= ?b |- _ => idtac
  end;
  first [ rewrite (Hq 0) by lia | rewrite (Hq 1) by lia | rewrite (Hq 3) by lia
        | rewrite (Hq 11) by lia | rewrite (Hq 12) by lia | rewrite (Hq 15) by lia ]; done.
Qed.

Lemma compatible_mode_val l m : l <> Hypervisor -> m <> Hypervisor ->
  compatible_mode l m = (mode_val l <=? mode_val m).
Proof. by destruct l, m. Qed.

Lemma csr_level_unknown n : known_csr n = false ->
  csr_level n = User \/ csr_level n = Hypervisor.
Proof.
  unfold known_csr, csr_level. intros H. repeat apply orb_false_iff in H as [H ?].
  repeat match goal with |- context [(?a <=? n) && (n <=? ?b)] =>
    destruct (Z.leb_spec a n); cbn [andb]; [destruct (Z.leb_spec n b); cbn [andb]|] end; auto;
  repeat match goal with H : (_ && _)%bool = false |- _ => apply andb_false_iff in H end;
  rewrite ?Z.leb_gt, ?Z.ltb_ge in *; exfalso; lia.
Qed.

Lemma compatible_needed n m : m <> Hypervisor ->
  compatible_mode (csr_level n) m = (needed_level n <=? mode_val m).
Proof.
  intros Hm. unfold needed_level. destruct (known_csr n) eqn:Hk.
  - destruct (csr_level_isa _ Hk) as [Hl Hn]. by rewrite compatible_mode_val, Hl.
  - destruct (csr_level_unknown _ Hk) as [-> | ->]; by destruct m.
Qed.

Lemma absent_csr_spec n : csr_unimplemented n = absent_csr n.
Proof.
  apply eq_true_iff_eq. unfold csr_unimplemented, absent_csr. cbn [existsb].
  rewrite !orb_true_iff, !andb_true_iff, !Z.leb_le, !Z.eqb_eq.
  unfold CSR_SCOUNTOVF, CSR_SSTATEEN0, CSR_SSTATEEN3, CSR_MSTATEEN0, CSR_MSTATEEN3, CSR_MTOPI,
    CSR_TSELECT, CSR_TDATA1, CSR_TDATA3, CSR_MCYCLECFG, CSR_MINSTRET. lia.
Qed.

Lemma csr_read_only_spec n : n < 4096 ->
  csr_read_only n = (0xC00 <=? n) && (n <? 0xC20) || (0xF11 <=? n) && (n <=? 0xF14).
Proof.
  intros Hn. apply eq_true_iff_eq. unfold csr_read_only.
  rewrite !orb_true_iff, !andb_true_iff, !Z.leb_le, !Z.ltb_lt, !Z.eqb_eq. lia.
Qed.

Section access.
Context {B : Type} `{BusOps B}.

(** The guard of the handlers: illegal where the access is refused, and else the body. *)
Lemma csr_guard_spec d w k (s : State B) : inw 12 (imm d) -> mode (hart s) <> Hypervisor ->
  csr_guard d w k s = if csr_denied (hart s) (imm d) w then Ret (illegal d, s) else k s.
Proof.
  intros Hi HH. unfold csr_guard. rewrite (uN_id 16) by (eapply inw_mono; [|done]; lia).
  unfold on_hart. cbv [mbind ST_bind gets]. unfold csr_denied.
  destruct (bool_decide (mode (hart s) = Supervisor) && flag (status (hart s)) Status.TVM &&
    (imm d =? CSR_SATP)) eqn:Et; [by rewrite orb_true_r|].
  rewrite counter_enabled_spec, negb_involutive, orb_false_r by done.
  destruct (counter_off (hart s) (imm d)); [rewrite orb_true_r; by destruct s|]. rewrite orb_false_r.
  cbn [hart set_hart]. unfold csr_accessible.
  rewrite compatible_needed, absent_csr_spec, csr_read_only_spec by (done || apply Hi).
  rewrite <- Z.ltb_antisym.
  destruct (mode_val (mode (hart s)) <? needed_level (imm d)); [by destruct s|]. cbn [orb].
  destruct (absent_csr (imm d)); [by destruct s|]. cbn [orb].
  destruct (_ || _)%bool, w; by destruct s.
Qed.
End access.

(** ** Reads and writes of CSRs *)

(** Numbers with a case of their own in [csr_read] or [csr_write]. *)
Definition special_csr (n : Z) : bool :=
  existsb (Z.eqb n) [CSR_MSTATUS; CSR_SSTATUS; CSR_SIE; CSR_SIP; CSR_MIE; CSR_MIP; CSR_STIMECMP;
    CSR_SATP; CSR_FCSR; CSR_FFLAGS; CSR_FRM; CSR_MVENDORID; CSR_MARCHID; CSR_MIMPID; CSR_CYCLE;
    CSR_MCYCLE; CSR_TIME; CSR_INSTRET; CSR_MINSTRET]
  || ((CSR_HPMCOUNTER3 <=? n) && (n <=? CSR_HPMCOUNTER31)).

Lemma csr_plain n v h : n < 4096 -> special_csr n = false ->
  csr_write n v h = Ret (tt, csr_put n v h) /\ csr_read n h = Ret (csr_get h n, h).
Proof.
  intros Hn Hs. unfold special_csr in Hs. cbn [existsb] in Hs.
  apply orb_false_iff in Hs as [Hs Hr].
  repeat match goal with H : (_ || _)%bool = false |- _ => apply orb_false_iff in H as [? ?] end.
  unfold csr_write, csr_read. cbv zeta.
  repeat match goal with H : (n =? _) = false |- _ => rewrite H; clear H end.
  rewrite Hr, (proj2 (Z.ltb_lt n 4096)) by done. done.
Qed.

(** [m] selects the bits of a shared register that a view of it writes. *)
Lemma view_bits old v m i : 0 <= i < 64 ->
  Z.testbit (Z.lor (Z.land old (not64 m)) (Z.land v m)) i =
  if Z.testbit m i then Z.testbit v i else Z.testbit old i.
Proof.
  intros Hi. unfold not64. tb. rewrite (proj2 (Z.ltb_lt i 64)), (proj2 (Z.leb_le 0 i)) by lia.
  cbn [andb]. destruct (Z.testbit m i), (Z.testbit old i), (Z.testbit v i); done.
Qed.

Lemma view_masked old v m : inw 64 m ->
  Z.land (Z.lor (Z.land old (not64 m)) (Z.land v m)) m = Z.land v m.
Proof.
  intros Hm. apply Z.bits_inj'. intros i Hi. rewrite Z.land_spec, (Z.land_spec v).
  destruct (Z.lt_ge_cases i 64); [|by rewrite (inw_high 64 m), !andb_false_r by done].
  rewrite view_bits by lia. destruct (Z.testbit m i); [done|by rewrite !andb_false_r].
Qed.

Lemma masks_inw : inw 64 SSTATUS_MASK /\ inw 64 SE_MASK /\ inw 64 MSTATUS_RO_MASK.
Proof. split_and!; by vm_compute. Qed.

(** The 16-bit [ie] and [ip] hold the whole of a supervisor view. *)
Lemma irq_view old v : inw 16 old ->
  u16 (Z.lor (Z.land old (not64 SE_MASK)) (Z.land v SE_MASK)) =
  Z.lor (Z.land old (not64 SE_MASK)) (Z.land v SE_MASK).
Proof.
  intros Ho. apply uN_id. apply inw_lor; [lia|..].
  - apply inw_land; [lia|done|apply not64_inw].
  - rewrite Z.land_comm. split; [apply Z.land_nonneg; by left|].
    destruct (decide (Z.land SE_MASK v = 0)) as [->|Hz]; [done|].
    assert (0 <= Z.land SE_MASK v) by (apply Z.land_nonneg; by left).
    apply Z.log2_lt_pow2; [lia|]. destruct (Z.lt_ge_cases (Z.log2 (Z.land SE_MASK v)) 16) as [|Hl]; [done|].
    pose proof (Z.bit_log2 (Z.land SE_MASK v) ltac:(lia)) as Hb. rewrite Z.land_spec in Hb.
    apply andb_true_iff in Hb as [Hb _]. rewrite Z.bits_above_log2 in Hb; [done|done|].
    eapply Z.lt_le_trans; [|exact Hl]. done.
Qed.

Lemma csr_fcsr h v : getf (status h) Status.FS <> 0 ->
  exists h', csr_write CSR_FCSR v h = Ret (tt, h') /\ getf (status h') Status.FS = 3 /\
    csr_read CSR_FCSR h' = Ret (v, h') /\ csr_read CSR_FFLAGS h' = Ret (v mod 32, h') /\
    csr_read CSR_FRM h' = Ret (v / 32 mod 8, h').
Proof.
  intros Hfs.
  assert (csr_write CSR_FCSR v h = Ret (tt, set_fcsr v (put_status Status.FS 3 h))) as ->.
  { unfold csr_write. cbn [Z.eqb CSR_FCSR Pos.eqb CSR_MSTATUS CSR_SSTATUS CSR_SIE CSR_SIP CSR_MIE CSR_MIP CSR_STIMECMP CSR_SATP].
      unfold with_fs. by rewrite (proj2 (Z.eqb_neq _ 0) Hfs). }
  eexists. split; [reflexivity|]. set (h' := set_fcsr _ _).
  assert (getf (status h') Status.FS = 3) as Hd by (unfold h'; cbn [status set_fcsr put_status set_status]; by rewrite getf_setf_same).
  assert (fcsr h' = v) as Hf by done. clearbody h'. split; [done|].
  unfold csr_read, with_fs. cbn -[getf Fcsr.fflags Fcsr.frm]. rewrite Hd. cbn -[getf Fcsr.fflags Fcsr.frm].
  unfold gets. rewrite Hf. split; [done|]. split.
  - do 2 f_equal. unfold getf. cbn [bf_lo bf_len Fcsr.fflags]. unfold bf_get.
      by rewrite Z.shiftr_0_r, Z.land_ones by lia.
  - do 2 f_equal. unfold getf. cbn [bf_lo bf_len Fcsr.frm]. unfold bf_get.
      by rewrite Z.shiftr_div_pow2, Z.land_ones by lia.
Qed.

(** C14: CSR views. [sstatus], [sie] and [sip] write only the bits of their
    mask in the machine register they share and read back exactly those; a
    write of [mstatus] keeps its read-only field bits; [satp] ignores the Sv48 and
    Sv57 modes, takes any other value and leaves the TLB as it is; [fcsr]
    reads back as [fflags] and [frm] and marks the floating-point state dirty;
    every other CSR reads back what was written and no other CSR changes. *)
Theorem csr_views h v : hart_wf h -> inw 64 v ->
  (exists h', csr_write CSR_SSTATUS v h = Ret (tt, h') /\
     csr_read CSR_SSTATUS h' = Ret (Z.land v SSTATUS_MASK, h') /\
     forall i, 0 <= i < 64 -> Z.testbit SSTATUS_MASK i = false -> Z.testbit (status h') i = Z.testbit (status h) i) /\
  (exists h', csr_write CSR_SIE v h = Ret (tt, h') /\ csr_read CSR_SIE h' = Ret (Z.land v SE_MASK, h') /\
     forall i, 0 <= i < 64 -> Z.testbit SE_MASK i = false -> Z.testbit (ie h') i = Z.testbit (ie h) i) /\
  (exists h', csr_write CSR_SIP v h = Ret (tt, h') /\ csr_read CSR_SIP h' = Ret (Z.land v SE_MASK, h') /\
     forall i, 0 <= i < 64 -> Z.testbit SE_MASK i = false -> Z.testbit (ip h') i = Z.testbit (ip h) i) /\
  (exists h', csr_write CSR_MSTATUS v h = Ret (tt, h') /\
     forall i, 0 <= i < 64 -> Z.testbit (status h') i =
       if Z.testbit MSTATUS_RO_MASK i then Z.testbit (status h) i else Z.testbit v i) /\
  (exists h', csr_write CSR_SATP v h = Ret (tt, h') /\ tlb h' = tlb h /\
     satp h' = if (getf v Satp.mode =? SatpMode_Sv48) || (getf v Satp.mode =? SatpMode_Sv57)
               then satp h else v) /\
  (getf (status h) Status.FS <> 0 ->
     exists h', csr_write CSR_FCSR v h = Ret (tt, h') /\ getf (status h') Status.FS = 3 /\
       csr_read CSR_FCSR h' = Ret (v, h') /\ csr_read CSR_FFLAGS h' = Ret (v mod 32, h') /\
       csr_read CSR_FRM h' = Ret (v / 32 mod 8, h')) /\
  (forall n, n < 4096 -> special_csr n = false ->
     exists h', csr_write n v h = Ret (tt, h') /\ csr_read n h' = Ret (v, h') /\
       forall m, m <> n -> csr_get h' m = csr_get h m).
Proof.
  intros Hwf Hv. destruct masks_inw as (Hs & He & Hro).
  split; [|split; [|split; [|split; [|split; [|split]]]]].
  - eexists. split; [reflexivity|]. split.
    + unfold csr_read. cbn [Z.eqb CSR_SSTATUS CSR_MSTATUS Pos.eqb status set_status].
      by rewrite view_masked.
    + intros i Hi Hb. cbn [status set_status]. by rewrite view_bits, Hb.
  - eexists. split; [reflexivity|]. split.
    + unfold csr_read. cbn -[Z.lor Z.land not64 uN SE_MASK]. by rewrite irq_view, view_masked by (done || apply Hwf).
    + intros i Hi Hb. cbn [ie set_ie]. by rewrite irq_view, view_bits, Hb by (done || apply Hwf).
  - eexists. split; [reflexivity|]. split.
    + unfold csr_read. cbn -[Z.lor Z.land not64 uN SE_MASK]. by rewrite irq_view, view_masked by (done || apply Hwf).
    + intros i Hi Hb. cbn [ip set_ip]. by rewrite irq_view, view_bits, Hb by (done || apply Hwf).
  - eexists. split; [reflexivity|]. intros i Hi. cbn [status set_status].
    rewrite Z.lor_comm, view_bits by done. done.
  - unfold csr_write. cbn -[getf SatpMode_Sv48 SatpMode_Sv57].
    destruct (_ || _)%bool; [eexists; split; [reflexivity|done]|].
    rewrite Z.eqb_refl. cbn [negb]. eexists. split; [reflexivity|done].
  - apply csr_fcsr.
  - intros n Hn Hsp. exists (csr_put n v h). split; [by apply csr_plain|]. split.
    + rewrite (proj2 (csr_plain n v (csr_put n v h) Hn Hsp)). by rewrite csr_get_put, decide_True.
    + intros m Hm. by rewrite csr_get_put, decide_False.
Qed.

Section rmw.
Context {B : Type} `{BusOps B}.

(** [s] after a CSR instruction: [GPR[rd]] holds the old value [old] of CSR [n] and,
    when [new] is given, the CSR holds it. *)
Definition csr_result (s : State B) (r n old : Z) (new : option Z) : State B :=
  let h := hart s in
  let h := match new with Some v => csr_put n v h | None => h end in
  set_hart (put_gpr r old h) s.

Lemma csr_guard_ok d w k (s : State B) : inw 12 (imm d) -> mode (hart s) <> Hypervisor ->
  counter_off (hart s) (imm d) = false -> imm d <> CSR_SATP ->
  csr_accessible (imm d) (mode (hart s)) w = true -> csr_guard d w k s = k s.
Proof.
  intros Hi HH Hc Hs Ha. unfold csr_guard. rewrite (uN_id 16) by (eapply inw_mono; [|done]; lia).
  unfold on_hart. cbv [mbind ST_bind gets]. rewrite (proj2 (Z.eqb_neq _ _) Hs), andb_false_r.
  rewrite counter_enabled_spec, Hc by done. cbn [negb hart set_hart]. rewrite Ha. by destruct s.
Qed.

Lemma with_fs_total {A} csr (dflt : A) (k : ST Hart A) h :
  (exists v h', k h = Ret (v, h')) -> exists v h', with_fs csr dflt k h = Ret (v, h').
Proof.
  intros Hk. unfold with_fs. destruct (_ =? 0); [|done].
  cbv [mbind ST_bind]. rewrite trap_enter by done. by eexists _, _.
Qed.

(** Every access to a CSR returns. *)
Lemma csr_total n v h : n < 4096 ->
  (exists old h', csr_read n h = Ret (old, h')) /\ (exists h', csr_write n v h = Ret (tt, h')).
Proof.
  intros Hn. split.
  - unfold csr_read. cbv zeta. rewrite (proj2 (Z.ltb_lt n 4096)) by done.
    repeat case_match; try (by eexists _, _); apply with_fs_total; by eexists _, _.
  - unfold csr_write. cbv zeta. rewrite (proj2 (Z.ltb_lt n 4096)) by done.
    repeat case_match; try (by eexists);
      (match goal with |- context [with_fs ?c ?x ?k h] =>
         destruct (with_fs_total c x k h) as ([] & h' & ->); [by eexists _, _|by exists h'] end).
Qed.

Lemma on_csr_read n (s : State B) : n < 4096 ->
  exists old h', on_hart (csr_read n) s = Ret (old, set_hart h' s).
Proof.
  intros Hn. destruct (proj1 (csr_total n 0 (hart s) Hn)) as (old & h' & E).
  exists old, h'. unfold on_hart. by rewrite E.
Qed.

Lemma on_csr_write n v (s : State B) : n < 4096 ->
  exists h', on_hart (csr_write n v) s = Ret (tt, set_hart h' s).
Proof.
  intros Hn. destruct (proj2 (csr_total n v (hart s) Hn)) as (h' & E).
  exists h'. unfold on_hart. by rewrite E.
Qed.

(** What is not refused is carried out. *)
Ltac runs :=
  cbv [mbind ST_bind];
  repeat match goal with
  | |- context [on_hart (csr_read ?n) ?s] =>
      let E := fresh in destruct (on_csr_read n s) as (? & ? & E); [assumption|rewrite E; clear E]
  | |- context [on_hart (csr_write ?n ?v) ?s] =>
      let E := fresh in destruct (on_csr_write n v s) as (? & E); [assumption|rewrite E; clear E]
  | |- context [if negb ?b then _ else _] => destruct b; cbn [negb]; cbv beta iota
  | _ => progress cbv beta iota delta [reg gets setreg mod_hart modify mret ST_ret]
  end; by eexists.

Lemma csr_runs d w (k : M B ExecReturn) (s : State B) :
  inw 12 (imm d) -> mode (hart s) <> Hypervisor -> (exists s', k s = Ret (exec_ok, s')) ->
  if csr_denied (hart s) (imm d) w then csr_guard d w k s = Ret (illegal d, s)
  else exists s', csr_guard d w k s = Ret (exec_ok, s').
Proof. intros Hi HH Hk. rewrite csr_guard_spec by done. by destruct (csr_denied _ _ _). Qed.

Lemma csr_rmw d (s : State B) : inw 12 (imm d) -> mode (hart s) <> Hypervisor ->
  special_csr (imm d) = false -> rd d <> 0 ->
  let n := imm d in let old := csr_get (hart s) n in let v := gpr (hart s) (rs1 d) in
  (csr_denied (hart s) n true = false ->
    exec_CSRRW d s = Ret (exec_ok, csr_result s (rd d) n old (Some v))) /\
  (csr_denied (hart s) n (negb (rs1 d =? 0)) = false ->
    let upd x := if rs1 d =? 0 then None else Some x in
    exec_CSRRS d s = Ret (exec_ok, csr_result s (rd d) n old (upd (Z.lor old v))) /\
    exec_CSRRC d s = Ret (exec_ok, csr_result s (rd d) n old (upd (Z.land old (not64 v)))) /\
    exec_CSRRWI d s = Ret (exec_ok, csr_result s (rd d) n old (Some (rs1 d))) /\
    exec_CSRRSI d s = Ret (exec_ok, csr_result s (rd d) n old (upd (Z.lor old (rs1 d)))) /\
    exec_CSRRCI d s = Ret (exec_ok, csr_result s (rd d) n old (upd (Z.land old (not64 (rs1 d)))))).
Proof.
  intros Hi HH Hsp Hrd n old v.
  assert (imm d < 4096) as Hlt by (destruct Hi; lia).
  pose proof (fun x h => proj1 (csr_plain (imm d) x h Hlt Hsp)) as Hw.
  pose proof (fun h => proj2 (csr_plain (imm d) 0 h Hlt Hsp)) as Hr.
  unfold exec_CSRRW, exec_CSRRS, exec_CSRRC, exec_CSRRWI, exec_CSRRSI, exec_CSRRCI, reg, setreg, mod_hart, modify.
  rewrite !csr_guard_spec, !(uN_id 16) by (first [done | eapply inw_mono; [|done]; lia]).
  unfold old, v, n; split; intros Ha; rewrite Ha;
    cbv [mbind ST_bind gets on_hart mret ST_ret];
    rewrite ?Hr; cbn [hart set_hart]; rewrite (proj2 (Z.eqb_neq (rd d) 0) Hrd); cbn [negb].
  - by rewrite Hw.
  - destruct (rs1 d =? 0); cbn [negb hart set_hart]; rewrite ?Hw, ?Hr; cbn [hart set_hart]; rewrite ?Hw;
      split_and!; done.
Qed.

(** C13: CSR access control. A CSR instruction is an illegal instruction, and
    changes nothing, exactly when the access is refused: from a level below
    the one the number encodes, to a CSR that is not implemented, a write to a
    counter or an identification register, a counter that [mcounteren] or
    [scounteren] disables, and [satp] under [TVM]. Any other CSR instruction
    completes; on a CSR without special behaviour CSRRW exchanges it with
    [rs1], CSRRS sets and CSRRC clears the bits of [rs1], the immediate forms do
    so with the 5-bit immediate, [rd] receives the old value, and with [rs1] 0
    the set and clear forms do not write. (CSRRWI with a zero immediate is not
    checked as a write.) *)
Theorem csr_access_control d (s : State B) : inw 12 (imm d) -> mode (hart s) <> Hypervisor ->
  let n := imm d in let old := csr_get (hart s) n in let v := gpr (hart s) (rs1 d) in
  let refused (f : InstructionData -> M B ExecReturn) := f d s = Ret (illegal d, s) in
  let completes (f : InstructionData -> M B ExecReturn) := exists s', f d s = Ret (exec_ok, s') in
  (if csr_denied (hart s) n true then refused exec_CSRRW else completes exec_CSRRW) /\
  (forall f, f ∈ [exec_CSRRS; exec_CSRRC; exec_CSRRWI; exec_CSRRSI; exec_CSRRCI] ->
     if csr_denied (hart s) n (negb (rs1 d =? 0)) then refused f else completes f) /\
  (special_csr n = false -> rd d <> 0 ->
    (csr_denied (hart s) n true = false ->
      exec_CSRRW d s = Ret (exec_ok, csr_result s (rd d) n old (Some v))) /\
    (csr_denied (hart s) n (negb (rs1 d =? 0)) = false ->
      let upd x := if rs1 d =? 0 then None else Some x in
      exec_CSRRS d s = Ret (exec_ok, csr_result s (rd d) n old (upd (Z.lor old v))) /\
      exec_CSRRC d s = Ret (exec_ok, csr_result s (rd d) n old (upd (Z.land old (not64 v)))) /\
      exec_CSRRWI d s = Ret (exec_ok, csr_result s (rd d) n old (Some (rs1 d))) /\
      exec_CSRRSI d s = Ret (exec_ok, csr_result s (rd d) n old (upd (Z.lor old (rs1 d)))) /\
      exec_CSRRCI d s = Ret (exec_ok, csr_result s (rd d) n old (upd (Z.land old (not64 (rs1 d))))))).
Proof.
  intros Hi HH n old v refused completes. assert (u16 (imm d) = imm d) as Eu.
  { apply uN_id. eapply inw_mono; [|done]; lia. }
  assert (imm d < 4096) as Hlt by (destruct Hi; lia).
  split_and!.
  - apply csr_runs; [done..|]. rewrite Eu. runs.
  - intros f Hf. repeat (apply elem_of_cons in Hf as [->|Hf]; [apply csr_runs; [done..|]; rewrite Eu; runs|]).
    by apply elem_of_nil in Hf.
  - intros Hs Hr. by apply csr_rmw.
Qed.
End rmw.

(** ** Type invariant *)

Section zicsr_wf.
Context {B : Type} `{BusLaws B}.

Lemma csr_guard_keeps d w (k : M B ExecReturn) : data_ok d -> keeps k exec_ret_ok ->
  keeps (csr_guard d w k) exec_ret_ok.
Proof.
  intros Hd Hk. kbind; [by apply keeps_gets|]. intros h _.
  apply keeps_if; intros _; [apply keeps_ret; by apply illegal_ret|].
  kbind.
  { apply keeps_on_hart. unfold counter_enabled. apply hoare_if; intros _; [by apply hoare_ret|].
    apply (hoare_bind _ _ _ (fun _ => hart_wf)); [by apply hoare_gets|]. intros md.
    apply (hoare_bind _ _ _ (fun _ => hart_wf)).
    { eapply hoare_weaken; [by apply csr_read_wf|done|]. by intros a h' []. } intros mc.
    apply (hoare_bind _ _ _ (fun _ => hart_wf)).
    { eapply hoare_weaken; [by apply csr_read_wf|done|]. by intros a h' []. } intros sc.
    by apply hoare_ret. }
  intros en _. apply keeps_if; intros _; [apply keeps_ret; by apply illegal_ret|].
  kbind; [by apply keeps_gets|]. intros md _.
  by apply keeps_if; intros _; [apply keeps_ret; by apply illegal_ret|].
Qed.

(** The shape of the handlers after the guards. *)
Ltac csr_step :=
  lazymatch goal with
  | |- keeps (if _ then _ else _) _ => apply keeps_if; intros _
  | |- keeps (mret _) _ => apply keeps_ret; auto with rvw
  | |- keeps (setreg _ _) _ => apply keeps_setreg
  | |- keeps (on_hart (csr_write _ _)) _ => apply csr_write_keeps
  | |- keeps (on_hart (csr_read _) ≫= _) _ =>
      apply (keeps_bind _ _ (inw 64)); [apply csr_read_keeps|intros ? ?]
  | |- keeps (reg _ ≫= _) _ => apply (keeps_bind _ _ (inw 64)); [apply keeps_reg|intros ? ?]
  | |- keeps (_ ≫= _) _ => kbind; [|intros ? _]
  | |- inw _ (uN _ _) => by apply uN_inw
  | |- inw _ (Z.lor _ _) => apply inw_lor; [lia| |]
  | |- inw _ (Z.land _ (not64 _)) => apply inw_land; [lia| |apply not64_inw]
  | |- inw _ _ => assumption
  end.

Lemma zicsr_keeps : Forall instr_keeps (init_zicsr (B := B)).
Proof.
  unfold init_zicsr.
  repeat (apply List.Forall_cons;
    [split; [intros d Hd; cbn [i_func]; open_handler; apply csr_guard_keeps; [exact Hd|];
             assert (inw 64 (rs1 d)) by (destruct Hd as (_ & _ & ?); apply (inw_mono 5); [lia|done]);
             repeat csr_step
            |cbn [i_imm]; auto with rvw]|]).
  apply List.Forall_nil.
Qed.
End zicsr_wf.
