(* ===== verification/Isa.v ===== *)
(** * The instruction table ([InstructionDecoder::init_all_instrs])

    The registered instructions of a build without [USE_FPU], in registration
    order, and the decoder table [build_lut] makes of them. *)

From Stdlib Require Import Strings.String.
From S2P Require Import Prelude Defs MemoryMap SelfMod Tlb Decode Lut Hart State Mmu Mmio.
From S2P Require Import Rv64i Rv64m Rv64a Rv64c Zb Priv Zicsr.

Section table.
Context {B : Type} `{BusOps B}.

Definition instructions : list (Instr B) :=
  init_rv64i ++ init_rv64m ++ init_rv64a ++ init_rv64c ++ init_priv ++ init_zicsr ++
  init_zifencei ++ init_zba ++ init_zbb ++ init_zbc ++ init_zbs ++ init_zicboz.

(** [register_instr] of each instruction, then [build_lut]. *)
Definition make_table (l : list (Instr B)) : option DecTable :=
  ps ← mapM (fun i => parse_mask (i_mask i)) l;
  ls ← build_lut ps;
  Some (mkTable ps (i_imm <$> l) ls).

Definition init_all_instrs : option DecTable := make_table instructions.
End table.

(** ** Properties of the registered masks *)

(** The masks do not depend on the bus. *)
Definition masks : list string := i_mask <$> instructions (B := unit).
Definition isa_patterns : list Pattern := default [] (mapM parse_mask masks).

Lemma patterns_parse {B} `{BusOps B} :
  mapM (fun i => parse_mask (i_mask i)) (instructions (B := B)) = Some isa_patterns.
Proof. vm_compute. reflexivity. Qed.

Lemma patterns_ok : Forall pattern_ok isa_patterns.
Proof. apply (bool_decide_eq_true_1 _). vm_compute. reflexivity. Qed.

(** Compressed patterns are those whose low two bits are not 11, and they do
    not look above bit 15. *)
Definition class_ok (p : Pattern) : bool :=
  (Z.land (p_mask p) 3 =? 3) &&
  (if is16 p then negb (Z.land (p_match p) 3 =? 3) && (Z.land (p_mask p) HASH_MASK_16 =? p_mask p)
   else Z.land (p_match p) 3 =? 3).

Lemma patterns_class : forallb class_ok isa_patterns = true.
Proof. vm_compute. reflexivity. Qed.

(** [p] and [q] disagree on a hashed bit both fix, or every bit outside the
    hash that [p] fixes is fixed by [q] to the same value. *)
Definition pair_ok (p q : Pattern) : bool :=
  let h := hash_of (is16 p) in
  let diff := Z.land (Z.lxor (p_match p) (p_match q)) (Z.land (p_mask p) (p_mask q)) in
  negb (Bool.eqb (is16 p) (is16 q)) || negb (Z.land diff h =? 0) ||
  ((diff =? 0) && (Z.ldiff (Z.ldiff (p_mask p) h) (p_mask q) =? 0)).

(** [p] at position [i] takes a slot from [q] at position [j]. *)
Definition beats (p : Pattern) (i : nat) (q : Pattern) (j : nat) : bool :=
  (popcount32 (p_mask q) <? popcount32 (p_mask p)) ||
  ((popcount32 (p_mask q) =? popcount32 (p_mask p)) && Nat.ltb i j).

Definition pairs_ok (l : list (nat * Pattern)) : bool :=
  forallb (fun a => forallb (fun b => negb (beats a.2 a.1 b.2 b.1) || pair_ok a.2 b.2) l) l.

Lemma pairs_checked : pairs_ok (imap pair isa_patterns) = true.
Proof. vm_compute. reflexivity. Qed.

(** No two 32-bit instructions match the same word. *)
Definition exclusive (l : list (nat * Pattern)) : bool :=
  forallb (fun a => forallb (fun b =>
    Nat.eqb a.1 b.1 || is16 a.2 || is16 b.2 ||
    negb (Z.land (Z.lxor (p_match a.2) (p_match b.2)) (Z.land (p_mask a.2) (p_mask b.2)) =? 0))
    l) l.

Lemma exclusive_checked : exclusive (imap pair isa_patterns) = true.
Proof. vm_compute. reflexivity. Qed.

#[local] Opaque isa_patterns instructions.

(** ** Decoding *)

(** The word [w] is an instance of the pattern. *)
Definition matches (p : Pattern) (w : Z) : Prop := Z.land w (p_mask p) = p_match p.

Lemma imap_pair_lookup {A} (l : list A) i x : l !! i = Some x -> In (i, x) (imap pair l).
Proof.
  intros Hi. apply list_elem_of_In, list_elem_of_lookup. exists i. by rewrite list_lookup_imap, Hi.
Qed.

Lemma forallb_pairs {A} (f : nat * A -> nat * A -> bool) l i x j y :
  forallb (fun a => forallb (f a) (imap pair l)) (imap pair l) = true ->
  l !! i = Some x -> l !! j = Some y -> f (i, x) (j, y) = true.
Proof.
  intros Hf Hi%imap_pair_lookup Hj%imap_pair_lookup.
  apply (proj1 (forallb_forall _ _) Hf) in Hi. by apply (proj1 (forallb_forall _ _) Hi) in Hj.
Qed.

Lemma pair_checked l i p j q : pairs_ok (imap pair l) = true -> l !! i = Some p -> l !! j = Some q ->
  beats p i q j = true -> pair_ok p q = true.
Proof.
  intros Hl Hi Hj Hb. pose proof (forallb_pairs _ l i p j q Hl Hi Hj) as H.
  cbn [fst snd] in H. by rewrite Hb in H.
Qed.

Lemma exclusive_matches l i p j q w : exclusive (imap pair l) = true -> l !! i = Some p -> l !! j = Some q ->
  is16 p = false -> is16 q = false -> Z.land w (p_mask p) = p_match p -> Z.land w (p_mask q) = p_match q ->
  i = j.
Proof.
  intros Hl Hi Hj Hp Hq Hwp Hwq. pose proof (forallb_pairs _ l i p j q Hl Hi Hj) as H.
  cbn [fst snd] in H. rewrite Hp, Hq, !orb_false_r in H. apply orb_true_iff in H as [H|H].
  - by apply Nat.eqb_eq in H.
  - exfalso. apply negb_true_iff, Z.eqb_neq in H. apply H. apply Z.bits_inj'. intros k _.
    rewrite <- Hwp, <- Hwq. tb.
    destruct (Z.testbit w k), (Z.testbit (p_mask p) k), (Z.testbit (p_mask q) k); done.
Qed.

Lemma matches_hash p h w : matches p w -> hash_compat p h w.
Proof. unfold matches, hash_compat. by intros ->. Qed.

Lemma matches_bit p w i : matches p w -> Z.testbit (p_mask p) i = true ->
  Z.testbit w i = Z.testbit (p_match p) i.
Proof. unfold matches. intros <- Hm. by rewrite Z.land_spec, Hm, andb_true_r. Qed.

Lemma hash_bit p h w i : hash_compat p h w -> Z.testbit (p_mask p) i = true -> Z.testbit h i = true ->
  Z.testbit w i = Z.testbit (p_match p) i.
Proof.
  unfold hash_compat. intros Hc Hm Hh. apply (f_equal (fun z => Z.testbit z i)) in Hc.
  rewrite !Z.land_spec, Hm, Hh, !andb_true_r in Hc. done.
Qed.

(** A winner compatible with the hash of a word that the loser matches
    matches it too. *)
Lemma pair_ok_matches p q w : pattern_ok p -> pair_ok p q = true -> is16 p = is16 q ->
  hash_compat p (hash_of (is16 p)) w -> matches q w -> matches p w.
Proof.
  intros (_ & _ & Hsub) Hok Hcl Hc Hq. unfold pair_ok in Hok. cbv zeta in Hok.
  rewrite Hcl, eqb_reflx, <- Hcl in Hok. cbn [negb orb] in Hok.
  set (h := hash_of (is16 p)) in *.
  set (diff := Z.land (Z.lxor _ _) _) in Hok.
  assert (forall i, Z.testbit h i = true -> Z.testbit diff i = false) as Hdh.
  { intros i Hi. unfold diff. rewrite Z.land_spec, Z.lxor_spec, Z.land_spec.
    destruct (Z.testbit (p_mask p) i) eqn:Ep; [|by rewrite andb_false_r].
    destruct (Z.testbit (p_mask q) i) eqn:Eq; [|by rewrite andb_false_r].
    by rewrite <- (hash_bit p h w i), <- (matches_bit q w i), xorb_nilpotent. }
  assert (Z.land diff h = 0) as Hz.
  { apply Z.bits_inj'. intros i _. rewrite Z.land_spec, Z.bits_0.
    destruct (Z.testbit h i) eqn:E; [by rewrite Hdh|by rewrite andb_false_r]. }
  rewrite Hz in Hok. cbn [Z.eqb negb orb] in Hok. apply andb_true_iff in Hok as [Hd0 Hf].
  apply Z.eqb_eq in Hd0, Hf. unfold matches. apply Z.bits_inj'. intros i _. rewrite Z.land_spec.
  destruct (Z.testbit (p_mask p) i) eqn:Ep.
  - rewrite andb_true_r. destruct (Z.testbit h i) eqn:Eh; [by apply (hash_bit p h)|].
    apply (f_equal (fun z => Z.testbit z i)) in Hf. rewrite !Z.ldiff_spec, Ep, Eh, Z.bits_0 in Hf.
    cbn in Hf. apply negb_false_iff in Hf. rewrite (matches_bit q w i) by done.
    apply (f_equal (fun z => Z.testbit z i)) in Hd0. unfold diff in Hd0.
    rewrite Z.land_spec, Z.lxor_spec, Z.land_spec, Ep, Hf, Z.bits_0 in Hd0. cbn in Hd0.
    rewrite andb_true_r in Hd0. by apply xorb_eq in Hd0.
  - rewrite andb_false_r. apply (f_equal (fun z => Z.testbit z i)) in Hsub.
    rewrite Z.land_spec, Ep, andb_false_r in Hsub. done.
Qed.

Lemma land_low2 x y i : Z.land x 3 = Z.land y 3 -> 0 <= i < 2 -> Z.testbit x i = Z.testbit y i.
Proof.
  intros H Hi. apply (f_equal (fun z => Z.testbit z i)) in H. rewrite !Z.land_spec in H.
  assert (Z.testbit 3 i = true) as E by (assert (i = 0 \/ i = 1) as [-> | ->] by lia; done).
  by rewrite E, !andb_true_r in H.
Qed.

(** The class of a matching pattern is told by the low two bits of the word. *)
Lemma class_low2 p w : class_ok p = true -> matches p w -> is16 p = negb (Z.land w 3 =? 3).
Proof.
  intros Hc Hm. unfold class_ok in Hc. apply andb_true_iff in Hc as [Hm3 Hc]. apply Z.eqb_eq in Hm3.
  assert (Z.land w 3 = Z.land (p_match p) 3) as ->.
  { rewrite <- Hm, <- Z.land_assoc, Hm3. done. }
  destruct (is16 p); [apply andb_true_iff in Hc as [Hc _]|]; by rewrite Hc.
Qed.

Lemma compressed_hash p w : class_ok p = true -> pattern_ok p -> is16 p = true ->
  hash_compat p HASH_MASK_16 w -> matches p w.
Proof.
  intros Hcl (_ & _ & Hsub) H16 Hc. unfold class_ok in Hcl. rewrite H16 in Hcl.
  apply andb_true_iff in Hcl as [_ Hcl]. apply andb_true_iff in Hcl as [_ Hm]. apply Z.eqb_eq in Hm.
  unfold hash_compat in Hc. unfold matches. rewrite <- Z.land_assoc, Hm in Hc. rewrite Hc.
  unfold submask in Hsub. rewrite <- Hsub at 1. rewrite <- Z.land_assoc, Hm. done.
Qed.

(** The instruction the word [w] stands for: the registered instruction that
    matches it, the one fixing most bits when several do. *)
Definition best_match (ps : list Pattern) (w : Z) (k : nat) : Prop :=
  exists p, ps !! k = Some p /\ matches p w /\
  forall j q, ps !! j = Some q -> matches q w -> j <> k -> popcount32 (p_mask q) <= popcount32 (p_mask p).

Section decode.
Context (ps : list Pattern) (imms : list (option (Z -> Z))) (ls : Luts).
Hypothesis Hok : Forall pattern_ok ps.
Hypothesis Hcl : forallb class_ok ps = true.
Hypothesis Hpairs : pairs_ok (imap pair ps) = true.
Hypothesis Hls : forall b w, slot_ok ps b w (length ps) (table_of b ls !! pext_u32 w (hash_of b)).

Let tb := mkTable ps imms ls.

Lemma ps_ok j q : ps !! j = Some q -> pattern_ok q /\ class_ok q = true.
Proof.
  intros Hq. split; [by eapply Forall_lookup_1|].
  apply (proj1 (forallb_forall _ _) Hcl). apply list_elem_of_In. by eapply list_elem_of_lookup_2.
Qed.

Lemma matches_candidate j q w : ps !! j = Some q -> matches q w ->
  candidate ps (negb (Z.land w 3 =? 3)) w j q.
Proof.
  intros Hq Hm. destruct (ps_ok j q Hq) as [_ Hc]. split; [done|].
  split; [by apply class_low2|by apply matches_hash].
Qed.

(** The slot of the word's class is enough to decode it. *)
Lemma slot_decides w : let b := negb (Z.land w 3 =? 3) in
  match table_of b ls !! pext_u32 w (hash_of b) with
  | Some k => exists p, ps !! k = Some p /\
      if Z.land w (p_mask p) =? p_match p then best_match ps w k
      else forall j q, ps !! j = Some q -> ~ matches q w
  | None => forall j q, ps !! j = Some q -> ~ matches q w
  end.
Proof.
  intros b. pose proof (Hls b w) as Hs. destruct (table_of b ls !! _) as [k|]; cbn [slot_ok] in Hs.
  - destruct Hs as (Hk & p & (Hp & Hcp & Hhp) & Hbest). exists p. split; [done|].
    destruct (Z.eqb_spec (Z.land w (p_mask p)) (p_match p)) as [Hm|Hm].
    + exists p. split_and!; [done|done|]. intros j q Hq Hmq Hne.
      pose proof (matches_candidate j q w Hq Hmq) as Hc. fold b in Hc.
      destruct (Hbest j q) as [?|[? ?]]; [by eapply lookup_lt_Some|done|lia|lia].
    + intros j q Hq Hmq. apply Hm. pose proof (matches_candidate j q w Hq Hmq) as Hc. fold b in Hc.
      destruct (decide (j = k)) as [->|Hne]; [by simplify_eq|].
      pose proof (Hbest j q (lookup_lt_Some _ _ _ Hq) Hc) as Hb.
      apply (pair_ok_matches p q); [by eapply ps_ok| | | |done].
      * apply (pair_checked ps k p j q Hpairs Hp Hq). unfold beats.
        destruct Hb as [Hb|[Hb Hle]]; [by rewrite (proj2 (Z.ltb_lt _ _) Hb)|].
        rewrite (proj2 (Z.eqb_eq _ _) Hb), (proj2 (Nat.ltb_lt k j)) by lia. apply orb_true_r.
      * destruct Hc as (_ & Hc & _). congruence.
      * by rewrite Hcp.
  - intros j q Hq Hmq. apply (Hs j q); [by eapply lookup_lt_Some|by apply matches_candidate].
Qed.

(** A 32-bit entry never matches a compressed word. *)
Lemma wide_slot w k : Z.land w 3 <> 3 -> lut ls !! pext_u32 w HASH_MASK = Some k ->
  exists p, ps !! k = Some p /\ Z.land w (p_mask p) <> p_match p.
Proof.
  intros Hw Hk. pose proof (Hls false w) as Hs. cbn [table_of hash_of] in Hs. rewrite Hk in Hs.
  destruct Hs as (_ & p & (Hp & Hc & _) & _). exists p. split; [done|]. intros Hm.
  destruct (ps_ok k p Hp) as [_ Hcp]. rewrite (class_low2 p w Hcp Hm) in Hc.
  apply negb_false_iff, Z.eqb_eq in Hc. done.
Qed.

Lemma decode_match_best w :
  match decode_match tb w with
  | Some k => best_match ps w k
  | None => forall j q, ps !! j = Some q -> ~ matches q w
  end.
Proof.
  pose proof (slot_decides w) as Hd. unfold decode_match, lut_candidate. cbn [luts patterns tb].
  change 0xFFFF with HASH_MASK_16. rewrite pext_u32_land.
  destruct (Z.eqb_spec (Z.land w 3) 3) as [E|E]; cbn [negb hash_of table_of] in *.
  - destruct (lut ls !! _) as [k|]; [|done]. cbn [mbind option_bind].
    destruct Hd as (p & -> & Hd). cbn [mbind option_bind]. by destruct (_ =? _).
  - destruct (lut16 ls !! _) as [k|].
    + cbn [mbind option_bind]. destruct Hd as (p & -> & Hd). cbn [mbind option_bind]. by destruct (_ =? _).
    + destruct (lut ls !! pext_u32 w HASH_MASK) as [k|] eqn:Ek; [|done].
      destruct (wide_slot w k E Ek) as (p & Hp & Hm). cbn [mbind option_bind]. rewrite Hp.
      cbn [mbind option_bind]. by rewrite (proj2 (Z.eqb_neq _ _) Hm).
Qed.
End decode.

(** The decoder table of the emulator. *)
Lemma make_table_spec {B} (l : list (Instr B)) ps :
  mapM (fun i => parse_mask (i_mask i)) l = Some ps -> Forall pattern_ok ps ->
  exists ls, make_table l = Some (mkTable ps (i_imm <$> l) ls) /\
  forall b w, slot_ok ps b w (length ps) (table_of b ls !! pext_u32 w (hash_of b)).
Proof.
  intros Hp Hok. destruct (build_lut_spec ps Hok) as (ls & Hls & Hs). exists ls. split; [|done].
  unfold make_table. rewrite Hp. cbn [mbind option_bind]. by rewrite Hls.
Qed.

(** C15: the decoder is correct for its instruction table: [init_all_instrs]
    succeeds, and with its table every 32-bit word decodes to the registered
    instruction whose pattern it matches, the most specific one when a
    compressed word matches several, and to none when it matches none; no
    word matches two 32-bit patterns. *)
Theorem decode_isa {B} `{BusOps B} : exists tb,
  init_all_instrs (B := B) = Some tb /\ patterns tb = isa_patterns /\
  forall w,
    (forall k, decode_match tb w = Some k -> best_match isa_patterns w k) /\
    (decode_match tb w = None <-> forall j q, isa_patterns !! j = Some q -> ~ matches q w) /\
    (forall i p j q, isa_patterns !! i = Some p -> isa_patterns !! j = Some q ->
       is16 p = false -> is16 q = false -> matches p w -> matches q w -> i = j).
Proof.
  destruct (make_table_spec _ _ (patterns_parse (B := B)) patterns_ok) as (ls & Hi & Hs). eexists. split; [exact Hi|].
  split; [reflexivity|]. intros w.
  pose proof (decode_match_best isa_patterns (i_imm <$> instructions (B := B)) ls patterns_ok
    patterns_class pairs_checked Hs w) as Hb.
  split; [|split].
  - intros k Hk. by rewrite Hk in Hb.
  - split; [intros Hn; by rewrite Hn in Hb|]. intros Hno. destruct (decode_match _ w) as [k|]; [|done].
    destruct Hb as (p & Hp & Hm & _). by destruct (Hno k p Hp).
  - intros i p j q Hi' Hj Hp Hq Hm Hm'. by apply (exclusive_matches isa_patterns i p j q w exclusive_checked).
Qed.

(** ** The handlers *)

#[local] Transparent instructions.

Lemma instructions_keep {B} `{BusLaws B} : Forall instr_keeps (instructions (B := B)).
Proof.
  unfold instructions. pose proof (rv64c_keeps (B := B)) as Hc. apply Forall_app in Hc as [Hc _].
  pose proof (zb_keeps (B := B)) as Hz. rewrite !Forall_app in Hz. destruct Hz as (? & ? & ? & ?).
  pose proof (priv_keeps (B := B)) as Hp. rewrite !Forall_app in Hp. destruct Hp as (? & ? & ?).
  repeat (apply Forall_app; split); try assumption;
    first [exact rv64i_keeps|exact rv64m_keeps|exact rv64a_keeps|exact zicsr_keeps].
Qed.

Lemma patterns_length {B} `{BusOps B} : length isa_patterns = length (instructions (B := B)).
Proof. vm_compute. reflexivity. Qed.
