(* ===== verification/Exec.v ===== *)
(** * Fetch, decode and execute ([src/hart.cpp])

    The interpreter step of a hart. The decoder's tables [tb] and the
    registered instructions are those of [Isa]; the decode cache is part of
    the state. *)

From Stdlib Require Import Strings.String.
From S2P Require Import Prelude Defs MemoryMap SelfMod Tlb Decode Lut Hart State Mmu Mmio.
From S2P Require Import Rv64i Rv64m Rv64a Rv64c Zb Priv Zicsr Isa.

Section exec.
Context {B : Type} `{BusOps B} (tb : DecTable).

(** The 16 bits at the physical address [p]; the pointer is that of
    [get_ram_direct()]. *)
Definition fetch16 (p : Z) : M B Z := on_mem (fun m => ram_read m (p - RAM_BASE) 2).
Definition fetch32 (p : Z) : M B Z := on_mem (fun m => ram_read m (p - RAM_BASE) 4).

Definition fetch_oob (memsz p : Z) : bool :=
  (p <? RAM_BASE) || (u64 (u64 (RAM_BASE + memsz) - 2) <? p).

Definition fetchInstruction (va : Z) : M B (MemoryReturn * Z * option InstructionCache) :=
  '(ret, phys_pc) ← translate EXEC va;
  if negb (mr_success ret) then mret (ret, phys_pc, None) else
  _ ← on_mem (fun m => deref m (ram_direct m));
  memsz ← gets (fun s => memsize (hart s));
  if fetch_oob memsz phys_pc
  then mret (mkMem false EXC_INST_ACCESS_FAULT va, phys_pc, None) else
  lo ← fetch16 phys_pc;
  fetched ←
    (if negb (Z.land lo 0x3 =? 0x3) then mret (inr lo)
     else if Z.land va 0xFFF <=? 0xFFC then w ← fetch32 phys_pc; mret (inr w)
     else
       '(ret2, phys_pc2) ← translate EXEC (u64 (va + 2));
       if negb (mr_success ret2) then mret (inl ret2) else
       memsz ← gets (fun s => memsize (hart s));
       if fetch_oob memsz phys_pc2
       then mret (inl (mkMem false EXC_INST_ACCESS_FAULT (u64 (va + 2)))) else
       hi ← fetch16 phys_pc2;
       mret (inr (Z.lor lo (Z.shiftl hi 16))));
  match (fetched : MemoryReturn + Z) with
  | inl r => mret (r, phys_pc, None)
  | inr w =>
      s ← get_st;
      let '(cache, c) := decode_inst tb (g_smc_epoch (smc s)) (idec s) phys_pc w in
      _ ← modify (set_idec c);
      if ic_pc cache =? 0
      then mret (mkMem false EXC_ILLEGAL_INSTRUCTION w, phys_pc, None)
      else mret (mem_ok, phys_pc, Some cache)
  end.

(** The handler of a decoded instruction, run on its operands. *)
Definition single_inst (cache : InstructionCache) : M B ExecReturn :=
  match ic_inst cache ≫= (fun k => instructions !! k) with
  | Some i => i_func i (ic_data cache)
  | None => undef
  end.

(** The end of [tick]: take the trap of a failed instruction, or retire it. *)
Definition retire (out : ExecReturn) : M B unit :=
  if negb (er_success out) then on_hart (trap (er_cause out) (er_tval out) false)
  else mod_hart (fun h =>
    let h := set_instret (u64 (instret h + 1)) h in
    set_pc (u64 (pc h + er_increase_pc out)) h).

(** The part of [tick] after the interrupt check and the WFI test. *)
Definition run_inst : M B unit :=
  va ← gets (fun s => pc (hart s));
  '(outd, _, cache) ← fetchInstruction va;
  match mr_success outd, cache with
  | true, Some cache => out ← single_inst cache; retire out
  | true, None => undef
  | false, _ => on_hart (trap (mr_exc_code outd) (mr_tval outd) false)
  end.

Definition poll_ints : M B unit :=
  h ← gets hart;
  if (Z.land (instret h) 0x2FFF =? 0) && negb (Z.land (ip h) (ie h) =? 0)
  then _ ← on_hart check_ints; mret tt
  else mret tt.

Definition tick : M B unit :=
  _ ← mod_hart (put_gpr 0 0);
  _ ← mod_hart (fun h => set_cycle (u64 (cycle h + 1)) h);
  _ ← poll_ints;
  h ← gets hart;
  if WFI h then
    (if int_local_pending h then mod_hart (set_WFI false) else mret tt)
  else run_inst.
End exec.

(** ** The invariant of the interpreter *)

Lemma cache_ok_sets tb c c' : sets c' = sets c -> cache_ok tb c -> cache_ok tb c'.
Proof. intros Hs Hc i. unfold set_at. rewrite Hs. apply Hc. Qed.

(** Well-typed state and a decode cache that holds only decodings. *)
Definition inv {B} (tb : DecTable) (s : State B) : Prop := st_wf s /\ cache_ok tb (idec s).

Definition preserves {B A} (tb : DecTable) (m : M B A) (Q : A -> Prop) : Prop :=
  hoare (inv tb) m (fun a s => inv tb s /\ Q a).

Section preserves.
Context {B : Type} (tb : DecTable).

Lemma keeps_preserves {A} (m : M B A) Q : keeps m Q -> preserves tb m Q.
Proof.
  intros Hm s [Hs Hc]. specialize (Hm _ s (conj Hs eq_refl)).
  destruct (m s) as [[a s']| |]; [|done..]. destruct Hm as [[Hs' Hx] Ha].
  split; [|done]. split; [done|by eapply cache_ok_sets].
Qed.

Lemma preserves_bind {A C} (m : M B A) (f : A -> M B C) (R : A -> Prop) Q :
  preserves tb m R -> (forall a, R a -> preserves tb (f a) Q) -> preserves tb (m ≫= f) Q.
Proof. intros Hm Hf. eapply hoare_bind; [apply Hm|]. intros a s [Hs Ha]. by apply Hf. Qed.

Lemma preserves_weaken {A} (m : M B A) (Q Q' : A -> Prop) :
  preserves tb m Q -> (forall a, Q a -> Q' a) -> preserves tb m Q'.
Proof. intros Hm HQ. eapply hoare_weaken; [apply Hm|done|]. intros a s [? ?]. auto. Qed.

Lemma preserves_ret {A} (a : A) (Q : A -> Prop) : Q a -> preserves tb (B := B) (mret a) Q.
Proof. intros. by apply keeps_preserves, keeps_ret. Qed.

Lemma preserves_if {A} (b : bool) (m1 m2 : M B A) Q :
  (b = true -> preserves tb m1 Q) -> (b = false -> preserves tb m2 Q) ->
  preserves tb (if b then m1 else m2) Q.
Proof. by destruct b; auto. Qed.
End preserves.

Lemma ram_read_inw m off n v : wf_mmap m -> ram_read m off n = Ret v -> inw (8 * Z.of_nat n) v.
Proof.
  intros Hm Hr. unfold ram_read in Hr. destruct (deref m (ram_direct m)) as [r|e|] eqn:E; [|done..].
  apply deref_wf in E as (i & _ & _ & _ & _ & Hb); [|done]. cbn [mbind outcome_bind] in Hr.
  unfold reg_read in Hr. destruct (in_array r off n); [|done]. injection Hr as <-. by apply le_read_inw.
Qed.

Section fetch.
Context {B : Type} `{BusLaws B} (tb : DecTable).

Lemma keeps_fetch n p : keeps (B := B) (on_mem (fun m => ram_read m p n)) (inw (8 * Z.of_nat n)).
Proof.
  intros x s [[Hh Hm] Hx]. unfold on_mem. destruct (ram_read (mmap s) p n) eqn:E; [|done..].
  split; [done|]. by eapply ram_read_inw.
Qed.


(** What [fetchInstruction] hands to [tick]. *)
Definition fetch_ok (r : MemoryReturn * Z * option InstructionCache) : Prop :=
  mem_ret_ok r.1.1 /\
  match r.2 with
  | Some e => mr_success r.1.1 = true /\ exists w, inw 32 w /\ decode_match tb w <> None /\ entry_ok tb w e
  | None => mr_success r.1.1 = false
  end.

Definition fetched_ok (r : MemoryReturn + Z) : Prop :=
  match r with inl r => mem_ret_ok r /\ mr_success r = false | inr w => inw 32 w end.

Lemma fetch_decode_preserves p w : p <> 0 -> inw 32 w ->
  preserves tb (B := B)
    (s ← get_st;
     let '(cache, c) := decode_inst tb (g_smc_epoch (smc s)) (idec s) p w in
     _ ← modify (set_idec c);
     if ic_pc cache =? 0
     then mret (mkMem false EXC_ILLEGAL_INSTRUCTION w, p, None)
     else mret (mem_ok, p, Some cache)) fetch_ok.
Proof.
  intros Hp Hw s [Hs Hc]. cbv [mbind ST_bind get_st].
  pose proof (decode_inst_ok tb (g_smc_epoch (smc s)) (idec s) p w Hc Hp) as Hd.
  destruct (decode_inst _ _ _ p w) as [e c]. destruct Hd as [He Hc'].
  assert (inw 64 w) by (eapply inw_mono; [|done]; lia).
  cbv [modify]. destruct (Z.eqb_spec (ic_pc e) 0) as [E|E].
  - split; [done|]. split; [by split|done].
  - split; [done|]. split; [apply mem_ok_ret|]. split; [done|]. exists w. split_and!; try done.
    by rewrite <- (proj2 He).
Qed.

Lemma fetchInstruction_preserves va : inw 64 va -> preserves tb (B := B) (fetchInstruction tb va) fetch_ok.
Proof.
  intros Hva. unfold fetchInstruction.
  eapply preserves_bind; [by apply keeps_preserves, translate_keeps|]. intros [r p] [Hr Hp].
  apply preserves_if; intros E; [apply preserves_ret; split; [done|]; by apply negb_true_iff in E|].
  eapply preserves_bind; [apply keeps_preserves, keeps_on_mem|]. intros _ _.
  eapply preserves_bind; [by apply keeps_preserves, (keeps_gets _ (fun _ => True))|]. intros memsz _.
  apply preserves_if; intros Eoob; [by apply preserves_ret|].
  assert (p <> 0) as Hp0.
  { intros ->. unfold fetch_oob, RAM_BASE in Eoob. done. }
  eapply preserves_bind; [apply keeps_preserves, (keeps_fetch 2)|]. intros lo Hlo.
  apply (preserves_bind _ _ _ fetched_ok).
  { apply preserves_if; intros _; [apply preserves_ret; eapply inw_mono; [|exact Hlo]; cbn; lia|].
    apply preserves_if; intros _.
    { eapply preserves_bind; [apply keeps_preserves, (keeps_fetch 4)|]. intros w Hw. by apply preserves_ret. }
    eapply preserves_bind; [apply keeps_preserves, translate_keeps; by apply uN_inw|]. intros [r2 p2] [Hr2 Hp2].
    apply preserves_if; intros E2; [apply preserves_ret; split; [done|]; by apply negb_true_iff in E2|].
    eapply preserves_bind; [by apply keeps_preserves, (keeps_gets _ (fun _ => True))|]. intros memsz2 _.
    apply preserves_if; intros _; [apply preserves_ret; split; [|done]; split; [done|by apply uN_inw]|].
    eapply preserves_bind; [apply keeps_preserves, (keeps_fetch 2)|]. intros hi Hhi. apply preserves_ret.
    apply inw_lor; [lia|eapply inw_mono; [|exact Hlo]; cbn; lia|].
    destruct Hhi as [Hh0 Hh1]. change (2 ^ (8 * Z.of_nat 2)) with 65536 in Hh1.
    rewrite Z.shiftl_mul_pow2 by lia. split; lia. }
  intros [f|w] Hf; [destruct Hf; by apply preserves_ret|]. by apply fetch_decode_preserves.
Qed.
End fetch.

(** ** The step *)

Lemma decode_data_ok w im : inw 32 w -> inw 64 im -> data_ok (decode_data w im).
Proof.
  intros Hw Hi. split; [done|]. split; [done|]. cbn [rs1 decode_data]. unfold d_rs1.
  apply (bf_get_range w 15 5). lia.
Qed.

Lemma check_ints_wf : hoare hart_wf check_ints (fun _ => hart_wf).
Proof.
  intros h Hh. unfold check_ints. cbv zeta.
  assert (forall x, inw 64 x -> inw 64 (highest_bit x)) as Hb.
  { intros x [Hx Hx']. unfold highest_bit. split; [apply Z.log2_nonneg|].
    pose proof (Z.log2_le_lin x Hx). lia. }
  assert (forall c, inw 64 c -> match (_ ← trap c 0 true; mret true) h with Ret (_, h') => hart_wf h' | _ => True end) as Ht.
  { intros c Hc. apply (hoare_bind hart_wf _ _ (fun _ => hart_wf)); [apply trap_wf; [done|by apply inw_0]| |done].
    intros []. by apply hoare_ret. }
  split_ifs; first [exact Hh | apply Ht, Hb].
  - apply inw_land; [lia| |apply not64_inw]. apply inw_land; auto with rvw. apply Hh.
  - rewrite Z.land_comm. apply inw_land; [lia| |].
    + apply inw_land; [lia|auto with rvw|by vm_compute].
    + apply Z.land_nonneg. left. apply Z.land_nonneg. right. by vm_compute.
Qed.

Section step.
Context {B : Type} `{BusLaws B}.

Lemma table_imm (l : list (Instr B)) ps ls k w : Forall instr_keeps l -> inw 32 w ->
  inw 64 (imm_of (mkTable ps (i_imm <$> l) ls) k w).
Proof.
  intros Hl Hw. unfold imm_of. cbn [imm_funcs]. rewrite list_lookup_fmap.
  destruct (l !! k) as [i|] eqn:E; [|by apply inw_0]. cbn [fmap option_fmap option_map].
  pose proof (Forall_lookup_1 _ _ _ _ Hl E) as [_ Hf].
  destruct (i_imm i); [by apply Hf|by apply inw_0].
Qed.

Lemma imm_of_inw tb k w : init_all_instrs (B := B) = Some tb -> inw 32 w -> inw 64 (imm_of tb k w).
Proof.
  intros Htb Hw. destruct (make_table_spec _ _ (patterns_parse (B := B)) patterns_ok) as (ls & Hi & _).
  rewrite (inj Some _ _ (eq_trans (eq_sym Htb) Hi)).
  apply table_imm; [apply instructions_keep|done].
Qed.

Lemma single_inst_keeps tb e w : (forall k, inw 64 (imm_of tb k w)) -> inw 32 w -> entry_ok tb w e -> keeps (B := B) (single_inst e) exec_ret_ok.
Proof.
  intros Hi Hw [He _]. unfold single_inst. destruct (ic_inst e) as [k|] eqn:Ek; [|apply keeps_undef].
  cbn [mbind option_bind]. destruct (instructions !! k) as [i|] eqn:Ei; [|apply keeps_undef].
  pose proof (Forall_lookup_1 _ _ _ _ instructions_keep Ei) as [Hf _]. apply Hf.
  unfold pure_decode in He. injection He as Hk Hd. rewrite Hd, <- Hk.
  apply decode_data_ok; [done|]. apply Hi.
Qed.

Lemma retire_keeps out : exec_ret_ok out -> keeps (B := B) (retire out) (fun _ => True).
Proof.
  intros (Hc & Ht & Hi). apply keeps_if; intros _; [by apply keeps_trap|].
  apply keeps_mod_hart. intros h Hh. cbv zeta. auto with rvw.
Qed.

Lemma poll_ints_keeps : keeps (B := B) poll_ints (fun _ => True).
Proof.
  kbind; [by apply keeps_gets|]. intros h _. apply keeps_if; intros _; [|by apply keeps_ret].
  kbind; [|by intros; apply keeps_ret]. apply keeps_on_hart.
  eapply hoare_weaken; [apply check_ints_wf|done|]. by intros a h'.
Qed.

Section tick.
Context (tb : DecTable).
Hypothesis Himm : forall k w, inw 32 w -> inw 64 (imm_of tb k w).

Lemma run_inst_preserves : preserves tb (B := B) (run_inst tb) (fun _ => True).
Proof.
  eapply preserves_bind; [apply keeps_preserves, keeps_pc|]. intros va Hva.
  eapply preserves_bind; [by apply fetchInstruction_preserves|]. intros [[r p] [e|]] [Hr He]; cbn in Hr, He.
  - destruct He as (-> & w & Hw & _ & He). apply keeps_preserves.
    eapply keeps_bind; [by eapply single_inst_keeps; [intros; by apply Himm|..]|]. apply retire_keeps.
  - rewrite He. destruct Hr. by apply keeps_preserves, keeps_trap.
Qed.

Lemma tick_preserves : preserves tb (B := B) (tick tb) (fun _ => True).
Proof.
  apply (preserves_bind _ _ _ (fun _ => True)).
  { apply keeps_preserves, keeps_mod_hart. intros. apply put_gpr_wf; [done|by apply inw_0]. }
  intros _ _. apply (preserves_bind _ _ _ (fun _ => True)).
  { apply keeps_preserves, keeps_mod_hart. auto with rvw. }
  intros _ _. apply (preserves_bind _ _ _ (fun _ => True)); [apply keeps_preserves, poll_ints_keeps|].
  intros _ _. apply (preserves_bind _ _ _ (fun _ => True)); [by apply keeps_preserves, keeps_gets|].
  intros h _. apply preserves_if; intros _; [|apply run_inst_preserves].
  apply preserves_if; intros _; [|by apply preserves_ret].
  apply keeps_preserves, keeps_mod_hart. auto with rvw.
Qed.
End tick.
End step.

(** ** Fetch *)

Section fetch_spec.
Context {B : Type} `{BusOps B} (tb : DecTable).
Implicit Types s : State B.

Lemma dram_read s p n : dram_ok s -> 0 <= p - RAM_BASE -> p - RAM_BASE + Z.of_nat n <= mmio_memsize s ->
  exists v, ram_read (mmap s) (p - RAM_BASE) n = Ret v.
Proof.
  intros Hd H0 H1. destruct (dram_region s Hd) as (i & r & Hi & Hr & _ & Hs & _).
  rewrite (ram_read_region _ i r) by done. unfold reg_read, in_array.
  rewrite (proj2 (Z.leb_le 0 _)), (proj2 (Z.leb_le _ (size r))) by lia. cbn. eauto.
Qed.

Lemma fetch_oob_range memsz p : 2 <= memsz <= 2 ^ 62 ->
  fetch_oob memsz p = false <-> 0 <= p - RAM_BASE /\ p - RAM_BASE + 2 <= memsz.
Proof.
  intros Hm. unfold fetch_oob, RAM_BASE. rewrite !(uN_id 64) by (unfold inw; rewrite ?uN_id; unfold inw; lia).
  rewrite orb_false_iff, !Z.ltb_ge. lia.
Qed.

(** The end of the fetch, once the word [w] at the physical pc [p] is read. *)
Definition fetch_tail (p w : Z) : M B (MemoryReturn * Z * option InstructionCache) :=
  s ← get_st;
  let '(cache, c) := decode_inst tb (g_smc_epoch (smc s)) (idec s) p w in
  _ ← modify (set_idec c);
  if ic_pc cache =? 0
  then mret (mkMem false EXC_ILLEGAL_INSTRUCTION w, p, None)
  else mret (mem_ok, p, Some cache).

(** Run from [s], the fetch gives the decoding of [w], or an illegal
    instruction with [w] as trap value, and leaves [s1] but for the decode cache. *)
Definition fetches (va : Z) s (p w : Z) s1 : Prop :=
  exists s', s' = set_idec (idec s') s1 /\ cache_ok tb (idec s') /\
    match decode_match tb w with
    | Some k => exists e, ic_inst e = Some k /\ ic_data e = decode_data w (imm_of tb k w) /\
        fetchInstruction tb va s = Ret ((mem_ok, p, Some e), s')
    | None => fetchInstruction tb va s = Ret ((mkMem false EXC_ILLEGAL_INSTRUCTION w, p, None), s')
    end.

Lemma fetch_tail_fetches va s p w s1 : cache_ok tb (idec s1) -> RAM_BASE <= p ->
  fetchInstruction tb va s = fetch_tail p w s1 -> fetches va s p w s1.
Proof.
  intros Hc Hp E. assert (p <> 0) as Hp0 by (unfold RAM_BASE in *; lia).
  pose proof (decode_inst_ok tb (g_smc_epoch (smc s1)) (idec s1) p w Hc Hp0) as Hdec.
  unfold fetches. rewrite E. unfold fetch_tail. cbv [mbind ST_bind get_st modify].
  destruct (decode_inst tb (g_smc_epoch (smc s1)) (idec s1) p w) as [e c].
  destruct Hdec as [[He Hz] Hc']. exists (set_idec c s1). split; [done|]. split; [done|].
  unfold pure_decode in He. destruct (decode_match tb w) as [k|] eqn:Ek.
  - injection He as Hk Hdt. exists e. split; [done|]. split; [done|].
    rewrite (proj2 (Z.eqb_neq _ _)); [done|]. intros E'. by apply Hz in E'.
  - by rewrite (proj2 Hz eq_refl).
Qed.

Lemma lor_halves lo hi : inw 16 lo -> Z.lor lo (Z.shiftl hi 16) = lo + 2 ^ 16 * hi.
Proof.
  intros Hlo. rewrite (Z.mul_comm (2 ^ 16)), <- Z.shiftl_mul_pow2 by done. symmetry.
  apply Z.add_nocarry_lor. zbits i. destruct (Z.lt_ge_cases i 16).
  - by rewrite (Z.testbit_neg_r hi), andb_false_r by lia.
  - by rewrite (inw_high 16 lo).
Qed.

(** Everything a fetch needs of a state that translation reached. *)
Definition fetchable s : Prop :=
  dram_ok s /\ cache_ok tb (idec s) /\ memsize (hart s) = mmio_memsize s /\
  4096 <= mmio_memsize s <= 2 ^ 62.

Lemma fetchable_translate va s s1 r p : fetchable s -> inw 64 va ->
  translate EXEC va s = Ret ((r, p), s1) -> fetchable s1 /\ mmio_memsize s1 = mmio_memsize s.
Proof.
  intros (Hd & Hc & Hms & Hb) Hva Htr.
  pose proof (translate_frame _ _ _ _ _ _ (proj1 Hd) Hva Htr) as [Hf _].
  pose proof (dram_ok_layout _ _ (tr_frame_layout _ _ Hf) Hd) as Hd1.
  destruct Hf as (t & m & -> & _). split; [|done]. split; [done|]. by split.
Qed.

Lemma fetchable_dram s p n : fetchable s -> 0 <= p - RAM_BASE -> p - RAM_BASE + Z.of_nat n <= mmio_memsize s ->
  exists v, dram s p (Z.of_nat n) = Ret v /\ ram_read (mmap s) (p - RAM_BASE) n = Ret v /\
    inw (8 * Z.of_nat n) v.
Proof.
  intros (Hd & _) H0 H1. destruct (dram_read s p n Hd H0 H1) as [v Hv]. exists v.
  unfold dram. rewrite Nat2Z.id. split; [done|]. split; [done|].
  destruct (dram_region s Hd) as (i & rg & Hi & Hr & Hw & _).
  rewrite (ram_read_region _ i rg) in Hv by done. unfold reg_read in Hv. case_hyp Hv; [|done].
  injection Hv as <-. apply le_read_inw. apply Hw.
Qed.

Lemma ram_read_past s p n : fetchable s -> mmio_memsize s < p - RAM_BASE + Z.of_nat n ->
  ram_read (mmap s) (p - RAM_BASE) n = Undef.
Proof.
  intros (Hd & _) H1. destruct (dram_region s Hd) as (i & rg & Hi & Hr & _ & Hs & _).
  rewrite (ram_read_region _ i rg) by done. unfold reg_read, in_array.
  rewrite (proj2 (Z.leb_gt _ (size rg))) by lia. by rewrite andb_false_r.
Qed.

Lemma fetchable_deref s : fetchable s -> exists rg, deref (mmap s) (ram_direct (mmap s)) = Ret rg.
Proof.
  intros (Hd & _). destruct (dram_region s Hd) as (i & rg & Hi & Hr & _).
  exists rg. by apply (deref_ram _ i).
Qed.

(** C20: instruction fetch. A failed translation of the pc is returned as the
    fault it is; a physical address outside RAM is an instruction access
    fault. Otherwise the two bytes there are read; a compressed instruction is
    decoded from them, and a 32-bit one from the four bytes there, or, when it
    starts in the last two bytes of its page, from those two and the two bytes
    at the translation of the next page, whose fault, or access fault, the
    fetch returns. The result is the decoding of that word, or an illegal
    instruction with the word as trap value when no instruction matches it,
    whatever the decode cache holds; only the decode cache changes. Four bytes
    that are not all in RAM are read past the end of its array. *)
Theorem fetch_correct va s s1 r p : inv tb s -> dram_ok s -> inw 64 va ->
  memsize (hart s) = mmio_memsize s -> 4096 <= mmio_memsize s ->
  translate EXEC va s = Ret ((r, p), s1) ->
  let inside q := 0 <= q - RAM_BASE /\ q - RAM_BASE + 2 <= mmio_memsize s in
  (mr_success r = false -> fetchInstruction tb va s = Ret ((r, p, None), s1)) /\
  (mr_success r = true -> ~ inside p ->
     fetchInstruction tb va s = Ret ((mkMem false EXC_INST_ACCESS_FAULT va, p, None), s1)) /\
  (mr_success r = true -> inside p ->
     exists lo, dram s1 p 2 = Ret lo /\
     (lo mod 4 <> 3 -> fetches va s p lo s1) /\
     (lo mod 4 = 3 -> va mod 4096 <= 0xFFC ->
        (p - RAM_BASE + 4 <= mmio_memsize s -> exists w, dram s1 p 4 = Ret w /\ fetches va s p w s1) /\
        (mmio_memsize s < p - RAM_BASE + 4 -> fetchInstruction tb va s = Undef)) /\
     (lo mod 4 = 3 -> 0xFFC < va mod 4096 ->
        match translate EXEC (u64 (va + 2)) s1 with
        | Ret ((r2, p2), s2) =>
            (mr_success r2 = false -> fetchInstruction tb va s = Ret ((r2, p, None), s2)) /\
            (mr_success r2 = true -> ~ inside p2 -> fetchInstruction tb va s =
               Ret ((mkMem false EXC_INST_ACCESS_FAULT (u64 (va + 2)), p, None), s2)) /\
            (mr_success r2 = true -> inside p2 ->
               exists hi, dram s2 p2 2 = Ret hi /\ fetches va s p (lo + 2 ^ 16 * hi) s2)
        | Throw e => fetchInstruction tb va s = Throw e
        | Undef => fetchInstruction tb va s = Undef
        end)).
Proof.
  intros [Hwf Hc] Hd Hva Hms Hbig Htr inside.
  assert (mmio_memsize s <= 2 ^ 62) as Hle by (destruct (dram_region s Hd) as (? & ? & ? & ? & ? & ? & ?); lia).
  destruct (fetchable_translate va s s1 r p ltac:(by split_and!) Hva Htr) as [Hf1 Hmm1].
  destruct (fetchable_deref s1 Hf1) as [rg Hder].
  pose proof Hf1 as (_ & Hc1 & Hms1 & Hb1).
  assert (forall q, fetch_oob (mmio_memsize s) q = false <-> inside q) as Hoob.
  { intros q. apply fetch_oob_range. lia. }
  split; [|split].
  - intros Hn. unfold fetchInstruction. cbv [mbind ST_bind]. rewrite Htr. by rewrite Hn.
  - intros Hn Hout. unfold fetchInstruction, on_mem. cbv [mbind ST_bind gets]. rewrite Htr, Hn. cbn [negb].
    rewrite Hder, Hms1, Hmm1. destruct (fetch_oob (mmio_memsize s) p) eqn:E; [done|].
    by destruct Hout; apply Hoob.
  - intros Hn Hin. pose proof (proj2 (Hoob p) Hin) as Eoob. destruct Hin as [Hi0 Hi1].
    destruct (fetchable_dram s1 p 2 Hf1) as (lo & Hdl & Hlo & Hwlo); [lia..|].
    assert (RAM_BASE <= p) as Hp by lia. exists lo. split; [exact Hdl|].
    assert (Z.land lo 0x3 = lo mod 4) as E3 by (by apply (Z.land_ones lo 2)).
    assert (Z.land va 0xFFF = va mod 4096) as EF by (by apply (Z.land_ones va 12)).
    assert (forall q, p = q -> fetchInstruction tb va s =
      (fetched ←
         (if negb (lo mod 4 =? 3) then mret (inr lo)
          else if va mod 4096 <=? 0xFFC then w ← fetch32 q; mret (inr w)
          else
            '(ret2, phys_pc2) ← translate EXEC (u64 (va + 2));
            if negb (mr_success ret2) then mret (inl ret2) else
            memsz ← gets (fun s => memsize (hart s));
            if fetch_oob memsz phys_pc2
            then mret (inl (mkMem false EXC_INST_ACCESS_FAULT (u64 (va + 2)))) else
            hi ← fetch16 phys_pc2;
            mret (inr (Z.lor lo (Z.shiftl hi 16))));
       match (fetched : MemoryReturn + Z) with
       | inl r => mret (r, q, None)
       | inr w => fetch_tail q w
       end) s1) as E.
    { intros q <-. rewrite <- E3, <- EF. unfold fetchInstruction, on_mem, fetch16, fetch32, on_mem. cbv [mbind ST_bind gets].
      rewrite Htr, Hn. cbn [negb]. by rewrite Hder, Hms1, Hmm1, Eoob, Hlo. }
    specialize (E p eq_refl). split_and!.
    + intros H3. apply fetch_tail_fetches; [done..|]. rewrite E, (proj2 (Z.eqb_neq _ _) H3). done.
    + intros H3 Hpg. rewrite H3, (proj2 (Z.leb_le _ _) Hpg) in E. split.
      * intros H4. destruct (fetchable_dram s1 p 4 Hf1) as (w & Hdw & Hw & _); [lia..|].
        exists w. split; [exact Hdw|]. apply fetch_tail_fetches; [done..|]. rewrite E.
        unfold fetch32, on_mem. cbv [mbind ST_bind]. cbn [negb Z.eqb]. simpl. by rewrite Hw.
      * intros H4. rewrite E. unfold fetch32, on_mem. cbv [mbind ST_bind]. simpl.
        by rewrite ram_read_past by (done || lia).
    + intros H3 Hpg. rewrite H3, (proj2 (Z.leb_gt _ _) Hpg) in E.
      cbv [mbind ST_bind gets] in E. simpl in E.
      destruct (translate EXEC (u64 (va + 2)) s1) as [[[r2 p2] s2]|e|] eqn:Htr2; [|done..].
      destruct (fetchable_translate _ _ _ _ _ Hf1 ltac:(by apply uN_inw) Htr2) as [Hf2 Hmm2].
      pose proof Hf2 as (_ & Hc2 & Hms2 & _).
      split_and!; intros Hn2; rewrite Hn2 in E; [done|..]; simpl in E;
        rewrite Hms2, Hmm2, Hmm1 in E.
      * intros Hout. destruct (fetch_oob (mmio_memsize s) p2) eqn:Eo; [done|]. by destruct Hout; apply Hoob.
      * intros Hin2. rewrite (proj2 (Hoob p2) Hin2) in E. destruct Hin2 as [Hj0 Hj1].
        destruct (fetchable_dram s2 p2 2 Hf2) as (hi & Hdh & Hhi & Hwhi); [lia..|].
        exists hi. split; [exact Hdh|]. apply fetch_tail_fetches; [done..|]. rewrite E.
        unfold fetch16, on_mem. rewrite Hhi. cbv [mret ST_ret]. by rewrite lor_halves.
Qed.
End fetch_spec.
