(* ===== verification/Precise.v ===== *)
(** * Precise traps

    Every handler of the instruction table that reports a failure leaves the
    architectural registers as they were, so that the trap [tick] takes records
    the address of the instruction that failed and the program resumes from
    it. *)

From Stdlib Require Import Strings.String.
From S2P Require Import Prelude Defs MemoryMap SelfMod Tlb Decode Lut Hart State Mmu Mmio.
From S2P Require Import Rv64i Rv64m Rv64a Rv64c Zb Priv Zicsr Isa Exec.

(** A handler that fails only before it changes a register. *)
Definition clean {B} (m : M B ExecReturn) : Prop :=
  forall x h, hoare (fun s => st_inv x s /\ same_arch h (hart s)) m
                (fun r s => er_success r = false -> same_arch h (hart s)).

(** A program that never reports a failure. *)
Definition succeeds {B} (m : M B ExecReturn) : Prop :=
  hoare (fun _ => True) m (fun r _ => er_success r = true).

Section clean.
Context {B : Type} `{BusLaws B}.

Lemma clean_bind {A} (m : M B A) (f : A -> M B ExecReturn) (R : A -> Prop) :
  framed m R -> (forall a, R a -> clean (f a)) -> clean (m ≫= f).
Proof. intros Hm Hf x h. eapply hoare_bind; [apply Hm|]. intros a s [Hs Ha]. by apply (Hf a Ha x h). Qed.

Lemma clean_ret r : clean (B := B) (mret r).
Proof. intros x h s [_ Hs] _. exact Hs. Qed.

Lemma clean_if (b : bool) (m1 m2 : M B ExecReturn) :
  (b = true -> clean m1) -> (b = false -> clean m2) -> clean (if b then m1 else m2).
Proof. by destruct b; auto. Qed.

Lemma clean_undef : clean (B := B) undef.
Proof. done. Qed.

Lemma clean_throw e : clean (B := B) (throw e).
Proof. done. Qed.

Lemma succeeds_clean (m : M B ExecReturn) : succeeds m -> clean m.
Proof.
  intros Hm x h s _. specialize (Hm s I). destruct (m s) as [[r s']| |]; [|done..]. by rewrite Hm.
Qed.

Lemma succeeds_bind {A} (m : M B A) (f : A -> M B ExecReturn) :
  (forall a, succeeds (f a)) -> succeeds (m ≫= f).
Proof.
  intros Hf s _. cbv [mbind ST_bind]. destruct (m s) as [[a s']| |]; [|done..]. by apply Hf.
Qed.

Lemma succeeds_ret r : er_success r = true -> succeeds (B := B) (mret r).
Proof. by intros Hr s _. Qed.

(** A register update that only happens when the access succeeded. *)
Lemma clean_on_success (r : MemoryReturn) (m : M B unit) len :
  clean (_ ← (if mr_success r then m else mret tt); mret (mem_exec len r)).
Proof.
  destruct (mr_success r) eqn:E.
  - apply succeeds_clean, succeeds_bind. intros []. by apply succeeds_ret.
  - eapply (clean_bind _ _ (fun _ => True)); [by apply framed_ret|]. intros. apply clean_ret.
Qed.

Lemma framed_pc : framed (B := B) (gets (fun s => pc (hart s))) (inw 64).
Proof. apply framed_gets. intros s [Hh _]. apply Hh. Qed.

Lemma AMO_SC_framed va sz v : inw 64 va ->
  framed (B := B) (AMO_SC va sz v) (fun _ => True).
Proof.
  intros Hva. eapply framed_bind; [by apply translate_framed|]. intros [r pa] [_ Hpa].
  apply framed_if; intros _; [by apply framed_ret|].
  fbind; [by apply framed_gets|]. intros res _. apply framed_if; intros _.
  - eapply framed_bind; [by apply write_framed|]. intros out _. apply framed_if; intros _; [by apply framed_ret|].
    fbind; [by apply framed_mod_hart; [auto with rvw|]|]. by intros; apply framed_ret.
  - fbind; [by apply framed_mod_hart; [auto with rvw|]|]. by intros; apply framed_ret.
Qed.

Lemma AMO_LR_framed va sz : inw 64 va -> is_size sz = true ->
  framed (B := B) (AMO_LR va sz) (fun _ => True).
Proof.
  intros Hva Hsz. eapply framed_bind; [by apply translate_framed|]. intros [r pa] [_ Hpa].
  apply framed_if; intros _; [by apply framed_ret|].
  eapply framed_bind; [by apply read_framed|]. intros [p v] _. apply framed_if; intros _; [by apply framed_ret|].
  fbind; [by apply framed_mod_hart; [auto with rvw|]|]. by intros; apply framed_ret.
Qed.

Lemma AMO_rmw_framed va b f : inw 64 va ->
  framed (B := B) (AMO64 va b f) (fun _ => True) /\ framed (B := B) (AMO32 va b f) (fun _ => True).
Proof.
  intros Hva.
  split; (eapply framed_bind; [by apply translate_framed|]; intros [r pa] [_ Hpa];
    apply framed_if; intros _; [by apply framed_ret|];
    eapply framed_bind; [by apply read_framed|]; intros [p v] _; apply framed_if; intros _; [by apply framed_ret|];
    eapply framed_bind; [by apply write_framed|]; intros w _; apply framed_if; intros _; by apply framed_ret).
Qed.

Lemma counter_enabled_framed n : framed (B := B) (on_hart (counter_enabled n)) (fun _ => True).
Proof.
  apply framed_hart.
  - apply keeps_on_hart. unfold counter_enabled. apply hoare_if; intros _; [by apply hoare_ret|].
    intros h Hh. done.
  - intros s a s'. unfold on_hart, counter_enabled. destruct (_ || _)%bool; by intros [= _ <-].
Qed.

Lemma csr_guard_clean d w (k : M B ExecReturn) : succeeds k -> clean (csr_guard d w k).
Proof.
  intros Hk. eapply (clean_bind _ _ (fun _ => True)); [by apply framed_gets|]. intros h _.
  apply clean_if; intros _; [apply clean_ret|].
  eapply (clean_bind _ _ (fun _ => True)); [apply counter_enabled_framed|]. intros en _.
  apply clean_if; intros _; [apply clean_ret|].
  eapply (clean_bind _ _ (fun _ => True)); [by apply framed_gets|]. intros md _.
  apply clean_if; intros _; [apply clean_ret|by apply succeeds_clean].
Qed.
End clean.

(** Follow a handler to its end: a part that never fails, or a failure with
    the registers untouched. *)
Ltac succeed_step :=
  repeat first
    [ apply succeeds_bind; intros ?
    | apply succeeds_ret; reflexivity ].

Ltac clean_step :=
  lazymatch goal with
  | |- clean (if _ then _ else _) => apply clean_if; intros ?
  | |- clean (mret _) => apply clean_ret
  | |- clean undef => apply clean_undef
  | |- clean (throw _) => apply clean_throw
  | |- clean (_ ← (if mr_success _ then _ else mret tt); mret (mem_exec _ _)) => apply clean_on_success
  | |- clean (reg _ ≫= _) => apply (clean_bind _ _ (inw 64)); [apply framed_reg|intros ? ?]
  | |- clean (gets (fun s => pc (hart s)) ≫= _) => apply (clean_bind _ _ (inw 64)); [apply framed_pc|intros ? ?]
  | |- clean (gets _ ≫= _) => eapply (clean_bind _ _ (fun _ => True)); [by apply framed_gets|intros ? _]
  | |- clean (read _ _ _ ≫= _) => eapply clean_bind; [apply read_framed; [by apply uN_inw|reflexivity]|intros [? ?] _]
  | |- clean (write _ _ _ _ ≫= _) => eapply clean_bind; [apply write_framed; by apply uN_inw|intros ? _]
  | |- clean (AMO_LR _ _ ≫= _) => eapply clean_bind; [apply AMO_LR_framed; [assumption|reflexivity]|intros [? ?] _]
  | |- clean (AMO_SC _ _ _ ≫= _) => eapply clean_bind; [apply AMO_SC_framed; assumption|intros [? ?] _]
  | |- clean (AMO64 _ _ _ ≫= _) => eapply clean_bind; [eapply proj1, AMO_rmw_framed; assumption|intros [? ?] _]
  | |- clean (AMO32 _ _ _ ≫= _) => eapply clean_bind; [eapply proj2, AMO_rmw_framed; assumption|intros [? ?] _]
  | |- clean (setreg _ _ ≫= _) => apply succeeds_clean; succeed_step
  | |- clean (mod_hart _ ≫= _) => apply succeeds_clean; succeed_step
  | |- clean (on_hart _ ≫= _) => apply succeeds_clean; succeed_step
  | |- clean (modify _ ≫= _) => apply succeeds_clean; succeed_step
  | |- clean (upd_mem _ ≫= _) => apply succeeds_clean; succeed_step
  | |- clean ((if _ then _ else _) ≫= _) => apply succeeds_clean; succeed_step
  | |- clean (match ?o with Ret _ => _ | Throw _ => _ | Undef => _ end) => destruct o
  | |- clean (csr_guard _ _ _) => apply csr_guard_clean; succeed_step
  | |- clean ?t => let h := head t in unfold h
  end.

Definition instr_clean {B} (i : Instr B) : Prop := forall d, data_ok d -> clean (i_func i d).

Section all_clean.
Context {B : Type} `{BusLaws B}.

Lemma cbo_zero_clean d : clean (B := B) (exec_cbo_zero d).
Proof.
  apply (clean_bind _ _ (inw 64)); [apply framed_reg|]. intros a Ha. cbv zeta.
  eapply clean_bind; [apply translate_framed|].
  { apply inw_land; [lia|done|apply not64_inw]. }
  intros [r pa] _. repeat clean_step.
Qed.

Ltac set_clean :=
  repeat (apply List.Forall_cons; [intros d Hd; cbn [i_func];
    lazymatch goal with
    | |- clean (exec_cbo_zero _) => apply cbo_zero_clean
    | _ => repeat clean_step
    end|]);
  apply List.Forall_nil.

Lemma instructions_clean : Forall instr_clean (instructions (B := B)).
Proof.
  unfold instructions. repeat (apply Forall_app; split).
  - unfold init_rv64i. set_clean.
  - unfold init_rv64m. set_clean.
  - unfold init_rv64a. set_clean.
  - unfold init_rv64c. set_clean.
  - unfold init_priv. set_clean.
  - unfold init_zicsr. set_clean.
  - unfold init_zifencei. set_clean.
  - unfold init_zba. set_clean.
  - unfold init_zbb. set_clean.
  - unfold init_zbc. set_clean.
  - unfold init_zbs. set_clean.
  - unfold init_zicboz. set_clean.
Qed.
End all_clean.

(** ** Traps taken by the interpreter step *)

Section precise.
Context {B : Type} `{BusLaws B}.
Implicit Types s : State B.

Lemma single_inst_fails tb e w s s2 out : (forall k, inw 64 (imm_of tb k w)) -> inw 32 w ->
  entry_ok tb w e -> st_wf s -> single_inst e s = Ret (out, s2) -> er_success out = false ->
  same_arch (hart s) (hart s2) /\ exec_ret_ok out.
Proof.
  intros Hi Hw He Hs Hr Hf.
  pose proof (single_inst_keeps tb e w Hi Hw He (sets (idec s)) s (conj Hs eq_refl)) as Hk.
  rewrite Hr in Hk. destruct Hk as [_ Hok]. split; [|done].
  destruct He as [He _]. unfold single_inst in Hr. destruct (ic_inst e) as [k|] eqn:Ek; [|done].
  cbn [mbind option_bind] in Hr. destruct (instructions !! k) as [i|] eqn:Ei; [|done].
  unfold pure_decode in He. injection He as Hk Hd.
  assert (data_ok (ic_data e)) as Hdat by (rewrite Hd, <- Hk; by apply decode_data_ok).
  pose proof (Forall_lookup_1 _ _ _ _ instructions_clean Ei _ Hdat (sets (idec s)) (hart s) s
    (conj (conj Hs eq_refl) (same_arch_refl _))) as Hc.
  rewrite Hr in Hc. by apply Hc.
Qed.

Lemma same_arch_csr h h' n : same_arch h h' -> csr_get h' n = csr_get h n.
Proof. intros (_ & _ & _ & _ & _ & _ & _ & _ & Hc & _). unfold csr_get. by rewrite Hc. Qed.

Lemma same_arch_target h h' c i : same_arch h h' -> trap_target h' c i = trap_target h c i.
Proof.
  intros Ha. pose proof Ha as (_ & _ & _ & Hm & _). unfold trap_target.
  by rewrite Hm, !(same_arch_csr _ _ _ Ha).
Qed.

(** C21: precise traps. When any decoded instruction of the table fails, the
    trap that ends the step is the one the instruction reports, taken to the
    level the delegation registers name; the saved pc is the address of that
    instruction, and the integer and floating-point registers and the count
    of retired instructions are as they were before it. *)
Theorem precise_traps tb e w s s2 out :
  init_all_instrs (B := B) = Some tb -> inw 32 w -> entry_ok tb w e -> st_wf s ->
  single_inst e s = Ret (out, s2) -> er_success out = false ->
  let m := trap_target (hart s) (er_cause out) false in
  exists h', retire out s2 = Ret (tt, set_hart h' s2) /\ mode h' = m /\
    csr_get h' (t_epc (trap_regs m)) = pc (hart s) /\
    csr_get h' (t_cause (trap_regs m)) = er_cause out /\
    csr_get h' (t_tval (trap_regs m)) = er_tval out /\
    GPR h' = GPR (hart s) /\ FPR h' = FPR (hart s) /\ instret h' = instret (hart s).
Proof.
  intros Htb Hw He Hs Hr Hf m. pose proof (fun k => imm_of_inw tb k w Htb Hw) as Hi. clear Htb.
  destruct (single_inst_fails tb e w s s2 out Hi Hw He Hs Hr Hf) as [Ha (Hc & _)].
  exists (enter m (er_cause out) (er_tval out) false (hart s2)).
  pose proof (enter_csrs m (er_cause out) (er_tval out) false (hart s2)) as (E1 & E2 & E3 & _).
  rewrite E1, E2, E3. pose proof Ha as (Hg & Hfp & Hpc & Hm & Hrest).
  split; [|split_and!; try done].
  - unfold retire, on_hart. rewrite Hf. cbn [negb]. rewrite trap_enter by lia.
    by rewrite (same_arch_target (hart s)).
  - by destruct Hrest as (_ & _ & _ & _ & _ & ?).
Qed.

(** [n] steps. *)
Fixpoint ticks (tb : DecTable) (n : nat) : M B unit :=
  match n with O => mret tt | S n' => _ ← tick tb; ticks tb n' end.

Lemma ticks_preserve tb n : (forall k w, inw 32 w -> inw 64 (imm_of tb k w)) ->
  preserves tb (ticks tb n) (fun _ => True).
Proof.
  intros Hi. induction n as [|n IH]; cbn [ticks]; [by apply preserves_ret|].
  eapply preserves_bind; [by apply tick_preserves|]. done.
Qed.

(** C22: the invariant of the machine: however many steps a hart takes, with any
    devices that keep to their interface, every register, CSR, TLB entry and
    byte of memory holds a value of its type and the decode cache holds only
    decodings of instruction words. *)
Theorem ticks_invariant tb n s s' : init_all_instrs (B := B) = Some tb -> inv tb s ->
  ticks tb n s = Ret (tt, s') -> inv tb s'.
Proof.
  intros Htb Hs Hr. pose proof (fun k w => imm_of_inw tb k w Htb) as Hi. clear Htb.
  pose proof (ticks_preserve tb n Hi s Hs) as Hp. rewrite Hr in Hp. by destruct Hp.
Qed.

(** A floating-point CSR read while the FPU is off traps inside
    [csr_read], and the handler then reports success: the step leaves the
    hart at the trap vector plus 4 instead of at the vector. *)
Lemma fcsr_off_skips_vector d s : mode (hart s) = Machine -> imm d = CSR_FFLAGS -> rs1 d = 0 ->
  getf (status (hart s)) Status.FS = 0 ->
  exists s1 s2, exec_CSRRS d s = Ret (exec_ok, s1) /\ retire exec_ok s1 = Ret (tt, s2) /\
    csr_get (hart s2) CSR_MCAUSE = EXC_ILLEGAL_INSTRUCTION /\
    pc (hart s2) = u64 (u64 (Z.land (csr_get (hart s) CSR_MTVEC) (not64 3) + 0) + 4).
Proof.
  intros Hm Hi Hr Hfs.
  assert (csr_read CSR_FFLAGS (hart s) = Ret (0, enter Machine EXC_ILLEGAL_INSTRUCTION CSR_FFLAGS false (hart s))) as Hread.
  { change (csr_read CSR_FFLAGS (hart s)) with
      (with_fs CSR_FFLAGS 0 (gets (fun h => getf (fcsr h) Fcsr.fflags)) (hart s)).
    unfold with_fs. rewrite Hfs. cbv [mbind ST_bind]. change (0 =? 0) with true. cbv iota.
    rewrite trap_enter by done. unfold trap_target. by rewrite Hm. }
  pose proof (enter_csrs Machine EXC_ILLEGAL_INSTRUCTION CSR_FFLAGS false (hart s)) as (_ & Hc & _).
  assert (pc (enter Machine EXC_ILLEGAL_INSTRUCTION CSR_FFLAGS false (hart s)) =
    u64 (Z.land (csr_get (hart s) CSR_MTVEC) (not64 3) + 0)) as Hpc.
  { unfold enter. cbn [pc set_pc put_status set_status csr_put set_csrs]. by rewrite andb_false_r. }
  rewrite <- Hpc. generalize dependent (enter Machine EXC_ILLEGAL_INSTRUCTION CSR_FFLAGS false (hart s)).
  intros h1 Hread Hc _. cbn [t_cause trap_regs b2z] in Hc.
  exists (set_hart (put_gpr (rd d) 0 h1) s),
    (set_hart (set_pc (u64 (pc h1 + 4)) (set_instret (u64 (instret h1 + 1)) (put_gpr (rd d) 0 h1))) s).
  split; [|split; [reflexivity|split; [exact Hc|reflexivity]]].
  unfold exec_CSRRS. rewrite csr_guard_ok; [|by rewrite Hi|by rewrite Hm|by rewrite Hi| |].
  - rewrite Hr, Hi. change (u16 CSR_FFLAGS) with CSR_FFLAGS. unfold on_hart. cbv [mbind ST_bind].
    rewrite Hread. reflexivity.
  - by rewrite Hi.
  - by rewrite Hi, Hm, Hr.
Qed.
End precise.
