(* ===== verification/Counters.v ===== *)
(** * The counters and the rest of the hart

    Outside the CSR instructions no part of the emulator reads or writes
    [cycle] and [instret]: running a program from a state with other counter
    values gives the same result and the same state, again with the other
    values. The dispatcher of [block.cpp] relies on it: it adds to the
    counters once per block. *)

From Stdlib Require Import Strings.String.
From S2P Require Import Prelude Defs MemoryMap SelfMod Tlb Decode Lut Hart State Mmu Mmio.
From S2P Require Import Rv64i Rv64m Rv64a Rv64c Zb Priv Zicsr Isa Exec.

(** The hart and the state with the counters set to [c] and [i]. *)
Definition cnt (c i : Z) (h : Hart) : Hart := set_instret i (set_cycle c h).
Definition recount {B} (c i : Z) (s : State B) : State B := set_hart (cnt c i (hart s)) s.

(** [m'] run with counters [c], [i] does what [m] does. *)
Definition csim {B A A'} (c i : Z) (R : A -> A' -> Prop) (m : M B A) (m' : M B A') : Prop :=
  forall s, match m s, m' (recount c i s) with
            | Ret (a, s1), Ret (a', s1') => R a a' /\ s1' = recount c i s1
            | Throw e, Throw e' => e = e'
            | Undef, Undef => True
            | _, _ => False
            end.

(** Devices that do not look at the counters. *)
Class BusQuiet (B : Type) `{BusOps B} := {
  dev_read_csim : forall c i k a sz, csim c i eq (dev_read k a sz) (dev_read k a sz);
  dev_write_csim : forall c i k a sz v, csim c i eq (dev_write k a sz v) (dev_write k a sz v) }.

Section rules.
Context {B : Type} (c i : Z).
Implicit Types s : State B.

Lemma csim_ret {A A'} (R : A -> A' -> Prop) a a' : R a a' -> csim (B := B) c i R (mret a) (mret a').
Proof. by intros Ha s. Qed.

Lemma csim_bind {A A' C C'} (R : A -> A' -> Prop) (Q : C -> C' -> Prop) (m : M B A) (m' : M B A') f f' :
  csim c i R m m' -> (forall a a', R a a' -> csim c i Q (f a) (f' a')) -> csim c i Q (m ≫= f) (m' ≫= f').
Proof.
  intros Hm Hf s. specialize (Hm s). cbv [mbind ST_bind].
  destruct (m s) as [[a s1]|e|], (m' (recount c i s)) as [[a' s1']|e'|]; try done.
  destruct Hm as [Ha ->]. by apply Hf.
Qed.

Lemma csim_gets {A} (f : State B -> A) : (forall s, f (recount c i s) = f s) -> csim c i eq (gets f) (gets f).
Proof. intros Hf s. cbv [gets]. by rewrite Hf. Qed.

Lemma csim_gets_hart : csim (B := B) c i (fun h h' => h' = cnt c i h) (gets hart) (gets hart).
Proof. by intros s. Qed.

Lemma csim_get_st : csim (B := B) c i (fun s s' => s' = recount c i s) get_st get_st.
Proof. by intros s. Qed.

Lemma csim_modify (f : State B -> State B) : (forall s, f (recount c i s) = recount c i (f s)) ->
  csim c i eq (modify f) (modify f).
Proof. intros Hf s. by split; [|rewrite Hf]. Qed.

Lemma csim_mod_hart (f : Hart -> Hart) : (forall h, f (cnt c i h) = cnt c i (f h)) ->
  csim (B := B) c i eq (mod_hart f) (mod_hart f).
Proof. intros Hf. apply csim_modify. intros s. unfold recount. cbn [hart set_hart]. by rewrite Hf. Qed.

Lemma csim_on_hart {A} (m : ST Hart A) :
  (forall h, m (cnt c i h) = match m h with Ret (a, h1) => Ret (a, cnt c i h1) | Throw e => Throw e | Undef => Undef end) ->
  csim (B := B) c i eq (on_hart m) (on_hart m).
Proof.
  intros Hm s. unfold on_hart. change (hart (recount c i s)) with (cnt c i (hart s)). rewrite Hm.
  destruct (m (hart s)) as [[a h1]|e|]; [split; reflexivity|reflexivity|exact I].
Qed.

Lemma csim_on_mem {A} (f : MemoryMap -> outcome A) : csim (B := B) c i eq (on_mem f) (on_mem f).
Proof. intros s. unfold on_mem. cbn [mmap recount set_hart]. by destruct (f (mmap s)). Qed.

Lemma csim_upd_mem (f : MemoryMap -> outcome MemoryMap) : csim (B := B) c i eq (upd_mem f) (upd_mem f).
Proof. intros s. unfold upd_mem. cbn [mmap recount set_hart]. by destruct (f (mmap s)). Qed.

Lemma csim_undef {A A'} (R : A -> A' -> Prop) : csim (B := B) c i R undef undef.
Proof. by intros s. Qed.
Lemma csim_throw {A A'} (R : A -> A' -> Prop) e : csim (B := B) c i R (throw e) (throw e).
Proof. by intros s. Qed.

Lemma csim_if {A A'} (R : A -> A' -> Prop) (b : bool) (m1 m2 : M B A) (m1' m2' : M B A') :
  csim c i R m1 m1' -> csim c i R m2 m2' -> csim c i R (if b then m1 else m2) (if b then m1' else m2').
Proof. by destruct b. Qed.

(** A program that does not look at the counters does not change them. *)
Lemma csim_counters {A} (m : M B A) s a s1 : (forall c i, csim c i eq m m) -> m s = Ret (a, s1) ->
  cycle (hart s1) = cycle (hart s) /\ instret (hart s1) = instret (hart s).
Proof.
  intros Hm Hr. specialize (Hm (cycle (hart s)) (instret (hart s)) s).
  assert (recount (cycle (hart s)) (instret (hart s)) s = s) as E by (by destruct s as [[] ? ? ? ? ?]).
  rewrite E, Hr in Hm. destruct Hm as [_ Hm]. rewrite Hm. done.
Qed.
End rules.

(** ** Every program but the CSR instructions *)

(** The side conditions hold by computation on the record, after a case
    distinction where the update has a condition. *)
Ltac cnt_eq :=
  first [reflexivity
        | intros []; unfold amo_check_reservation, mret_mode; cbn; repeat case_match; reflexivity].

Ltac csim_prim :=
  lazymatch goal with
  | |- csim _ _ _ (reg _) _ => apply csim_gets; reflexivity
  | |- csim _ _ _ (setreg _ _) _ => apply csim_mod_hart; reflexivity
  | |- csim _ _ _ (gets _) _ => apply csim_gets; reflexivity
  | |- csim _ _ _ (mod_hart _) _ => apply csim_mod_hart; cnt_eq
  | |- csim _ _ _ (modify _) _ => apply csim_modify; reflexivity
  | |- csim _ _ _ (on_mem _) _ => apply csim_on_mem
  | |- csim _ _ _ (upd_mem _) _ => apply csim_upd_mem
  | |- csim _ _ _ (dev_read _ _ _) _ => apply dev_read_csim
  | |- csim _ _ _ (dev_write _ _ _ _) _ => apply dev_write_csim
  end.

(** Walk through a program; [more] handles the calls already proved. *)
Ltac csim_with more :=
  lazymatch goal with
  | |- csim _ _ _ (mret _) _ => apply csim_ret; reflexivity
  | |- csim _ _ _ undef _ => apply csim_undef
  | |- csim _ _ _ (throw _) _ => apply csim_throw
  | |- csim _ _ _ (if _ then _ else _) _ => apply csim_if
  | |- csim _ _ _ (mbind _ (gets hart)) _ => eapply csim_bind; [apply csim_gets_hart|intros ? ? ->]
  | |- csim _ _ _ (mbind _ get_st) _ => eapply csim_bind; [apply csim_get_st|intros ? ? ->]
  | |- csim ?c ?i _ (mbind _ _) _ =>
      apply (csim_bind c i eq); [solve [repeat csim_with more]|intros ? ? <-]
  | |- csim _ _ _ (match ?o with _ => _ end) _ => destruct o
  | |- csim _ _ _ ?t _ => first [csim_prim | more | let h := head t in unfold h]
  end.
Ltac csim_step := csim_with fail.

Section all.
Context {B : Type} `{BusOps B} `{!BusQuiet B} (c i : Z).

Lemma translate_csim type va : csim (B := B) c i eq (translate type va) (translate type va).
Proof.
  unfold translate. eapply csim_bind; [apply csim_get_st|]. intros s s' ->. cbv zeta.
  apply csim_if.
  - eapply csim_bind; [apply csim_modify; reflexivity|]. intros ? ? ?; subst. by apply csim_ret.
  - change (hart (recount c i s)) with (cnt c i (hart s)). change (tlb (cnt c i (hart s))) with (tlb (hart s)).
    change (satp (cnt c i (hart s))) with (satp (hart s)). change (status (cnt c i (hart s))) with (status (hart s)).
    change (get_effective_mode (cnt c i (hart s)) type) with (get_effective_mode (hart s) type).
    destruct (tlb_lookup _ _ _ _ _ _ _); [by apply csim_ret|]. apply csim_if; [|apply csim_throw].
    unfold translate_impl. repeat csim_step.
Qed.

Lemma phys_write_csim pa sz v : csim (B := B) c i eq (phys_write pa sz v) (phys_write pa sz v).
Proof.
  unfold phys_write. eapply csim_bind; [apply csim_get_st|]. intros s s' ->. apply csim_if; [repeat csim_step|].
  change (dev_ranges (bus (recount c i s))) with (dev_ranges (bus s)).
  destruct (find_dev (dev_ranges (bus s)) 0 pa sz); repeat csim_step.
Qed.

Lemma phys_read_csim pa sz : csim (B := B) c i eq (phys_read pa sz) (phys_read pa sz).
Proof.
  unfold phys_read. eapply csim_bind; [apply csim_get_st|]. intros s s' ->. apply csim_if; [repeat csim_step|].
  change (dev_ranges (bus (recount c i s))) with (dev_ranges (bus s)).
  destruct (find_dev (dev_ranges (bus s)) 0 pa sz); repeat csim_step.
Qed.
End all.

(** Accesses through the memory controller, then the handlers. *)
Ltac csim_mem := idtac;
  lazymatch goal with
  | |- csim _ _ _ (translate _ _) _ => apply translate_csim
  | |- csim _ _ _ (phys_write _ _ _) _ => apply phys_write_csim
  | |- csim _ _ _ (phys_read _ _) _ => apply phys_read_csim
  end.

Ltac csim_walk := csim_with csim_mem.

Section handlers.
Context {B : Type} `{BusOps B} `{!BusQuiet B} (c i : Z).

Lemma write_csim a sz v p : csim (B := B) c i eq (write a sz v p) (write a sz v p).
Proof.
  unfold write. repeat csim_walk.
Qed.

Lemma read_csim a sz p : csim (B := B) c i eq (read a sz p) (read a sz p).
Proof. unfold read. repeat csim_walk. Qed.
End handlers.

Ltac csim_call := idtac;
  lazymatch goal with
  | |- csim _ _ _ (write _ _ _ _) _ => apply write_csim
  | |- csim _ _ _ (read _ _ _) _ => apply read_csim
  | |- csim _ _ _ (on_hart (csr_read _)) _ => apply csim_on_hart; reflexivity
  | |- _ => csim_mem
  end.
Ltac csim_handler := csim_with csim_call.

(** A handler that does not look at the counters. *)
Definition instr_quiet {B} (x : Instr B) : Prop := forall c i d, csim c i eq (i_func x d) (i_func x d).

Ltac set_quiet :=
  repeat (apply List.Forall_cons; [intros c i d; cbn [i_func]; repeat csim_handler|]); apply List.Forall_nil.

Section quiet.
Context {B : Type} `{BusOps B} `{!BusQuiet B}.

Lemma rv64i_quiet : Forall instr_quiet (init_rv64i (B := B)).
Proof. unfold init_rv64i. set_quiet. Qed.
Lemma rv64m_quiet : Forall instr_quiet (init_rv64m (B := B)).
Proof. unfold init_rv64m. set_quiet. Qed.
Lemma rv64a_quiet : Forall instr_quiet (init_rv64a (B := B)).
Proof. unfold init_rv64a. set_quiet. Qed.
Lemma rv64c_quiet : Forall instr_quiet (init_rv64c (B := B)).
Proof. unfold init_rv64c. set_quiet. Qed.
Lemma priv_quiet : Forall instr_quiet (init_priv (B := B) ++ init_zifencei ++ init_zicboz).
Proof. unfold init_priv, init_zifencei, init_zicboz. cbn [app]. set_quiet. Qed.
Lemma zb_quiet : Forall instr_quiet (init_zba (B := B) ++ init_zbb ++ init_zbc ++ init_zbs).
Proof. unfold init_zba, init_zbb, init_zbc, init_zbs. cbn [app]. set_quiet. Qed.
End quiet.

(** ** The instruction table *)

(** The positions of the CSR instructions in the registration order. *)
Definition csr_first : nat :=
  length (init_rv64i (B := unit) ++ init_rv64m ++ init_rv64a ++ init_rv64c ++ init_priv).
Definition csr_handler (k : nat) : bool :=
  (csr_first <=? k)%nat && (k <? csr_first + length (init_zicsr (B := unit)))%nat.

Section table.
Context {B : Type} `{BusOps B} `{!BusQuiet B}.

Lemma instructions_split : instructions (B := B) =
  (init_rv64i ++ init_rv64m ++ init_rv64a ++ init_rv64c ++ init_priv) ++
  init_zicsr ++ (init_zifencei ++ init_zba ++ init_zbb ++ init_zbc ++ init_zbs ++ init_zicboz).
Proof. unfold instructions. by rewrite <- !app_assoc. Qed.

Lemma instructions_quiet k x : instructions (B := B) !! k = Some x -> csr_handler k = false -> instr_quiet x.
Proof.
  intros Hk Hc.
  pose proof (priv_quiet (B := B)) as [Hpriv [Hfi Hcb]%Forall_app]%Forall_app.
  pose proof (zb_quiet (B := B)) as [Hza [Hzb [Hzc Hzs]%Forall_app]%Forall_app]%Forall_app.
  pose proof (rv64i_quiet (B := B)). pose proof (rv64m_quiet (B := B)).
  pose proof (rv64a_quiet (B := B)). pose proof (rv64c_quiet (B := B)).
  rewrite instructions_split in Hk.
  apply lookup_app_Some in Hk as [Hk|[Hge Hk]].
  - revert Hk. apply Forall_lookup_1. repeat (apply Forall_app; split; try assumption).
  - change (length _) with csr_first in Hge, Hk. apply lookup_app_Some in Hk as [Hk|[Hge' Hk]].
    + exfalso. apply lookup_lt_Some in Hk. change (length _) with (length (init_zicsr (B := unit))) in Hk.
      unfold csr_handler in Hc.
      apply andb_false_iff in Hc as [Hc|Hc]; [apply Nat.leb_gt in Hc|apply Nat.ltb_ge in Hc]; lia.
    + revert Hk. apply Forall_lookup_1. repeat (apply Forall_app; split; try assumption).
Qed.
End table.
