(* ===== verification/Block.v ===== *)
(** * Block execution ([src/block.cpp], [include/block_cache.hpp])

    The dispatcher [run_blocks] runs straight-line blocks of decoded
    instructions without fetching them again. It is modelled as it runs when
    the hart has no JIT context ([jctx == nullptr]): the dispatch memo
    [memo_way] is then null on every path. The block cache, shared by the harts of the machine,
    is an argument of the operations and part of their result. *)

From Stdlib Require Import Strings.String.
From S2P Require Import Prelude Defs MemoryMap SelfMod Tlb Decode Lut Hart State Mmu Mmio.
From S2P Require Import Rv64i Rv64m Rv64a Rv64c Zb Priv Zicsr Isa Exec Counters.

(** ** Blocks *)

Definition BLOCK_MAX_INSTS : nat := 16.

Record BlockInstr := mkBI { bi_inst : option nat; bi_data : InstructionData; bi_increase_pc : Z }.

Record Block := mkBlock {
  start_phys : Z;
  blk_gen : Z;
  blk_smc : Z;
  count : Z;
  last_inst : Z;
  instrs : list BlockInstr }.

(** [slots] is an array of [BC_SIZE] blocks, zero when the cache is created. *)
Record BlockCache := mkBC { bc_generation : Z; slots : gmap Z Block }.

Definition BC_SIZE : Z := Z.shiftl 1 15.

Definition block_zero : Block :=
  mkBlock 0 0 0 0 0 (replicate BLOCK_MAX_INSTS (mkBI None (mkData 0 0 0 0 0 0 0 0) 0)).

Definition bc_init : BlockCache := mkBC 1 ∅.

Definition slot_at (bc : BlockCache) (i : Z) : Block := default block_zero (slots bc !! i).

Definition put_slot (bc : BlockCache) (i : Z) (b : Block) : BlockCache :=
  mkBC (bc_generation bc) (<[i := b]> (slots bc)).

Definition bc_clear (bc : BlockCache) : BlockCache := mkBC (u64 (bc_generation bc + 1)) (slots bc).

(** [lookup]: the slot of a live block, [None] for [nullptr]. *)
Definition lookup_slot (phys : Z) : Z := Z.land (Z.shiftr phys 1) (BC_SIZE - 1).

Definition bc_lookup (bc : BlockCache) (epoch phys : Z) : option Z :=
  let b := slot_at bc (lookup_slot phys) in
  if (start_phys b =? phys) && (blk_gen b =? bc_generation bc) && (blk_smc b =? epoch)
  then Some (lookup_slot phys) else None.

Definition compile_slot (phys : Z) : Z := Z.land (Z.shiftr phys 2) (BC_SIZE - 1).

Definition writes_reg (inst : Z) : bool :=
  let op := Z.land inst 0x7F in
  (op =? 0x13) || (op =? 0x33) || (op =? 0x37) || (op =? 0x17) || (op =? 0x6F) || (op =? 0x67) || (op =? 0x03).

Definition is_block_end (inst : Z) : bool :=
  let op := Z.land inst 0x7F in
  if (op =? 0x63) || (op =? 0x6F) || (op =? 0x67) || (op =? 0x73) || (op =? 0x0F) then true
  else if negb (Z.land inst 0x3 =? 0x3) then
    if Z.land inst 0x3 =? 0x1 then
      let f3 := Z.land (Z.shiftr inst 13) 0x7 in
      (f3 =? 0x5) || (f3 =? 0x1) || (f3 =? 0x6) || (f3 =? 0x7)
    else (op =? 0x02) && (Z.land inst 0xE003 =? 0x8002)
  else false.

(** The instructions a block does not take: they would leave [x0] non-zero. *)
Definition poisons_x0 (inst : Z) : bool :=
  (Z.land inst 0x3 =? 0x3) && writes_reg inst && (Z.land (Z.shiftr inst 7) 0x1F =? 0).

Definition set_blk_count (n gen smc_ : Z) (b : Block) : Block :=
  mkBlock (start_phys b) gen smc_ n (last_inst b) (instrs b).
Definition put_instr (n : Z) (bi : BlockInstr) (w : Z) (b : Block) : Block :=
  mkBlock (start_phys b) (blk_gen b) (blk_smc b) (count b) w (<[Z.to_nat n := bi]> (instrs b)).

Section block.
Context {B : Type} `{BusOps B} (tb : DecTable).

(** [ci.inst->func(h, ci.data)]. *)
Definition block_inst (b : Block) (n : Z) : M B ExecReturn :=
  match instrs b !! Z.to_nat n with
  | Some ci =>
      match bi_inst ci ≫= (fun k => instructions !! k) with
      | Some i => i_func i (bi_data ci)
      | None => undef
      end
  | None => undef
  end.

Definition advance (r : ExecReturn) : M B unit :=
  mod_hart (fun h => set_pc (u64 (pc h + er_increase_pc r)) h).

(** The result of [run_block]: the instructions it finished, and the cause
    and trap value of the one that failed. *)
Definition BlockResult : Type := Z * option (Z * Z).

(** The loop from instruction [n]; [k] of them are left before the last. *)
Fixpoint run_loop (b : Block) (n : Z) (k : nat) : M B BlockResult :=
  match k with
  | O =>
      r ← block_inst b (u32 (count b - 1));
      if negb (er_success r) then mret (u32 (count b - 1), Some (er_cause r, er_tval r)) else
      _ ← advance r;
      mret (count b, None)
  | S k' =>
      r ← block_inst b n;
      if negb (er_success r) then mret (n, Some (er_cause r, er_tval r)) else
      _ ← advance r;
      x0 ← reg 0;
      _ ← (if negb (x0 =? 0) then setreg 0 0 else mret tt);
      run_loop b (n + 1) k'
  end.

Definition run_block (b : Block) : M B BlockResult :=
  _ ← setreg 0 0;
  run_loop b 0 (Z.to_nat (count b - 1)).

(** The loop of [compile_block]: [n] instructions taken, at most [k] more. *)
Fixpoint compile_loop (b : Block) (pc_va n : Z) (k : nat) : M B (Z * Block) :=
  match k with
  | O => mret (n, b)
  | S k' =>
      '(mr, _, cache) ← fetchInstruction tb pc_va;
      if negb (mr_success mr) then mret (n, b) else
      match cache with
      | None => undef
      | Some cache =>
          if ic_pc cache =? 0 then mret (n, b) else
          let w := inst (ic_data cache) in
          if poisons_x0 w then mret (n, b) else
          let bi := mkBI (ic_inst cache) (ic_data cache) (if Z.land w 0x3 =? 0x3 then 4 else 2) in
          let b := put_instr n bi w b in
          if is_block_end w then mret (n + 1, b)
          else compile_loop b (u64 (pc_va + bi_increase_pc bi)) (n + 1) k'
      end
  end.

(** [for(p = p0; p <= p1; p += 0x1000)] over the pages of the block. *)
Fixpoint mark_pages (p p1 : Z) (k : nat) : M B unit :=
  if negb (p <=? p1) then mret tt else
  match k with
  | O => undef
  | S k' =>
      _ ← modify (fun s => set_smc (mark_page_executed (smc s) p) s);
      _ ← mod_hart (fun h => set_tlb (note_exec (tlb h) p) h);
      mark_pages (u64 (p + 0x1000)) p1 k'
  end.

(** A block covers at most 64 bytes, so at most two pages are marked; the
    bound 3 is never reached. *)
Definition MARK_FUEL : nat := 3.

Definition compile_block (bc : BlockCache) (phys : Z) : M B (option Z * BlockCache) :=
  let i := compile_slot phys in
  let old := slot_at bc i in
  let b := mkBlock phys 0 (blk_smc old) (count old) (last_inst old) (instrs old) in
  pc_va ← gets (fun s => pc (hart s));
  '(n, b) ← compile_loop b pc_va 0 BLOCK_MAX_INSTS;
  if n =? 0 then mret (None, put_slot bc i b) else
  epoch ← gets (fun s => g_smc_epoch (smc s));
  let b := set_blk_count n (bc_generation bc) epoch b in
  _ ← mark_pages (Z.land phys (not64 0xFFF)) (Z.land (u64 (phys + n * 4)) (not64 0xFFF)) MARK_FUEL;
  mret (Some i, put_slot bc i b).

(** [(ip.raw & ie.raw) != 0 && check_ints()]. *)
Definition take_ints : M B bool :=
  h ← gets hart;
  if negb (Z.land (ip h) (ie h) =? 0) then on_hart check_ints else mret false.

(** One pass of the dispatch loop: whether it continues, the total, the cache. *)
Definition dispatch (bc : BlockCache) (total max_insts : Z) : M B (bool * Z * BlockCache) :=
  h ← gets hart;
  if WFI h then
    _ ← (if int_local_pending h then mod_hart (set_WFI false) else mret tt);
    mret (false, total, bc)
  else if max_insts <=? total then mret (false, total, bc) else
  taken ← (if Z.land (instret h) 0x2FFF =? 0 then take_ints else mret false);
  if (taken : bool) then mret (false, total, bc) else
  va ← gets (fun s => pc (hart s));
  '(mr, phys) ← translate EXEC va;
  if negb (mr_success mr) then
    _ ← on_hart (trap (mr_exc_code mr) (mr_tval mr) false);
    mret (false, total, bc)
  else
  epoch ← gets (fun s => g_smc_epoch (smc s));
  '(found, bc) ← (match bc_lookup bc epoch phys with
                  | Some i => mret (Some i, bc)
                  | None => compile_block bc phys
                  end);
  match found with
  | None =>
      _ ← tick tb;
      w ← gets (fun s => WFI (hart s));
      if (w : bool) then mret (false, total, bc) else mret (true, u64 (total + 1), bc)
  | Some i =>
      let b := slot_at bc i in
      '(executed, fault) ← run_block b;
      prev_instret ← gets (fun s => instret (hart s));
      _ ← mod_hart (fun h =>
            set_cycle (u64 (cycle h + executed)) (set_instret (u64 (instret h + executed)) h));
      let total := u64 (total + executed) in
      match fault with
      | Some (cause, tval) => _ ← on_hart (trap cause tval false); mret (false, total, bc)
      | None =>
          taken ← (if 0x3000 <=? Z.land prev_instret 0x2FFF + executed then take_ints else mret false);
          if (taken : bool) then mret (false, total, bc)
          else mret (true, total, if Z.land (last_inst b) 0x7F =? 0x0F then bc_clear bc else bc)
      end
  end.

(** The loop; [None] when [fuel] passes were not enough. *)
Fixpoint dispatch_loop (fuel : nat) (bc : BlockCache) (total max_insts : Z) : M B (option (Z * BlockCache)) :=
  match fuel with
  | O => mret None
  | S fuel' =>
      '(go, total, bc) ← dispatch bc total max_insts;
      if (go : bool) then dispatch_loop fuel' bc total max_insts else mret (Some (total, bc))
  end.

(** Each pass that continues finishes an instruction, so [max_insts + 1]
    passes are enough. *)
Definition run_blocks (bc : BlockCache) (max_insts : Z) : M B (option (Z * BlockCache)) :=
  h ← gets hart;
  if WFI h then
    _ ← (if int_local_pending h then mod_hart (set_WFI false) else mret tt);
    mret (Some (0, bc))
  else dispatch_loop (S (Z.to_nat max_insts)) bc 0 max_insts.
End block.

(** ** Well-formed blocks *)

Section block_ok.
Context (tb : DecTable).

(** An entry of a block is the decoding of an instruction word that leaves
    [x0] alone. *)
Definition instr_of (w : Z) (bi : BlockInstr) : Prop :=
  inw 32 w /\ decode_match tb w <> None /\ (bi_inst bi, bi_data bi) = pure_decode tb w /\
  poisons_x0 w = false.

(** The first [n] entries are instructions and only the last of them may end
    the block. *)
Definition instrs_ok (b : Block) (n : Z) : Prop :=
  length (instrs b) = BLOCK_MAX_INSTS /\
  forall j : nat, Z.of_nat j < n -> exists bi w, instrs b !! j = Some bi /\ instr_of w bi /\
    (Z.of_nat j + 1 < n -> is_block_end w = false).

Definition block_ok (b : Block) : Prop := 1 <= count b <= Z.of_nat BLOCK_MAX_INSTS /\ instrs_ok b (count b).

(** Every block of the cache that was ever completed is well-formed; the
    others have generation 0, which is never the cache's. *)
Definition bc_ok (bc : BlockCache) : Prop :=
  0 < bc_generation bc /\
  forall i, length (instrs (slot_at bc i)) = BLOCK_MAX_INSTS /\
    (blk_gen (slot_at bc i) = 0 \/ block_ok (slot_at bc i)).

Lemma slot_put bc i b j : slot_at (put_slot bc i b) j = if decide (i = j) then b else slot_at bc j.
Proof.
  unfold slot_at. cbn [slots put_slot]. case_decide as E; [by subst; rewrite lookup_insert_eq|].
  by rewrite lookup_insert_ne.
Qed.

Lemma bc_ok_init : bc_ok bc_init.
Proof. split; [done|]. intros i. unfold slot_at. cbn [slots bc_init]. rewrite lookup_empty. split; [done|by left]. Qed.

Lemma bc_ok_put bc i b : bc_ok bc -> length (instrs b) = BLOCK_MAX_INSTS -> blk_gen b = 0 \/ block_ok b ->
  bc_ok (put_slot bc i b).
Proof. intros [Hg Hb] Hl Hok. split; [done|]. intros j. rewrite slot_put. by case_decide. Qed.

Lemma bc_ok_clear bc : bc_ok bc -> bc_generation bc + 1 < 2 ^ 64 -> bc_ok (bc_clear bc).
Proof.
  intros [Hg Hb] Hlt. split; [|exact Hb]. cbn [bc_generation bc_clear]. rewrite uN_id; [lia|]. split; lia.
Qed.

Lemma bc_lookup_ok bc epoch phys i : bc_ok bc -> bc_lookup bc epoch phys = Some i ->
  block_ok (slot_at bc i) /\ start_phys (slot_at bc i) = phys.
Proof.
  intros [Hg Hb] Hl. unfold bc_lookup in Hl. destruct (_ && _)%bool eqn:E; [|done]. injection Hl as <-.
  bool_hyps. destruct (Hb (lookup_slot phys)) as [_ [Hz|Hok]]; [|done].
  rewrite Hz in *. lia.
Qed.

(** A block under construction: no entry ends it. *)
Definition open_ok (b : Block) (n : Z) : Prop :=
  length (instrs b) = BLOCK_MAX_INSTS /\
  forall j : nat, Z.of_nat j < n -> exists bi w, instrs b !! j = Some bi /\ instr_of w bi /\ is_block_end w = false.

Lemma open_instrs_ok b n : open_ok b n -> instrs_ok b n.
Proof. intros [Hl Hi]. split; [done|]. intros j Hj. destruct (Hi j Hj) as (bi & w & ? & ? & ?). by exists bi, w. Qed.

Lemma put_instr_ok b n bi w : open_ok b n -> 0 <= n < Z.of_nat BLOCK_MAX_INSTS -> instr_of w bi ->
  instrs_ok (put_instr n bi w b) (n + 1) /\
  (is_block_end w = false -> open_ok (put_instr n bi w b) (n + 1)).
Proof.
  intros [Hl Hi] Hn Hbi.
  assert (length (instrs (put_instr n bi w b)) = BLOCK_MAX_INSTS) as Hl' by (cbn [instrs put_instr]; by rewrite length_insert).
  assert (forall j : nat, instrs (put_instr n bi w b) !! j = if decide (Z.to_nat n = j) then Some bi else instrs b !! j) as Hlook.
  { intros j. cbn [instrs put_instr]. case_decide as E; [subst j; apply list_lookup_insert_eq; rewrite Hl; unfold BLOCK_MAX_INSTS in *; lia|].
    by apply list_lookup_insert_ne. }
  split; [|intros Hend]; (split; [done|]); intros j Hj; rewrite Hlook; case_decide as E.
  - exists bi, w. split; [done|]. split; [done|]. lia.
  - destruct (Hi j) as (x & v & ? & ? & ?); [lia|]. by exists x, v.
  - by exists bi, w.
  - destruct (Hi j) as (x & v & ? & ? & ?); [lia|]. by exists x, v.
Qed.
End block_ok.

(** ** Preservation *)

Section preserve.
Context {B : Type} `{BusLaws B} (tb : DecTable).
Hypothesis Himm : forall k w, inw 32 w -> inw 64 (imm_of tb k w).

(** A block instruction is the handler of its decode-cache entry. *)
Definition as_entry (bi : BlockInstr) : InstructionCache := mkIC 1 (bi_inst bi) (bi_data bi) 0 0.

Lemma block_inst_entry b n bi : instrs b !! Z.to_nat n = Some bi ->
  block_inst (B := B) b n = single_inst (as_entry bi).
Proof. intros Hb. unfold block_inst. rewrite Hb. reflexivity. Qed.

Lemma instr_of_entry w bi : instr_of tb w bi -> entry_ok tb w (as_entry bi).
Proof. intros (_ & Hm & Hd & _). split; [exact Hd|]. split; [discriminate|done]. Qed.

Lemma block_inst_keeps b n : block_ok tb b -> 0 <= n < count b -> keeps (B := B) (block_inst b n) exec_ret_ok.
Proof.
  intros [Hc [_ Hi]] Hn. destruct (Hi (Z.to_nat n)) as (bi & w & Hbi & Hw & _); [lia|].
  rewrite (block_inst_entry b n bi Hbi). pose proof Hw as [Hw32 _].
  apply (single_inst_keeps tb (as_entry bi) w); [intros; by apply Himm|done|by apply instr_of_entry].
Qed.

(** What [run_block] reports: all of the block, or fewer and a fault. *)
Definition result_ok (b : Block) (r : BlockResult) : Prop :=
  match r.2 with
  | None => r.1 = count b
  | Some (cause, tval) => 0 <= r.1 < count b /\ 0 <= cause < 16 /\ inw 64 tval
  end.

Lemma advance_keeps r : keeps (B := B) (advance r) (fun _ => True).
Proof. apply keeps_mod_hart. auto with rvw. Qed.

Lemma count_last b : block_ok tb b -> u32 (count b - 1) = count b - 1.
Proof. intros [Hc _]. unfold BLOCK_MAX_INSTS in Hc. apply uN_id. split; lia. Qed.

Lemma run_loop_keeps b k n : block_ok tb b -> 0 <= n -> n + Z.of_nat k = count b - 1 ->
  keeps (B := B) (run_loop b n k) (result_ok b).
Proof.
  intros Hb. revert n. induction k as [|k IH]; intros n Hn Hk; cbn [run_loop].
  - rewrite (count_last b Hb). eapply keeps_bind; [apply (block_inst_keeps b); [done|lia]|]. intros r (Hc & Ht & _).
    apply keeps_if; intros _; [apply keeps_ret; unfold result_ok; cbn [fst snd]; split_and!; try lia; apply Ht|].
    kbind; [apply advance_keeps|]. intros _ _. by apply keeps_ret.
  - eapply keeps_bind; [apply (block_inst_keeps b); [done|lia]|]. intros r (Hc & Ht & _).
    apply keeps_if; intros _; [apply keeps_ret; unfold result_ok; cbn [fst snd]; split_and!; try lia; apply Ht|].
    kbind; [apply advance_keeps|]. intros _ _. kbind; [eapply keeps_weaken; [apply keeps_reg|done]|].
    intros x0 _. kbind; [apply keeps_if; intros _; [apply keeps_setreg, inw_0; lia|by apply keeps_ret]|].
    intros _ _. apply IH; lia.
Qed.

Lemma run_block_keeps b : block_ok tb b -> keeps (B := B) (run_block b) (result_ok b).
Proof.
  intros Hb. kbind; [apply keeps_setreg, inw_0; lia|]. intros _ _. apply run_loop_keeps; [done|lia|].
  destruct Hb as [Hc _]. lia.
Qed.

(** What [compile_loop] returns. *)
Definition compiled_ok (b : Block) (n : Z) (r : Z * Block) : Prop :=
  n <= r.1 <= Z.of_nat BLOCK_MAX_INSTS /\ instrs_ok tb r.2 r.1 /\
  start_phys r.2 = start_phys b /\ blk_gen r.2 = blk_gen b.

Lemma compile_loop_preserves b va n k : open_ok tb b n -> 0 <= n -> n + Z.of_nat k = Z.of_nat BLOCK_MAX_INSTS ->
  inw 64 va -> preserves tb (B := B) (compile_loop tb b va n k) (compiled_ok b n).
Proof.
  revert b va n. induction k as [|k IH]; intros b va n Ho Hn Hk Hva; cbn [compile_loop].
  - apply preserves_ret. split; [cbn [fst]; lia|]. split; [by apply open_instrs_ok|done].
  - assert (compiled_ok b n (n, b)) as Hstop.
    { split; [cbn [fst]; lia|]. split; [by apply open_instrs_ok|done]. }
    eapply preserves_bind; [by apply fetchInstruction_preserves|]. intros [[r p] [e|]] [_ He]; cbn [fst snd] in He.
    + destruct He as (-> & w & Hw & Hm & He). cbn [negb].
      assert (inst (ic_data e) = w) as ->.
      { destruct He as [He _]. unfold pure_decode in He. injection He as _ ->. done. }
      apply preserves_if; intros _; [by apply preserves_ret|].
      apply preserves_if; intros Hx; [by apply preserves_ret|]. cbv zeta.
      set (bi := mkBI _ _ _).
      assert (instr_of tb w bi) as Hbi.
      { split; [exact Hw|]. split; [exact Hm|]. split; [apply He|exact Hx]. }
      destruct (put_instr_ok tb b n bi w Ho ltac:(lia) Hbi) as [Hput Hopen].
      apply preserves_if; intros Hend; [apply preserves_ret; split; [cbn [fst]; lia|done]|].
      eapply preserves_weaken; [apply (IH (put_instr n bi w b)); [by apply Hopen|lia|lia|by apply uN_inw]|].
      intros [n' b'] (Hr & Hi & Hs & Hg). split; [cbn [fst] in *; lia|done].
    + rewrite He. by apply preserves_ret.
Qed.

Lemma mark_pages_keeps p p1 k : keeps (B := B) (mark_pages p p1 k) (fun _ => True).
Proof.
  revert p. induction k as [|k IH]; intros p; cbn [mark_pages]; (apply keeps_if; intros _; [by apply keeps_ret|]);
    [apply keeps_undef|].
  kbind; [by intros x s Hs|]. intros _ _. kbind; [|by intros; apply IH].
  apply keeps_mod_hart. intros h Hh. apply set_tlb_wf; [done|]. unfold note_exec.
  destruct (_ && _)%bool; [exact (proj1 (tlb_ok_flush _ 0 0 (wf_tlb _ Hh)))|apply Hh].
Qed.

Lemma compile_block_preserves bc phys : bc_ok tb bc ->
  preserves tb (B := B) (compile_block tb bc phys)
    (fun r => bc_ok tb r.2 /\ bc_generation r.2 = bc_generation bc /\
              forall i, r.1 = Some i -> block_ok tb (slot_at r.2 i)).
Proof.
  intros Hbc. unfold compile_block. cbv zeta.
  eapply preserves_bind; [apply keeps_preserves, keeps_pc|]. intros va Hva.
  eapply preserves_bind; [apply compile_loop_preserves; [|lia|done|done]|].
  { split; [apply Hbc|]. intros j Hj. lia. }
  intros [n b] (Hn & Hi & Hs & Hg). cbn [fst snd instrs start_phys blk_gen] in *.
  apply preserves_if; intros Hz.
  - apply preserves_ret. split_and!; [|done|done]. apply bc_ok_put; [done|apply Hi|by left].
  - apply (preserves_bind _ _ _ (fun _ => True)); [by apply keeps_preserves, keeps_gets|]. intros epoch _.
    eapply preserves_bind; [apply keeps_preserves, mark_pages_keeps|]. intros _ _. apply preserves_ret.
    assert (block_ok tb (set_blk_count n (bc_generation bc) epoch b)) as Hok.
    { apply Z.eqb_neq in Hz. split; [cbn [count set_blk_count]; lia|exact Hi]. }
    split_and!; [apply bc_ok_put; [done|apply Hi|by right]|done|].
    intros i [= <-]. cbn [snd]. by rewrite slot_put, decide_True.
Qed.

Lemma take_ints_keeps : keeps (B := B) take_ints (fun _ => True).
Proof.
  kbind; [by apply keeps_gets|]. intros h _. apply keeps_if; intros _; [|by apply keeps_ret].
  apply keeps_on_hart. eapply hoare_weaken; [apply check_ints_wf|done|]. by intros a h'.
Qed.

Lemma wake_keeps h : keeps (B := B) (if int_local_pending h then mod_hart (set_WFI false) else mret tt) (fun _ => True).
Proof. apply keeps_if; intros _; [|by apply keeps_ret]. apply keeps_mod_hart. auto with rvw. Qed.

(** The block the dispatcher runs: one the cache holds, or a new one. *)
Lemma find_block_preserves bc epoch phys : bc_ok tb bc ->
  preserves tb (B := B) (match bc_lookup bc epoch phys with
                         | Some i => mret (Some i, bc)
                         | None => compile_block tb bc phys
                         end)
    (fun r => bc_ok tb r.2 /\ bc_generation r.2 = bc_generation bc /\
              forall i, r.1 = Some i -> block_ok tb (slot_at r.2 i)).
Proof.
  intros Hbc. destruct (bc_lookup bc epoch phys) as [i|] eqn:E; [|by apply compile_block_preserves].
  apply preserves_ret. split; [done|]. split; [done|]. intros j [= <-]. by apply (bc_lookup_ok tb bc epoch phys).
Qed.

(** A pass that continues adds between 1 and 16 instructions to a total that was
    below the maximum; one that stops adds at most 16. *)
Definition pass_ok (bc : BlockCache) (total max : Z) (r : bool * Z * BlockCache) : Prop :=
  let '(go, total', bc') := r in
  bc_ok tb bc' /\ bc_generation bc' <= bc_generation bc + 1 /\
  ((total' = total /\ go = false) \/
   (total < max /\ total <= total' <= total + Z.of_nat BLOCK_MAX_INSTS /\ (go = true -> total < total'))).

Lemma dispatch_preserves bc total max : bc_ok tb bc -> bc_generation bc + 1 < 2 ^ 64 ->
  0 <= total -> max + Z.of_nat BLOCK_MAX_INSTS < 2 ^ 64 ->
  preserves tb (B := B) (dispatch tb bc total max) (pass_ok bc total max).
Proof.
  intros Hbc Hgen Ht Hmax. assert (pass_ok bc total max (false, total, bc)) as Hstop.
  { split; [done|]. split; [lia|]. by left. }
  apply (preserves_bind _ _ _ (fun _ => True)); [by apply keeps_preserves, keeps_gets|]. intros h _.
  apply preserves_if; intros _.
  { eapply preserves_bind; [apply keeps_preserves, wake_keeps|]. intros _ _. by apply preserves_ret. }
  apply preserves_if; intros Hlt; [by apply preserves_ret|]. apply Z.leb_gt in Hlt.
  eapply preserves_bind.
  { apply keeps_preserves, keeps_if; intros _; [apply take_ints_keeps|by apply (keeps_ret _ (fun _ => True))]. }
  intros taken _. apply preserves_if; intros _; [by apply preserves_ret|].
  eapply preserves_bind; [apply keeps_preserves, keeps_pc|]. intros va Hva.
  eapply preserves_bind; [by apply keeps_preserves, translate_keeps|]. intros [r p] [[Hc Hv] Hp].
  apply preserves_if; intros _.
  { eapply preserves_bind; [by apply keeps_preserves, keeps_trap|]. intros _ _. by apply preserves_ret. }
  apply (preserves_bind _ _ _ (fun _ => True)); [by apply keeps_preserves, keeps_gets|]. intros epoch _.
  eapply preserves_bind; [by apply find_block_preserves|]. intros [[i|] bc'] (Hbc' & Hg & Hi).
  - cbn [fst snd] in *. specialize (Hi i eq_refl). pose proof Hi as [Hcnt _].
    eapply preserves_bind; [by apply keeps_preserves, run_block_keeps|]. intros [n f] Hr.
    apply (preserves_bind _ _ _ (fun _ => True)); [by apply keeps_preserves, keeps_gets|]. intros prev _.
    apply (preserves_bind _ _ _ (fun _ => True)); [by apply keeps_preserves, keeps_mod_hart; auto with rvw|]. intros _ _.
    cbv zeta. assert (0 <= n <= Z.of_nat BLOCK_MAX_INSTS) as Hn by (unfold result_ok in Hr; destruct f as [[]|]; cbn [fst snd] in Hr; lia).
    rewrite (uN_id 64) by (split; lia).
    assert (forall bc'', bc_ok tb bc'' -> bc_generation bc'' <= bc_generation bc + 1 ->
      pass_ok bc total max (false, total + n, bc'') /\ (0 < n -> pass_ok bc total max (true, total + n, bc''))) as Hpass.
    { intros bc'' Hb'' Hg''. split; [|intros]; (split; [done|]; split; [done|]); right; (split; [done|]; split; [lia|]); [done|lia]. }
    destruct f as [[cause tval]|].
    + destruct Hr as (_ & Hcause & Htval).
      eapply preserves_bind; [by apply keeps_preserves, keeps_trap|]. intros _ _. apply preserves_ret, Hpass; [done|lia].
    + eapply preserves_bind.
      { apply keeps_preserves, keeps_if; intros _; [apply take_ints_keeps|by apply (keeps_ret _ (fun _ => True))]. }
      intros taken2 _. apply preserves_if; intros _; [apply preserves_ret, Hpass; [done|lia]|].
      unfold result_ok in Hr. cbn [fst snd] in Hr. apply preserves_ret. destruct (_ =? 0x0F); (apply Hpass; [|cbn [bc_generation bc_clear]; rewrite ?uN_id; unfold inw; destruct Hbc'; lia|lia]).
      * apply bc_ok_clear; [done|lia].
      * done.
  - cbn [fst snd] in *.
    eapply preserves_bind; [by apply tick_preserves|]. intros _ _.
    apply (preserves_bind _ _ _ (fun _ => True)); [by apply keeps_preserves, keeps_gets|]. intros w _.
    unfold BLOCK_MAX_INSTS in *.
    apply preserves_if; intros _; apply preserves_ret; (split; [done|]; split; [lia|]); [by left|].
    right. rewrite uN_id by (split; lia). unfold BLOCK_MAX_INSTS. split; [done|]. split; [lia|]. intros _. lia.
Qed.

(** What [run_blocks] returns: the dispatch loop ended, the block cache is
    sound, and at most one block more than asked was run. *)
Definition blocks_ok (max gen : Z) (r : option (Z * BlockCache)) : Prop :=
  match r with
  | Some (total, bc) => 0 <= total < Z.max 1 (max + Z.of_nat BLOCK_MAX_INSTS) /\ bc_ok tb bc /\ bc_generation bc <= gen
  | None => False
  end.

Lemma dispatch_loop_preserves fuel bc total max : bc_ok tb bc -> bc_generation bc + Z.of_nat fuel < 2 ^ 64 ->
  0 <= total < Z.max 1 (max + Z.of_nat BLOCK_MAX_INSTS) -> max + Z.of_nat BLOCK_MAX_INSTS < 2 ^ 64 ->
  Z.max 1 (max - total + 1) <= Z.of_nat fuel ->
  preserves tb (B := B) (dispatch_loop tb fuel bc total max) (blocks_ok max (bc_generation bc + Z.of_nat fuel)).
Proof.
  revert bc total. induction fuel as [|fuel IH]; intros bc total Hbc Hgen Ht Hmax Hfuel; [lia|]. cbn [dispatch_loop].
  eapply preserves_bind; [apply dispatch_preserves; [done|lia..]|].
  intros [[go total'] bc'] (Hbc' & Hg & Hpass). unfold BLOCK_MAX_INSTS in *.
  apply preserves_if; intros Hgo.
  - destruct Hpass as [[_ ?]|(Hlt & Hle & Hgt)]; [congruence|]. specialize (Hgt Hgo).
    eapply preserves_weaken; [apply IH; try done; lia|]. intros [[]|] Hok; [|done]. cbn [blocks_ok] in *. destruct Hok as (? & ? & ?). split_and!; [lia|lia|done|lia].
  - apply preserves_ret. unfold blocks_ok, BLOCK_MAX_INSTS. split; [lia|]. split; [done|lia].
Qed.

Lemma run_blocks_preserves bc max : bc_ok tb bc -> 0 <= max -> bc_generation bc + max + 1 < 2 ^ 64 ->
  max + Z.of_nat BLOCK_MAX_INSTS < 2 ^ 64 -> preserves tb (B := B) (run_blocks tb bc max) (blocks_ok max (bc_generation bc + max + 1)).
Proof.
  intros Hbc Hmax Hgen Hlt. unfold BLOCK_MAX_INSTS in Hlt.
  apply (preserves_bind _ _ _ (fun _ => True)); [by apply keeps_preserves, keeps_gets|]. intros h _.
  apply preserves_if; intros _.
  - eapply preserves_bind; [apply keeps_preserves, wake_keeps|]. intros _ _. apply preserves_ret.
    unfold blocks_ok, BLOCK_MAX_INSTS. split; [lia|]. split; [done|lia].
  - eapply preserves_weaken; [apply dispatch_loop_preserves; unfold BLOCK_MAX_INSTS; try done; lia|].
    intros [[]|] Hok; [|done]. cbn [blocks_ok] in *. destruct Hok as (? & ? & ?). split_and!; [lia|lia|done|lia].
Qed.
End preserve.

Section run_blocks.
Context {B : Type} `{BusLaws B}.
Implicit Types s : State B.

(** The result of [run_blocks], with the growth of the cache's generation. *)
Lemma run_blocks_ret tb bc max s r s' : init_all_instrs (B := B) = Some tb -> inv tb s -> bc_ok tb bc ->
  0 <= max -> max + Z.of_nat BLOCK_MAX_INSTS < 2 ^ 64 -> bc_generation bc + max + 1 < 2 ^ 64 ->
  run_blocks tb bc max s = Ret (r, s') ->
  inv tb s' /\ exists total bc', r = Some (total, bc') /\ bc_ok tb bc' /\ 0 <= total <= max + 15 /\
    bc_generation bc' <= bc_generation bc + max + 1.
Proof.
  intros Htb Hs Hbc Hmax Hlt Hgen Hr. pose proof (fun k w => imm_of_inw tb k w Htb) as Hi. clear Htb.
  pose proof (run_blocks_preserves tb Hi bc max Hbc Hmax Hgen Hlt s Hs) as Hp. rewrite Hr in Hp.
  destruct Hp as [Hinv Hok]. split; [exact Hinv|]. destruct r as [[total bc']|]; [|destruct Hok].
  exists total, bc'. split; [reflexivity|]. destruct Hok as (Ht & Hok & Hg). split; [exact Hok|].
  unfold BLOCK_MAX_INSTS in Ht. split; [lia|exact Hg].
Qed.

(** C23: the block dispatcher. Whatever the block cache holds, [run_blocks] ends
    after at most [max_insts + 1] passes; it runs at most 15 instructions more
    than it was asked to, every register, TLB entry and byte of memory keeps
    its type, and every block the cache holds afterwards is a sequence of
    decoded instructions of which only the last may transfer control. *)
Theorem run_blocks_correct tb bc max s r s' : init_all_instrs (B := B) = Some tb -> inv tb s -> bc_ok tb bc ->
  0 <= max -> max + Z.of_nat BLOCK_MAX_INSTS < 2 ^ 64 -> bc_generation bc + max + 1 < 2 ^ 64 ->
  run_blocks tb bc max s = Ret (r, s') ->
  inv tb s' /\ exists total bc', r = Some (total, bc') /\ bc_ok tb bc' /\ 0 <= total <= max + 15.
Proof.
  intros Htb Hs Hbc Hmax Hlt Hgen Hr.
  destruct (run_blocks_ret tb bc max s r s' Htb Hs Hbc Hmax Hlt Hgen Hr) as (Hinv & total & bc' & He & Hok & Ht & _).
  split; [exact Hinv|]. exists total, bc'. split; [exact He|]. split; [exact Hok|exact Ht].
Qed.
End run_blocks.

(** ** Blocks and the interpreter step *)

Section reference.
Context {B : Type} `{BusOps B}.

(** What [tick] does for an instruction once it is fetched, interrupts aside:
    whether it was retired. *)
Definition step_entry (e : InstructionCache) : M B bool :=
  _ ← mod_hart (put_gpr 0 0);
  _ ← mod_hart (fun h => set_cycle (u64 (cycle h + 1)) h);
  out ← single_inst e;
  _ ← retire out;
  mret (er_success out).

(** A sequence of them, up to the first that traps. *)
Fixpoint step_entries (l : list InstructionCache) : M B bool :=
  match l with
  | [] => mret true
  | e :: l' => ok ← step_entry e; if (ok : bool) then step_entries l' else mret false
  end.

(** What the dispatcher does for a block: run it, count, take its trap. *)
Definition block_step (b : Block) : M B bool :=
  '(executed, fault) ← run_block b;
  _ ← mod_hart (fun h =>
        set_cycle (u64 (cycle h + executed)) (set_instret (u64 (instret h + executed)) h));
  match fault with
  | Some (cause, tval) => _ ← on_hart (trap cause tval false); mret false
  | None => mret true
  end.

(** [tick] of a hart that is not waiting, between interrupt polls, whose
    fetch succeeds. *)
Lemma tick_entry tb s e p s2 :
  let s1 := set_hart (set_cycle (u64 (cycle (hart s) + 1)) (put_gpr 0 0 (hart s))) s in
  Z.land (instret (hart s)) 0x2FFF <> 0 -> WFI (hart s) = false ->
  fetchInstruction tb (pc (hart s)) s1 = Ret ((mem_ok, p, Some e), s2) ->
  tick tb s = (out ← single_inst e; retire out) s2.
Proof.
  intros s1 Hp Hw Hf. unfold tick. cbv [mbind ST_bind]. change (mod_hart (put_gpr 0 0) s) with (Ret (tt, set_hart (put_gpr 0 0 (hart s)) s)).
  cbv iota. change (mod_hart _ (set_hart _ s)) with (Ret (tt, s1)). cbv iota.
  assert (poll_ints s1 = Ret (tt, s1)) as ->.
  { unfold poll_ints. cbv [mbind ST_bind gets]. change (instret (hart s1)) with (instret (hart s)).
    by rewrite (proj2 (Z.eqb_neq _ _) Hp). }
  cbv [gets]. change (WFI (hart s1)) with (WFI (hart s)). rewrite Hw.
  unfold run_inst. cbv [mbind ST_bind gets]. change (pc (hart s1)) with (pc (hart s)). rewrite Hf. reflexivity.
Qed.
End reference.

Lemma put_gpr_zero h : gpr h 0 = 0 -> put_gpr 0 0 h = h.
Proof.
  intros Hz. destruct h as [? g ? ? ? ? ? ? ? ? ? ? ? ? ? ? ? ? ?]. unfold put_gpr, set_GPR, gpr in *. cbn in *.
  f_equal. change (Z.to_nat 0) with 0%nat in *. destruct g as [|x g]; [done|]. cbn in *. by subst.
Qed.

Section equiv.
Context {B : Type} `{BusOps B} `{!BusQuiet B} (tb : DecTable) (b : Block).
Hypothesis Hb : block_ok tb b.

(** No instruction of the block accesses a CSR. *)
Definition no_csr : Prop := forall j bi k, instrs b !! j = Some bi -> Z.of_nat j < count b ->
  bi_inst bi = Some k -> csr_handler k = false.
Hypothesis Hq : no_csr.

Definition entries : list InstructionCache := as_entry <$> take (Z.to_nat (count b)) (instrs b).

Lemma entry_at_n n : 0 <= n < count b -> exists bi, instrs b !! Z.to_nat n = Some bi /\
  drop (Z.to_nat n) entries = as_entry bi :: drop (Z.to_nat (n + 1)) entries.
Proof.
  intros Hn. destruct Hb as [_ [_ Hi]]. destruct (Hi (Z.to_nat n)) as (bi & w & Hbi & _); [lia|].
  exists bi. split; [done|]. replace (Z.to_nat (n + 1)) with (S (Z.to_nat n)) by lia.
  apply drop_S. unfold entries. rewrite list_lookup_fmap, lookup_take_lt by lia. by rewrite Hbi.
Qed.

Lemma block_inst_quiet c i n bi : 0 <= n < count b -> instrs b !! Z.to_nat n = Some bi ->
  csim (B := B) c i eq (block_inst b n) (single_inst (as_entry bi)).
Proof.
  intros Hn Hbi. rewrite (block_inst_entry b n bi Hbi). unfold single_inst. cbn [as_entry ic_inst ic_data].
  destruct (bi_inst bi) as [k|] eqn:Ek; [|apply csim_undef]. cbn [mbind option_bind].
  destruct (instructions !! k) as [x|] eqn:Ex; [|apply csim_undef].
  apply (instructions_quiet k x Ex). apply (Hq (Z.to_nat n) bi k Hbi); [lia|done].
Qed.

(** The reference result for the outcome of the loop from instruction [n], whose
    state has counters [c] and [i] before it. *)
Definition ref_result (c i n : Z) (o : outcome (BlockResult * State B)) : outcome (bool * State B) :=
  match o with
  | Ret ((m, None), s1) => Ret (true, recount (u64 (c + (m - n))) (u64 (i + (m - n))) s1)
  | Ret ((m, Some (cause, tval)), s1) =>
      (_ ← on_hart (trap cause tval false); mret false) (recount (u64 (c + (m - n) + 1)) (u64 (i + (m - n))) s1)
  | Throw e => Throw e
  | Undef => Undef
  end.

(** One instruction of the block and one step of the interpreter, whose state
    [s'] differs in the counters and in [x0]. *)
Lemma step_entry_sim c i n bi s s' : 0 <= n < count b -> instrs b !! Z.to_nat n = Some bi ->
  set_hart (put_gpr 0 0 (hart s')) s' = recount c i s ->
  step_entry (as_entry bi) s' =
    match block_inst b n s with
    | Ret (r, s1) =>
        if er_success r
        then Ret (true, recount (u64 (c + 1)) (u64 (i + 1))
                          (set_hart (set_pc (u64 (pc (hart s1) + er_increase_pc r)) (hart s1)) s1))
        else (_ ← on_hart (trap (er_cause r) (er_tval r) false); mret false) (recount (u64 (c + 1)) i s1)
    | Throw e => Throw e
    | Undef => Undef
    end.
Proof.
  intros Hn Hbi Hs. unfold step_entry. cbv [mbind ST_bind].
  change (mod_hart (put_gpr 0 0) s') with (Ret (tt, set_hart (put_gpr 0 0 (hart s')) s')). cbv iota. rewrite Hs.
  change (mod_hart _ (recount c i s)) with (Ret (tt, recount (u64 (c + 1)) i s)). cbv iota.
  pose proof (block_inst_quiet (u64 (c + 1)) i n bi Hn Hbi s) as Hc.
  destruct (block_inst b n s) as [[r s1]|e|], (single_inst (as_entry bi) (recount (u64 (c + 1)) i s)) as [[r' s1']|e'|];
    try done; [|by subst].
  destruct Hc as [<- ->]. unfold retire. destruct (er_success r); [reflexivity|]. cbn [negb].
  by destruct (on_hart _ _) as [[]| |].
Qed.

(** The block leaves the counters alone. *)
Lemma run_loop_csim c i k : forall n, 0 <= n -> n + Z.of_nat k = count b - 1 ->
  csim (B := B) c i eq (run_loop b n k) (run_loop b n k).
Proof.
  assert (forall n, 0 <= n < count b -> csim (B := B) c i eq (block_inst b n) (block_inst b n)) as Hbi.
  { intros n Hn. destruct (entry_at_n n Hn) as (bi & Hbi & _). pose proof (block_inst_quiet c i n bi Hn Hbi) as Hc.
    by rewrite <- (block_inst_entry b n bi Hbi) in Hc. }
  induction k as [|k IH]; intros n Hn Hk; cbn [run_loop].
  - rewrite (count_last tb b Hb). apply (csim_bind c i eq); [apply Hbi; lia|]. intros r _ <-. repeat csim_step.
  - apply (csim_bind c i eq); [apply Hbi; lia|]. intros r _ <-.
    apply csim_if; [by apply csim_ret|]. do 3 csim_step. apply IH; lia.
Qed.

Lemma u64_acc x m n : u64 (u64 (x + 1) + (m - (n + 1))) = u64 (x + (m - n)).
Proof. unfold uN. rewrite Zplus_mod_idemp_l. f_equal. lia. Qed.

Lemma u64_acc1 x m n : u64 (u64 (x + 1) + (m - (n + 1)) + 1) = u64 (x + (m - n) + 1).
Proof.
  unfold uN. rewrite <- Z.add_assoc, Zplus_mod_idemp_l. f_equal. lia.
Qed.

Lemma ref_fault c i n cause tval s1 : inw 64 i -> ref_result c i n (Ret ((n, Some (cause, tval)), s1)) =
  (_ ← on_hart (trap cause tval false); mret false) (recount (u64 (c + 1)) i s1).
Proof. intros Hi. unfold ref_result. by rewrite Z.sub_diag, !Z.add_0_r, (uN_id 64 i). Qed.

Lemma run_loop_sim k : forall n c i s s', 0 <= n -> n + Z.of_nat k = count b - 1 ->
  set_hart (put_gpr 0 0 (hart s')) s' = recount c i s -> inw 64 i ->
  step_entries (drop (Z.to_nat n) entries) s' = ref_result c i n (run_loop b n k s).
Proof.
  induction k as [|k IH]; intros n c i s s' Hn Hk Hs Hi;
    destruct (entry_at_n n ltac:(lia)) as (bi & Hbi & ->); cbn [step_entries run_loop]; cbv [mbind ST_bind];
    rewrite (step_entry_sim c i n bi s s' ltac:(lia) Hbi Hs).
  - rewrite (count_last tb b Hb). replace (count b - 1) with n by lia.
    destruct (block_inst b n s) as [[r s1]|e|]; [|done..].
    destruct (er_success r) eqn:Er; cbn [negb].
    + assert (drop (Z.to_nat (n + 1)) entries = []) as ->.
      { apply drop_ge. unfold entries. rewrite length_fmap, length_take. lia. }
      cbn [step_entries]. unfold ref_result, advance, mod_hart, modify. cbv [mret ST_ret]. by replace (count b - n) with 1 by lia.
    + change (ref_result c i n _) with (ref_result c i n (Ret ((n, Some (er_cause r, er_tval r)), s1))).
      rewrite ref_fault by done.
      cbv [mbind ST_bind]. by destruct (on_hart _ _) as [[[]]| |].
  - destruct (block_inst b n s) as [[r s1]|e|]; [|done..].
    destruct (er_success r) eqn:Er; cbn [negb].
    + set (s2 := set_hart (set_pc _ _) s1). change (advance r s1) with (Ret (tt, s2)). cbv iota.
      change (reg 0 s2) with (Ret (gpr (hart s2) 0, s2)). cbv iota.
      assert ((if negb (gpr (hart s2) 0 =? 0) then setreg 0 0 else mret tt) s2 =
        Ret (tt, set_hart (put_gpr 0 0 (hart s2)) s2)) as ->.
      { destruct (Z.eqb_spec (gpr (hart s2) 0) 0) as [E|E]; [|reflexivity]. cbn [negb].
        rewrite put_gpr_zero by done. by destruct s2. }
      cbv iota. rewrite (IH (n + 1) (u64 (c + 1)) (u64 (i + 1)) (set_hart (put_gpr 0 0 (hart s2)) s2));
        [|lia|lia|reflexivity|by apply uN_inw].
      destruct (run_loop b (n + 1) k _) as [[[m [[cause tval]|]] s3]|e|]; [| |done..]; cbn [ref_result];
        by rewrite ?u64_acc, ?u64_acc1.
    + change (ref_result c i n _) with (ref_result c i n (Ret ((n, Some (er_cause r, er_tval r)), s1))).
      rewrite ref_fault by done.
      cbv [mbind ST_bind]. by destruct (on_hart _ _) as [[[]]| |].
Qed.

Lemma run_block_counters s r s1 : run_block (B := B) b s = Ret (r, s1) ->
  cycle (hart s1) = cycle (hart s) /\ instret (hart s1) = instret (hart s).
Proof.
  apply csim_counters. intros c i. apply (csim_bind c i eq); [apply csim_mod_hart; reflexivity|]. intros _ _ _.
  apply run_loop_csim; [lia|]. destruct Hb as [Hc _]. lia.
Qed.
End equiv.

Lemma trap_recount c i cause tval int h : trap cause tval int (cnt c i h) =
  match trap cause tval int h with Ret (a, h1) => Ret (a, cnt c i h1) | Throw e => Throw e | Undef => Undef end.
Proof.
  destruct h. unfold trap. cbv zeta. cbn -[setf getf not64 Z.land Z.shiftr].
  destruct (_ && (64 <=? cause))%bool; [reflexivity|]. destruct (_ && _)%bool; reflexivity.
Qed.

Section block_equiv.
Context {B : Type} `{BusOps B} `{!BusQuiet B}.
Implicit Types s : State B.

(** C24: a block does what the interpreter does: running a well-formed block
    without CSR instructions and counting it leaves the state that fetched
    instructions leave when [tick] executes and retires them one by one, up to
    the first that traps, and takes the same trap; the one difference is that
    the cycle of a trapping instruction is not counted. *)
Theorem block_equiv tb b s : block_ok tb b -> no_csr b -> inw 64 (instret (hart s)) ->
  step_entries (entries b) s =
    match block_step b s with
    | Ret (ok, s1) =>
        Ret (ok, recount (if ok then cycle (hart s1) else u64 (cycle (hart s1) + 1)) (instret (hart s1)) s1)
    | Throw e => Throw e
    | Undef => Undef
    end.
Proof.
  intros Hb Hq Hi. pose proof (proj1 Hb) as Hc.
  pose proof (run_loop_sim tb b Hb Hq (Z.to_nat (count b - 1)) 0 (cycle (hart s)) (instret (hart s))
    (set_hart (put_gpr 0 0 (hart s)) s) s ltac:(lia) ltac:(lia)) as Hsim.
  change (drop (Z.to_nat 0) (entries b)) with (entries b) in Hsim. rewrite Hsim; [|by destruct s as [[] ? ? ? ? ?]|done]. clear Hsim.
  pose proof (run_block_counters tb b Hb Hq s) as Hcnt. unfold block_step. unfold run_block in Hcnt |- *.
  cbv [mbind ST_bind] in Hcnt |- *. change (setreg 0 0 s) with (Ret (tt, set_hart (put_gpr 0 0 (hart s)) s)) in Hcnt |- *.
  cbv iota in Hcnt |- *.
  destruct (run_loop b 0 _ _) as [[[m f] s1]|e|]; [|done..]. destruct (Hcnt _ _ eq_refl) as [<- <-]. clear Hcnt.
  unfold mod_hart at 1, modify at 1. cbn [ref_result]. rewrite Z.sub_0_r.
  destruct f as [[cause tval]|]; [|by destruct s1 as [[] ? ? ? ? ?]].
  cbv [mbind ST_bind]. unfold on_hart.
  change (hart (recount ?c ?i s1)) with (cnt c i (hart s1)). cbn [hart set_hart].
  change (set_cycle ?c (set_instret ?i (hart s1))) with (cnt c i (hart s1)). rewrite !trap_recount.
  destruct (trap cause tval false (hart s1)) as [[[] h1]|e|]; [|done..].
  cbn [hart set_hart cnt cycle instret set_cycle set_instret recount].
  do 2 f_equal. unfold recount. cbn [hart set_hart]. unfold uN at 1. rewrite <- (Zplus_mod_idemp_l (cycle (hart s1) + m)). reflexivity.
Qed.
End block_equiv.
