(* ===== verification/Device.v ===== *)
(** * What the devices see of the machine

    A device of [src/devices] keeps a reference to the [Machine] and reaches
    through it the harts, of which it uses the identifier, the pending
    interrupts, the time and the supervisor timer. [HartView] is that part of
    a hart. A device operation runs over its own state and the views of all
    harts. [std::vector::operator[]] past the end is undefined behaviour,
    [Machine::get_hart] is [vector::at] and throws. *)

From S2P Require Import Prelude Defs.

Record HartView := mkView { v_id : Z; v_ip : Z; v_ctime : Z; v_stimecmp : Z }.

Definition set_v_ip (x : Z) (v : HartView) : HartView := mkView (v_id v) x (v_ctime v) (v_stimecmp v).
Definition set_v_ctime (x : Z) (v : HartView) : HartView := mkView (v_id v) (v_ip v) x (v_stimecmp v).

(** ** Vectors *)

Definition vget {A} (l : list A) (i : Z) : outcome A :=
  if i <? 0 then Undef else match l !! Z.to_nat i with Some x => Ret x | None => Undef end.

Definition vset {A} (l : list A) (i : Z) (x : A) : outcome (list A) :=
  if (0 <=? i) && (i <? Z.of_nat (length l)) then Ret (<[Z.to_nat i := x]> l) else Undef.

Lemma vget_lookup {A} (l : list A) (i : nat) x : l !! i = Some x -> vget l (Z.of_nat i) = Ret x.
Proof. intros Hi. unfold vget. rewrite (proj2 (Z.ltb_ge _ 0)) by lia. by rewrite Nat2Z.id, Hi. Qed.

Lemma vget_in {A} (l : list A) i : 0 <= i < Z.of_nat (length l) -> exists x, vget l i = Ret x /\ l !! Z.to_nat i = Some x.
Proof.
  intros Hi. destruct (lookup_lt_is_Some_2 l (Z.to_nat i)) as [x Hx]; [lia|]. exists x. split; [|done].
  rewrite <- (Z2Nat.id i) by lia. by apply vget_lookup.
Qed.

Lemma vget_ret {A} (l : list A) i x : vget l i = Ret x -> 0 <= i < Z.of_nat (length l) /\ l !! Z.to_nat i = Some x.
Proof.
  unfold vget. destruct (Z.ltb_spec i 0); [done|]. destruct (l !! Z.to_nat i) eqn:E; [|done].
  intros [= <-]. split; [|done]. apply lookup_lt_Some in E. lia.
Qed.

Lemma vset_in {A} (l : list A) i x : 0 <= i < Z.of_nat (length l) -> vset l i x = Ret (<[Z.to_nat i := x]> l).
Proof. intros Hi. unfold vset. by rewrite (proj2 (Z.leb_le 0 i)), (proj2 (Z.ltb_lt i _)) by lia. Qed.

Lemma vset_ret {A} (l : list A) i x l' : vset l i x = Ret l' ->
  0 <= i < Z.of_nat (length l) /\ l' = <[Z.to_nat i := x]> l.
Proof.
  unfold vset. destruct (Z.leb_spec 0 i), (Z.ltb_spec i (Z.of_nat (length l))); try done.
  cbn [andb]. intros [= <-]. split; [lia|done].
Qed.

(** ** Device programs *)

Section device.
Context {P : Type}.

Definition DM (A : Type) : Type := ST (P * list HartView) A.

Definition dev {A} (f : P -> A) : DM A := gets (fun s => f s.1).
Definition upd (f : P -> P) : DM unit := modify (fun s => (f s.1, s.2)).
Definition lift {A} (o : outcome A) : DM A := fun s =>
  match o with Ret a => Ret (a, s) | Throw e => Throw e | Undef => Undef end.

(** [cpu.get_hart(i)], and an update of its pending interrupts. *)
Definition hart_at (i : Z) : DM HartView := fun s =>
  if i <? 0 then Throw out_of_range
  else match s.2 !! Z.to_nat i with Some v => Ret (v, s) | None => Throw out_of_range end.

Definition put_hart (i : Z) (v : HartView) : DM unit := modify (fun s => (s.1, <[Z.to_nat i := v]> s.2)).
End device.
Arguments DM : clear implicits.

(** The views are values of their types. *)
Definition view_ok (v : HartView) : Prop :=
  inw 8 (v_id v) /\ inw 16 (v_ip v) /\ inw 64 (v_ctime v) /\ inw 64 (v_stimecmp v).
