(* ===== verification/Plic.v ===== *)
(** * Platform-level interrupt controller ([src/devices/plic.cpp])

    Sources 1 to [max_sources] have a priority and a pending bit; each
    context (a hart in machine or supervisor mode) has enable bits, a
    threshold and the level of its interrupt line. *)

From S2P Require Import Prelude Defs Device.

Record Context := mkCtx {
  threshold : Z;
  enables : list Z;
  hart_id : Z;
  supervisor_mode : bool;
  interrupt_line : bool }.

Record PLIC := mkPLIC {
  plic_start : Z;
  max_sources : Z;
  num_contexts : Z;
  pending_words_count : Z;
  enable_words_count : Z;
  last_irq_registered : Z;
  priorities : list Z;
  pending_words : list Z;
  contexts : list Context }.

Definition set_priorities (x : list Z) (p : PLIC) : PLIC :=
  mkPLIC (plic_start p) (max_sources p) (num_contexts p) (pending_words_count p) (enable_words_count p)
    (last_irq_registered p) x (pending_words p) (contexts p).
Definition set_pending_words (x : list Z) (p : PLIC) : PLIC :=
  mkPLIC (plic_start p) (max_sources p) (num_contexts p) (pending_words_count p) (enable_words_count p)
    (last_irq_registered p) (priorities p) x (contexts p).
Definition set_contexts (x : list Context) (p : PLIC) : PLIC :=
  mkPLIC (plic_start p) (max_sources p) (num_contexts p) (pending_words_count p) (enable_words_count p)
    (last_irq_registered p) (priorities p) (pending_words p) x.
Definition set_last_irq (x : Z) (p : PLIC) : PLIC :=
  mkPLIC (plic_start p) (max_sources p) (num_contexts p) (pending_words_count p) (enable_words_count p)
    x (priorities p) (pending_words p) (contexts p).

Definition set_line (l : bool) (c : Context) : Context :=
  mkCtx (threshold c) (enables c) (hart_id c) (supervisor_mode c) l.
Definition set_threshold (t : Z) (c : Context) : Context :=
  mkCtx t (enables c) (hart_id c) (supervisor_mode c) (interrupt_line c).
Definition set_enables (e : list Z) (c : Context) : Context :=
  mkCtx (threshold c) e (hart_id c) (supervisor_mode c) (interrupt_line c).

(** The constructor. *)
Definition plic_new (start harts sources : Z) : PLIC :=
  let words := (sources + 31) / 32 in
  mkPLIC start sources (harts * 2) words words 1
    (replicate (Z.to_nat (sources + 1)) 0) (replicate (Z.to_nat words) 0)
    ((fun i => mkCtx 0 (replicate (Z.to_nat words) 0) (i / 2) (i mod 2 =? 1) false) <$> seqZ 0 (harts * 2)).

(** [init_auto]. *)
Definition plic_init_auto (harts : Z) : PLIC := plic_new 0x0C000000 harts 64.

Definition acquire_irq : DM PLIC Z :=
  v ← dev last_irq_registered;
  _ ← upd (set_last_irq (u32 (v + 1)));
  mret v.

Definition last_irq (p : PLIC) : Z := s32 (last_irq_registered p - 1).

(** ** Selection of an interrupt *)

(** [std::countr_zero] of a non-zero word. *)
Fixpoint ctz_pos (p : positive) : Z := match p with xO p' => 1 + ctz_pos p' | _ => 0 end.
Definition countr_zero (x : Z) : Z := match x with Zpos p => ctz_pos p | _ => 32 end.

(** The best source found so far and its priority. *)
Definition Best : Type := Z * Z.

(** The body of [while(active)] for source [id]. *)
Definition consider (p : PLIC) (ctx : Context) (id : Z) (best : Best) : outcome Best :=
  if negb (id =? 0) && (id <=? max_sources p) then
    prio ← vget (priorities p) id;
    Ret (if (threshold ctx <? prio) && ((best.2 <? prio) || ((prio =? best.2) && (id <? best.1)))
         then (id, prio) else best)
  else Ret best.

(** [while(active)]: each pass clears the lowest set bit, so the 32 passes of
    [k] are enough. *)
Fixpoint scan_word (p : PLIC) (ctx : Context) (word active : Z) (best : Best) (k : nat) : outcome Best :=
  if active =? 0 then Ret best else
  match k with
  | O => Undef
  | S k' =>
      best ← consider p ctx (word * 32 + countr_zero active) best;
      scan_word p ctx word (Z.land active (active - 1)) best k'
  end.

(** The body of the loop over the words. *)
Definition scan_one (p : PLIC) (ctx : Context) (word : Z) (best : Best) : outcome Best :=
  pend ← vget (pending_words p) word;
  en ← vget (enables ctx) word;
  scan_word p ctx word (Z.land pend en) best 32.

(** The loop over the words. *)
Definition scan_words (p : PLIC) (ctx : Context) (n : Z) (best : Best) : outcome Best :=
  foldl (fun o word => best ← o; scan_one p ctx word best) (Ret best) (seqZ 0 n).

Definition find_highest_pending_enabled (p : PLIC) (ctx_idx : Z) : outcome Z :=
  ctx ← vget (contexts p) ctx_idx;
  best ← scan_words p ctx ((max_sources p + 31) / 32) (0, 0);
  Ret best.1.

(** ** Interrupt lines *)

Definition signal_cpu_interrupt (hart : Z) (sup level : bool) : DM PLIC unit :=
  if (hart <? 0) || (64 <=? hart) then mret tt else
  v ← hart_at hart;
  put_hart hart (set_v_ip (setf (v_ip v) (if sup then Irq.SEI else Irq.MEI) (b2z level)) v).

Definition update_context (ctx_idx : Z) : DM PLIC unit :=
  p ← dev id;
  ctx ← lift (vget (contexts p) ctx_idx);
  best ← lift (find_highest_pending_enabled p ctx_idx);
  let should_raise := negb (best =? 0) in
  if negb (Bool.eqb should_raise (interrupt_line ctx)) then
    cs ← lift (vset (contexts p) ctx_idx (set_line should_raise ctx));
    _ ← upd (set_contexts cs);
    signal_cpu_interrupt (hart_id ctx) (supervisor_mode ctx) should_raise
  else mret tt.

Fixpoint update_from (i : Z) (k : nat) : DM PLIC unit :=
  match k with O => mret tt | S k' => _ ← update_context i; update_from (i + 1) k' end.

Definition update_all_contexts : DM PLIC unit :=
  n ← dev num_contexts;
  update_from 0 (Z.to_nat n).

(** [pending_words[id / 32] |= / &= ~ 1U << (id % 32)]. *)
Definition put_pending (id : Z) (pending : bool) : DM PLIC unit :=
  ws ← dev pending_words;
  w ← lift (vget ws (id / 32));
  let bit_mask := Z.shiftl 1 (id mod 32) in
  ws ← lift (vset ws (id / 32) (if pending then Z.lor w bit_mask else Z.ldiff w bit_mask));
  upd (set_pending_words ws).

Definition set_pending (source_id : Z) (pending : bool) : DM PLIC unit :=
  m ← dev max_sources;
  if (source_id =? 0) || (m <? source_id) then mret tt else
  _ ← put_pending source_id pending;
  update_all_contexts.

Definition claim_interrupt (ctx_idx : Z) : DM PLIC Z :=
  p ← dev id;
  best ← lift (find_highest_pending_enabled p ctx_idx);
  _ ← (if negb (best =? 0) then _ ← put_pending best false; update_context ctx_idx else mret tt);
  mret best.

Definition complete_interrupt (ctx_idx id : Z) : DM PLIC unit :=
  m ← dev max_sources;
  if (id =? 0) || (m <? id) then mret tt else
  _ ← put_pending id false;
  update_context ctx_idx.

(** ** Registers *)

Definition in_context_area (p : PLIC) (offset : Z) : bool :=
  (0x200000 <=? offset) && (offset <? 0x200000 + num_contexts p * 0x1000).

Definition plic_read (addr : Z) (sz : MemorySize) : DM PLIC Z :=
  if negb (sz =? Int) then mret 0 else
  p ← dev id;
  let offset := u64 (addr - plic_start p) in
  if offset <? 0x1000 then
    let idx := offset / 4 in
    if (1 <=? idx) && (idx <=? max_sources p) then lift (vget (priorities p) idx) else mret 0
  else if (0x1000 <=? offset) && (offset <? 0x1080) then
    let word_idx := (offset - 0x1000) / 4 in
    if word_idx <? pending_words_count p then lift (vget (pending_words p) word_idx) else mret 0
  else if (0x2000 <=? offset) && (offset <? 0x200000) then
    let ctx_idx := (offset - 0x2000) / 0x80 in
    if num_contexts p <=? ctx_idx then mret 0 else
    let word_offset := (offset - 0x2000) mod 0x80 / 4 in
    if word_offset <? enable_words_count p then
      ctx ← lift (vget (contexts p) ctx_idx); lift (vget (enables ctx) word_offset)
    else mret 0
  else if in_context_area p offset then
    let ctx_idx := (offset - 0x200000) / 0x1000 in
    if num_contexts p <=? ctx_idx then mret 0 else
    let sub_offset := (offset - 0x200000) mod 0x1000 in
    if sub_offset =? 0 then ctx ← lift (vget (contexts p) ctx_idx); mret (threshold ctx)
    else if sub_offset =? 4 then claim_interrupt ctx_idx
    else mret 0
  else mret 0.

(** [contexts[ctx_idx] = f(contexts[ctx_idx])], then [update_context]. *)
Definition put_context (ctx_idx : Z) (f : Context -> outcome Context) : DM PLIC unit :=
  p ← dev id;
  ctx ← lift (vget (contexts p) ctx_idx);
  ctx ← lift (f ctx);
  cs ← lift (vset (contexts p) ctx_idx ctx);
  _ ← upd (set_contexts cs);
  update_context ctx_idx.

Definition plic_write (addr : Z) (sz : MemorySize) (value : Z) : DM PLIC unit :=
  if negb (sz =? Int) then mret tt else
  p ← dev id;
  let offset := u64 (addr - plic_start p) in
  if offset <? 0x1000 then
    let idx := offset / 4 in
    if (1 <=? idx) && (idx <=? max_sources p) then
      ps ← lift (vset (priorities p) idx (u32 (Z.land value 0x7FFFFFFF)));
      _ ← upd (set_priorities ps);
      update_all_contexts
    else mret tt
  else if (0x1000 <=? offset) && (offset <? 0x1080) then mret tt
  else if (0x2000 <=? offset) && (offset <? 0x200000) then
    let ctx_idx := (offset - 0x2000) / 0x80 in
    if num_contexts p <=? ctx_idx then mret tt else
    let word_offset := (offset - 0x2000) mod 0x80 / 4 in
    if word_offset <? enable_words_count p then
      put_context ctx_idx (fun ctx => es ← vset (enables ctx) word_offset (u32 value); Ret (set_enables es ctx))
    else mret tt
  else if in_context_area p offset then
    let ctx_idx := (offset - 0x200000) / 0x1000 in
    if num_contexts p <=? ctx_idx then mret tt else
    let sub_offset := (offset - 0x200000) mod 0x1000 in
    if sub_offset =? 0 then
      put_context ctx_idx (fun ctx => Ret (set_threshold (u32 (Z.land value 0x7FFFFFFF)) ctx))
    else if sub_offset =? 4 then complete_interrupt ctx_idx (u32 value)
    else mret tt
  else mret tt.

(** A device of state [D] that holds a pointer to the controller. *)
Section with_plic.
Context {D : Type}.

Definition PM (A : Type) : Type := DM (D * PLIC) A.

Definition on_plic {A} (m : DM PLIC A) : PM A := fun s =>
  match m (s.1.2, s.2) with
  | Ret (a, (p, vs)) => Ret (a, (s.1.1, p, vs))
  | Throw e => Throw e
  | Undef => Undef
  end.

Definition own : PM D := dev fst.
Definition upd_own (f : D -> D) : PM unit := upd (fun s => (f s.1, s.2)).
End with_plic.
Arguments PM : clear implicits.

(** ** Specification of the selection *)

Lemma ctz_pos_spec p : 0 <= ctz_pos p /\ Z.testbit (Zpos p) (ctz_pos p) = true /\
  forall j, 0 <= j < ctz_pos p -> Z.testbit (Zpos p) j = false.
Proof.
  induction p as [p IH|p IH|]; cbn [ctz_pos].
  - split_and!; [lia|done|lia].
  - destruct IH as (H0 & H1 & H2). split_and!; [lia| |].
    + change (Zpos p~0) with (2 * Zpos p). by rewrite Z.add_1_l, Z.testbit_even_succ.
    + intros j Hj. change (Zpos p~0) with (2 * Zpos p). destruct (decide (j = 0)) as [->|]; [apply Z.testbit_even_0|].
      replace j with (Z.succ (j - 1)) by lia. rewrite Z.testbit_even_succ by lia. apply H2. lia.
  - split_and!; [lia|done|lia].
Qed.

(** [x & (x - 1)] clears the lowest set bit. *)
Lemma land_pred_bits p j : 0 <= j ->
  Z.testbit (Z.land (Zpos p) (Zpos p - 1)) j = Z.testbit (Zpos p) j && negb (j =? ctz_pos p).
Proof.
  revert j. induction p as [p IH|p IH|]; intros j Hj; rewrite Z.land_spec; cbn [ctz_pos].
  - change (Zpos p~1 - 1) with (2 * Zpos p). change (Zpos p~1) with (2 * Zpos p + 1).
    destruct (decide (j = 0)) as [->|]; [by rewrite Z.testbit_even_0, andb_false_r|].
    replace j with (Z.succ (j - 1)) by lia. rewrite Z.testbit_odd_succ, Z.testbit_even_succ by lia.
    rewrite (proj2 (Z.eqb_neq (Z.succ (j - 1)) 0)) by lia. cbn [negb]. by rewrite andb_diag, andb_true_r.
  - replace (Zpos p~0 - 1) with (2 * (Zpos p - 1) + 1) by lia. change (Zpos p~0) with (2 * Zpos p).
    destruct (decide (j = 0)) as [->|]; [by rewrite Z.testbit_even_0|].
    replace j with (Z.succ (j - 1)) by lia. rewrite Z.testbit_odd_succ, Z.testbit_even_succ by lia.
    rewrite <- Z.land_spec, IH by lia. do 2 f_equal. destruct (Z.eqb_spec (j - 1) (ctz_pos p)), (Z.eqb_spec (Z.succ (j - 1)) (1 + ctz_pos p)); lia.
  - rewrite Z.sub_diag, Z.bits_0, andb_false_r. destruct (decide (j = 0)) as [->|]; [done|].
    rewrite Z.bits_above_log2; [done|lia|cbn; lia].
Qed.

Section selection.
Context (p : PLIC) (ctx : Context).

Definition nwords : Z := (max_sources p + 31) / 32.
Definition bit_of (l : list Z) (id : Z) : bool := Z.testbit (nth (Z.to_nat (id / 32)) l 0) (id mod 32).
Definition prio_of (id : Z) : Z := nth (Z.to_nat id) (priorities p) 0.

(** A source that may interrupt the context. *)
Definition candidate (id : Z) : Prop :=
  1 <= id <= max_sources p /\ id < 32 * nwords /\
  bit_of (pending_words p) id = true /\ bit_of (enables ctx) id = true /\ threshold ctx < prio_of id.

(** [r] is the candidate of highest priority, the lowest-numbered one among
    equals, and 0 when there is none. *)
Definition is_best (r : Z) : Prop :=
  (r = 0 /\ forall id, ~ candidate id) \/
  (candidate r /\ forall id, candidate id -> prio_of id < prio_of r \/ (prio_of id = prio_of r /\ r <= id)).

(** The same among the sources below [n], for the loop. *)
Definition best_below (n : Z) (b : Best) : Prop :=
  (b = (0, 0) /\ forall id, id < n -> ~ candidate id) \/
  (candidate b.1 /\ b.1 < n /\ b.2 = prio_of b.1 /\
   forall id, id < n -> candidate id -> prio_of id < b.2 \/ (prio_of id = b.2 /\ b.1 <= id)).

Record ctx_wf : Prop := {
  cw_threshold : 0 <= threshold ctx;
  cw_enables_len : Z.of_nat (length (enables ctx)) = nwords;
  cw_enables : Forall (inw 32) (enables ctx) }.

Record srcs_wf : Prop := {
  sw_max : 0 <= max_sources p;
  sw_prio_len : Z.of_nat (length (priorities p)) = max_sources p + 1;
  sw_pending_len : Z.of_nat (length (pending_words p)) = nwords;
  sw_pending : Forall (inw 32) (pending_words p) }.

Hypothesis Hc : ctx_wf.
Hypothesis Hp : srcs_wf.

Lemma best_skip n n' b : best_below n b -> n <= n' -> (forall id, n <= id < n' -> ~ candidate id) -> best_below n' b.
Proof.
  intros [[-> Hn]|(Hb & Hlt & He & Hn)] Hle Hno.
  - left. split; [done|]. intros id Hid. destruct (Z.lt_ge_cases id n); [by apply Hn|]. apply Hno. lia.
  - right. split_and!; [done|lia|done|]. intros id Hid Hcand.
    destruct (Z.lt_ge_cases id n); [by apply Hn|]. destruct (Hno id); [lia|done].
Qed.

Lemma consider_best id b : best_below id b -> 0 <= id < 32 * nwords ->
  bit_of (pending_words p) id = true -> bit_of (enables ctx) id = true ->
  exists b', consider p ctx id b = Ret b' /\ best_below (id + 1) b'.
Proof.
  intros Hb Hid Hpend Hen. unfold consider. destruct (_ && _)%bool eqn:E.
  - bool_hyps. pose proof (sw_prio_len Hp) as Hl.
    destruct (vget_in (priorities p) id) as (prio & Hv & Hlk); [lia|]. rewrite Hv. cbn [mbind outcome_bind].
    assert (prio_of id = prio) as Hpr by (by apply nth_lookup_Some with (d := 0) in Hlk).
    pose proof (cw_threshold Hc). eexists. split; [done|].
    destruct (Z.ltb_spec (threshold ctx) prio) as [Ht|Ht]; cbn [andb].
    + assert (candidate id) as Hcand by (split_and!; first [lia|done]).
      destruct Hb as [[-> Hn]|(Hb & Hlt & He & Hn)]; cbn [fst snd] in *.
      * rewrite (proj2 (Z.ltb_lt 0 prio)) by lia. cbn [orb]. right. split_and!; cbn [fst snd]; [done|lia|done|].
        intros j Hj Hj'. destruct (decide (j = id)) as [->|]; [right; lia|]. destruct (Hn j); [lia|done].
      * rewrite (proj2 (Z.ltb_ge id b.1)), andb_false_r, orb_false_r by lia.
        destruct (Z.ltb_spec b.2 prio); right; (split_and!; cbn [fst snd]; [done|lia|done|]); intros j Hj Hj';
          (destruct (decide (j = id)) as [->|]; [try (right; lia)|destruct (Hn j ltac:(lia) Hj'); lia]).
        rewrite Hpr. lia.
    + apply (best_skip id); [done|lia|]. intros j Hj (_ & _ & _ & _ & Hlt). replace j with id in Hlt by lia. lia.
  - eexists. split; [done|]. apply (best_skip id); [done|lia|]. intros j Hj (Hj1 & _). replace j with id in * by lia.
    apply andb_false_iff in E as [E|E]; [apply negb_false_iff, Z.eqb_eq in E; lia|apply Z.leb_gt in E; lia].
Qed.

(** One word: bits below [t] are done, [active] holds the others. *)
Lemma scan_word_best w a k : forall t active b, 0 <= w < nwords ->
  (forall j, 0 <= j < 32 -> Z.testbit a j = bit_of (pending_words p) (w * 32 + j) && bit_of (enables ctx) (w * 32 + j)) ->
  best_below (w * 32 + t) b -> 0 <= t <= 32 -> 32 - t <= Z.of_nat k -> inw 32 active ->
  (forall j, 0 <= j < 32 -> Z.testbit active j = (t <=? j) && Z.testbit a j) ->
  exists b', scan_word p ctx w active b k = Ret b' /\ best_below (w * 32 + 32) b'.
Proof.
  assert (forall t t' b, 0 <= w < nwords ->
    (forall j, 0 <= j < 32 -> Z.testbit a j = bit_of (pending_words p) (w * 32 + j) && bit_of (enables ctx) (w * 32 + j)) ->
    best_below (w * 32 + t) b -> 0 <= t <= t' -> t' <= 32 ->
    (forall j, t <= j < t' -> Z.testbit a j = false) -> best_below (w * 32 + t') b) as Hskip.
  { intros t t' b Hw Ha Hb Ht Ht' Hno. apply (best_skip (w * 32 + t)); [done|lia|].
    intros id Hid (_ & _ & Hpe & Hen & _). specialize (Ha (id - w * 32) ltac:(lia)).
    replace (w * 32 + (id - w * 32)) with id in Ha by lia. rewrite Hpe, Hen, Hno in Ha by lia. done. }
  induction k as [|k IH]; intros t active b Hw Ha Hb Ht Hk Hact Hbits; cbn [scan_word];
    (destruct (Z.eqb_spec active 0) as [E|E];
     [exists b; split; [done|]; refine (Hskip t 32 b Hw Ha Hb _ _ _); [lia|lia|]; intros j Hj; specialize (Hbits j ltac:(lia));
      subst active; rewrite Z.bits_0, (proj2 (Z.leb_le t j)) in Hbits by lia; by rewrite Hbits|]).
  - exfalso. apply E, Z.bits_inj'. intros j Hj. rewrite Z.bits_0.
    destruct (Z.lt_ge_cases j 32); [|by apply (inw_high 32)].
    rewrite Hbits, (proj2 (Z.leb_gt t j)) by lia. done.
  - destruct active as [|q|q]; [done| |destruct Hact; lia]. cbn [countr_zero].
    destruct (ctz_pos_spec q) as (Hz0 & Hz1 & Hz2).
    assert (ctz_pos q < 32) as Hz32.
    { destruct (Z.lt_ge_cases (ctz_pos q) 32) as [|Hge]; [done|]. rewrite (inw_high 32) in Hz1 by done. done. }
    pose proof (Hbits (ctz_pos q) ltac:(lia)) as Hq. rewrite Hz1 in Hq. symmetry in Hq.
    apply andb_true_iff in Hq as [Htq Haq]. apply Z.leb_le in Htq.
    rewrite Ha in Haq by lia. apply andb_true_iff in Haq as [Hpe Hen].
    assert (best_below (w * 32 + ctz_pos q) b) as Hb'.
    { refine (Hskip t _ b Hw Ha Hb _ _ _); [lia|lia|]. intros j Hj. pose proof (Hbits j ltac:(lia)) as Hj'.
      rewrite Hz2, (proj2 (Z.leb_le t j)) in Hj' by lia. by rewrite Hj'. }
    destruct (consider_best (w * 32 + ctz_pos q) b Hb' ltac:(lia) Hpe Hen) as (b' & -> & Hb'').
    cbn [mbind outcome_bind]. refine (IH (ctz_pos q + 1) _ b' Hw Ha _ _ _ _ _); [by rewrite Z.add_assoc|lia|lia| |].
    + rewrite Z.land_comm. apply inw_land; [lia| |lia]. destruct Hact as [_ Hact]. split; lia.
    + intros j Hj. rewrite land_pred_bits, Hbits by lia.
      destruct (Z.leb_spec t j), (Z.leb_spec (ctz_pos q + 1) j), (Z.eqb_spec j (ctz_pos q)); cbn [andb negb];
        rewrite ?andb_true_r, ?andb_false_r; try done; try lia.
      rewrite <- (andb_true_l (Z.testbit a j)), <- (proj2 (Z.leb_le t j)), <- Hbits by lia. apply Hz2. lia.
Qed.

Lemma bit_of_word l w x j : l !! Z.to_nat w = Some x -> 0 <= w -> 0 <= j < 32 -> bit_of l (w * 32 + j) = Z.testbit x j.
Proof.
  intros Hl Hw Hj. unfold bit_of. replace ((w * 32 + j) / 32) with w by (apply (Z.div_unique _ _ _ j); lia).
  replace ((w * 32 + j) mod 32) with j by (apply (Z.mod_unique _ _ w); lia).
  by rewrite (nth_lookup_Some _ _ 0 _ Hl).
Qed.

Lemma scan_one_best w b : 0 <= w < nwords -> best_below (w * 32) b ->
  exists b', scan_one p ctx w b = Ret b' /\ best_below ((w + 1) * 32) b'.
Proof.
  intros Hw Hb. unfold scan_one.
  pose proof (sw_pending_len Hp) as Hpl. pose proof (cw_enables_len Hc) as Hel.
  destruct (vget_in (pending_words p) w) as (x & -> & Hx); [lia|].
  destruct (vget_in (enables ctx) w) as (y & -> & Hy); [lia|]. cbn [mbind outcome_bind].
  pose proof (Forall_lookup_1 _ _ _ _ (sw_pending Hp) Hx) as Hx32.
  pose proof (Forall_lookup_1 _ _ _ _ (cw_enables Hc) Hy) as [Hy0 _].
  replace ((w + 1) * 32) with (w * 32 + 32) by lia.
  apply (scan_word_best w (Z.land x y) 32 0); [done| |by rewrite Z.add_0_r|lia|lia|by apply inw_land|].
  - intros j Hj. by rewrite (bit_of_word _ w x), (bit_of_word _ w y), Z.land_spec by (done || lia).
  - intros j Hj. by rewrite (proj2 (Z.leb_le 0 j)) by lia.
Qed.

Lemma scan_words_best n b : 0 <= n <= nwords -> best_below 0 b ->
  exists b', scan_words p ctx n b = Ret b' /\ best_below (n * 32) b'.
Proof.
  intros Hn Hb. unfold scan_words. rewrite <- (Z2Nat.id n) in Hn |- * by lia.
  induction (Z.to_nat n) as [|k IH]; [by exists b|]. rewrite Nat2Z.inj_succ in Hn |- *.
  destruct IH as (b1 & He & Hb1); [lia|].
  rewrite <- Z.add_1_r, seqZ_app, foldl_app by lia. rewrite He. cbn [foldl seqZ fmap list_fmap seq Z.to_nat Pos.to_nat].
  change (seqZ (0 + Z.of_nat k) 1) with [0 + Z.of_nat k]. cbn [foldl mbind outcome_bind].
  destruct (scan_one_best (0 + Z.of_nat k) b1) as (b2 & -> & Hb2); [lia|done|]. by exists b2.
Qed.

Lemma best_unique r r' : is_best r -> is_best r' -> r = r'.
Proof.
  intros [[-> Hn]|[Hr Hb]] [[-> Hn']|[Hr' Hb']]; [done|by destruct (Hn r')|by destruct (Hn' r)|].
  destruct (Hb r' Hr'), (Hb' r Hr); lia.
Qed.
End selection.

(** ** Well-formed controllers *)

(** The shape the constructor gives: the vectors have the sizes of the counts,
    and contexts [2h] and [2h + 1] are the machine and supervisor contexts of hart [h]. *)
Record plic_wf (p : PLIC) : Prop := {
  pw_srcs : srcs_wf p;
  pw_pending_count : pending_words_count p = nwords p;
  pw_enable_count : enable_words_count p = nwords p;
  pw_contexts_len : Z.of_nat (length (contexts p)) = num_contexts p;
  pw_contexts : forall i c, contexts p !! i = Some c ->
    ctx_wf p c /\ hart_id c = Z.of_nat i / 2 /\ supervisor_mode c = (Z.of_nat i mod 2 =? 1) }.

Lemma find_highest_spec p (i : nat) c : plic_wf p -> contexts p !! i = Some c ->
  exists r, find_highest_pending_enabled p (Z.of_nat i) = Ret r /\ is_best p c r.
Proof.
  intros Hp Hi. destruct (pw_contexts _ Hp _ _ Hi) as [Hc _]. pose proof (pw_srcs _ Hp) as Hs.
  unfold find_highest_pending_enabled. rewrite (vget_lookup _ _ _ Hi). cbn [mbind outcome_bind].
  assert (0 <= nwords p) as Hn by (apply Z.div_pos; [pose proof (sw_max _ Hs)|]; lia).
  destruct (scan_words_best p c Hc Hs (nwords p) (0, 0)) as (b & Hb & Hbest); [lia| |].
  { left. split; [done|]. intros id Hid (Hlt & _). lia. }
  unfold nwords in Hb. rewrite Hb. eexists. split; [done|]. cbn [fst].
  destruct Hbest as [[-> Hno]|(Hcand & _ & He & Hmax)].
  - left. split; [done|]. intros id Hid. apply (Hno id); [|done]. destruct Hid as (_ & ? & _). lia.
  - right. split; [done|]. intros id Hid. rewrite <- He. apply Hmax; [|done]. destruct Hid as (_ & ? & _). lia.
Qed.

(** ** Interrupt lines and the harts *)

Definition line_field (c : Context) : bitfield := if supervisor_mode c then Irq.SEI else Irq.MEI.

(** The pending bit of every context's hart is the level of its line. *)
Definition sync (p : PLIC) (vs : list HartView) : Prop :=
  Z.of_nat (length vs) <= 64 /\
  forall i c, contexts p !! i = Some c -> exists v, vs !! Z.to_nat (hart_id c) = Some v /\
    inw 16 (v_ip v) /\ flag (v_ip v) (line_field c) = interrupt_line c.

(** The line of context [i] is raised exactly when a source may interrupt it. *)
Definition accurate (p : PLIC) (i : nat) : Prop :=
  exists c r, contexts p !! i = Some c /\ is_best p c r /\ interrupt_line c = negb (r =? 0).

(** The controller with the line of context [i] set. *)
Definition with_line (p : PLIC) (i : nat) (l : bool) : PLIC := set_contexts (alter (set_line l) i (contexts p)) p.

Lemma with_line_lookup p i l j c' : contexts (with_line p i l) !! j = Some c' ->
  exists c, contexts p !! j = Some c /\ c' = if decide (j = i) then set_line l c else c.
Proof.
  cbn [with_line contexts set_contexts]. destruct (decide (j = i)) as [->|Hne].
  - rewrite list_lookup_alter_eq. destruct (contexts p !! i) as [c|]; [|done]. intros [= <-]. by exists c.
  - rewrite list_lookup_alter_ne by done. intros Hc. by exists c'.
Qed.

Lemma with_line_wf p i l : plic_wf p -> plic_wf (with_line p i l).
Proof.
  intros [[? ? ? ?] Hpc He Hl Hc]. split; [by split|done|done| |].
  - cbn [with_line contexts set_contexts num_contexts]. by rewrite length_alter.
  - intros j c' Hj. apply with_line_lookup in Hj as (c & Hj & ->).
    destruct (Hc j c Hj) as ([? ? ?] & ? & ?). case_decide; by repeat split.
Qed.

Lemma with_line_same p i c : contexts p !! i = Some c -> with_line p i (interrupt_line c) = p.
Proof.
  intros Hi. destruct p as [? ? ? ? ? ? ? ? cs]. unfold with_line, set_contexts. cbn in *. f_equal.
  apply list_eq. intros j. destruct (decide (j = i)) as [->|Hne]; [|by rewrite list_lookup_alter_ne].
  rewrite list_lookup_alter_eq, Hi. by destruct c.
Qed.

(** Two contexts share a pending bit only if they are the same. *)
Lemma context_inj p i j c c' : plic_wf p -> contexts p !! i = Some c -> contexts p !! j = Some c' ->
  hart_id c = hart_id c' -> supervisor_mode c = supervisor_mode c' -> i = j.
Proof.
  intros Hp Hi Hj Hh Hs. destruct (pw_contexts _ Hp _ _ Hi) as (_ & Hh1 & Hs1), (pw_contexts _ Hp _ _ Hj) as (_ & Hh2 & Hs2).
  pose proof (Z.div_mod (Z.of_nat i) 2 ltac:(done)). pose proof (Z.div_mod (Z.of_nat j) 2 ltac:(done)).
  pose proof (Z.mod_pos_bound (Z.of_nat i) 2 ltac:(done)). pose proof (Z.mod_pos_bound (Z.of_nat j) 2 ltac:(done)).
  rewrite Hs1 in Hs. rewrite Hs2 in Hs.
  destruct (Z.eqb_spec (Z.of_nat i mod 2) 1), (Z.eqb_spec (Z.of_nat j mod 2) 1); try done; lia.
Qed.

Lemma line_field_disjoint c c' : supervisor_mode c <> supervisor_mode c' ->
  bf_disjoint (line_field c) (line_field c') = true.
Proof. unfold line_field. by destruct (supervisor_mode c), (supervisor_mode c'). Qed.

(** Raising or lowering the pending bit of a context. *)
Lemma signal_sync p vs i c l : plic_wf p -> sync p vs -> contexts p !! i = Some c ->
  exists vs', signal_cpu_interrupt (hart_id c) (supervisor_mode c) l (with_line p i l, vs) =
    Ret (tt, (with_line p i l, vs')) /\ sync (with_line p i l) vs'.
Proof.
  intros Hp [Hn Hs] Hi. destruct (Hs i c Hi) as (v & Hv & H16 & Hf).
  destruct (pw_contexts _ Hp _ _ Hi) as (_ & Hh & _).
  assert (0 <= hart_id c < 64) as Hid.
  { pose proof (Z.div_pos (Z.of_nat i) 2). apply lookup_lt_Some in Hv. lia. }
  unfold signal_cpu_interrupt. rewrite (proj2 (Z.ltb_ge _ 0)), (proj2 (Z.leb_gt 64 _)) by lia. cbn [orb].
  cbv [mbind ST_bind]. unfold hart_at. rewrite (proj2 (Z.ltb_ge _ 0)) by lia. cbn [snd]. rewrite Hv.
  eexists. split; [reflexivity|]. cbn [snd]. split; [by rewrite length_insert|].
  intros j c' Hj. apply with_line_lookup in Hj as (c0 & Hj & ->).
  destruct (Hs j c0 Hj) as (v0 & Hv0 & H160 & Hf0). fold (line_field c).
  assert (bf_ok 16 (line_field c) = true /\ bf_ok 64 (line_field c) = true /\ bf_len (line_field c) = 1) as (Hb16 & Hb64 & Hlen)
    by (unfold line_field; by destruct (supervisor_mode c)).
  destruct (decide (j = i)) as [->|Hne].
  - rewrite Hi in Hj. injection Hj as <-. cbn [hart_id set_line]. rewrite list_lookup_insert_eq by (by apply lookup_lt_Some in Hv).
    eexists. split; [done|]. cbn [v_ip set_v_ip]. split; [by apply setf_inw|].
    change (line_field (set_line l c)) with (line_field c). rewrite flag_setf_same, Hlen by done. by destruct l.
  - destruct (decide (hart_id c = hart_id c0)) as [Hh0|Hh0].
    + rewrite <- Hh0, list_lookup_insert_eq by (by apply lookup_lt_Some in Hv).
      eexists. split; [done|]. cbn [v_ip set_v_ip]. split; [by apply setf_inw|].
      rewrite <- Hh0, Hv in Hv0. injection Hv0 as <-.
      rewrite flag_setf_other; [done|]. apply line_field_disjoint. intros Hsm.
      apply Hne. symmetry. by apply (context_inj p i j c c0).
    + rewrite list_lookup_insert_ne; [by exists v0|].
      destruct (pw_contexts _ Hp _ _ Hj) as (_ & Hh1 & _).
      pose proof (Z.div_pos (Z.of_nat j) 2). lia.
Qed.

Lemma update_context_spec p vs i c r : plic_wf p -> sync p vs -> contexts p !! i = Some c -> is_best p c r ->
  exists vs', update_context (Z.of_nat i) (p, vs) = Ret (tt, (with_line p i (negb (r =? 0)), vs')) /\
    sync (with_line p i (negb (r =? 0))) vs'.
Proof.
  intros Hp Hs Hi Hr. destruct (find_highest_spec p i c Hp Hi) as (r' & Hf & Hr').
  rewrite (best_unique p c r' r Hr' Hr) in Hf. clear r' Hr'.
  unfold update_context. cbv [mbind ST_bind]. unfold dev, lift, gets. cbn [fst id].
  rewrite (vget_lookup _ _ _ Hi), Hf.
  destruct (Bool.eqb (negb (r =? 0)) (interrupt_line c)) eqn:E; cbn [negb].
  - apply Bool.eqb_prop in E. rewrite E, (with_line_same p i c Hi). by exists vs.
  - rewrite vset_in by (apply lookup_lt_Some in Hi; lia). rewrite Nat2Z.id.
    assert (<[i := set_line (negb (r =? 0)) c]> (contexts p) = contexts (with_line p i (negb (r =? 0)))) as ->.
    { cbn [with_line contexts set_contexts]. apply list_eq. intros j. destruct (decide (j = i)) as [->|Hne].
      - rewrite list_lookup_alter_eq, Hi. apply list_lookup_insert_eq. by apply lookup_lt_Some in Hi.
      - by rewrite list_lookup_alter_ne, list_lookup_insert_ne. }
    unfold upd, modify. cbn [fst snd]. change (set_contexts (contexts (with_line p i ?l)) p) with (with_line p i l).
    by apply signal_sync.
Qed.

Lemma update_from_spec k : forall i p vs, plic_wf p -> sync p vs -> (i + k = length (contexts p))%nat ->
  exists cs vs', let p' := set_contexts cs p in
    update_from (Z.of_nat i) k (p, vs) = Ret (tt, (p', vs')) /\ plic_wf p' /\ sync p' vs' /\
    (forall j, (j < i)%nat -> cs !! j = contexts p !! j) /\
    (forall j, (i <= j < length (contexts p))%nat -> accurate p' j).
Proof.
  induction k as [|k IH]; intros i p vs Hp Hs Hk.
  - exists (contexts p), vs. cbn [update_from]. replace (set_contexts (contexts p) p) with p by (by destruct p).
    split_and!; [done..|]. intros; lia.
  - destruct (lookup_lt_is_Some_2 (contexts p) i) as [c Hc]; [lia|].
    destruct (find_highest_spec p i c Hp Hc) as (r & _ & Hr).
    destruct (update_context_spec p vs i c r Hp Hs Hc Hr) as (vs1 & He & Hs1).
    set (p1 := with_line p i (negb (r =? 0))) in *. pose proof (with_line_wf p i (negb (r =? 0)) Hp : plic_wf p1) as Hp1.
    assert (length (contexts p1) = length (contexts p)) as Hl by (cbn [p1 with_line contexts set_contexts]; by rewrite length_alter).
    destruct (IH (S i) p1 vs1 Hp1 Hs1 ltac:(lia)) as (cs & vs' & He' & Hp' & Hs' & Hlt & Hge).
    exists cs, vs'. cbn [update_from]. cbv [mbind ST_bind]. rewrite He.
    replace (Z.of_nat i + 1) with (Z.of_nat (S i)) by lia. rewrite He'.
    split; [done|]. split; [done|]. split; [done|]. split.
    + intros j Hj. rewrite Hlt by lia. cbn [p1 with_line contexts set_contexts]. by rewrite list_lookup_alter_ne by lia.
    + intros j Hj. destruct (decide (j = i)) as [->|]; [|apply Hge; rewrite Hl; lia].
      exists (set_line (negb (r =? 0)) c), r. split; [|split; [exact Hr|done]].
      cbn [contexts set_contexts]. rewrite Hlt by lia. cbn [p1 with_line contexts set_contexts].
      by rewrite list_lookup_alter_eq, Hc.
Qed.

Lemma update_all_spec p vs : plic_wf p -> sync p vs ->
  exists cs vs', let p' := set_contexts cs p in update_all_contexts (p, vs) = Ret (tt, (p', vs')) /\
    plic_wf p' /\ sync p' vs' /\ forall j c, cs !! j = Some c -> accurate p' j.
Proof.
  intros Hp Hs. destruct (update_from_spec (length (contexts p)) 0 p vs Hp Hs eq_refl) as (cs & vs' & He & Hp' & Hs' & _ & Ha).
  exists cs, vs'. split_and!; [|done|done|].
  - unfold update_all_contexts. cbv [mbind ST_bind]. unfold dev, gets. cbn [fst].
    rewrite <- (pw_contexts_len _ Hp), Nat2Z.id. exact He.
  - intros j c Hj. apply Ha. pose proof (pw_contexts_len _ Hp') as Hl'. pose proof (pw_contexts_len _ Hp) as Hl.
    cbn [contexts set_contexts num_contexts] in Hl'. apply lookup_lt_Some in Hj. lia.
Qed.

(** An accurate line is up exactly when there is a candidate. *)
Lemma accurate_ip p vs i c : sync p vs -> accurate p i -> contexts p !! i = Some c ->
  exists v, vs !! Z.to_nat (hart_id c) = Some v /\
    (flag (v_ip v) (line_field c) = true <-> exists id, candidate p c id).
Proof.
  intros [_ Hs] (c' & r & Hc' & Hr & Hl) Hc. rewrite Hc in Hc'. injection Hc' as <-.
  destruct (Hs i c Hc) as (v & Hv & _ & Hf). exists v. split; [done|]. rewrite Hf, Hl.
  rewrite negb_true_iff, Z.eqb_neq. destruct Hr as [[-> Hno]|[Hr _]].
  - split; [done|]. intros [id Hid]. by destruct (Hno id).
  - split; [by exists r|]. intros _. destruct Hr as (? & _). lia.
Qed.

(** ** Pending bits *)

Definition pend_word (w id : Z) (b : bool) : Z :=
  if b then Z.lor w (Z.shiftl 1 (id mod 32)) else Z.ldiff w (Z.shiftl 1 (id mod 32)).

Lemma pend_word_bits w id b j : 0 <= id -> 0 <= j ->
  Z.testbit (pend_word w id b) j = if j =? id mod 32 then b else Z.testbit w j.
Proof.
  intros Hid Hj. pose proof (Z.mod_pos_bound id 32 ltac:(done)) as Hm.
  assert (Z.testbit (Z.shiftl 1 (id mod 32)) j = (j =? id mod 32)) as Hb.
  { rewrite Z.shiftl_1_l, Z.pow2_bits_eqb by lia. apply Z.eqb_sym. }
  unfold pend_word. destruct b; rewrite ?Z.lor_spec, ?Z.ldiff_spec, Hb;
    destruct (j =? id mod 32); by rewrite ?orb_true_r, ?orb_false_r, ?andb_false_r, ?andb_true_r.
Qed.

Lemma pend_word_inw w id b : 0 <= id -> inw 32 w -> inw 32 (pend_word w id b).
Proof.
  intros Hid Hw. pose proof (Z.mod_pos_bound id 32 ltac:(done)) as Hm.
  assert (inw 32 (Z.shiftl 1 (id mod 32))) as Hs.
  { rewrite Z.shiftl_1_l. split; [lia|]. apply Z.pow_lt_mono_r; lia. }
  unfold pend_word. destruct b; [by apply inw_lor|].
  rewrite Z.ldiff_land, Z.land_comm, Z.land_comm. apply inw_bits; [lia| |].
  - apply Z.land_nonneg. left. apply Hw.
  - intros j Hj. by rewrite Z.land_spec, (inw_high 32 w).
Qed.

(** The controller with the pending bit of [id] set to [b]. *)
Definition with_pending (p : PLIC) (id : Z) (b : bool) : PLIC :=
  set_pending_words (alter (fun w => pend_word w id b) (Z.to_nat (id / 32)) (pending_words p)) p.

Lemma with_pending_wf p id b : 0 <= id -> plic_wf p -> plic_wf (with_pending p id b).
Proof.
  intros Hid [[? ? Hl Hw] ? ? ? Hc]. split; [split; [done|done| |]|done|done|done|].
  - cbn [with_pending pending_words set_pending_words]. by rewrite length_alter.
  - cbn [with_pending pending_words set_pending_words]. apply Forall_lookup_2. intros j w Hj.
    destruct (decide (j = Z.to_nat (id / 32))) as [->|Hne].
    + rewrite list_lookup_alter_eq in Hj. destruct (pending_words p !! _) as [w0|] eqn:E; [|done].
      injection Hj as <-. apply pend_word_inw; [done|]. by apply (Forall_lookup_1 _ _ _ _ Hw E).
    + rewrite list_lookup_alter_ne in Hj by done. by apply (Forall_lookup_1 _ _ _ _ Hw Hj).
  - intros i c Hi. destruct (Hc i c Hi) as ([? ? ?] & ? & ?). by repeat split.
Qed.

Lemma with_pending_bits p id b j : plic_wf p -> 0 <= id < 32 * nwords p -> 0 <= j ->
  bit_of (pending_words (with_pending p id b)) j = if j =? id then b else bit_of (pending_words p) j.
Proof.
  intros Hp Hid Hj. unfold bit_of. cbn [with_pending pending_words set_pending_words].
  pose proof (sw_pending_len _ (pw_srcs _ Hp)) as Hl.
  pose proof (Z.mod_pos_bound id 32 ltac:(done)). pose proof (Z.mod_pos_bound j 32 ltac:(done)).
  pose proof (Z.div_mod id 32 ltac:(done)). pose proof (Z.div_mod j 32 ltac:(done)).
  destruct (decide (j / 32 = id / 32)) as [E|E].
  - rewrite E. destruct (lookup_lt_is_Some_2 (pending_words p) (Z.to_nat (id / 32))) as [w Hw]; [lia|].
    rewrite (nth_lookup_Some _ _ 0 (pend_word w id b)) by (by rewrite list_lookup_alter_eq, Hw).
    rewrite (nth_lookup_Some _ _ 0 _ Hw), pend_word_bits by lia.
    destruct (Z.eqb_spec (j mod 32) (id mod 32)), (Z.eqb_spec j id); try done; lia.
  - rewrite (proj2 (Z.eqb_neq j id)) by congruence.
    rewrite !nth_lookup, list_lookup_alter_ne; [done|]. pose proof (Z.div_pos j 32). pose proof (Z.div_pos id 32). lia.
Qed.

Lemma put_pending_spec p vs id b : plic_wf p -> 0 <= id < 32 * nwords p ->
  put_pending id b (p, vs) = Ret (tt, (with_pending p id b, vs)).
Proof.
  intros Hp Hid. pose proof (sw_pending_len _ (pw_srcs _ Hp)) as Hl.
  assert (0 <= id / 32 < Z.of_nat (length (pending_words p))) as Hr.
  { rewrite Hl. split; [apply Z.div_pos; lia|apply Z.div_lt_upper_bound; lia]. }
  unfold put_pending. cbv [mbind ST_bind]. unfold dev, gets, lift. cbn [fst].
  destruct (vget_in _ _ Hr) as (w & -> & Hw). rewrite (vset_in _ _ _ Hr). cbv zeta. fold (pend_word w id b).
  unfold upd, modify. cbn [fst snd]. unfold with_pending. do 4 f_equal. apply list_eq. intros j.
  destruct (decide (j = Z.to_nat (id / 32))) as [->|Hne].
  - rewrite list_lookup_alter_eq, Hw. apply list_lookup_insert_eq. by apply lookup_lt_Some in Hw.
  - by rewrite list_lookup_alter_ne, list_lookup_insert_ne.
Qed.

Lemma set_pending_spec p vs src b : plic_wf p -> sync p vs -> 1 <= src <= max_sources p -> src < 32 * nwords p ->
  exists cs vs', let p' := set_contexts cs (with_pending p src b) in
    set_pending src b (p, vs) = Ret (tt, (p', vs')) /\ plic_wf p' /\ sync p' vs' /\
    forall j c, cs !! j = Some c -> accurate p' j.
Proof.
  intros Hp Hs Hsrc Hlt.
  assert (plic_wf (with_pending p src b)) as Hp1 by (apply with_pending_wf; [lia|done]).
  destruct (update_all_spec _ vs Hp1 Hs) as (cs & vs' & He & Hrest). exists cs, vs'. split; [|exact Hrest].
  unfold set_pending. cbv [mbind ST_bind]. unfold dev, gets. cbn [fst].
  rewrite (proj2 (Z.eqb_neq src 0)), (proj2 (Z.ltb_ge _ src)) by lia. cbn [orb].
  rewrite put_pending_spec by (done || lia). exact He.
Qed.

(** The controller is well formed and [irq] is one of its sources. *)
Definition plic_ready (irq : Z) (p : PLIC) (vs : list HartView) : Prop :=
  plic_wf p /\ sync p vs /\ 1 <= irq <= max_sources p /\ irq < 32 * nwords p.

Lemma on_plic_pending {D} (u : D) irq p vs b : plic_ready irq p vs ->
  exists p' vs', on_plic (set_pending irq b) (u, p, vs) = Ret (tt, (u, p', vs')) /\
    plic_ready irq p' vs' /\ bit_of (pending_words p') irq = b.
Proof.
  intros (Hp & Hs & Hi & Hlt). destruct (set_pending_spec p vs irq b Hp Hs Hi Hlt) as (cs & vs' & He & Hp' & Hs' & _).
  eexists _, vs'. unfold on_plic. cbn [fst snd]. rewrite He. split; [done|]. split; [done|].
  cbn [pending_words set_contexts]. rewrite with_pending_bits by (done || lia). by rewrite Z.eqb_refl.
Qed.

(** Raising or clearing a source updates exactly its pending bit, and
    afterwards the external-interrupt bit of every hart and mode is set
    exactly when some source is pending, enabled and above the threshold for
    its context. *)
Lemma plic_lines p vs src b : plic_wf p -> sync p vs -> 1 <= src <= max_sources p -> src < 32 * nwords p ->
  exists p' vs', set_pending src b (p, vs) = Ret (tt, (p', vs')) /\ plic_wf p' /\ sync p' vs' /\
    (forall id, 0 <= id -> bit_of (pending_words p') id = if id =? src then b else bit_of (pending_words p) id) /\
    forall i c, contexts p' !! i = Some c -> exists v, vs' !! Z.to_nat (hart_id c) = Some v /\
      (flag (v_ip v) (line_field c) = true <-> exists id, candidate p' c id).
Proof.
  intros Hp Hs Hsrc Hlt. destruct (set_pending_spec p vs src b Hp Hs Hsrc Hlt) as (cs & vs' & He & Hp' & Hs' & Ha).
  eexists _, vs'. split; [exact He|]. split; [done|]. split; [done|]. split.
  - intros id Hid. apply with_pending_bits; [done|lia|done].
  - intros i c Hi. eapply accurate_ip; [done| |done]. by apply (Ha i c).
Qed.

(** C25: claiming returns the pending and enabled source of highest priority
    above the threshold, the lowest-numbered among equals, or 0 when there is
    none; it clears the pending bit of that source and no other, and the line
    of the claiming context tells whether another source is left. Completing
    the source whose number is 32 times the words of pending bits, which the
    range check admits, is undefined. *)
Theorem plic_claim p vs i c : plic_wf p -> sync p vs -> contexts p !! i = Some c ->
  (exists r p' vs', claim_interrupt (Z.of_nat i) (p, vs) = Ret (r, (p', vs')) /\
    is_best p c r /\ plic_wf p' /\ sync p' vs' /\
    (forall id, 1 <= id -> bit_of (pending_words p') id = negb (id =? r) && bit_of (pending_words p) id) /\
    (r <> 0 -> accurate p' i)) /\
  (max_sources p = 32 * nwords p -> 0 < max_sources p ->
    complete_interrupt (Z.of_nat i) (max_sources p) (p, vs) = Undef).
Proof.
  intros Hp Hs Hi. split.
  - destruct (find_highest_spec p i c Hp Hi) as (r & Hf & Hr). exists r. unfold claim_interrupt.
    cbv [mbind ST_bind]. unfold dev, gets, lift. cbn [fst id]. rewrite Hf.
    destruct (Z.eqb_spec r 0) as [->|Hne]; cbn [negb].
    + exists p, vs. split_and!; try done. intros id Hid. by rewrite (proj2 (Z.eqb_neq id 0)) by lia.
    + assert (candidate p c r) as Hcand by (by destruct Hr as [[]|[]]).
      destruct Hcand as (Hr1 & Hr2 & _). set (p1 := with_pending p r false).
      assert (plic_wf p1) as Hp1 by (apply with_pending_wf; [lia|done]).
      destruct (find_highest_spec p1 i c Hp1 Hi) as (r1 & _ & Hb1).
      destruct (update_context_spec p1 vs i c r1 Hp1 Hs Hi Hb1) as (vs' & He & Hs').
      rewrite put_pending_spec by (done || lia). fold p1. rewrite He.
      eexists _, vs'. split; [done|]. split; [done|]. split; [by apply with_line_wf|]. split; [done|]. split.
      * intros id Hid. change (pending_words (with_line p1 i _)) with (pending_words p1). unfold p1.
        rewrite with_pending_bits by (done || lia). by destruct (id =? r).
      * intros _. exists (set_line (negb (r1 =? 0)) c), r1. split; [|split; [exact Hb1|done]].
        cbn [with_line contexts set_contexts]. rewrite list_lookup_alter_eq. by rewrite (Hi : contexts p1 !! i = Some c).
  - intros Hm Hpos. unfold complete_interrupt. cbv [mbind ST_bind]. unfold dev, gets. cbn [fst].
    rewrite (proj2 (Z.eqb_neq _ 0)), Z.ltb_irrefl by lia. cbn [orb]. unfold put_pending. cbv [mbind ST_bind].
    unfold dev, gets, lift. cbn [fst]. pose proof (sw_pending_len _ (pw_srcs _ Hp)) as Hl.
    unfold vget. rewrite Hm, Z.mul_comm, Z.div_mul by done.
    rewrite (proj2 (Z.ltb_ge _ 0)), (lookup_ge_None_2 (pending_words p)) by lia. done.
Qed.
