(* ===== verification/Uart.v ===== *)
(** * Serial port ([src/devices/uart.cpp])

    An NS16550A with a receive FIFO. The device holds a pointer to the PLIC,
    so its state is paired with the controller's; [out_stream] is the list of
    bytes written to the output stream. *)

From S2P Require Import Prelude Defs Device Plic.

Definition IIR_NO_INT : Z := 0x01.
Definition IIR_THR_EMPTY : Z := 0x02.
Definition IIR_RX_AVAILABLE : Z := 0x04.
Definition LSR_DATA_READY : Z := 0x01.
Definition LSR_THR_EMPTY : Z := 0x20.
Definition LSR_TEMT : Z := 0x40.
Definition LSR_OE : Z := 0x02.
Definition FIFO_SIZE : Z := 512.

Record UART := mkUART {
  u_start : Z; irq_num : Z;
  rhr : Z; thr : Z; ier : Z; iir : Z; fcr : Z; lcr : Z; mcr : Z; lsr : Z; msr : Z; scr : Z;
  dll : Z; dlm : Z;
  rx_irq_pending : bool; tx_irq_pending : bool; dlab : bool; fifo_enabled : bool;
  fifo_buffer : list Z; out_stream : list Z }.

(** The registers an operation may change at once; the others are kept. *)
Definition set_rx (r l : Z) (q : list Z) (u : UART) : UART :=
  mkUART (u_start u) (irq_num u) r (thr u) (ier u) (iir u) (fcr u) (lcr u) (mcr u) l (msr u) (scr u) (dll u) (dlm u)
    (rx_irq_pending u) (tx_irq_pending u) (dlab u) (fifo_enabled u) q (out_stream u).
Definition set_irq (i : Z) (rx tx : bool) (u : UART) : UART :=
  mkUART (u_start u) (irq_num u) (rhr u) (thr u) (ier u) i (fcr u) (lcr u) (mcr u) (lsr u) (msr u) (scr u) (dll u)
    (dlm u) rx tx (dlab u) (fifo_enabled u) (fifo_buffer u) (out_stream u).
Definition set_tx (b : Z) (u : UART) : UART :=
  mkUART (u_start u) (irq_num u) (rhr u) b (ier u) (iir u) (fcr u) (lcr u) (mcr u) (lsr u) (msr u) (scr u) (dll u)
    (dlm u) (rx_irq_pending u) (tx_irq_pending u) (dlab u) (fifo_enabled u) (fifo_buffer u) (out_stream u ++ [b]).
Definition set_ier (b : Z) (u : UART) : UART :=
  mkUART (u_start u) (irq_num u) (rhr u) (thr u) b (iir u) (fcr u) (lcr u) (mcr u) (lsr u) (msr u) (scr u) (dll u)
    (dlm u) (rx_irq_pending u) (tx_irq_pending u) (dlab u) (fifo_enabled u) (fifo_buffer u) (out_stream u).
Definition set_fcr (b : Z) (en : bool) (u : UART) : UART :=
  mkUART (u_start u) (irq_num u) (rhr u) (thr u) (ier u) (iir u) b (lcr u) (mcr u) (lsr u) (msr u) (scr u) (dll u)
    (dlm u) (rx_irq_pending u) (tx_irq_pending u) (dlab u) en (fifo_buffer u) (out_stream u).
Definition set_misc (lcr' mcr' scr' dll' dlm' : Z) (d : bool) (u : UART) : UART :=
  mkUART (u_start u) (irq_num u) (rhr u) (thr u) (ier u) (iir u) (fcr u) lcr' mcr' (lsr u) (msr u) scr' dll' dlm'
    (rx_irq_pending u) (tx_irq_pending u) d (fifo_enabled u) (fifo_buffer u) (out_stream u).

Definition uart_new (start irq : Z) : UART :=
  mkUART start irq 0 0 0 0x01 0 0 0 (Z.lor LSR_THR_EMPTY LSR_TEMT) 0 0 0 0 false false false false [] [].

(** [init_auto], after [plic->acquire_irq()]. *)
Definition uart_init_auto (irq : Z) : UART := uart_new 0x10000000 irq.

Definition has_bit (x m : Z) : bool := negb (Z.land x m =? 0).

Definition calc_iir_locked (u : UART) : Z :=
  if has_bit (ier u) 0x01 && has_bit (lsr u) LSR_DATA_READY then IIR_RX_AVAILABLE
  else if has_bit (ier u) 0x02 && has_bit (lsr u) LSR_THR_EMPTY then IIR_THR_EMPTY
  else IIR_NO_INT.

(** The state of the device is [(UART, PLIC)]. *)
Definition UM (A : Type) : Type := PM UART A.

Definition uart : UM UART := own.
Definition upd_uart (f : UART -> UART) : UM unit := upd_own f.

Definition trigger_irq : UM unit := u ← uart; on_plic (set_pending (irq_num u) true).
Definition clear_irq : UM unit := u ← uart; on_plic (set_pending (irq_num u) false).

Definition update_iir : UM unit :=
  u ← uart;
  let new_iir := calc_iir_locked u in
  _ ← upd_uart (set_irq new_iir (rx_irq_pending u) (tx_irq_pending u));
  if negb (new_iir =? IIR_NO_INT) then
    _ ← trigger_irq;
    if new_iir =? IIR_RX_AVAILABLE then upd_uart (fun u => set_irq (iir u) true (tx_irq_pending u) u)
    else if new_iir =? IIR_THR_EMPTY then upd_uart (fun u => set_irq (iir u) (rx_irq_pending u) true u)
    else mret tt
  else
    _ ← clear_irq;
    upd_uart (fun u => set_irq (iir u) false false u).

(** Reading the receive register. *)
Definition read_rhr : UM Z :=
  u ← uart;
  let '(value, l, q) :=
    if fifo_enabled u then
      match fifo_buffer u with
      | [] => (0, lsr u, [])
      | b :: q => (b, if bool_decide (q = []) then Z.ldiff (lsr u) LSR_DATA_READY else lsr u, q)
      end
    else (rhr u, Z.ldiff (lsr u) LSR_DATA_READY, fifo_buffer u) in
  _ ← upd_uart (set_rx (rhr u) (if has_bit l LSR_OE then Z.ldiff l LSR_OE else l) q);
  _ ← update_iir;
  mret value.

Definition read_iir : UM Z :=
  u ← uart;
  let value := iir u in
  _ ← (if (value =? IIR_RX_AVAILABLE) && rx_irq_pending u then
         _ ← upd_uart (fun u => set_irq (iir u) false (tx_irq_pending u) u);
         if calc_iir_locked u =? IIR_NO_INT then update_iir else mret tt
       else if (value =? IIR_THR_EMPTY) && tx_irq_pending u then
         _ ← upd_uart (fun u => set_irq (iir u) (rx_irq_pending u) false u);
         if calc_iir_locked u =? IIR_NO_INT then update_iir else mret tt
       else mret tt);
  mret value.

Definition uart_read (addr : Z) (sz : MemorySize) : UM Z :=
  u ← uart;
  let reg := u8 (u64 (addr - u_start u)) in
  if reg =? 0 then if dlab u then mret (dll u) else read_rhr
  else if reg =? 1 then mret (if dlab u then dlm u else ier u)
  else if reg =? 2 then read_iir
  else if reg =? 3 then mret (lcr u)
  else if reg =? 4 then mret (mcr u)
  else if reg =? 5 then mret (lsr u)
  else if reg =? 6 then mret (msr u)
  else if reg =? 7 then mret (scr u)
  else mret 0.

(** Writing the FIFO control register. *)
Definition write_fcr (b : Z) : UM unit :=
  u ← uart;
  let old_fifo := fifo_enabled u in
  let en := has_bit b 0x01 in
  _ ← upd_uart (set_fcr b en);
  _ ← (if en && negb old_fifo && has_bit (lsr u) LSR_DATA_READY then
         let q := fifo_buffer u ++ [rhr u] in
         upd_uart (set_rx (rhr u)
           (if bool_decide (q = []) then Z.ldiff (lsr u) LSR_DATA_READY else Z.lor (lsr u) LSR_DATA_READY) q)
       else match fifo_buffer u with
            | front :: _ =>
                if negb en && old_fifo then upd_uart (set_rx front (Z.lor (lsr u) LSR_DATA_READY) []) else mret tt
            | [] => mret tt
            end);
  if has_bit b 0x02 then
    _ ← upd_uart (fun u => set_irq (iir u) false (tx_irq_pending u) (set_rx (rhr u) (Z.ldiff (lsr u) LSR_DATA_READY) [] u));
    update_iir
  else mret tt.

Definition uart_write (addr : Z) (sz : MemorySize) (value : Z) : UM unit :=
  u ← uart;
  let reg := u8 (u64 (addr - u_start u)) in
  let b := Z.land value 0xFF in
  if reg =? 0 then
    if dlab u then upd_uart (set_misc (lcr u) (mcr u) (scr u) b (dlm u) (dlab u))
    else _ ← upd_uart (set_tx b); update_iir
  else if reg =? 1 then
    if dlab u then upd_uart (set_misc (lcr u) (mcr u) (scr u) (dll u) b (dlab u))
    else _ ← upd_uart (set_ier (Z.land b 0x0F)); update_iir
  else if reg =? 2 then write_fcr b
  else if reg =? 3 then upd_uart (set_misc b (mcr u) (scr u) (dll u) (dlm u) (has_bit b 0x80))
  else if reg =? 4 then upd_uart (set_misc (lcr u) b (scr u) (dll u) (dlm u) (dlab u))
  else if reg =? 7 then upd_uart (set_misc (lcr u) (mcr u) b (dll u) (dlm u) (dlab u))
  else mret tt.

Definition receive_byte (byte : Z) : UM unit :=
  u ← uart;
  if fifo_enabled u && (FIFO_SIZE <=? Z.of_nat (length (fifo_buffer u))) then
    upd_uart (set_rx (rhr u) (Z.lor (lsr u) LSR_OE) (fifo_buffer u))
  else
    _ ← (if fifo_enabled u then
           upd_uart (set_rx (rhr u) (Z.lor (lsr u) LSR_DATA_READY) (fifo_buffer u ++ [byte]))
         else if has_bit (lsr u) LSR_DATA_READY then
           upd_uart (set_rx (rhr u) (Z.lor (Z.lor (lsr u) LSR_OE) LSR_DATA_READY) (fifo_buffer u))
         else upd_uart (set_rx byte (Z.lor (lsr u) LSR_DATA_READY) (fifo_buffer u)));
    update_iir.

(** ** The promise of the device: a bounded queue and an output

    Seen from the driver and the terminal, the port is a queue of received
    bytes of some capacity, the bytes sent, and the divisor latch that hides
    them. [line_step] is the effect of each operation on that, [line_out]
    what a read must return. *)

Record Line := mkLine { queue : list Z; capacity : nat; sent : list Z; latch : bool }.

Inductive uop := URead (addr : Z) | UWrite (addr value : Z) | URecv (byte : Z).

Definition rx_queue (u : UART) : list Z :=
  if fifo_enabled u then fifo_buffer u else if has_bit (lsr u) LSR_DATA_READY then [rhr u] else [].

Definition line_of (u : UART) : Line :=
  mkLine (rx_queue u) (if fifo_enabled u then Z.to_nat FIFO_SIZE else 1%nat) (out_stream u) (dlab u).

Definition reg_of (u : UART) (addr : Z) : Z := u8 (u64 (addr - u_start u)).

Definition line_step (reg : Z -> Z) (o : uop) (l : Line) : Line :=
  match o with
  | URecv b =>
      mkLine (if decide (length (queue l) < capacity l)%nat then queue l ++ [b] else queue l) (capacity l) (sent l) (latch l)
  | URead a => if (reg a =? 0) && negb (latch l) then mkLine (tail (queue l)) (capacity l) (sent l) (latch l) else l
  | UWrite a v =>
      let b := Z.land v 0xFF in
      if (reg a =? 0) && negb (latch l) then mkLine (queue l) (capacity l) (sent l ++ [b]) (latch l)
      else if reg a =? 2 then
        let cap := if has_bit b 0x01 then Z.to_nat FIFO_SIZE else 1%nat in
        mkLine (if has_bit b 0x02 then [] else take cap (queue l)) cap (sent l) (latch l)
      else if reg a =? 3 then mkLine (queue l) (capacity l) (sent l) (has_bit b 0x80)
      else l
  end.

(** The data register returns the oldest byte, and bit 0 of the line status
    register tells whether there is one. *)
Definition line_out (reg : Z -> Z) (o : uop) (l : Line) (v : Z) : Prop :=
  match o with
  | URead a =>
      (reg a = 0 -> latch l = false -> forall b q, queue l = b :: q -> v = b) /\
      (reg a = 5 -> has_bit v LSR_DATA_READY = negb (bool_decide (queue l = [])))
  | _ => True
  end.

Fixpoint line_run (reg : Z -> Z) (ops : list uop) (l : Line) (vs : list Z) (l' : Line) : Prop :=
  match ops, vs with
  | [], [] => l' = l
  | o :: ops, v :: vs => line_out reg o l v /\ line_run reg ops (line_step reg o l) vs l'
  | _, _ => False
  end.

(** The device operations, one after the other, with the values read. *)
Definition uart_step (sz : MemorySize) (o : uop) : UM Z :=
  match o with
  | URead a => uart_read a sz
  | UWrite a v => _ ← uart_write a sz v; mret 0
  | URecv b => _ ← receive_byte b; mret 0
  end.

Fixpoint uart_run (sz : MemorySize) (ops : list uop) : UM (list Z) :=
  match ops with
  | [] => mret []
  | o :: ops => v ← uart_step sz o; vs ← uart_run sz ops; mret (v :: vs)
  end.

(** ** Invariant *)

Record uart_ok (u : UART) : Prop := {
  uk_on : fifo_enabled u = true ->
    has_bit (lsr u) LSR_DATA_READY = negb (bool_decide (fifo_buffer u = [])) /\ (length (fifo_buffer u) <= Z.to_nat FIFO_SIZE)%nat;
  uk_off : fifo_enabled u = false -> fifo_buffer u = [];
  uk_iir : iir u = calc_iir_locked u }.

Lemma update_iir_spec u p vs : plic_ready (irq_num u) p vs ->
  exists p' vs' rx tx, update_iir (u, p, vs) = Ret (tt, (set_irq (calc_iir_locked u) rx tx u, p', vs')) /\
    plic_ready (irq_num u) p' vs' /\
    bit_of (pending_words p') (irq_num u) = negb (calc_iir_locked u =? IIR_NO_INT).
Proof.
  intros Hr. unfold update_iir. cbv [mbind ST_bind]. unfold uart, own, dev, gets. cbn [fst snd].
  unfold upd_uart at 1, upd_own, upd, modify. cbn [fst snd].
  set (u1 := set_irq _ _ _ u). assert (irq_num u1 = irq_num u) as Hirq by done.
  destruct (on_plic_pending u1 (irq_num u) p vs (negb (calc_iir_locked u =? IIR_NO_INT))) as (p' & vs' & He & Hr' & Hb); [done|].

  destruct (negb (calc_iir_locked u =? IIR_NO_INT)); unfold trigger_irq, clear_irq; cbv [mbind ST_bind];
    unfold uart, own, dev, gets; cbn [fst snd]; rewrite Hirq, He; exists p', vs'.
  - repeat case_match; unfold upd_uart, upd_own, upd, modify; cbn [fst snd]; eexists _, _; (split; [reflexivity|done]).
  - eexists _, _; (split; [reflexivity|done]).
Qed.

Lemma has_bit_testbit x k : 0 <= k -> has_bit x (2 ^ k) = Z.testbit x k.
Proof.
  intros Hk. unfold has_bit. destruct (Z.testbit x k) eqn:E.
  - apply negb_true_iff, Z.eqb_neq. intros H. apply (f_equal (fun y => Z.testbit y k)) in H.
    by rewrite Z.land_spec, E, Z.pow2_bits_true, Z.bits_0 in H.
  - apply negb_false_iff, Z.eqb_eq, Z.bits_inj'. intros j Hj. rewrite Z.land_spec, Z.bits_0, Z.pow2_bits_eqb by lia.
    destruct (Z.eqb_spec k j) as [->|]; [by rewrite E|by rewrite andb_false_r].
Qed.

(** The bits of the line status register the device changes. *)
Lemma lsr_bits x :
  has_bit (Z.lor x LSR_DATA_READY) LSR_DATA_READY = true /\ has_bit (Z.ldiff x LSR_DATA_READY) LSR_DATA_READY = false /\
  has_bit (Z.lor x LSR_OE) LSR_DATA_READY = has_bit x LSR_DATA_READY /\
  has_bit (Z.ldiff x LSR_OE) LSR_DATA_READY = has_bit x LSR_DATA_READY /\
  has_bit (Z.lor x LSR_OE) LSR_THR_EMPTY = has_bit x LSR_THR_EMPTY /\ has_bit (Z.lor x LSR_OE) LSR_OE = true.
Proof.
  change LSR_DATA_READY with (2 ^ 0). change LSR_OE with (2 ^ 1). change LSR_THR_EMPTY with (2 ^ 5).
  rewrite !has_bit_testbit by done. rewrite !Z.lor_spec, !Z.ldiff_spec, !Z.pow2_bits_eqb by done. cbn.
  by rewrite !orb_true_r, !orb_false_r, ?andb_true_r, ?andb_false_r.
Qed.

(** The data part of the invariant, which [update_iir] completes. *)
Definition rx_ok (u : UART) : Prop :=
  if fifo_enabled u then
    has_bit (lsr u) LSR_DATA_READY = negb (bool_decide (fifo_buffer u = [])) /\ (length (fifo_buffer u) <= Z.to_nat FIFO_SIZE)%nat
  else fifo_buffer u = [].

Lemma uart_ok_rx u : uart_ok u <-> rx_ok u /\ iir u = calc_iir_locked u.
Proof.
  unfold rx_ok. split.
  - intros [H1 H2 H3]. destruct (fifo_enabled u); auto.
  - intros [H1 H2]. split; [intros E; by rewrite E in H1|intros E; by rewrite E in H1|done].
Qed.

(** What every operation establishes: the state reached from [u] is well
    formed, and its abstraction is [l]. *)
Definition reaches (u : UART) (l : Line) (m : outcome (unit * (UART * PLIC * list HartView))) : Prop :=
  exists u' p' vs', m = Ret (tt, (u', p', vs')) /\ uart_ok u' /\ plic_ready (irq_num u') p' vs' /\
    u_start u' = u_start u /\ line_of u' = l.

Lemma update_iir_reaches u u0 p vs : rx_ok u -> plic_ready (irq_num u) p vs -> u_start u = u_start u0 ->
  reaches u0 (line_of u) (update_iir (u, p, vs)).
Proof.
  intros Hu Hp Hs. destruct (update_iir_spec u p vs Hp) as (p' & vs' & rx & tx & -> & Hp' & _).
  eexists _, p', vs'. split; [reflexivity|]. split; [by apply uart_ok_rx|]. done.
Qed.

Lemma reaches_ok u p vs : uart_ok u -> plic_ready (irq_num u) p vs -> reaches u (line_of u) (Ret (tt, (u, p, vs))).
Proof. intros Hu Hp. by exists u, p, vs. Qed.

(** Unfolding of the device monad on a concrete state. *)
Ltac uart_unfold := cbv [mbind ST_bind mret ST_ret]; unfold uart, upd_uart, own, upd_own, dev, upd, gets, modify; cbn [fst snd].

Lemma receive_reaches b u p vs l : uart_ok u -> plic_ready (irq_num u) p vs ->
  l = line_step (reg_of u) (URecv b) (line_of u) -> reaches u l (receive_byte b (u, p, vs)).
Proof.
  intros Hu Hp ->. pose proof (lsr_bits (lsr u)) as (Hdr & _ & Hoe & _ & Hthr & _).
  pose proof (proj1 (lsr_bits (Z.lor (lsr u) LSR_OE))) as Hdr2.
  apply uart_ok_rx in Hu as [Hrx Hi]. unfold rx_ok in Hrx. unfold receive_byte. uart_unfold.
  assert (line_step (reg_of u) (URecv b) (line_of u) =
    mkLine (if decide (length (rx_queue u) < if fifo_enabled u then Z.to_nat FIFO_SIZE else 1)%nat then rx_queue u ++ [b] else rx_queue u)
      (if fifo_enabled u then Z.to_nat FIFO_SIZE else 1%nat) (out_stream u) (dlab u)) as -> by done.
  unfold rx_queue. destruct (fifo_enabled u) eqn:En; cbn [andb].
  - destruct Hrx as [Hne Hlen]. destruct (Z.leb_spec FIFO_SIZE (Z.of_nat (length (fifo_buffer u)))) as [Hfull|Hroom].
    + rewrite decide_False by lia. eexists _, p, vs. split; [reflexivity|]. split; [|split_and!; try done].
      * apply uart_ok_rx. unfold rx_ok, calc_iir_locked. cbn [fst snd set_rx fifo_enabled lsr fifo_buffer iir ier].
        rewrite En, Hoe, Hthr, Hne. split; [done|]. by rewrite Hi; unfold calc_iir_locked; rewrite Hne.
      * unfold line_of, rx_queue. cbn [fst snd set_rx fifo_enabled lsr fifo_buffer out_stream dlab]. by rewrite En.
    + rewrite decide_True by lia. uart_unfold. set (u1 := set_rx _ _ _ u).
      assert (line_of u1 = mkLine (fifo_buffer u ++ [b]) (Z.to_nat FIFO_SIZE) (out_stream u) (dlab u)) as <-.
      { unfold line_of, rx_queue. cbn [u1 set_rx fifo_enabled lsr fifo_buffer out_stream dlab]. by rewrite En. }
      apply update_iir_reaches; [|done|done]. unfold rx_ok. cbn [u1 set_rx fifo_enabled lsr fifo_buffer].
      rewrite En, Hdr, length_app. cbn [length]. split; [|lia]. by destruct (fifo_buffer u).
  - destruct (has_bit (lsr u) LSR_DATA_READY) eqn:Dr; uart_unfold; set (u1 := set_rx _ _ _ u).
    + rewrite decide_False by (cbn; lia). assert (line_of u1 = mkLine [rhr u] 1%nat (out_stream u) (dlab u)) as <-.
      { unfold line_of, rx_queue. cbn [u1 set_rx fifo_enabled lsr fifo_buffer out_stream dlab rhr]. by rewrite En, Hdr2. }
      apply update_iir_reaches; [|done|done]. unfold rx_ok. cbn [u1 set_rx fifo_enabled fifo_buffer]. by rewrite En.
    + rewrite decide_True by (cbn; lia). assert (line_of u1 = mkLine ([] ++ [b]) 1%nat (out_stream u) (dlab u)) as <-.
      { unfold line_of, rx_queue. cbn [u1 set_rx fifo_enabled lsr fifo_buffer out_stream dlab rhr]. by rewrite En, Hdr. }
      apply update_iir_reaches; [|done|done]. unfold rx_ok. cbn [u1 set_rx fifo_enabled fifo_buffer]. by rewrite En.
Qed.

Lemma read_rhr_reaches u p vs : uart_ok u -> plic_ready (irq_num u) p vs ->
  exists v u' p' vs', read_rhr (u, p, vs) = Ret (v, (u', p', vs')) /\ uart_ok u' /\ plic_ready (irq_num u') p' vs' /\
    u_start u' = u_start u /\ line_of u' = mkLine (tail (rx_queue u)) (capacity (line_of u)) (out_stream u) (dlab u) /\
    forall b q, rx_queue u = b :: q -> v = b.
Proof.
  intros Hu Hp. apply uart_ok_rx in Hu as [Hrx _]. unfold rx_ok in Hrx.
  set (v := if fifo_enabled u then hd 0 (fifo_buffer u) else rhr u).
  set (l := if fifo_enabled u && negb (bool_decide (tail (fifo_buffer u) = [])) || fifo_enabled u && bool_decide (fifo_buffer u = [])
            then lsr u else Z.ldiff (lsr u) LSR_DATA_READY).
  set (l' := if has_bit l LSR_OE then Z.ldiff l LSR_OE else l).
  set (q := if fifo_enabled u then tail (fifo_buffer u) else fifo_buffer u).
  set (u1 := set_rx (rhr u) l' q u).
  assert (has_bit l' LSR_DATA_READY = has_bit l LSR_DATA_READY) as Hl'.
  { unfold l'. destruct (has_bit l LSR_OE); [|done]. apply lsr_bits. }
  assert (has_bit l LSR_DATA_READY = fifo_enabled u && negb (bool_decide (q = []))) as Hl.
  { unfold l, q. destruct (fifo_enabled u); cbn [andb orb]; [|apply lsr_bits].
    destruct Hrx as [Hne _]. destruct (fifo_buffer u) as [|b [|b' q']]; cbn in *; [done|apply lsr_bits|done]. }
  assert (rx_ok u1 /\ line_of u1 = mkLine (tail (rx_queue u)) (capacity (line_of u)) (out_stream u) (dlab u)) as [Hu1 Hl1].
  { unfold rx_ok, line_of, rx_queue. cbn [u1 set_rx fifo_enabled lsr fifo_buffer out_stream dlab rhr capacity].
    rewrite Hl', Hl. unfold q. destruct (fifo_enabled u); cbn [andb].
    - split; [|done]. split; [done|]. destruct (fifo_buffer u); cbn in *; lia.
    - split; [done|]. by destruct (has_bit (lsr u) LSR_DATA_READY). }
  destruct (update_iir_reaches u1 u p vs Hu1 Hp eq_refl) as (u' & p' & vs' & He & Hu' & Hp' & Hs' & Hl'').
  exists v, u', p', vs'. split; [|split; [done|split; [done|split; [done|split; [congruence|]]]]].
  - unfold read_rhr. uart_unfold.
    assert ((if fifo_enabled u then match fifo_buffer u with
       | [] => (0, lsr u, [])
       | b :: q => (b, if bool_decide (q = []) then Z.ldiff (lsr u) LSR_DATA_READY else lsr u, q) end
      else (rhr u, Z.ldiff (lsr u) LSR_DATA_READY, fifo_buffer u)) = (v, l, q)) as ->.
    { unfold v, l, q. destruct (fifo_enabled u); [|done]. destruct (fifo_buffer u) as [|b [|b' q']]; done. }
    uart_unfold. change (set_rx (rhr u) _ q u) with u1. by rewrite He.
  - intros b q' Hq. unfold rx_queue in Hq. unfold v. destruct (fifo_enabled u); [by rewrite Hq|].
    destruct (has_bit (lsr u) LSR_DATA_READY); [|done]. by injection Hq as -> _.
Qed.

Lemma read_iir_reaches u p vs : uart_ok u -> plic_ready (irq_num u) p vs ->
  exists v u' p' vs', read_iir (u, p, vs) = Ret (v, (u', p', vs')) /\ uart_ok u' /\ plic_ready (irq_num u') p' vs' /\
    u_start u' = u_start u /\ line_of u' = line_of u.
Proof.
  intros Hu Hp. apply uart_ok_rx in Hu as [Hrx Hi]. unfold read_iir. uart_unfold. exists (iir u).
  assert (forall rx tx, exists u' p' vs', (if calc_iir_locked u =? IIR_NO_INT then update_iir else mret tt)
    (set_irq (iir u) rx tx u, p, vs) = Ret (tt, (u', p', vs')) /\ uart_ok u' /\ plic_ready (irq_num u') p' vs' /\
    u_start u' = u_start u /\ line_of u' = line_of u) as Hclear.
  { intros rx tx. destruct (calc_iir_locked u =? IIR_NO_INT).
    - exact (update_iir_reaches (set_irq (iir u) rx tx u) u p vs Hrx Hp eq_refl).
    - apply (reaches_ok (set_irq (iir u) rx tx u) p vs); [|done]. by apply uart_ok_rx. }
  cbv [mret ST_ret] in Hclear. destruct (_ && _)%bool; [|destruct (_ && _)%bool]; uart_unfold.
  - destruct (Hclear false (tx_irq_pending u)) as (u' & p' & vs' & -> & H). by exists u', p', vs'.
  - destruct (Hclear (rx_irq_pending u) false) as (u' & p' & vs' & -> & H). by exists u', p', vs'.
  - exists u, p, vs. split; [done|]. split; [by apply uart_ok_rx|done].
Qed.

Lemma lsr_thr x : has_bit (Z.lor x LSR_DATA_READY) LSR_THR_EMPTY = has_bit x LSR_THR_EMPTY.
Proof.
  change LSR_DATA_READY with (2 ^ 0). change LSR_THR_EMPTY with (2 ^ 5). rewrite !has_bit_testbit by done.
  rewrite Z.lor_spec, Z.pow2_bits_eqb by done. cbn. by rewrite orb_false_r.
Qed.

(** Switching the FIFO on or off keeps the received bytes that still fit. *)
Lemma fcr_switch b u p vs : uart_ok u ->
  let cap := if has_bit b 0x01 then Z.to_nat FIFO_SIZE else 1%nat in
  exists r l q, let u1 := set_rx r l q (set_fcr b (has_bit b 0x01) u) in
    uart_ok u1 /\ line_of u1 = mkLine (take cap (rx_queue u)) cap (out_stream u) (dlab u) /\
    write_fcr b (u, p, vs) = (if has_bit b 0x02 then
      _ ← upd_uart (fun u => set_irq (iir u) false (tx_irq_pending u) (set_rx (rhr u) (Z.ldiff (lsr u) LSR_DATA_READY) [] u));
      update_iir else mret tt) (u1, p, vs).
Proof.
  intros Hu cap. apply uart_ok_rx in Hu as [Hrx Hi].
  assert (forall r l q, has_bit l LSR_DATA_READY = has_bit (lsr u) LSR_DATA_READY -> has_bit l LSR_THR_EMPTY = has_bit (lsr u) LSR_THR_EMPTY ->
    let u1 := set_rx r l q (set_fcr b (has_bit b 0x01) u) in rx_ok u1 -> uart_ok u1) as Hok.
  { intros r l q Hd Ht u1 H1. apply uart_ok_rx. split; [done|]. unfold calc_iir_locked. cbn [u1 set_rx set_fcr iir lsr ier].
    by rewrite Hd, Ht. }
  unfold write_fcr. uart_unfold. unfold rx_ok in Hrx. unfold line_of, rx_queue, rx_ok, cap in *. clear cap.
  pose proof (lsr_bits (lsr u)) as (Hor & _). pose proof (lsr_thr (lsr u)) as Hthr.
  destruct (has_bit b 0x01) eqn:En, (fifo_enabled u) eqn:Old; cbn [andb negb].
  - exists (rhr u), (lsr u), (fifo_buffer u). destruct Hrx as [Hne Hlen]. split; [by apply Hok|].
    cbn [set_rx set_fcr fifo_enabled lsr fifo_buffer out_stream dlab]. rewrite take_ge by done. split; [done|].
    destruct (fifo_buffer u) eqn:Q; by rewrite <- Q.
  - rewrite Hrx. destruct (has_bit (lsr u) LSR_DATA_READY) eqn:Dr.
    + exists (rhr u), (Z.lor (lsr u) LSR_DATA_READY), [rhr u]. split; [|split; done].
      apply Hok; [by rewrite Hor|done|]. cbn [set_rx set_fcr fifo_enabled lsr fifo_buffer]. rewrite Hor. split; [done|cbn [length]; unfold FIFO_SIZE; lia].
    + exists (rhr u), (lsr u), []. split; [|split; [done|by rewrite <- Hrx]]. apply Hok; [done|done|].
      cbn [set_rx set_fcr fifo_enabled lsr fifo_buffer]. rewrite Dr. split; [done|cbn [length]; unfold FIFO_SIZE; lia].
  - destruct Hrx as [Hne Hlen]. destruct (fifo_buffer u) as [|x q] eqn:Q.
    + exists (rhr u), (lsr u), []. split; [by apply Hok|]. split; [|by rewrite <- Q].
      cbn [set_rx set_fcr fifo_enabled lsr fifo_buffer out_stream dlab]. by rewrite Hne.
    + exists x, (Z.lor (lsr u) LSR_DATA_READY), []. split; [apply Hok; [by rewrite Hor, Hne|done|done]|]. split; [|done].
      cbn [set_rx set_fcr fifo_enabled lsr fifo_buffer out_stream dlab rhr]. by rewrite Hor.
  - exists (rhr u), (lsr u), []. split; [by apply Hok|]. rewrite Hrx. split; [|by rewrite <- Hrx].
    cbn [set_rx set_fcr fifo_enabled lsr fifo_buffer out_stream dlab rhr]. by destruct (has_bit (lsr u) LSR_DATA_READY).
Qed.

Lemma fcr_reaches b u p vs : uart_ok u -> plic_ready (irq_num u) p vs ->
  let cap := if has_bit b 0x01 then Z.to_nat FIFO_SIZE else 1%nat in
  reaches u (mkLine (if has_bit b 0x02 then [] else take cap (rx_queue u)) cap (out_stream u) (dlab u)) (write_fcr b (u, p, vs)).
Proof.
  intros Hu Hp cap. destruct (fcr_switch b u p vs Hu) as (r & l & q & Hu1 & Hl1 & ->). fold cap in Hl1.
  set (u1 := set_rx r l q (set_fcr b (has_bit b 0x01) u)) in *. destruct (has_bit b 0x02).
  - uart_unfold. set (u2 := set_irq _ _ _ _).
    assert (has_bit (lsr u2) LSR_DATA_READY = false) as Hd by apply lsr_bits.
    replace (mkLine [] cap (out_stream u) (dlab u)) with (line_of u2).
    + apply update_iir_reaches; [|done|done]. unfold rx_ok. rewrite Hd. cbn [u2 set_irq set_rx fifo_enabled fifo_buffer].
      destruct (fifo_enabled u1); [split; [done|cbn [length]; unfold FIFO_SIZE; lia]|done].
    + unfold line_of, rx_queue. rewrite Hd. cbn [u2 set_irq set_rx fifo_enabled fifo_buffer out_stream dlab u1 set_fcr].
      unfold cap. by destruct (has_bit b 0x01).
  - rewrite <- Hl1. by exists u1, p, vs.
Qed.

Lemma write_reaches sz a v u p vs : uart_ok u -> plic_ready (irq_num u) p vs ->
  reaches u (line_step (reg_of u) (UWrite a v) (line_of u)) (uart_write a sz v (u, p, vs)).
Proof.
  intros Hu Hp. pose proof (proj1 (uart_ok_rx u) Hu) as [Hrx Hi]. unfold uart_write. uart_unfold. fold (reg_of u a).
  cbn [line_step]. set (b := Z.land v 0xFF). change (latch (line_of u)) with (dlab u).
  assert (forall c d e f g h, reaches u (mkLine (rx_queue u) (capacity (line_of u)) (out_stream u) h)
    (Ret (tt, (set_misc c d e f g h u, p, vs)))) as Hm.
  { intros. eexists _, p, vs. split; [reflexivity|]. by destruct Hu. }
  assert (forall c d e f g, reaches u (line_of u) (Ret (tt, (set_misc c d e f g (dlab u) u, p, vs)))) as Hm' by (intros; apply Hm).
  destruct (Z.eqb_spec (reg_of u a) 0) as [->|]; cbn [andb negb].
  { destruct (dlab u) eqn:Dl; cbn [negb]; [apply Hm'|].
    rewrite <- Dl. exact (update_iir_reaches (set_tx b u) u p vs Hrx Hp eq_refl). }
  destruct (Z.eqb_spec (reg_of u a) 1) as [->|]; cbn [Z.eqb Pos.eqb].
  { destruct (dlab u) eqn:Dl; [apply Hm'|]. exact (update_iir_reaches (set_ier (Z.land b 15) u) u p vs Hrx Hp eq_refl). }
  destruct (Z.eqb_spec (reg_of u a) 2); [by apply fcr_reaches|].
  destruct (Z.eqb_spec (reg_of u a) 3); [apply Hm|].
  repeat case_match; [apply Hm'|apply Hm'|by apply reaches_ok].
Qed.

Lemma uart_read_refines sz a u p vs : uart_ok u -> plic_ready (irq_num u) p vs ->
  exists v u' p' vs', uart_read a sz (u, p, vs) = Ret (v, (u', p', vs')) /\ uart_ok u' /\ plic_ready (irq_num u') p' vs' /\
    u_start u' = u_start u /\ line_of u' = line_step (reg_of u) (URead a) (line_of u) /\ line_out (reg_of u) (URead a) (line_of u) v.
Proof.
  intros Hu Hp. unfold uart_read. uart_unfold. fold (reg_of u a). cbn [line_step line_out].
  change (latch (line_of u)) with (dlab u). change (queue (line_of u)) with (rx_queue u).
  assert (forall v, (reg_of u a = 0 -> dlab u = false -> forall b q, rx_queue u = b :: q -> v = b) ->
    (reg_of u a = 5 -> has_bit v LSR_DATA_READY = negb (bool_decide (rx_queue u = []))) -> (reg_of u a =? 0) && negb (dlab u) = false ->
    exists v0 u' p' vs', Ret (v, (u, p, vs)) = Ret (v0, (u', p', vs')) /\ uart_ok u' /\ plic_ready (irq_num u') p' vs' /\
      u_start u' = u_start u /\ line_of u' = line_of u /\
      (reg_of u a = 0 -> dlab u = false -> forall b q, rx_queue u = b :: q -> v0 = b) /\
      (reg_of u a = 5 -> has_bit v0 LSR_DATA_READY = negb (bool_decide (rx_queue u = [])))) as Hplain.
  { intros v H1 H2 _. by exists v, u, p, vs. }
  destruct (Z.eqb_spec (reg_of u a) 0) as [E|Hn0].
  { destruct (dlab u) eqn:Dl; cbn [andb negb]; [apply Hplain; [done|lia|done]|].
    destruct (read_rhr_reaches u p vs Hu Hp) as (v & u' & p' & vs' & He & Hu' & Hp' & Hs & Hl & Hv).
    exists v, u', p', vs'. rewrite He, Dl in *. split_and!; try done. lia. }
  cbn [andb] in *. destruct (Z.eqb_spec (reg_of u a) 1); [apply Hplain; [done|lia|done]|].
  destruct (Z.eqb_spec (reg_of u a) 2).
  { destruct (read_iir_reaches u p vs Hu Hp) as (v & u' & p' & vs' & He & Hu' & Hp' & Hs & Hl).
    exists v, u', p', vs'. rewrite He. split_and!; try done; lia. }
  destruct (Z.eqb_spec (reg_of u a) 3); [apply Hplain; [done|lia|done]|].
  destruct (Z.eqb_spec (reg_of u a) 4); [apply Hplain; [done|lia|done]|].
  destruct (Z.eqb_spec (reg_of u a) 5); [|repeat case_match; (apply Hplain; [done|lia|done])].
  apply Hplain; [done| |done]. intros _. unfold rx_queue. destruct Hu as [Hon Hoff _].
  destruct (fifo_enabled u); [by apply Hon|]. by destruct (has_bit (lsr u) LSR_DATA_READY).
Qed.

Lemma step_spec sz o u p vs : uart_ok u -> plic_ready (irq_num u) p vs ->
  exists v u' p' vs', uart_step sz o (u, p, vs) = Ret (v, (u', p', vs')) /\ uart_ok u' /\ plic_ready (irq_num u') p' vs' /\
    u_start u' = u_start u /\ line_of u' = line_step (reg_of u) o (line_of u) /\ line_out (reg_of u) o (line_of u) v.
Proof.
  intros Hu Hp. destruct o as [a|a v|b]; cbn [uart_step]; [by apply uart_read_refines|..]; uart_unfold.
  - destruct (write_reaches sz a v u p vs Hu Hp) as (u' & p' & vs' & -> & H). exists 0, u', p', vs'. naive_solver.
  - destruct (receive_reaches b u p vs _ Hu Hp eq_refl) as (u' & p' & vs' & -> & H). exists 0, u', p', vs'. naive_solver.
Qed.

(** C26: over any sequence of register accesses and received bytes the serial
    port is a bounded queue: nothing faults, arriving bytes queue up while
    there is room (512 with the FIFO on, 1 off), the data register pops the
    oldest byte, the status register tells whether there is one, and the bytes
    sent come out in order. *)
Theorem uart_refines sz ops u p vs : uart_ok u -> plic_ready (irq_num u) p vs ->
  exists out u' p' vs', uart_run sz ops (u, p, vs) = Ret (out, (u', p', vs')) /\
    uart_ok u' /\ plic_ready (irq_num u') p' vs' /\ line_run (reg_of u) ops (line_of u) out (line_of u').
Proof.
  revert u p vs. induction ops as [|o ops IH]; intros u p vs Hu Hp; cbn [uart_run line_run]; uart_unfold.
  - by exists [], u, p, vs.
  - destruct (step_spec sz o u p vs Hu Hp) as (v & u1 & p1 & vs1 & -> & Hu1 & Hp1 & Hs1 & Hl1 & Ho1).
    destruct (IH u1 p1 vs1 Hu1 Hp1) as (out & u' & p' & vs' & -> & Hu' & Hp' & Hr).
    exists (v :: out), u', p', vs'. split_and!; try done. rewrite <- Hl1.
    replace (reg_of u) with (reg_of u1); [done|]. unfold reg_of. by rewrite Hs1.
Qed.
