(* ===== verification/Clint.v ===== *)
(** * Timers and the core-local interruptor
    ([include/structs/timer_st.hpp], [include/structs/timecmp_st.hpp], [src/devices/clint.cpp])

    The time is the host's steady clock scaled to the timebase. The clock is
    an input: [clock n] is its [n]-th reading, in nanoseconds, and the device
    state counts the readings. What is relied on is that the readings do not
    go back, which is what a steady clock promises. *)

From S2P Require Import Prelude Defs Device.

(** ** Timers *)

Record timer_st := mkTimer { t_begin : Z; t_freq : Z }.

Definition NS : Z := 1000000000.

(** [timer_clocksource], for a reading of [ns] nanoseconds. *)
Definition timer_clocksource (ns freq : Z) : Z :=
  u64 (u64 (ns / NS * freq) + u64 (ns mod NS * freq) / NS).

Definition timer_get (ns : Z) (t : timer_st) : Z := u64 (timer_clocksource ns (t_freq t) - t_begin t).
Definition timer_set (ns time : Z) (t : timer_st) : timer_st :=
  mkTimer (u64 (timer_clocksource ns (t_freq t) - time)) (t_freq t).
Definition timer_init (ns freq : Z) : timer_st := timer_set ns 0 (mkTimer 0 freq).

Definition timer_convert_freq (clk src_freq dst_freq : Z) : Z :=
  let clk_div := clk / src_freq in
  let clk_rem := u64 (clk - u64 (clk_div * src_freq)) in
  u64 (u64 (clk_div * dst_freq) + u64 (clk_rem * dst_freq) / src_freq).

Definition UINT64_MAX : Z := 2 ^ 64 - 1.

(** [timecmp_st] holds the comparand and a pointer to the timer; the functions
    take the comparand and the timer. *)
Definition timecmp_pending (ns timecmp : Z) (t : timer_st) : bool :=
  let val := timer_get ns t in (timecmp <=? val) && negb (val =? UINT64_MAX).
Definition timecmp_delay (ns timecmp : Z) (t : timer_st) : Z :=
  let timer := timer_get ns t in if timer <? timecmp then timecmp - timer else 0.
Definition timecmp_delay_ns (ns timecmp : Z) (t : timer_st) : Z :=
  timer_convert_freq (timecmp_delay ns timecmp t) (t_freq t) 1000000000.

(** ** The device *)

Record CLINT := mkCLINT {
  c_start : Z;
  msip : list Z;
  mtimecmp : list Z;
  mtime : timer_st;
  readings : nat }.

Definition CLINT_MSWI_SIZE : Z := 0x4000.
Definition CLINT_MTIMER_SIZE : Z := 0x8000.

Definition set_msip (x : list Z) (c : CLINT) : CLINT := mkCLINT (c_start c) x (mtimecmp c) (mtime c) (readings c).
Definition set_mtimecmp (x : list Z) (c : CLINT) : CLINT := mkCLINT (c_start c) (msip c) x (mtime c) (readings c).
Definition set_mtime (t : timer_st) (c : CLINT) : CLINT := mkCLINT (c_start c) (msip c) (mtimecmp c) t (readings c).
Definition next_reading (c : CLINT) : CLINT := mkCLINT (c_start c) (msip c) (mtimecmp c) (mtime c) (S (readings c)).

Definition set_v_stimecmp (x : Z) (v : HartView) : HartView := mkView (v_id v) (v_ip v) (v_ctime v) x.

Section clint.
Variable clock : nat -> Z.

(** [steady_clock::now()]. *)
Definition now_ns : DM CLINT Z :=
  n ← dev readings;
  _ ← upd next_reading;
  mret (clock n).

Definition read_time : DM CLINT Z :=
  ns ← now_ns;
  t ← dev mtime;
  mret (timer_get ns t).

(** The constructor, with [harts] harts and the first reading for
    [timer_init]; it also sets the supervisor comparand of every hart. *)
Definition clint_new (start harts timebase : Z) (vs : list HartView) : CLINT * list HartView :=
  (mkCLINT start (replicate (Z.to_nat harts) 0) (replicate (Z.to_nat harts) UINT64_MAX) (timer_init (clock 0) timebase) 1,
   set_v_stimecmp UINT64_MAX <$> vs).

Definition clint_init_auto (harts timebase : Z) (vs : list HartView) : CLINT * list HartView :=
  clint_new 0x02000000 harts timebase vs.

(** The body of the loop of [update_mip] for hart [i]. *)
Definition update_hart (now i : Z) : DM CLINT unit :=
  v ← hart_at i;
  let hart_id := v_id v in
  c ← dev id;
  sw ← lift (vget (msip c) hart_id);
  cmp ← lift (vget (mtimecmp c) hart_id);
  let p := setf (v_ip v) Irq.MSI (if negb (Z.land sw 1 =? 0) then 1 else 0) in
  let p := setf p Irq.MTI (if cmp <=? now then 1 else 0) in
  let stimecmp := v_stimecmp v in
  let p := setf p Irq.STI (if (stimecmp <=? now) && negb (stimecmp =? UINT64_MAX) then 1 else 0) in
  put_hart i (set_v_ip p (set_v_ctime now v)).

Fixpoint update_harts (now i : Z) (k : nat) : DM CLINT unit :=
  match k with O => mret tt | S k' => _ ← update_hart now i; update_harts now (i + 1) k' end.

(** [update_mip]; the hart count is that of the machine. *)
Definition update_mip : DM CLINT unit :=
  now ← read_time;
  n ← gets (fun s => length s.2);
  update_harts now 0 n.

Definition read_mswi (offset : Z) : DM CLINT Z := l ← dev msip; lift (vget l (offset / 4)).

Definition read_mtimer (offset : Z) : DM CLINT Z :=
  if offset =? 0x7FF8 then read_time else l ← dev mtimecmp; lift (vget l (offset / 8)).

Definition write_mswi (offset value : Z) : DM CLINT unit :=
  l ← dev msip;
  l ← lift (vset l (offset / 4) (u32 value));
  _ ← upd (set_msip l);
  update_mip.

Definition write_mtimer (offset value : Z) : DM CLINT unit :=
  if offset =? 0x7FF8 then
    ns ← now_ns;
    t ← dev mtime;
    _ ← upd (set_mtime (timer_set ns value t));
    update_mip
  else
    l ← dev mtimecmp;
    l ← lift (vset l (offset / 8) value);
    _ ← upd (set_mtimecmp l);
    update_mip.

Definition clint_read (addr : Z) (sz : MemorySize) : DM CLINT Z :=
  st ← dev c_start;
  let off := u64 (addr - st) in
  if off <? CLINT_MSWI_SIZE then read_mswi off
  else if (CLINT_MSWI_SIZE <=? off) && (off <? CLINT_MSWI_SIZE + CLINT_MTIMER_SIZE) then read_mtimer (off - CLINT_MSWI_SIZE)
  else mret 0.

Definition clint_write (addr : Z) (sz : MemorySize) (value : Z) : DM CLINT unit :=
  st ← dev c_start;
  let off := u64 (addr - st) in
  if off <? CLINT_MSWI_SIZE then write_mswi off value
  else if (CLINT_MSWI_SIZE <=? off) && (off <? CLINT_MSWI_SIZE + CLINT_MTIMER_SIZE) then write_mtimer (off - CLINT_MSWI_SIZE) value
  else mret tt.
End clint.

(** ** Timer arithmetic *)

(** [a * f / d] computed from the quotient and the remainder of [a] by [d]. *)
Lemma split_scale a f d : 0 < d -> a / d * f + a mod d * f / d = a * f / d.
Proof.
  intros Hd. rewrite (Z.div_mod a d) at 3 by lia.
  replace ((d * (a / d) + a mod d) * f) with (a mod d * f + a / d * f * d) by ring.
  rewrite Z.div_add by lia. ring.
Qed.

Lemma div_mul_le a d f : 0 <= a -> 0 < d -> 0 <= f -> 0 <= a / d * f <= a * f / d.
Proof.
  intros Ha Hd Hf. rewrite <- (split_scale a f d) by done. pose proof (Z.div_pos a d Ha Hd).
  pose proof (Z.mod_pos_bound a d Hd). pose proof (Z.div_pos (a mod d * f) d). nia.
Qed.

Lemma scale_exact a f d : 0 <= a -> 0 < d -> 0 <= f -> d * f < 2 ^ 64 -> a * f / d < 2 ^ 64 ->
  u64 (u64 (a / d * f) + u64 (a mod d * f) / d) = a * f / d.
Proof.
  intros Ha Hd Hf Hb Hr. pose proof (div_mul_le a d f Ha Hd Hf). pose proof (Z.mod_pos_bound a d Hd).
  rewrite (uN_id 64 (_ / _ * _)), (uN_id 64 (_ mod _ * _)), split_scale by (unfold inw; nia || done).
  apply uN_id. split; lia.
Qed.

(** The timers scale the host clock without losing precision: as long as
    the result fits 64 bits and the frequency is below 2^64 / 10^9 Hz, the
    split computation is the exact quotient, so time does not go back while
    the clock does not; a timer set to a value reads that value plus the
    ticks since; frequency conversion is exact as well. *)
Lemma timer_exact freq : 0 <= freq -> NS * freq < 2 ^ 64 ->
  (forall ns, 0 <= ns -> ns * freq / NS < 2 ^ 64 -> timer_clocksource ns freq = ns * freq / NS) /\
  (forall ns ns' t b, 0 <= ns <= ns' -> ns' * freq / NS < 2 ^ 64 -> 0 <= t ->
    t + (ns' * freq / NS - ns * freq / NS) < 2 ^ 64 ->
    timer_get ns' (timer_set ns t (mkTimer b freq)) = t + (ns' * freq / NS - ns * freq / NS) /\
    t <= timer_get ns' (timer_set ns t (mkTimer b freq))) /\
  (forall clk dst, 0 <= clk < 2 ^ 64 -> 0 < freq -> 0 <= dst -> freq * dst < 2 ^ 64 -> clk * dst / freq < 2 ^ 64 ->
    timer_convert_freq clk freq dst = clk * dst / freq).
Proof.
  intros Hf Hb.
  assert (forall ns, 0 <= ns -> ns * freq / NS < 2 ^ 64 -> timer_clocksource ns freq = ns * freq / NS) as Hcs
    by (intros; by apply scale_exact).
  split; [done|]. split.
  - intros ns ns' t b Hns Hr Ht Hsum.
    assert (ns * freq / NS <= ns' * freq / NS) as Hle by (apply Z.div_le_mono; [done|nia]).
    assert (timer_get ns' (timer_set ns t (mkTimer b freq)) = t + (ns' * freq / NS - ns * freq / NS)) as ->; [|lia].
    unfold timer_get, timer_set. cbn [t_freq t_begin]. rewrite !Hcs by lia. unfold uN.
    rewrite Zminus_mod_idemp_r. replace (_ - (_ - t)) with (t + (ns' * freq / NS - ns * freq / NS)) by lia.
    apply Z.mod_small. lia.
  - intros clk dst Hc Hs Hd Hsd Hr. unfold timer_convert_freq.
    replace (u64 (clk - u64 (clk / freq * freq))) with (clk mod freq); [apply scale_exact; done || lia|].
    pose proof (Z.mod_pos_bound clk freq Hs). pose proof (Z.div_mod clk freq ltac:(lia)).
    assert (clk / freq * freq = clk - clk mod freq) as Hq by lia.
    assert (clk mod freq <= clk) by (apply Z.mod_le; lia).
    rewrite (uN_id 64 (clk / freq * freq)), Hq by (unfold inw; lia). rewrite uN_id; unfold inw; lia.
Qed.

(** ** Interrupt lines *)

(** As many registers as harts, and the views in the order of the identifiers. *)
Record clint_wf (c : CLINT) (vs : list HartView) : Prop := {
  cl_msip : length (msip c) = length vs;
  cl_mtimecmp : length (mtimecmp c) = length vs;
  cl_views : forall i v, vs !! i = Some v -> v_id v = Z.of_nat i /\ inw 16 (v_ip v) }.

(** The view of hart [i] when the time is [now]. *)
Definition ticked (c : CLINT) (now : Z) (i : nat) (v v' : HartView) : Prop :=
  v_id v' = v_id v /\ v_ctime v' = now /\ v_stimecmp v' = v_stimecmp v /\ inw 16 (v_ip v') /\
  (exists sw, msip c !! i = Some sw /\ flag (v_ip v') Irq.MSI = Z.odd sw) /\
  (exists cmp, mtimecmp c !! i = Some cmp /\ flag (v_ip v') Irq.MTI = (cmp <=? now)) /\
  flag (v_ip v') Irq.STI = (v_stimecmp v <=? now) && negb (v_stimecmp v =? UINT64_MAX) /\
  forall f, bf_disjoint Irq.MSI f = true -> bf_disjoint Irq.MTI f = true -> bf_disjoint Irq.STI f = true ->
    getf (v_ip v') f = getf (v_ip v) f.

Lemma ticked_ip v (a b d : bool) (p := setf (setf (setf (v_ip v) Irq.MSI (if a then 1 else 0)) Irq.MTI (if b then 1 else 0)) Irq.STI (if d then 1 else 0)) :
  inw 16 (v_ip v) -> inw 16 p /\ flag p Irq.MSI = a /\ flag p Irq.MTI = b /\ flag p Irq.STI = d /\
  forall f, bf_disjoint Irq.MSI f = true -> bf_disjoint Irq.MTI f = true -> bf_disjoint Irq.STI f = true -> getf p f = getf (v_ip v) f.
Proof.
  intros H. split; [by repeat apply setf_inw|]. subst p.
  split; [rewrite !flag_setf_other, flag_setf_same by done; by destruct a|].
  split; [rewrite flag_setf_other, flag_setf_same by done; by destruct b|].
  split; [rewrite flag_setf_same by done; by destruct d|]. intros f H1 H2 H3. by rewrite !getf_setf_other.
Qed.

Lemma update_hart_spec c vs now (i : nat) v : clint_wf c vs -> vs !! i = Some v ->
  exists v', update_hart now (Z.of_nat i) (c, vs) = Ret (tt, (c, <[i := v']> vs)) /\ ticked c now i v v'.
Proof.
  intros [Hm Ht Hv] Hi. destruct (Hv i v Hi) as [Hid H16]. pose proof (lookup_lt_Some _ _ _ Hi) as Hlt.
  unfold update_hart. cbv [mbind ST_bind]. unfold hart_at. rewrite (proj2 (Z.ltb_ge _ 0)) by lia. cbn [snd].
  rewrite Nat2Z.id, Hi. unfold dev, gets, lift. cbn [fst id]. rewrite Hid.
  destruct (lookup_lt_is_Some_2 (msip c) i) as [sw Hsw]; [lia|]. rewrite (vget_lookup _ _ _ Hsw).
  destruct (lookup_lt_is_Some_2 (mtimecmp c) i) as [cmp Hcmp]; [lia|]. rewrite (vget_lookup _ _ _ Hcmp).
  unfold put_hart, modify. cbn [fst snd]. rewrite Nat2Z.id. eexists. split; [reflexivity|].
  destruct (ticked_ip v (negb (Z.land sw 1 =? 0)) (cmp <=? now) ((v_stimecmp v <=? now) && negb (v_stimecmp v =? UINT64_MAX)) H16)
    as (Hp & H1 & H2 & H3 & H4).
  split; [done|]. split; [done|]. split; [done|]. split; [exact Hp|]. split.
  - exists sw. split; [done|]. cbn [set_v_ip v_ip]. rewrite H1. change 1 with (Z.ones 1). rewrite Z.land_ones by done.
    change (2 ^ 1) with 2. rewrite Zmod_odd. by destruct (Z.odd sw).
  - split; [exists cmp; by split|]. by split.
Qed.

Lemma update_harts_spec c now k : forall i vs, clint_wf c vs -> (i + k = length vs)%nat ->
  exists vs', update_harts now (Z.of_nat i) k (c, vs) = Ret (tt, (c, vs')) /\ clint_wf c vs' /\
    (forall j, (j < i)%nat -> vs' !! j = vs !! j) /\
    forall j v, (i <= j)%nat -> vs !! j = Some v -> exists v', vs' !! j = Some v' /\ ticked c now j v v'.
Proof.
  induction k as [|k IH]; intros i vs Hwf Hk; cbn [update_harts].
  - exists vs. split_and!; [done..|]. intros j v Hj Hv. apply lookup_lt_Some in Hv. lia.
  - destruct (lookup_lt_is_Some_2 vs i) as [v Hv]; [lia|].
    destruct (update_hart_spec c vs now i v Hwf Hv) as (v' & He & Ht). cbv [mbind ST_bind]. rewrite He.
    assert (clint_wf c (<[i := v']> vs)) as Hwf'.
    { destruct Hwf as [Hm Hc Hvs]. split; [by rewrite length_insert..|]. intros j w Hj.
      destruct (decide (j = i)) as [->|]; [|rewrite list_lookup_insert_ne in Hj by done; by apply Hvs].
      rewrite list_lookup_insert_eq in Hj by lia. injection Hj as <-. destruct Ht as (-> & _ & _ & Hp & _).
      split; [by apply Hvs|done]. }
    replace (Z.of_nat i + 1) with (Z.of_nat (S i)) by lia.
    destruct (IH (S i) _ Hwf' ltac:(rewrite length_insert; lia)) as (vs' & He' & Hw & Hlt & Hge).
    exists vs'. split; [done|]. split; [done|]. split.
    + intros j Hj. by rewrite Hlt, list_lookup_insert_ne by lia.
    + intros j w Hj Hw'. destruct (decide (j = i)) as [->|].
      * rewrite Hlt, list_lookup_insert_eq by lia. exists v'. split; [done|]. by simplify_eq.
      * apply Hge; [lia|]. by rewrite list_lookup_insert_ne.
Qed.

(** Every hart sees the time and its three local interrupts. *)
Definition lines_set (c : CLINT) (now : Z) (vs vs' : list HartView) : Prop :=
  clint_wf c vs' /\ length vs' = length vs /\
  forall i v, vs !! i = Some v -> exists v', vs' !! i = Some v' /\ ticked c now i v v'.

Lemma update_mip_spec clock c vs : clint_wf c vs ->
  let now := timer_get (clock (readings c)) (mtime c) in
  exists vs', update_mip clock (c, vs) = Ret (tt, (next_reading c, vs')) /\ lines_set (next_reading c) now vs vs'.
Proof.
  intros Hwf now. assert (clint_wf (next_reading c) vs) as Hwf1 by (by destruct Hwf).
  destruct (update_harts_spec (next_reading c) now (length vs) 0 vs Hwf1 eq_refl) as (vs' & He & Hw & _ & Hall).
  exists vs'. split; [exact He|]. split; [done|]. split; [by rewrite <- (cl_msip _ _ Hw), <- (cl_msip _ _ Hwf)|].
  intros i v Hi. apply Hall; [lia|done].
Qed.

Lemma clint_wf_msip c vs i x : clint_wf c vs -> clint_wf (set_msip (<[i := x]> (msip c)) c) vs.
Proof. intros []. split; [cbn [set_msip msip]; by rewrite length_insert|done|done]. Qed.

Lemma clint_wf_mtimecmp c vs i x : clint_wf c vs -> clint_wf (set_mtimecmp (<[i := x]> (mtimecmp c)) c) vs.
Proof. intros []. split; [done|cbn [set_mtimecmp mtimecmp]; by rewrite length_insert|done]. Qed.

Lemma clint_off c o : 0 <= c_start c -> 0 <= o < 0x10000 -> u64 (c_start c + o - c_start c) = o.
Proof. intros Hs Ho. replace (c_start c + o - c_start c) with o by lia. apply uN_id. unfold inw. lia. Qed.

(** Writing the comparand of hart [i]. *)
Lemma write_mtimecmp_spec clock c vs (i : nat) sz value : clint_wf c vs -> 0 <= c_start c -> (i < length vs)%nat -> Z.of_nat i < 0xFFF ->
  exists c' vs', clint_write clock (c_start c + 0x4000 + 8 * Z.of_nat i) sz value (c, vs) = Ret (tt, (c', vs')) /\
    msip c' = msip c /\ mtimecmp c' = <[i := value]> (mtimecmp c) /\ mtime c' = mtime c /\
    lines_set c' (timer_get (clock (readings c)) (mtime c)) vs vs'.
Proof.
  intros Hwf Hs0 Hi Hmax. unfold clint_write. cbv [mbind ST_bind]. unfold dev, gets. cbn [fst].
  rewrite <- Z.add_assoc, clint_off by lia. unfold CLINT_MSWI_SIZE, CLINT_MTIMER_SIZE.
  rewrite (proj2 (Z.ltb_ge (_ + 8 * _) _)), (proj2 (Z.leb_le _ (_ + 8 * _))), (proj2 (Z.ltb_lt (_ + 8 * _) _)) by lia. cbn [andb].
  unfold write_mtimer. replace (0x4000 + 8 * Z.of_nat i - 0x4000) with (Z.of_nat i * 8) by lia.
  rewrite (proj2 (Z.eqb_neq _ _)), Z.div_mul by lia. cbv [mbind ST_bind]. unfold dev, gets, lift. cbn [fst].
  rewrite vset_in by (rewrite (cl_mtimecmp _ _ Hwf); lia). rewrite Nat2Z.id.
  unfold upd, modify. cbn [fst snd]. edestruct (update_mip_spec clock _ vs (clint_wf_mtimecmp c vs i value Hwf)) as (vs' & -> & Hl).
  eexists _, vs'. split; [reflexivity|]. done.
Qed.

(** Each write to a register of hart [i] stores it, and at once sets, in
    every hart, the time, the software, timer and supervisor timer interrupts
    from the registers, leaving the other pending bits alone; a written time
    counts on from there. The software-interrupt registers past the last hart
    are outside the vector, and accessing them is undefined. *)
Lemma clint_write_spec clock c vs (i : nat) sz value : clint_wf c vs -> inw 64 (c_start c + 0x10000) -> 0 <= c_start c ->
  (i < length vs)%nat -> Z.of_nat i < 0xFFF -> inw 64 value ->
  (exists c' vs', clint_write clock (c_start c + 4 * Z.of_nat i) sz value (c, vs) = Ret (tt, (c', vs')) /\
    msip c' = <[i := u32 value]> (msip c) /\ mtimecmp c' = mtimecmp c /\ mtime c' = mtime c /\
    lines_set c' (timer_get (clock (readings c)) (mtime c)) vs vs') /\
  (exists c' vs', clint_write clock (c_start c + 0x4000 + 8 * Z.of_nat i) sz value (c, vs) = Ret (tt, (c', vs')) /\
    msip c' = msip c /\ mtimecmp c' = <[i := value]> (mtimecmp c) /\ mtime c' = mtime c /\
    lines_set c' (timer_get (clock (readings c)) (mtime c)) vs vs') /\
  (exists c' vs', clint_write clock (c_start c + 0xBFF8) sz value (c, vs) = Ret (tt, (c', vs')) /\
    msip c' = msip c /\ mtimecmp c' = mtimecmp c /\ mtime c' = timer_set (clock (readings c)) value (mtime c) /\
    lines_set c' (timer_get (clock (S (readings c))) (mtime c')) vs vs') /\
  (forall j, Z.of_nat (length vs) <= j < 0x1000 ->
    clint_read clock (c_start c + 4 * j) sz (c, vs) = Undef /\ clint_write clock (c_start c + 4 * j) sz value (c, vs) = Undef).
Proof.
  intros Hwf [_ Hst] Hs0 Hi Hmax Hv. pose proof (fun o => clint_off c o Hs0) as Hoff.
  split; [|split; [by apply write_mtimecmp_spec|]]; unfold clint_write; cbv [mbind ST_bind]; unfold dev, gets; cbn [fst];
    [rewrite Hoff by lia|split; [rewrite Hoff by lia|]]; unfold CLINT_MSWI_SIZE, CLINT_MTIMER_SIZE.
  - rewrite (proj2 (Z.ltb_lt (4 * _) _)) by lia. unfold write_mswi. cbv [mbind ST_bind]. unfold dev, gets, lift. cbn [fst].
    rewrite Z.mul_comm, Z.div_mul by done. rewrite vset_in by (rewrite (cl_msip _ _ Hwf); lia). rewrite Nat2Z.id.
    unfold upd, modify. cbn [fst snd]. edestruct (update_mip_spec clock _ vs (clint_wf_msip c vs i (u32 value) Hwf)) as (vs' & -> & Hl).
    eexists _, vs'. split; [reflexivity|]. done.
  - change (0xBFF8 <? 0x4000) with false. change (0x4000 <=? 0xBFF8) with true. change (0xBFF8 <? 0x4000 + 0x8000) with true.
    unfold write_mtimer. change (0xBFF8 - 0x4000 =? 0x7FF8) with true. cbv beta iota. cbn [andb]. cbv [mbind ST_bind]. unfold now_ns. cbv [mbind ST_bind mret ST_ret].
    unfold dev, gets, upd, modify. cbn [fst snd next_reading mtime].
    edestruct (update_mip_spec clock (set_mtime (timer_set (clock (readings c)) value (mtime c)) (next_reading c)) vs) as (vs' & -> & Hl).
    { by destruct Hwf. }
    eexists _, vs'. split; [reflexivity|]. done.
  - intros j Hj. unfold clint_read. cbv [mbind ST_bind]. unfold dev, gets. cbn [fst]. rewrite !Hoff by lia.
    unfold CLINT_MSWI_SIZE. rewrite (proj2 (Z.ltb_lt (4 * j) _)) by lia. unfold read_mswi, write_mswi.
    cbv [mbind ST_bind]. unfold dev, gets, lift. cbn [fst]. rewrite Z.mul_comm, Z.div_mul by done. pose proof (cl_msip _ _ Hwf) as Hl.
    unfold vget, vset. rewrite (proj2 (Z.ltb_ge j 0)), (proj2 (Z.ltb_ge j _)), andb_false_r by lia.
    by rewrite (lookup_ge_None_2 (msip c)) by lia.
Qed.
