(* ===== verification/I2c.v ===== *)
(** * I2C controller ([src/devices/i2c/i2c-core.cpp], [include/devices/i2c/i2c-slave.hpp])

    An OpenCores I2C master. A command written to the command register runs
    100 ticks later. The slaves are objects behind a virtual interface,
    [I2CSlave]; the base class of the sources, a byte buffer, is an instance. *)

From S2P Require Import Prelude Defs Device Plic.

(** ** Slaves *)

(** What the master calls; an overriding method may use the interrupt controller. *)
Class I2CSlave (S : Type) := {
  address : S -> Z;
  start_transmit : S -> DM PLIC S;
  stop_transmit : S -> DM PLIC S;
  i2c_dev_read : bool -> S -> DM PLIC (Z * S);
  i2c_dev_write : Z -> S -> DM PLIC S }.

(** The methods of the base class. *)
Record Slave := mkSlave { s_address : Z; buffer_size : Z; buffer_ind : Z; buffer : list Z; is_transmitting : bool }.

Definition slave_new (addr size : Z) (junk : list Z) : Slave := mkSlave addr size 0 junk false.
Definition slave_stop (d : Slave) : Slave := mkSlave (s_address d) (buffer_size d) 0 (buffer d) false.
Definition slave_start (d : Slave) : Slave := mkSlave (s_address d) (buffer_size d) 0 (buffer d) true.

Definition slave_read (m_ack : bool) (d : Slave) : outcome (Z * Slave) :=
  val ← vget (buffer d) (buffer_ind d);
  Ret (val, if negb (buffer_ind d =? buffer_size d - 1) || negb m_ack
            then mkSlave (s_address d) (buffer_size d) (u16 (buffer_ind d + 1)) (buffer d) (is_transmitting d) else d).

Definition slave_write (val : Z) (d : Slave) : outcome Slave :=
  b ← vset (buffer d) (buffer_ind d) val;
  Ret (mkSlave (s_address d) (buffer_size d)
         (if negb (buffer_ind d =? buffer_size d - 1) then u16 (buffer_ind d + 1) else buffer_ind d) b (is_transmitting d)).

#[export] Instance base_slave : I2CSlave Slave := {
  address := s_address;
  start_transmit := fun d => mret (slave_start d);
  stop_transmit := fun d => mret (slave_stop d);
  i2c_dev_read := fun m_ack d => lift (slave_read m_ack d);
  i2c_dev_write := fun val d => lift (slave_write val d) }.

(** ** Registers *)

Definition I2C_REG_PRER_LO : Z := 0x0.
Definition I2C_REG_PRER_HI : Z := 0x4.
Definition I2C_REG_CTR : Z := 0x8.
Definition I2C_REG_TXR_RXR : Z := 0xC.
Definition I2C_REG_CR_SR : Z := 0x10.

Module Cr.
Definition IACK := BF 0 1.
Definition ACK := BF 3 1.
Definition WR := BF 4 1.
Definition RD := BF 5 1.
Definition STO := BF 6 1.
Definition STA := BF 7 1.
End Cr.

Module Sr.
Definition IF := BF 0 1.
Definition TIP := BF 1 1.
Definition BUSY := BF 6 1.
Definition RxACK := BF 7 1.
End Sr.

Definition RUN_DELAY : Z := 100.

Record I2C (S : Type) := mkI2C {
  i_start : Z; i_irq : Z; prer_lo : Z; prer_hi : Z;
  ctr : Z; txr : Z; rxr : Z; cr : Z; sr : Z;
  device_selected : bool;
  current_address : Z;
  current_dev : option nat;
  is_read_operation : bool;
  int_line : bool;
  op_active : bool;
  delay : Z;
  slaves : list S }.
Arguments mkI2C {S}.
Arguments i_start {S}.
Arguments i_irq {S}.
Arguments prer_lo {S}.
Arguments prer_hi {S}.
Arguments ctr {S}.
Arguments txr {S}.
Arguments rxr {S}.
Arguments cr {S}.
Arguments sr {S}.
Arguments device_selected {S}.
Arguments current_address {S}.
Arguments current_dev {S}.
Arguments is_read_operation {S}.
Arguments int_line {S}.
Arguments op_active {S}.
Arguments delay {S}.
Arguments slaves {S}.

Section i2c.
Context {S : Type} `{!I2CSlave S}.
Local Abbreviation I2C := (I2C S).

Definition set_ctr (x : Z) (d : I2C) : I2C :=
  mkI2C (i_start d) (i_irq d) (prer_lo d) (prer_hi d) x (txr d) (rxr d) (cr d) (sr d) (device_selected d)
    (current_address d) (current_dev d) (is_read_operation d) (int_line d) (op_active d) (delay d) (slaves d).
Definition set_txr (x : Z) (d : I2C) : I2C :=
  mkI2C (i_start d) (i_irq d) (prer_lo d) (prer_hi d) (ctr d) x (rxr d) (cr d) (sr d) (device_selected d)
    (current_address d) (current_dev d) (is_read_operation d) (int_line d) (op_active d) (delay d) (slaves d).
Definition set_rxr (x : Z) (d : I2C) : I2C :=
  mkI2C (i_start d) (i_irq d) (prer_lo d) (prer_hi d) (ctr d) (txr d) x (cr d) (sr d) (device_selected d)
    (current_address d) (current_dev d) (is_read_operation d) (int_line d) (op_active d) (delay d) (slaves d).
Definition set_cr (x : Z) (d : I2C) : I2C :=
  mkI2C (i_start d) (i_irq d) (prer_lo d) (prer_hi d) (ctr d) (txr d) (rxr d) x (sr d) (device_selected d)
    (current_address d) (current_dev d) (is_read_operation d) (int_line d) (op_active d) (delay d) (slaves d).
Definition set_sr (x : Z) (d : I2C) : I2C :=
  mkI2C (i_start d) (i_irq d) (prer_lo d) (prer_hi d) (ctr d) (txr d) (rxr d) (cr d) x (device_selected d)
    (current_address d) (current_dev d) (is_read_operation d) (int_line d) (op_active d) (delay d) (slaves d).
Definition set_device_selected (x : bool) (d : I2C) : I2C :=
  mkI2C (i_start d) (i_irq d) (prer_lo d) (prer_hi d) (ctr d) (txr d) (rxr d) (cr d) (sr d) x (current_address
    d) (current_dev d) (is_read_operation d) (int_line d) (op_active d) (delay d) (slaves d).
Definition set_current_address (x : Z) (d : I2C) : I2C :=
  mkI2C (i_start d) (i_irq d) (prer_lo d) (prer_hi d) (ctr d) (txr d) (rxr d) (cr d) (sr d) (device_selected d)
    x (current_dev d) (is_read_operation d) (int_line d) (op_active d) (delay d) (slaves d).
Definition set_current_dev (x : option nat) (d : I2C) : I2C :=
  mkI2C (i_start d) (i_irq d) (prer_lo d) (prer_hi d) (ctr d) (txr d) (rxr d) (cr d) (sr d) (device_selected d)
    (current_address d) x (is_read_operation d) (int_line d) (op_active d) (delay d) (slaves d).
Definition set_is_read_operation (x : bool) (d : I2C) : I2C :=
  mkI2C (i_start d) (i_irq d) (prer_lo d) (prer_hi d) (ctr d) (txr d) (rxr d) (cr d) (sr d) (device_selected d)
    (current_address d) (current_dev d) x (int_line d) (op_active d) (delay d) (slaves d).
Definition set_int_line (x : bool) (d : I2C) : I2C :=
  mkI2C (i_start d) (i_irq d) (prer_lo d) (prer_hi d) (ctr d) (txr d) (rxr d) (cr d) (sr d) (device_selected d)
    (current_address d) (current_dev d) (is_read_operation d) x (op_active d) (delay d) (slaves d).
Definition set_op_active (x : bool) (d : I2C) : I2C :=
  mkI2C (i_start d) (i_irq d) (prer_lo d) (prer_hi d) (ctr d) (txr d) (rxr d) (cr d) (sr d) (device_selected d)
    (current_address d) (current_dev d) (is_read_operation d) (int_line d) x (delay d) (slaves d).
Definition set_delay (x : Z) (d : I2C) : I2C :=
  mkI2C (i_start d) (i_irq d) (prer_lo d) (prer_hi d) (ctr d) (txr d) (rxr d) (cr d) (sr d) (device_selected d)
    (current_address d) (current_dev d) (is_read_operation d) (int_line d) (op_active d) x (slaves d).
Definition set_slaves (x : list S) (d : I2C) : I2C :=
  mkI2C (i_start d) (i_irq d) (prer_lo d) (prer_hi d) (ctr d) (txr d) (rxr d) (cr d) (sr d) (device_selected d)
    (current_address d) (current_dev d) (is_read_operation d) (int_line d) (op_active d) (delay d) x.
Definition set_prer_lo (x : Z) (d : I2C) : I2C :=
  mkI2C (i_start d) (i_irq d) x (prer_hi d) (ctr d) (txr d) (rxr d) (cr d) (sr d) (device_selected d)
    (current_address d) (current_dev d) (is_read_operation d) (int_line d) (op_active d) (delay d) (slaves d).
Definition set_prer_hi (x : Z) (d : I2C) : I2C :=
  mkI2C (i_start d) (i_irq d) (prer_lo d) x (ctr d) (txr d) (rxr d) (cr d) (sr d) (device_selected d)
    (current_address d) (current_dev d) (is_read_operation d) (int_line d) (op_active d) (delay d) (slaves d).

Definition set_sr_bit (f : bitfield) (x : Z) (d : I2C) : I2C := set_sr (setf (sr d) f x) d.

Definition i2c_new (start irq : Z) (l : list S) : I2C :=
  mkI2C start irq 0xFF 0xFF 0 0 0 0 0 false 0xFFFF None false false false 0 l.

(** [init_auto], after [plic->acquire_irq()]. *)
Definition i2c_init_auto (irq : Z) (l : list S) : I2C := i2c_new 0x10030000 irq l.

Definition IM (A : Type) : Type := PM I2C A.

Definition raise_interrupt : IM unit :=
  d ← own;
  if negb (Z.land (ctr d) 0x40 =? 0) && negb (int_line d) then
    _ ← upd_own (set_int_line true);
    on_plic (set_pending (i_irq d) true)
  else mret tt.

Definition lower_interrupt : IM unit :=
  d ← own;
  if int_line d then
    _ ← upd_own (set_int_line false);
    on_plic (set_pending (i_irq d) false)
  else mret tt.

(** A method of the current slave, which is stored back. *)
Definition with_slave {A} (i : nat) (f : S -> DM PLIC (A * S)) : IM A :=
  d ← own;
  s ← lift (vget (slaves d) (Z.of_nat i));
  r ← on_plic (f s);
  _ ← upd_own (fun d => set_slaves (<[i := r.2]> (slaves d)) d);
  mret r.1.

Definition handle_device_write (i : nat) (data : Z) : IM unit :=
  with_slave i (fun s => s' ← i2c_dev_write data s; mret (tt, s')).

Definition handle_device_read (i : nat) : IM Z :=
  d ← own;
  with_slave i (i2c_dev_read (flag (cr d) Cr.ACK)).

(** The first slave with the address, for the loop over [slaves]. *)
Fixpoint find_slave (l : list S) (addr : Z) (i : nat) : option nat :=
  match l with
  | [] => None
  | s :: l' => if address s =? addr then Some i else find_slave l' addr (i + 1)
  end.

(** The WR part of a command. *)
Definition command_write : IM unit :=
  d ← own;
  if current_address d =? 0xFFFF then
    let addr := Z.shiftr (txr d) 1 in
    _ ← upd_own (fun d => set_device_selected false (set_is_read_operation (negb (Z.land (txr d) 1 =? 0)) (set_current_address addr d)));
    match find_slave (slaves d) addr 0 with
    | Some i =>
        _ ← upd_own (set_current_dev (Some i));
        _ ← with_slave i (fun s => s' ← start_transmit s; mret (tt, s'));
        upd_own (fun d => set_sr_bit Sr.RxACK 0 (set_device_selected true d))
    | None => mret tt
    end
  else
    _ ← upd_own (fun d => set_sr_bit Sr.RxACK 1 (set_sr_bit Sr.TIP 1 d));
    match current_dev d with
    | Some i =>
        if device_selected d then
          _ ← handle_device_write i (txr d);
          upd_own (set_sr_bit Sr.RxACK 0)
        else mret tt
    | None => mret tt
    end.

(** The RD part. *)
Definition command_read : IM unit :=
  _ ← upd_own (set_sr_bit Sr.TIP 1);
  d ← own;
  match (if device_selected d then current_dev d else None) with
  | Some i =>
      v ← handle_device_read i;
      upd_own (fun d => set_sr_bit Sr.RxACK 0 (set_rxr v d))
  | None => upd_own (fun d => set_sr_bit Sr.RxACK 1 (set_rxr 0xFF d))
  end.

(** The STO part. *)
Definition command_stop : IM unit :=
  d ← own;
  _ ← (match (if device_selected d then current_dev d else None) with
       | Some i => with_slave i (fun s => s' ← stop_transmit s; mret (tt, s'))
       | None => mret tt
       end);
  upd_own (fun d => set_sr_bit Sr.BUSY 0 (set_device_selected false d)).

Definition execute_command : IM unit :=
  d ← own;
  _ ← (if flag (cr d) Cr.IACK then
         _ ← upd_own (set_sr_bit Sr.IF 0);
         _ ← lower_interrupt;
         upd_own (fun d => set_cr (setf (cr d) Cr.IACK 0) d)
       else mret tt);
  d ← own;
  let c := cr d in
  if negb (flag c Cr.STA) && negb (flag c Cr.STO) && negb (flag c Cr.RD) && negb (flag c Cr.WR) then mret tt else
  _ ← (if flag c Cr.STA then upd_own (fun d => set_current_address 0xFFFF (set_sr_bit Sr.BUSY 1 d)) else mret tt);
  _ ← (if flag c Cr.WR then command_write else mret tt);
  _ ← (if flag c Cr.RD then command_read else mret tt);
  _ ← (if flag c Cr.STO then command_stop else mret tt);
  if flag c Cr.WR || flag c Cr.RD || flag c Cr.STO then
    _ ← upd_own (fun d => set_sr_bit Sr.IF 1 (set_sr_bit Sr.TIP 0 d));
    raise_interrupt
  else mret tt.

Definition i2c_tick : IM unit :=
  d ← own;
  if negb (op_active d) then mret tt else
  _ ← upd_own (set_delay (delay d + 1));
  if delay d + 1 <? RUN_DELAY then mret tt else
  _ ← execute_command;
  upd_own (set_op_active false).

Definition i2c_read (addr : Z) (sz : MemorySize) : IM Z :=
  d ← own;
  let offs := u64 (addr - i_start d) in
  mret (if offs =? I2C_REG_PRER_LO then prer_lo d
        else if offs =? I2C_REG_PRER_HI then prer_hi d
        else if offs =? I2C_REG_CTR then ctr d
        else if offs =? I2C_REG_TXR_RXR then rxr d
        else if offs =? I2C_REG_CR_SR then sr d
        else 0).

Definition i2c_write (addr : Z) (sz : MemorySize) (val : Z) : IM unit :=
  d ← own;
  let offs := u64 (addr - i_start d) in
  if offs =? I2C_REG_PRER_LO then upd_own (set_prer_lo (u8 val))
  else if offs =? I2C_REG_PRER_HI then upd_own (set_prer_hi (u8 val))
  else if offs =? I2C_REG_CTR then
    _ ← upd_own (set_ctr (u8 val));
    if Z.land (u8 val) 0x80 =? 0 then
      _ ← upd_own (fun d => set_current_address 0xFFFF (set_device_selected false (set_sr 0 d)));
      lower_interrupt
    else mret tt
  else if offs =? I2C_REG_TXR_RXR then upd_own (set_txr (u8 val))
  else if offs =? I2C_REG_CR_SR then
    if Z.land (ctr d) 0x80 =? 0 then mret tt
    else upd_own (fun d => set_sr_bit Sr.IF 0 (set_sr_bit Sr.TIP 1 (set_delay 0 (set_op_active true (set_cr (u8 val) d)))))
  else mret tt.
End i2c.

(** ** Commands take 100 ticks *)

Section commands.
Context {S : Type} `{!I2CSlave S}.

Fixpoint i2c_ticks (n : nat) : IM (S := S) unit :=
  match n with O => mret tt | Datatypes.S n' => _ ← i2c_tick; i2c_ticks n' end.

(** The driver's side of a command: the byte to transmit, the command, and
    the time it takes. *)
Definition command (tx c : Z) : IM (S := S) unit :=
  d ← own;
  _ ← i2c_write (i_start d + I2C_REG_TXR_RXR) Byte tx;
  _ ← i2c_write (i_start d + I2C_REG_CR_SR) Byte c;
  i2c_ticks 100.

Definition enabled (d : I2C S) : Prop := Z.land (ctr d) 0x80 <> 0 /\ inw 64 (i_start d) /\ inw 64 (i_start d + 0x20).

(** The state in which the command starts. *)
Definition accepted (tx c : Z) (d : I2C S) : I2C S :=
  set_delay 100 (set_sr_bit Sr.IF 0 (set_sr_bit Sr.TIP 1 (set_op_active true (set_cr (u8 c) (set_txr (u8 tx) d))))).

Ltac i2c_unfold := cbv [mbind ST_bind mret ST_ret]; unfold own, upd_own, dev, upd, gets, modify; cbn [fst snd].

Lemma ticks_wait k : forall n d p vs, op_active d = true -> delay d = Z.of_nat n -> (n + Datatypes.S k = 100)%nat ->
  i2c_ticks (Datatypes.S k) (d, p, vs) =
    (_ ← execute_command; upd_own (set_op_active false)) (set_delay 100 d, p, vs).
Proof.
  induction k as [|k IH]; intros n d p vs Ho Hd Hn;
    (change (i2c_ticks (Datatypes.S ?k)) with (_ ← i2c_tick; i2c_ticks k) at 1; unfold i2c_tick at 1; i2c_unfold; rewrite Ho, Hd; cbn [negb]).
  - rewrite (proj2 (Z.ltb_ge _ RUN_DELAY)) by (unfold RUN_DELAY; lia).
    replace (Z.of_nat n + 1) with 100 by lia. destruct (execute_command _) as [[[] [[]]]| |]; reflexivity.
  - rewrite (proj2 (Z.ltb_lt _ RUN_DELAY)) by (unfold RUN_DELAY; lia).
    rewrite (IH (Datatypes.S n)); [reflexivity|done|cbn [delay set_delay]; lia|lia].
Qed.

Lemma command_eq tx c d p vs : enabled d ->
  command tx c (d, p, vs) = (_ ← execute_command; upd_own (set_op_active false)) (accepted tx c d, p, vs).
Proof.
  intros (Hen & [Hs0 _] & [_ Hs]). unfold command. i2c_unfold.
  assert (forall o, 0 <= o < 0x20 -> u64 (i_start d + o - i_start d) = o) as Ho.
  { intros o Ho. replace (i_start d + o - i_start d) with o by lia. apply uN_id. split; lia. }
  unfold i2c_write at 1. i2c_unfold. rewrite Ho by done. cbn [Z.eqb I2C_REG_TXR_RXR Pos.eqb I2C_REG_PRER_LO I2C_REG_PRER_HI I2C_REG_CTR].
  i2c_unfold. unfold i2c_write at 1. i2c_unfold. cbn [i_start set_txr ctr]. rewrite Ho by done.
  cbn [Z.eqb I2C_REG_TXR_RXR Pos.eqb I2C_REG_PRER_LO I2C_REG_PRER_HI I2C_REG_CTR I2C_REG_CR_SR].
  rewrite (proj2 (Z.eqb_neq _ 0) Hen). i2c_unfold. by apply (ticks_wait 99 0).
Qed.

(** Raising the interrupt line. *)
Lemma raise_spec (d : I2C S) p vs : plic_ready (i_irq d) p vs ->
  exists l p' vs', raise_interrupt (d, p, vs) = Ret (tt, (set_int_line l d, p', vs')) /\ plic_ready (i_irq d) p' vs' /\
    (Z.land (ctr d) 0x40 <> 0 -> l = true /\ (int_line d = false -> bit_of (pending_words p') (i_irq d) = true)).
Proof.
  intros Hr. unfold raise_interrupt. i2c_unfold. destruct (Z.eqb_spec (Z.land (ctr d) 0x40) 0) as [E|E]; cbn [negb andb].
  - exists (int_line d), p, vs. split; [by destruct d|]. split; [done|]. by intros [].
  - destruct (int_line d) eqn:El; cbn [negb].
    + exists true, p, vs. split; [rewrite <- El; by destruct d|]. done.
    + i2c_unfold. destruct (on_plic_pending (set_int_line true d) (i_irq d) p vs true Hr) as (p' & vs' & -> & Hr' & Hb).
      exists true, p', vs'. done.
Qed.
End commands.

Ltac i2c_unfold := cbv [mbind ST_bind mret ST_ret]; unfold own, upd_own, dev, upd, gets, modify; cbn [fst snd].

(** ** A transfer *)

(** The driver's routines: address a slave, send bytes, receive bytes, stop. *)
Definition CMD_START : Z := 0x90.
Definition CMD_WRITE : Z := 0x10.
Definition CMD_READ : Z := 0x20.
Definition CMD_STOP : Z := 0x40.

Definition send_bytes (bs : list Z) : IM (S := Slave) unit :=
  foldr (fun b m => _ ← command b CMD_WRITE; m) (mret tt) bs.

Fixpoint recv_bytes (n : nat) : IM (S := Slave) (list Z) :=
  match n with
  | O => mret []
  | Datatypes.S n' =>
      _ ← command 0 CMD_READ;
      d ← own;
      v ← i2c_read (i_start d + I2C_REG_TXR_RXR) Byte;
      l ← recv_bytes n';
      mret (v :: l)
  end.

Definition transfer (addr : Z) (bs : list Z) : IM (S := Slave) (list Z) :=
  _ ← command (2 * addr) CMD_START;
  _ ← send_bytes bs;
  _ ← command 0 CMD_STOP;
  _ ← command (2 * addr + 1) CMD_START;
  l ← recv_bytes (length bs);
  _ ← command 0 CMD_STOP;
  mret l.

Section transfer.
Implicit Types d : I2C Slave.

(** What a finished command leaves in the status register. *)
Definition done_ok d : Prop :=
  flag (sr d) Sr.TIP = false /\ flag (sr d) Sr.IF = true /\ flag (sr d) Sr.RxACK = false.

(** Slave [i], in state [sl], is addressed; [d0] is the idle master. *)
Record selected (d0 : I2C Slave) (i : nat) (sl : Slave) d : Prop := {
  se_sel : device_selected d = true;
  se_dev : current_dev d = Some i;
  se_addr : current_address d <> 0xFFFF;
  se_ctr : ctr d = ctr d0;
  se_start : i_start d = i_start d0;
  se_irq : i_irq d = i_irq d0;
  se_slaves : slaves d = <[i := sl]> (slaves d0);
  se_done : done_ok d }.

Ltac sr_bits := repeat first [rewrite flag_setf_other by reflexivity | rewrite flag_setf_same by reflexivity]; try reflexivity.

Lemma find_slave_spec l addr (k i : nat) sl : l !! i = Some sl -> s_address sl = addr ->
  (forall j s, (j < i)%nat -> l !! j = Some s -> s_address s <> addr) -> find_slave l addr k = Some (k + i)%nat.
Proof.
  revert k i. induction l as [|s l IH]; intros k [|i] Hi Ha Hlt; [done..| |].
  - injection Hi as ->. cbn [find_slave address base_slave]. rewrite Ha, Z.eqb_refl. by rewrite Nat.add_0_r.
  - cbn [find_slave address base_slave]. rewrite (proj2 (Z.eqb_neq _ addr)) by (by apply (Hlt 0%nat); [lia|]).
    rewrite (IH (k + 1)%nat i); [f_equal; lia|done|done|]. intros j s' Hj Hs. apply (Hlt (Datatypes.S j)); [lia|done].
Qed.

(** [start_transmit], [dev_write], [dev_read] and [stop_transmit] of slave [i]. *)
Lemma with_slave_eq {A} i (f : Slave -> DM PLIC (A * Slave)) d p vs sl a sl' p' vs' : slaves d !! i = Some sl ->
  f sl (p, vs) = Ret ((a, sl'), (p', vs')) ->
  with_slave i f (d, p, vs) = Ret (a, (set_slaves (<[i := sl']> (slaves d)) d, p', vs')).
Proof.
  intros Hi Hf. unfold with_slave. i2c_unfold. unfold lift. rewrite (vget_lookup _ _ _ Hi). unfold on_plic. cbn [fst snd].
  by rewrite Hf.
Qed.

(** The end of a command with a transaction. *)
Definition finished (l : bool) d : I2C Slave :=
  set_op_active false (set_int_line l (set_sr_bit Sr.IF 1 (set_sr_bit Sr.TIP 0 d))).

(** Normal form of a device record. *)
Ltac i2c_flat := cbn [fst snd
    i_start i_irq prer_lo prer_hi ctr txr rxr cr sr device_selected current_address current_dev
    is_read_operation int_line op_active delay slaves set_prer_lo set_prer_hi set_ctr set_txr set_rxr set_cr
    set_sr set_device_selected set_current_address set_current_dev set_is_read_operation set_int_line
    set_op_active set_delay set_slaves set_sr_bit accepted finished].

Lemma exec_spec d p vs d1 p1 vs1 c : plic_ready (i_irq d1) p1 vs1 -> cr d = c -> flag c Cr.IACK = false ->
  flag c Cr.WR || flag c Cr.RD || flag c Cr.STO = true ->
  (_ ← (if flag c Cr.STA then upd_own (fun d => set_current_address 0xFFFF (set_sr_bit Sr.BUSY 1 d)) else mret tt);
   _ ← (if flag c Cr.WR then command_write else mret tt);
   _ ← (if flag c Cr.RD then command_read else mret tt);
   (if flag c Cr.STO then command_stop else mret tt)) (d, p, vs) = Ret (tt, (d1, p1, vs1)) ->
  exists l p' vs', (_ ← execute_command; upd_own (set_op_active false)) (d, p, vs) = Ret (tt, (finished l d1, p', vs')) /\
    plic_ready (i_irq d1) p' vs'.
Proof.
  intros Hr Hc Hi Hany Hrun.
  destruct (raise_spec (set_sr_bit Sr.IF 1 (set_sr_bit Sr.TIP 0 d1)) p1 vs1 Hr) as (l & p' & vs' & He & Hr' & _).
  exists l, p', vs'. split; [|done]. unfold execute_command. revert Hrun. i2c_unfold. rewrite Hc, Hi. cbn [fst snd]. rewrite Hc, Hany.
  replace (negb (flag c Cr.STA) && negb (flag c Cr.STO) && negb (flag c Cr.RD) && negb (flag c Cr.WR)) with false
    by (destruct (flag c Cr.WR), (flag c Cr.RD), (flag c Cr.STO); by rewrite ?andb_false_r).
  intros Hrun.
  do 3 (match type of Hrun with match ?t with _ => _ end = _ => destruct t as [[[] ?]| |]; [|done..] end).
  rewrite Hrun. cbn [fst snd]. by rewrite He.
Qed.

Lemma byte_even a : 0 <= a < 128 -> Z.shiftr (u8 (2 * a)) 1 = a /\ Z.shiftr (u8 (2 * a + 1)) 1 = a.
Proof.
  intros Ha. rewrite !Z.shiftr_div_pow2 by done. change (2 ^ 1) with 2. rewrite !uN_id by (unfold inw; lia).
  split; [rewrite Z.mul_comm; by apply Z.div_mul|]. symmetry. apply (Z.div_unique _ _ _ 1); lia.
Qed.

(** Addressing selects the first slave with the address. *)
Lemma start_spec d p vs i sl addr tx : enabled d -> plic_ready (i_irq d) p vs -> 0 <= addr < 128 ->
  tx = 2 * addr \/ tx = 2 * addr + 1 -> slaves d !! i = Some sl -> s_address sl = addr ->
  (forall j s, (j < i)%nat -> slaves d !! j = Some s -> s_address s <> addr) ->
  exists d' p' vs', command tx CMD_START (d, p, vs) = Ret (tt, (d', p', vs')) /\
    plic_ready (i_irq d) p' vs' /\ selected d i (slave_start sl) d'.
Proof.
  intros Hen Hr Ha Htx Hi Hs Hlt. rewrite command_eq by done.
  assert (Z.shiftr (u8 tx) 1 = addr) as Htx' by (destruct (byte_even addr Ha), Htx; by subst).
  destruct d as [st irq ? ? ct ? ? ? sr0 ? ? ? ? ? ? ? sls]. i2c_flat. cbn [i_irq slaves] in *.
  edestruct (fun d1 => exec_spec (accepted tx CMD_START (mkI2C st irq prer_lo0 prer_hi0 ct txr0 rxr0 cr0 sr0 device_selected0
    current_address0 current_dev0 is_read_operation0 int_line0 op_active0 delay0 sls)) p vs d1 p vs CMD_START) as (l & p' & vs' & He & Hr').
  5: { change (flag CMD_START Cr.STA) with true. change (flag CMD_START Cr.WR) with true. change (flag CMD_START Cr.RD) with false.
    change (flag CMD_START Cr.STO) with false. i2c_unfold. i2c_flat. unfold command_write. i2c_unfold. i2c_flat.
    rewrite Z.eqb_refl. i2c_unfold. i2c_flat. rewrite Htx', (find_slave_spec _ addr 0 i sl Hi Hs Hlt). cbn [Nat.add]. i2c_unfold. i2c_flat.
    rewrite (with_slave_eq i _ _ p vs sl tt (slave_start sl) p vs); [i2c_flat; reflexivity|exact Hi|reflexivity]. }
  all: try done.
  eexists _, p', vs'. split; [exact He|]. split; [exact Hr'|].
  split; i2c_flat; try done; [lia|]. split_and!; i2c_flat; sr_bits.
Qed.

Section addressed.
Context (d0 : I2C Slave) (i : nat).
Hypothesis Hen : enabled d0.
Hypothesis Hlen : (i < length (slaves d0))%nat.

Lemma selected_enabled sl d : selected d0 i sl d -> enabled d.
Proof. intros []. unfold enabled. by rewrite se_ctr0, se_start0. Qed.

(** A data byte goes to the addressed slave. *)
Lemma write_spec d p vs sl sl' b : selected d0 i sl d -> plic_ready (i_irq d0) p vs -> slave_write (u8 b) sl = Ret sl' ->
  exists d' p' vs', command b CMD_WRITE (d, p, vs) = Ret (tt, (d', p', vs')) /\
    plic_ready (i_irq d0) p' vs' /\ selected d0 i sl' d'.
Proof.
  intros Hsel Hr Hw. rewrite command_eq by (by eapply selected_enabled). destruct Hsel as [H1 H2 H3 H4 H5 H6 H7 H8].
  destruct d as [st irq ? ? ct ? ? ? sr0 ? ca ? ? ? ? ? sls]. i2c_flat. cbn [i_irq slaves device_selected current_dev current_address ctr i_start] in *.
  subst. edestruct (fun d1 => exec_spec (accepted b CMD_WRITE (mkI2C (i_start d0) (i_irq d0) prer_lo0 prer_hi0 (ctr d0) txr0 rxr0 cr0 sr0 true
    ca (Some i) is_read_operation0 int_line0 op_active0 delay0 (<[i := sl]> (slaves d0)))) p vs d1 p vs CMD_WRITE) as (l & p' & vs' & He & Hr').
  5: { change (flag CMD_WRITE Cr.STA) with false. change (flag CMD_WRITE Cr.WR) with true. change (flag CMD_WRITE Cr.RD) with false.
    change (flag CMD_WRITE Cr.STO) with false. i2c_unfold. i2c_flat. unfold command_write. i2c_unfold. i2c_flat.
    rewrite (proj2 (Z.eqb_neq ca 0xFFFF) H3). i2c_unfold. i2c_flat. unfold handle_device_write.
    rewrite (with_slave_eq i _ _ p vs sl tt sl' p vs); [i2c_flat; reflexivity|by apply list_lookup_insert_eq|].
    cbn [i2c_dev_write base_slave]. i2c_unfold. unfold lift. by rewrite Hw. }
  all: try done.
  eexists _, p', vs'. split; [exact He|]. split; [exact Hr'|].
  split; i2c_flat; try done; [by rewrite list_insert_insert_eq|]. split_and!; i2c_flat; sr_bits.
Qed.

(** A data byte comes from the addressed slave. *)
Lemma i2c_read_cmd d p vs sl sl' v : selected d0 i sl d -> plic_ready (i_irq d0) p vs -> slave_read false sl = Ret (v, sl') ->
  exists d' p' vs', command 0 CMD_READ (d, p, vs) = Ret (tt, (d', p', vs')) /\
    plic_ready (i_irq d0) p' vs' /\ selected d0 i sl' d' /\ rxr d' = v.
Proof.
  intros Hsel Hr Hw. rewrite command_eq by (by eapply selected_enabled). destruct Hsel as [H1 H2 H3 H4 H5 H6 H7 H8].
  destruct d as [st irq ? ? ct ? ? ? sr0 ? ca ? ? ? ? ? sls]. i2c_flat. cbn [i_irq slaves device_selected current_dev current_address ctr i_start] in *.
  subst. edestruct (fun d1 => exec_spec (accepted 0 CMD_READ (mkI2C (i_start d0) (i_irq d0) prer_lo0 prer_hi0 (ctr d0) txr0 rxr0 cr0 sr0 true
    ca (Some i) is_read_operation0 int_line0 op_active0 delay0 (<[i := sl]> (slaves d0)))) p vs d1 p vs CMD_READ) as (l & p' & vs' & He & Hr').
  5: { change (flag CMD_READ Cr.STA) with false. change (flag CMD_READ Cr.WR) with false. change (flag CMD_READ Cr.RD) with true.
    change (flag CMD_READ Cr.STO) with false. i2c_unfold. i2c_flat. unfold command_read. i2c_unfold. i2c_flat.
    unfold handle_device_read. i2c_unfold. i2c_flat. change (flag (u8 CMD_READ) Cr.ACK) with false.
    rewrite (with_slave_eq i _ _ p vs sl v sl' p vs); [i2c_flat; reflexivity|by apply list_lookup_insert_eq|].
    cbn [i2c_dev_read base_slave]. unfold lift. by rewrite Hw. }
  all: try done.
  eexists _, p', vs'. split; [exact He|]. split; [exact Hr'|]. split; [|done].
  split; i2c_flat; try done; [by rewrite list_insert_insert_eq|]. split_and!; i2c_flat; sr_bits.
Qed.

(** Stopping releases the bus. *)
Lemma stop_spec d p vs sl : selected d0 i sl d -> plic_ready (i_irq d0) p vs ->
  exists d' p' vs', command 0 CMD_STOP (d, p, vs) = Ret (tt, (d', p', vs')) /\
    plic_ready (i_irq d0) p' vs' /\ device_selected d' = false /\ ctr d' = ctr d0 /\ i_start d' = i_start d0 /\ i_irq d' = i_irq d0 /\
    slaves d' = <[i := slave_stop sl]> (slaves d0) /\ done_ok d' /\ flag (I2c.sr d') Sr.BUSY = false.
Proof.
  intros Hsel Hr. rewrite command_eq by (by eapply selected_enabled). destruct Hsel as [H1 H2 H3 H4 H5 H6 H7 H8].
  destruct d as [st irq ? ? ct ? ? ? sr0 ? ca ? ? ? ? ? sls]. i2c_flat. cbn [i_irq slaves device_selected current_dev current_address ctr i_start] in *.
  subst. edestruct (fun d1 => exec_spec (accepted 0 CMD_STOP (mkI2C (i_start d0) (i_irq d0) prer_lo0 prer_hi0 (ctr d0) txr0 rxr0 cr0 sr0 true
    ca (Some i) is_read_operation0 int_line0 op_active0 delay0 (<[i := sl]> (slaves d0)))) p vs d1 p vs CMD_STOP) as (l & p' & vs' & He & Hr').
  5: { change (flag CMD_STOP Cr.STA) with false. change (flag CMD_STOP Cr.WR) with false. change (flag CMD_STOP Cr.RD) with false.
    change (flag CMD_STOP Cr.STO) with true. i2c_unfold. i2c_flat. unfold command_stop. i2c_unfold. i2c_flat.
    rewrite (with_slave_eq i _ _ p vs sl tt (slave_stop sl) p vs); [i2c_flat; reflexivity|by apply list_lookup_insert_eq|reflexivity]. }
  all: try done.
  eexists _, p', vs'. split; [exact He|]. split; [exact Hr'|]. i2c_flat. cbn [I2c.sr].
  split; [done|]. split; [done|]. split; [done|]. split; [done|]. split; [by rewrite list_insert_insert_eq|].
  destruct H8 as (_ & _ & Hack). cbn [sr] in Hack. split; [split_and!; i2c_flat; sr_bits; done|sr_bits].
Qed.

(** A slave whose buffer is as long as its size says, and nothing but the
    buffer and the position changes in a transfer. *)
Definition slave_ok (sl : Slave) : Prop := Z.of_nat (length (buffer sl)) = buffer_size sl /\ buffer_size sl < 2 ^ 16.

Definition same_slave (sl sl' : Slave) : Prop :=
  s_address sl' = s_address sl /\ buffer_size sl' = buffer_size sl /\ length (buffer sl') = length (buffer sl).

Lemma send_spec bs : forall (k : nat) d p vs sl, selected d0 i sl d -> plic_ready (i_irq d0) p vs -> slave_ok sl ->
  (bs <> [] -> buffer_ind sl = Z.of_nat k) -> (k + length bs <= length (buffer sl))%nat ->
  exists d' p' vs' sl', send_bytes bs (d, p, vs) = Ret (tt, (d', p', vs')) /\ plic_ready (i_irq d0) p' vs' /\
    selected d0 i sl' d' /\ same_slave sl sl' /\
    take (k + length bs) (buffer sl') = take k (buffer sl) ++ (u8 <$> bs).
Proof.
  induction bs as [|b bs IH]; intros k d p vs sl Hsel Hr [Hl Hs] Hk Hlen'; cbn [send_bytes foldr]; i2c_unfold.
  - exists d, p, vs, sl. split; [done|]. split; [done|]. split; [done|]. split; [done|]. cbn [length fmap list_fmap]. by rewrite Nat.add_0_r, app_nil_r.
  - cbn [length] in Hlen'. specialize (Hk ltac:(done)).
    set (sl1 := mkSlave (s_address sl) (buffer_size sl)
      (if negb (buffer_ind sl =? buffer_size sl - 1) then u16 (buffer_ind sl + 1) else buffer_ind sl)
      (<[k := u8 b]> (buffer sl)) (is_transmitting sl)).
    assert (slave_write (u8 b) sl = Ret sl1) as Hw.
    { unfold slave_write. rewrite Hk, vset_in by lia. rewrite Nat2Z.id. cbn [mbind outcome_bind]. unfold sl1. by rewrite Hk. }
    destruct (write_spec d p vs sl sl1 b Hsel Hr Hw) as (d1 & p1 & vs1 & -> & Hr1 & Hsel1).
    fold (send_bytes bs). assert (length (buffer sl1) = length (buffer sl)) as Hl1 by (cbn [sl1 buffer]; by rewrite length_insert).
    destruct (IH (k + 1)%nat d1 p1 vs1 sl1 Hsel1 Hr1) as (d' & p' & vs' & sl' & He & Hr' & Hsel' & Hsame & Ht).
    + split; [by rewrite Hl1|done].
    + intros Hne. cbn [sl1 buffer_ind]. assert (1 <= length bs)%nat by (destruct bs; [done|cbn; lia]).
      rewrite Hk, (proj2 (Z.eqb_neq _ _)) by lia. cbn [negb]. rewrite uN_id by (unfold inw; lia). lia.
    + rewrite Hl1. lia.
    + exists d', p', vs', sl'. split; [done|]. split; [done|]. split; [done|].
      split; [destruct Hsame as (? & ? & ?); by rewrite Hl1 in *|].
      replace (k + length (b :: bs))%nat with (k + 1 + length bs)%nat by (cbn; lia). rewrite Ht. cbn [sl1 buffer fmap list_fmap].
      rewrite Nat.add_1_r, (take_S_r _ k (u8 b)) by (apply list_lookup_insert_eq; lia).
      rewrite take_insert_ge by lia. by rewrite <- app_assoc.
Qed.

Lemma recv_spec n : forall (k : nat) d p vs sl, selected d0 i sl d -> plic_ready (i_irq d0) p vs -> slave_ok sl ->
  buffer_ind sl = Z.of_nat k -> (k + n <= length (buffer sl))%nat ->
  exists d' p' vs' sl', recv_bytes n (d, p, vs) = Ret (take n (drop k (buffer sl)), (d', p', vs')) /\
    plic_ready (i_irq d0) p' vs' /\ selected d0 i sl' d' /\ same_slave sl sl' /\ buffer sl' = buffer sl.
Proof.
  induction n as [|n IH]; intros k d p vs sl Hsel Hr [Hl Hs] Hk Hlen'; cbn [recv_bytes]; i2c_unfold.
  - exists d, p, vs, sl. by rewrite take_0.
  - destruct (lookup_lt_is_Some_2 (buffer sl) k) as [v Hv]; [lia|].
    set (sl1 := mkSlave (s_address sl) (buffer_size sl) (u16 (Z.of_nat k + 1)) (buffer sl) (is_transmitting sl)).
    assert (slave_read false sl = Ret (v, sl1)) as Hw.
    { unfold slave_read. rewrite Hk, (vget_lookup _ _ _ Hv). cbn [mbind outcome_bind negb]. by rewrite orb_true_r. }
    destruct (i2c_read_cmd d p vs sl sl1 v Hsel Hr Hw) as (d1 & p1 & vs1 & -> & Hr1 & Hsel1 & Hrx). cbn [fst snd].
    assert (i2c_read (i_start d1 + I2C_REG_TXR_RXR) Byte (d1, p1, vs1) = Ret (v, (d1, p1, vs1))) as ->.
    { unfold i2c_read. i2c_unfold. destruct (selected_enabled _ _ Hsel1) as (_ & [H0 _] & [_ H2]).
      replace (i_start d1 + I2C_REG_TXR_RXR - i_start d1) with 0xC by (unfold I2C_REG_TXR_RXR; lia).
      change (u64 0xC) with 0xC. cbn [Z.eqb I2C_REG_PRER_LO I2C_REG_PRER_HI I2C_REG_CTR I2C_REG_TXR_RXR Pos.eqb]. by rewrite Hrx. }
    destruct (IH (k + 1)%nat d1 p1 vs1 sl1 Hsel1 Hr1) as (d' & p' & vs' & sl' & -> & Hr' & Hsel' & Hsame & Hb).
    + done.
    + cbn [sl1 buffer_ind]. rewrite uN_id by (unfold inw; lia). lia.
    + cbn [sl1 buffer]. lia.
    + exists d', p', vs', sl'. split; [|done]. cbn [sl1 buffer]. by rewrite (drop_S _ v k Hv), Nat.add_1_r.
Qed.
End addressed.

(** The idle master after a transaction with slave [i]. *)
Lemma select_again d0 d i sl sl1 : slaves d0 !! i = Some sl -> slaves d = <[i := sl1]> (slaves d0) -> s_address sl1 = s_address sl ->
  (forall j s, (j < i)%nat -> slaves d0 !! j = Some s -> s_address s <> s_address sl) ->
  slaves d !! i = Some sl1 /\ forall j s, (j < i)%nat -> slaves d !! j = Some s -> s_address s <> s_address sl.
Proof.
  intros Hi Hs Ha Hlt. apply lookup_lt_Some in Hi as Hlen. rewrite Hs. split; [by apply list_lookup_insert_eq|].
  intros j s Hj. rewrite list_lookup_insert_ne by lia. by apply Hlt.
Qed.

(** C28: bytes sent to an I2C slave and read back in a second transaction are
    the bytes sent: each command completes after 100 ticks, the addressed
    slave (the first one with the address) gets them in order and no other
    slave changes. The buffer holds them all when there are no more than its size. *)
Theorem i2c_roundtrip d0 p vs i sl bs : enabled d0 -> plic_ready (i_irq d0) p vs ->
  0 <= s_address sl < 128 -> slaves d0 !! i = Some sl ->
  (forall j s, (j < i)%nat -> slaves d0 !! j = Some s -> s_address s <> s_address sl) ->
  slave_ok sl -> (length bs <= length (buffer sl))%nat ->
  exists d' p' vs' sl', transfer (s_address sl) bs (d0, p, vs) = Ret (u8 <$> bs, (d', p', vs')) /\
    plic_ready (i_irq d0) p' vs' /\ slaves d' = <[i := sl']> (slaves d0) /\
    take (length bs) (buffer sl') = u8 <$> bs /\ device_selected d' = false.
Proof.
  intros Hen Hr Ha Hi Hlt [Hl Hs] Hbs. pose proof (lookup_lt_Some _ _ _ Hi) as Hlen. unfold transfer. i2c_unfold.
  destruct (start_spec d0 p vs i sl (s_address sl) (2 * s_address sl) Hen Hr Ha ltac:(by left) Hi eq_refl Hlt) as (d1 & p1 & vs1 & -> & Hr1 & Hse1).
  destruct (send_spec d0 i Hen Hlen bs 0 d1 p1 vs1 _ Hse1 Hr1) as (d2 & p2 & vs2 & sl2 & -> & Hr2 & Hse2 & Hsame & Ht2);
    [done|done|cbn [slave_start buffer]; lia|].
  destruct (stop_spec d0 i Hen Hlen d2 p2 vs2 sl2 Hse2 Hr2) as (d3 & p3 & vs3 & -> & Hr3 & _ & Hc3 & Hst3 & Hq3 & Hsl3 & _).
  destruct Hsame as (Ha2 & Hz2 & Hb2). cbn [slave_start s_address buffer_size buffer] in Ha2, Hz2, Hb2.
  destruct (select_again d0 d3 i sl (slave_stop sl2) Hi Hsl3 Ha2 Hlt) as [Hi3 Hlt3].
  assert (enabled d3) as Hen3 by (unfold enabled; by rewrite Hc3, Hst3).
  destruct (start_spec d3 p3 vs3 i (slave_stop sl2) (s_address sl) (2 * s_address sl + 1) Hen3 ltac:(by rewrite Hq3) Ha ltac:(by right) Hi3 Ha2 Hlt3)
    as (d4 & p4 & vs4 & -> & Hr4 & Hse4).
  pose proof (lookup_lt_Some _ _ _ Hi3) as Hlen3.
  destruct (recv_spec d3 i Hen3 Hlen3 (length bs) 0 d4 p4 vs4 _ Hse4 Hr4) as (d5 & p5 & vs5 & sl5 & -> & Hr5 & Hse5 & _ & Hb5);
    [split; cbn [slave_start slave_stop buffer buffer_size]; lia|done|cbn [slave_start slave_stop buffer]; lia|].
  destruct (stop_spec d3 i Hen3 Hlen3 d5 p5 vs5 sl5 Hse5 Hr5) as (d6 & p6 & vs6 & -> & Hr6 & Hsel6 & _ & _ & _ & Hsl6 & _).
  cbn [slave_start slave_stop buffer Nat.add] in *. rewrite drop_0. rewrite take_0 in Ht2. cbn [app] in Ht2. rewrite Ht2.
  exists d6, p6, vs6, (slave_stop sl5). split; [done|]. split; [by rewrite <- Hq3|]. split; [|split; [|done]].
  - by rewrite Hsl6, Hsl3, list_insert_insert_eq.
  - cbn [slave_stop buffer]. by rewrite Hb5.
Qed.
End transfer.
