(* ===== verification/Virtio.v ===== *)
(** * Virtio devices ([include/devices/virtio/], [src/devices/virtio/])

    The registers and the queue the block and the entropy device share, and
    their requests. The state of a device is its registers, what the kind of
    device adds, and the memory map it reads and writes directly. The disk
    image is a file whose host reads and writes succeed. *)

From S2P Require Import Prelude Defs MemoryMap Device Plic.

(** ** Constants *)

Definition VIRT_REG_MAGICVALUE : Z := 0x000.
Definition VIRT_REG_VERSION : Z := 0x004.
Definition VIRT_REG_DEVICEID : Z := 0x008.
Definition VIRT_REG_VENDORID : Z := 0x00C.
Definition VIRT_REG_DEVICEFEATURES : Z := 0x010.
Definition VIRT_REG_DEVICEFEATURESSEL : Z := 0x014.
Definition VIRT_REG_DRIVERFEATURES : Z := 0x020.
Definition VIRT_REG_DRIVERFEATURESSEL : Z := 0x024.
Definition VIRT_REG_QUEUESEL : Z := 0x030.
Definition VIRT_REG_QUEUENUMMAX : Z := 0x034.
Definition VIRT_REG_QUEUENUM : Z := 0x038.
Definition VIRT_REG_QUEUEREADY : Z := 0x044.
Definition VIRT_REG_QUEUENOTIFY : Z := 0x050.
Definition VIRT_REG_INTERRUPTSTATUS : Z := 0x060.
Definition VIRT_REG_INTERRUPTACK : Z := 0x064.
Definition VIRT_REG_STATUS : Z := 0x070.
Definition VIRT_REG_QUEUEDESCLOW : Z := 0x080.
Definition VIRT_REG_QUEUEDESCHIGH : Z := 0x084.
Definition VIRT_REG_QUEUEDRIVERLOW : Z := 0x090.
Definition VIRT_REG_QUEUEDRIVERHIGH : Z := 0x094.
Definition VIRT_REG_QUEUEDEVICELOW : Z := 0x0A0.
Definition VIRT_REG_QUEUEDEVICEHIGH : Z := 0x0A4.
Definition VIRT_REG_CONFIGGENERATION : Z := 0x0FC.
Definition VIRT_REG_CAPACITYLOW : Z := 0x100.
Definition VIRT_REG_CAPACITYHIGH : Z := 0x104.
Definition VIRT_REG_SIZEMAX : Z := 0x108.
Definition VIRT_REG_SEGMAX : Z := 0x10C.

Definition VIRTIO_F_VERSION_1 : Z := Z.shiftl 1 32.
Definition VIRT_STATUS_FEATURES_OK : Z := 0x08.
Definition VIRTQ_DESC_F_NEXT : Z := 1.
Definition VIRTQ_DESC_F_WRITE : Z := 2.
Definition VIRTIO_BLK_T_IN : Z := 0.
Definition VIRTIO_BLK_T_OUT : Z := 1.
Definition VIRTIO_BLK_S_OK : Z := 0.
Definition VIRTIO_BLK_S_IOERR : Z := 1.
Definition VIRTQ_DESC_SIZE : Z := 16.
Definition SECTOR_SIZE : Z := 512.

(** ** State *)

Record VirtqDesc := mkDesc { d_addr : Z; d_len : Z; d_flags : Z; d_next : Z }.

Record VirtQueueState := mkQueue {
  q_size : Z; desc_addr : Z; avail_addr : Z; used_addr : Z; last_avail_idx : Z; last_used_idx : Z; q_ready : bool }.

Record Virtio := mkVirtio {
  vi_start : Z; vi_irq : Z; device_features : Z; driver_features : Z; device_features_sel : Z; driver_features_sel : Z;
  device_status : Z; interrupt_status : Z; queue_sel : Z; queue0 : VirtQueueState; config_generation : Z }.

Definition queue_new : VirtQueueState := mkQueue 0 0 0 0 0 0 false.

(** The part of the constructors the two devices share. *)
Definition virtio_new (base irq : Z) : Virtio := mkVirtio base irq VIRTIO_F_VERSION_1 0 0 0 0 0 0 queue_new 0.

Definition set_features_sel (x : Z) (v : Virtio) : Virtio :=
  mkVirtio (vi_start v) (vi_irq v) (device_features v) (driver_features v) x (driver_features_sel v) (device_status v)
    (interrupt_status v) (queue_sel v) (queue0 v) (config_generation v).
Definition set_driver_sel (x : Z) (v : Virtio) : Virtio :=
  mkVirtio (vi_start v) (vi_irq v) (device_features v) (driver_features v) (device_features_sel v) x (device_status v)
    (interrupt_status v) (queue_sel v) (queue0 v) (config_generation v).
Definition set_driver_features (x : Z) (v : Virtio) : Virtio :=
  mkVirtio (vi_start v) (vi_irq v) (device_features v) x (device_features_sel v) (driver_features_sel v) (device_status v)
    (interrupt_status v) (queue_sel v) (queue0 v) (config_generation v).
Definition set_queue_sel (x : Z) (v : Virtio) : Virtio :=
  mkVirtio (vi_start v) (vi_irq v) (device_features v) (driver_features v) (device_features_sel v) (driver_features_sel v)
    (device_status v) (interrupt_status v) x (queue0 v) (config_generation v).
Definition set_status (st irqs : Z) (v : Virtio) : Virtio :=
  mkVirtio (vi_start v) (vi_irq v) (device_features v) (driver_features v) (device_features_sel v) (driver_features_sel v)
    st irqs (queue_sel v) (queue0 v) (config_generation v).
Definition set_queue (q : VirtQueueState) (v : Virtio) : Virtio :=
  mkVirtio (vi_start v) (vi_irq v) (device_features v) (driver_features v) (device_features_sel v) (driver_features_sel v)
    (device_status v) (interrupt_status v) (queue_sel v) q (config_generation v).

Definition set_q_size (x : Z) (q : VirtQueueState) : VirtQueueState :=
  mkQueue x (desc_addr q) (avail_addr q) (used_addr q) (last_avail_idx q) (last_used_idx q) (q_ready q).
Definition set_q_ready (x : bool) (q : VirtQueueState) : VirtQueueState :=
  mkQueue (q_size q) (desc_addr q) (avail_addr q) (used_addr q) (last_avail_idx q) (last_used_idx q) x.
Definition set_desc (x : Z) (q : VirtQueueState) : VirtQueueState :=
  mkQueue (q_size q) x (avail_addr q) (used_addr q) (last_avail_idx q) (last_used_idx q) (q_ready q).
Definition set_avail (x : Z) (q : VirtQueueState) : VirtQueueState :=
  mkQueue (q_size q) (desc_addr q) x (used_addr q) (last_avail_idx q) (last_used_idx q) (q_ready q).
Definition set_used (x : Z) (q : VirtQueueState) : VirtQueueState :=
  mkQueue (q_size q) (desc_addr q) (avail_addr q) x (last_avail_idx q) (last_used_idx q) (q_ready q).
Definition set_indices (a u : Z) (q : VirtQueueState) : VirtQueueState :=
  mkQueue (q_size q) (desc_addr q) (avail_addr q) (used_addr q) a u (q_ready q).

(** ** The queue *)

Section queue.
(** What the kind of device adds to the state. *)
Context {X : Type}.

Record VState := mkV { vs_vio : Virtio; vs_ext : X; vs_mem : MemoryMap }.

Definition VM (A : Type) : Type := PM VState A.

Definition vio : VM Virtio := s ← own; mret (vs_vio s).
Definition upd_vio (f : Virtio -> Virtio) : VM unit := upd_own (fun s => mkV (f (vs_vio s)) (vs_ext s) (vs_mem s)).
Definition upd_q (f : VirtQueueState -> VirtQueueState) : VM unit := upd_vio (fun v => set_queue (f (queue0 v)) v).
Definition ext : VM X := s ← own; mret (vs_ext s).
Definition set_ext (x : X) : VM unit := upd_own (fun s => mkV (vs_vio s) x (vs_mem s)).

(** [mmap->load] and [mmap->store]; the address is a [uint64_t]. *)
Definition mem_load (addr bits : Z) : VM Z := s ← own; lift (load (vs_mem s) (u64 addr) bits).
Definition mem_store (addr bits v : Z) : VM unit :=
  s ← own; m ← lift (store (vs_mem s) (u64 addr) bits v); upd_own (fun s => mkV (vs_vio s) (vs_ext s) m).

Fixpoint copy_from_dram (gpa : Z) (n : nat) : VM (list Z) :=
  match n with
  | O => mret []
  | S n' => b ← mem_load gpa 8; l ← copy_from_dram (gpa + 1) n'; mret (u8 b :: l)
  end.

Fixpoint copy_to_dram (gpa : Z) (src : list Z) : VM unit :=
  match src with
  | [] => mret tt
  | b :: src' => _ ← mem_store gpa 8 b; copy_to_dram (gpa + 1) src'
  end.

(** The loop over at most [q.size] descriptors; [None] for [false]. *)
Fixpoint fetch_from (table idx : Z) (k : nat) : VM (option (list VirtqDesc)) :=
  match k with
  | O => mret None
  | S k' =>
      let a := table + idx * VIRTQ_DESC_SIZE in
      ad ← mem_load (a + 0) 64;
      ln ← mem_load (a + 8) 32;
      fl ← mem_load (a + 12) 16;
      nx ← mem_load (a + 14) 16;
      let d := mkDesc ad (u32 ln) (u16 fl) (u16 nx) in
      if negb (Z.land (d_flags d) VIRTQ_DESC_F_NEXT =? 0)
      then l ← fetch_from table (d_next d) k'; mret (cons d <$> l)
      else mret (Some [d])
  end.

Definition fetch_descriptor_chain (head : Z) : VM (option (list VirtqDesc)) :=
  v ← vio;
  let q := queue0 v in
  if desc_addr q =? 0 then mret None else fetch_from (desc_addr q) head (Z.to_nat (q_size q)).

Definition raise_irq : VM unit := v ← vio; on_plic (set_pending (vi_irq v) true).

Definition consume : VM unit := upd_q (fun q => set_indices (u16 (last_avail_idx q + 1)) (last_used_idx q) q).

(** The used element of a request, and the interrupt. *)
Definition add_used (head n : Z) : VM unit :=
  v ← vio;
  let q := queue0 v in
  let elem := used_addr q + 4 + (last_used_idx q mod q_size q) * 8 in
  _ ← mem_store (elem + 0) 32 head;
  _ ← mem_store (elem + 4) 32 n;
  _ ← upd_q (fun q => set_indices (last_avail_idx q) (u16 (last_used_idx q + 1)) q);
  v ← vio;
  _ ← mem_store (used_addr q + 2) 16 (last_used_idx (queue0 v));
  _ ← consume;
  _ ← upd_vio (fun v => set_status (device_status v) (Z.lor (interrupt_status v) 1) v);
  raise_irq.

(** A request: [None] when it is dropped, or the length of its used element. *)
Context (request : list VirtqDesc -> VM (option Z)).

(** The body of [while(q.last_avail_idx != avail_idx)]. *)
Definition process_one : VM unit :=
  v ← vio;
  let q := queue0 v in
  head ← mem_load (avail_addr q + 4 + (last_avail_idx q mod q_size q) * 2) 16;
  chain ← fetch_descriptor_chain (u16 head);
  match chain with
  | None => consume
  | Some c =>
      r ← request c;
      match r with None => consume | Some n => add_used (u16 head) n end
  end.

Fixpoint process_loop (fuel : nat) (avail_idx : Z) : VM (option unit) :=
  v ← vio;
  if last_avail_idx (queue0 v) =? avail_idx then mret (Some tt) else
  match fuel with
  | O => mret None
  | S fuel' => _ ← process_one; process_loop fuel' avail_idx
  end.

(** The indices are 16 bits wide, so [2 ^ 16] passes are enough. *)
Definition process_queue (qsel : Z) : VM (option unit) :=
  if negb (qsel =? 0) then mret (Some tt) else
  v ← vio;
  let q := queue0 v in
  if negb (q_ready q) || (q_size q =? 0) then mret (Some tt) else
  a ← mem_load (avail_addr q + 2) 16;
  process_loop (Z.to_nat (2 ^ 16)) (u16 a).

(** ** Registers *)

Definition lo32 (x : Z) : Z := u32 (Z.land x 0xFFFFFFFF).
Definition hi32 (x : Z) : Z := u32 (Z.shiftr x 32).
Definition put_lo (x val : Z) : Z := Z.lor (Z.land x (not64 0xFFFFFFFF)) (u32 val).
Definition put_hi (x val : Z) : Z := Z.lor (Z.land x 0xFFFFFFFF) (u64 (Z.shiftl (u32 val) 32)).

(** The registers both devices have; 0 for the others. *)
Definition virtio_read (device_id : Z) (v : Virtio) (off : Z) : Z :=
  let q := queue0 v in
  if off =? VIRT_REG_MAGICVALUE then 0x74726976
  else if off =? VIRT_REG_VERSION then 0x2
  else if off =? VIRT_REG_DEVICEID then device_id
  else if off =? VIRT_REG_VENDORID then 0x554d4551
  else if off =? VIRT_REG_DEVICEFEATURES then
    if device_features_sel v =? 0 then lo32 (device_features v) else hi32 (device_features v)
  else if off =? VIRT_REG_DEVICEFEATURESSEL then device_features_sel v
  else if off =? VIRT_REG_QUEUESEL then queue_sel v
  else if off =? VIRT_REG_QUEUENUMMAX then if queue_sel v =? 0 then 128 else 0
  else if off =? VIRT_REG_QUEUENUM then q_size q
  else if off =? VIRT_REG_QUEUEREADY then b2z (q_ready q)
  else if off =? VIRT_REG_INTERRUPTSTATUS then interrupt_status v
  else if off =? VIRT_REG_STATUS then device_status v
  else if off =? VIRT_REG_QUEUEDESCLOW then lo32 (desc_addr q)
  else if off =? VIRT_REG_QUEUEDESCHIGH then hi32 (desc_addr q)
  else if off =? VIRT_REG_QUEUEDRIVERLOW then lo32 (avail_addr q)
  else if off =? VIRT_REG_QUEUEDRIVERHIGH then hi32 (avail_addr q)
  else if off =? VIRT_REG_QUEUEDEVICELOW then lo32 (used_addr q)
  else if off =? VIRT_REG_QUEUEDEVICEHIGH then hi32 (used_addr q)
  else if off =? VIRT_REG_CONFIGGENERATION then config_generation v
  else 0.

(** An update of queue 0 when it is the selected one. *)
Definition upd_sel (f : VirtQueueState -> VirtQueueState) : VM unit :=
  v ← vio; if queue_sel v =? 0 then upd_q f else mret tt.

Definition write_status (val : Z) : VM unit :=
  if val =? 0 then
    upd_vio (fun v => set_queue queue_new (set_status 0 0 v))
  else
    upd_vio (fun v =>
      let st := Z.lor (device_status v) (u32 val) in
      let st := if negb (Z.land st VIRT_STATUS_FEATURES_OK =? 0) &&
                   negb (Z.land (driver_features v) (not64 (device_features v)) =? 0)
                then Z.land st (u32 (Z.lnot VIRT_STATUS_FEATURES_OK)) else st in
      set_status st (interrupt_status v) v).

(** [write] of both devices; [None] only if a queue never ended. *)
Definition virtio_write (addr : Z) (sz : MemorySize) (val : Z) : VM (option unit) :=
  v ← vio;
  let off := u64 (addr - vi_start v) in
  let done (m : VM unit) : VM (option unit) := _ ← m; mret (Some tt) in
  if off =? VIRT_REG_DEVICEFEATURESSEL then done (upd_vio (set_features_sel (u32 val)))
  else if off =? VIRT_REG_DRIVERFEATURESSEL then done (upd_vio (set_driver_sel (u32 val)))
  else if off =? VIRT_REG_DRIVERFEATURES then
    done (upd_vio (fun v => set_driver_features
      (if driver_features_sel v =? 0 then put_lo (driver_features v) val else put_hi (driver_features v) val) v))
  else if off =? VIRT_REG_QUEUESEL then done (upd_vio (set_queue_sel (u32 val)))
  else if off =? VIRT_REG_QUEUENUM then done (upd_sel (set_q_size (u32 val)))
  else if off =? VIRT_REG_QUEUEREADY then done (upd_sel (set_q_ready (negb (val =? 0))))
  else if off =? VIRT_REG_QUEUEDESCLOW then done (upd_sel (fun q => set_desc (put_lo (desc_addr q) val) q))
  else if off =? VIRT_REG_QUEUEDESCHIGH then done (upd_sel (fun q => set_desc (put_hi (desc_addr q) val) q))
  else if off =? VIRT_REG_QUEUEDRIVERLOW then done (upd_sel (fun q => set_avail (put_lo (avail_addr q) val) q))
  else if off =? VIRT_REG_QUEUEDRIVERHIGH then done (upd_sel (fun q => set_avail (put_hi (avail_addr q) val) q))
  else if off =? VIRT_REG_QUEUEDEVICELOW then done (upd_sel (fun q => set_used (put_lo (used_addr q) val) q))
  else if off =? VIRT_REG_QUEUEDEVICEHIGH then done (upd_sel (fun q => set_used (put_hi (used_addr q) val) q))
  else if off =? VIRT_REG_QUEUENOTIFY then process_queue (u32 val)
  else if off =? VIRT_REG_INTERRUPTACK then
    done (upd_vio (fun v => set_status (device_status v) (Z.land (interrupt_status v) (u32 (Z.lnot (u32 val)))) v))
  else if off =? VIRT_REG_STATUS then done (write_status val)
  else mret (Some tt).
End queue.
Arguments VState : clear implicits.
Arguments VM : clear implicits.

(** ** The block device *)

(** The image file: its size and its bytes, 0 where none were written. *)
Record Disk := mkDisk { dk_size : Z; dk_data : gmap Z Z }.

Record BlkExt := mkBlk { disk : option Disk; capacity_sectors : Z }.

Definition blk_new (base irq : Z) (image : option Disk) (m : MemoryMap) : VState BlkExt :=
  mkV (virtio_new base irq) (mkBlk image (match image with Some d => dk_size d / SECTOR_SIZE | None => 0 end)) m.

(** [fseek] takes a [long]; a negative position is refused. *)
Definition disk_pos (sector : Z) : option Z :=
  let off := s64 (u64 (sector * SECTOR_SIZE)) in if off <? 0 then None else Some off.

Definition disk_byte (d : Disk) (i : Z) : Z := if i <? dk_size d then byte_at (dk_data d) i else 0.

(** A short [fread] is filled up with zeros. *)
Definition disk_read (d : option Disk) (sector : Z) (n : nat) : option (list Z) :=
  d ← d; off ← disk_pos sector; Some ((fun k => disk_byte d (off + Z.of_nat k)) <$> seq 0 n).

Fixpoint put_disk (m : gmap Z Z) (off : Z) (bs : list Z) : gmap Z Z :=
  match bs with [] => m | b :: bs' => <[off := b]> (put_disk m (off + 1) bs') end.

(** The bytes between the old end of the file and the write are zeros. *)
Definition disk_write (d : option Disk) (sector : Z) (bs : list Z) : option Disk :=
  d ← d; off ← disk_pos sector;
  Some (match bs with
        | [] => d
        | _ => mkDisk (Z.max (dk_size d) (off + Z.of_nat (length bs)))
                 (put_disk (filter (fun kv => kv.1 < dk_size d) (dk_data d)) off bs)
        end).

Definition is_write (d : VirtqDesc) : bool := negb (Z.land (d_flags d) VIRTQ_DESC_F_WRITE =? 0).

(** The last descriptor after the first that the device may write. *)
Fixpoint status_index (chain : list VirtqDesc) (i : nat) : option nat :=
  match i with
  | O => None
  | S i' => match chain !! i with
            | Some d => if is_write d then Some i else status_index chain i'
            | None => None
            end
  end.

Definition total_len (ds : list VirtqDesc) : Z := foldr (fun d n => d_len d + n) 0 ds.

(** Reading: the loop ends after a descriptor that is not for writing. *)
Fixpoint blk_in (ds : list VirtqDesc) (tmp : list Z) : VM BlkExt bool :=
  match ds with
  | [] => mret true
  | d :: ds' =>
      let n := Nat.min (Z.to_nat (d_len d)) (length tmp) in
      _ ← copy_to_dram (d_addr d) (take n tmp);
      if is_write d then blk_in ds' (drop n tmp) else mret false
  end.

Fixpoint blk_out (ds : list VirtqDesc) : VM BlkExt (list Z) :=
  match ds with
  | [] => mret []
  | d :: ds' => a ← copy_from_dram (d_addr d) (Z.to_nat (d_len d)); b ← blk_out ds'; mret (a ++ b)
  end.

Fixpoint le_of (bs : list Z) : Z := match bs with [] => 0 | b :: bs' => b + 256 * le_of bs' end.

(** The operation of a request with its data descriptors. *)
Definition blk_op (type sector : Z) (ds : list VirtqDesc) : VM BlkExt bool :=
  x ← ext;
  if type =? VIRTIO_BLK_T_IN then
    match disk_read (disk x) sector (Z.to_nat (total_len ds)) with
    | None => mret false
    | Some tmp => blk_in ds tmp
    end
  else if type =? VIRTIO_BLK_T_OUT then
    tmp ← blk_out ds;
    let whole := total_len ds mod 512 =? 0 in
    match disk_write (disk x) sector tmp with
    | None => mret false
    | Some d => _ ← set_ext (mkBlk (Some d) (capacity_sectors x)); mret whole
    end
  else mret false.

Definition blk_request (chain : list VirtqDesc) : VM BlkExt (option Z) :=
  match chain with
  | hd :: _ :: _ =>
      if d_len hd <? 16 then mret None else
      req ← copy_from_dram (d_addr hd) 16;
      match status_index chain (length chain - 1) with
      | None => mret (Some 0)
      | Some si =>
          ok ← blk_op (le_of (take 4 req)) (le_of (drop 8 req)) (take (si - 1) (drop 1 chain));
          match chain !! si with
          | None => undef
          | Some st =>
              _ ← mem_store (d_addr st) 8 (if (ok : bool) then VIRTIO_BLK_S_OK else VIRTIO_BLK_S_IOERR);
              mret (Some 0)
          end
      end
  | _ => mret None
  end.

Definition blk_read (addr : Z) (sz : MemorySize) : VM BlkExt Z :=
  v ← vio;
  x ← ext;
  let off := u64 (addr - vi_start v) in
  mret (if off =? VIRT_REG_CAPACITYLOW then lo32 (capacity_sectors x)
        else if off =? VIRT_REG_CAPACITYHIGH then hi32 (capacity_sectors x)
        else if off =? VIRT_REG_SIZEMAX then 0
        else if off =? VIRT_REG_SEGMAX then 128
        else if off =? 0x144 then SECTOR_SIZE
        else virtio_read 0x2 v off).

Definition blk_write : Z -> MemorySize -> Z -> VM BlkExt (option unit) := virtio_write blk_request.

(** ** The entropy device *)

(** A permuted congruential generator. *)
Record Pcg := mkPcg { pcg_state : Z; pcg_inc : Z }.

Definition PCG_MULT : Z := 6364136223846793005.

Definition pcg_step (inc st : Z) : Z := u64 (u64 (st * PCG_MULT) + inc).

Definition virtio_rng_seed (init_state init_seq : Z) : Pcg :=
  let inc := Z.lor (u64 (Z.shiftl init_seq 1)) 1 in
  let st := pcg_step inc 0 in
  let st := u64 (st + init_state) in
  mkPcg (pcg_step inc st) inc.

Definition virtio_rng_next32 (g : Pcg) : Z * Pcg :=
  let old := pcg_state g in
  let xorshifted := u32 (Z.shiftr (Z.lxor (Z.shiftr old 18) old) 27) in
  let rot := u32 (Z.shiftr old 59) in
  (Z.lor (Z.shiftr xorshifted rot) (u32 (Z.shiftl xorshifted (Z.land (u32 (- rot)) 31))),
   mkPcg (pcg_step (pcg_inc g) old) (pcg_inc g)).

(** The low [n] bytes of a word. *)
Fixpoint word_bytes (n : nat) (w : Z) : list Z :=
  match n with O => [] | S n' => u8 w :: word_bytes n' (Z.shiftr w 8) end.

(** Whole words, then what is left of one more. *)
Fixpoint rng_words (k rest : nat) (g : Pcg) : list Z * Pcg :=
  match k with
  | O => match rest with
         | O => ([], g)
         | _ => let '(w, g) := virtio_rng_next32 g in (word_bytes rest w, g)
         end
  | S k' => let '(w, g) := virtio_rng_next32 g in
            let '(l, g) := rng_words k' rest g in (word_bytes 4 w ++ l, g)
  end.

Definition virtio_rng_fill_buffer (len : Z) (g : Pcg) : list Z * Pcg :=
  rng_words (Z.to_nat (len / 4)) (Z.to_nat (len mod 4)) g.

(** The loop over the descriptors; the value is [total_written]. *)
Fixpoint rng_fill (ds : list VirtqDesc) (total : Z) : VM Pcg Z :=
  match ds with
  | [] => mret total
  | d :: ds' =>
      if is_write d then
        g ← ext;
        let '(b, g) := virtio_rng_fill_buffer (d_len d) g in
        _ ← set_ext g;
        _ ← copy_to_dram (d_addr d) b;
        rng_fill ds' (u32 (total + d_len d))
      else rng_fill ds' total
  end.

Definition rng_request (chain : list VirtqDesc) : VM Pcg (option Z) := n ← rng_fill chain 0; mret (Some n).

Definition rng_new (base irq : Z) (seed seq : Z) (m : MemoryMap) : VState Pcg :=
  mkV (virtio_new base irq) (virtio_rng_seed seed seq) m.

Definition rng_read (addr : Z) (sz : MemorySize) : VM Pcg Z :=
  v ← vio; mret (virtio_read 0x4 v (u64 (addr - vi_start v))).

Definition rng_write : Z -> MemorySize -> Z -> VM Pcg (option unit) := virtio_write rng_request.
