(* ===== verification/VirtioSpec.v ===== *)
(** * What the virtio devices do

    Their effect on guest memory, seen as a function from addresses to bytes,
    and on the disk image; the end of the queue loop; and the generator of
    the entropy device. *)

From S2P Require Import Prelude Defs MemoryMap Device Plic Virtio.

(** ** RAM as bytes *)

Record ram_ok (m : MemoryMap) (sz : Z) : Prop := {
  rk_wf : wf_mmap m;
  rk_ram : exists i r, ram_direct m = Some i /\ regions m !! i = Some r /\ base_addr r = RAM_BASE /\ size r = sz;
  rk_size : 0 <= sz /\ RAM_BASE + sz < 2 ^ 64 }.

Definition mbyte (m : MemoryMap) (a : Z) : Z := match ram m with Some r => byte_at (data r) (a - RAM_BASE) | None => 0 end.

(** [n] bytes from address [a] on are in a RAM of [sz] bytes. *)
Definition in_ram (sz a n : Z) : Prop := RAM_BASE <= a /\ 0 <= n /\ a + n <= RAM_BASE + sz.

(** Writing bytes to a byte function. *)
Definition wr (a : Z) (bs : list Z) (f : Z -> Z) (x : Z) : Z :=
  if (a <=? x) && (x <? a + Z.of_nat (length bs)) then nth (Z.to_nat (x - a)) bs 0 else f x.

Definition rd (f : Z -> Z) (a : Z) (n : nat) : list Z := (fun k => f (a + Z.of_nat k)) <$> seq 0 n.

Section ram.
Context (m : MemoryMap) (sz : Z).
Hypothesis Hm : ram_ok m sz.

Lemma find_ram a n : in_ram sz a n -> 0 < n -> exists i r, find_region m a = Ret (Some i) /\ ram_direct m = Some i /\ regions m !! i = Some r /\
  base_addr r = RAM_BASE /\ size r = sz /\ ptr r a = Ret (a - RAM_BASE).
Proof.
  intros (Ha & _ & Hn) Hpos. destruct (rk_ram m sz Hm) as (i & r & Hd & Hi & Hb & Hs). destruct (rk_size m sz Hm) as [Hs0 Hs1]. exists i, r.
  unfold find_region. rewrite (proj2 (Z.leb_le RAM_BASE a)), Hd by lia. split_and!; try done.
  unfold ptr. rewrite Hb, Hs, uN_id by (unfold inw, RAM_BASE in *; lia).
  by rewrite (proj2 (Z.ltb_ge a RAM_BASE)), (proj2 (Z.leb_gt _ a)) by lia.
Qed.

Lemma mbyte_inw a : inw 8 (mbyte m a).
Proof.
  destruct (rk_ram m sz Hm) as (i & r & Hd & Hi & _). unfold mbyte, ram. rewrite Hd. cbn. rewrite Hi.
  pose proof (rk_wf m sz Hm) as [Hf _]. apply (Forall_lookup_1 _ _ _ _ Hf) in Hi as (_ & _ & Hb). apply Hb.
Qed.

Lemma load_ram a bits : 0 <= bits -> bad_size bits = false -> in_ram sz a (Z.of_nat (nbytes bits)) ->
  exists v, load m a bits = Ret v /\ (bits = 8 -> v = mbyte m a).
Proof.
  intros H0 Hbits Hin. destruct (nbytes_bits bits H0 Hbits) as [Hnb Hr]. destruct (find_ram a _ Hin ltac:(lia)) as (i & r & Hf & Hd & Hi & Hb & Hs & Hp).
  rewrite load_read by (done || apply Hm). rewrite Hf. cbn [mbind outcome_bind]. unfold deref. cbn [mbind option_bind]. rewrite Hi.
  cbn [mbind outcome_bind]. rewrite Hp. cbn [mbind outcome_bind]. destruct Hin as (? & ? & ?).
  unfold reg_read, in_array. rewrite Hs, (proj2 (Z.leb_le 0 _)), (proj2 (Z.leb_le _ sz)) by lia. cbn [andb]. eexists. split; [done|].
  intros ->. unfold mbyte, ram. rewrite Hd. cbn [mbind option_bind]. rewrite Hi. change (nbytes 8) with 1%nat. cbn [le_read].
  by rewrite Z.shiftl_0_l, Z.lor_0_r.
Qed.

Lemma store_ram a bits v : 0 <= bits -> bad_size bits = false -> in_ram sz a (Z.of_nat (nbytes bits)) ->
  exists m', store m a bits v = Ret m' /\ ram_ok m' sz /\ forall x, mbyte m' x =
    if (a <=? x) && (x <? a + Z.of_nat (nbytes bits)) then u8 (Z.shiftr v (8 * (x - a))) else mbyte m x.
Proof.
  intros H0 Hbits Hin. destruct (nbytes_bits bits H0 Hbits) as [Hnb Hr]. destruct (find_ram a _ Hin ltac:(lia)) as (i & r & Hf & Hd & Hi & Hb & Hs & Hp).
  pose proof (rk_wf m sz Hm) as Hwf. pose proof Hwf as [Hall _]. pose proof (Forall_lookup_1 _ _ _ _ Hall Hi) as Hrw.
  rewrite store_write by done. rewrite Hf. cbn [mbind outcome_bind]. unfold deref. cbn [mbind option_bind]. rewrite Hi.
  cbn [mbind outcome_bind]. rewrite Hp. cbn [mbind outcome_bind]. pose proof Hin as (? & ? & ?).
  destruct (reg_write r (a - RAM_BASE) (nbytes bits) v) as [r'|e|] eqn:Ew;
    [|unfold reg_write, in_array in Ew; rewrite Hs, (proj2 (Z.leb_le 0 _)), (proj2 (Z.leb_le _ sz)) in Ew by lia; done..].
  pose proof (reg_write_wf _ _ _ _ _ Hrw Ew) as Hrw'. apply reg_write_ret in Ew as (_ & Hb' & Hs' & Hd').
  cbn [mbind outcome_bind]. eexists. split; [done|]. assert (i < length (regions m))%nat as Hlt by by apply lookup_lt_Some in Hi.
  split.
  - split; [by apply set_region_wf| |apply Hm]. exists i, r'. cbn [set_region ram_direct regions]. rewrite Hb', Hs', Hb, Hs.
    split_and!; try done. by apply list_lookup_insert_eq.
  - intros x. unfold mbyte, ram. cbn [set_region ram_direct regions]. rewrite Hd. cbn [mbind option_bind].
    rewrite list_lookup_insert_eq, Hi, Hd', le_write_byte by done.
    replace (x - RAM_BASE - (a - RAM_BASE)) with (x - a) by lia. zcases; done.
Qed.
End ram.

(** ** Copies *)

Section copy.
Context {X : Type}.
Implicit Types (v : Virtio) (x : X) (m : MemoryMap).

Abbreviation VS v x m p vs := (mkV v x m, p, vs).

Lemma mem_load_ok v x m p vs sz a bits : ram_ok m sz -> 0 <= bits -> bad_size bits = false -> in_ram sz a (Z.of_nat (nbytes bits)) ->
  exists w, mem_load a bits (VS v x m p vs) = Ret (w, VS v x m p vs) /\ (bits = 8 -> w = mbyte m a).
Proof.
  intros Hm H0 Hb Hin. destruct (load_ram m sz Hm a bits H0 Hb Hin) as (w & Hw & E). exists w. split; [|done].
  pose proof (rk_size m sz Hm). destruct (nbytes_bits bits H0 Hb). unfold mem_load, own, dev, gets, lift. cbv [mbind ST_bind]. cbn [fst vs_mem].
  rewrite uN_id by (unfold in_ram, inw, RAM_BASE in *; lia). by rewrite Hw.
Qed.

Lemma mem_store_ok v x m p vs sz a bits w : ram_ok m sz -> 0 <= bits -> bad_size bits = false -> in_ram sz a (Z.of_nat (nbytes bits)) ->
  exists m', mem_store a bits w (VS v x m p vs) = Ret (tt, VS v x m' p vs) /\ ram_ok m' sz /\ forall y, mbyte m' y =
    if (a <=? y) && (y <? a + Z.of_nat (nbytes bits)) then u8 (Z.shiftr w (8 * (y - a))) else mbyte m y.
Proof.
  intros Hm H0 Hb Hin. destruct (store_ram m sz Hm a bits w H0 Hb Hin) as (m' & Hw & Hm' & E). exists m'. split; [|done].
  pose proof (rk_size m sz Hm). destruct (nbytes_bits bits H0 Hb). unfold mem_store, own, dev, gets, lift, upd_own, upd, modify.
  cbv [mbind ST_bind]. cbn [fst snd vs_mem].
  rewrite uN_id by (unfold in_ram, inw, RAM_BASE in *; lia). by rewrite Hw.
Qed.

Lemma copy_from_ok v x m p vs sz n : forall a, ram_ok m sz -> in_ram sz a (Z.of_nat n) ->
  copy_from_dram a n (VS v x m p vs) = Ret (rd (mbyte m) a n, VS v x m p vs).
Proof.
  induction n as [|n IH]; intros a Hm Hin; [done|]. cbn [copy_from_dram]. cbv [mbind ST_bind].
  destruct (mem_load_ok v x m p vs sz a 8 Hm ltac:(lia) eq_refl) as (w & -> & Hw); [unfold in_ram in *; change (nbytes 8) with 1%nat; lia|].
  rewrite IH by (try done; unfold in_ram in *; lia). cbv [mret ST_ret]. do 2 f_equal. rewrite (Hw eq_refl), uN_id by by eapply mbyte_inw.
  unfold rd. cbn [seq]. rewrite fmap_cons, Z.add_0_r. f_equal. rewrite <- fmap_S_seq, <- list_fmap_compose.
  apply list_fmap_ext. intros k y _. cbn. f_equal. lia.
Qed.

Lemma wr_nil a f y : wr a [] f y = f y.
Proof. unfold wr. cbn. zcases; done. Qed.

Lemma copy_to_ok v x sz p vs bs : forall a m, ram_ok m sz -> in_ram sz a (Z.of_nat (length bs)) -> Forall (inw 8) bs ->
  exists m', copy_to_dram a bs (VS v x m p vs) = Ret (tt, VS v x m' p vs) /\ ram_ok m' sz /\ forall y, mbyte m' y = wr a bs (mbyte m) y.
Proof.
  induction bs as [|b bs IH]; intros a m Hm Hin Hb.
  { exists m. split; [done|]. split; [done|]. intros y. by rewrite wr_nil. }
  apply Forall_cons in Hb as [Hb Hbs]. cbn [copy_to_dram length] in *.
  destruct (mem_store_ok v x m p vs sz a 8 b Hm ltac:(lia) eq_refl) as (m1 & Hs & Hm1 & E1); [unfold in_ram in *; change (nbytes 8) with 1%nat; lia|].
  destruct (IH (a + 1) m1 Hm1) as (m2 & Hc & Hm2 & E2); [unfold in_ram in *; lia|done|].
  exists m2. cbv [mbind ST_bind]. rewrite Hs. split; [done|]. split; [done|]. intros y. rewrite E2. unfold wr at 1. rewrite E1.
  change (nbytes 8) with 1%nat. unfold wr. cbn [length].
  destruct (Z.eq_dec y a) as [->|Hne].
  - rewrite Z.sub_diag, Z.shiftr_0_r, uN_id by done. zcases. done.
  - destruct (Z.to_nat (y - a)) as [|k] eqn:Ek; [zcases; done|]. replace (Z.to_nat (y - (a + 1))) with k by lia. zcases; done.
Qed.
End copy.

(** ** The disk *)

Lemma put_disk_byte m bs : forall off i, byte_at (put_disk m off bs) i =
  if (off <=? i) && (i <? off + Z.of_nat (length bs)) then nth (Z.to_nat (i - off)) bs 0 else byte_at m i.
Proof.
  induction bs as [|b bs IH]; intros off i; cbn [put_disk length]; [zcases; done|].
  unfold byte_at at 1. destruct (Z.eq_dec i off) as [->|Hne].
  - rewrite lookup_insert_eq, Z.sub_diag. zcases. done.
  - rewrite lookup_insert_ne by done. fold (byte_at (put_disk m (off + 1) bs) i). rewrite IH.
    destruct (Z.to_nat (i - off)) as [|k] eqn:Ek; [zcases; done|]. replace (Z.to_nat (i - (off + 1))) with k by lia. zcases; done.
Qed.

Lemma filter_byte m n i : byte_at (filter (fun kv => kv.1 < n) m) i = if i <? n then byte_at m i else 0.
Proof.
  unfold byte_at. rewrite map_lookup_filter. destruct (m !! i) as [y|]; cbn; [|by case_match].
  destruct (Z.ltb_spec i n); [rewrite option_guard_True by done; done|rewrite option_guard_False by lia; done].
Qed.

(** A write changes its bytes of the image and no others; bytes between the
    old end and the write read as zero before and after. *)
Lemma disk_write_byte d sector off bs d' i : disk_pos sector = Some off -> disk_write (Some d) sector bs = Some d' ->
  disk_byte d' i = wr off bs (disk_byte d) i.
Proof.
  intros Hp Hw. unfold disk_write in Hw. cbn [mbind option_bind] in Hw. rewrite Hp in Hw. cbn [mbind option_bind] in Hw.
  destruct bs as [|b bs]; apply (inj Some) in Hw as <-; [by rewrite wr_nil|]. set (l := b :: bs).
  assert (0 < Z.of_nat (length l)) by (cbn; lia). unfold disk_byte, wr. cbn [dk_size dk_data]. rewrite put_disk_byte.
  rewrite filter_byte. zcases; done.
Qed.

Lemma disk_read_write d sector bs d' : disk_write (Some d) sector bs = Some d' -> disk_read (Some d') sector (length bs) = Some bs.
Proof.
  intros Hw. destruct (disk_pos sector) as [off|] eqn:Hp; [|unfold disk_write in Hw; cbn in Hw; by rewrite Hp in Hw].
  unfold disk_read. rewrite Hp. cbn. f_equal. apply list_eq. intros k. rewrite list_lookup_fmap.
  destruct (decide (k < length bs)%nat) as [Hk|Hk].
  - rewrite (proj2 (lookup_seq 0 (length bs) k k) ltac:(lia)). cbn. rewrite (disk_write_byte d sector off bs d' _ Hp Hw).
    unfold wr. rewrite (proj2 (Z.leb_le _ _)), (proj2 (Z.ltb_lt _ _)) by lia. cbn [andb]. replace (off + Z.of_nat k - off) with (Z.of_nat k) by lia.
    rewrite Nat2Z.id. destruct (lookup_lt_is_Some_2 bs k Hk) as [b Hbk]. by rewrite Hbk, (nth_lookup_Some bs k 0 b Hbk).
  - rewrite lookup_seq_ge by lia. symmetry. apply lookup_ge_None. lia.
Qed.

Definition disk_typed (d : Disk) : Prop := forall i, inw 8 (byte_at (dk_data d) i).

Lemma disk_read_typed d sector n l : disk_typed d -> disk_read (Some d) sector n = Some l -> length l = n /\ Forall (inw 8) l.
Proof.
  intros Hd Hr. unfold disk_read in Hr. cbn in Hr. destruct (disk_pos sector) as [off|]; [|done]. injection Hr as <-.
  split; [by rewrite length_fmap, length_seq|]. apply Forall_fmap, Forall_forall. intros k _. unfold compose, disk_byte.
  case_match; [apply Hd|by apply inw_0].
Qed.

(** ** Block requests *)

Definition desc_ok (sz : Z) (d : VirtqDesc) : Prop := in_ram sz (d_addr d) (d_len d).

(** What a read request leaves in memory, and what a write request takes
    from it. *)
Fixpoint scatter (ds : list VirtqDesc) (bs : list Z) (f : Z -> Z) : Z -> Z :=
  match ds with
  | [] => f
  | d :: ds' => scatter ds' (drop (Z.to_nat (d_len d)) bs) (wr (d_addr d) (take (Z.to_nat (d_len d)) bs) f)
  end.

Definition gather (ds : list VirtqDesc) (f : Z -> Z) : list Z := mjoin ((fun d => rd f (d_addr d) (Z.to_nat (d_len d))) <$> ds).

Lemma rd_len f a n : length (rd f a n) = n.
Proof. unfold rd. by rewrite length_fmap, length_seq. Qed.

Lemma wr_ext a bs f g : (forall y, f y = g y) -> forall y, wr a bs f y = wr a bs g y.
Proof. intros H y. unfold wr. case_match; [done|apply H]. Qed.

Lemma scatter_ext ds : forall bs f g, (forall y, f y = g y) -> forall y, scatter ds bs f y = scatter ds bs g y.
Proof. induction ds as [|d ds IH]; intros bs f g H y; cbn [scatter]; [apply H|]. apply IH. by apply wr_ext. Qed.

Lemma total_nonneg sz ds : Forall (desc_ok sz) ds -> 0 <= total_len ds.
Proof. induction 1 as [|d ds [_ [Hd _]] _ IH]; cbn; [done|]. fold (total_len ds). lia. Qed.

Section blk.
Context (sz : Z) (v : Virtio) (x : BlkExt) (p : PLIC) (vs : list HartView).

Abbreviation BS m := (mkV v x m, p, vs).

Lemma blk_in_ok ds : forall tmp m, ram_ok m sz -> Forall (desc_ok sz) ds -> Forall (fun d => is_write d = true) ds ->
  Z.of_nat (length tmp) = total_len ds -> Forall (inw 8) tmp ->
  exists m', blk_in ds tmp (BS m) = Ret (true, BS m') /\ ram_ok m' sz /\ forall y, mbyte m' y = scatter ds tmp (mbyte m) y.
Proof.
  induction ds as [|d ds IH]; intros tmp m Hm Hds Hw Hl Ht; [by exists m|].
  apply Forall_cons in Hds as [Hd Hds]. apply Forall_cons in Hw as [Hwd Hw]. cbn [total_len foldr] in Hl. fold (total_len ds) in Hl.
  pose proof (total_nonneg _ _ Hds) as Hnn.
  pose proof Hd as (_ & Hd0 & _). cbn [blk_in]. rewrite Nat.min_l by lia.
  destruct (copy_to_ok v x sz p vs (take (Z.to_nat (d_len d)) tmp) (d_addr d) m Hm) as (m1 & Hc & Hm1 & E1);
    [rewrite length_take, Nat.min_l by lia; unfold desc_ok, in_ram in *; lia|by apply Forall_take|].
  destruct (IH (drop (Z.to_nat (d_len d)) tmp) m1 Hm1 Hds Hw) as (m2 & Hi & Hm2 & E2); [rewrite length_drop; lia|by apply Forall_drop|].
  exists m2. cbv [mbind ST_bind]. rewrite Hc, Hwd. split; [done|]. split; [done|]. intros y. rewrite E2. cbn [scatter]. by apply scatter_ext.
Qed.

Lemma blk_out_ok ds m : ram_ok m sz -> Forall (desc_ok sz) ds -> blk_out ds (BS m) = Ret (gather ds (mbyte m), BS m).
Proof.
  intros Hm. induction 1 as [|d ds Hd _ IH]; [done|]. cbn [blk_out]. cbv [mbind ST_bind].
  pose proof Hd as (_ & Hd0 & _). rewrite (copy_from_ok v x m p vs sz) by (try done; unfold desc_ok, in_ram in *; lia). by rewrite IH.
Qed.

Lemma gather_len ds f : Forall (fun d => 0 <= d_len d) ds -> Z.of_nat (length (gather ds f)) = total_len ds.
Proof.
  induction 1 as [|d ds Hd _ IH]; [done|]. change (gather (d :: ds) f) with (rd f (d_addr d) (Z.to_nat (d_len d)) ++ gather ds f).
  rewrite length_app, rd_len. cbn [total_len foldr]. fold (total_len ds). lia.
Qed.

Lemma status_last hd ds st : is_write st = true ->
  status_index (hd :: ds ++ [st]) (length (hd :: ds ++ [st]) - 1) = Some (S (length ds)).
Proof.
  intros Hst. cbn [length]. rewrite length_app. cbn [length]. replace (S (length ds + 1) - 1)%nat with (S (length ds)) by lia.
  cbn [status_index]. replace ((hd :: ds ++ [st]) !! S (length ds)) with (Some st) by (cbn; symmetry; by apply list_lookup_middle).
  by rewrite Hst.
Qed.
End blk.

(** The status byte at the end of a request. *)
Lemma store_status v (x : BlkExt) m p vs sz st (w : Z) : ram_ok m sz -> in_ram sz (d_addr st) 1 -> inw 8 w ->
  exists m', mem_store (d_addr st) 8 w (mkV v x m, p, vs) = Ret (tt, (mkV v x m', p, vs)) /\ ram_ok m' sz /\
    forall y, mbyte m' y = wr (d_addr st) [w] (mbyte m) y.
Proof.
  intros Hm Hin Hw. destruct (mem_store_ok v x m p vs sz (d_addr st) 8 w Hm ltac:(lia) eq_refl Hin) as (m' & Hs & Hm' & E).
  exists m'. split; [done|]. split; [done|]. intros y. rewrite E. unfold wr. change (nbytes 8) with 1%nat. cbn [length].
  destruct (Z.eq_dec y (d_addr st)) as [->|Hne]; [rewrite Z.sub_diag, Z.shiftr_0_r, uN_id by done; zcases; done|zcases; done].
Qed.

Section request.
Context (sz : Z) (v : Virtio) (d : Disk) (cap : Z) (p : PLIC) (vs : list HartView) (m : MemoryMap).
Context (hd : VirtqDesc) (ds : list VirtqDesc) (st : VirtqDesc).
Hypothesis Hm : ram_ok m sz.
Hypothesis Hhd : desc_ok sz hd.
Hypothesis Hlen : 16 <= d_len hd.
Hypothesis Hds : Forall (desc_ok sz) ds.
Hypothesis Hst : is_write st = true.
Hypothesis Hsta : in_ram sz (d_addr st) 1.

Let req := rd (mbyte m) (d_addr hd) 16.
Let BS d m := (mkV v (mkBlk (Some d) cap) m, p, vs).

(** A request is its operation, then the status. *)
Lemma blk_request_ok ok d' m' : blk_op (le_of (take 4 req)) (le_of (drop 8 req)) ds (BS d m) = Ret (ok, BS d' m') -> ram_ok m' sz ->
  exists m2, blk_request (hd :: ds ++ [st]) (BS d m) = Ret (Some 0, BS d' m2) /\ ram_ok m2 sz /\
    forall y, mbyte m2 y = wr (d_addr st) [if (ok : bool) then VIRTIO_BLK_S_OK else VIRTIO_BLK_S_IOERR] (mbyte m') y.
Proof.
  intros Hop Hm'. destruct (store_status v (mkBlk (Some d') cap) m' p vs sz st (if ok then VIRTIO_BLK_S_OK else VIRTIO_BLK_S_IOERR) Hm' Hsta)
    as (m2 & Hs & Hm2 & E); [by destruct ok|]. exists m2. split; [|done]. unfold blk_request.
  replace (match ds ++ [st] with [] => mret None | _ :: _ => _ end) with
    (req ← copy_from_dram (X := BlkExt) (d_addr hd) 16;
     match status_index (hd :: ds ++ [st]) (length (hd :: ds ++ [st]) - 1) with
      | None => mret (Some 0)
      | Some si =>
          ok ← blk_op (le_of (take 4 req)) (le_of (drop 8 req)) (take (si - 1) (drop 1 (hd :: ds ++ [st])));
          match (hd :: ds ++ [st]) !! si with
          | None => undef
          | Some st =>
              _ ← mem_store (d_addr st) 8 (if (ok : bool) then VIRTIO_BLK_S_OK else VIRTIO_BLK_S_IOERR);
              mret (Some 0)
          end
      end) by (rewrite (proj2 (Z.ltb_ge (d_len hd) 16)) by done; by destruct ds).
  cbv [mbind ST_bind].
  unfold BS. rewrite (copy_from_ok v _ m p vs sz 16) by (try done; unfold desc_ok, in_ram in *; lia). fold req.
  rewrite status_last by done. replace (take (S (length ds) - 1) (drop 1 (hd :: ds ++ [st]))) with ds
    by (change (drop 1 (hd :: ds ++ [st])) with (ds ++ [st]); symmetry; apply take_app_length'; lia).
  unfold BS in Hop. rewrite Hop. replace ((hd :: ds ++ [st]) !! S (length ds)) with (Some st) by (cbn; symmetry; by apply list_lookup_middle).
  by rewrite Hs.
Qed.

Lemma op_in bs : le_of (take 4 req) = VIRTIO_BLK_T_IN -> Forall (fun d => is_write d = true) ds -> disk_typed d ->
  disk_read (Some d) (le_of (drop 8 req)) (Z.to_nat (total_len ds)) = Some bs ->
  exists m', blk_op (le_of (take 4 req)) (le_of (drop 8 req)) ds (BS d m) = Ret (true, BS d m') /\ ram_ok m' sz /\
    forall y, mbyte m' y = scatter ds bs (mbyte m) y.
Proof.
  intros Ht Hw Hd Hr. destruct (disk_read_typed _ _ _ _ Hd Hr) as [Hl Hb].
  unfold blk_op, ext, own, dev, gets. cbv [mbind ST_bind mret ST_ret]. rewrite Ht, Z.eqb_refl. cbn [BS fst vs_ext disk]. rewrite Hr.
  apply blk_in_ok; try done. rewrite Hl. by apply Z2Nat.id, (total_nonneg sz).
Qed.

Lemma op_out d' : le_of (take 4 req) = VIRTIO_BLK_T_OUT ->
  disk_write (Some d) (le_of (drop 8 req)) (gather ds (mbyte m)) = Some d' ->
  blk_op (le_of (take 4 req)) (le_of (drop 8 req)) ds (BS d m) = Ret (total_len ds mod 512 =? 0, BS d' m).
Proof.
  intros Ht Hw. unfold blk_op, ext, own, dev, gets. cbv [mbind ST_bind mret ST_ret]. rewrite Ht.
  change (VIRTIO_BLK_T_OUT =? VIRTIO_BLK_T_IN) with false. rewrite Z.eqb_refl. cbv iota. unfold BS.
  rewrite (blk_out_ok sz) by done. cbn [fst vs_ext disk]. by rewrite Hw.
Qed.

Lemma op_other : le_of (take 4 req) <> VIRTIO_BLK_T_IN -> le_of (take 4 req) <> VIRTIO_BLK_T_OUT ->
  blk_op (le_of (take 4 req)) (le_of (drop 8 req)) ds (BS d m) = Ret (false, BS d m).
Proof.
  intros H1 H2. unfold blk_op, ext, own, dev, gets. cbv [mbind ST_bind mret ST_ret].
  by rewrite (proj2 (Z.eqb_neq _ _) H1), (proj2 (Z.eqb_neq _ _) H2).
Qed.
End request.

(** C34: block requests. For a chain of a header, data descriptors and a
    status descriptor in RAM: a read request puts the bytes of the image at
    its sector into the data descriptors in order and writes status 0; a write
    request stores the bytes of the data descriptors in the image, where a
    later read of the sector finds them, leaves the rest of the image, and
    writes status 0, or 1 when their length is not a number of sectors
    although the image was written; any other request writes status 1. Memory
    changes nowhere else. *)
Theorem blk_requests sz v d cap p vs m hd ds st :
  ram_ok m sz -> desc_ok sz hd -> 16 <= d_len hd -> Forall (desc_ok sz) ds -> is_write st = true -> in_ram sz (d_addr st) 1 ->
  let req := rd (mbyte m) (d_addr hd) 16 in
  let type := le_of (take 4 req) in
  let sector := le_of (drop 8 req) in
  let run := blk_request (hd :: ds ++ [st]) (mkV v (mkBlk (Some d) cap) m, p, vs) in
  let result d' (f : Z -> Z) status := exists m', run = Ret (Some 0, (mkV v (mkBlk (Some d') cap) m', p, vs)) /\ ram_ok m' sz /\
    forall y, mbyte m' y = wr (d_addr st) [status] f y in
  (forall bs, type = VIRTIO_BLK_T_IN -> Forall (fun d => is_write d = true) ds -> disk_typed d ->
    disk_read (Some d) sector (Z.to_nat (total_len ds)) = Some bs -> result d (scatter ds bs (mbyte m)) VIRTIO_BLK_S_OK) /\
  (forall off, type = VIRTIO_BLK_T_OUT -> disk_pos sector = Some off -> exists d',
    result d' (mbyte m) (if total_len ds mod 512 =? 0 then VIRTIO_BLK_S_OK else VIRTIO_BLK_S_IOERR) /\
    disk_read (Some d') sector (Z.to_nat (total_len ds)) = Some (gather ds (mbyte m)) /\
    forall i, disk_byte d' i = wr off (gather ds (mbyte m)) (disk_byte d) i) /\
  (type <> VIRTIO_BLK_T_IN -> type <> VIRTIO_BLK_T_OUT -> result d (mbyte m) VIRTIO_BLK_S_IOERR).
Proof.
  intros Hm Hhd Hlen Hds Hst Hsta req type sector run result. split_and!.
  - intros bs Ht Hw Hd Hr. destruct (op_in sz v d cap p vs m hd ds Hm Hds bs Ht Hw Hd Hr) as (m' & Hop & Hm' & E).
    destruct (blk_request_ok sz v d cap p vs m hd ds st Hm Hhd Hlen Hds Hst Hsta true d m' Hop Hm') as (m2 & Hr2 & Hm2 & E2).
    exists m2. split; [exact Hr2|]. split; [done|]. intros y. rewrite E2. by apply wr_ext.
  - intros off Ht Hp. assert (exists d', disk_write (Some d) sector (gather ds (mbyte m)) = Some d') as [d' Hw].
    { unfold disk_write. cbn [mbind option_bind]. rewrite Hp. by eexists. }
    exists d'. split; [|split].
    + pose proof (op_out sz v d cap p vs m hd ds Hm Hds d' Ht Hw) as Hop.
      destruct (blk_request_ok sz v d cap p vs m hd ds st Hm Hhd Hlen Hds Hst Hsta _ d' m Hop Hm) as (m2 & Hr2 & Hm2 & E2). by exists m2.
    + rewrite <- (disk_read_write d sector _ d' Hw) at 1. f_equal. rewrite <- (gather_len ds (mbyte m)), Nat2Z.id; [done|].
      eapply Forall_impl; [exact Hds|]. by intros ? (_ & ? & _).
    + intros i. by apply (disk_write_byte d sector).
  - intros H1 H2. pose proof (op_other v d cap p vs m hd ds H1 H2) as Hop.
    destruct (blk_request_ok sz v d cap p vs m hd ds st Hm Hhd Hlen Hds Hst Hsta false d m Hop Hm) as (m2 & Hr2 & Hm2 & E2). by exists m2.
Qed.

(** ** Registers and the queue loop *)

(** The device registers are values of their types. *)
Definition queue_typed (q : VirtQueueState) : Prop :=
  inw 32 (q_size q) /\ inw 64 (desc_addr q) /\ inw 64 (avail_addr q) /\ inw 64 (used_addr q) /\
  inw 16 (last_avail_idx q) /\ inw 16 (last_used_idx q).

Record virtio_typed (v : Virtio) : Prop := {
  vt_features : inw 64 (device_features v) /\ inw 64 (driver_features v);
  vt_sel : inw 32 (device_features_sel v) /\ inw 32 (driver_features_sel v) /\ inw 32 (queue_sel v);
  vt_status : inw 32 (device_status v) /\ inw 32 (interrupt_status v);
  vt_queue : queue_typed (queue0 v) }.

(** The layout of the queue, which only its registers change. *)
Definition layout (q : VirtQueueState) : Z * Z * Z * Z * bool := (q_size q, desc_addr q, avail_addr q, used_addr q, q_ready q).

Section respects.
Context {X : Type}.
Implicit Types (s : VState X * PLIC * list HartView).

Abbreviation regs s := (vs_vio s.1.1).

(** Programs that, when they return, have kept a relation to the registers. *)
Definition respects (R : Virtio -> Virtio -> Prop) {A} (m : VM X A) : Prop :=
  forall s a s', m s = Ret (a, s') -> R (regs s) (regs s').

Context (R : Virtio -> Virtio -> Prop) `{!PreOrder R}.

Lemma respects_bind {A B} (m : VM X A) (k : A -> VM X B) : respects R m -> (forall a, respects R (k a)) -> respects R (m ≫= k).
Proof.
  intros Hm Hk s b s2. cbv [mbind ST_bind]. destruct (m s) as [[a s1]|e|] eqn:E; [|done..]. intros E2. etrans; [by eapply Hm|by eapply Hk].
Qed.

Lemma respects_ret {A} (a : A) : respects R (mret a).
Proof. by intros s b s' [= _ <-]. Qed.

Lemma respects_pure {A} (m : VM X A) : (forall s a s', m s = Ret (a, s') -> regs s' = regs s) -> respects R m.
Proof. intros H s a s' E. by rewrite (H _ _ _ E). Qed.

Lemma respects_upd (f : Virtio -> Virtio) : (forall v, R v (f v)) -> respects R (upd_vio (X := X) f).
Proof. intros H s a s'. unfold upd_vio, upd_own, upd, modify. intros [= _ <-]. apply H. Qed.

Lemma respects_vio : respects R (vio (X := X)).
Proof. by apply respects_pure; intros s a s' [= _ <-]. Qed.

Lemma respects_ext : respects R (ext (X := X)).
Proof. by apply respects_pure; intros s a s' [= _ <-]. Qed.

Lemma respects_set_ext (x : X) : respects R (set_ext x).
Proof. by apply respects_pure; intros s a s' [= _ <-]. Qed.

Lemma respects_load a bits : respects R (mem_load (X := X) a bits).
Proof.
  apply respects_pure. intros s w s'. unfold mem_load, own, dev, gets, lift. cbv [mbind ST_bind]. by case_match; [intros [= _ <-]|..].
Qed.

Lemma respects_store a bits w : respects R (mem_store (X := X) a bits w).
Proof.
  apply respects_pure. intros s u s'. unfold mem_store, own, dev, gets, lift, upd_own, upd, modify. cbv [mbind ST_bind].
  by destruct (store _ _ _ _); [intros [= _ <-]|..].
Qed.

Lemma respects_undef {A} : respects R (undef : VM X A).
Proof. done. Qed.

Lemma respects_plic {A} (m : DM PLIC A) : respects R (on_plic m : VM X A).
Proof.
  apply respects_pure. intros s u s'. unfold on_plic. by destruct (m _) as [[b [q vs]]|e|]; [intros [= _ <-]|..].
Qed.

Lemma respects_copy_from n : forall a, respects R (copy_from_dram (X := X) a n).
Proof.
  induction n as [|n IH]; intros a; cbn [copy_from_dram]; [apply respects_ret|]. apply respects_bind; [apply respects_load|].
  intros b. apply respects_bind; [apply IH|]. intros l. apply respects_ret.
Qed.

Lemma respects_copy_to bs : forall a, respects R (copy_to_dram (X := X) a bs).
Proof.
  induction bs as [|b bs IH]; intros a; cbn [copy_to_dram]; [apply respects_ret|]. apply respects_bind; [apply respects_store|]. intros _. apply IH.
Qed.
End respects.

Create HintDb virtio.
#[export] Hint Resolve respects_ret respects_vio respects_ext respects_set_ext respects_load respects_store respects_undef respects_plic
  respects_copy_from respects_copy_to : virtio.

(** Splits a program into its parts and respects the relation through each. *)
Ltac keep := repeat first
  [ solve [eauto 3 with virtio typeclass_instances]
  | apply respects_bind; [typeclasses eauto| |intros ?]
  | match goal with
    | |- respects _ (match ?x with _ => _ end) => destruct x
    end ].

(** The distance between two indices that differ, and after one more. *)
Lemma index_dist a b : inw 16 a -> inw 16 b -> b <> a -> 0 < (a - b) mod 2 ^ 16 < 2 ^ 16 /\
  (a - u16 (b + 1)) mod 2 ^ 16 = (a - b) mod 2 ^ 16 - 1.
Proof.
  unfold inw, uN. intros Ha Hb Hne. pose proof (Z.mod_pos_bound (a - b) (2 ^ 16)).
  assert ((a - b) mod 2 ^ 16 <> 0). { intros Hz. apply Z.mod_divide in Hz as [k Hk]; lia. }
  split; [lia|]. rewrite Zminus_mod_idemp_r. replace (a - (b + 1)) with (a - b - 1) by lia. rewrite <- Zminus_mod_idemp_l.
  apply Z.mod_small. lia.
Qed.

Section loop.
Context {X : Type}.
Implicit Types (s : VState X * PLIC * list HartView).

Abbreviation regs s := (vs_vio s.1.1).
Abbreviation q0 s := (queue0 (vs_vio s.1.1)).

Lemma respects_fetch k : forall table idx, respects eq (fetch_from (X := X) table idx k).
Proof. induction k as [|k IH]; intros table idx; cbn [fetch_from]; keep. Qed.

Lemma respects_chain head : respects eq (fetch_descriptor_chain (X := X) head).
Proof. unfold fetch_descriptor_chain. keep. apply respects_fetch. Qed.

(** What one pass, and what its parts, do to the queue. *)
Definition moved (n : Z) (v v' : Virtio) : Prop :=
  (inw 16 (last_avail_idx (queue0 v)) -> last_avail_idx (queue0 v') = u16 (last_avail_idx (queue0 v) + n)) /\
  layout (queue0 v') = layout (queue0 v) /\ (virtio_typed v -> virtio_typed v').

Lemma moved_none v v' : last_avail_idx (queue0 v') = last_avail_idx (queue0 v) -> layout (queue0 v') = layout (queue0 v) ->
  (virtio_typed v -> virtio_typed v') -> moved 0 v v'.
Proof. intros H L T. split; [|done]. intros Hi. by rewrite Z.add_0_r, uN_id, H. Qed.

Lemma moved_trans n k v1 v2 v3 : moved n v1 v2 -> moved k v2 v3 -> moved (n + k) v1 v3.
Proof.
  intros (H1 & L1 & T1) (H2 & L2 & T2). split; [|split; [congruence|auto]]. intros H. rewrite H2 by (rewrite H1 by done; apply uN_inw; lia).
  rewrite H1 by done. unfold uN. rewrite Zplus_mod_idemp_l. f_equal. lia.
Qed.

#[local] Instance moved_preorder : PreOrder (moved 0).
Proof.
  split; [|intros v1 v2 v3; apply (moved_trans 0 0)]. intros v. by apply moved_none.
Qed.

Lemma respects_then {A B} n k (m : VM X A) (f : A -> VM X B) : respects (moved n) m -> (forall a, respects (moved k) (f a)) -> respects (moved (n + k)) (m ≫= f).
Proof.
  intros Hm Hk s b s2. cbv [mbind ST_bind]. destruct (m s) as [[a s1]|e|] eqn:E; [|done..].
  intros E2. eapply moved_trans; [by eapply Hm|by eapply Hk].
Qed.

Lemma respects_before {A B} (m : VM X A) (f : A -> VM X B) : respects (moved 0) m -> (forall a, respects (moved 1) (f a)) -> respects (moved 1) (m ≫= f).
Proof. apply (respects_then 0 1). Qed.

Lemma respects_eq {A} (m : VM X A) : respects eq m -> respects (moved 0) m.
Proof. intros H s a s' E. by rewrite (H _ _ _ E). Qed.

Lemma consume_moved : respects (moved 1) (consume (X := X)).
Proof.
  intros s a s'. unfold consume, upd_q, upd_vio, upd_own, upd, modify. intros [= _ <-]. split; [done|]. split; [done|].
  intros [? ? ? (? & ? & ? & ? & ? & ?)]. split; try done. split_and!; try done. apply uN_inw. lia.
Qed.

Lemma add_used_moved head n : respects (moved 1) (add_used (X := X) head n).
Proof.
  unfold add_used. do 2 (apply respects_before; [keep|intros ?]). apply respects_before; [keep|intros _]. apply respects_before.
  { apply respects_upd. intros v. apply moved_none; [done..|].
    intros [? ? ? (? & ? & ? & ? & ? & ?)]. split; try done. split_and!; try done. apply uN_inw. lia. }
  intros _. do 2 (apply respects_before; [keep|intros ?]). apply (respects_then 1 0); [apply consume_moved|intros _].
  apply respects_bind; [typeclasses eauto| |intros _; unfold raise_irq; keep].
  apply respects_upd. intros v. apply moved_none; [done..|].
  intros [? ? [? ?] ?]. split; try done. split; [done|]. apply inw_lor; [lia|done|split; lia].
Qed.

Context (request : list VirtqDesc -> VM X (option Z)).
Hypothesis Hreq : forall c, respects eq (request c).

Lemma process_one_moved : respects (moved 1) (process_one request).
Proof.
  unfold process_one. apply respects_before; [keep|intros v]. apply respects_before; [keep|intros head].
  apply respects_before; [apply respects_eq, respects_chain|intros [c|]; [|apply consume_moved]].
  apply respects_before; [apply respects_eq, Hreq|intros [n|]; [apply add_used_moved|apply consume_moved]].
Qed.

(** The loop ends at the index it was given, whatever the requests do. *)
Lemma process_loop_ends fuel : forall a s, inw 16 a -> inw 16 (last_avail_idx (q0 s)) ->
  (Z.to_nat ((a - last_avail_idx (q0 s)) mod 2 ^ 16) <= fuel)%nat ->
  match process_loop request fuel a s with
  | Ret (r, s') => r = Some tt /\ last_avail_idx (q0 s') = a /\ layout (q0 s') = layout (q0 s) /\ (virtio_typed (regs s) -> virtio_typed (regs s'))
  | _ => True
  end.
Proof.
  induction fuel as [|fuel IH]; intros a s Ha Hs Hf; cbn [process_loop]; unfold vio, own, dev, gets; cbv [mbind ST_bind mret ST_ret].
  - destruct (Z.eqb_spec (last_avail_idx (queue0 (vs_vio s.1.1))) a) as [E|E]; [done|].
    pose proof (index_dist _ _ Ha Hs E). lia.
  - destruct (Z.eqb_spec (last_avail_idx (queue0 (vs_vio s.1.1))) a) as [E|E]; [done|].
    destruct (process_one request s) as [[u s1]|e|] eqn:E1; [|done..]. apply process_one_moved in E1 as (H1 & L1 & T1).
    assert (inw 16 (last_avail_idx (q0 s1))) as H16 by (rewrite H1 by done; apply uN_inw; lia).
    specialize (IH a s1 Ha H16). destruct (process_loop request fuel a s1) as [[r s2]|e|]; [|done..].
    destruct IH as (Hr & Hl & L2 & T2); [rewrite H1 by done; pose proof (index_dist _ _ Ha Hs E); lia|].
    split_and!; [done|done|congruence|auto].
Qed.

(** ** Every register write ends *)

(** What is true of a write that returns. *)
Definition write_result s (addr val : Z) (o : outcome (option unit * (VState X * PLIC * list HartView))) : Prop :=
  match o with
  | Ret (r, s') => r = Some tt /\ virtio_typed (regs s') /\
      (u64 (addr - vi_start (regs s)) = VIRT_REG_QUEUENOTIFY -> layout (q0 s') = layout (q0 s) /\
        (u32 val = 0 -> q_ready (q0 s) = true -> q_size (q0 s) <> 0 ->
         exists a, mem_load (avail_addr (q0 s) + 2) 16 s = Ret (a, s) /\ last_avail_idx (q0 s') = u16 a))
  | _ => True
  end.

Lemma mem_load_state a bits s w s' : mem_load a bits s = Ret (w, s') -> s' = s.
Proof. unfold mem_load, own, dev, gets, lift. cbv [mbind ST_bind]. by case_match; [intros [= _ <-]|..]. Qed.

Lemma notify_ends s q addr val : virtio_typed (regs s) -> u32 val = q -> write_result s addr val (process_queue request q s).
Proof.
  intros Hs Hq. unfold process_queue. destruct (Z.eqb_spec q 0) as [->|Hne]; cbn [negb].
  2: { cbn. split_and!; try done. intros _. split; [done|]. congruence. }
  unfold vio at 1, own at 1, dev, gets. cbv [mbind ST_bind mret ST_ret]. change (vs_vio s.1.1) with (regs s).
  destruct (q_ready (q0 s)) eqn:Er; cbn [negb orb]; [|split_and!; [done..|]; by rewrite Er].
  destruct (Z.eqb_spec (q_size (q0 s)) 0) as [E0|E0]; [by split_and!|].
  destruct (mem_load (avail_addr (q0 s) + 2) 16 s) as [[a s1]|e|] eqn:El; [|done..]. pose proof (mem_load_state _ _ _ _ _ El) as ->.
  pose proof Hs as [_ _ _ (_ & _ & _ & _ & Hi & _)].
  pose proof (process_loop_ends (Z.to_nat (2 ^ 16)) (u16 a) s (uN_inw 16 a ltac:(lia)) Hi) as H. unfold write_result.
  destruct (process_loop request (Z.to_nat (2 ^ 16)) (u16 a) s) as [[r s2]|e|]; [|done..].
  destruct H as (-> & Hl & L & T); [pose proof (Z.mod_pos_bound (u16 a - last_avail_idx (q0 s)) (2 ^ 16)); lia|].
  split_and!; [done|auto|]. intros _. split; [done|]. eauto.
Qed.
End loop.

Definition stays_typed (v v' : Virtio) : Prop := virtio_typed v -> virtio_typed v'.

#[local] Instance stays_typed_preorder : PreOrder stays_typed.
Proof. split; unfold stays_typed; [intros v; done|intros v1 v2 v3; auto]. Qed.

Lemma put_lo_inw x val : inw 64 x -> inw 64 (put_lo x val).
Proof.
  intros H. apply inw_lor; [lia| |apply (inw_mono 32); [lia|]; apply uN_inw; lia].
  apply inw_land; [lia|done|]. apply uN_inw. lia.
Qed.

Lemma put_hi_inw x val : inw 64 x -> inw 64 (put_hi x val).
Proof. intros H. apply inw_lor; [lia|by apply inw_land|apply uN_inw; lia]. Qed.

#[export] Hint Resolve put_lo_inw put_hi_inw : virtio.
#[export] Hint Extern 2 (inw _ (uN _ _)) => apply uN_inw; lia : virtio.
#[export] Hint Extern 3 (inw _ (Z.land _ _)) => apply inw_land; [lia| |apply uN_inw; lia] : virtio.
#[export] Hint Extern 3 (inw _ (Z.lor _ _)) => apply inw_lor; [lia| |] : virtio.

Ltac typed_regs := cbn -[uN put_lo put_hi inw Z.land Z.lor Z.lnot]; eauto 4 with virtio.

(** An update of the registers with values of their types. *)
Ltac typed_upd :=
  apply respects_upd; intros ?v [[? ?] (? & ? & ?) [? ?] (? & ? & ? & ? & ? & ?)];
  repeat case_match; (split; [split|split_and!|split|split_and!]); typed_regs.

Section writes.
Context {X : Type} (request : list VirtqDesc -> VM X (option Z)).
Hypothesis Hreq : forall c, respects eq (request c).

Lemma done_typed s addr val (m : VM X unit) : respects stays_typed m -> virtio_typed (vs_vio s.1.1) ->
  u64 (addr - vi_start (vs_vio s.1.1)) <> VIRT_REG_QUEUENOTIFY ->
  write_result s addr val ((m ≫= fun _ => mret (Some tt)) s).
Proof.
  intros Hm Hs Hne. cbv [mbind ST_bind]. destruct (m s) as [[u s1]|e|] eqn:E; [|done..]. cbn. split_and!; [done| |done].
  by apply (Hm _ _ _ E).
Qed.

Lemma sel_typed f : (forall q, queue_typed q -> queue_typed (f q)) -> respects stays_typed (upd_sel (X := X) f).
Proof.
  intros Hf. unfold upd_sel, upd_q. keep. apply respects_upd. intros v0 [? ? ? ?]. split; try done. by apply Hf.
Qed.

Lemma status_typed val : respects stays_typed (write_status (X := X) val).
Proof.
  unfold write_status. destruct (val =? 0); typed_upd; try done.
Qed.

(** One register of the write. *)
Ltac register := match goal with
  | |- write_result _ _ _ ((if ?off =? VIRT_REG_QUEUENOTIFY then _ else _) _) =>
      destruct (Z.eqb_spec off VIRT_REG_QUEUENOTIFY); [by apply notify_ends|]
  | |- write_result _ _ _ ((if ?off =? ?r then _ else _) _) =>
      let E := fresh in destruct (Z.eqb_spec off r) as [E|_]; [apply done_typed; [|done|by rewrite E]|]
  end.

Lemma virtio_write_ends s addr sz val : virtio_typed (vs_vio s.1.1) -> write_result s addr val (virtio_write request addr sz val s).
Proof.
  intros Hs. unfold virtio_write. change ((vio ≫= ?k) s) with (k (vs_vio s.1.1) s). cbv beta zeta. repeat register.
  all: try (apply sel_typed; intros q (? & ? & ? & ? & ? & ?); split_and!; by typed_regs).
  all: try (by typed_upd).
  - apply status_typed.
  - by split_and!.
Qed.
End writes.

(** ** The requests of both devices keep the registers *)

Lemma blk_in_respects ds : forall tmp, respects eq (blk_in ds tmp).
Proof. induction ds as [|d ds IH]; intros tmp; cbn [blk_in]; keep. Qed.

Lemma blk_out_respects ds : respects eq (blk_out ds).
Proof. induction ds as [|d ds IH]; cbn [blk_out]; keep. Qed.

#[export] Hint Resolve blk_in_respects blk_out_respects : virtio.

Lemma blk_request_respects c : respects eq (blk_request c).
Proof. unfold blk_request, blk_op. keep. Qed.

Lemma rng_fill_respects ds : forall n, respects eq (rng_fill ds n).
Proof. induction ds as [|d ds IH]; intros n; cbn [rng_fill]; keep. Qed.

Lemma rng_request_respects c : respects eq (rng_request c).
Proof. unfold rng_request. pose proof rng_fill_respects. keep. Qed.

(** C35: every register write of either device ends: the queue loop it may
    start never runs forever, whatever the driver put in memory. When it
    returns, the registers are values of their types; a notification leaves
    the layout of the queue and has consumed every available entry up to the
    index that was read. *)
Theorem virtio_writes :
  (forall s addr sz val, virtio_typed (vs_vio s.1.1) -> write_result s addr val (blk_write addr sz val s)) /\
  (forall s addr sz val, virtio_typed (vs_vio s.1.1) -> write_result s addr val (rng_write addr sz val s)).
Proof. split; intros; apply virtio_write_ends; [apply blk_request_respects|done|apply rng_request_respects|done]. Qed.

(** ** The generator of the entropy device *)

Definition pcg_typed (g : Pcg) : Prop := inw 64 (pcg_state g) /\ inw 64 (pcg_inc g).

(** The inverse of the multiplier modulo [2 ^ 64]. *)
Definition PCG_INV : Z := 13877824140714322085.

Lemma pcg_step_inj inc s t : inw 64 s -> inw 64 t -> pcg_step inc s = pcg_step inc t -> s = t.
Proof.
  unfold pcg_step, uN. rewrite !Zplus_mod_idemp_l. intros Hs Ht E.
  assert (forall x, inw 64 x -> (((x * PCG_MULT + inc) mod 2 ^ 64 - inc) * PCG_INV) mod 2 ^ 64 = x) as Hinv.
  { intros x Hx. rewrite <- Zmult_mod_idemp_l, Zminus_mod_idemp_l, Zmult_mod_idemp_l.
    replace ((x * PCG_MULT + inc - inc) * PCG_INV) with (x + (x * ((PCG_MULT * PCG_INV - 1) / 2 ^ 64)) * 2 ^ 64)
      by (change ((PCG_MULT * PCG_INV - 1) / 2 ^ 64) with 4787856489426250814; unfold PCG_MULT, PCG_INV; lia).
    rewrite Z_mod_plus_full. by apply Z.mod_small. }
  by rewrite <- (Hinv s Hs), E, Hinv.
Qed.

(** The output of a step, as a rotation. *)
Definition rotr32 (x n : Z) : Z := Z.lor (Z.shiftr x n) (u32 (Z.shiftl x (32 - n))).

Lemma next32_rot g : pcg_typed g -> let old := pcg_state g in
  (virtio_rng_next32 g).1 = rotr32 (u32 (Z.shiftr (Z.lxor (Z.shiftr old 18) old) 27)) (Z.shiftr old 59).
Proof.
  intros [Hs _] old. unfold virtio_rng_next32. cbn [fst]. fold old. set (x := u32 _). set (n := Z.shiftr old 59).
  assert (0 <= n < 32) as Hn. { unfold n. rewrite Z.shiftr_div_pow2 by lia. unfold inw in Hs. split; [apply Z.div_pos; lia|apply Z.div_lt_upper_bound; lia]. }
  rewrite (uN_id 32 n) by (unfold inw; lia). unfold rotr32.
  replace (Z.land (u32 (- n)) 31) with ((- n) mod 32).
  2: { rewrite (Z.land_ones _ 5) by lia. unfold uN. change (2 ^ 5) with 32. rewrite <- (Z.mod_mod_divide (- n) (2 ^ 32) 32); [done|]. by exists (2 ^ 27). }
  destruct (Z.eq_dec n 0) as [->|Hne].
  - rewrite Z.shiftr_0_r. cbn. rewrite Z.shiftl_0_r, uN_id by (apply uN_inw; lia). rewrite Z.lor_diag.
    change (32 - 0) with 32. replace (u32 (Z.shiftl x 32)) with 0; [by rewrite Z.lor_0_r|]. unfold uN. rewrite Z.shiftl_mul_pow2 by lia. by rewrite Z_mod_mult.
  - replace ((- n) mod 32) with (32 - n); [done|]. apply (Z.mod_unique_pos _ _ (- 1)); lia.
Qed.

Definition pcg_next (g : Pcg) : Pcg := (virtio_rng_next32 g).2.

(** The bytes of [k] steps, four from each. *)
Fixpoint rng_bytes (k : nat) (g : Pcg) : list Z :=
  match k with O => [] | S k' => word_bytes 4 (virtio_rng_next32 g).1 ++ rng_bytes k' (pcg_next g) end.

Lemma word_bytes_len n : forall w, length (word_bytes n w) = n.
Proof. induction n as [|n IH]; intros w; cbn; [done|]. by rewrite IH. Qed.

Lemma word_bytes_take n : forall m w, (n <= m)%nat -> word_bytes n w = take n (word_bytes m w).
Proof. induction n as [|n IH]; intros [|m] w H; cbn; try (done || lia). f_equal. apply IH. lia. Qed.

Lemma rng_bytes_len k : forall g, length (rng_bytes k g) = (4 * k)%nat.
Proof. induction k as [|k IH]; intros g; cbn [rng_bytes]; [done|]. rewrite length_app, word_bytes_len, IH. lia. Qed.

(** Filling is a prefix of the stream. *)
Lemma rng_words_stream k rest : forall g, (rest < 4)%nat ->
  let n := (k + if Nat.eqb rest 0 then 0 else 1)%nat in
  rng_words k rest g = (take (4 * k + rest) (rng_bytes n g), Nat.iter n pcg_next g).
Proof.
  induction k as [|k IH]; intros g Hr n.
  - subst n. cbn [rng_words]. destruct rest as [|r]; [done|]. cbn [Nat.eqb Nat.add]. change (Nat.iter 1 pcg_next g) with (pcg_next g). unfold pcg_next.
    destruct (virtio_rng_next32 g) as [w g'] eqn:E. cbn [rng_bytes snd]. rewrite E. cbn [fst]. rewrite app_nil_r.
    f_equal. apply word_bytes_take. lia.
  - cbn [rng_words]. subst n. change (S k + ?x)%nat with (S (k + x)). rewrite Nat.iter_succ_r. cbn [rng_bytes]. 
    assert (virtio_rng_next32 g = ((virtio_rng_next32 g).1, pcg_next g)) as -> by by rewrite (surjective_pairing (virtio_rng_next32 g)) at 1.
    cbn [fst]. rewrite IH by done. f_equal.
    rewrite take_app_ge by (rewrite word_bytes_len; lia). rewrite word_bytes_len. f_equal. f_equal. lia.
Qed.

Lemma pcg_next_typed g : pcg_typed g -> pcg_typed (pcg_next g).
Proof. intros [? ?]. split; [apply uN_inw; lia|done]. Qed.

(** The entropy device. A seed gives a state of its type; a step gives a
    word, the rotation of the permuted state, and no two states step to the
    same one. Filling [len] bytes gives exactly the first [len] bytes of the
    stream from the generator, four from each step and the low ones of the
    last step, and moves the generator by the number of words begun. *)
Lemma rng_stream g len : pcg_typed g -> 0 <= len ->
  let n := Z.to_nat ((len + 3) / 4) in
  virtio_rng_fill_buffer len g = (take (Z.to_nat len) (rng_bytes n g), Nat.iter n pcg_next g) /\
  length (virtio_rng_fill_buffer len g).1 = Z.to_nat len /\
  pcg_typed (virtio_rng_fill_buffer len g).2 /\
  (virtio_rng_next32 g).1 = rotr32 (u32 (Z.shiftr (Z.lxor (Z.shiftr (pcg_state g) 18) (pcg_state g)) 27)) (Z.shiftr (pcg_state g) 59) /\
  (forall g', pcg_typed g' -> pcg_inc g' = pcg_inc g -> pcg_next g' = pcg_next g -> g' = g).
Proof.
  intros Hg Hl n. pose proof (Z.div_mod len 4) as Hd. pose proof (Z.mod_pos_bound len 4) as Hm. pose proof (Z.div_pos len 4).
  assert (virtio_rng_fill_buffer len g = (take (Z.to_nat len) (rng_bytes n g), Nat.iter n pcg_next g)) as E.
  { unfold virtio_rng_fill_buffer. rewrite rng_words_stream by lia.
    replace (4 * Z.to_nat (len / 4) + Z.to_nat (len mod 4))%nat with (Z.to_nat len) by lia.
    replace (Z.to_nat (len / 4) + (if Nat.eqb (Z.to_nat (len mod 4)) 0 then 0 else 1))%nat with n; [done|]. subst n.
    destruct (Nat.eqb_spec (Z.to_nat (len mod 4)) 0); [rewrite <- (Z.div_unique (len + 3) 4 (len / 4) 3); lia|].
    rewrite <- (Z.div_unique (len + 3) 4 (len / 4 + 1) (len mod 4 - 1)); lia. }
  split; [done|]. rewrite E. cbn [fst snd]. split_and!.
  - rewrite length_take, rng_bytes_len. subst n. pose proof (Z.div_mod (len + 3) 4). pose proof (Z.mod_pos_bound (len + 3) 4). lia.
  - clear E. induction n as [|k IH]; [done|]. by apply pcg_next_typed.
  - by apply next32_rot.
  - intros [s' i'] [Hs' _] Hi Hn. destruct g as [s i], Hg as [Hs _]. cbn in Hi, Hs, Hs'. subst i'. f_equal.
    injection Hn as Hn. by eapply pcg_step_inj.
Qed.
