(* ===== verification/Syscon.v ===== *)
(** * Machine state and the power controller
    ([include/machine.hpp], [src/machine.cpp], [src/devices/syscon.cpp])

    [stop] and [reset] as the harts call them, that is on the work thread,
    through the controller. *)

From S2P Require Import Prelude Defs Device.

Inductive MachineState := Off | Halted | Running | Resetting.

Record Control := mkControl { m_state : MachineState; work_thread_running : bool }.

Definition set_m_state (x : MachineState) (c : Control) : Control := mkControl x (work_thread_running c).

(** [Machine::stop] on the work thread: nothing is joined. *)
Definition machine_stop : DM Control unit := upd (fun _ => mkControl Off false).

(** [Machine::reset] on the work thread. When the machine is already off it
    destroys the harts, one of which is executing the call. *)
Definition machine_reset : DM Control unit :=
  c ← dev id;
  match m_state c with
  | Off => lift Undef
  | _ => upd (set_m_state Resetting)
  end.

Record SYSCON := mkSYSCON { sys_start : Z }.

Definition syscon_init_auto : SYSCON := mkSYSCON 0x1000000.

Definition syscon_read (d : SYSCON) (addr : Z) (sz : MemorySize) : DM Control Z := mret 0.

Definition syscon_write (d : SYSCON) (addr : Z) (sz : MemorySize) (val : Z) : DM Control unit :=
  let offset := u64 (sys_start d - addr) in
  if offset =? 0 then
    if val =? 0x5555 then machine_stop
    else if val =? 0x7777 then machine_reset
    else mret tt
  else mret tt.
