(* ===== verification/Platform.v ===== *)
(** * The devices on the bus ([src/machine.cpp], [include/mmio.hpp])

    The bus of the machine [init_auto_devices] builds without virtual disks:
    the interrupt controller, the serial port, the core-local interruptor, the
    power controller and the I2C master, in this order. It implements the
    interface the memory-mapped accesses of a hart are written against, with
    the views of all harts; the view of the hart that runs is taken from, and
    written back to, its registers. *)

From Stdlib Require Import Strings.String.
From S2P Require Import Prelude Defs MemoryMap Hart State Mmio Isa Counters.
From S2P Require Import Device Plic Uart Clint I2c Syscon.

(** [pf_clock] is the host clock. *)
Record Platform := mkPf {
  pf_clock : nat -> Z;
  pf_plic : PLIC;
  pf_uart : UART;
  pf_clint : CLINT;
  pf_syscon : SYSCON;
  pf_control : Control;
  pf_i2c : I2C Slave;
  pf_cur : nat;
  pf_views : list HartView }.

Definition set_plic_uart (p : PLIC) (u : UART) (b : Platform) : Platform :=
  mkPf (pf_clock b) p u (pf_clint b) (pf_syscon b) (pf_control b) (pf_i2c b) (pf_cur b) (pf_views b).
Definition set_plic_i2c (p : PLIC) (d : I2C Slave) (b : Platform) : Platform :=
  mkPf (pf_clock b) p (pf_uart b) (pf_clint b) (pf_syscon b) (pf_control b) d (pf_cur b) (pf_views b).
Definition set_clint (c : CLINT) (b : Platform) : Platform :=
  mkPf (pf_clock b) (pf_plic b) (pf_uart b) c (pf_syscon b) (pf_control b) (pf_i2c b) (pf_cur b) (pf_views b).
Definition set_control (c : Control) (b : Platform) : Platform :=
  mkPf (pf_clock b) (pf_plic b) (pf_uart b) (pf_clint b) (pf_syscon b) c (pf_i2c b) (pf_cur b) (pf_views b).
Definition set_views (vs : list HartView) (b : Platform) : Platform :=
  mkPf (pf_clock b) (pf_plic b) (pf_uart b) (pf_clint b) (pf_syscon b) (pf_control b) (pf_i2c b) (pf_cur b) vs.

(** What a device sees of a hart, and what it can change. *)
Definition view_of (h : Hart) : HartView := mkView (hid h) (ip h) (ctime h) (stimecmp h).
Definition put_view (v : HartView) (h : Hart) : Hart := set_ip (v_ip v) (set_ctime (v_ctime v) h).

(** Run a device operation on its part of the platform. *)
Definition on_dev {D A} (get : Platform -> D) (put : D -> Platform -> Platform) (m : DM D A) : M Platform A := fun s =>
  let b := bus s in
  match m (get b, <[pf_cur b := view_of (hart s)]> (pf_views b)) with
  | Ret (a, (d, vs)) =>
      Ret (a, set_hart (put_view (default (view_of (hart s)) (vs !! pf_cur b)) (hart s))
                (set_bus (set_views vs (put d b)) s))
  | Throw e => Throw e
  | Undef => Undef
  end.

Definition on_uart {A} : PM UART A -> M Platform A :=
  on_dev (fun b => (pf_uart b, pf_plic b)) (fun d b => set_plic_uart d.2 d.1 b).
Definition on_i2c {A} : PM (I2C Slave) A -> M Platform A :=
  on_dev (fun b => (pf_i2c b, pf_plic b)) (fun d b => set_plic_i2c d.2 d.1 b).
Definition on_bus_plic {A} : DM PLIC A -> M Platform A :=
  on_dev pf_plic (fun p b => set_plic_uart p (pf_uart b) b).

(** The [read] and [write] of the [k]-th device. *)
Definition pf_read_of (k : nat) (a : Z) (sz : MemorySize) : M Platform Z :=
  b ← gets bus;
  match k with
  | 0%nat => on_bus_plic (plic_read a sz)
  | 1%nat => on_uart (uart_read a sz)
  | 2%nat => on_dev pf_clint set_clint (clint_read (pf_clock b) a sz)
  | 3%nat => on_dev pf_control set_control (syscon_read (pf_syscon b) a sz)
  | 4%nat => on_i2c (i2c_read a sz)
  | _ => mret 0
  end.

(** [dev->read]: the value is a [uint64_t]. *)
Definition pf_read (k : nat) (a : Z) (sz : MemorySize) : M Platform Z := v ← pf_read_of k a sz; mret (u64 v).

Definition pf_write (k : nat) (a : Z) (sz : MemorySize) (v : Z) : M Platform unit :=
  b ← gets bus;
  match k with
  | 0%nat => on_bus_plic (plic_write a sz v)
  | 1%nat => on_uart (uart_write a sz v)
  | 2%nat => on_dev pf_clint set_clint (clint_write (pf_clock b) a sz v)
  | 3%nat => on_dev pf_control set_control (syscon_write (pf_syscon b) a sz v)
  | 4%nat => on_i2c (i2c_write a sz v)
  | _ => mret tt
  end.

Definition pf_ranges (b : Platform) : list (Z * Z) :=
  [(plic_start (pf_plic b), 0x400000); (u_start (pf_uart b), 0x100); (c_start (pf_clint b), 0x10000);
   (sys_start (pf_syscon b), 0x1000); (i_start (pf_i2c b), 0x20)].

#[export] Instance platform_ops : BusOps Platform := {
  dev_ranges := pf_ranges;
  dev_read := pf_read;
  dev_write := pf_write }.

(** ** Device programs keep the harts *)

(** The pending interrupts and the time of a view are values of their types. *)
Definition view_typed (v : HartView) : Prop := inw 16 (v_ip v) /\ inw 64 (v_ctime v).

(** A device program keeps the number of the harts, and views stay typed. *)
Definition typed {D A} (m : DM D A) : Prop := forall d vs a d' vs', m (d, vs) = Ret (a, (d', vs')) ->
  length vs' = length vs /\ forall i v, vs !! i = Some v -> view_typed v -> exists v', vs' !! i = Some v' /\ view_typed v'.

Section typed.
Context {D : Type}.

Lemma typed_frame {A} (m : DM D A) : (forall d vs a d' vs', m (d, vs) = Ret (a, (d', vs')) -> vs' = vs) -> typed m.
Proof. intros H d vs a d' vs' Hm. apply H in Hm as ->. split; [done|]. intros i v Hi Hv. by exists v. Qed.

Lemma typed_ret {A} (a : A) : typed (D := D) (mret a).
Proof. apply typed_frame. by inversion 1. Qed.
Lemma typed_dev {A} (f : D -> A) : typed (dev f).
Proof. apply typed_frame. by inversion 1. Qed.
Lemma typed_gets {A} (f : D * list HartView -> A) : typed (D := D) (gets f).
Proof. apply typed_frame. by inversion 1. Qed.
Lemma typed_upd (f : D -> D) : typed (upd f).
Proof. apply typed_frame. by inversion 1. Qed.
Lemma typed_lift {A} (o : outcome A) : typed (D := D) (lift o).
Proof. apply typed_frame. intros d vs a' d' vs'. unfold lift. destruct o; [|done..]. by inversion 1. Qed.

Lemma typed_bind {A C} (m : DM D A) (f : A -> DM D C) : typed m -> (forall a, typed (f a)) -> typed (m ≫= f).
Proof.
  intros Hm Hf d vs c d' vs' H. cbv [mbind ST_bind] in H. destruct (m (d, vs)) as [[a [d1 vs1]]| |] eqn:E; [|done..].
  destruct (Hm _ _ _ _ _ E) as [L1 V1], (Hf _ _ _ _ _ _ H) as [L2 V2]. split; [congruence|].
  intros i v Hi Hv. destruct (V1 i v Hi Hv) as (v1 & Hi1 & Hv1). by apply (V2 i v1).
Qed.

Lemma typed_hart (i : Z) (f : HartView -> HartView) (g : HartView -> DM D unit) :
  (forall v, view_typed v -> view_typed (f v)) -> (forall v, g v = put_hart i (f v)) -> typed (v ← hart_at i; g v).
Proof.
  intros Hf Hg d vs a d' vs'. cbv [mbind ST_bind]. unfold hart_at. destruct (i <? 0); [done|]. cbn [snd].
  destruct (vs !! Z.to_nat i) as [w|] eqn:Hw; [|done]. rewrite Hg. unfold put_hart, modify. cbn [fst snd]. inversion 1; subst.
  split; [by rewrite length_insert|]. intros j v Hj Hv. destruct (decide (j = Z.to_nat i)) as [->|Hne].
  - rewrite Hw in Hj. injection Hj as ->. rewrite list_lookup_insert_eq by (by apply lookup_lt_Some in Hw). eexists. split; [done|]. by apply Hf.
  - rewrite list_lookup_insert_ne by done. by exists v.
Qed.
End typed.

Create HintDb typed.
#[export] Hint Resolve typed_ret typed_dev typed_gets typed_upd typed_lift : typed.

(** Walk through a device program. *)
Ltac typed_step := first
  [ solve [auto with typed]
  | apply typed_bind; [|intros ?]
  | match goal with |- typed (if ?b then _ else _) => destruct b end
  | match goal with |- typed (match ?x with _ => _ end) => destruct x end
  | match goal with |- typed (let _ := _ in _) => cbv zeta end ].
Ltac typed_walk := repeat typed_step.

Lemma signal_typed h sup l : typed (signal_cpu_interrupt h sup l).
Proof.
  unfold signal_cpu_interrupt. destruct (_ || _)%bool; [auto with typed|].
  apply (typed_hart h (fun v => set_v_ip (setf (v_ip v) (if sup then Irq.SEI else Irq.MEI) (b2z l)) v)); [|done].
  intros v [Hp Ht]. split; [|done]. apply setf_inw; [by destruct sup|done].
Qed.
#[export] Hint Resolve signal_typed : typed.

Lemma update_context_typed i : typed (update_context i).
Proof. unfold update_context. typed_walk. Qed.
#[export] Hint Resolve update_context_typed : typed.

Lemma update_all_typed : typed update_all_contexts.
Proof.
  unfold update_all_contexts. apply typed_bind; [auto with typed|]. intros n. generalize 0 as i. induction (Z.to_nat n) as [|k IH]; intros i; cbn [update_from]; typed_walk.
Qed.
#[export] Hint Resolve update_all_typed : typed.

Lemma set_pending_typed i b : typed (set_pending i b).
Proof. unfold set_pending, put_pending. typed_walk. Qed.
#[export] Hint Resolve set_pending_typed : typed.

Lemma plic_typed a sz v : typed (plic_read a sz) /\ typed (plic_write a sz v).
Proof.
  split; unfold plic_read, plic_write, claim_interrupt, complete_interrupt, put_context, put_pending; typed_walk.
Qed.

Lemma on_plic_typed {D A} (m : DM PLIC A) : typed m -> typed (D := D * PLIC) (on_plic m).
Proof.
  intros Hm [d p] vs a [d' p'] vs'. unfold on_plic. cbn [fst snd]. destruct (m (p, vs)) as [[a1 [p1 vs1]]| |] eqn:E; [|done..].
  inversion 1; subst. by apply (Hm _ _ _ _ _ E).
Qed.

Lemma own_typed {D} : typed (own (D := D)).
Proof. apply typed_dev. Qed.
Lemma upd_own_typed {D} (f : D -> D) : typed (upd_own f).
Proof. apply typed_upd. Qed.
#[export] Hint Resolve own_typed upd_own_typed on_plic_typed : typed.

Lemma update_iir_typed : typed update_iir.
Proof. unfold update_iir, uart, upd_uart, trigger_irq, clear_irq, uart. typed_walk. Qed.
#[export] Hint Resolve update_iir_typed : typed.

Lemma uart_typed a sz v : typed (uart_read a sz) /\ typed (uart_write a sz v).
Proof. split; unfold uart_read, uart_write, read_rhr, read_iir, write_fcr, uart, upd_uart; typed_walk. Qed.

Lemma update_hart_typed now i : inw 64 now -> typed (update_hart now i).
Proof.
  intros Hn d vs a d' vs'. unfold update_hart. cbv [mbind ST_bind]. unfold hart_at. destruct (i <? 0); [done|]. cbn [snd].
  destruct (vs !! Z.to_nat i) as [w|] eqn:Hw; [|done]. unfold dev, gets, lift. cbn [fst id].
  destruct (vget (msip d) (v_id w)) as [sw| |]; [|done..]. destruct (vget (mtimecmp d) (v_id w)) as [cmp| |]; [|done..].
  unfold put_hart, modify. cbn [fst snd]. inversion 1; subst. split; [by rewrite length_insert|].
  intros j v Hj Hv. destruct (decide (j = Z.to_nat i)) as [->|Hne]; [|rewrite list_lookup_insert_ne by done; by exists v].
  rewrite Hw in Hj. injection Hj as ->. rewrite list_lookup_insert_eq by (by apply lookup_lt_Some in Hw).
  eexists. split; [done|]. split; [|done]. destruct Hv as [Hp _]. by repeat apply setf_inw.
Qed.

Lemma update_harts_typed now k : inw 64 now -> forall i, typed (update_harts now i k).
Proof.
  intros Hn. induction k as [|k IH]; intros i; cbn [update_harts]; [apply typed_ret|].
  apply typed_bind; [by apply update_hart_typed|]. intros []. apply IH.
Qed.

Lemma update_mip_typed clock : typed (update_mip clock).
Proof.
  intros d vs a d' vs' H. apply (update_harts_typed (timer_get (clock (readings d)) (mtime d)) (length vs)) in H; [done|].
  unfold timer_get. by apply uN_inw.
Qed.
#[export] Hint Resolve update_mip_typed : typed.

Lemma clint_typed clock a sz v : typed (clint_read clock a sz) /\ typed (clint_write clock a sz v).
Proof. split; unfold clint_read, clint_write, read_mswi, read_mtimer, write_mswi, write_mtimer, read_time, now_ns; typed_walk. Qed.

Lemma syscon_typed d a sz v : typed (syscon_read d a sz) /\ typed (syscon_write d a sz v).
Proof. split; unfold syscon_read, syscon_write, machine_stop, machine_reset; typed_walk. Qed.

Lemma i2c_typed a sz v : typed (i2c_read (S := Slave) a sz) /\ typed (i2c_write (S := Slave) a sz v) /\ typed (i2c_tick (S := Slave)).
Proof.
  split; [|split]; unfold i2c_read, i2c_write, i2c_tick, execute_command, command_write, command_read, command_stop, with_slave,
    handle_device_write, handle_device_read, with_slave, raise_interrupt, lower_interrupt, i2c_dev_write, i2c_dev_read, start_transmit,
    stop_transmit, base_slave; typed_walk; apply on_plic_typed; typed_walk.
Qed.

(** ** The laws of the bus *)

Lemma on_dev_frame {D A} get put (m : DM D A) s a s' : typed m -> hart_wf (hart s) ->
  on_dev get put m s = Ret (a, s') -> bus_frame s s'.
Proof.
  intros Hm Hwf. unfold on_dev. set (b := bus s).
  destruct (m _) as [[a1 [d1 vs1]]| |] eqn:E; [|done..]. inversion 1; subst. destruct (Hm _ _ _ _ _ E) as [Hl Hv].
  assert (view_typed (view_of (hart s))) as H0 by (split; apply Hwf).
  assert (view_typed (default (view_of (hart s)) (vs1 !! pf_cur b))) as [Hp Ht].
  { destruct (decide (pf_cur b < length (pf_views b))%nat) as [Hlt|Hge].
    - destruct (Hv (pf_cur b) (view_of (hart s))) as (v' & -> & Hv'); [by apply list_lookup_insert_eq|done|done].
    - rewrite lookup_ge_None_2; [done|]. rewrite Hl, length_insert. lia. }
  split; [|by split_and!]. by exists (v_ip (default (view_of (hart s)) (vs1 !! pf_cur b))), (v_ctime (default (view_of (hart s)) (vs1 !! pf_cur b))).
Qed.

Lemma pf_read_frame k a sz s v s' : hart_wf (hart s) -> pf_read_of k a sz s = Ret (v, s') -> bus_frame s s'.
Proof.
  intros Hwf. unfold pf_read_of. cbv [mbind ST_bind]. unfold gets.
  destruct k as [|[|[|[|[|k]]]]]; try (apply on_dev_frame; [|exact Hwf]).
  - apply (proj1 (plic_typed a sz 0)).
  - apply (proj1 (uart_typed a sz 0)).
  - apply (proj1 (clint_typed _ a sz 0)).
  - apply (proj1 (syscon_typed _ a sz 0)).
  - apply (proj1 (i2c_typed a sz 0)).
  - intros [= <- <-]. by apply bus_frame_refl.
Qed.

(** The platform keeps the promises the theorems on the hart ask of a bus. *)
#[export] Instance platform_laws : BusLaws Platform.
Proof.
  split.
  - intros k a sz s v s' Hwf. cbn [dev_read platform_ops]. unfold pf_read. cbv [mbind ST_bind mret ST_ret].
    destruct (pf_read_of k a sz s) as [[v1 s1]| |] eqn:E; [|done..]. intros [= <- <-].
    split; [by apply (pf_read_frame k a sz s v1)|by apply uN_inw].
  - intros k a sz v s s' Hwf. cbn [dev_write platform_ops]. unfold pf_write. cbv [mbind ST_bind]. unfold gets.
    destruct k as [|[|[|[|[|k]]]]]; try (apply on_dev_frame; [|exact Hwf]).
    + apply plic_typed.
    + apply uart_typed.
    + apply clint_typed.
    + apply syscon_typed.
    + apply (proj1 (proj2 (i2c_typed a sz v))).
    + intros [= <-]. by apply bus_frame_refl.
Qed.

Lemma on_dev_csim {D A} c i get put (m : DM D A) : csim c i eq (on_dev get put m) (on_dev get put m).
Proof.
  intros s. unfold on_dev. change (bus (recount c i s)) with (bus s). change (view_of (hart (recount c i s))) with (view_of (hart s)).
  destruct (m _) as [[a [d vs]]| |]; done.
Qed.

#[export] Instance platform_quiet : BusQuiet Platform.
Proof.
  split; intros c i k a sz; [|intros v]; cbn [dev_read dev_write platform_ops]; unfold pf_read, pf_read_of, pf_write.
  - apply (csim_bind c i eq); [|intros v ? <-; by apply csim_ret].
    intros s. cbv [mbind ST_bind]. unfold gets. change (bus (recount c i s)) with (bus s).
    destruct k as [|[|[|[|[|k]]]]]; try apply (on_dev_csim c i); done.
  - intros s. cbv [mbind ST_bind]. unfold gets. change (bus (recount c i s)) with (bus s).
    destruct k as [|[|[|[|[|k]]]]]; try apply (on_dev_csim c i); done.
Qed.

(** ** From a device register to a trap *)

(** The addresses of [init_auto_devices]. *)
Definition pf_auto (b : Platform) : Prop :=
  plic_start (pf_plic b) = 0x0C000000 /\ u_start (pf_uart b) = 0x10000000 /\ c_start (pf_clint b) = 0x02000000.

(** The views the devices see while the current hart runs. *)
Definition live_views (s : State Platform) : list HartView := <[pf_cur (bus s) := view_of (hart s)]> (pf_views (bus s)).

Lemma find_clint b a sz : pf_auto b -> 0x02000000 <= a -> a + sz <= 0x02010000 -> 0 <= sz -> find_dev (pf_ranges b) 0 a sz = Some 2%nat.
Proof.
  intros (Hp & Hu & Hc) Ha Hb Hs. unfold pf_ranges. rewrite Hp, Hu, Hc. cbn [find_dev].
  rewrite (proj2 (Z.leb_gt 0x0C000000 a)), (proj2 (Z.leb_gt 0x10000000 a)), (proj2 (Z.leb_le 0x02000000 a)) by lia. cbn [andb].
  change (u64 (0x2000000 + 0x10000)) with 0x2010000. rewrite uN_id by (unfold inw; lia).
  by rewrite (proj2 (Z.leb_le a _)) by lia.
Qed.

Lemma amo_check_view pa h : view_of (amo_check_reservation pa h) = view_of h.
Proof. unfold amo_check_reservation. by destruct (_ && _)%bool. Qed.

Lemma flag_bit raw n : 0 <= n -> flag raw (BF n 1) = Z.testbit raw n.
Proof. intros Hn. rewrite <- (shiftr_bit_eqb raw n Hn). reflexivity. Qed.

(** C27: a store to the comparand of the running hart sets the hart's time and
    its timer interrupt from the comparand and the time, touches no memory,
    and, when the comparand has been reached and the interrupt is enabled and
    not delegated, leaves the hart with an interrupt to take. *)
Theorem timer_interrupt (s : State Platform) value :
  let b := bus s in let c := pf_clint b in
  let now := timer_get (pf_clock b (readings c)) (mtime c) in
  pf_auto b -> (pf_cur b < length (pf_views b))%nat -> Z.of_nat (pf_cur b) < 0xFFF -> clint_wf c (live_views s) ->
  exists s', write (0x02004000 + 8 * Z.of_nat (pf_cur b)) Long value true s = Ret (mem_ok, s') /\
    mmap s' = mmap s /\ ctime (hart s') = now /\ flag (ip (hart s')) Irq.MTI = (value <=? now) /\
    mtimecmp (pf_clint (bus s')) = <[pf_cur b := value]> (mtimecmp c) /\
    (value <= now -> m_enabled (hart s) = true -> Z.testbit (ie (hart s)) 7 = true ->
     Z.testbit (csr_get (hart s) CSR_MIDELEG) 7 = false -> takes_int (hart s') 7 = true).
Proof.
  intros b c now Hauto Hcur Hmax Hwf. pose proof Hauto as (_ & _ & Hst).
  set (a := 0x02004000 + 8 * Z.of_nat (pf_cur b)). set (h := amo_check_reservation a (hart s)).
  assert (length (live_views s) = length (pf_views b)) as Hlen by apply length_insert.
  destruct (write_mtimecmp_spec (pf_clock b) c (live_views s) (pf_cur b) Long value Hwf ltac:(fold c in Hst; lia) ltac:(lia) Hmax)
    as (c' & vs' & Hw & _ & Hcmp & _ & _ & Hl & Hall). fold now in Hall.
  destruct (Hall (pf_cur b) (view_of (hart s))) as (v' & Hv' & Ht); [by apply list_lookup_insert_eq|].
  replace (c_start c + 0x4000 + 8 * Z.of_nat (pf_cur b)) with a in Hw by (fold c in Hst; unfold a; lia).
  exists (set_hart (put_view v' h) (set_bus (set_views vs' (set_clint c' b)) s)).
  assert (in_dram (mmio_memsize s) a Long = false) as Hnd by (unfold in_dram, RAM_BASE, a; by rewrite (proj2 (Z.leb_gt _ _)) by lia).
  split.
  - unfold write. cbv [mbind ST_bind mret ST_ret gets]. change (cross_page (hart s) true a Long) with false. cbn [negb mem_ok mr_success].
    unfold phys_write. cbv [mbind ST_bind mret ST_ret get_st mod_hart modify]. rewrite Hnd.
    change (dev_ranges (bus s)) with (pf_ranges b). rewrite find_clint by (first [done|unfold a, Long; lia]).
    cbn [dev_write platform_ops]. unfold pf_write. cbv [mbind ST_bind gets]. cbn [bus set_hart]. fold h b.
    unfold on_dev. cbn [bus set_hart hart]. fold b c. unfold h at 1. rewrite amo_check_view. change (<[pf_cur b := view_of (hart s)]> (pf_views b)) with (live_views s). rewrite Hw, Hv'. done.
  - destruct Ht as (_ & Htime & _ & _ & _ & (cmp & Hc & Hm) & _).
    assert (cmp = value) as ->.
    { rewrite Hcmp, list_lookup_insert_eq in Hc; [by injection Hc|]. rewrite (cl_mtimecmp _ _ Hwf). lia. }
    cbn [hart set_hart mmap set_bus bus]. split; [done|]. split; [exact Htime|]. split; [exact Hm|]. split; [exact Hcmp|].
    intros Hle Hen Hie Hdel. unfold takes_int, m_int.
    change (ip (put_view v' h)) with (v_ip v'). rewrite (proj2 (Z.leb_le _ _) Hle) in Hm. rewrite <- (flag_bit (v_ip v') 7) by lia.
    change (BF 7 1) with Irq.MTI. rewrite Hm.
    assert (m_enabled (put_view v' h) = m_enabled (hart s) /\ ie (put_view v' h) = ie (hart s) /\
      csr_get (put_view v' h) CSR_MIDELEG = csr_get (hart s) CSR_MIDELEG) as (-> & -> & ->).
    { unfold h, amo_check_reservation. by destruct (_ && _)%bool. }
    by rewrite Hen, Hie, Hdel.
Qed.
