(* ===== verification/Fdt.v ===== *)
(** * Device-tree nodes ([src/libfdt.cpp], [include/libfdt.h])

    Nodes live on a heap, since the code reaches one node through several
    pointers (its parent's [children], its children's [parent], and the raw
    pointers of the C interface). A [Node*] or [fdt_node*] is a [positive], a
    nullable one an [option]; a pointer that is not on the heap is undefined
    behaviour. Strings are lists of bytes without the terminating NUL. *)

From Stdlib Require Import Strings.String Strings.Ascii.
From S2P Require Import Prelude Defs.

(** A string literal, and one passed as [const char*]. *)
Definition str (s : string) : list Z := (fun c => Z.of_N (N_of_ascii c)) <$> list_ascii_of_string s.
Definition cstr (s : string) : option (list Z) := Some (str s).

(** ** Big-endian words *)

Definition to_be32 (v : Z) : Z :=
  Z.lor (Z.lor (Z.lor (u32 (Z.shiftl (Z.land v 0x000000FF) 24)) (u32 (Z.shiftl (Z.land v 0x0000FF00) 8)))
    (Z.shiftr (Z.land v 0x00FF0000) 8)) (Z.shiftr (Z.land v 0xFF000000) 24).

Definition to_be64 (v : Z) : Z :=
  Z.lor (u64 (Z.shiftl (to_be32 (u32 (Z.land v 0xFFFFFFFF))) 32)) (to_be32 (u32 (Z.land (Z.shiftr v 32) 0xFFFFFFFF))).

Definition align_up (v align : Z) : Z := Z.land (u64 (u64 (v + align) - 1)) (not64 (u64 (align - 1))).

(** The bytes of an integer in memory; the host is little-endian. *)
Fixpoint mem_bytes (n : nat) (v : Z) : list Z :=
  match n with O => [] | S n' => Z.land v 0xFF :: mem_bytes n' (Z.shiftr v 8) end.

Definition write_be32_to_buf (v : Z) : list Z := mem_bytes 4 (to_be32 v).
Definition write_be64_to_buf (v : Z) : list Z := mem_bytes 8 (to_be64 v).

(** ** Names *)

Definition hex_digit (d : Z) : Z := if d <? 10 then 48 + d else 87 + d.

(** [%llx]: a 64-bit number has at most 16 digits. *)
Fixpoint hex_digits (n : nat) (v : Z) : list Z :=
  match n with
  | O => []
  | S n' => (if v <? 16 then [] else hex_digits n' (v / 16)) ++ [hex_digit (v mod 16)]
  end.

(** [snprintf(buf, 12, "0x%08x ", v)]. *)
Fixpoint hex_fixed (n : nat) (v : Z) : list Z :=
  match n with O => [] | S n' => hex_fixed n' (v / 16) ++ [hex_digit (v mod 16)] end.

(** [snprintf] into a buffer of 64 bytes. *)
Definition name_with_addr (name : list Z) (addr : Z) : list Z := take 63 (name ++ [64] ++ hex_digits 16 addr).

(** ** Nodes *)

Record FdtProp := mkFdtProp { fp_name : list Z; fp_data : list Z }.

Record Node := mkNode {
  n_name : list Z;
  n_parent : option positive;
  n_phandle : Z;
  n_props : list FdtProp;
  n_children : list positive }.

(** The wrapper of the C interface. *)
Record fdt_node := mkWrap { inner : option positive; w_node : positive }.

Record Heap := mkHeap { nodes : gmap positive Node; wraps : gmap positive fdt_node; next : positive }.

Definition heap0 : Heap := mkHeap ∅ ∅ 1.

Definition FM (A : Type) : Type := ST Heap A.

Definition set_parent (x : option positive) (n : Node) : Node := mkNode (n_name n) x (n_phandle n) (n_props n) (n_children n).
Definition set_phandle (x : Z) (n : Node) : Node := mkNode (n_name n) (n_parent n) x (n_props n) (n_children n).
Definition set_props (x : list FdtProp) (n : Node) : Node := mkNode (n_name n) (n_parent n) (n_phandle n) x (n_children n).
Definition set_children (x : list positive) (n : Node) : Node := mkNode (n_name n) (n_parent n) (n_phandle n) (n_props n) x.

Definition node_at (p : positive) : FM Node := fun h => match nodes h !! p with Some n => Ret (n, h) | None => Undef end.
Definition put_node (p : positive) (n : Node) : FM unit := modify (fun h => mkHeap (<[p := n]> (nodes h)) (wraps h) (next h)).
Definition upd_node (p : positive) (f : Node -> Node) : FM unit := n ← node_at p; put_node p (f n).
Definition wrap_at (p : positive) : FM fdt_node := fun h => match wraps h !! p with Some w => Ret (w, h) | None => Undef end.

(** [std::make_unique<Node>(name)] and [new fdt_node()]. *)
Definition new_node (name : list Z) : FM positive := fun h =>
  Ret (next h, mkHeap (<[next h := mkNode name None 0 [] []]> (nodes h)) (wraps h) (Pos.succ (next h))).
Definition new_wrap (w : fdt_node) : FM positive := fun h =>
  Ret (next h, mkHeap (nodes h) (<[next h := w]> (wraps h)) (Pos.succ (next h))).
Definition delete_wrap (p : positive) : FM unit := modify (fun h => mkHeap (nodes h) (delete p (wraps h)) (next h)).

Definition create_reg (name : list Z) (addr : Z) : FM positive := new_node (name_with_addr name addr).

Definition add_child (this child : positive) : FM unit :=
  _ ← upd_node child (set_parent (Some this));
  upd_node this (fun n => set_children (n_children n ++ [child]) n).

(** The loops over [children] of the three searches. *)
Fixpoint find_child (p : list Z -> bool) (cs : list positive) : FM (option positive) :=
  match cs with
  | [] => mret None
  | c :: cs' =>
      n ← node_at c;
      if p (n_name n) then mret (Some c) else find_child p cs'
  end.

Definition name_is (a b : list Z) : bool := bool_decide (b = a).
Definition starts_with (prefix s : list Z) : bool := bool_decide (take (length prefix) s = prefix).

Definition find (this : positive) (name : list Z) : FM (option positive) :=
  n ← node_at this; find_child (name_is name) (n_children n).
Definition find_reg (this : positive) (name : list Z) (addr : Z) : FM (option positive) :=
  find this (name_with_addr name addr).
Definition find_reg_any (this : positive) (name : list Z) : FM (option positive) :=
  n ← node_at this; find_child (starts_with (name ++ [64])) (n_children n).

(** ** Properties *)

(** The loop of [add_prop]: the first property of the name is replaced. *)
Fixpoint replace_prop (name data : list Z) (ps : list FdtProp) : option (list FdtProp) :=
  match ps with
  | [] => None
  | p :: ps' => if name_is name (fp_name p) then Some (mkFdtProp (fp_name p) data :: ps') else cons p <$> replace_prop name data ps'
  end.

Definition put_prop (name data : list Z) (ps : list FdtProp) : list FdtProp :=
  default (ps ++ [mkFdtProp name data]) (replace_prop name data ps).

(** [data] is the memory the pointer reaches. *)
Definition add_prop (this : positive) (name data : list Z) (len : Z) : FM unit :=
  if bool_decide (name = []) then mret tt
  else if Z.of_nat (length data) <? len then undef
  else upd_node this (fun n => set_props (put_prop name (take (Z.to_nat len) data) (n_props n)) n).

Definition add_prop_u32 (this : positive) (name : list Z) (val : Z) : FM unit := add_prop this name (write_be32_to_buf val) 4.
Definition add_prop_u64 (this : positive) (name : list Z) (val : Z) : FM unit := add_prop this name (write_be64_to_buf val) 8.

Definition add_prop_cells (this : positive) (name : list Z) (cells : list Z) (count : Z) : FM unit :=
  if count =? 0 then add_prop this name [] 0
  else if Z.of_nat (length cells) <? count then undef
  else add_prop this name (mjoin (write_be32_to_buf <$> take (Z.to_nat count) cells)) (u32 (count * 4)).

(** [val.c_str()] ends with a NUL. *)
Definition add_prop_str (this : positive) (name val : list Z) : FM unit :=
  add_prop this name (val ++ [0]) (u32 (Z.of_nat (length val) + 1)).
Definition add_prop_reg (this : positive) (name : list Z) (begin size : Z) : FM unit :=
  add_prop this name (write_be64_to_buf begin ++ write_be64_to_buf size) 16.

Fixpoint lookup_prop (name : list Z) (ps : list FdtProp) : option (list Z) :=
  match ps with
  | [] => None
  | p :: ps' => if name_is name (fp_name p) then Some (fp_data p) else lookup_prop name ps'
  end.

(** The data a non-null result points to. *)
Definition get_prop_data (this : positive) (name : list Z) : FM (option (list Z)) :=
  n ← node_at this;
  mret (match lookup_prop name (n_props n) with Some [] | None => None | Some d => Some d end).
Definition get_prop_size (this : positive) (name : list Z) : FM Z :=
  n ← node_at this;
  mret (match lookup_prop name (n_props n) with Some d => Z.of_nat (length d) | None => 0 end).

Fixpoint remove_prop (name : list Z) (ps : list FdtProp) : option (list FdtProp) :=
  match ps with
  | [] => None
  | p :: ps' => if name_is name (fp_name p) then Some ps' else cons p <$> remove_prop name ps'
  end.

Definition del_prop (this : positive) (name : list Z) : FM bool :=
  n ← node_at this;
  match remove_prop name (n_props n) with
  | Some ps => _ ← put_node this (set_props ps n); mret true
  | None => mret false
  end.

(** ** Handles *)

Definition is_illegal_phandle (ph : Z) : bool := (ph =? 0) || (ph =? 0xFFFFFFFF).

(** A path in a tree of the heap has no node twice, so as many steps as there
    are nodes are enough; a walk that goes on is one that never ends, which is
    undefined like a stack overflow. *)
Definition heap_fuel (h : Heap) : nat := size (nodes h).

(** [while(r->parent)]. *)
Fixpoint root_from (fuel : nat) (r : positive) : FM positive :=
  match fuel with
  | O => undef
  | S fuel' =>
      n ← node_at r;
      match n_parent n with Some q => root_from fuel' q | None => mret r end
  end.

Definition allocate_new_phandle (node : positive) : FM Z :=
  k ← gets heap_fuel;
  r ← root_from k node;
  _ ← upd_node r (fun n => set_phandle (u32 (n_phandle n + 1)) n);
  n ← node_at r;
  mret (n_phandle n).

Definition get_phandle (this : positive) : FM Z :=
  n ← node_at this;
  match n_parent n with
  | None => mret 0
  | Some _ =>
      if bool_decide (n_name n = []) then mret 0
      else if is_illegal_phandle (n_phandle n) then
        ph ← allocate_new_phandle this;
        _ ← upd_node this (set_phandle ph);
        _ ← add_prop_u32 this (str "phandle") ph;
        n ← node_at this;
        mret (n_phandle n)
      else mret (n_phandle n)
  end.

(** ** The C interface *)

Definition c_string (s : option (list Z)) : list Z := default [] s.

Definition fdt_node_create (name : option (list Z)) : FM (option positive) :=
  p ← new_node (c_string name);
  w ← new_wrap (mkWrap (Some p) p);
  mret (Some w).

Definition fdt_node_create_reg (name : option (list Z)) (addr : Z) : FM (option positive) :=
  p ← create_reg (c_string name) addr;
  w ← new_wrap (mkWrap (Some p) p);
  mret (Some w).

(** The wrapper of a child that is moved is deleted. *)
Definition fdt_node_add_child (node child : option positive) : FM unit :=
  match node, child with
  | Some node, Some child =>
      w ← wrap_at child;
      match inner w with
      | None => mret tt
      | Some c =>
          v ← wrap_at node;
          _ ← add_child (w_node v) c;
          delete_wrap child
      end
  | _, _ => mret tt
  end.

(** A wrapper that owns nothing, for a node that was found. *)
Definition wrap_found (found : option positive) : FM (option positive) :=
  match found with
  | None => mret None
  | Some n => w ← new_wrap (mkWrap None n); mret (Some w)
  end.

Definition fdt_node_find (node : option positive) (name : option (list Z)) : FM (option positive) :=
  match node, name with
  | Some node, Some name => w ← wrap_at node; r ← find (w_node w) name; wrap_found r
  | _, _ => mret None
  end.

Definition fdt_node_find_reg (node : option positive) (name : option (list Z)) (addr : Z) : FM (option positive) :=
  match node, name with
  | Some node, Some name => w ← wrap_at node; r ← find_reg (w_node w) name addr; wrap_found r
  | _, _ => mret None
  end.

Definition fdt_node_find_reg_any (node : option positive) (name : option (list Z)) : FM (option positive) :=
  match node, name with
  | Some node, Some name => w ← wrap_at node; r ← find_reg_any (w_node w) name; wrap_found r
  | _, _ => mret None
  end.

Definition fdt_node_get_phandle (node : option positive) : FM Z :=
  match node with Some node => w ← wrap_at node; get_phandle (w_node w) | None => mret 0 end.

(** The functions that pass a name and their arguments to a method. *)
Definition with_node {A} (dflt : A) (node : option positive) (name : option (list Z)) (f : positive -> list Z -> FM A) : FM A :=
  match node, name with
  | Some node, Some name => w ← wrap_at node; f (w_node w) name
  | _, _ => mret dflt
  end.

Definition fdt_node_add_prop (node : option positive) (name : option (list Z)) (data : option (list Z)) (len : Z) : FM unit :=
  with_node tt node name (fun p name => add_prop p name (c_string data) len).
Definition fdt_node_add_prop_u32 (node : option positive) (name : option (list Z)) (val : Z) : FM unit :=
  with_node tt node name (fun p name => add_prop_u32 p name val).
Definition fdt_node_add_prop_u64 (node : option positive) (name : option (list Z)) (val : Z) : FM unit :=
  with_node tt node name (fun p name => add_prop_u64 p name val).
Definition fdt_node_add_prop_cells (node : option positive) (name : option (list Z)) (cells : list Z) (count : Z) : FM unit :=
  with_node tt node name (fun p name => add_prop_cells p name cells count).
Definition fdt_node_add_prop_str (node : option positive) (name val : option (list Z)) : FM unit :=
  with_node tt node name (fun p name => add_prop_str p name (c_string val)).
Definition fdt_node_add_prop_reg (node : option positive) (name : option (list Z)) (begin size : Z) : FM unit :=
  with_node tt node name (fun p name => add_prop_reg p name begin size).
Definition fdt_node_get_prop_data (node : option positive) (name : option (list Z)) : FM (option (list Z)) :=
  with_node None node name get_prop_data.
Definition fdt_node_get_prop_size (node : option positive) (name : option (list Z)) : FM Z :=
  with_node 0 node name get_prop_size.
Definition fdt_node_del_prop (node : option positive) (name : option (list Z)) : FM bool :=
  with_node false node name del_prop.

(** The destructor of a node that owns its children. *)
Fixpoint free_tree (fuel : nat) (p : positive) : FM unit :=
  match fuel with
  | O => undef
  | S fuel' =>
      n ← node_at p;
      _ ← foldr (fun c k => _ ← free_tree fuel' c; k) (mret tt) (n_children n);
      modify (fun h => mkHeap (delete p (nodes h)) (wraps h) (next h))
  end.

Definition fdt_node_free (node : option positive) : FM unit :=
  match node with
  | None => mret tt
  | Some node =>
      w ← wrap_at node;
      _ ← delete_wrap node;
      match inner w with
      | None => mret tt
      | Some p => k ← gets heap_fuel; free_tree k p
      end
  end.
