(* ===== verification/FdtBlob.v ===== *)
(** * Flattened device trees ([src/libfdt.cpp], serialization)

    The serializer, as the code has it: a pass that computes the sizes of the
    two blocks, and one that writes them into the caller's buffer. The format
    is the one of the Devicetree Specification, and [read_blob] is a reader
    written from it; the theorem is that the reader gives back the tree. *)

From Stdlib Require Import Strings.String Strings.Ascii.
From S2P Require Import Prelude Defs Fdt.

Definition FDT_MAGIC : Z := 0xD00DFEED.
Definition FDT_VERSION : Z := 17.
Definition FDT_COMP_VERSION : Z := 16.
Definition FDT_BEGIN_NODE : Z := 1.
Definition FDT_END_NODE : Z := 2.
Definition FDT_PROP : Z := 3.
Definition FDT_END : Z := 9.
Definition FDT_HDR_SIZE : Z := 40.
Definition FDT_RSV_SIZE : Z := 16.

Abbreviation len l := (Z.of_nat (length l)).
Abbreviation zeros n := (replicate n 0).

(** ** Sizes *)

Record size_desc := mkDesc { struct_size : Z; string_size : Z }.

Definition add_struct (x : Z) (d : size_desc) : size_desc := mkDesc (u32 (struct_size d + x)) (string_size d).
Definition add_string (x : Z) (d : size_desc) : size_desc := mkDesc (struct_size d) (u32 (string_size d + x)).

Definition size_prop (d : size_desc) (p : FdtProp) : size_desc :=
  let d := add_struct 12 d in
  let d := add_struct (u32 (align_up (len (fp_data p)) 4)) d in
  add_string (u32 (align_up (len (fp_name p) + 1) 4)) d.

(** The loop over [children]. *)
Definition each {S} (f : positive -> S -> outcome S) (cs : list positive) (s : S) : outcome S :=
  foldl (fun s c => s ≫= f c) (Ret s) cs.

Fixpoint get_tree_size (fuel : nat) (h : Heap) (p : positive) (d : size_desc) : outcome size_desc :=
  match fuel, nodes h !! p with
  | S fuel', Some n =>
      let name_len := align_up (if bool_decide (n_name n = []) then 1 else len (n_name n) + 1) 4 in
      let d := add_struct (4 + u32 name_len) d in
      let d := foldl size_prop d (n_props n) in
      d ← each (get_tree_size fuel' h) (n_children n) d;
      Ret (add_struct 4 d)
  | _, _ => Undef
  end.

(** ** Writing *)

Record serializer_ctx := mkCtx { buf : list Z; struct_off : Z; strings_begin : Z; strings_off : Z; reserve_off : Z }.

(** [memcpy(buf + off, bs)]. *)
Definition write_at (b : list Z) (off : Z) (bs : list Z) : outcome (list Z) :=
  if (0 <=? off) && (off + len bs <=? len b)
  then Ret (take (Z.to_nat off) b ++ bs ++ drop (Z.to_nat off + length bs) b) else Undef.

Definition ser_struct (bs : list Z) (next : Z) (c : serializer_ctx) : outcome serializer_ctx :=
  b ← write_at (buf c) (struct_off c) bs;
  Ret (mkCtx b next (strings_begin c) (strings_off c) (reserve_off c)).

Definition ser_u32 (v : Z) (c : serializer_ctx) : outcome serializer_ctx :=
  ser_struct (write_be32_to_buf v) (u32 (struct_off c + 4)) c.

(** [strlen] and the bytes up to the NUL. *)
Fixpoint c_str (s : list Z) : list Z :=
  match s with [] => [] | b :: s' => if b =? 0 then [] else b :: c_str s' end.

Definition ser_string (s : list Z) (c : serializer_ctx) : outcome serializer_ctx :=
  ser_struct (c_str s ++ [0]) (u32 (align_up (struct_off c + len (c_str s) + 1) 4)) c.

Definition ser_data (data : list Z) (c : serializer_ctx) : outcome serializer_ctx :=
  let l := u32 (len data) in
  ser_struct (take (Z.to_nat l) data) (u32 (align_up (u32 (struct_off c + l)) 4)) c.

Definition ser_name (s : list Z) (c : serializer_ctx) : outcome serializer_ctx :=
  b ← write_at (buf c) (strings_off c) (c_str s ++ [0]);
  Ret (mkCtx b (struct_off c) (strings_begin c) (u32 (align_up (strings_off c + len (c_str s) + 1) 4)) (reserve_off c)).

(** The body of the loop over [props]. *)
Definition ser_prop (p : FdtProp) (c : serializer_ctx) : outcome serializer_ctx :=
  c ← ser_u32 FDT_PROP c;
  c ← ser_u32 (u32 (len (fp_data p))) c;
  c ← ser_u32 (u32 (strings_off c - strings_begin c)) c;
  c ← ser_data (fp_data p) c;
  ser_name (fp_name p) c.

Definition ser_props (ps : list FdtProp) (c : serializer_ctx) : outcome serializer_ctx :=
  foldl (fun c p => c ≫= ser_prop p) (Ret c) ps.

Fixpoint ser_tree (fuel : nat) (h : Heap) (p : positive) (c : serializer_ctx) : outcome serializer_ctx :=
  match fuel, nodes h !! p with
  | S fuel', Some n =>
      c ← ser_u32 FDT_BEGIN_NODE c;
      c ← ser_string (n_name n) c;
      c ← ser_props (n_props n) c;
      c ← each (ser_tree fuel' h) (n_children n) c;
      ser_u32 FDT_END_NODE c
  | _, _ => Undef
  end.

Definition size_of_tree (h : Heap) (node : option positive) : outcome Z :=
  match node with
  | None => Ret 0
  | Some p =>
      d ← get_tree_size (heap_fuel h) h p (mkDesc 0 0);
      let d := add_struct 4 d in
      Ret (u32 (FDT_HDR_SIZE + FDT_RSV_SIZE + struct_size d + string_size d))
  end.

(** The ten words of the header. *)
Definition header_words (buf_size struct_off strings_off reserve_off boot_cpuid : Z) (d : size_desc) : list Z :=
  [FDT_MAGIC; buf_size; struct_off; strings_off; reserve_off; FDT_VERSION; FDT_COMP_VERSION; boot_cpuid;
   string_size d; struct_size d].

Fixpoint write_header (off : Z) (ws : list Z) (b : list Z) : outcome (list Z) :=
  match ws with
  | [] => Ret b
  | w :: ws' => b ← write_at b off (write_be32_to_buf w); write_header (off + 4) ws' b
  end.

(** [serialize]: the size it returns and what the buffer holds after it. *)
Definition serialize (h : Heap) (node : option positive) (buffer : option (list Z)) (size boot_cpuid : Z)
  : outcome (Z * option (list Z)) :=
  match node with
  | None => Ret (0, buffer)
  | Some p =>
      d ← get_tree_size (heap_fuel h) h p (mkDesc 0 0);
      let d := add_struct 4 d in
      let buf_size := u32 (FDT_HDR_SIZE + FDT_RSV_SIZE + struct_size d) in
      let reserve := FDT_HDR_SIZE in
      let soff := u32 (FDT_HDR_SIZE + FDT_RSV_SIZE) in
      let strs := buf_size in
      let buf_size := u32 (buf_size + string_size d) in
      match buffer with
      | None => Ret (buf_size, None)
      | Some b =>
          if size <? buf_size then Ret (0, Some b) else
          b ← write_at b 0 (replicate (Z.to_nat buf_size) 0);
          b ← write_header 0 (header_words buf_size soff strs reserve boot_cpuid d) b;
          c ← ser_tree (heap_fuel h) h p (mkCtx b soff strs strs reserve);
          c ← ser_u32 FDT_END c;
          Ret (buf_size, Some (buf c))
      end
  end.

Definition fdt_size (h : Heap) (node : option positive) : outcome Z :=
  match node with
  | None => Ret 0
  | Some node => match wraps h !! node with Some w => size_of_tree h (Some (w_node w)) | None => Undef end
  end.

Definition fdt_serialize (h : Heap) (node : option positive) (buffer : option (list Z)) (size boot_cpuid : Z)
  : outcome (Z * option (list Z)) :=
  match node with
  | None => Ret (0, buffer)
  | Some node => match wraps h !! node with Some w => serialize h (Some (w_node w)) buffer size boot_cpuid | None => Undef end
  end.

(** ** The format *)

(** A tree as the format describes it. *)
Inductive Tree := mkTree (t_name : list Z) (t_props : list FdtProp) (t_children : list Tree).

Section tree_ind.
Context (P : Tree -> Prop) (H : forall nm ps cs, Forall P cs -> P (mkTree nm ps cs)).

Fixpoint tree_ind' (t : Tree) : P t :=
  match t with
  | mkTree nm ps cs => H nm ps cs ((fix go cs : Forall P cs := match cs with
                                      | [] => Forall_nil_2 P
                                      | c :: cs' => Forall_cons_2 P c cs' (tree_ind' c) (go cs')
                                      end) cs)
  end.
End tree_ind.

(** The tree below a node of the heap. *)
Fixpoint tree_of (fuel : nat) (h : Heap) (p : positive) : option Tree :=
  match fuel with
  | O => None
  | S fuel' => n ← nodes h !! p; cs ← mapM (tree_of fuel' h) (n_children n); Some (mkTree (n_name n) (n_props n) cs)
  end.

(** Big-endian words, and data padded to words. *)
Definition be32 (v : Z) : list Z := [Z.shiftr v 24; Z.land (Z.shiftr v 16) 0xFF; Z.land (Z.shiftr v 8) 0xFF; Z.land v 0xFF].
Definition pad (l : list Z) : list Z := l ++ replicate (Z.to_nat (- len l mod 4)) 0.
Definition entry (s : list Z) : list Z := pad (s ++ [0]).

(** The strings block of a tree, and its structure block when its strings
    begin at [off]. *)
Definition prop_names (ps : list FdtProp) : list Z := mjoin ((fun p => entry (fp_name p)) <$> ps).

Fixpoint names (t : Tree) : list Z :=
  match t with mkTree _ ps cs => prop_names ps ++ mjoin (names <$> cs) end.

Definition enc_prop (p : FdtProp) (off : Z) : list Z := be32 FDT_PROP ++ be32 (len (fp_data p)) ++ be32 off ++ pad (fp_data p).

Fixpoint enc_props (ps : list FdtProp) (off : Z) : list Z :=
  match ps with [] => [] | p :: ps' => enc_prop p off ++ enc_props ps' (off + len (entry (fp_name p))) end.

Fixpoint enc (t : Tree) (off : Z) {struct t} : list Z :=
  match t with
  | mkTree nm ps cs =>
      be32 FDT_BEGIN_NODE ++ entry nm ++ enc_props ps off ++
      (fix go cs off := match cs with [] => [] | c :: cs' => enc c off ++ go cs' (off + len (names c)) end) cs (off + len (prop_names ps)) ++
      be32 FDT_END_NODE
  end.

Fixpoint enc_list (ts : list Tree) (off : Z) : list Z :=
  match ts with [] => [] | c :: ts' => enc c off ++ enc_list ts' (off + len (names c)) end.

Lemma enc_eq nm ps cs off : enc (mkTree nm ps cs) off =
  be32 FDT_BEGIN_NODE ++ entry nm ++ enc_props ps off ++ enc_list cs (off + len (prop_names ps)) ++ be32 FDT_END_NODE.
Proof. reflexivity. Qed.

(** Names are C strings. *)
Definition nz (s : list Z) : bool := forallb (fun b => negb (b =? 0)) s.

Fixpoint tree_ok (t : Tree) : bool :=
  match t with mkTree nm ps cs => nz nm && forallb (fun p => nz (fp_name p)) ps && forallb tree_ok cs end.

(** ** A reader *)

Definition read_u32 (l : list Z) : option (Z * list Z) :=
  match l with a :: b :: c :: d :: l' => Some (((a * 256 + b) * 256 + c) * 256 + d, l') | _ => None end.

Fixpoint read_cstr (l : list Z) : option (list Z) :=
  match l with [] => None | b :: l' => if b =? 0 then Some [] else cons b <$> read_cstr l' end.

Definition read_name (l : list Z) : option (list Z * list Z) :=
  s ← read_cstr l; Some (s, drop (length (entry s)) l).

Definition read_data (n : Z) (l : list Z) : option (list Z * list Z) :=
  let d := take (Z.to_nat n) l in
  if len d =? n then Some (d, drop (length (pad d)) l) else None.

Fixpoint read_props (fuel : nat) (strs l : list Z) : option (list FdtProp * list Z) :=
  match fuel with
  | O => None
  | S fuel' =>
      '(tok, l1) ← read_u32 l;
      if tok =? FDT_PROP then
        '(n, l2) ← read_u32 l1;
        '(off, l3) ← read_u32 l2;
        '(d, l4) ← read_data n l3;
        nm ← read_cstr (drop (Z.to_nat off) strs);
        '(ps, l5) ← read_props fuel' strs l4;
        Some (mkFdtProp nm d :: ps, l5)
      else Some ([], l)
  end.

(** The nodes up to the first other token. *)
Fixpoint read_nodes (fuel : nat) (strs l : list Z) : option (list Tree * list Z) :=
  match fuel with
  | O => None
  | S fuel' =>
      '(tok, l1) ← read_u32 l;
      if tok =? FDT_BEGIN_NODE then
        '(nm, l2) ← read_name l1;
        '(ps, l3) ← read_props fuel' strs l2;
        '(cs, l4) ← read_nodes fuel' strs l3;
        '(tok', l5) ← read_u32 l4;
        if tok' =? FDT_END_NODE then
          '(ts, l6) ← read_nodes fuel' strs l5;
          Some (mkTree nm ps cs :: ts, l6)
        else None
      else Some ([], l)
  end.

Definition word_at (b : list Z) (off : Z) : option Z := fst <$> read_u32 (drop (Z.to_nat off) b).

Definition block (b : list Z) (off n : Z) : list Z := take (Z.to_nat n) (drop (Z.to_nat off) b).

(** A blob holds one tree, then [FDT_END]. Every token takes bytes, so its
    length is enough fuel. *)
Definition read_blob (b : list Z) : option Tree :=
  magic ← word_at b 0;
  total ← word_at b 4;
  off_struct ← word_at b 8;
  off_strings ← word_at b 12;
  size_strings ← word_at b 32;
  size_struct ← word_at b 36;
  if (magic =? FDT_MAGIC) && (total <=? len b) then
    r ← read_nodes (length b) (block b off_strings size_strings) (block b off_struct size_struct);
    match r with
    | ([t], l) => '(tok, _) ← read_u32 l; if tok =? FDT_END then Some t else None
    | _ => None
    end
  else None.

(** ** Words and padding *)

Lemma cons_eq (x y : Z) l k : x = y -> l = k -> x :: l = y :: k.
Proof. congruence. Qed.

Lemma write_be32_spec v : inw 32 v -> write_be32_to_buf v = be32 v.
Proof.
  intros Hv. unfold write_be32_to_buf, mem_bytes, be32, to_be32.
  change 0x000000FF with (Z.ones 8). change 0x0000FF00 with (Z.shiftl (Z.ones 8) 8).
  change 0x00FF0000 with (Z.shiftl (Z.ones 8) 16). change 0xFF000000 with (Z.shiftl (Z.ones 8) 24).
  repeat (apply cons_eq); [zbits i; zcases..|done]; rewrite ?andb_true_r, ?andb_false_r, ?orb_false_r, ?orb_false_l; try done;
    try (f_equal; lia); try (symmetry; apply (inw_high 32); [done|lia]).
Qed.

Lemma read_be32 v l : inw 32 v -> read_u32 (be32 v ++ l) = Some (v, l).
Proof.
  intros Hv. unfold be32, read_u32. cbn [app]. do 2 f_equal.
  rewrite !(Z.land_ones _ 8) by lia. rewrite !Z.shiftr_div_pow2 by lia. unfold inw in Hv.
  pose proof (Z.div_mod v (2 ^ 8)). pose proof (Z.div_mod (v / 2 ^ 8) (2 ^ 8)). pose proof (Z.div_mod (v / 2 ^ 16) (2 ^ 8)).
  rewrite !Z.div_div in * by lia. change (2 ^ 8 * 2 ^ 8) with (2 ^ 16) in *. change (2 ^ 16 * 2 ^ 8) with (2 ^ 24) in *. lia.
Qed.

Definition whole (l : list Z) : Prop := len l mod 4 = 0.

Lemma len_app (a b : list Z) : len (a ++ b) = len a + len b.
Proof. rewrite length_app. lia. Qed.

(** Inequalities on lengths, natural and integer. *)
Ltac lens := rewrite ?length_app in *; change (length (be32 _)) with 4%nat in *; lia.

Ltac sizes :=
  repeat match goal with H : (_ < _)%nat |- _ => apply Nat2Z.inj_lt in H end;
  try apply Nat2Z.inj_lt; rewrite ?len_app in *; change (len (be32 _)) with 4 in *; lia.

Lemma whole_app a b : whole a -> whole b -> whole (a ++ b).
Proof. unfold whole. intros Ha Hb. rewrite length_app, Nat2Z.inj_add, Z.add_mod, Ha, Hb by lia. done. Qed.

Lemma be32_whole v : whole (be32 v).
Proof. done. Qed.

Lemma len_pad l : len (pad l) = len l + - len l mod 4.
Proof. unfold pad. rewrite length_app, length_replicate. pose proof (Z.mod_pos_bound (- len l) 4). lia. Qed.

Lemma pad_whole l : whole (pad l).
Proof. unfold whole. rewrite len_pad. pose proof (Z.div_mod (- len l) 4). Z.div_mod_to_equations. lia. Qed.

Lemma entry_whole s : whole (entry s).
Proof. apply pad_whole. Qed.

Lemma nil_whole : whole [].
Proof. done. Qed.

Create HintDb fdt.
#[local] Hint Resolve whole_app be32_whole pad_whole entry_whole nil_whole : fdt.

Lemma land_not3 x : inw 64 x -> Z.land x (not64 3) = x - x mod 4.
Proof.
  intros Hx. replace (Z.land x (not64 3)) with (Z.shiftl (Z.shiftr x 2) 2).
  - rewrite Z.shiftl_mul_pow2, Z.shiftr_div_pow2 by lia. change (2 ^ 2) with 4. pose proof (Z.div_mod x 4). lia.
  - unfold not64. change 3 with (Z.ones 2). zbits i.
    destruct (Z.ltb_spec i 64); [zcases; f_equal; try lia; by rewrite andb_true_r, Z.sub_add|].
    rewrite Z.sub_add, (inw_high 64 x i) by (done || lia). by rewrite andb_false_r.
Qed.

Lemma align_up_pad v : 0 <= v < 2 ^ 63 -> align_up v 4 = v + - v mod 4.
Proof.
  intros Hv. unfold align_up. change (u64 (4 - 1)) with 3. rewrite (uN_id 64 (v + 4)), uN_id by (unfold inw; lia).
  rewrite land_not3 by (unfold inw; lia). Z.div_mod_to_equations. lia.
Qed.

Lemma align_up_len off l : off mod 4 = 0 -> 0 <= off -> off + len l < 2 ^ 63 -> align_up (off + len l) 4 = off + len (pad l).
Proof. intros. rewrite align_up_pad, len_pad by lia. Z.div_mod_to_equations. lia. Qed.

Lemma enc_prop_whole p off : whole (enc_prop p off).
Proof. unfold enc_prop. auto with fdt. Qed.

Lemma enc_props_whole ps : forall off, whole (enc_props ps off).
Proof. induction ps as [|p ps IH]; intros off; cbn [enc_props]; [done|]. apply whole_app; [apply enc_prop_whole|apply IH]. Qed.

Lemma prop_names_cons p ps : prop_names (p :: ps) = entry (fp_name p) ++ prop_names ps.
Proof. done. Qed.

Lemma prop_names_whole ps : whole (prop_names ps).
Proof. unfold prop_names. induction ps as [|p ps IH]; csimpl; auto with fdt. Qed.

#[local] Hint Resolve enc_prop_whole enc_props_whole prop_names_whole : fdt.

Lemma names_whole t : whole (names t).
Proof.
  induction t as [nm ps cs IH] using tree_ind'. cbn [names]. apply whole_app; [auto with fdt|].
  induction IH as [|c cs Hc _ IH]; csimpl; auto with fdt.
Qed.

Lemma enc_whole t : forall off, whole (enc t off).
Proof.
  induction t as [nm ps cs IH] using tree_ind'. intros off. rewrite enc_eq.
  assert (forall o, whole (enc_list cs o)); [|auto 10 with fdt].
  induction IH as [|c cs Hc _ IH]; intros o; cbn [enc_list]; auto with fdt.
Qed.

#[local] Hint Resolve names_whole enc_whole : fdt.

Lemma nz_Forall s : nz s = true -> Forall (fun b => b <> 0) s.
Proof.
  unfold nz. intros H. apply Forall_forall. intros b Hb. rewrite forallb_forall in H.
  apply list_elem_of_In in Hb. specialize (H b Hb). bool_hyps. done.
Qed.

(** Overwriting zeros with as many bytes. *)
Lemma write_zeros pre w n post : (length w <= n)%nat ->
  write_at (pre ++ zeros n ++ post) (len pre) w = Ret (pre ++ w ++ zeros (n - length w) ++ post).
Proof.
  intros Hn. unfold write_at. rewrite !length_app, length_replicate, (proj2 (Z.leb_le 0 _)), (proj2 (Z.leb_le _ _)) by lia.
  cbn [andb]. rewrite Nat2Z.id, take_app_length, drop_app_ge by lia. do 3 f_equal.
  replace (length pre + length w - length pre)%nat with (length w) by lia.
  rewrite drop_app_le by (rewrite length_replicate; lia). by rewrite drop_replicate.
Qed.

Lemma zeros_pad w n post : (length (pad w) <= n)%nat -> w ++ zeros (n - length w) ++ post = pad w ++ zeros (n - length (pad w)) ++ post.
Proof.
  intros Hn. unfold pad in *. rewrite length_app, length_replicate in Hn. rewrite <- !app_assoc. f_equal. rewrite app_assoc. f_equal.
  rewrite <- replicate_add. f_equal. rewrite length_app, length_replicate. lia.
Qed.

Lemma pad_of_whole l : whole l -> pad l = l.
Proof. unfold whole, pad. intros H. replace (- len l mod 4) with 0 by (Z.div_mod_to_equations; lia). by rewrite app_nil_r. Qed.

Lemma c_str_id s : Forall (fun b => b <> 0) s -> c_str s = s.
Proof. induction 1 as [|b s Hb _ IH]; cbn [c_str]; [done|]. rewrite (proj2 (Z.eqb_neq b 0)) by done. by rewrite IH. Qed.

Lemma align_next off l (n : Z) : whole l -> off mod 4 = 0 -> 0 <= off -> forall w, n = len w -> off + len l + len (pad w) < 2 ^ 32 ->
  align_up (off + len l + n) 4 = off + len (l ++ pad w).
Proof.
  intros Hl Hoff H0 w -> Hb. pose proof (len_pad w). pose proof (Z.mod_pos_bound (- len w) 4).
  unfold whole in Hl. assert ((off + len l) mod 4 = 0) by (rewrite Z.add_mod, Hl, Hoff by lia; done).
  rewrite align_up_len by (done || lia). rewrite length_app. lia.
Qed.

(** ** The buffer

    Between two writes the buffer is the header, the part of the structure
    block that is written, zeros, the part of the strings block that is
    written, and zeros. *)

Section buffer.
Context (hd tail : list Z) (ns nt : nat).
Hypothesis hd_len : length hd = 56%nat.
Hypothesis ns_whole : Z.of_nat ns mod 4 = 0.
Hypothesis fits : 56 + Z.of_nat ns + Z.of_nat nt < 2 ^ 32.

Definition image (s t : list Z) : list Z := hd ++ s ++ zeros (ns - length s) ++ t ++ zeros (nt - length t) ++ tail.

Definition ctx_of (s t : list Z) : serializer_ctx :=
  mkCtx (image s t) (56 + len s) (56 + Z.of_nat ns) (56 + Z.of_nat ns + len t) FDT_HDR_SIZE.

Lemma ser_struct_ok s t w nxt : (length s + length (pad w) <= ns)%nat -> nxt = 56 + len (s ++ pad w) ->
  ser_struct w nxt (ctx_of s t) = Ret (ctx_of (s ++ pad w) t).
Proof.
  intros Hl ->. unfold ser_struct, ctx_of. cbn [buf struct_off strings_begin strings_off reserve_off].
  pose proof (len_pad w). pose proof (Z.mod_pos_bound (- len w) 4).
  replace (image s t) with ((hd ++ s) ++ zeros (ns - length s) ++ (t ++ zeros (nt - length t) ++ tail)) by (unfold image; by rewrite <- app_assoc).
  replace (56 + len s) with (len (hd ++ s)) by (rewrite length_app, hd_len; lia).
  rewrite write_zeros by lia. cbv [mbind outcome_bind]. do 2 f_equal. unfold image.
  rewrite zeros_pad by lia. rewrite <- !app_assoc. do 4 f_equal. f_equal. rewrite length_app. lia.
Qed.

Lemma ser_u32_ok s t v : inw 32 v -> (length (s ++ be32 v) <= ns)%nat -> ser_u32 v (ctx_of s t) = Ret (ctx_of (s ++ be32 v) t).
Proof.
  intros Hv Hl. rewrite length_app in Hl. change (length (be32 v)) with 4%nat in Hl. unfold ser_u32. rewrite write_be32_spec by done.
  rewrite <- (pad_of_whole (be32 v)) at 2 by auto with fdt. apply ser_struct_ok; rewrite pad_of_whole, ?length_app by auto with fdt;
    change (length (be32 v)) with 4%nat; [lia|]. cbn [struct_off ctx_of]. rewrite uN_id by (unfold inw; lia). lia.
Qed.

Lemma ser_string_ok s t nm : whole s -> Forall (fun b => b <> 0) nm -> (length (s ++ entry nm) <= ns)%nat ->
  ser_string nm (ctx_of s t) = Ret (ctx_of (s ++ entry nm) t).
Proof.
  intros Hs Hn Hl. rewrite length_app in Hl. unfold ser_string. rewrite c_str_id by done. apply ser_struct_ok; [done|].
  cbn [struct_off ctx_of]. rewrite <- Z.add_assoc, (align_next 56 s (len nm + 1) Hs eq_refl ltac:(lia) (nm ++ [0]));
    [| |unfold entry in *; lia]; [|rewrite length_app; cbn; lia].
  apply uN_id. rewrite length_app. unfold inw, entry in *. lia.
Qed.

Lemma ser_data_ok s t d : whole s -> (length (s ++ pad d) <= ns)%nat -> ser_data d (ctx_of s t) = Ret (ctx_of (s ++ pad d) t).
Proof.
  intros Hs Hl. rewrite length_app in Hl. pose proof (len_pad d). pose proof (Z.mod_pos_bound (- len d) 4).
  unfold ser_data. rewrite (uN_id 32 (len d)), Nat2Z.id, firstn_all by (unfold inw; lia). apply ser_struct_ok; [done|].
  cbn [struct_off ctx_of]. rewrite (uN_id 32 (_ + len d)) by (unfold inw; lia).
  rewrite (align_next 56 s (len d) Hs eq_refl ltac:(lia) d) by (done || lia). apply uN_id. rewrite length_app. unfold inw. lia.
Qed.

Lemma ser_name_ok s t nm : (length s <= ns)%nat -> whole t -> Forall (fun b => b <> 0) nm -> (length (t ++ entry nm) <= nt)%nat ->
  ser_name nm (ctx_of s t) = Ret (ctx_of s (t ++ entry nm)).
Proof.
  intros Hs Ht Hn Hl. rewrite length_app in Hl. pose proof (len_pad (nm ++ [0])) as Hp. fold (entry nm) in Hp.
  pose proof (Z.mod_pos_bound (- len (nm ++ [0])) 4). unfold ser_name. rewrite c_str_id by done.
  cbn [buf struct_off strings_begin strings_off reserve_off ctx_of].
  replace (image s t) with ((hd ++ s ++ zeros (ns - length s) ++ t) ++ zeros (nt - length t) ++ tail) by (unfold image; by rewrite <- !app_assoc).
  replace (56 + Z.of_nat ns + len t) with (len (hd ++ s ++ zeros (ns - length s) ++ t)) at 1
    by (rewrite !length_app, length_replicate, hd_len; lia).
  rewrite write_zeros by lia. cbv [mbind outcome_bind]. unfold ctx_of. do 2 f_equal.
  - rewrite (zeros_pad (nm ++ [0])) by (fold (entry nm); lia). fold (entry nm). unfold image.
    by rewrite <- !app_assoc, (length_app t), Nat.sub_add_distr.
  - rewrite <- Z.add_assoc, (align_next (56 + Z.of_nat ns) t (len nm + 1) Ht) with (w := nm ++ [0]);
      [| |lia| |fold (entry nm); lia]; [|rewrite Z.add_mod, ns_whole by lia; done|rewrite length_app; cbn; lia].
    apply uN_id. fold (entry nm). rewrite length_app. unfold inw. lia.
Qed.

Lemma ser_prop_ok s t p : whole s -> whole t -> nz (fp_name p) = true ->
  (length (s ++ enc_prop p (len t)) <= ns)%nat -> (length (t ++ entry (fp_name p)) <= nt)%nat ->
  ser_prop p (ctx_of s t) = Ret (ctx_of (s ++ enc_prop p (len t)) (t ++ entry (fp_name p))).
Proof.
  intros Hs Ht Hn Hls Hlt. unfold enc_prop in *. pose proof (len_pad (fp_data p)). pose proof (Z.mod_pos_bound (- len (fp_data p)) 4).
  assert (len (fp_data p) < 2 ^ 32 /\ len t < 2 ^ 32) as [? ?] by lens.
  unfold ser_prop. rewrite ser_u32_ok by (done || lens). cbv [mbind outcome_bind].
  rewrite uN_id by (unfold inw; lia). rewrite ser_u32_ok by (unfold inw; lens).
  cbn [strings_off strings_begin ctx_of]. replace (56 + Z.of_nat ns + len t - (56 + Z.of_nat ns)) with (len t) by lia.
  rewrite uN_id by (unfold inw; lia). rewrite ser_u32_ok by (unfold inw; lens).
  rewrite ser_data_ok by (auto with fdt; lens). rewrite ser_name_ok by (auto using nz_Forall; lens). by rewrite <- !app_assoc.
Qed.

Lemma ser_props_ok ps : forall s t, whole s -> whole t -> forallb (fun p => nz (fp_name p)) ps = true ->
  (length (s ++ enc_props ps (len t)) <= ns)%nat -> (length (t ++ prop_names ps) <= nt)%nat ->
  ser_props ps (ctx_of s t) = Ret (ctx_of (s ++ enc_props ps (len t)) (t ++ prop_names ps)).
Proof.
  unfold ser_props. induction ps as [|p ps IH]; intros s t Hs Ht Hn Hls Hlt; [by rewrite !app_nil_r|].
  rewrite prop_names_cons in *. cbn [foldl enc_props forallb] in *. bool_hyps. cbv [mbind outcome_bind] in *. rewrite ser_prop_ok by (done || lens).
  rewrite <- len_app in *. rewrite app_assoc in Hls, Hlt. rewrite IH by auto with fdt. by rewrite <- !app_assoc.
Qed.

Section heap.
Context (h : Heap).

(** The loop over the children, given what each call does. *)
Lemma ser_each_ok k cs : (forall p tr s t, tree_of k h p = Some tr -> tree_ok tr = true -> whole s -> whole t ->
    (length (s ++ enc tr (len t)) <= ns)%nat -> (length (t ++ names tr) <= nt)%nat ->
    ser_tree k h p (ctx_of s t) = Ret (ctx_of (s ++ enc tr (len t)) (t ++ names tr))) ->
  forall trs s t, mapM (tree_of k h) cs = Some trs -> forallb tree_ok trs = true -> whole s -> whole t ->
    (length (s ++ enc_list trs (len t)) <= ns)%nat -> (length (t ++ mjoin (names <$> trs)) <= nt)%nat ->
    each (ser_tree k h) cs (ctx_of s t) = Ret (ctx_of (s ++ enc_list trs (len t)) (t ++ mjoin (names <$> trs))).
Proof.
  intros Hk. unfold each. induction cs as [|c cs IH]; intros trs s t Hm Hok Hs Ht Hls Hlt.
  { apply mapM_Some_1, Forall2_nil_inv_l in Hm as ->. by rewrite !app_nil_r. }
  apply mapM_Some in Hm. inversion Hm as [|? tr ? trs' Hc Hcs]; subst. apply mapM_Some in Hcs.
  change (mjoin (names <$> tr :: trs')) with (names tr ++ mjoin (names <$> trs')) in *.
  cbn [foldl enc_list forallb] in *. bool_hyps. cbv [mbind outcome_bind] in *.
  rewrite <- len_app in *. rewrite app_assoc in Hls, Hlt. rewrite (Hk c tr) by (done || lens).
  rewrite (IH trs') by auto with fdt. by rewrite <- !app_assoc.
Qed.

Lemma ser_tree_ok k : forall p tr s t, tree_of k h p = Some tr -> tree_ok tr = true -> whole s -> whole t ->
  (length (s ++ enc tr (len t)) <= ns)%nat -> (length (t ++ names tr) <= nt)%nat ->
  ser_tree k h p (ctx_of s t) = Ret (ctx_of (s ++ enc tr (len t)) (t ++ names tr)).
Proof.
  induction k as [|k IH]; intros p tr s t Hp Hok Hs Ht Hls Hlt; [done|]. cbn [tree_of ser_tree] in *.
  destruct (nodes h !! p) as [n|]; [|done]. cbn in Hp.
  destruct (mapM (tree_of k h) (n_children n)) as [cs|] eqn:Ecs; [|done]. injection Hp as <-.
  rewrite enc_eq in *. cbn [names tree_ok] in *. bool_hyps. rewrite <- len_app in *.
  rewrite ser_u32_ok by (done || lens). cbv [mbind outcome_bind].
  rewrite ser_string_ok by (auto using nz_Forall with fdt; lens).
  rewrite ser_props_ok by (auto with fdt; lens).
  rewrite (ser_each_ok k (n_children n) IH cs) by (auto 10 with fdt; lens).
  rewrite ser_u32_ok by (done || lens). by rewrite <- !app_assoc.
Qed.
End heap.
End buffer.

(** ** The sizes *)

Lemma enc_props_len ps : forall off off', length (enc_props ps off) = length (enc_props ps off').
Proof. induction ps as [|p ps IH]; intros off off'; cbn [enc_props]; [done|]. unfold enc_prop. by rewrite !length_app, (IH _ (off' + len (entry (fp_name p)))). Qed.

Lemma enc_len t : forall off off', length (enc t off) = length (enc t off').
Proof.
  induction t as [nm ps cs IH] using tree_ind'. intros off off'. rewrite !enc_eq, !length_app, (enc_props_len ps off off'). do 4 f_equal.
  generalize (off + len (prop_names ps)), (off' + len (prop_names ps)).
  induction IH as [|c cs Hc _ IH]; intros o o'; cbn [enc_list]; [done|]. by rewrite !length_app, (Hc o o'), (IH _ (o' + len (names c))).
Qed.

Lemma align_pad l : len (pad l) < 2 ^ 32 -> align_up (len l) 4 = len (pad l).
Proof.
  intros H. pose proof (len_pad l). pose proof (Z.mod_pos_bound (- len l) 4). apply (align_up_len 0 l); [done|lia..].
Qed.

Lemma align_entry s : len (entry s) < 2 ^ 32 -> align_up (len s + 1) 4 = len (entry s).
Proof. intros H. unfold entry in *. rewrite <- align_pad by done. by rewrite len_app. Qed.

Lemma add_struct_ok a b x : 0 <= a -> 0 <= x -> a + x < 2 ^ 32 -> add_struct x (mkDesc a b) = mkDesc (a + x) b.
Proof. intros. unfold add_struct. cbn. by rewrite uN_id by (unfold inw; lia). Qed.

Lemma add_string_ok a b x : 0 <= b -> 0 <= x -> b + x < 2 ^ 32 -> add_string x (mkDesc a b) = mkDesc a (b + x).
Proof. intros. unfold add_string. cbn. by rewrite uN_id by (unfold inw; lia). Qed.

Lemma size_prop_ok a b p off : 0 <= a -> 0 <= b -> a + len (enc_prop p off) < 2 ^ 32 -> b + len (entry (fp_name p)) < 2 ^ 32 ->
  size_prop (mkDesc a b) p = mkDesc (a + len (enc_prop p off)) (b + len (entry (fp_name p))).
Proof.
  intros Ha Hb Hla Hlb. unfold size_prop, enc_prop in *. rewrite align_pad, align_entry, !(uN_id 32 (Z.of_nat _)) by (unfold inw; sizes).
  rewrite add_struct_ok, add_struct_ok, add_string_ok by sizes. f_equal. sizes.
Qed.

Lemma size_props_ok ps : forall a b off, 0 <= a -> 0 <= b -> a + len (enc_props ps off) < 2 ^ 32 -> b + len (prop_names ps) < 2 ^ 32 ->
  foldl size_prop (mkDesc a b) ps = mkDesc (a + len (enc_props ps off)) (b + len (prop_names ps)).
Proof.
  induction ps as [|p ps IH]; intros a b off Ha Hb Hla Hlb; [cbn; by rewrite !Z.add_0_r|].
  rewrite prop_names_cons in *. cbn [foldl enc_props] in *. rewrite (size_prop_ok a b p off) by sizes.
  rewrite (IH _ _ (off + len (entry (fp_name p)))) by sizes. f_equal; sizes.
Qed.

Lemma size_each_ok h k cs : (forall p tr a b, tree_of k h p = Some tr -> 0 <= a -> 0 <= b ->
    a + len (enc tr 0) < 2 ^ 32 -> b + len (names tr) < 2 ^ 32 ->
    get_tree_size k h p (mkDesc a b) = Ret (mkDesc (a + len (enc tr 0)) (b + len (names tr)))) ->
  forall trs a b off, mapM (tree_of k h) cs = Some trs -> 0 <= a -> 0 <= b ->
    a + len (enc_list trs off) < 2 ^ 32 -> b + len (mjoin (names <$> trs)) < 2 ^ 32 ->
    each (get_tree_size k h) cs (mkDesc a b) = Ret (mkDesc (a + len (enc_list trs off)) (b + len (mjoin (names <$> trs)))).
Proof.
  intros Hk. unfold each. induction cs as [|c cs IH]; intros trs a b off Hm Ha Hb Hla Hlb.
  { apply mapM_Some_1, Forall2_nil_inv_l in Hm as ->. cbn. by rewrite !Z.add_0_r. }
  apply mapM_Some in Hm. inversion Hm as [|? tr ? trs' Hc Hcs]; subst. apply mapM_Some in Hcs.
  change (mjoin (names <$> tr :: trs')) with (names tr ++ mjoin (names <$> trs')) in *.
  cbn [foldl enc_list] in *. cbv [mbind outcome_bind] in *. pose proof (enc_len tr off 0) as E.
  rewrite (Hk c tr) by (rewrite <- ?E; done || sizes). rewrite <- E.
  rewrite (IH trs' _ _ (off + len (names tr))) by (done || sizes). do 2 f_equal; sizes.
Qed.

Lemma get_tree_size_ok h k : forall p tr a b, tree_of k h p = Some tr -> 0 <= a -> 0 <= b ->
  a + len (enc tr 0) < 2 ^ 32 -> b + len (names tr) < 2 ^ 32 ->
  get_tree_size k h p (mkDesc a b) = Ret (mkDesc (a + len (enc tr 0)) (b + len (names tr))).
Proof.
  induction k as [|k IH]; intros p tr a b Hp Ha Hb Hla Hlb; [done|]. cbn [tree_of get_tree_size] in *.
  destruct (nodes h !! p) as [n|]; [|done]. cbn in Hp.
  destruct (mapM (tree_of k h) (n_children n)) as [cs|] eqn:Ecs; [|done]. injection Hp as <-.
  rewrite enc_eq in *. cbn [names] in *.
  replace (if bool_decide (n_name n = []) then 1 else len (n_name n) + 1) with (len (n_name n) + 1)
    by (case_bool_decide as E; [by rewrite E|done]).
  rewrite align_entry, (uN_id 32 (Z.of_nat _)), add_struct_ok, (size_props_ok _ _ _ 0) by (unfold inw; sizes).
  rewrite (size_each_ok h k (n_children n) IH cs _ _ (0 + len (prop_names (n_props n)))) by (done || sizes).
  cbv [mbind outcome_bind]. rewrite add_struct_ok by sizes. do 2 f_equal; sizes.
Qed.

(** ** Reading it back *)

Lemma read_cstr_ok s l : nz s = true -> read_cstr (s ++ 0 :: l) = Some s.
Proof. induction s as [|b s IH]; cbn; [done|]. intros H. bool_hyps. rewrite (proj2 (Z.eqb_neq b 0)), IH by done. done. Qed.

Lemma entry_split s l : entry s ++ l = s ++ 0 :: (zeros (Z.to_nat (- len (s ++ [0]) mod 4)) ++ l).
Proof. unfold entry, pad. by rewrite <- !app_assoc. Qed.

Lemma read_name_ok s l : nz s = true -> read_name (entry s ++ l) = Some (s, l).
Proof. intros Hs. unfold read_name. rewrite entry_split at 1. rewrite read_cstr_ok by done. cbn. by rewrite drop_app_length. Qed.

Lemma read_data_ok d l : read_data (len d) (pad d ++ l) = Some (d, l).
Proof.
  unfold read_data. rewrite Nat2Z.id. replace (take (length d) (pad d ++ l)) with d
    by (unfold pad; by rewrite <- app_assoc, take_app_length). by rewrite Z.eqb_refl, drop_app_length.
Qed.

(** The next token of [l] is not [v]. *)
Definition next_not (v : Z) (l : list Z) : Prop := exists tok l', read_u32 l = Some (tok, l') /\ tok <> v.

Lemma be32_next_not v w l : inw 32 w -> w <> v -> next_not v (be32 w ++ l).
Proof. intros Hw Hne. exists w, l. split; [by apply read_be32|done]. Qed.

Lemma end_next_not l : next_not FDT_BEGIN_NODE (be32 FDT_END_NODE ++ l).
Proof. by apply be32_next_not. Qed.

Lemma forest_next_not cs o l : next_not FDT_PROP (enc_list cs o ++ be32 FDT_END_NODE ++ l).
Proof. destruct cs as [|[nm ps cs'] cs]; cbn [enc_list]; rewrite ?enc_eq, <- ?app_assoc; by apply be32_next_not. Qed.

Lemma enc_props_count ps off : (length ps <= length (enc_props ps off))%nat.
Proof. revert off. induction ps as [|p ps IH]; intros off; cbn [enc_props length]; [lia|]. specialize (IH (off + len (entry (fp_name p)))). rewrite length_app. unfold enc_prop. rewrite length_app. change (length (be32 _)) with 4%nat. lia. Qed.

Lemma read_props_ok ps : forall fuel pre post off rest, off = len pre -> off + len (prop_names ps) < 2 ^ 32 ->
  forallb (fun p => nz (fp_name p)) ps = true -> len (enc_props ps off) < 2 ^ 32 -> (length ps < fuel)%nat -> next_not FDT_PROP rest ->
  read_props fuel (pre ++ prop_names ps ++ post) (enc_props ps off ++ rest) = Some (ps, rest).
Proof.
  induction ps as [|[nm d] ps IH]; intros fuel pre post off rest -> Hb Hok Hl Hf Hrest; (destruct fuel as [|fuel]; [cbn in Hf; lia|]).
  - destruct Hrest as (tok & l' & E & Hne). cbn. rewrite E. cbn. by rewrite (proj2 (Z.eqb_neq tok _)).
  - rewrite prop_names_cons in *. cbn [forallb fp_name enc_props] in *. unfold enc_prop in *. cbn [fp_data fp_name length] in *. bool_hyps.
    pose proof (len_pad d). pose proof (Z.mod_pos_bound (- len d) 4).
    cbn [read_props]. rewrite <- !app_assoc, read_be32 by done. cbn [mbind option_bind]. change (FDT_PROP =? FDT_PROP) with true. cbv iota.
    rewrite read_be32 by (unfold inw; sizes). cbn [mbind option_bind]. rewrite read_be32 by (unfold inw; sizes). cbn [mbind option_bind].
    rewrite read_data_ok. cbn [mbind option_bind].
    rewrite Nat2Z.id, drop_app_length, entry_split, read_cstr_ok by done. cbn [mbind option_bind].
    rewrite <- entry_split, (app_assoc pre), (IH fuel) by (auto; sizes). done.
Qed.

Lemma read_nodes_ok fuel : forall ts pre post off rest, off = len pre -> off + len (mjoin (names <$> ts)) < 2 ^ 32 ->
  forallb tree_ok ts = true -> len (enc_list ts off) < 2 ^ 32 -> (length (enc_list ts off) < fuel)%nat -> next_not FDT_BEGIN_NODE rest ->
  read_nodes fuel (pre ++ mjoin (names <$> ts) ++ post) (enc_list ts off ++ rest) = Some (ts, rest).
Proof.
  induction fuel as [|fuel IH]; intros ts pre post off rest -> Hb Hok Hl Hf Hrest; [lia|].
  destruct ts as [|[nm ps cs] ts].
  { destruct Hrest as (tok & l' & E & Hne). cbn. rewrite E. cbn. by rewrite (proj2 (Z.eqb_neq tok _)). }
  change (mjoin (names <$> mkTree nm ps cs :: ts)) with ((prop_names ps ++ mjoin (names <$> cs)) ++ mjoin (names <$> ts)) in *.
  cbn [enc_list forallb tree_ok names] in *. rewrite enc_eq in *. bool_hyps.
  pose proof (enc_props_count ps (len pre)). cbn [read_nodes].
  rewrite <- !app_assoc, read_be32 by done. cbn [mbind option_bind]. change (FDT_BEGIN_NODE =? FDT_BEGIN_NODE) with true. cbv iota.
  rewrite read_name_ok by done. cbn [mbind option_bind].
  rewrite read_props_ok by (auto using forest_next_not; sizes). cbn [mbind option_bind].
  rewrite (app_assoc pre), IH by (auto using end_next_not; sizes). cbn [mbind option_bind].
  rewrite read_be32 by done. cbn [mbind option_bind]. change (FDT_END_NODE =? FDT_END_NODE) with true. cbv iota.
  rewrite !app_assoc, <- (app_assoc _ _ post), IH by (auto; sizes). done.
Qed.

(** ** The blob *)

Lemma write_header_ok ws : forall pre n post, Forall (inw 32) ws -> (4 * length ws <= n)%nat ->
  write_header (len pre) ws (pre ++ zeros n ++ post) = Ret (pre ++ mjoin (be32 <$> ws) ++ zeros (n - 4 * length ws) ++ post).
Proof.
  induction ws as [|w ws IH]; intros pre n post Hw Hn; cbn [write_header length].
  { cbn. by rewrite Nat.sub_0_r. }
  apply Forall_cons in Hw as [Hw Hws]. cbn [length] in Hn. rewrite write_be32_spec, write_zeros by (done || change (length (be32 w)) with 4%nat; lia).
  cbv [mbind outcome_bind]. change (length (be32 w)) with 4%nat. rewrite (app_assoc pre). replace (len pre + 4) with (len (pre ++ be32 w)) by sizes.
  rewrite IH by (done || lia). change (mjoin (be32 <$> w :: ws)) with (be32 w ++ mjoin (be32 <$> ws)).
  rewrite <- !app_assoc. do 6 f_equal. lia.
Qed.

Lemma word_at_header ws : forall i w l, Forall (inw 32) ws -> ws !! i = Some w ->
  word_at (mjoin (be32 <$> ws) ++ l) (4 * Z.of_nat i) = Some w.
Proof.
  induction ws as [|v ws IH]; intros i w l Hw Hi; [done|]. apply Forall_cons in Hw as [Hv Hws].
  change (mjoin (be32 <$> v :: ws)) with (be32 v ++ mjoin (be32 <$> ws)). rewrite <- app_assoc. unfold word_at in *.
  destruct i as [|i]; cbn in Hi; [injection Hi as ->; change (Z.to_nat (4 * Z.of_nat 0)) with 0%nat; rewrite drop_0, read_be32 by done; done|].
  replace (Z.to_nat (4 * Z.of_nat (S i))) with (length (be32 v) + Z.to_nat (4 * Z.of_nat i))%nat by (cbn [length be32]; lia).
  rewrite <- drop_drop, drop_app_length. by apply IH.
Qed.

(** The number of bytes of the blob of a tree. *)
Definition blob_size (t : Tree) : Z := 60 + len (enc t 0) + len (names t).

Definition blob_header (t : Tree) (boot : Z) : list Z :=
  header_words (blob_size t) 56 (60 + len (enc t 0)) 40 boot (mkDesc (len (enc t 0) + 4) (len (names t))).

Definition blob (t : Tree) (boot : Z) : list Z :=
  (mjoin (be32 <$> blob_header t boot) ++ zeros 16) ++ (enc t 0 ++ be32 FDT_END) ++ names t.

Lemma blob_header_inw t boot : blob_size t < 2 ^ 32 -> inw 32 boot -> Forall (inw 32) (blob_header t boot).
Proof. unfold blob_size, blob_header, header_words. intros Ht Hb. repeat apply Forall_cons_2; try done; unfold inw, blob_size; cbn; try lia. Qed.

Lemma blob_len t boot : len (blob t boot) = blob_size t.
Proof. unfold blob, blob_size. rewrite !len_app. change (len (mjoin (be32 <$> blob_header t boot))) with 40. change (len (zeros 16)) with 16. change (len (be32 FDT_END)) with 4. lia. Qed.

Lemma read_blob_ok t boot post : tree_ok t = true -> blob_size t < 2 ^ 32 -> inw 32 boot -> read_blob (blob t boot ++ post) = Some t.
Proof.
  intros Hok Hb Hboot. pose proof (blob_header_inw t boot Hb Hboot) as Hw. pose proof (blob_len t boot) as Hlen.
  unfold read_blob. set (B := blob t boot ++ post).
  assert (forall i off w, off = 4 * Z.of_nat i -> blob_header t boot !! i = Some w -> word_at B off = Some w) as W.
  { intros i off w -> Hi. unfold B, blob. rewrite <- !app_assoc. by apply word_at_header. }
  rewrite (W 0%nat 0 _ eq_refl eq_refl), (W 1%nat 4 _ eq_refl eq_refl), (W 2%nat 8 _ eq_refl eq_refl), (W 3%nat 12 _ eq_refl eq_refl), (W 8%nat 32 _ eq_refl eq_refl), (W 9%nat 36 _ eq_refl eq_refl).
  cbn [mbind option_bind string_size struct_size]. rewrite Z.eqb_refl, (proj2 (Z.leb_le (blob_size t) (len B))) by (unfold B; rewrite len_app; lia).
  cbn [andb].
  assert (block B 56 (len (enc t 0) + 4) = enc_list [t] 0 ++ be32 FDT_END) as ->.
  { unfold block, B, blob. rewrite <- !app_assoc. rewrite (app_assoc (mjoin _)).
    rewrite drop_app_length' by done. cbn [enc_list]. rewrite app_nil_r, !app_assoc, <- !app_assoc, (app_assoc (enc t 0)).
    rewrite take_app_length'; [done|]. rewrite length_app. change (length (be32 FDT_END)) with 4%nat. lia. }
  assert (block B (60 + len (enc t 0)) (len (names t)) = [] ++ mjoin (names <$> [t]) ++ []) as ->.
  { unfold block, B, blob. rewrite <- (app_assoc _ _ post), <- (app_assoc _ (names t)), app_assoc.
    rewrite drop_app_length', take_app_length'; [by cbn; rewrite !app_nil_r|lia|].
    rewrite !length_app. change (length (mjoin (be32 <$> blob_header t boot))) with 40%nat. cbn [length replicate be32]. lia. }
  rewrite read_nodes_ok; [|done|cbn; rewrite app_nil_r; unfold blob_size in Hb; lia|cbn; by rewrite Hok|..].
  - cbn [mbind option_bind]. rewrite <- (app_nil_r (be32 _)), read_be32 by done. done.
  - cbn [enc_list]. rewrite app_nil_r. unfold blob_size in Hb. lia.
  - cbn [enc_list]. rewrite app_nil_r. unfold B, blob_size in *. apply Nat2Z.inj_lt. rewrite len_app. lia.
  - by rewrite <- (app_nil_r (be32 _)); apply be32_next_not.
Qed.

Lemma sizes_ok h p t : tree_of (heap_fuel h) h p = Some t -> blob_size t < 2 ^ 32 ->
  get_tree_size (heap_fuel h) h p (mkDesc 0 0) = Ret (mkDesc (len (enc t 0)) (len (names t))) /\
  add_struct 4 (mkDesc (len (enc t 0)) (len (names t))) = mkDesc (len (enc t 0) + 4) (len (names t)).
Proof.
  unfold blob_size. intros Ht Hb. split; [|apply add_struct_ok; lia]. by rewrite (get_tree_size_ok h _ p t) by (done || lia).
Qed.

Lemma size_of_tree_ok h p t : tree_of (heap_fuel h) h p = Some t -> blob_size t < 2 ^ 32 -> size_of_tree h (Some p) = Ret (blob_size t).
Proof.
  intros Ht Hb. destruct (sizes_ok h p t Ht Hb) as [E1 E2]. unfold size_of_tree. rewrite E1. cbv [mbind outcome_bind]. rewrite E2.
  unfold blob_size in *. cbn [struct_size string_size]. rewrite uN_id by (unfold inw, FDT_HDR_SIZE, FDT_RSV_SIZE; lia). unfold FDT_HDR_SIZE, FDT_RSV_SIZE. f_equal. lia.
Qed.

(** The buffer once it is zeroed and has its header: an image with empty blocks. *)
Definition blob_ctx (t : Tree) (boot : Z) (post : list Z) : list Z -> list Z -> serializer_ctx :=
  ctx_of (mjoin (be32 <$> blob_header t boot) ++ zeros 16) post (length (enc t 0) + 4) (length (names t)).

Lemma clear_ok b n : 0 <= n <= len b -> write_at b 0 (zeros (Z.to_nat n)) = Ret (zeros (Z.to_nat n) ++ drop (Z.to_nat n) b).
Proof. intros Hn. unfold write_at. rewrite length_replicate, (proj2 (Z.leb_le (0 + _) _)) by lia. done. Qed.

Lemma header_ok t boot post : blob_size t < 2 ^ 32 -> inw 32 boot ->
  write_header 0 (blob_header t boot) (zeros (Z.to_nat (blob_size t)) ++ post) = Ret (buf (blob_ctx t boot post [] [])).
Proof.
  intros Hb Hboot. pose proof (write_header_ok (blob_header t boot) [] (Z.to_nat (blob_size t)) post) as E. cbn [app] in E. change (len []) with 0 in E.
  rewrite (E (blob_header_inw t boot Hb Hboot)) by (cbn; unfold blob_size; lia).
  unfold blob_ctx, ctx_of, image. cbn [buf length app]. rewrite <- !app_assoc, !Nat.sub_0_r. do 2 f_equal.
  change (length (blob_header t boot)) with 10%nat.
  replace (Z.to_nat (blob_size t) - 4 * 10)%nat with (16 + (length (enc t 0) + 4) + length (names t))%nat by (unfold blob_size; lia).
  by rewrite !replicate_add, <- !app_assoc.
Qed.

Lemma fill_ok h p t boot post : tree_of (heap_fuel h) h p = Some t -> tree_ok t = true -> blob_size t < 2 ^ 32 ->
  (c ← ser_tree (heap_fuel h) h p (blob_ctx t boot post [] []); ser_u32 FDT_END c) =
  Ret (blob_ctx t boot post (enc t 0 ++ be32 FDT_END) (names t)).
Proof.
  intros Ht Hok Hb. pose proof (enc_whole t 0) as He. unfold blob_size, whole in *. unfold blob_ctx.
  assert (Z.of_nat (length (enc t 0) + 4) mod 4 = 0) by (rewrite Nat2Z.inj_add, Z.add_mod, He by lia; done).
  pose proof (ser_tree_ok (mjoin (be32 <$> blob_header t boot) ++ zeros 16) post (length (enc t 0) + 4) (length (names t)) eq_refl H
    ltac:(lia) h (heap_fuel h) p t [] [] Ht Hok eq_refl eq_refl) as E. change (len []) with 0 in E. cbn [app] in E.
  rewrite E by lia. cbv [mbind outcome_bind]. rewrite ser_u32_ok by (done || lens). done.
Qed.

Lemma serialize_ok h p t b size boot : tree_of (heap_fuel h) h p = Some t -> tree_ok t = true -> blob_size t < 2 ^ 32 -> inw 32 boot ->
  size <= len b ->
  serialize h (Some p) (Some b) size boot =
    if size <? blob_size t then Ret (0, Some b) else Ret (blob_size t, Some (blob t boot ++ drop (Z.to_nat (blob_size t)) b)).
Proof.
  intros Ht Hok Hb Hboot Hsz. destruct (sizes_ok h p t Ht Hb) as [E1 E2].
  unfold serialize. rewrite E1. cbv [mbind outcome_bind]. rewrite E2. cbn [struct_size string_size]. unfold FDT_HDR_SIZE, FDT_RSV_SIZE.
  change (u32 (40 + 16)) with 56.
  replace (u32 (40 + 16 + (len (enc t 0) + 4))) with (60 + len (enc t 0)) by (unfold blob_size in Hb; rewrite uN_id by (unfold inw; lia); lia).
  change (60 + len (enc t 0) + len (names t)) with (blob_size t). assert (0 <= blob_size t) by (unfold blob_size; lia).
  rewrite (uN_id 32 (blob_size t)) by done. destruct (Z.ltb_spec size (blob_size t)); [done|].
  rewrite clear_ok by lia. change (header_words _ _ _ _ _ _) with (blob_header t boot). rewrite header_ok by done.
  set (post := drop _ b). replace (mkCtx _ 56 _ _ 40) with (blob_ctx t boot post [] []) by (unfold blob_ctx, ctx_of; cbn [length buf]; f_equal; try done; lia).
  pose proof (fill_ok h p t boot post Ht Hok Hb) as E. cbv [mbind outcome_bind] in E.
  destruct (ser_tree _ _ _ _) as [c| |]; [|done..]. rewrite E. unfold blob_ctx, ctx_of, image, blob. cbn [buf].
  rewrite !length_app, !Nat.sub_diag. cbn [replicate app]. by rewrite <- !app_assoc.
Qed.

(** C32: the flattened device tree. Serializing a tree of the heap never
    writes outside the buffer; it returns 0 and leaves the buffer when the
    buffer is too small; otherwise it returns the size that [fdt_size]
    announces, fills exactly that many bytes, and a reader of the format
    gets back the tree, every name, property and child in order. *)
Theorem fdt_roundtrip h w v t b size boot :
  wraps h !! w = Some v -> tree_of (heap_fuel h) h (w_node v) = Some t -> tree_ok t = true -> blob_size t < 2 ^ 32 ->
  inw 32 boot -> size <= len b ->
  fdt_size h (Some w) = Ret (blob_size t) /\
  (size < blob_size t -> fdt_serialize h (Some w) (Some b) size boot = Ret (0, Some b)) /\
  (blob_size t <= size -> exists b', fdt_serialize h (Some w) (Some b) size boot = Ret (blob_size t, Some b') /\
    len b' = len b /\ drop (Z.to_nat (blob_size t)) b' = drop (Z.to_nat (blob_size t)) b /\ read_blob b' = Some t).
Proof.
  intros Hw Ht Hok Hb Hboot Hsz. unfold fdt_size, fdt_serialize. rewrite Hw.
  rewrite (size_of_tree_ok h _ t Ht Hb), (serialize_ok h _ t b size boot Ht Hok Hb Hboot Hsz). split; [done|]. split; intros Hlt.
  - by rewrite (proj2 (Z.ltb_lt _ _)).
  - rewrite (proj2 (Z.ltb_ge _ _)) by done. eexists. split; [done|]. pose proof (blob_len t boot) as Hl.
    split; [rewrite len_app, length_drop; lia|]. split; [|by apply read_blob_ok].
    by rewrite drop_app_length' by lia.
Qed.
