(* ===== verification/FdtForest.v ===== *)
(** * The forest of device-tree nodes ([src/libfdt.cpp])

    The invariant of the node heap, kept by every method as long as a client
    attaches only whole trees that have no handles yet: the heap is a forest,
    so walks to the root and down the tree end, and the handles of a tree are
    pairwise different. *)

From Stdlib Require Import Strings.String Strings.Ascii.
From S2P Require Import Prelude Defs Fdt FdtBlob.

(** ** Trees of nodes *)

(** [p] is [d] steps below the root [r]. *)
Inductive below (h : Heap) : positive -> nat -> positive -> Prop :=
| below_root p n : nodes h !! p = Some n -> n_parent n = None -> below h p 0 p
| below_step p n q d r : nodes h !! p = Some n -> n_parent n = Some q -> below h q d r -> below h p (S d) r.

(** The heap is a forest: every child points to its parent, every parent
    lists its child, every node is below a root, and the allocator is ahead of
    all pointers. *)
Record heap_ok (h : Heap) : Prop := {
  ho_child p n c : nodes h !! p = Some n -> c ∈ n_children n -> exists m, nodes h !! c = Some m /\ n_parent m = Some p;
  ho_parent p n q : nodes h !! p = Some n -> n_parent n = Some q -> exists m, nodes h !! q = Some m /\ p ∈ n_children m;
  ho_below p n : nodes h !! p = Some n -> exists d r, below h p d r;
  ho_fresh p n : nodes h !! p = Some n -> (p < next h)%positive }.

Lemma below_det h p d r : below h p d r -> forall d' r', below h p d' r' -> d' = d /\ r' = r.
Proof.
  induction 1 as [p n Hp Hn|p n q d r Hp Hn Hq IH]; intros d' r' H'; inversion H'; subst; simplify_eq; [done|].
  naive_solver.
Qed.

(** The nodes from [p] up to its root, with their depths. *)
Lemma below_path h p d r : below h p d r -> exists l : list positive, length l = S d /\
  forall i q, l !! i = Some q -> below h q (d - i) r /\ (i <= d)%nat.
Proof.
  induction 1 as [p n Hp Hn|p n q d r Hp Hn Hq (l & Hl & IH)].
  - exists [p]. split; [done|]. intros [|i] q Hi; [|done]. injection Hi as <-. split; [by eapply below_root|lia].
  - exists (p :: l). split; [cbn; lia|]. intros [|i] q' Hi; cbn in Hi.
    + injection Hi as <-. split; [by eapply below_step|lia].
    + destruct (IH i q' Hi). split; [done|lia].
Qed.

Lemma below_node h p d r : below h p d r -> exists n, nodes h !! p = Some n.
Proof. destruct 1; eauto. Qed.

(** A node is less deep than there are nodes. *)
Lemma below_bound h p d r : below h p d r -> (d < heap_fuel h)%nat.
Proof.
  intros H. destruct (below_path h p d r H) as (l & Hl & Hp). unfold heap_fuel. rewrite <- size_dom.
  assert (NoDup l) as Hnd.
  { apply NoDup_alt. intros i j q Hi Hj. destruct (Hp i q Hi) as [Bi ?], (Hp j q Hj) as [Bj ?].
    destruct (below_det _ _ _ _ Bi _ _ Bj). lia. }
  apply Nat.le_trans with (size (list_to_set l : gset positive)); [rewrite size_list_to_set by done; lia|].
  apply subseteq_size. intros q Hq. apply elem_of_list_to_set, list_elem_of_lookup in Hq as [i Hi].
  destruct (Hp i q Hi) as [B _]. apply elem_of_dom. destruct (below_node _ _ _ _ B) as [n Hn]. by exists n.
Qed.

Lemma root_from_ok h p d r : below h p d r -> forall k, (d < k)%nat -> root_from k p h = Ret (r, h).
Proof.
  induction 1 as [p n Hp Hn|p n q d r Hp Hn Hq IH]; intros [|k] Hk; try lia; cbn [root_from]; cbv [mbind ST_bind node_at];
    rewrite Hp, Hn; [done|]. apply IH. lia.
Qed.

(** The walk down ends as well. *)
Lemma tree_of_ok h : heap_ok h -> forall k p d r, below h p d r -> (heap_fuel h <= d + k)%nat -> exists t, tree_of k h p = Some t.
Proof.
  intros Hh. induction k as [|k IH]; intros p d r Hp Hk; [pose proof (below_bound h p d r Hp); lia|].
  cbn [tree_of]. destruct (below_node _ _ _ _ Hp) as [n Hn]. rewrite Hn. cbn.
  assert (exists ts, mapM (tree_of k h) (n_children n) = Some ts) as [ts ->]; [|by eexists].
  assert (forall c, c ∈ n_children n -> exists t, tree_of k h c = Some t) as Hc.
  { intros c Hc. destruct (ho_child h Hh p n c Hn Hc) as (m & Hm & Hpar). apply (IH c (S d) r); [by eapply below_step|lia]. }
  induction (n_children n) as [|c cs IHc]; [by exists []|].
  destruct (Hc c) as [t Ht]; [set_solver|]. destruct IHc as [ts Hts]; [set_solver|].
  exists (t :: ts). apply mapM_Some. constructor; [done|]. by apply mapM_Some.
Qed.

(** ** Handles *)

Definition PHANDLE_MAX : Z := 0xFFFFFFFE.

Record handles_ok (h : Heap) : Prop := {
  hk_range p n : nodes h !! p = Some n -> 0 <= n_phandle n <= PHANDLE_MAX;
  hk_root p n d r m : nodes h !! p = Some n -> below h p (S d) r -> nodes h !! r = Some m -> n_phandle n <= n_phandle m;
  hk_prop p n q : nodes h !! p = Some n -> n_parent n = Some q -> n_phandle n <> 0 ->
    lookup_prop (str "phandle") (n_props n) = Some (write_be32_to_buf (n_phandle n));
  hk_unique p n d q m e r : nodes h !! p = Some n -> nodes h !! q = Some m -> below h p (S d) r -> below h q (S e) r ->
    n_phandle n <> 0 -> n_phandle n = n_phandle m -> p = q }.

Definition fdt_ok (h : Heap) : Prop := heap_ok h /\ handles_ok h.

(** ** Updates that keep the links *)

Definition put_map (p : positive) (n : Node) (h : Heap) : Heap := mkHeap (<[p := n]> (nodes h)) (wraps h) (next h).

Definition same_links (n m : Node) : Prop := n_parent m = n_parent n /\ n_children m = n_children n.

Section update.
Context (h : Heap) (p : positive) (n m : Node).
Hypothesis Hp : nodes h !! p = Some n.
Hypothesis Hs : same_links n m.

Lemma put_lookup q : nodes (put_map p m h) !! q = if decide (q = p) then Some m else nodes h !! q.
Proof. cbn. case_decide as E; [subst; apply lookup_insert_eq|by apply lookup_insert_ne]. Qed.

Lemma put_below q d r : below (put_map p m h) q d r <-> below h q d r.
Proof.
  destruct Hs as [Hpar _]. split; induction 1 as [q n' Hq Hn|q n' q' d r Hq Hn Hb IH].
  - rewrite put_lookup in Hq. case_decide; simplify_eq; [eapply below_root; [done|congruence]|by eapply below_root].
  - rewrite put_lookup in Hq. case_decide; simplify_eq; [eapply below_step; [done|by rewrite <- Hpar|done]|by eapply below_step].
  - destruct (decide (q = p)) as [->|].
    + eapply below_root; [rewrite put_lookup, decide_True by done; done|congruence].
    + eapply below_root; [rewrite put_lookup, decide_False by done; done|done].
  - destruct (decide (q = p)) as [->|].
    + eapply below_step; [rewrite put_lookup, decide_True by done; done|rewrite Hpar; simplify_eq; done|done].
    + eapply below_step; [rewrite put_lookup, decide_False by done; done|done|done].
Qed.

Lemma put_heap_ok : heap_ok h -> heap_ok (put_map p m h).
Proof.
  intros Hh. destruct Hs as [Hpar Hch].
  assert (forall q n', nodes (put_map p m h) !! q = Some n' -> exists n0, nodes h !! q = Some n0 /\ same_links n0 n') as Old.
  { intros q n'. rewrite put_lookup. case_decide; intros; simplify_eq; [by exists n|by exists n']. }
  assert (forall q n0, nodes h !! q = Some n0 -> exists n', nodes (put_map p m h) !! q = Some n' /\ same_links n0 n') as New.
  { intros q n0 Hq. rewrite put_lookup. case_decide; simplify_eq; [by exists m|by exists n0]. }
  constructor.
  - intros q n' c Hq Hc. destruct (Old q n' Hq) as (n0 & H0 & _ & E). rewrite E in Hc.
    destruct (ho_child h Hh q n0 c H0 Hc) as (mc & Hm & Hpm). destruct (New c mc Hm) as (m' & Hm' & E' & _). exists m'. by rewrite E'.
  - intros q n' q' Hq Hn. destruct (Old q n' Hq) as (n0 & H0 & E & _). rewrite E in Hn.
    destruct (ho_parent h Hh q n0 q' H0 Hn) as (mc & Hm & Hin). destruct (New q' mc Hm) as (m' & Hm' & _ & E'). exists m'. by rewrite E'.
  - intros q n' Hq. destruct (Old q n' Hq) as (n0 & H0 & _). destruct (ho_below h Hh q n0 H0) as (d & r & Hb). exists d, r. by apply put_below.
  - intros q n' Hq. destruct (Old q n' Hq) as (n0 & H0 & _). by apply (ho_fresh h Hh q n0).
Qed.
End update.

Lemma upd_node_ok h p n f : nodes h !! p = Some n -> upd_node p f h = Ret (tt, put_map p (f n) h).
Proof. intros Hp. unfold upd_node, node_at, put_node. cbv [mbind ST_bind]. by rewrite Hp. Qed.

Lemma name_is_spec a b : name_is a b = true <-> b = a.
Proof. unfold name_is. apply bool_decide_eq_true. Qed.

Lemma lookup_put_prop a b d ps : lookup_prop a (put_prop b d ps) = if name_is a b then Some d else lookup_prop a ps.
Proof.
  unfold put_prop. induction ps as [|q ps IH]; cbn [replace_prop lookup_prop app default].
  { done. }
  destruct (name_is b (fp_name q)) eqn:Eb.
  - simpl. apply name_is_spec in Eb. rewrite Eb. by destruct (name_is a b).
  - destruct (replace_prop b d ps) as [ps'|]; cbn in *; destruct (name_is a (fp_name q)) eqn:Ea; try done.
    all: apply name_is_spec in Ea; destruct (name_is a b) eqn:Eab; [|done]; apply name_is_spec in Eab; exfalso;
      rewrite Ea, Eab in Eb; by rewrite (proj2 (name_is_spec a a)) in Eb.
Qed.

(** A new value of a node that keeps its handle. *)
Lemma put_handles_ok h p n m : nodes h !! p = Some n -> same_links n m -> n_phandle m = n_phandle n ->
  lookup_prop (str "phandle") (n_props m) = lookup_prop (str "phandle") (n_props n) -> handles_ok h -> handles_ok (put_map p m h).
Proof.
  intros Hp Hs Hph Hlk [Hr Hroot Hprop Hu].
  assert (forall q n', nodes (put_map p m h) !! q = Some n' -> exists n0, nodes h !! q = Some n0 /\ n_parent n' = n_parent n0 /\
    n_phandle n' = n_phandle n0 /\ lookup_prop (str "phandle") (n_props n') = lookup_prop (str "phandle") (n_props n0)) as Old.
  { intros q n'. rewrite put_lookup. case_decide; intros; simplify_eq; [exists n; split_and!; try done; apply Hs|by exists n']. }
  constructor.
  - intros q n' Hq. destruct (Old q n' Hq) as (n0 & H0 & _ & -> & _). eauto.
  - intros q n' d r mr Hq Hb Hm. rewrite (put_below h p n m Hp Hs) in Hb.
    destruct (Old q n' Hq) as (n0 & H0 & _ & -> & _), (Old r mr Hm) as (m0 & Hm0 & _ & -> & _). eauto.
  - intros q n' q' Hq Hn Hz. destruct (Old q n' Hq) as (n0 & H0 & E1 & E2 & E3). rewrite E1 in Hn. rewrite E2, E3 in *. eauto.
  - intros q n' d q' m' e r Hq Hq' Hb Hb' Hz He. rewrite (put_below h p n m Hp Hs) in Hb, Hb'.
    destruct (Old q n' Hq) as (n0 & H0 & _ & E2 & _), (Old q' m' Hq') as (m0 & Hm0 & _ & E2' & _). rewrite E2, E2' in *. eauto.
Qed.

Lemma add_prop_ok h p n name data : fdt_ok h -> nodes h !! p = Some n -> name <> str "phandle" ->
  exists h', add_prop p name data (Z.of_nat (length data)) h = Ret (tt, h') /\ fdt_ok h'.
Proof.
  intros [Hh Hk] Hp Hne. unfold add_prop. case_bool_decide; [by exists h|]. rewrite Z.ltb_irrefl, Nat2Z.id, firstn_all.
  rewrite (upd_node_ok h p n) by done. eexists. split; [done|]. split; [by apply (put_heap_ok h p n)|].
  apply (put_handles_ok h p n); try done. cbn [n_props set_props]. rewrite lookup_put_prop.
  destruct (name_is (str "phandle") name) eqn:E; [|done]. by apply name_is_spec in E.
Qed.

(** ** Allocating a handle *)

Section handle.
Context (h : Heap) (p : positive) (n : Node) (d : nat) (r : positive) (nr : Node).
Hypothesis Hok : fdt_ok h.
Hypothesis Hp : nodes h !! p = Some n.
Hypothesis Hb : below h p (S d) r.
Hypothesis Hr : nodes h !! r = Some nr.
Hypothesis Hroom : n_phandle nr < PHANDLE_MAX.
Hypothesis Hname : n_name n <> [].

Let ph := n_phandle nr + 1.
Let nr' := set_phandle ph nr.
Let n' := set_props (put_prop (str "phandle") (write_be32_to_buf ph) (n_props n)) (set_phandle ph n).
Let h' := put_map p n' (put_map r nr' h).

Lemma below_root_parent q e r0 : below h q e r0 -> exists m, nodes h !! r0 = Some m /\ n_parent m = None.
Proof. induction 1; eauto. Qed.

Lemma root_ne : r <> p.
Proof.
  intros ->. destruct (below_root_parent p (S d) p Hb) as (m & Hm & Hn). inversion Hb; subst. congruence.
Qed.

Lemma parent_of : exists q, n_parent n = Some q.
Proof. inversion Hb; subst. simplify_eq. eauto. Qed.

Lemma get_phandle_new : n_phandle n = 0 -> get_phandle p h = Ret (ph, h').
Proof.
  intros Hz. destruct parent_of as [q Hq]. destruct Hok as [Hh Hk]. pose proof (hk_range h Hk r nr Hr).
  unfold get_phandle, allocate_new_phandle, node_at, gets. cbv [mbind ST_bind]. rewrite Hp, Hq, bool_decide_eq_false_2 by done.
  rewrite Hz. cbn [is_illegal_phandle Z.eqb orb]. rewrite (root_from_ok h p (S d) r Hb) by (by eapply below_bound).
  rewrite (upd_node_ok h r nr) by done. rewrite put_lookup, decide_True by done. cbn [n_phandle set_phandle].
  rewrite uN_id by (unfold inw, PHANDLE_MAX in *; lia). fold ph. fold nr'.
  cbv [mret ST_ret]. rewrite (upd_node_ok _ p n) by (rewrite put_lookup, decide_False by (intros E; by apply root_ne); done).
  unfold add_prop_u32, add_prop. rewrite bool_decide_eq_false_2 by done. change (Z.of_nat (length (write_be32_to_buf ph)) <? 4) with false.
  cbv iota. rewrite (upd_node_ok _ p (set_phandle ph n)) by (rewrite put_lookup, decide_True by done; done).
  rewrite put_lookup, decide_True by done. cbn [n_props set_phandle set_props n_phandle]. do 2 f_equal. unfold h', put_map. cbn [nodes wraps next].
  f_equal. by rewrite insert_insert_eq.
Qed.

Lemma handle_links : same_links nr nr' /\ same_links n n'.
Proof. done. Qed.

Lemma handle_below q e r0 : below h' q e r0 <-> below h q e r0.
Proof.
  unfold h'. rewrite (put_below _ p n n'); [|rewrite put_lookup, decide_False by (intros E; by apply root_ne); done|done].
  by apply (put_below h r nr nr').
Qed.

Lemma handle_lookup q m : nodes h' !! q = Some m ->
  (q = p /\ m = n') \/ (q = r /\ m = nr') \/ (q <> p /\ q <> r /\ nodes h !! q = Some m).
Proof. unfold h'. rewrite !put_lookup. repeat case_decide; intros; simplify_eq; auto. Qed.

Lemma handle_unique q m e : nodes h !! q = Some m -> below h q (S e) r -> n_phandle m <> ph.
Proof. intros Hq Hbq E. destruct Hok as [_ Hk]. pose proof (hk_root h Hk q m e r nr Hq Hbq Hr). subst ph. lia. Qed.

Lemma handle_fdt_ok : fdt_ok h'.
Proof.
  destruct Hok as [Hh Hk]. pose proof (hk_range h Hk r nr Hr) as Hrr. pose proof root_ne as Hne. destruct parent_of as [qp Hqp].
  destruct (below_root_parent _ _ _ Hb) as (nx & Hr0 & Hroot). simplify_eq.
  assert (forall e r0, below h r (S e) r0 -> False) as Rno by (intros e r0 B; inversion B; subst; congruence).
  split.
  - apply (put_heap_ok _ p n n'); [rewrite put_lookup, decide_False by (intros E; by apply Hne); done|done|]. by apply (put_heap_ok h r nr).
  - constructor.
    + intros q m Hq. destruct (handle_lookup q m Hq) as [[-> ->]|[[-> ->]|(_ & _ & Hq')]]; [| |by apply (hk_range h Hk q)];
        unfold nr', n', ph; cbn; unfold PHANDLE_MAX in *; lia.
    + intros q m e r0 mr Hq Hbq Hm. rewrite handle_below in Hbq.
      assert (r0 <> p) as Hrp by (intros ->; destruct (below_root_parent _ _ _ Hbq) as (? & ? & ?); congruence).
      destruct (handle_lookup r0 mr Hm) as [[? _]|[[-> ->]|(_ & Hr0r & Hm')]]; [done| |].
      * destruct (handle_lookup q m Hq) as [[-> ->]|[[-> ->]|(_ & _ & Hq')]]; [cbn; lia|by destruct (Rno e r)|].
        pose proof (hk_root h Hk q m e r nr Hq' Hbq Hr). unfold nr', ph. cbn. lia.
      * destruct (handle_lookup q m Hq) as [[-> ->]|[[-> ->]|(_ & _ & Hq')]]; [|by destruct (Rno e r0)|by apply (hk_root h Hk q m e r0)].
        by destruct (below_det _ _ _ _ Hb _ _ Hbq).
    + intros q m q' Hq Hn Hz. destruct (handle_lookup q m Hq) as [[-> ->]|[[-> ->]|(_ & _ & Hq')]]; [|by cbn in Hn; congruence|by apply (hk_prop h Hk q m q')].
      cbn [n' n_props set_props n_phandle set_phandle]. by rewrite lookup_put_prop.
    + intros q m e q' m' e' r0 Hq Hq' Hbq Hbq' Hz Heq. rewrite handle_below in Hbq, Hbq'.
      destruct (handle_lookup q m Hq) as [[-> ->]|[[-> ->]|(? & _ & Hq0)]]; [|by destruct (Rno e r0)|].
      * destruct (handle_lookup q' m' Hq') as [[-> ->]|[[-> ->]|(? & _ & Hq0')]]; [done|by destruct (Rno e' r0)|].
        destruct (below_det _ _ _ _ Hb _ _ Hbq) as [_ ->]. by destruct (handle_unique q' m' e').
      * destruct (handle_lookup q' m' Hq') as [[-> ->]|[[-> ->]|(? & _ & Hq0')]]; [|by destruct (Rno e' r0)|by apply (hk_unique h Hk q m e q' m' e' r0)].
        destruct (below_det _ _ _ _ Hb _ _ Hbq') as [_ ->]. by destruct (handle_unique q m e).
Qed.
End handle.

(** ** A new node *)

Section create.
Context (h : Heap) (name : list Z).
Hypothesis Hok : fdt_ok h.

Let p := next h.
Let h' := mkHeap (<[p := mkNode name None 0 [] []]> (nodes h)) (wraps h) (Pos.succ p).

Lemma new_fresh n : nodes h !! p = Some n -> False.
Proof. intros Hp. destruct Hok as [Hh _]. apply (ho_fresh h Hh) in Hp. subst p. lia. Qed.

Lemma new_lookup q n : nodes h' !! q = Some n -> (q = p /\ n = mkNode name None 0 [] []) \/ (q <> p /\ nodes h !! q = Some n).
Proof. cbn. intros H. apply lookup_insert_Some in H. naive_solver. Qed.

Lemma new_old q n : nodes h !! q = Some n -> q <> p /\ nodes h' !! q = Some n.
Proof. intros Hq. assert (q <> p) by (intros ->; by eapply new_fresh). split; [done|]. cbn. by rewrite lookup_insert_ne. Qed.

Lemma new_below q d r : below h q d r -> below h' q d r.
Proof. induction 1 as [q n Hq Hn|q n q' d r Hq Hn Hb IH]; apply new_old in Hq as [_ Hq]; [by eapply below_root|by eapply below_step]. Qed.

Lemma new_below_inv q d r : below h' q (S d) r -> below h q (S d) r.
Proof.
  intros B. destruct (below_node _ _ _ _ B) as [n Hn]. destruct (new_lookup q n Hn) as [[-> ->]|[_ Hq]].
  - inversion B; subst. simplify_eq.
  - destruct Hok as [Hh _]. destruct (ho_below h Hh q n Hq) as (e & r' & B'). by destruct (below_det _ _ _ _ (new_below _ _ _ B') _ _ B) as [<- <-].
Qed.

Lemma new_fdt_ok : fdt_ok h'.
Proof.
  destruct Hok as [Hh Hk]. split; constructor.
  - intros q n c Hq Hc. destruct (new_lookup q n Hq) as [[-> ->]|[_ Hq']]; [by apply not_elem_of_nil in Hc|].
    destruct (ho_child h Hh q n c Hq' Hc) as (m & Hm & E). exists m. split; [by apply new_old|done].
  - intros q n q' Hq Hn. destruct (new_lookup q n Hq) as [[-> ->]|[_ Hq']]; [done|].
    destruct (ho_parent h Hh q n q' Hq' Hn) as (m & Hm & E). exists m. split; [by apply new_old|done].
  - intros q n Hq. destruct (new_lookup q n Hq) as [[-> ->]|[_ Hq']]; [exists 0%nat, p; by eapply below_root|].
    destruct (ho_below h Hh q n Hq') as (d & r & B). exists d, r. by apply new_below.
  - intros q n Hq. cbn. destruct (new_lookup q n Hq) as [[-> ->]|[_ Hq']]; [lia|]. pose proof (ho_fresh h Hh q n Hq'). subst p. lia.
  - intros q n Hq. destruct (new_lookup q n Hq) as [[-> ->]|[_ Hq']]; [by cbn|by apply (hk_range h Hk q)].
  - intros q n d r m Hq B Hm. apply new_below_inv in B. destruct (below_node _ _ _ _ B) as [n0 Hn0].
    destruct (new_old q n0 Hn0) as [_ E]. simplify_eq. destruct (below_root_parent h q (S d) r B) as (m0 & Hm0 & _).
    destruct (new_old r m0 Hm0) as [_ E']. simplify_eq. by apply (hk_root h Hk q n d r).
  - intros q n q' Hq Hn Hz. destruct (new_lookup q n Hq) as [[-> ->]|[_ Hq']]; [done|by apply (hk_prop h Hk q n q')].
  - intros q n d q' m e r Hq Hq' B B' Hz He. apply new_below_inv in B, B'.
    destruct (new_lookup q n Hq) as [[-> ->]|[_ Hq0]]; [done|]. destruct (new_lookup q' m Hq') as [[-> ->]|[_ Hq0']]; [by rewrite He in Hz|].
    by apply (hk_unique h Hk q n d q' m e r).
Qed.
End create.

(** ** Attaching a tree *)

Section attach.
Context (h : Heap) (this child : positive) (nt nc : Node) (dt : nat) (r : positive).
Hypothesis Hok : fdt_ok h.
Hypothesis Ht : nodes h !! this = Some nt.
Hypothesis Hc : nodes h !! child = Some nc.
Hypothesis Hroot : n_parent nc = None.
Hypothesis Hbt : below h this dt r.
Hypothesis Hne : r <> child.
Hypothesis Hzero : forall q n e, nodes h !! q = Some n -> below h q e child -> n_phandle n = 0.

Let nt' := set_children (n_children nt ++ [child]) nt.
Let nc' := set_parent (Some this) nc.
Let h' := put_map this nt' (put_map child nc' h).

Lemma child_root : below h child 0 child.
Proof. by eapply below_root. Qed.

Lemma this_ne : this <> child.
Proof. intros E. pose proof Hbt as B. rewrite E in B. destruct (below_det _ _ _ _ child_root _ _ B). done. Qed.

Lemma add_child_eq : add_child this child h = Ret (tt, h').
Proof.
  unfold add_child. cbv [mbind ST_bind]. rewrite (upd_node_ok h child nc) by done.
  rewrite (upd_node_ok _ this nt); [done|]. rewrite put_lookup, decide_False by (intros E; by apply this_ne). done.
Qed.

Lemma att_lookup q m : nodes h' !! q = Some m ->
  (q = this /\ m = nt') \/ (q = child /\ m = nc') \/ (q <> this /\ q <> child /\ nodes h !! q = Some m).
Proof. unfold h'. rewrite !put_lookup. repeat case_decide; intros; simplify_eq; auto. Qed.

(** What a node was before; only [child] gets a parent. *)
Lemma att_old q m : nodes h' !! q = Some m -> exists n, nodes h !! q = Some n /\ n_phandle m = n_phandle n /\ n_props m = n_props n /\
  (n_parent m = n_parent n \/ q = child).
Proof. intros Hq. destruct (att_lookup q m Hq) as [[-> ->]|[[-> ->]|(_ & _ & Hq')]]; [exists nt|exists nc|exists m]; auto. Qed.

Lemma att_new q n : nodes h !! q = Some n -> q <> child -> exists m, nodes h' !! q = Some m /\ n_parent m = n_parent n.
Proof.
  intros Hq Hnc. unfold h'. rewrite put_lookup. case_decide; simplify_eq; [by exists nt'|]. rewrite put_lookup, decide_False by done. by exists n.
Qed.

Lemma att_child : nodes h' !! child = Some nc'.
Proof. unfold h'. rewrite put_lookup, decide_False by (intros E; by apply this_ne). by rewrite put_lookup, decide_True. Qed.

Lemma att_below_other q e r0 : below h q e r0 -> r0 <> child -> below h' q e r0.
Proof.
  induction 1 as [q n Hq Hn|q n q' d r0 Hq Hn B IH]; intros Hr.
  - destruct (att_new q n Hq Hr) as (m & Hm & E). eapply below_root; [done|congruence].
  - assert (q <> child) as Hqc by (intros ->; congruence).
    destruct (att_new q n Hq Hqc) as (m & Hm & E). eapply below_step; [done|by rewrite E|auto].
Qed.

Lemma att_below_child q e r0 : below h q e r0 -> r0 = child -> below h' q (e + S dt) r.
Proof.
  induction 1 as [q n Hq Hn|q n q' d r0 Hq Hn B IH]; intros Hr.
  - subst q. eapply below_step; [apply att_child|done|]. by apply att_below_other.
  - assert (q <> child) as Hqc by (intros ->; congruence).
    destruct (att_new q n Hq Hqc) as (m & Hm & E). eapply below_step; [done|by rewrite E|auto].
Qed.

(** A node with a handle was not in the attached tree. *)
Lemma att_handle q m e r0 : nodes h' !! q = Some m -> below h' q e r0 -> n_phandle m <> 0 -> below h q e r0 /\ r0 <> child.
Proof.
  intros Hq B Hz. destruct (att_old q m Hq) as (n & Hn & E & _). rewrite E in Hz. destruct Hok as [Hh _].
  destruct (ho_below h Hh q n Hn) as (e' & r1 & B1). destruct (decide (r1 = child)) as [->|Hr1].
  - by destruct Hz; apply (Hzero q n e').
  - by destruct (below_det _ _ _ _ (att_below_other _ _ _ B1 Hr1) _ _ B) as [-> ->].
Qed.

Lemma att_heap_ok : heap_ok h'.
Proof.
  destruct Hok as [Hh _]. constructor.
  - intros q n c Hq Hin. assert (c = child /\ q = this \/ exists m, nodes h !! c = Some m /\ n_parent m = Some q) as [[-> ->]|(m & Hm & E)].
    { destruct (att_lookup q n Hq) as [[-> ->]|[[-> ->]|(_ & _ & Hq')]].
      - apply elem_of_app in Hin as [Hin|Hin]; [right; by apply (ho_child h Hh this nt)|left]. by apply list_elem_of_singleton in Hin.
      - right. by apply (ho_child h Hh child nc).
      - right. by apply (ho_child h Hh q n). }
    + exists nc'. split; [apply att_child|done].
    + assert (c <> child) by (intros ->; congruence). destruct (att_new c m Hm) as (m' & Hm' & E'); [done|]. exists m'. by rewrite E'.
  - intros q n q' Hq Hn. destruct (att_old q n Hq) as (n0 & H0 & _ & _ & [E| ->]).
    + rewrite E in Hn. destruct (ho_parent h Hh q n0 q' H0 Hn) as (m & Hm & Hin).
      unfold h'. rewrite put_lookup. case_decide; [simplify_eq; exists nt'; split; [done|cbn; set_solver]|].
      rewrite put_lookup. case_decide; [simplify_eq; by exists nc'|by exists m].
    + pose proof att_child. simplify_eq. cbn in Hn. injection Hn as <-. exists nt'. unfold h'. rewrite put_lookup, decide_True by done.
      split; [done|cbn; set_solver].
  - intros q n Hq. destruct (att_old q n Hq) as (n0 & H0 & _). destruct (ho_below h Hh q n0 H0) as (e & r0 & B).
    destruct (decide (r0 = child)); [exists (e + S dt)%nat, r; by eapply att_below_child|exists e, r0; by apply att_below_other].
  - intros q n Hq. destruct (att_old q n Hq) as (n0 & H0 & _). by apply (ho_fresh h Hh q n0).
Qed.

Lemma att_handles_ok : handles_ok h'.
Proof.
  destruct Hok as [Hh Hk].
  assert (forall q m, nodes h' !! q = Some m -> 0 <= n_phandle m <= PHANDLE_MAX) as Hrange.
  { intros q m Hq. destruct (att_old q m Hq) as (n & Hn & -> & _). by apply (hk_range h Hk q). }
  constructor; [done|..].
  - intros q n d r0 m Hq B Hm. pose proof (Hrange r0 m Hm). destruct (decide (n_phandle n = 0)) as [|Hz]; [lia|].
    destruct (att_handle q n (S d) r0 Hq B) as [B0 _]; [done|].
    destruct (att_old q n Hq) as (n0 & Hn0 & -> & _), (att_old r0 m Hm) as (m0 & Hm0 & -> & _). by apply (hk_root h Hk q n0 d r0).
  - intros q n q' Hq Hn Hz. destruct (att_old q n Hq) as (n0 & Hn0 & E & Ep & [Epar| ->]).
    + rewrite E, Ep in *. rewrite Epar in Hn. by apply (hk_prop h Hk q n0 q').
    + simplify_eq. destruct Hz. rewrite E. by apply (Hzero child nc 0%nat), child_root.
  - intros q n d q' m e r0 Hq Hq' B B' Hz He.
    destruct (att_handle q n (S d) r0 Hq B Hz) as [B0 _]. destruct (att_handle q' m (S e) r0 Hq' B') as [B0' _]; [congruence|].
    destruct (att_old q n Hq) as (n0 & Hn0 & E & _), (att_old q' m Hq') as (m0 & Hm0 & E' & _). rewrite E, E' in *.
    by apply (hk_unique h Hk q n0 d q' m0 e r0).
Qed.
End attach.

(** ** Clients

    The methods a client calls, and when it may: it attaches the root of a
    tree without handles below a node of another tree, it leaves the property
    ["phandle"] alone, and the root still has handles to give. *)

Inductive Op :=
| OpCreate (name : list Z)
| OpAddChild (this child : positive)
| OpAddProp (this : positive) (name data : list Z)
| OpPhandle (this : positive).

Definition op_run (o : Op) : FM unit :=
  match o with
  | OpCreate name => _ ← new_node name; mret tt
  | OpAddChild this child => add_child this child
  | OpAddProp this name data => add_prop this name data (Z.of_nat (length data))
  | OpPhandle this => _ ← get_phandle this; mret tt
  end.

Definition op_ok (h : Heap) (o : Op) : Prop :=
  match o with
  | OpCreate _ => True
  | OpAddChild this child => exists d r, below h this d r /\ r <> child /\ below h child 0 child /\
      forall q n e, nodes h !! q = Some n -> below h q e child -> n_phandle n = 0
  | OpAddProp this name _ => is_Some (nodes h !! this) /\ name <> str "phandle"
  | OpPhandle this => exists d r n, below h this d r /\ nodes h !! r = Some n /\ n_phandle n < PHANDLE_MAX
  end.

Fixpoint ops_ok (h : Heap) (os : list Op) : Prop :=
  match os with [] => True | o :: os' => op_ok h o /\ forall h', op_run o h = Ret (tt, h') -> ops_ok h' os' end.

Fixpoint ops_run (os : list Op) : FM unit :=
  match os with [] => mret tt | o :: os' => _ ← op_run o; ops_run os' end.

Lemma legal_handle h p n : handles_ok h -> nodes h !! p = Some n -> is_illegal_phandle (n_phandle n) = (n_phandle n =? 0).
Proof.
  intros Hk Hp. pose proof (hk_range h Hk p n Hp). unfold is_illegal_phandle, PHANDLE_MAX in *.
  rewrite (proj2 (Z.eqb_neq (n_phandle n) 0xFFFFFFFF)) by lia. by rewrite orb_false_r.
Qed.

(** [get_phandle], on every branch. *)
Lemma get_phandle_ok h p d r nr : fdt_ok h -> below h p d r -> nodes h !! r = Some nr -> n_phandle nr < PHANDLE_MAX ->
  exists ph h', get_phandle p h = Ret (ph, h') /\ fdt_ok h' /\ (forall q e r0, below h q e r0 -> below h' q e r0) /\
    exists n n', nodes h !! p = Some n /\ nodes h' !! p = Some n' /\
      (d = 0%nat \/ n_name n = [] -> ph = 0 /\ h' = h) /\
      (d <> 0%nat -> n_name n <> [] -> 0 < ph <= PHANDLE_MAX /\ n_phandle n' = ph /\ get_phandle p h' = Ret (ph, h')).
Proof.
  intros Hok Hb Hr Hroom. destruct Hok as [Hh Hk] eqn:E; clear E. destruct (below_node _ _ _ _ Hb) as [n Hn].
  pose proof (hk_range h Hk p n Hn) as Hrg. pose proof (hk_range h Hk r nr Hr) as Hrr.
  assert (forall h0 n0 q, nodes h0 !! p = Some n0 -> handles_ok h0 -> n_parent n0 = Some q -> n_name n0 <> [] -> n_phandle n0 <> 0 ->
    get_phandle p h0 = Ret (n_phandle n0, h0)) as Old.
  { intros h0 n0 q H0 Hk0 Hq0 Hnm Hz. unfold get_phandle, node_at. cbv [mbind ST_bind]. rewrite H0, Hq0, bool_decide_eq_false_2 by done.
    by rewrite (legal_handle h0 p n0), (proj2 (Z.eqb_neq _ 0)) by done. }
  destruct (decide (d = 0%nat \/ n_name n = [])) as [Hz|Hz].
  - exists 0, h. split; [|split; [done|split; [done|exists n, n; split_and!; try done; intros; by destruct Hz]]].
    unfold get_phandle, node_at. cbv [mbind ST_bind]. rewrite Hn. destruct (n_parent n) as [q|] eqn:Eq; [|done].
    destruct Hz as [->|Hz]; [inversion Hb; subst; congruence|]. by rewrite bool_decide_eq_true_2.
  - destruct d as [|d]; [by destruct Hz; left|]. assert (n_name n <> []) as Hnm by (intros ?; apply Hz; by right).
    destruct (parent_of h p n d r Hn Hb) as [q Hq]. destruct (decide (n_phandle n = 0)) as [E0|E0].
    + exists (n_phandle nr + 1). eexists. split; [by apply get_phandle_new with (d := d) (r := r)|].
      split; [by apply handle_fdt_ok with (d := d)|]. split; [intros; by apply handle_below with (d := d)|].
      exists n. eexists. split; [done|]. split; [rewrite put_lookup, decide_True by done; done|]. split; [by intros []|].
      intros _ _. split; [unfold PHANDLE_MAX in *; lia|]. split; [done|].
      etransitivity; [eapply Old with (q := q); [by rewrite put_lookup, decide_True| |done|done|cbn; lia]|done].
      by apply handle_fdt_ok with (d := d).
    + exists (n_phandle n), h. split; [by apply Old with (q := q)|]. split; [done|]. split; [done|].
      exists n, n. split_and!; [done|done|by intros []|]. intros _ _. split; [lia|]. split; [done|by apply Old with (q := q)].
Qed.

Lemma op_preserves h o : fdt_ok h -> op_ok h o -> exists h', op_run o h = Ret (tt, h') /\ fdt_ok h'.
Proof.
  intros Hok Ho. destruct o as [name|this child|this name data|this]; cbn [op_run op_ok] in *.
  - eexists. split; [done|]. by apply new_fdt_ok.
  - destruct Ho as (d & r & Hb & Hne & Hc & Hz). destruct (below_node _ _ _ _ Hb) as [nt Ht]. inversion Hc as [? nc Hnc Hpar|]; subst.
    eexists. split; [by apply (add_child_eq h this child nt nc d r)|].
    split; [by apply att_heap_ok with (dt := d) (r := r)|by eapply att_handles_ok with (r := r)].
  - destruct Ho as [[n Hn] Hne]. by apply (add_prop_ok h this n).
  - destruct Ho as (d & r & n & Hb & Hr & Hroom). destruct (get_phandle_ok h this d r n Hok Hb Hr Hroom) as (ph & h' & E & Hok' & _).
    exists h'. cbv [mbind ST_bind]. by rewrite E.
Qed.

Lemma heap0_ok : fdt_ok heap0.
Proof. split; constructor; intros; cbn in *; by rewrite lookup_empty in *. Qed.

Lemma ops_preserve os : forall h, fdt_ok h -> ops_ok h os -> exists h', ops_run os h = Ret (tt, h') /\ fdt_ok h'.
Proof.
  induction os as [|o os IH]; intros h Hok Hos; cbn [ops_run ops_ok] in *; [by exists h|]. destruct Hos as [Ho Hos].
  destruct (op_preserves h o Hok Ho) as (h1 & E & Hok1). destruct (IH h1 Hok1 (Hos h1 E)) as (h2 & E2 & Hok2).
  exists h2. cbv [mbind ST_bind]. by rewrite E.
Qed.

