(* ===== verification/DeviceTree.v ===== *)
(** * The machine's device tree ([init_fdt] of [src/machine.cpp], the constructors of [src/devices])

    The nodes [Machine::init_fdt] creates and those the constructor of each
    device adds, in the order of [init_auto_devices], through the C interface
    of the tree library. The random words of the seed are an argument. *)

From Stdlib Require Import Strings.String Strings.Ascii.
From S2P Require Import Prelude Defs Hart Fdt.

Record TreeConfig := mkTreeConfig {
  tc_memory_size : Z;
  tc_hart_count : nat;
  tc_timebase : Z;
  tc_mmu : Z;
  tc_append : list Z;
  tc_random : list Z;
  tc_uart_irq : Z;
  tc_i2c_irq : Z;
  tc_disk_irqs : list Z }.

(** Strings that hold NULs, as literals of [n] strings in a row. *)
Definition strs (l : list string) : option (list Z) := Some (mjoin ((fun s => str s ++ [0]) <$> l)).

Definition rng_seed (ws : list Z) : list Z := mjoin ((fun w => str "0x" ++ hex_fixed 8 w ++ [32]) <$> ws) ++ [10].

(** The table [conv], indexed with the mode. *)
Definition mmu_type (md : Z) : option (list Z) :=
  if md =? SatpMode_Bare then cstr "riscv,none"
  else if md =? SatpMode_Sv39 then cstr "riscv,sv39"
  else if md =? SatpMode_Sv48 then cstr "riscv,sv48"
  else if md =? SatpMode_Sv57 then cstr "riscv,sv57"
  else cstr "riscv,".

(** The body of the loop over the harts. The searches below [fdt] come before
    ["cpus"] is attached to it, so they find nothing. *)
Definition cpu_node (cfg : TreeConfig) (fdt cpus : option positive) (i : Z) : FM unit :=
  cpu ← fdt_node_create_reg (cstr "cpu") i;
  _ ← fdt_node_add_prop_str cpu (cstr "device_type") (cstr "cpu");
  _ ← fdt_node_add_prop_u32 cpu (cstr "reg") i;
  _ ← fdt_node_add_prop_u32 cpu (cstr "riscv,cboz-block-size") 64;
  _ ← fdt_node_add_prop_str cpu (cstr "compatible") (cstr "riscv");
  _ ← fdt_node_add_prop_str cpu (cstr "riscv,isa") (cstr "rv64imafdc_zicsr_zifencei_zicboz_zba_zbb_zbc_zbs");
  _ ← fdt_node_add_prop_str cpu (cstr "mmu-type") (mmu_type (tc_mmu cfg));
  _ ← fdt_node_add_prop_str cpu (cstr "status") (cstr "okay");
  intc ← fdt_node_create (cstr "interrupt-controller");
  _ ← fdt_node_add_prop_u32 intc (cstr "#interrupt-cells") 1;
  _ ← fdt_node_add_prop intc (cstr "interrupt-controller") None 0;
  _ ← fdt_node_add_prop_str intc (cstr "compatible") (cstr "riscv,cpu-intc");
  _ ← fdt_node_get_phandle intc;
  _ ← fdt_node_add_child cpu intc;
  _ ← fdt_node_add_child cpus cpu;
  c ← fdt_node_find fdt (cstr "cpus");
  n ← fdt_node_find_reg c (cstr "cpu") i;
  _ ← fdt_node_get_phandle n;
  c ← fdt_node_find fdt (cstr "cpus");
  n ← fdt_node_find_reg c (cstr "cpu") i;
  k ← fdt_node_find n (cstr "interrupt-controller");
  _ ← fdt_node_get_phandle k;
  mret tt.

Fixpoint for_harts (f : Z -> FM unit) (i : Z) (k : nat) : FM unit :=
  match k with O => mret tt | S k' => _ ← f i; for_harts f (i + 1) k' end.

Definition init_fdt (cfg : TreeConfig) : FM (option positive) :=
  fdt ← fdt_node_create None;
  _ ← fdt_node_add_prop_u32 fdt (cstr "#address-cells") 2;
  _ ← fdt_node_add_prop_u32 fdt (cstr "#size-cells") 2;
  _ ← fdt_node_add_prop_str fdt (cstr "model") (cstr "rv64-vm; standalone");
  _ ← fdt_node_add_prop fdt (cstr "compatible") (strs ["riscv-virtio"%string; "simple-bus"%string]) 24;
  chosen ← fdt_node_create (cstr "chosen");
  _ ← fdt_node_add_prop_str chosen (cstr "rng-seed") (Some (rng_seed (tc_random cfg)));
  _ ← (if bool_decide (tc_append cfg = []) then mret tt
       else fdt_node_add_prop_str chosen (cstr "bootargs") (Some (tc_append cfg)));
  _ ← fdt_node_add_prop_str chosen (cstr "stdout-path") (cstr "/soc/uart@10000000");
  _ ← fdt_node_add_child fdt chosen;
  memory ← fdt_node_create_reg (cstr "memory") 0x80000000;
  _ ← fdt_node_add_prop_str memory (cstr "device_type") (cstr "memory");
  let memcells := [0; 0x80000000; u32 (Z.shiftr (tc_memory_size cfg) 32); u32 (Z.land (tc_memory_size cfg) 0xFFFFFFFF)] in
  _ ← fdt_node_add_prop_cells memory (cstr "reg") memcells 4;
  _ ← fdt_node_add_child fdt memory;
  cpus ← fdt_node_create (cstr "cpus");
  _ ← fdt_node_add_prop_u32 cpus (cstr "#address-cells") 1;
  _ ← fdt_node_add_prop_u32 cpus (cstr "#size-cells") 0;
  _ ← fdt_node_add_prop_u32 cpus (cstr "timebase-frequency") (u32 (tc_timebase cfg));
  _ ← for_harts (cpu_node cfg fdt cpus) 0 (tc_hart_count cfg);
  _ ← fdt_node_add_child fdt cpus;
  soc ← fdt_node_create (cstr "soc");
  _ ← fdt_node_add_prop_u32 soc (cstr "#address-cells") 2;
  _ ← fdt_node_add_prop_u32 soc (cstr "#size-cells") 2;
  _ ← fdt_node_add_prop_str soc (cstr "compatible") (cstr "simple-bus");
  _ ← fdt_node_add_prop soc (cstr "ranges") None 0;
  _ ← fdt_node_add_child fdt soc;
  mret fdt.

(** ** Device nodes *)

(** The interrupt controller of hart [i]: what the loops of the PLIC and of
    the CLINT look for. *)
Definition cpu_intc (cpus : option positive) (i : Z) : FM (option positive * option positive) :=
  cpu ← fdt_node_find_reg cpus (cstr "cpu") i;
  cpu_irq ← fdt_node_find cpu (cstr "interrupt-controller");
  mret (cpu, cpu_irq).

(** [irq_ext] of the PLIC: the external interrupts of both levels. *)
Fixpoint plic_irqs (cpus : option positive) (i : Z) (k : nat) : FM (list Z) :=
  match k with
  | O => mret []
  | S k' =>
      cpu ← fdt_node_find_reg cpus (cstr "cpu") i;
      match cpu with
      | None => plic_irqs cpus (i + 1) k'
      | Some _ =>
          cpu_irq ← fdt_node_find cpu (cstr "interrupt-controller");
          match cpu_irq with
          | None => plic_irqs cpus (i + 1) k'
          | Some _ =>
              ph ← fdt_node_get_phandle cpu_irq;
              if ph =? 0 then plic_irqs cpus (i + 1) k' else
              _ ← fdt_node_free cpu_irq;
              _ ← fdt_node_free cpu;
              l ← plic_irqs cpus (i + 1) k';
              mret ([ph; 11; ph; 9] ++ l)
          end
      end
  end.

Definition plic_fdt (fdt : option positive) (start size max_sources : Z) (harts : nat) : FM unit :=
  match fdt with
  | None => mret tt
  | Some _ =>
      cpus ← fdt_node_find fdt (cstr "cpus");
      irq_ext ← plic_irqs cpus 0 harts;
      _ ← fdt_node_free cpus;
      plic ← fdt_node_create_reg (cstr "plic") start;
      _ ← fdt_node_add_prop_reg plic (cstr "reg") start size;
      _ ← fdt_node_add_prop_str plic (cstr "compatible") (cstr "sifive,plic-1.0.0");
      _ ← fdt_node_add_prop plic (cstr "interrupt-controller") None 0;
      _ ← fdt_node_add_prop_u32 plic (cstr "#interrupt-cells") 1;
      _ ← fdt_node_add_prop_u32 plic (cstr "#address-cells") 0;
      _ ← fdt_node_add_prop_u32 plic (cstr "riscv,ndev") max_sources;
      _ ← (if bool_decide (irq_ext = []) then mret tt
           else fdt_node_add_prop_cells plic (cstr "interrupts-extended") irq_ext (u32 (Z.of_nat (length irq_ext))));
      soc ← fdt_node_find fdt (cstr "soc");
      _ ← fdt_node_add_child soc plic;
      fdt_node_free soc
  end.

Definition uart_fdt (fdt : option positive) (start irq_num : Z) : FM unit :=
  uart ← fdt_node_create_reg (cstr "serial") start;
  _ ← fdt_node_add_prop_reg uart (cstr "reg") start 0x100;
  _ ← fdt_node_add_prop_str uart (cstr "compatible") (cstr "ns16550a");
  _ ← fdt_node_add_prop_u32 uart (cstr "clock-frequency") 20000000;
  _ ← fdt_node_add_prop_u32 uart (cstr "fifo-size") 512;
  _ ← fdt_node_add_prop_str uart (cstr "status") (cstr "okay");
  soc ← fdt_node_find fdt (cstr "soc");
  plic ← fdt_node_find_reg soc (cstr "plic") 0x0C000000;
  ph ← fdt_node_get_phandle plic;
  _ ← fdt_node_add_prop_u32 uart (cstr "interrupt-parent") ph;
  _ ← fdt_node_free plic;
  _ ← fdt_node_add_prop_u32 uart (cstr "interrupts") irq_num;
  _ ← fdt_node_add_child soc uart;
  _ ← fdt_node_free soc;
  chosen ← fdt_node_find fdt (cstr "chosen");
  _ ← fdt_node_add_prop_str chosen (cstr "stdout-path") (cstr "/soc/serial@10000000");
  fdt_node_free chosen.

(** [irq_ext] of the CLINT: the software and timer interrupts. *)
Fixpoint clint_irqs (cpus : option positive) (i : Z) (k : nat) : FM (list Z) :=
  match k with
  | O => mret []
  | S k' =>
      '(cpu, cpu_irq) ← cpu_intc cpus i;
      ph ← fdt_node_get_phandle cpu_irq;
      _ ← fdt_node_free cpu_irq;
      _ ← fdt_node_free cpu;
      l ← clint_irqs cpus (i + 1) k';
      mret (if ph =? 0 then l else [ph; 3; ph; 7] ++ l)
  end.

Definition clint_fdt (fdt : option positive) (start size : Z) (harts : nat) : FM unit :=
  match fdt with
  | None => mret tt
  | Some _ =>
      cpus ← fdt_node_find fdt (cstr "cpus");
      irq_ext ← clint_irqs cpus 0 harts;
      _ ← fdt_node_free cpus;
      clint ← fdt_node_create_reg (cstr "clint") start;
      _ ← fdt_node_add_prop_reg clint (cstr "reg") start size;
      _ ← fdt_node_add_prop clint (cstr "compatible") (strs ["sifive,clint0"%string; "riscv,clint0"%string]) 27;
      _ ← fdt_node_add_prop_cells clint (cstr "interrupts-extended") irq_ext (u32 (Z.of_nat (length irq_ext)));
      soc ← fdt_node_find fdt (cstr "soc");
      _ ← fdt_node_add_child soc clint;
      fdt_node_free soc
  end.

Definition syscon_fdt (fdt : option positive) (base size : Z) : FM unit :=
  match fdt with
  | None => mret tt
  | Some _ =>
      test ← fdt_node_create_reg (cstr "test") base;
      _ ← fdt_node_add_prop_reg test (cstr "reg") base size;
      _ ← fdt_node_add_prop test (cstr "compatible") (strs ["sifive,test1"%string; "sifive,test0"%string; "syscon"%string]) 33;
      soc ← fdt_node_find fdt (cstr "soc");
      _ ← fdt_node_add_child soc test;
      test ← fdt_node_find_reg soc (cstr "test") base;
      _ ← fdt_node_get_phandle test;
      poweroff ← fdt_node_create (cstr "poweroff");
      _ ← fdt_node_add_prop_u32 poweroff (cstr "value") 0x5555;
      _ ← fdt_node_add_prop_u32 poweroff (cstr "offset") 0;
      ph ← fdt_node_get_phandle test;
      _ ← fdt_node_add_prop_u32 poweroff (cstr "regmap") ph;
      _ ← fdt_node_add_prop_str poweroff (cstr "compatible") (cstr "syscon-poweroff");
      _ ← fdt_node_add_child fdt poweroff;
      reboot ← fdt_node_create (cstr "reboot");
      _ ← fdt_node_add_prop_u32 reboot (cstr "value") 0x7777;
      _ ← fdt_node_add_prop_u32 reboot (cstr "offset") 0;
      ph ← fdt_node_get_phandle test;
      _ ← fdt_node_add_prop_u32 reboot (cstr "regmap") ph;
      _ ← fdt_node_free test;
      _ ← fdt_node_free soc;
      _ ← fdt_node_add_prop_str reboot (cstr "compatible") (cstr "syscon-reboot");
      fdt_node_add_child fdt reboot
  end.

Definition i2c_fdt (fdt : option positive) (start size irq_num : Z) : FM unit :=
  match fdt with
  | None => mret tt
  | Some _ =>
      i2c ← fdt_node_create_reg (cstr "i2c") start;
      _ ← fdt_node_add_prop_reg i2c (cstr "reg") start size;
      _ ← fdt_node_add_prop_str i2c (cstr "compatible") (cstr "opencores,i2c-ocores");
      soc ← fdt_node_find fdt (cstr "soc");
      plic ← fdt_node_find_reg soc (cstr "plic") 0x0C000000;
      ph ← fdt_node_get_phandle plic;
      _ ← fdt_node_add_prop_u32 i2c (cstr "interrupt-parent") ph;
      _ ← fdt_node_free plic;
      _ ← fdt_node_add_prop_u32 i2c (cstr "interrupts") irq_num;
      _ ← fdt_node_add_prop_u32 i2c (cstr "#address-cells") 1;
      _ ← fdt_node_add_prop_u32 i2c (cstr "#size-cells") 0;
      _ ← fdt_node_add_prop_u32 i2c (cstr "reg-shift") 2;
      _ ← fdt_node_add_prop_u32 i2c (cstr "reg-io-width") 1;
      _ ← fdt_node_add_prop_u32 i2c (cstr "opencores,ip-clock-frequency") 0x1312d00;
      _ ← fdt_node_add_prop_str i2c (cstr "status") (cstr "okay");
      _ ← fdt_node_add_child soc i2c;
      fdt_node_free soc
  end.

(** The node of a virtio device; both kinds have the same. *)
Definition virtio_fdt (fdt : option positive) (base size irq_num : Z) : FM unit :=
  match fdt with
  | None => mret tt
  | Some _ =>
      node ← fdt_node_create_reg (cstr "virtio_mmio") base;
      _ ← fdt_node_add_prop node (cstr "compatible") (strs ["virtio,mmio"%string]) 12;
      _ ← fdt_node_add_prop_reg node (cstr "reg") base size;
      soc ← fdt_node_find fdt (cstr "soc");
      plic ← fdt_node_find_reg soc (cstr "plic") 0x0C000000;
      ph ← fdt_node_get_phandle plic;
      _ ← fdt_node_add_prop_u32 node (cstr "interrupt-parent") ph;
      _ ← fdt_node_free plic;
      _ ← fdt_node_add_prop_u32 node (cstr "interrupts") irq_num;
      _ ← fdt_node_add_child soc node;
      fdt_node_free soc
  end.

(** The block devices, one for each image; [virtio_count] starts at 0. *)
Fixpoint disks_fdt (fdt : option positive) (virtio_count : Z) (irqs : list Z) : FM unit :=
  match irqs with
  | [] => mret tt
  | irq :: irqs' =>
      let virtio_count := virtio_count + 1 in
      _ ← virtio_fdt fdt (0x10000000 + 0x1000 * virtio_count) 0x1000 irq;
      disks_fdt fdt virtio_count irqs'
  end.

(** [init_auto_devices], as far as the tree is concerned. *)
Definition auto_devices_fdt (cfg : TreeConfig) (fdt : option positive) : FM unit :=
  let harts := tc_hart_count cfg in
  _ ← plic_fdt fdt 0x0C000000 0x400000 64 harts;
  _ ← uart_fdt fdt 0x10000000 (tc_uart_irq cfg);
  _ ← clint_fdt fdt 0x02000000 0x10000 harts;
  _ ← syscon_fdt fdt 0x1000000 0x1000;
  _ ← i2c_fdt fdt 0x10030000 0x20 (tc_i2c_irq cfg);
  disks_fdt fdt 0 (tc_disk_irqs cfg).

Definition machine_fdt (cfg : TreeConfig) : FM (option positive) :=
  fdt ← init_fdt cfg;
  _ ← auto_devices_fdt cfg fdt;
  mret fdt.
