(* ===== verification/Gdb.v ===== *)
(** * The GDB stub

    [src/gdbstub.cpp]: the packets of GDB's remote protocol, the loop that
    takes them from the bytes of the client, and the commands. Strings are
    lists of characters ([Fdt.str]); an exception of [std::stoul] or [substr]
    ends the thread, and is [Throw]. The socket takes what is sent to it. *)

From Stdlib Require Import Strings.String.
From S2P Require Import Prelude Defs MemoryMap SelfMod Tlb Decode Hart State Mmu Mmio Syscon Fdt.

(** ** Strings *)

Definition npos : Z := 2 ^ 64 - 1.

(** [s.find(c)]. *)
Fixpoint find_from (i c : Z) (s : list Z) : Z :=
  match s with [] => npos | x :: s' => if x =? c then i else find_from (i + 1) c s' end.
Definition find_char (c : Z) (s : list Z) : Z := find_from 0 c s.

(** [s.substr(pos, n)] and [s.substr(pos)]. *)
Definition substr (s : list Z) (pos n : Z) : outcome (list Z) :=
  let size := Z.of_nat (length s) in
  if size <? pos then Throw out_of_range else Ret (take (Z.to_nat (Z.min n size)) (drop (Z.to_nat pos) s)).
Definition substr_from (s : list Z) (pos : Z) : outcome (list Z) := substr s pos npos.

Definition hex_value (c : Z) : option Z :=
  if (48 <=? c) && (c <=? 57) then Some (c - 48)
  else if (97 <=? c) && (c <=? 102) then Some (c - 87)
  else if (65 <=? c) && (c <=? 70) then Some (c - 55)
  else None.

(** The digits at the front of [s]: how many, and their value after [v]. *)
Fixpoint scan_hex (s : list Z) (n v : Z) : Z * Z :=
  match s with
  | [] => (n, v)
  | c :: s' => match hex_value c with Some d => scan_hex s' (n + 1) (v * 16 + d) | None => (n, v) end
  end.

Definition is_space (c : Z) : bool := (c =? 32) || ((9 <=? c) && (c <=? 13)).

Fixpoint skip_space (s : list Z) : list Z :=
  match s with c :: s' => if is_space c then skip_space s' else s | [] => [] end.

(** [std::stoul(s, nullptr, 16)]: blanks, a sign, the prefix [0x], digits. *)
Definition stoul (s : list Z) : outcome Z :=
  let s := skip_space s in
  let '(neg, s) := match s with
                   | c :: s' => if c =? 45 then (true, s') else if c =? 43 then (false, s') else (false, s)
                   | [] => (false, s)
                   end in
  let '(prefix, digits) := match s with
                | a :: b :: s' => if (a =? 48) && ((b =? 120) || (b =? 88)) then (true, s') else (false, s)
                | _ => (false, s)
                end in
  let '(n, v) := scan_hex digits 0 0 in
  if n =? 0 then (if prefix : bool then Ret 0 else Throw invalid_argument)
  else if 2 ^ 64 <=? v then Throw out_of_range
  else Ret (u64 (if neg : bool then - v else v)).

(** [{:02x}], [{}] and [{:02d}] of [std::format]. *)
Definition format_02x (v : Z) : list Z := hex_fixed 2 v.

Fixpoint dec_digits (n : nat) (v : Z) : list Z :=
  match n with
  | O => []
  | S n' => (if v <? 10 then [] else dec_digits n' (v / 10)) ++ [48 + v mod 10]
  end.
Definition format_dec (v : Z) : list Z := dec_digits 20 v.
Definition format_02d (v : Z) : list Z := if v <? 10 then 48 :: format_dec v else format_dec v.

Definition to_little_endian_hex (value : Z) : list Z :=
  concat (map (fun i => format_02x (Z.land (Z.shiftr value (i * 8)) 0xFF)) (seqZ 0 8)).

(** From [size_bytes] down to 0. *)
Fixpoint swap_from (value : list Z) (i : nat) : outcome (list Z) :=
  b ← substr value (Z.of_nat i * 2) 2;
  match i with
  | O => mret b
  | S i' => rest ← swap_from value i'; mret (b ++ rest)
  end.
Definition swapHexEndian (value : list Z) (size_bytes : nat) : outcome (list Z) := swap_from value size_bytes.

Definition sum_bytes (buffer : list Z) : Z := foldl (fun sum ch => u8 (sum + ch)) 0 buffer.

(** ["${}#{:02x}"]. *)
Definition format_packet (buffer : list Z) : list Z := [36] ++ buffer ++ [35] ++ format_02x (sum_bytes buffer).

Definition unformat_packet (buffer : list Z) : outcome (list Z) :=
  let size := Z.of_nat (length buffer) in
  if size <? 4 then mret [] else substr buffer 1 (size - 4).

(** ** The description of the registers *)

(** A register: its name, number, kind ([g], [f], [c] or [v]), and its fields
    with their first and last bits. *)
Record XmlReg := mkXmlReg { x_name : string; x_num : Z; x_kind : string; x_fields : option (list (string * Z * Z)) }.

Definition CSR_MSCRATCH : Z := 0x340.
Definition CSR_SEDELEG : Z := 0x102.
Definition CSR_SIDELEG : Z := 0x103.
Definition CSR_SSCRATCH : Z := 0x140.

Definition xml_gpr : list XmlReg := [
  mkXmlReg "zero" 0 "g" None; mkXmlReg "ra" 1 "g" None; mkXmlReg "sp" 2 "g" None; mkXmlReg "gp" 3 "g" None;
  mkXmlReg "tp" 4 "g" None; mkXmlReg "t0" 5 "g" None; mkXmlReg "t1" 6 "g" None; mkXmlReg "t2" 7 "g" None;
  mkXmlReg "fp" 8 "g" None; mkXmlReg "s1" 9 "g" None; mkXmlReg "a0" 10 "g" None; mkXmlReg "a1" 11 "g" None;
  mkXmlReg "a2" 12 "g" None; mkXmlReg "a3" 13 "g" None; mkXmlReg "a4" 14 "g" None; mkXmlReg "a5" 15 "g" None;
  mkXmlReg "a6" 16 "g" None; mkXmlReg "a7" 17 "g" None; mkXmlReg "s2" 18 "g" None; mkXmlReg "s3" 19 "g" None;
  mkXmlReg "s4" 20 "g" None; mkXmlReg "s5" 21 "g" None; mkXmlReg "s6" 22 "g" None; mkXmlReg "s7" 23 "g" None;
  mkXmlReg "s8" 24 "g" None; mkXmlReg "s9" 25 "g" None; mkXmlReg "s10" 26 "g" None; mkXmlReg "s11" 27 "g" None;
  mkXmlReg "t3" 28 "g" None; mkXmlReg "t4" 29 "g" None; mkXmlReg "t5" 30 "g" None; mkXmlReg "t6" 31 "g" None;
  mkXmlReg "pc" 32 "g" None]%string.

Definition xml_fpr : list XmlReg := [
  mkXmlReg "f0" 33 "f" None; mkXmlReg "f1" 34 "f" None; mkXmlReg "f2" 35 "f" None; mkXmlReg "f3" 36 "f" None;
  mkXmlReg "f4" 37 "f" None; mkXmlReg "f5" 38 "f" None; mkXmlReg "f6" 39 "f" None; mkXmlReg "f7" 40 "f" None;
  mkXmlReg "f8" 41 "f" None; mkXmlReg "f9" 42 "f" None; mkXmlReg "f10" 43 "f" None; mkXmlReg "f11" 44 "f" None;
  mkXmlReg "f12" 45 "f" None; mkXmlReg "f13" 46 "f" None; mkXmlReg "f14" 47 "f" None; mkXmlReg "f15" 48 "f" None;
  mkXmlReg "f16" 49 "f" None; mkXmlReg "f17" 50 "f" None; mkXmlReg "f18" 51 "f" None; mkXmlReg "f19" 52 "f" None;
  mkXmlReg "f20" 53 "f" None; mkXmlReg "f21" 54 "f" None; mkXmlReg "f22" 55 "f" None; mkXmlReg "f23" 56 "f" None;
  mkXmlReg "f24" 57 "f" None; mkXmlReg "f25" 58 "f" None; mkXmlReg "f26" 59 "f" None; mkXmlReg "f27" 60 "f" None;
  mkXmlReg "f28" 61 "f" None; mkXmlReg "f29" 62 "f" None; mkXmlReg "f30" 63 "f" None; mkXmlReg "f31" 64 "f" None]%string.

Definition xml_csr : list XmlReg := [

  mkXmlReg "mstatus" CSR_MSTATUS "c" (Some [("SIE", 1, 1); ("MIE", 3, 3); ("SPIE", 5, 5); ("UBE", 6, 6); ("MPIE", 7, 7); ("SPP", 8, 8); ("VS", 9, 10); ("MPP", 11, 12); ("FS", 13, 14); ("XS", 15, 16); ("MPRV", 17, 17); ("SUM", 18, 18); ("MXR", 19, 19); ("TVM", 20, 20); ("TW", 21, 21); ("TSR", 22, 22)]);
  mkXmlReg "cycle" CSR_CYCLE "c" None; mkXmlReg "time" CSR_TIME "c" None; mkXmlReg "instret" CSR_INSTRET "c" None;
  mkXmlReg "misa" CSR_MISA "c" None; mkXmlReg "medeleg" CSR_MEDELEG "c" None; mkXmlReg "mideleg" CSR_MIDELEG "c" None;
  mkXmlReg "mie" CSR_MIE "c" None; mkXmlReg "mip" CSR_MIP "c" None; mkXmlReg "mtvec" CSR_MTVEC "c" None;
  mkXmlReg "mcounteren" CSR_MCOUNTEREN "c" None; mkXmlReg "mscratch" CSR_MSCRATCH "c" None;
  mkXmlReg "mhartid" CSR_MHARTID "c" None; mkXmlReg "mepc" CSR_MEPC "c" None; mkXmlReg "mcause" CSR_MCAUSE "c" None;
  mkXmlReg "mtval" CSR_MTVAL "c" None;
  mkXmlReg "sstatus" CSR_SSTATUS "c" (Some [("SIE", 1, 1); ("SPIE", 5, 5); ("UBE", 6, 6); ("SPP", 8, 8); ("VS", 9, 10); ("FS", 13, 14); ("XS", 15, 16)]);
  mkXmlReg "sedeleg" CSR_SEDELEG "c" None; mkXmlReg "sideleg" CSR_SIDELEG "c" None; mkXmlReg "sie" CSR_SIE "c" None;
  mkXmlReg "sip" CSR_SIP "c" None; mkXmlReg "stvec" CSR_STVEC "c" None; mkXmlReg "scounteren" CSR_SCOUNTEREN "c" None;
  mkXmlReg "sscratch" CSR_SSCRATCH "c" None; mkXmlReg "sepc" CSR_SEPC "c" None; mkXmlReg "scause" CSR_SCAUSE "c" None;
  mkXmlReg "stval" CSR_STVAL "c" None; mkXmlReg "stimecmp" CSR_STIMECMP "c" None;
  mkXmlReg "satp" CSR_SATP "c" (Some [("MODE", 60, 63); ("ASID", 44, 59); ("PPN", 0, 43)])]%string.

Definition xml_fcsr : list XmlReg := [

  mkXmlReg "fcsr" (CSR_FCSR + 5000) "c" (Some [("FRM", 5, 7); ("NX", 0, 0); ("UF", 1, 1); ("OF", 2, 2); ("DZ", 3, 3); ("NV", 4, 4)])]%string.

Definition xml_priv : list XmlReg := [
  mkXmlReg "priv" 65 "v" None]%string.

(** [USE_FPU] is the build's. *)
Definition xml_data (USE_FPU : bool) : list XmlReg :=
  xml_gpr ++ (if USE_FPU then xml_fpr else []) ++ xml_csr ++ (if USE_FPU then xml_fcsr else []) ++ xml_priv.

Definition dq : list Z := [34].
Definition endl : list Z := [10].
Definition attr (name : string) (value : list Z) : list Z := str name ++ [61] ++ dq ++ value ++ dq.

Definition xml_field (f : string * Z * Z) : list Z :=
  let '(name, lo, hi) := f in
  str "      <field " ++ attr "name" (str name) ++ str " " ++ attr "start" (format_dec lo) ++ str " " ++
    attr "end" (format_dec hi) ++ str "/>" ++ endl.

(** What follows the attributes of a register. *)
Definition xml_tail (r : XmlReg) : list Z :=
  match x_fields r with
  | Some fields => str ">" ++ endl ++ concat (map xml_field fields) ++ str "    </reg>" ++ endl
  | None => str "/>" ++ endl
  end.

Definition xml_reg (numbered : bool) (r : XmlReg) : list Z :=
  str "    <reg " ++ attr "name" (str (x_name r)) ++ str " " ++ attr "bitsize" (format_dec 64) ++
    (if numbered then str " " ++ attr "regnum" (format_dec (x_num r)) else []) ++ xml_tail r.

Definition xml_fpu_reg (r : XmlReg) : list Z :=
  str "    <reg " ++ attr "name" (str (x_name r)) ++ str " " ++ attr "bitsize" (format_dec 64) ++ str " " ++
    attr "type" (str "riscv_double") ++ str "/>" ++ endl.

(** The registers of a kind, in the order of the table. *)
Definition xml_regs (USE_FPU : bool) (kind : string) (line : XmlReg -> list Z) : list Z :=
  concat (map (fun r => if String.eqb (x_kind r) kind then line r else []) (xml_data USE_FPU)).

Definition xml_feature (name : string) : list Z := str "  <feature " ++ attr "name" (str name) ++ str ">" ++ endl.
Definition xml_end_feature : list Z := str "  </feature>" ++ endl.

Definition create_xml (USE_FPU : bool) : list Z :=
  str "<?xml " ++ attr "version" (str "1.0") ++ str "?>" ++ endl ++
  str "    <!DOCTYPE target SYSTEM " ++ dq ++ str "gdb-target.dtd" ++ dq ++ str ">" ++ endl ++
  str "    <target " ++ attr "version" (str "1.0") ++ str ">" ++ endl ++
  str "    <architecture>riscv:rv64</architecture>" ++ endl ++
  str "    <feature " ++ attr "name" (str "org.gnu.gdb.riscv.cpu") ++ str ">" ++ endl ++
  xml_regs USE_FPU "g" (xml_reg true) ++
  (if USE_FPU then
     xml_end_feature ++ xml_feature "org.gnu.gdb.riscv.fpu" ++
     str "    <union " ++ attr "id" (str "riscv_double") ++ str ">" ++ endl ++
     str "      <field " ++ attr "name" (str "float") ++ str " " ++ attr "type" (str "ieee_single") ++ str "/>" ++ endl ++
     str "      <field " ++ attr "name" (str "double") ++ str " " ++ attr "type" (str "ieee_double") ++ str "/>" ++ endl ++
     str "    </union>" ++ endl ++
     xml_regs USE_FPU "f" xml_fpu_reg
   else []) ++
  xml_end_feature ++ xml_feature "org.gnu.gdb.riscv.virtual" ++
  xml_regs USE_FPU "v" (xml_reg false) ++
  xml_end_feature ++ xml_feature "org.gnu.gdb.riscv.csr" ++
  xml_regs USE_FPU "c" (xml_reg true) ++
  xml_end_feature ++ str "</target>" ++ endl.

(** ** The stub *)

(** The world of the active hart, whether there is one, the fields of
    [Machine] and of [GDBStub] the stub works on, and what it has sent. *)
Record Stub (B : Type) := mkStub {
  g_world : State B;
  g_active : bool;
  g_mstate : MachineState;
  gdb_single_step : bool;
  received_sigint : bool;
  is_executing : bool;
  breakpoints : list Z;
  xml_target_description : list Z;
  g_sent : list (list Z) }.
Arguments mkStub {B}.
Arguments g_world {B}.
Arguments g_active {B}.
Arguments g_mstate {B}.
Arguments gdb_single_step {B}.
Arguments received_sigint {B}.
Arguments is_executing {B}.
Arguments breakpoints {B}.
Arguments xml_target_description {B}.
Arguments g_sent {B}.

Section stub.
Context {B : Type} `{!BusOps B}.
Context (USE_FPU : bool).

Definition set_world (x : State B) (g : Stub B) : Stub B :=
  mkStub x (g_active g) (g_mstate g) (gdb_single_step g) (received_sigint g) (is_executing g) (breakpoints g) (xml_target_description g) (g_sent g).
Definition set_mstate (x : MachineState) (g : Stub B) : Stub B :=
  mkStub (g_world g) (g_active g) x (gdb_single_step g) (received_sigint g) (is_executing g) (breakpoints g) (xml_target_description g) (g_sent g).
Definition set_step (x : bool) (g : Stub B) : Stub B :=
  mkStub (g_world g) (g_active g) (g_mstate g) x (received_sigint g) (is_executing g) (breakpoints g) (xml_target_description g) (g_sent g).
Definition set_sigint (x : bool) (g : Stub B) : Stub B :=
  mkStub (g_world g) (g_active g) (g_mstate g) (gdb_single_step g) x (is_executing g) (breakpoints g) (xml_target_description g) (g_sent g).
Definition set_executing (x : bool) (g : Stub B) : Stub B :=
  mkStub (g_world g) (g_active g) (g_mstate g) (gdb_single_step g) (received_sigint g) x (breakpoints g) (xml_target_description g) (g_sent g).
Definition set_breakpoints (x : list Z) (g : Stub B) : Stub B :=
  mkStub (g_world g) (g_active g) (g_mstate g) (gdb_single_step g) (received_sigint g) (is_executing g) x (xml_target_description g) (g_sent g).
Definition set_xml (x : list Z) (g : Stub B) : Stub B :=
  mkStub (g_world g) (g_active g) (g_mstate g) (gdb_single_step g) (received_sigint g) (is_executing g) (breakpoints g) x (g_sent g).
Definition add_sent (x : list Z) (g : Stub B) : Stub B :=
  mkStub (g_world g) (g_active g) (g_mstate g) (gdb_single_step g) (received_sigint g) (is_executing g) (breakpoints g) (xml_target_description g) (g_sent g ++ [x]).

Definition GM (A : Type) : Type := ST (Stub B) A.

Definition lift_out {A} (m : outcome A) : GM A := fun g =>
  match m with Ret a => Ret (a, g) | Throw e => Throw e | Undef => Undef end.
Definition on_world {A} (m : M B A) : GM A := fun g =>
  match m (g_world g) with Ret (a, s) => Ret (a, set_world s g) | Throw e => Throw e | Undef => Undef end.
Definition the_hart : GM Hart := gets (fun g => hart (g_world g)).

Definition send_raw (buffer : list Z) : GM unit := modify (add_sent buffer).
Definition send_packet (buffer : list Z) : GM unit := send_raw (format_packet buffer).
Definition reply (s : string) : GM unit := send_packet (str s).

(** [Machine::stop] on the stub's thread: the machine is off, and its thread is
    waited for. [GDBStub::stop] does nothing once [is_executing] is false. *)
Definition stop : GM unit := _ ← modify (set_executing false); modify (set_mstate Off).

Definition resume (step : bool) : GM unit := _ ← modify (set_step step); modify (set_mstate Running).

(** ** Commands *)

(** [qXfer:features:read:target.xml:start,length]. *)
Definition xfer (packet : list Z) : GM unit :=
  dat ← lift_out (substr_from packet 31);
  let comma := find_char 44 dat in
  if comma =? npos then mret tt else
  startp ← lift_out (substr dat 0 comma ≫= stoul);
  endp ← lift_out (substr_from dat (u64 (comma + 1)) ≫= stoul);
  xml ← gets xml_target_description;
  let response_prefix := if Z.of_nat (length xml) <=? u64 (startp + endp) then str "l" else str "m" in
  chunk ← lift_out (substr xml startp endp);
  send_packet (response_prefix ++ chunk).

Definition vcont (packet : list Z) : GM unit :=
  args ← lift_out (substr_from packet 6);
  match args with
  | [] => mret tt
  | a :: _ =>
      if a =? 99 then _ ← modify (set_sigint false); resume false
      else if a =? 115 then _ ← resume true; reply "S05"
      else reply ""
  end.

(** A cast to [PrivilegeMode] of a number that names no mode has no result. *)
Definition put_mode (num : Z) : M B unit := if u32 num <=? 3 then mod_hart (set_mode (mode_of (u32 num))) else undef.

Definition read_csr (idx : Z) : M B Z :=
  let csr_idx := if 5000 <=? idx then u64 (idx - 5000) else idx in on_hart (csr_read (u16 csr_idx)).

(** The register of a number. *)
Definition get_reg (idx : Z) : M B Z :=
  if idx <=? 31 then reg idx
  else if idx =? 32 then gets (fun s => pc (hart s))
  else if idx =? 33 then gets (fun s => u8 (mode_val (mode (hart s))))
  else if idx <? 64 then (if USE_FPU then gets (fun s => fpr (hart s) (idx - 34)) else mret 0)
  else read_csr idx.

Definition put_reg (idx num : Z) : M B unit :=
  if idx <=? 31 then setreg idx num
  else if idx =? 32 then mod_hart (set_pc num)
  else if idx =? 33 then put_mode num
  else if idx <? 64 then (if USE_FPU then mod_hart (put_fpr (idx - 34) num) else mret tt)
  else on_hart (csr_write (u16 idx) num).

(** A command that needs the active hart. *)
Definition with_hart (m : GM unit) : GM unit := a ← gets g_active; if (a : bool) then m else reply "E01".

Definition read_reg (packet : list Z) : GM unit :=
  idx ← lift_out (substr_from packet 1 ≫= stoul);
  v ← on_world (get_reg idx);
  send_packet (to_little_endian_hex v).

(** [num |= stoul(data.substr(i * 2, 2)) << (i * 8)], from byte [i] on, [n]
    bytes at most. *)
Fixpoint le_number (n : nat) (i num : Z) (data : list Z) : outcome Z :=
  match n with
  | O => Ret num
  | S n' =>
      if i * 2 + 1 <? Z.of_nat (length data) then
        b ← (substr data (i * 2) 2 ≫= stoul);
        le_number n' (i + 1) (Z.lor num (u64 (Z.shiftl b (i * 8)))) data
      else Ret num
  end.

Definition write_reg (packet : list Z) : GM unit :=
  idx ← lift_out (substr_from packet 1 ≫= stoul);
  let eq_pos := find_char 61 packet in
  if eq_pos =? npos then reply "E01" else
  data ← lift_out (substr_from packet (eq_pos + 1));
  num ← lift_out (le_number 8 0 0 data);
  _ ← on_world (put_reg idx num);
  reply "OK".

Definition read_all : GM unit :=
  h ← the_hart;
  send_packet (concat (map (fun i => to_little_endian_hex (gpr h i)) (seqZ 0 32)) ++ to_little_endian_hex (pc h)).

(** [stoull(swapHexEndian(data.substr(i * 16, 16), 8))]. *)
Definition swapped (data : list Z) (i : Z) : outcome Z :=
  s ← substr data (i * 16) 16; s ← swapHexEndian s 8; stoul s.

Fixpoint put_all (l : list Z) (data : list Z) : GM unit :=
  match l with
  | [] => mret tt
  | i :: l' => v ← lift_out (swapped data i); _ ← on_world (setreg i v); put_all l' data
  end.

Definition write_all (packet : list Z) : GM unit :=
  data ← lift_out (substr_from packet 1);
  if Z.of_nat (length data) <? 33 * 16 then reply "E01" else
  _ ← put_all (seqZ 0 32) data;
  v ← lift_out (swapped data 32);
  _ ← on_world (mod_hart (set_pc v));
  reply "OK".

(** ** Guest memory *)

(** The physical address of the next byte, and how many follow it: all of them
    without paging, those of the page with it. [None] is a failed translation. *)
Definition gdb_chunk (type : AccessType) (address size : Z) : M B (option (Z * Z)) :=
  paging ← gets (fun s => negb (getf (satp (hart s)) Satp.mode =? 0));
  if (paging : bool) then
    '(ret, phys) ← translate type address;
    mret (if mr_success ret then Some (phys, Z.min size (PAGE_SIZE - Z.land address (PAGE_SIZE - 1))) else None)
  else mret (Some (address, size)).

(** The bytes of a chunk, from byte [i] on; false when the bus refuses one. *)
Fixpoint store_bytes (n : nat) (phys i data_offset : Z) (data : list Z) : GM bool :=
  match n with
  | O => mret true
  | S n' =>
      b ← lift_out (substr data (u64 (u64 (data_offset + i) * 2)) 2 ≫= stoul);
      out ← on_world (write (u64 (phys + i)) Byte (u8 b) true);
      if mr_success out then store_bytes n' phys (i + 1) data_offset data else mret false
  end.

Fixpoint load_bytes (n : nat) (phys i : Z) (resp : list Z) : GM (option (list Z)) :=
  match n with
  | O => mret (Some resp)
  | S n' =>
      '(out, val) ← on_world (read (u64 (phys + i)) Byte true);
      if mr_success out then load_bytes n' phys (i + 1) (resp ++ format_02x val) else mret None
  end.

(** [while(size)]; [fuel] bounds the chunks. *)
Fixpoint store_range (fuel : nat) (address size data_offset : Z) (data : list Z) : GM bool :=
  if size =? 0 then mret true else
  match fuel with
  | O => undef
  | S fuel =>
      c ← on_world (gdb_chunk STORE address size);
      match c with
      | None => mret false
      | Some (phys, chunk) =>
          ok ← store_bytes (Z.to_nat chunk) phys 0 data_offset data;
          if (ok : bool) then store_range fuel (u64 (address + chunk)) (size - chunk) (u64 (data_offset + chunk)) data
          else mret false
      end
  end.

Fixpoint load_range (fuel : nat) (address size : Z) (resp : list Z) : GM (option (list Z)) :=
  if size =? 0 then mret (Some resp) else
  match fuel with
  | O => undef
  | S fuel =>
      c ← on_world (gdb_chunk LOAD address size);
      match c with
      | None => mret None
      | Some (phys, chunk) =>
          r ← load_bytes (Z.to_nat chunk) phys 0 resp;
          match r with
          | Some resp => load_range fuel (u64 (address + chunk)) (size - chunk) resp
          | None => mret None
          end
      end
  end.

(** The loops use [active_hart] without a test. *)
Definition need_hart (size : Z) : GM unit := a ← gets g_active; if negb a && negb (size =? 0) then undef else mret tt.

Definition gdb_store (packet : list Z) : GM unit :=
  let comma := find_char 44 packet in
  let colon := find_char 58 packet in
  address ← lift_out (substr packet 1 comma ≫= stoul);
  size ← lift_out (substr packet (u64 (comma + 1)) (u64 (colon - comma - 1)) ≫= stoul);
  data ← lift_out (substr_from packet (u64 (colon + 1)));
  _ ← need_hart size;
  ok ← store_range (Z.to_nat size) address size 0 data;
  reply (if (ok : bool) then "OK" else "E01").

Definition gdb_load (packet : list Z) : GM unit :=
  let comma := find_char 44 packet in
  address ← lift_out (substr packet 1 comma ≫= stoul);
  size ← lift_out (substr_from packet (u64 (comma + 1)) ≫= stoul);
  _ ← need_hart size;
  r ← load_range (Z.to_nat size) address size [];
  match r with Some resp => send_packet resp | None => reply "E01" end.

(** ** Breakpoints *)

(** [std::find] and [erase]. *)
Definition has_breakpoint (a : Z) (l : list Z) : bool := existsb (Z.eqb a) l.
Fixpoint erase_breakpoint (a : Z) (l : list Z) : list Z :=
  match l with [] => [] | x :: l' => if x =? a then l' else x :: erase_breakpoint a l' end.

(** The address of a [Z0] or [z0] packet. *)
Definition bp_addr (packet : list Z) (k : Z -> GM unit) : GM unit :=
  let first_comma := find_char 44 packet in
  if first_comma =? npos then reply "E01" else
  dat ← lift_out (substr_from packet (first_comma + 1));
  addr ← lift_out (substr dat 0 (find_char 44 dat) ≫= stoul);
  k addr.

Definition add_breakpoint (packet : list Z) : GM unit := bp_addr packet (fun addr =>
  l ← gets breakpoints;
  if has_breakpoint addr l then reply "E01"
  else _ ← modify (set_breakpoints (l ++ [addr])); reply "OK").

Definition remove_breakpoint (packet : list Z) : GM unit := bp_addr packet (fun addr =>
  l ← gets breakpoints;
  if has_breakpoint addr l then _ ← modify (set_breakpoints (erase_breakpoint addr l)); reply "OK"
  else reply "E01").

(** ** Packets *)

Definition starts (p : string) (packet : list Z) : bool := starts_with (str p) packet.

(** [parse_packet], from the unwrapped packet on. *)
Definition run_packet (packet : list Z) : GM unit :=
  if starts "qSupported:" packet then
    reply "PacketSize=4096;qXfer:features:read+;vContSupported+;swbreak+;hwbreak+;"
  else if starts "qXfer:features:read:target.xml:" packet then xfer packet
  else if starts "vCont?" packet then reply "vCont;s;S;c;C"
  else if starts "vCont;" packet then vcont packet
  else if starts "k" packet then stop
  else if starts "c" packet then _ ← modify (set_sigint false); resume false
  else if starts "s" packet then _ ← resume true; reply "S05"
  else if starts "?" packet then
    a ← gets g_active;
    if (a : bool) then h ← the_hart; send_packet (str "S" ++ format_02d (csr_get h CSR_MCAUSE)) else reply "S05"
  else if starts "qfThreadInfo" packet then reply "m1"
  else if starts "Hc" packet then reply "OK"
  else if starts "qC" packet then reply "QC1"
  else if starts "qAttached" packet then reply "0"
  else if starts "Hg" packet then reply "OK"
  else if starts "p" packet then with_hart (read_reg packet)
  else if starts "P" packet then with_hart (write_reg packet)
  else if starts "g" packet then with_hart read_all
  else if starts "G" packet then with_hart (write_all packet)
  else if starts "M" packet then gdb_store packet
  else if starts "m" packet then gdb_load packet
  else if starts "Z0" packet then add_breakpoint packet
  else if starts "z0" packet then remove_breakpoint packet
  else reply "".

Definition parse_packet (buffer : list Z) : GM unit :=
  match buffer with
  | 36 :: _ => packet ← lift_out (unformat_packet buffer); match packet with [] => mret tt | _ => run_packet packet end
  | _ => mret tt
  end.

(** ** The bytes of a client *)

Record Client := mkClient { packet_accumulator : list Z; raw_packet_mode : bool }.
Definition new_client : Client := mkClient [] false.

Definition receive (c : Client) (ch : Z) : GM Client :=
  if negb (raw_packet_mode c) && (ch =? 3) then
    _ ← send_raw (str "+");
    _ ← modify (set_sigint true);
    _ ← modify (set_mstate Halted);
    _ ← reply "S02";
    mret c
  else if ch =? 36 then mret (mkClient [36] true)
  else if raw_packet_mode c then
    let acc := packet_accumulator c ++ [ch] in
    let hash_pos := find_char 35 acc in
    if negb (hash_pos =? npos) && (Z.of_nat (length acc) =? hash_pos + 3) then
      _ ← send_raw (str "+");
      _ ← parse_packet acc;
      mret (mkClient [] false)
    else mret (mkClient acc true)
  else mret c.

(** The client transaction loop, over the bytes that are received. *)
Fixpoint client_loop (c : Client) (input : list Z) : GM Client :=
  match input with
  | [] => mret c
  | ch :: rest =>
      e ← gets is_executing;
      if (e : bool) then c ← receive c ch; client_loop c rest else mret c
  end.

(** [start]: the description is made, and hart 0 is the active one. *)
Definition start (harts : bool) : GM unit :=
  _ ← modify (set_xml (create_xml USE_FPU));
  modify (fun g => mkStub (g_world g) (harts || g_active g) (g_mstate g) (gdb_single_step g) (received_sigint g) true (breakpoints g) (xml_target_description g) (g_sent g)).

Definition handle_gdb_breakpoints : GM unit :=
  e ← gets is_executing;
  if negb e then mret tt else
  a ← gets g_active;
  if negb a then mret tt else
  h ← the_hart;
  l ← gets breakpoints;
  if has_breakpoint (pc h) l then
    _ ← modify (set_mstate Halted);
    sig ← gets received_sigint;
    _ ← reply (if (sig : bool) then "S02" else "S05");
    modify (set_sigint false)
  else mret tt.

(** What the work loop does with the stub after a pass of the harts. *)
Definition gdb_after_pass : GM unit :=
  st ← gets gdb_single_step;
  _ ← (if (st : bool) then _ ← modify (set_step false); modify (set_mstate Halted) else mret tt);
  handle_gdb_breakpoints.
End stub.
