(* ===== verification/GdbSpec.v ===== *)
(** * What the GDB stub does for its client

    The packets a client sends are the commands the stub runs; registers and
    memory written are read back; the description of the registers arrives
    whole; breakpoints are a set that stops the machine. *)

From Stdlib Require Import Strings.String.
From S2P Require Import Prelude Defs MemoryMap SelfMod Tlb Decode Hart State Mmu Mmio Rv64i Syscon Fdt Gdb.

(** ** Strings *)

Lemma find_from_ge i c s : 0 <= i -> find_from i c s = npos \/ i <= find_from i c s < i + Z.of_nat (length s).
Proof.
  revert i. induction s as [|x s IH]; intros i Hi; cbn [find_from]; [by left|]. destruct (x =? c); [right; cbn; lia|].
  destruct (IH (i + 1)) as [->|?]; [lia|by left|right; cbn [length]; lia].
Qed.

Lemma find_from_app i c s rest : Forall (fun x => x <> c) s -> find_from i c (s ++ c :: rest) = i + Z.of_nat (length s).
Proof.
  intros Hs. revert i. induction Hs as [|x s Hx Hs IH]; intros i; cbn [app find_from length].
  - rewrite Z.eqb_refl. lia.
  - rewrite (proj2 (Z.eqb_neq x c)), IH by done. lia.
Qed.

Lemma find_from_none i c s : Forall (fun x => x <> c) s -> find_from i c s = npos.
Proof.
  intros Hs. revert i. induction Hs as [|x s Hx Hs IH]; intros i; cbn [find_from]; [done|]. by rewrite (proj2 (Z.eqb_neq x c)), IH.
Qed.

Lemma substr_mid (a b c : list Z) pos n : pos = Z.of_nat (length a) -> n = Z.of_nat (length b) -> substr (a ++ b ++ c) pos n = Ret b.
Proof.
  intros -> ->. unfold substr. rewrite !length_app, (proj2 (Z.ltb_ge _ _)) by lia. rewrite Nat2Z.id, drop_app_length.
  rewrite Z.min_l, Nat2Z.id by lia. by rewrite take_app_length.
Qed.

Lemma substr_rest (a b : list Z) pos : pos = Z.of_nat (length a) -> Z.of_nat (length (a ++ b)) <= npos -> substr_from (a ++ b) pos = Ret b.
Proof.
  intros -> Hl. unfold substr_from, substr. rewrite (proj2 (Z.ltb_ge _ _)) by (rewrite length_app; lia).
  rewrite Z.min_r, !Nat2Z.id, drop_app_length by done. f_equal. apply take_ge. rewrite length_app. lia.
Qed.

(** A prefix of a known length, of a string that can be longer. *)
Lemma substr_front (a b : list Z) n : n = Z.of_nat (length a) -> substr (a ++ b) 0 n = Ret a.
Proof. intros Hn. by apply (substr_mid [] a b). Qed.

(** ** Hexadecimal numbers *)

(** The number written by digits of the values [ds], after [v]. *)
Definition hex_number (v : Z) (ds : list Z) : Z := foldl (fun v d => v * 16 + d) v ds.

Lemma hex_value_digit d : 0 <= d < 16 -> hex_value (hex_digit d) = Some d.
Proof.
  intros Hd. unfold hex_value, hex_digit. destruct (Z.ltb_spec d 10).
  - rewrite (proj2 (Z.leb_le 48 _)), (proj2 (Z.leb_le _ 57)) by lia. cbn [andb]. f_equal. lia.
  - rewrite (proj2 (Z.leb_gt _ 57)), andb_false_r by lia. rewrite (proj2 (Z.leb_le 97 _)), (proj2 (Z.leb_le _ 102)) by lia. cbn [andb]. f_equal. lia.
Qed.

(** What ends a number: nothing, or a character that is no digit and no [x]. *)
Definition no_digit (s : list Z) : Prop := match s with [] => True | c :: _ => hex_value c = None /\ c <> 120 /\ c <> 88 end.

Lemma scan_hex_app ds rest n v : Forall (fun d => 0 <= d < 16) ds -> no_digit rest ->
  scan_hex (map hex_digit ds ++ rest) n v = (n + Z.of_nat (length ds), hex_number v ds).
Proof.
  intros Hd Hr. revert n v. induction Hd as [|d ds Hd Hds IH]; intros n v; cbn [map app].
  - cbn [length hex_number foldl]. rewrite Z.add_0_r. destruct rest as [|c rest]; [done|]. cbn [scan_hex]. by destruct Hr as [-> _].
  - cbn [scan_hex]. rewrite hex_value_digit, IH by done. cbn [length]. f_equal. lia.
Qed.

Lemma hex_digit_range d : 0 <= d < 16 -> 48 <= hex_digit d <= 57 \/ 97 <= hex_digit d <= 102.
Proof. unfold hex_digit. destruct (Z.ltb_spec d 10); lia. Qed.

Lemma stoul_digits ds rest : ds <> [] -> Forall (fun d => 0 <= d < 16) ds -> no_digit rest -> 0 <= hex_number 0 ds < 2 ^ 64 ->
  stoul (map hex_digit ds ++ rest) = Ret (hex_number 0 ds).
Proof.
  intros Hne Hd Hr Hb. destruct ds as [|d ds]; [done|]. apply Forall_cons in Hd as [Hd0 Hd]. pose proof (hex_digit_range d Hd0) as Hc.
  pose proof (scan_hex_app (d :: ds) rest 0 0 (Forall_cons_2 _ _ _ Hd0 Hd) Hr) as Hs. cbn [map app] in Hs |- *.
  unfold stoul. cbn [skip_space]. assert (is_space (hex_digit d) = false) as ->.
  { unfold is_space. rewrite (proj2 (Z.eqb_neq _ 32)), (proj2 (Z.leb_gt _ 13)), andb_false_r by lia. done. }
  cbv iota. rewrite (proj2 (Z.eqb_neq (hex_digit d) 45)), (proj2 (Z.eqb_neq (hex_digit d) 43)) by lia.
  assert (forall b l, map hex_digit ds ++ rest = b :: l -> (b =? 120) || (b =? 88) = false) as Hx.
  { intros b l E. apply orb_false_iff. destruct ds as [|d' ds]; cbn [map app] in E.
    - subst rest. destruct Hr as (_ & ? & ?). split; by apply Z.eqb_neq.
    - injection E as <- _. apply Forall_cons in Hd as [Hd' _]. pose proof (hex_digit_range d' Hd'). split; apply Z.eqb_neq; lia. }
  destruct (map hex_digit ds ++ rest) as [|b l] eqn:E; [|rewrite (Hx b l eq_refl), andb_false_r]; rewrite Hs; cbn [length];
    (rewrite (proj2 (Z.eqb_neq _ 0)), (proj2 (Z.leb_gt _ _)) by lia); f_equal; apply uN_id; done.
Qed.

Lemma hex_number_snoc v ds d : hex_number v (ds ++ [d]) = hex_number v ds * 16 + d.
Proof. unfold hex_number. by rewrite foldl_app. Qed.

(** Both ways of writing a number read back as it. *)
Lemma hex_digits_ok n v : 0 <= v < 16 ^ Z.of_nat (S n) -> exists ds, hex_digits (S n) v = map hex_digit ds /\ ds <> [] /\
  Forall (fun d => 0 <= d < 16) ds /\ hex_number 0 ds = v.
Proof.
  revert v. induction n as [|n IH]; intros v Hv; (change (hex_digits (S ?n) v) with ((if v <? 16 then [] else hex_digits n (v / 16)) ++ [hex_digit (v mod 16)])).
  all: pose proof (Z.mod_pos_bound v 16 ltac:(lia)); pose proof (Z.div_mod v 16 ltac:(lia)).
  - change (16 ^ Z.of_nat 1) with 16 in Hv. rewrite (proj2 (Z.ltb_lt v 16)) by lia. exists [v mod 16]. split_and!; [done|done|by constructor|].
    unfold hex_number. cbn [foldl]. rewrite Z.mod_small; lia.
  - destruct (Z.ltb_spec v 16).
    + exists [v mod 16]. split_and!; [done|done|by constructor|]. unfold hex_number. cbn [foldl]. rewrite Z.mod_small; lia.
    + destruct (IH (v / 16)) as (ds & -> & Hne & Hd & E).
      { split; [apply Z.div_pos; lia|]. apply Z.div_lt_upper_bound; [lia|]. rewrite Nat2Z.inj_succ, Z.pow_succ_r in Hv by lia. lia. }
      exists (ds ++ [v mod 16]). split_and!; [by rewrite map_app|by destruct ds|by apply Forall_app_2; [|constructor]|].
      rewrite hex_number_snoc, E. lia.
Qed.

Lemma hex_fixed_ok n v : 0 <= v < 16 ^ Z.of_nat n -> exists ds, hex_fixed n v = map hex_digit ds /\ length ds = n /\
  Forall (fun d => 0 <= d < 16) ds /\ hex_number 0 ds = v.
Proof.
  revert v. induction n as [|n IH]; intros v Hv.
  - exists []. split_and!; [done..|]. cbn. cbn in Hv. lia.
  - pose proof (Z.mod_pos_bound v 16 ltac:(lia)). pose proof (Z.div_mod v 16 ltac:(lia)). cbn [hex_fixed].
    destruct (IH (v / 16)) as (ds & -> & Hl & Hd & E).
    { split; [apply Z.div_pos; lia|]. apply Z.div_lt_upper_bound; [lia|]. rewrite Nat2Z.inj_succ, Z.pow_succ_r in Hv by lia. lia. }
    exists (ds ++ [v mod 16]). split_and!; [by rewrite map_app|rewrite length_app; cbn; lia|by apply Forall_app_2; [|constructor]|].
    rewrite hex_number_snoc, E. lia.
Qed.

Lemma stoul_hex v rest : inw 64 v -> no_digit rest -> stoul (hex_digits 16 v ++ rest) = Ret v.
Proof.
  intros Hv Hr. destruct (hex_digits_ok 15 v) as (ds & -> & Hne & Hd & E); [exact Hv|]. rewrite stoul_digits by (done || by rewrite E). by rewrite E.
Qed.

Lemma stoul_fixed n v rest : inw 64 v -> v < 16 ^ Z.of_nat n -> n <> 0%nat -> no_digit rest -> stoul (hex_fixed n v ++ rest) = Ret v.
Proof.
  intros Hv Hb Hn Hr. destruct (hex_fixed_ok n v) as (ds & -> & Hl & Hd & E); [split; [apply Hv|done]|].
  rewrite stoul_digits; [by rewrite E|by destruct ds|done|done|by rewrite E].
Qed.

(** ** Bytes in hexadecimal *)

Definition hex_bytes (bs : list Z) : list Z := concat (map format_02x bs).

Lemma format_02x_length b : length (format_02x b) = 2%nat.
Proof. done. Qed.

Lemma hex_bytes_length bs : length (hex_bytes bs) = (2 * length bs)%nat.
Proof. induction bs as [|b bs IH]; [done|]. unfold hex_bytes in *. cbn [map concat]. rewrite length_app, IH. cbn. lia. Qed.

Lemma hex_bytes_app a b : hex_bytes (a ++ b) = hex_bytes a ++ hex_bytes b.
Proof. unfold hex_bytes. by rewrite map_app, concat_app. Qed.

Lemma stoul_byte b : inw 8 b -> stoul (format_02x b) = Ret b.
Proof.
  intros Hb. unfold format_02x. rewrite <- (app_nil_r (hex_fixed 2 b)). apply stoul_fixed; [|apply Hb|done|done].
  eapply inw_mono; [|exact Hb]. lia.
Qed.

(** The digits of byte [k]. *)
Lemma hex_at bs k b : bs !! k = Some b -> substr (hex_bytes bs) (Z.of_nat k * 2) 2 = Ret (format_02x b).
Proof.
  intros Hk. rewrite <- (take_drop_middle bs k b Hk), hex_bytes_app. change (b :: drop (S k) bs) with ([b] ++ drop (S k) bs).
  rewrite hex_bytes_app. change (hex_bytes [b]) with (format_02x b ++ []). rewrite app_nil_r. apply substr_mid; [|by rewrite format_02x_length].
  rewrite hex_bytes_length, length_take. apply lookup_lt_Some in Hk. lia.
Qed.

Lemma hex_byte_at bs k b : Forall (inw 8) bs -> bs !! k = Some b -> (substr (hex_bytes bs) (Z.of_nat k * 2) 2 ≫= stoul) = Ret b.
Proof.
  intros Hw Hk. rewrite (hex_at _ _ _ Hk). cbv [mbind outcome_bind]. apply stoul_byte. by apply (Forall_lookup_1 _ _ _ _ Hw Hk).
Qed.

(** A word, by its bytes. *)
Definition word_le (v : Z) : list Z := map (fun i => Z.land (Z.shiftr v (i * 8)) 0xFF) (seqZ 0 8).

Lemma to_hex_bytes v : to_little_endian_hex v = hex_bytes (word_le v).
Proof. unfold to_little_endian_hex, hex_bytes, word_le. by rewrite map_map. Qed.

Lemma word_le_length v : length (word_le v) = 8%nat.
Proof. done. Qed.

Lemma word_le_inw v : Forall (inw 8) (word_le v).
Proof.
  apply Forall_forall. intros b Hb. apply list_elem_of_In, in_map_iff in Hb as (i & <- & _). change 0xFF with (Z.ones 8). rewrite Z.land_ones by lia.
  apply (uN_inw 8). lia.
Qed.

Lemma word_le_at v k : (k < 8)%nat -> word_le v !! k = Some (Z.land (Z.shiftr v (Z.of_nat k * 8)) 0xFF).
Proof. intros Hk. do 8 (destruct k as [|k]; [done|]). lia. Qed.

(** The bytes at the positions from [i] on. *)
Lemma le_number_ok n i num v rest : 0 <= i -> i + Z.of_nat n = 8 -> inw 64 v -> (forall j, Z.testbit num j = Z.testbit v j && (j <? 8 * i)) ->
  le_number n i num (to_little_endian_hex v ++ rest) = Ret v.
Proof.
  rewrite to_hex_bytes. revert i num. induction n as [|n IH]; intros i num Hi Hn Hv Hnum; cbn [le_number].
  - f_equal. apply Z.bits_inj'. intros j Hj. rewrite Hnum. destruct (Z.ltb_spec j (8 * i)); [by rewrite andb_true_r|].
    rewrite (inw_high 64 v j); [done|done|lia].
  - rewrite (proj2 (Z.ltb_lt _ _)) by (rewrite length_app, hex_bytes_length, word_le_length; lia).
    assert (substr (hex_bytes (word_le v) ++ rest) (i * 2) 2 ≫= stoul = Ret (Z.land (Z.shiftr v (i * 8)) 0xFF)) as ->.
    { pose proof (word_le_at v (Z.to_nat i) ltac:(lia)) as Hk. rewrite Z2Nat.id in Hk by lia.
      rewrite <- (take_drop_middle _ _ _ Hk), hex_bytes_app. set (b := Z.land _ _) in *.
      change (b :: drop (S (Z.to_nat i)) (word_le v)) with ([b] ++ drop (S (Z.to_nat i)) (word_le v)).
      rewrite hex_bytes_app. change (hex_bytes [b]) with (format_02x b ++ []). rewrite app_nil_r, <- !app_assoc.
      rewrite substr_mid; [|rewrite hex_bytes_length, length_take, word_le_length; lia|by rewrite format_02x_length].
      cbv [mbind outcome_bind]. apply stoul_byte. by apply (Forall_lookup_1 _ _ _ _ (word_le_inw v) Hk). }
    cbv [mbind outcome_bind]. apply IH; [lia|lia|done|]. intros j.
    destruct (Z.ltb_spec j 0) as [Hj|Hj]; [by rewrite !Z.testbit_neg_r|].
    rewrite Z.lor_spec, Hnum, uN_bits, shiftl_bits by lia. change 0xFF with (Z.ones 8). rewrite Z.land_ones by lia. fold (uN 8 (Z.shiftr v (i * 8))). rewrite uN_bits by lia.
    destruct (Z.leb_spec (i * 8) j).
    + rewrite (proj2 (Z.ltb_ge j (8 * i))), andb_false_r by lia. cbn [orb]. rewrite Z.shiftr_spec by lia. replace (j - i * 8 + i * 8) with j by lia.
      destruct (Z.ltb_spec j 64), (Z.ltb_spec (j - i * 8) 8), (Z.ltb_spec j (8 * (i + 1))); try lia; cbn [andb]; rewrite ?andb_true_r, ?andb_false_r; done.
    + rewrite (proj2 (Z.ltb_lt j (8 * i))), (proj2 (Z.ltb_lt j (8 * (i + 1)))), andb_true_r by lia.
      rewrite (Z.testbit_neg_r _ (j - i * 8)), !andb_false_r, orb_false_r by lia. done.
Qed.

(** The bytes up to number [n], from the last one on. *)
Lemma swap_bytes bs n : (n < length bs)%nat -> swap_from (hex_bytes bs) n = Ret (hex_bytes (rev (take (S n) bs))).
Proof.
  induction n as [|n IH]; intros Hn; destruct (lookup_lt_is_Some_2 bs _ Hn) as [b Hb]; cbn [swap_from]; rewrite (hex_at _ _ _ Hb); cbv [mbind outcome_bind mret outcome_ret].
  - destruct bs as [|b' bs]; [done|]. injection Hb as ->. reflexivity.
  - rewrite IH by lia. f_equal. rewrite (take_S_r _ _ _ Hb), rev_app_distr. cbn [rev app]. change (b :: rev (take (S n) bs)) with ([b] ++ rev (take (S n) bs)).
    by rewrite hex_bytes_app.
Qed.

Lemma word_digits v : 0 <= v -> hex_bytes (rev (word_le v)) = hex_fixed 16 v.
Proof.
  intros Hv. assert (forall k, 0 <= k -> (Z.land (Z.shiftr v (k * 8)) 0xFF / 16) mod 16 = (v / 16 ^ (2 * k + 1)) mod 16 /\
    Z.land (Z.shiftr v (k * 8)) 0xFF mod 16 = (v / 16 ^ (2 * k)) mod 16) as Hd.
  { intros k Hk. change 0xFF with (Z.ones 8). rewrite Z.land_ones, Z.shiftr_div_pow2 by lia.
    replace (2 ^ (k * 8)) with (16 ^ (2 * k)) by (change 16 with (2 ^ 4); rewrite <- Z.pow_mul_r by lia; f_equal; lia).
    rewrite Z.pow_add_r by lia. rewrite <- Z.div_div by (apply Z.pow_nonzero || apply Z.pow_pos_nonneg; lia).
    set (w := v / 16 ^ (2 * k)). change (2 ^ 8) with (16 * 16). rewrite Z.rem_mul_r by lia. change (16 ^ 1) with 16.
    pose proof (Z.mod_pos_bound w 16). pose proof (Z.mod_pos_bound (w / 16) 16). split.
    - rewrite (Z.mul_comm 16), Z.div_add, Z.div_small, Z.add_0_l, Z.mod_mod by lia. done.
    - rewrite (Z.mul_comm 16), Z_mod_plus_full, Z.mod_mod by lia. done. }
  unfold word_le. change (seqZ 0 8) with [0; 1; 2; 3; 4; 5; 6; 7].
  cbn [map rev app]. unfold hex_bytes, format_02x. cbn [map concat app hex_fixed].
  rewrite !(fun k H => proj1 (Hd k H)), !(fun k H => proj2 (Hd k H)), !Z.div_div by lia. by rewrite Z.div_1_r.
Qed.

Lemma swap_step value i : swap_from value (S i) = (b ← substr value (Z.of_nat (S i) * 2) 2; rest ← swap_from value i; mret (b ++ rest)).
Proof. done. Qed.

(** What a word written low byte first reads back as. *)
Lemma word_read data i v a b : inw 64 v -> data = a ++ to_little_endian_hex v ++ b -> i * 16 = Z.of_nat (length a) -> swapped data i = Ret v.
Proof.
  intros Hv -> Hi. unfold swapped. rewrite substr_mid; [|done|by rewrite to_hex_bytes, hex_bytes_length]. cbv [mbind outcome_bind].
  rewrite to_hex_bytes. unfold swapHexEndian. rewrite (swap_step _ 7).
  assert (substr (hex_bytes (word_le v)) (Z.of_nat 8 * 2) 2 = Ret []) as -> by done. cbv [mbind outcome_bind].
  rewrite (swap_bytes (word_le v) 7) by (rewrite word_le_length; lia). cbv [mret outcome_ret]. cbn [app].
  rewrite take_ge by (rewrite word_le_length; lia). rewrite word_digits by apply Hv.
  rewrite <- (app_nil_r (hex_fixed 16 v)). apply stoul_fixed; [done|apply Hv|done|done].
Qed.

(** ** Packets *)

(** A character that neither starts nor ends a packet. *)
Definition plain (x : Z) : Prop := x <> 36 /\ x <> 35.

Section packets.
Context {B : Type} `{!BusOps B} (USE_FPU : bool).
Implicit Types (g : Stub B).

Lemma loop_cons c ch rest g : is_executing g = true -> client_loop USE_FPU c (ch :: rest) g =
  (c ← receive USE_FPU c ch; client_loop USE_FPU c rest) g.
Proof. intros He. cbn [client_loop]. unfold gets. cbv [mbind ST_bind]. by rewrite He. Qed.

Lemma receive_more acc ch g : ch <> 36 -> (find_char 35 (acc ++ [ch]) = npos \/ Z.of_nat (length (acc ++ [ch])) <> find_char 35 (acc ++ [ch]) + 3) ->
  receive USE_FPU (mkClient acc true) ch g = Ret (mkClient (acc ++ [ch]) true, g).
Proof.
  intros Hc Hf. unfold receive. cbn [raw_packet_mode packet_accumulator negb andb]. rewrite (proj2 (Z.eqb_neq ch 36)) by done.
  destruct Hf as [-> | Hf]; [done|]. by rewrite (proj2 (Z.eqb_neq _ _) Hf), andb_false_r.
Qed.

Lemma plain_hash l : Forall plain l -> Forall (fun x => x <> 35) l.
Proof. intros Hl. eapply Forall_impl; [exact Hl|]. by intros ? []. Qed.

(** The characters of a packet before its [#]. *)
Lemma loop_payload p acc rest g : is_executing g = true -> Forall plain acc -> Forall plain p ->
  client_loop USE_FPU (mkClient (36 :: acc) true) (p ++ rest) g = client_loop USE_FPU (mkClient (36 :: acc ++ p) true) rest g.
Proof.
  intros He Ha Hp. revert acc Ha. induction Hp as [|x p Hx Hp IH]; intros acc Ha; [by rewrite app_nil_r|].
  assert (Forall plain (acc ++ [x])) as Ha' by (apply Forall_app_2; [done|by constructor]).
  cbn [app]. rewrite loop_cons by done. cbv [mbind ST_bind]. rewrite receive_more; [|apply Hx|left].
  - cbn [app]. rewrite (IH (acc ++ [x]) Ha'). by rewrite <- app_assoc.
  - cbn [app]. apply find_from_none. constructor; [done|]. by apply plain_hash.
Qed.

Definition run_payload (p : list Z) : GM unit := match p with [] => mret tt | _ => run_packet (B := B) USE_FPU p end.

Lemma parse_payload p c1 c2 g : Z.of_nat (length p) < 2 ^ 63 -> parse_packet USE_FPU ([36] ++ p ++ [35; c1; c2]) g = run_payload p g.
Proof.
  intros Hl. unfold parse_packet. cbn [app]. unfold unformat_packet. change (36 :: p ++ [35; c1; c2]) with ([36] ++ p ++ [35; c1; c2]).
  rewrite (proj2 (Z.ltb_ge _ 4)) by (rewrite !length_app; cbn; lia).
  rewrite substr_mid by (rewrite ?length_app; cbn [length]; rewrite ?length_app; cbn [length]; lia).
  unfold lift_out. cbv [mbind ST_bind]. by destruct p.
Qed.

(** C39: the client's packets. From a client between packets the loop passes
    over every byte but [$] and the interrupt character; the interrupt halts
    the machine and says so; and a packet, whatever follows its [#] for a
    checksum, is acknowledged, runs its payload as one command and leaves the
    client between packets. What [send_packet] sends is such a packet. *)
Theorem gdb_packets p c1 c2 rest g : is_executing g = true -> Z.of_nat (length p) < 2 ^ 63 -> Forall plain p -> c1 <> 36 -> c2 <> 36 ->
  (forall x, x <> 36 -> x <> 3 -> client_loop USE_FPU new_client (x :: rest) g = client_loop USE_FPU new_client rest g) /\
  client_loop USE_FPU new_client (3 :: rest) g = client_loop USE_FPU new_client rest
    (add_sent (format_packet (str "S02")) (set_mstate Halted (set_sigint true (add_sent (str "+") g)))) /\
  client_loop USE_FPU new_client ([36] ++ p ++ [35; c1; c2] ++ rest) g =
    (_ ← run_payload p; client_loop USE_FPU new_client rest) (add_sent (str "+") g) /\
  client_loop USE_FPU new_client (format_packet p ++ rest) g =
    (_ ← run_payload p; client_loop USE_FPU new_client rest) (add_sent (str "+") g).
Proof.
  intros He Hl Hp Hc1 Hc2.
  assert (forall c1 c2, c1 <> 36 -> c2 <> 36 -> client_loop USE_FPU new_client ([36] ++ p ++ [35; c1; c2] ++ rest) g =
    (_ ← run_payload p; client_loop USE_FPU new_client rest) (add_sent (str "+") g)) as H.
  { clear c1 c2 Hc1 Hc2. intros c1 c2 Hc1 Hc2. cbn [app]. rewrite loop_cons by done. unfold receive at 1. cbn [new_client raw_packet_mode negb andb].
    change (36 =? 3) with false. change (36 =? 36) with true. cbv iota. cbv [mbind ST_bind mret ST_ret]. cbn [app].
    rewrite (loop_payload p [] _ g He (Forall_nil_2 _) Hp). cbn [app].
    assert (forall l, find_char 35 ((36 :: p) ++ 35 :: l) = Z.of_nat (length (36 :: p))) as Hh.
    { intros l. unfold find_char. rewrite find_from_app; [done|]. constructor; [done|]. by apply plain_hash. }
    rewrite loop_cons by done. cbv [mbind ST_bind]. rewrite receive_more; [|done|right; rewrite (Hh []), !length_app; cbn [length]; lia].
    rewrite loop_cons by done. cbv [mbind ST_bind]. rewrite receive_more; [|done|right; rewrite <- app_assoc; change ([35] ++ [c1]) with [35; c1]; rewrite (Hh [c1]), length_app; cbn [length]; lia].
    rewrite loop_cons by done. unfold receive. cbn [raw_packet_mode packet_accumulator negb andb]. rewrite (proj2 (Z.eqb_neq c2 36)) by done.
    rewrite <- !app_assoc. change ([35] ++ [c1] ++ [c2]) with [35; c1; c2]. rewrite (Hh [c1; c2]).
    rewrite (proj2 (Z.eqb_neq _ npos)) by (cbn [length]; unfold npos; lia). rewrite (proj2 (Z.eqb_eq _ _)) by (rewrite length_app; cbn [length]; lia).
    cbn [negb andb]. cbv [mbind ST_bind]. unfold send_raw, modify. change ((36 :: p) ++ 35 :: [c1; c2]) with ([36] ++ p ++ [35; c1; c2]).
    rewrite parse_payload by done. by destruct (run_payload p (add_sent (str "+") g)) as [[[] ?]| |]. }
  split; [|split; [|split]].
  - intros x Hx Hx3. rewrite loop_cons by done. unfold receive. cbn [new_client raw_packet_mode negb andb].
    by rewrite (proj2 (Z.eqb_neq x 3)), (proj2 (Z.eqb_neq x 36)) by done.
  - by rewrite loop_cons by done.
  - by apply H.
  - unfold format_packet. rewrite <- !app_assoc. cbn [format_02x hex_fixed app].
    assert (forall d, 0 <= d < 16 -> hex_digit d <> 36) as Hd by (intros d Hd; pose proof (hex_digit_range d Hd); lia).
    apply H; apply Hd; apply Z.mod_pos_bound; lia.
Qed.
End packets.

(** ** Registers *)

Lemma hex_digits_length n v : (length (hex_digits n v) <= n)%nat.
Proof.
  revert v. induction n as [|n IH]; intros v; [done|]. cbn [hex_digits]. rewrite length_app. cbn [length].
  destruct (v <? 16); [cbn; lia|]. specialize (IH (v / 16)). lia.
Qed.

(** No character of a number is the mark [c]. *)
Lemma hex_digits_not c n v : hex_value c = None -> 0 <= v -> Forall (fun x => x <> c) (hex_digits n v).
Proof.
  intros Hc. revert v. induction n as [|n IH]; intros v Hv; [done|]. cbn [hex_digits]. apply Forall_app_2.
  - destruct (v <? 16); [done|]. apply IH. apply Z.div_pos; lia.
  - constructor; [|done]. intros <-. by rewrite hex_value_digit in Hc by (apply Z.mod_pos_bound; lia).
Qed.

Lemma to_hex_length v : length (to_little_endian_hex v) = 16%nat.
Proof. by rewrite to_hex_bytes, hex_bytes_length. Qed.

Definition words (ws : list Z) : list Z := concat (map to_little_endian_hex ws).

Lemma words_length ws : length (words ws) = (16 * length ws)%nat.
Proof. induction ws as [|w ws IH]; [done|]. unfold words in *. cbn [map concat]. rewrite length_app, IH, to_hex_length. cbn. lia. Qed.

Lemma words_app a b : words (a ++ b) = words a ++ words b.
Proof. unfold words. by rewrite map_app, concat_app. Qed.

Lemma swapped_word ws k w : inw 64 w -> ws !! k = Some w -> swapped (words ws) (Z.of_nat k) = Ret w.
Proof.
  intros Hw Hk. eapply (word_read _ _ w (words (take k ws)) (words (drop (S k) ws))); [done| |].
  - rewrite <- (take_drop_middle _ _ _ Hk) at 1. by rewrite words_app.
  - rewrite words_length, length_take. apply lookup_lt_Some in Hk. lia.
Qed.

Lemma gpr_list h : length (GPR h) = 32%nat -> map (gpr h) (seqZ 0 32) = GPR h.
Proof. intros Hl. unfold gpr. destruct h as [hid l]. cbn [GPR] in *. do 32 (destruct l as [|? l]; [done|]). by destruct l. Qed.

Section registers.
Context {B : Type} `{!BusOps B} (USE_FPU : bool).
Implicit Types (g : Stub B).

Definition set_ghart (h : Hart) (g : Stub B) : Stub B := set_world (set_hart h (g_world g)) g.
Definition sent (s : list Z) (g : Stub B) : Stub B := add_sent (format_packet s) g.

(** Register 32 is the pc. *)
Definition put_r (idx v : Z) (h : Hart) : Hart := if idx <=? 31 then put_gpr idx v h else set_pc v h.

Lemma write_reg_ok g idx v : 0 <= idx <= 32 -> inw 64 v ->
  write_reg USE_FPU (str "P" ++ hex_digits 16 idx ++ [61] ++ to_little_endian_hex v) g =
  Ret (tt, sent (str "OK") (set_ghart (put_r idx v (hart (g_world g))) g)).
Proof.
  intros Hi Hv. unfold write_reg. set (ds := hex_digits 16 idx). pose proof (hex_digits_length 16 idx) as Hl. fold ds in Hl.
  change (str "P") with [80]. assert (Z.of_nat (length ([80] ++ ds ++ [61] ++ to_little_endian_hex v)) <= npos) as Hn.
  { rewrite !length_app, to_hex_length. cbn [length]. unfold npos. lia. }
  rewrite (substr_rest [80] _ 1 eq_refl Hn). unfold lift_out at 1. cbv [mbind ST_bind outcome_bind].
  unfold ds at 1. rewrite stoul_hex; [|unfold inw; lia|done]. fold ds.
  assert (find_char 61 ([80] ++ ds ++ [61] ++ to_little_endian_hex v) = 1 + Z.of_nat (length ds)) as ->.
  { unfold find_char. change ([80] ++ ds ++ [61] ++ ?l) with ((80 :: ds) ++ 61 :: l). rewrite find_from_app; [cbn [length]; lia|].
    constructor; [done|]. apply hex_digits_not; [done|lia]. }
  rewrite (proj2 (Z.eqb_neq _ npos)) by (unfold npos; lia). rewrite !app_assoc in Hn |- *.
  rewrite substr_rest; [|rewrite !length_app; cbn [length]; lia|done]. unfold lift_out.
  rewrite <- (app_nil_r (to_little_endian_hex v)), le_number_ok; [|lia|done|done|].
  - unfold put_reg, put_r, setreg, mod_hart, modify, on_world. destruct (Z.leb_spec idx 31); [done|]. by rewrite (proj2 (Z.eqb_eq idx 32)) by lia.
  - intros j. rewrite Z.bits_0. destruct (Z.ltb_spec j (8 * 0)); [|by rewrite andb_false_r]. by rewrite Z.testbit_neg_r by lia.
Qed.

Lemma read_reg_ok g idx v : 0 <= idx <= 32 -> hart_wf (hart (g_world g)) ->
  let g' := set_ghart (put_r idx v (hart (g_world g))) g in
  read_reg USE_FPU (str "p" ++ hex_digits 16 idx) g' = Ret (tt, sent (to_little_endian_hex v) g').
Proof.
  intros Hi Hh g'. unfold read_reg. pose proof (hex_digits_length 16 idx) as Hl. change (str "p") with [112].
  rewrite substr_rest; [|done|rewrite length_app; cbn [length]; unfold npos; lia]. unfold lift_out at 1. cbv [mbind ST_bind outcome_bind].
  rewrite <- (app_nil_r (hex_digits 16 idx)), stoul_hex; [|unfold inw; lia|done].
  assert (get_reg USE_FPU idx (g_world g') = Ret (v, g_world g')) as E.
  { unfold get_reg, reg, gets. unfold g', set_ghart. cbn [g_world set_world hart set_hart]. unfold put_r.
    destruct (Z.leb_spec idx 31); [|by rewrite (proj2 (Z.eqb_eq idx 32)) by lia]. do 2 f_equal.
    unfold gpr, put_gpr. cbn [hart set_hart GPR set_GPR]. apply nth_lookup_Some. rewrite list_lookup_insert_eq; [done|]. rewrite (wf_gpr_len _ Hh). lia. }
  unfold on_world. rewrite E. unfold send_packet, send_raw, modify. by destruct g as [[] ? ? ? ? ? ? ? ?].
Qed.

(** All of them, as [g] lists them and [G] takes them. *)
Definition all_regs (h : Hart) : list Z := GPR h ++ [pc h].

Lemma read_all_ok g : hart_wf (hart (g_world g)) -> read_all g = Ret (tt, sent (words (all_regs (hart (g_world g)))) g).
Proof.
  intros Hh. unfold read_all, the_hart, gets. cbv [mbind ST_bind]. set (h := hart (g_world g)) in *.
  assert (concat (map (fun i => to_little_endian_hex (gpr h i)) (seqZ 0 32)) ++ to_little_endian_hex (pc h) = words (all_regs h)) as ->; [|done].
  unfold all_regs. rewrite words_app. unfold words at 1. rewrite <- (gpr_list h (wf_gpr_len _ Hh)), map_map.
  unfold words. cbn [map concat]. by rewrite app_nil_r.
Qed.

Lemma put_all_ok ws n k g : Forall (inw 64) ws -> length ws = 33%nat -> length (GPR (hart (g_world g))) = 32%nat -> (k + n = 32)%nat ->
  put_all (seqZ (Z.of_nat k) (Z.of_nat n)) (words ws) g =
  Ret (tt, set_ghart (set_GPR (take k (GPR (hart (g_world g))) ++ drop k (take 32 ws)) (hart (g_world g))) g).
Proof.
  intros Hw Hl. revert k g. induction n as [|n IH]; intros k g Hg Hk.
  - rewrite drop_ge, app_nil_r, take_ge by (rewrite ?length_take; lia). cbn. by destruct g as [[[]] ? ? ? ? ? ? ? ?].
  - rewrite seqZ_cons by lia. replace (Z.pred (Z.of_nat (S n))) with (Z.of_nat n) by lia. cbn [put_all].
    destruct (lookup_lt_is_Some_2 ws k ltac:(lia)) as [w Hkw]. rewrite (swapped_word _ _ w) by (done || by apply (Forall_lookup_1 _ _ _ _ Hw Hkw)).
    unfold lift_out. cbv [mbind ST_bind]. unfold on_world at 1, setreg, mod_hart, modify. replace (Z.succ (Z.of_nat k)) with (Z.of_nat (S k)) by lia.
    rewrite IH by (cbn [g_world set_world hart set_hart put_gpr GPR set_GPR]; rewrite ?length_insert; lia).
    cbn [g_world set_world hart set_hart put_gpr GPR set_GPR]. unfold set_ghart. do 2 f_equal.
    rewrite Nat2Z.id. rewrite (drop_S (take 32 ws) w k) by (by rewrite lookup_take_lt by lia).
    assert (take (S k) (<[k:=w]> (GPR (hart (g_world g)))) = take k (GPR (hart (g_world g))) ++ [w]) as ->.
    { rewrite (take_S_r _ _ w) by (apply list_lookup_insert_eq; lia). by rewrite take_insert_ge by lia. }
    rewrite <- app_assoc. by destruct g as [[[]] ? ? ? ? ? ? ? ?].
Qed.

Lemma write_all_ok g ws : Forall (inw 64) ws -> length ws = 33%nat -> length (GPR (hart (g_world g))) = 32%nat ->
  write_all (str "G" ++ words ws) g =
  Ret (tt, sent (str "OK") (set_ghart (set_pc (nth 32 ws 0) (set_GPR (take 32 ws) (hart (g_world g)))) g)).
Proof.
  intros Hw Hl Hg. unfold write_all. change (str "G") with [71]. rewrite substr_rest; [|done|rewrite length_app, words_length; unfold npos; cbn [length]; lia].
  unfold lift_out. cbv [mbind ST_bind]. rewrite (proj2 (Z.ltb_ge _ _)) by (rewrite words_length; lia).
  rewrite (put_all_ok ws 32 0) by (done || lia). cbn [take drop app].
  destruct (lookup_lt_is_Some_2 ws 32 ltac:(lia)) as [w Hkw]. pose proof (swapped_word ws 32 w (Forall_lookup_1 _ _ _ _ Hw Hkw) Hkw) as E. change (Z.of_nat 32) with 32 in E. rewrite E.
  unfold on_world, mod_hart, modify. rewrite (nth_lookup_Some _ _ 0 w Hkw). by destruct g as [[[]] ? ? ? ? ? ? ? ?].
Qed.

End registers.

(** ** Memory *)

Section memory.
Context {B : Type} `{!BusOps B} (USE_FPU : bool).
Implicit Types (g : Stub B) (s : State B).

(** The addresses the bytes [bs] take from [a] on are in RAM. *)
Context (a : Z) (bs : list Z).
Hypothesis Hbs : Forall (inw 8) bs.

Definition in_ram s : Prop := dram_ok s /\ RAM_BASE <= a /\ a + Z.of_nat (length bs) <= RAM_BASE + mmio_memsize s.

Lemma in_ram_byte s k : in_ram s -> 0 <= k < Z.of_nat (length bs) -> u64 (a + k) = a + k /\ in_dram (mmio_memsize s) (a + k) Byte = true.
Proof.
  intros ((_ & Hm & _) & Ha & Hl) Hk. change RAM_BASE with (2 ^ 31) in *. split; [apply uN_id; split; lia|].
  unfold in_dram. change RAM_BASE with (2 ^ 31). rewrite (uN_id 64 (2 ^ 31 + _)) by (split; lia). rewrite uN_id by (unfold Byte; split; lia).
  apply andb_true_iff. split; apply Z.leb_le; unfold Byte; lia.
Qed.

Lemma in_ram_layout s s' : dram_layout s s' -> in_ram s -> in_ram s'.
Proof. intros Hl (Hd & ? & ?). split; [by eapply dram_ok_layout|]. destruct Hl as (_ & -> & _). done. Qed.

Lemma index_ok i : (i < length bs)%nat -> Z.of_nat (length bs) < 2 ^ 63 -> u64 (u64 (0 + Z.of_nat i) * 2) = Z.of_nat i * 2.
Proof. intros Hi Hl. rewrite Z.add_0_l, (uN_id 64 (Z.of_nat i)) by (split; lia). apply uN_id. split; lia. Qed.

Lemma store_bytes_ok n i g : (i + n = length bs)%nat -> in_ram (g_world g) -> Z.of_nat (length bs) < 2 ^ 63 -> exists s',
  store_bytes n a (Z.of_nat i) 0 (hex_bytes bs) g = Ret (true, set_world s' g) /\ dram_layout (g_world g) s' /\
  satp (hart s') = satp (hart (g_world g)) /\
  (forall j b, (i <= j)%nat -> bs !! j = Some b -> dram s' (a + Z.of_nat j) Byte = Ret b) /\
  (forall pa sz, 0 <= sz -> pa + sz <= a + Z.of_nat i \/ a + Z.of_nat (length bs) <= pa -> dram s' pa sz = dram (g_world g) pa sz).
Proof.
  revert i g. induction n as [|n IH]; intros i g Hn Hr Hl.
  - exists (g_world g). split; [by destruct g|]. split; [done|]. split; [done|]. split; [|done]. intros j b Hj Hb. apply lookup_lt_Some in Hb. lia.
  - cbn [store_bytes]. destruct (lookup_lt_is_Some_2 bs i ltac:(lia)) as [b Hb]. rewrite index_ok, (hex_byte_at _ _ b) by (done || lia).
    unfold lift_out. cbv [mbind ST_bind]. pose proof (Forall_lookup_1 _ _ _ _ Hbs Hb) as Hw. rewrite (uN_id 8 b) by done.
    destruct (in_ram_byte _ (Z.of_nat i) Hr ltac:(lia)) as [-> Hin].
    destruct (write_phys (g_world g) (a + Z.of_nat i) Byte b (proj1 Hr) eq_refl Hin) as (s1 & Hs & Hly & Hh & Hb1 & Ho).
    unfold on_world. rewrite Hs. cbn [mr_success mem_ok]. replace (Z.of_nat i + 1) with (Z.of_nat (S i)) by lia.
    destruct (IH (S i) (set_world s1 g)) as (s' & -> & Hly' & Hsatp & Hnew & Hold); [lia|by eapply in_ram_layout|done|].
    exists s'. split; [done|]. split; [exact (transitivity Hly Hly')|]. split; [|split].
    + rewrite Hsatp. cbn [g_world set_world]. rewrite Hh. unfold amo_check_reservation. by repeat case_match.
    + intros j b' Hj Hb'. destruct (decide (j = i)) as [->|]; [|apply Hnew; [lia|done]].
      rewrite Hold by (unfold Byte; lia). cbn [g_world set_world]. assert (b' = b) as -> by congruence. rewrite Hb1. by rewrite (uN_id 8).
    + intros pa sz Hsz Hpa. rewrite Hold by lia. apply Ho; [done|]. unfold Byte. lia.
Qed.

Lemma load_bytes_ok n i resp g : (i + n = length bs)%nat -> in_ram (g_world g) ->
  (forall j b, (i <= j)%nat -> bs !! j = Some b -> dram (g_world g) (a + Z.of_nat j) Byte = Ret b) ->
  load_bytes n a (Z.of_nat i) resp g = Ret (Some (resp ++ hex_bytes (drop i bs)), g).
Proof.
  revert i resp. induction n as [|n IH]; intros i resp Hn Hr Hb.
  - cbn [load_bytes]. by rewrite drop_ge, app_nil_r by lia.
  - cbn [load_bytes]. destruct (in_ram_byte _ (Z.of_nat i) Hr ltac:(lia)) as [-> Hin].
    destruct (read_phys (g_world g) (a + Z.of_nat i) Byte (proj1 Hr) eq_refl Hin) as (v & Hv & _ & Hs).
    destruct (lookup_lt_is_Some_2 bs i ltac:(lia)) as [b Hi]. rewrite (Hb i b) in Hv by (done || lia). injection Hv as <-.
    unfold on_world. cbv [mbind ST_bind]. rewrite Hs. cbn [mr_success mem_ok]. replace (Z.of_nat i + 1) with (Z.of_nat (S i)) by lia.
    assert (set_world (g_world g) g = g) as -> by (by destruct g). rewrite IH; [|lia|done|intros; apply Hb; [lia|done]].
    rewrite (drop_S _ _ _ Hi). change (b :: drop (S i) bs) with ([b] ++ drop (S i) bs). by rewrite hex_bytes_app, <- app_assoc.
Qed.

(** The loops over the whole range, without paging. *)
Lemma gdb_chunk_bare type s address size : getf (satp (hart s)) Satp.mode = 0 -> gdb_chunk type address size s = Ret (Some (address, size), s).
Proof. intros Hm. unfold gdb_chunk, gets. cbv [mbind ST_bind]. by rewrite Hm. Qed.

Lemma store_range_ok g : in_ram (g_world g) -> Z.of_nat (length bs) < 2 ^ 63 -> getf (satp (hart (g_world g))) Satp.mode = 0 -> exists s',
  store_range (length bs) a (Z.of_nat (length bs)) 0 (hex_bytes bs) g = Ret (true, set_world s' g) /\ dram_layout (g_world g) s' /\
  satp (hart s') = satp (hart (g_world g)) /\
  (forall j b, bs !! j = Some b -> dram s' (a + Z.of_nat j) Byte = Ret b) /\
  (forall pa sz, 0 <= sz -> pa + sz <= a \/ a + Z.of_nat (length bs) <= pa -> dram s' pa sz = dram (g_world g) pa sz).
Proof.
  intros Hr Hl Hm. destruct (length bs) as [|n] eqn:E.
  - exists (g_world g). split; [by destruct g|]. split; [done|]. split; [done|]. split; [|done]. intros j b Hj. apply lookup_lt_Some in Hj. lia.
  - cbn [store_range]. rewrite (proj2 (Z.eqb_neq _ 0)) by lia. unfold on_world at 1. cbv [mbind ST_bind]. rewrite gdb_chunk_bare by done.
    rewrite Nat2Z.id. destruct (store_bytes_ok (S n) 0 (set_world (g_world g) g)) as (s' & Hs & Hly & Hsat & Hn & Ho); [lia|done|lia|].
    change (Z.of_nat 0) with 0 in Hs. rewrite Hs. rewrite Z.sub_diag. exists s'. split; [by destruct n|]. split; [done|]. split; [done|].
    split; [intros j b Hj; apply Hn; [lia|done]|]. intros pa sz Hsz Hp. apply Ho; lia.
Qed.

Lemma load_range_ok g : in_ram (g_world g) -> getf (satp (hart (g_world g))) Satp.mode = 0 ->
  (forall j b, bs !! j = Some b -> dram (g_world g) (a + Z.of_nat j) Byte = Ret b) ->
  load_range (length bs) a (Z.of_nat (length bs)) [] g = Ret (Some (hex_bytes bs), g).
Proof.
  intros Hr Hm Hb. assert (set_world (g_world g) g = g) as Hg by (by destruct g).
  pose proof (load_bytes_ok (length bs) 0 [] g eq_refl Hr ltac:(intros; by apply Hb)) as Hd. rewrite drop_0 in Hd. cbn [app] in Hd.
  destruct (length bs) as [|n] eqn:E; [by destruct bs|].
  cbn [load_range]. rewrite (proj2 (Z.eqb_neq _ 0)) by lia. unfold on_world. cbv [mbind ST_bind]. rewrite gdb_chunk_bare by done.
  rewrite Nat2Z.id, Hg. change (Z.of_nat 0) with 0 in Hd. rewrite Hd, Z.sub_diag. by destruct n.
Qed.

(** The fields of the two packets. *)
Definition range_text : list Z := hex_digits 16 a ++ [44] ++ hex_digits 16 (Z.of_nat (length bs)).

Lemma find_comma rest : 0 <= a -> find_char 44 (77 :: hex_digits 16 a ++ 44 :: rest) = 1 + Z.of_nat (length (hex_digits 16 a)) /\
  find_char 44 (109 :: hex_digits 16 a ++ 44 :: rest) = 1 + Z.of_nat (length (hex_digits 16 a)).
Proof.
  intros Ha. unfold find_char. split; (rewrite (app_comm_cons (hex_digits 16 a)), find_from_app; [cbn [length]; lia|]);
    (constructor; [done|]; by apply hex_digits_not).
Qed.

Lemma gdb_store_ok g : in_ram (g_world g) -> g_active g = true -> getf (satp (hart (g_world g))) Satp.mode = 0 -> exists s',
  gdb_store (str "M" ++ range_text ++ [58] ++ hex_bytes bs) g = Ret (tt, sent (str "OK") (set_world s' g)) /\ dram_layout (g_world g) s' /\
  satp (hart s') = satp (hart (g_world g)) /\
  (forall j b, bs !! j = Some b -> dram s' (a + Z.of_nat j) Byte = Ret b) /\
  (forall pa sz, 0 <= sz -> pa + sz <= a \/ a + Z.of_nat (length bs) <= pa -> dram s' pa sz = dram (g_world g) pa sz).
Proof.
  intros Hr Hact Hm. pose proof Hr as ((_ & Hsz & _) & Ha & Hl). change RAM_BASE with (2 ^ 31) in *.
  set (n := length bs) in *. assert (Z.of_nat n < 2 ^ 63) as Hn by lia.
  unfold gdb_store, range_text. fold n. set (A := hex_digits 16 a). set (N := hex_digits 16 (Z.of_nat n)). set (D := hex_bytes bs).
  pose proof (hex_digits_length 16 a) as HA. fold A in HA. pose proof (hex_digits_length 16 (Z.of_nat n)) as HN. fold N in HN.
  assert (length D = (2 * n)%nat) as HD by apply hex_bytes_length.
  change ([44] ++ N) with (44 :: N). change (str "M" ++ (A ++ 44 :: N) ++ [58] ++ D) with (77 :: (A ++ 44 :: N) ++ 58 :: D).
  replace ((A ++ 44 :: N) ++ 58 :: D) with (A ++ 44 :: N ++ 58 :: D) by (by rewrite <- app_assoc).
  pose proof (proj1 (find_comma (N ++ 58 :: D) ltac:(lia))) as Hf. fold A in Hf. rewrite Hf. clear Hf.
  assert (find_char 58 (77 :: A ++ 44 :: N ++ 58 :: D) = 2 + Z.of_nat (length A) + Z.of_nat (length N)) as ->.
  { unfold find_char. change (77 :: A ++ 44 :: N ++ 58 :: D) with ((77 :: A) ++ (44 :: N) ++ 58 :: D). rewrite app_assoc, find_from_app.
    - rewrite length_app. cbn [length]. lia.
    - apply Forall_app_2; (constructor; [done|]); apply hex_digits_not; done || lia. }
  assert (substr (77 :: A ++ 44 :: N ++ 58 :: D) 1 (1 + Z.of_nat (length A)) = Ret (A ++ [44])) as ->.
  { change (77 :: A ++ 44 :: N ++ 58 :: D) with ([77] ++ A ++ [44] ++ N ++ 58 :: D). rewrite (app_assoc A).
    apply substr_mid; [done|]. rewrite length_app. cbn [length]. lia. }
  rewrite !(uN_id 64) by (split; lia).
  assert (substr (77 :: A ++ 44 :: N ++ 58 :: D) (1 + Z.of_nat (length A) + 1) (2 + Z.of_nat (length A) + Z.of_nat (length N) - (1 + Z.of_nat (length A)) - 1) = Ret N) as ->.
  { change (77 :: A ++ 44 :: N ++ 58 :: D) with ((77 :: A) ++ [44] ++ N ++ 58 :: D). rewrite (app_assoc (77 :: A)).
    apply substr_mid; [rewrite length_app; cbn [length]; lia|lia]. }
  assert (substr_from (77 :: A ++ 44 :: N ++ 58 :: D) (2 + Z.of_nat (length A) + Z.of_nat (length N) + 1) = Ret D) as ->.
  { change (77 :: A ++ 44 :: N ++ 58 :: D) with ((77 :: A) ++ (44 :: N) ++ [58] ++ D). rewrite !app_assoc. apply substr_rest.
    - rewrite !length_app. cbn [length]. lia.
    - rewrite !length_app. cbn [length]. unfold npos. lia. }
  unfold lift_out. cbv [mbind ST_bind outcome_bind]. unfold A at 1. rewrite stoul_hex; [|split; lia|done].
  unfold N at 1. rewrite <- (app_nil_r (hex_digits 16 _)), stoul_hex; [|split; lia|done].
  unfold need_hart, gets. cbv [mbind ST_bind]. rewrite Hact. cbn [negb andb]. unfold mret, ST_ret. rewrite Nat2Z.id.
  destruct (store_range_ok g Hr Hn Hm) as (s' & Hs & Hrest). fold n D in Hs. rewrite Hs. by exists s'.
Qed.

Lemma gdb_load_ok g : in_ram (g_world g) -> g_active g = true -> getf (satp (hart (g_world g))) Satp.mode = 0 ->
  (forall j b, bs !! j = Some b -> dram (g_world g) (a + Z.of_nat j) Byte = Ret b) ->
  gdb_load (str "m" ++ range_text) g = Ret (tt, sent (hex_bytes bs) g).
Proof.
  intros Hr Hact Hm Hb. pose proof Hr as ((_ & Hsz & _) & Ha & Hl). change RAM_BASE with (2 ^ 31) in *.
  set (n := length bs) in *. assert (Z.of_nat n < 2 ^ 63) as Hn by lia.
  unfold gdb_load, range_text. fold n. set (A := hex_digits 16 a). set (N := hex_digits 16 (Z.of_nat n)).
  pose proof (hex_digits_length 16 a) as HA. fold A in HA. pose proof (hex_digits_length 16 (Z.of_nat n)) as HN. fold N in HN.
  change (str "m" ++ A ++ [44] ++ N) with (109 :: A ++ 44 :: N). pose proof (proj2 (find_comma N ltac:(lia))) as Hf. fold A in Hf. rewrite Hf. clear Hf.
  assert (substr (109 :: A ++ 44 :: N) 1 (1 + Z.of_nat (length A)) = Ret (A ++ [44])) as ->.
  { change (109 :: A ++ 44 :: N) with ([109] ++ A ++ [44] ++ N). rewrite (app_assoc A).
    apply substr_mid; [done|]. rewrite length_app. cbn [length]. lia. }
  rewrite (uN_id 64) by (split; lia).
  assert (substr_from (109 :: A ++ 44 :: N) (1 + Z.of_nat (length A) + 1) = Ret N) as ->.
  { change (109 :: A ++ 44 :: N) with ((109 :: A) ++ [44] ++ N). rewrite app_assoc. apply substr_rest; rewrite ?length_app; cbn [length]; unfold npos; lia. }
  unfold lift_out. cbv [mbind ST_bind outcome_bind]. unfold A at 1. rewrite stoul_hex; [|split; lia|done].
  unfold N at 1. rewrite <- (app_nil_r (hex_digits 16 _)), stoul_hex; [|split; lia|done].
  unfold need_hart, gets. cbv [mbind ST_bind]. rewrite Hact. cbn [negb andb]. unfold mret, ST_ret. rewrite Nat2Z.id.
  pose proof (load_range_ok g Hr Hm Hb) as Hs. fold n in Hs. by rewrite Hs.
Qed.

(** Memory. Without paging, the bytes a client stores in RAM with [M] are
    those [m] answers with afterwards; nothing else in RAM has changed. *)
Lemma gdb_memory g : in_ram (g_world g) -> g_active g = true -> getf (satp (hart (g_world g))) Satp.mode = 0 -> exists s',
  let g' := sent (str "OK") (set_world s' g) in
  run_packet USE_FPU (str "M" ++ range_text ++ [58] ++ hex_bytes bs) g = Ret (tt, g') /\
  run_packet USE_FPU (str "m" ++ range_text) g' = Ret (tt, sent (hex_bytes bs) g') /\
  (forall pa sz, 0 <= sz -> pa + sz <= a \/ a + Z.of_nat (length bs) <= pa -> dram s' pa sz = dram (g_world g) pa sz).
Proof.
  intros Hr Hact Hm. destruct (gdb_store_ok g Hr Hact Hm) as (s' & Hs & Hly & Hsat & Hb & Ho). exists s'. intros g'.
  change (run_packet USE_FPU (str "M" ++ range_text ++ [58] ++ hex_bytes bs) g) with (gdb_store (str "M" ++ range_text ++ [58] ++ hex_bytes bs) g).
  change (run_packet USE_FPU (str "m" ++ range_text) g') with (gdb_load (str "m" ++ range_text) g').
  split; [exact Hs|]. split; [|exact Ho]. apply gdb_load_ok; [by eapply in_ram_layout|done| |done]. cbn [g' g_world sent add_sent set_world]. by rewrite Hsat.
Qed.
End memory.

(** ** The description of the registers *)

Section description.
Context {B : Type} `{!BusOps B} (USE_FPU : bool).
Implicit Types (g : Stub B).

Definition xml_request (off len : Z) : list Z :=
  str "qXfer:features:read:target.xml:" ++ hex_digits 16 off ++ [44] ++ hex_digits 16 len.

Lemma xfer_ok g off len : 0 <= off <= Z.of_nat (length (xml_target_description g)) -> 0 < len < 2 ^ 32 ->
  Z.of_nat (length (xml_target_description g)) < 2 ^ 32 ->
  run_packet USE_FPU (xml_request off len) g =
  Ret (tt, sent ((if Z.of_nat (length (xml_target_description g)) <=? off + len then 108 else 109) ::
    take (Z.to_nat len) (drop (Z.to_nat off) (xml_target_description g))) g).
Proof.
  intros Ho Hl Hx. set (xml := xml_target_description g) in *. set (A := hex_digits 16 off). set (N := hex_digits 16 len).
  pose proof (hex_digits_length 16 off) as HA. fold A in HA. pose proof (hex_digits_length 16 len) as HN. fold N in HN.
  change (run_packet USE_FPU (xml_request off len) g) with (xfer (xml_request off len) g).
  unfold xfer, xml_request. fold A N. rewrite substr_rest; [|done|rewrite !length_app; change (length (str _)) with 31%nat; cbn [length]; unfold npos; lia].
  unfold lift_out. cbv [mbind ST_bind outcome_bind].
  assert (find_char 44 (A ++ [44] ++ N) = Z.of_nat (length A)) as ->.
  { unfold find_char. change ([44] ++ N) with (44 :: N). rewrite find_from_app; [lia|]. apply hex_digits_not; [done|lia]. }
  rewrite (proj2 (Z.eqb_neq _ npos)) by (unfold npos; lia). rewrite (substr_front A _ _ eq_refl).
  unfold A at 1. rewrite <- (app_nil_r (hex_digits 16 off)), stoul_hex; [|split; lia|done]. rewrite (uN_id 64) by (split; lia).
  rewrite app_assoc, substr_rest; [|rewrite length_app; cbn [length]; lia|rewrite !length_app; cbn [length]; unfold npos; lia].
  unfold N. rewrite <- (app_nil_r (hex_digits 16 len)), stoul_hex; [|split; lia|done].
  unfold gets. fold xml. rewrite (uN_id 64) by (split; lia). unfold substr. rewrite (proj2 (Z.ltb_ge _ _)) by lia.
  assert (take (Z.to_nat (Z.min len (Z.of_nat (length xml)))) (drop (Z.to_nat off) xml) = take (Z.to_nat len) (drop (Z.to_nat off) xml)) as ->.
  { destruct (Z.min_spec len (Z.of_nat (length xml))) as [[? ->]|[? ->]]; [done|]. rewrite !take_ge by (rewrite length_drop; lia). done. }
  destruct (Z.of_nat (length xml) <=? off + len); done.
Qed.

(** A client that asks for the description in pieces of [len] from [off] on,
    until the answer that starts with [l]. *)
Fixpoint download (fuel : nat) (off len : Z) (got : list Z) (g : Stub B) : option (list Z) :=
  match fuel with
  | O => None
  | S fuel =>
      match run_packet USE_FPU (xml_request off len) g with
      | Ret (_, g) =>
          match unformat_packet (default [] (last (g_sent g))) with
          | Ret (109 :: piece) => download fuel (off + Z.of_nat (length piece)) len (got ++ piece) g
          | Ret (108 :: piece) => Some (got ++ piece)
          | _ => None
          end
      | _ => None
      end
  end.

Lemma unformat_sent p g : Z.of_nat (length p) < 2 ^ 33 -> unformat_packet (default [] (last (g_sent (sent p g)))) = Ret p.
Proof.
  intros Hp. unfold sent, add_sent. cbn [g_sent]. rewrite last_snoc. unfold format_packet. change (default [] (Some ?x)) with x. unfold unformat_packet.
  rewrite !length_app, format_02x_length. cbn [length]. rewrite (proj2 (Z.ltb_ge _ 4)) by lia. apply substr_mid; [done|lia].
Qed.

Lemma download_ok fuel off len g : 0 < len < 2 ^ 32 -> Z.of_nat (length (xml_target_description g)) < 2 ^ 32 ->
  0 <= off <= Z.of_nat (length (xml_target_description g)) -> Z.of_nat (length (xml_target_description g)) - off < Z.of_nat fuel * len ->
  download fuel off len (take (Z.to_nat off) (xml_target_description g)) g = Some (xml_target_description g).
Proof.
  intros Hl Hx. revert off g Hx. induction fuel as [|fuel IH]; intros off g Hx Ho Hf; [lia|].
  cbn [download]. rewrite xfer_ok by done. set (xml := xml_target_description g) in *. set (piece := take _ (drop _ xml)).
  assert (Z.of_nat (length piece) = Z.min len (Z.of_nat (length xml) - off)) as Hp by (unfold piece; rewrite length_take, length_drop; lia).
  rewrite unformat_sent by (cbn [length]; lia).
  assert (take (Z.to_nat off) xml ++ piece = take (Z.to_nat off + Z.to_nat len) xml) as Hq by (unfold piece; by rewrite take_take_drop).
  destruct (Z.leb_spec (Z.of_nat (length xml)) (off + len)).
  - f_equal. rewrite Hq. apply take_ge. lia.
  - rewrite Hq. replace (Z.to_nat off + Z.to_nat len)%nat with (Z.to_nat (off + Z.of_nat (length piece))) by lia.
    exact (IH (off + Z.of_nat (length piece)) (sent (109 :: piece) g) Hx ltac:(cbn; fold xml; lia) ltac:(cbn; fold xml; lia)).
Qed.

(** A client that reads the description of the registers in pieces of any
    size, after [start], has the whole text of [create_xml] after one more
    request than full pieces fit in it, the last answer being the one marked
    as the last. *)
Lemma gdb_description g harts len : 0 < len < 2 ^ 32 -> exists g',
  start USE_FPU harts g = Ret (tt, g') /\
  download (S (Z.to_nat (Z.of_nat (length (create_xml USE_FPU)) / len))) 0 len [] g' = Some (create_xml USE_FPU).
Proof.
  intros Hl. unfold start, modify. cbv [mbind ST_bind]. eexists. split; [reflexivity|]. set (g' := mkStub _ _ _ _ _ _ _ _ _).
  assert (xml_target_description g' = create_xml USE_FPU) as E by done. rewrite <- E.
  assert (Z.of_nat (length (xml_target_description g')) < 2 ^ 32) as Hx by (rewrite E; by destruct USE_FPU; vm_compute).
  pose proof (download_ok (S (Z.to_nat (Z.of_nat (length (xml_target_description g')) / len))) 0 len g' Hl Hx ltac:(lia)) as Hd.
  apply Hd. pose proof (Z.mod_pos_bound (Z.of_nat (length (xml_target_description g'))) len). 
  pose proof (Z.div_mod (Z.of_nat (length (xml_target_description g'))) len). 
  pose proof (Z.div_pos (Z.of_nat (length (xml_target_description g'))) len). nia.
Qed.
End description.

(** ** Breakpoints *)

Section breakpoints.
Context {B : Type} `{!BusOps B} (USE_FPU : bool).
Implicit Types (g : Stub B).

(** No address is twice in the list; [kept] programs leave it so. *)
Definition bp_set g : Prop := NoDup (breakpoints g).
Definition kept {A} (m : GM (B := B) A) : Prop := hoare bp_set m (fun _ => bp_set).

Lemma kept_ret {A} (a : A) : kept (mret a).
Proof. by apply hoare_ret. Qed.
Lemma kept_bind {A C} (m : GM A) (f : A -> GM C) : kept m -> (forall a, kept (f a)) -> kept (m ≫= f).
Proof. intros Hm Hf. eapply hoare_bind; [exact Hm|exact Hf]. Qed.
Lemma kept_gets {A} (f : Stub B -> A) : kept (gets f).
Proof. by apply hoare_gets. Qed.
Lemma kept_modify f : (forall g, breakpoints (f g) = breakpoints g) -> kept (modify f).
Proof. intros Hf. apply hoare_modify. intros g. unfold bp_set. by rewrite Hf. Qed.
Lemma kept_out {A} (m : outcome A) : kept (lift_out m).
Proof. intros g Hg. unfold lift_out. by destruct m. Qed.
Lemma kept_world {A} (m : M B A) : kept (on_world m).
Proof. intros g Hg. unfold on_world. by destruct (m (g_world g)) as [[]| |]. Qed.
Lemma kept_undef {A} : kept (A := A) undef.
Proof. by intros g. Qed.
Lemma kept_if {A} (b : bool) (m1 m2 : GM A) : kept m1 -> kept m2 -> kept (if b then m1 else m2).
Proof. by destruct b. Qed.
End breakpoints.

Create HintDb kept.
#[export] Hint Resolve kept_ret kept_gets kept_out kept_world kept_undef : kept.

(** One step through a program. *)
Ltac kept_step :=
  match goal with
  | |- kept (_ ≫= _) => apply kept_bind; [|intros ?]
  | |- kept (if _ then _ else _) => apply kept_if
  | |- kept (modify _) => apply kept_modify; done
  | |- kept (match ?x with _ => _ end) => destruct x
  | |- kept (send_raw _) => unfold send_raw
  | |- kept (send_packet _) => unfold send_packet
  | |- kept (reply _) => unfold reply
  | |- kept (resume _) => unfold resume
  | |- kept the_hart => unfold the_hart
  | |- kept _ => eauto 1 with kept
  end.
Ltac kept := repeat kept_step.

Section breakpoint_commands.
Context {B : Type} `{!BusOps B} (USE_FPU : bool).
Implicit Types (g : Stub B).

Lemma kept_hart (m : GM (B := B) unit) : kept m -> kept (with_hart m).
Proof. intros Hm. unfold with_hart. kept. Qed.

Lemma kept_put_all l data : kept (B := B) (put_all l data).
Proof. induction l as [|i l IH]; cbn [put_all]; kept. Qed.

Lemma kept_store_bytes n phys i off data : kept (B := B) (store_bytes n phys i off data).
Proof. revert i. induction n as [|n IH]; intros i; cbn [store_bytes]; kept. Qed.

Lemma kept_load_bytes n phys i resp : kept (B := B) (load_bytes n phys i resp).
Proof. revert i resp. induction n as [|n IH]; intros i resp; cbn [load_bytes]; kept. Qed.

Lemma kept_store_range fuel address size off data : kept (B := B) (store_range fuel address size off data).
Proof.
  revert address size off. induction fuel as [|fuel IH]; intros address size off; cbn [store_range]; kept. apply kept_store_bytes.
Qed.

Lemma kept_load_range fuel address size resp : kept (B := B) (load_range fuel address size resp).
Proof.
  revert address size resp. induction fuel as [|fuel IH]; intros address size resp; cbn [load_range]; kept. apply kept_load_bytes.
Qed.

(** The two commands that change the list. *)
Definition bp_add (a : Z) (g : Stub B) : Stub B :=
  if has_breakpoint a (breakpoints g) then sent (str "E01") g else sent (str "OK") (set_breakpoints (breakpoints g ++ [a]) g).
Definition bp_del (a : Z) (g : Stub B) : Stub B :=
  if has_breakpoint a (breakpoints g) then sent (str "OK") (set_breakpoints (erase_breakpoint a (breakpoints g)) g) else sent (str "E01") g.

Lemma has_breakpoint_spec a l : has_breakpoint a l = true <-> a ∈ l.
Proof.
  unfold has_breakpoint. rewrite existsb_exists. split.
  - intros (x & Hx & E%Z.eqb_eq). subst x. by apply list_elem_of_In.
  - intros Ha. exists a. split; [by apply list_elem_of_In|apply Z.eqb_refl].
Qed.

Lemma erase_sub a x l : x ∈ erase_breakpoint a l -> x ∈ l.
Proof.
  induction l as [|y l IH]; cbn [erase_breakpoint]; [done|]. destruct (y =? a); rewrite !elem_of_cons; [by right|]. intros [->|H]; [by left|]. right. auto.
Qed.

Lemma erase_spec a l : NoDup l -> NoDup (erase_breakpoint a l) /\ forall x, x ∈ erase_breakpoint a l <-> x ∈ l /\ x <> a.
Proof.
  induction 1 as [|y l Hy Hl [IHn IH]]; cbn [erase_breakpoint]; [split; [constructor|]; set_solver|].
  destruct (Z.eqb_spec y a) as [->|Hne]; [split; [done|]; set_solver|]. split.
  - constructor; [|done]. by intros H%erase_sub.
  - set_solver.
Qed.

Lemma kept_bp_addr packet (k : Z -> GM (B := B) unit) : (forall a, kept (k a)) -> kept (bp_addr packet k).
Proof. intros Hk. unfold bp_addr. kept. Qed.

Lemma kept_add packet : kept (B := B) (add_breakpoint packet).
Proof.
  apply kept_bp_addr. intros a g Hg. unfold gets. cbv [mbind ST_bind]. destruct (has_breakpoint a (breakpoints g)) eqn:E; [exact Hg|].
  unfold modify, reply, send_packet, send_raw, bp_set. cbn [breakpoints set_breakpoints add_sent]. apply NoDup_app. split; [exact Hg|].
  split; [|apply NoDup_singleton]. intros x Hx ->%list_elem_of_singleton. apply has_breakpoint_spec in Hx. congruence.
Qed.

Lemma kept_remove packet : kept (B := B) (remove_breakpoint packet).
Proof.
  apply kept_bp_addr. intros a g Hg. unfold gets. cbv [mbind ST_bind]. destruct (has_breakpoint a (breakpoints g)) eqn:E; [|exact Hg].
  unfold modify, reply, send_packet, send_raw, bp_set. cbn [breakpoints set_breakpoints add_sent]. by apply erase_spec.
Qed.

Lemma kept_run_packet packet : kept (B := B) (run_packet USE_FPU packet).
Proof.
  unfold run_packet. repeat match goal with |- kept (if _ then _ else _) => apply kept_if end; try (by kept); try (apply kept_hart; unfold read_reg, write_reg, read_all, write_all).
  - unfold xfer. kept.
  - unfold vcont. kept.
  - unfold stop. kept.
  - kept.
  - kept.
  - kept.
  - kept. apply kept_put_all.
  - unfold gdb_store, need_hart. kept. apply kept_store_range.
  - unfold gdb_load, need_hart. kept. apply kept_load_range.
  - apply kept_add.
  - apply kept_remove.
Qed.

Lemma kept_loop c input : kept (B := B) (client_loop USE_FPU c input).
Proof.
  revert c. induction input as [|ch input IH]; intros c; cbn [client_loop]; [kept|]. kept. unfold receive, parse_packet. kept.
  all: apply kept_run_packet.
Qed.

Lemma bp_addr_ok z a kind (k : Z -> GM (B := B) unit) g : z <> 44 -> inw 64 a -> Z.of_nat (length kind) < 2 ^ 32 ->
  bp_addr ([z; 48; 44] ++ hex_digits 16 a ++ [44] ++ kind) k g = k a g.
Proof.
  intros Hz Ha Hk. unfold bp_addr. pose proof (hex_digits_length 16 a) as HA. set (A := hex_digits 16 a) in *.
  assert (find_char 44 ([z; 48; 44] ++ A ++ [44] ++ kind) = 2) as ->.
  { unfold find_char. change ([z; 48; 44] ++ ?l) with ([z; 48] ++ 44 :: l). rewrite find_from_app; [done|]. by repeat constructor. }
  change (2 =? npos) with false. cbv iota. rewrite substr_rest; [|done|rewrite !length_app; cbn [length]; unfold npos; lia].
  unfold lift_out. cbv [mbind ST_bind outcome_bind].
  assert (find_char 44 (A ++ [44] ++ kind) = Z.of_nat (length A)) as ->.
  { unfold find_char. change ([44] ++ kind) with (44 :: kind). rewrite find_from_app; [lia|]. apply hex_digits_not; [done|apply Ha]. }
  rewrite (substr_front A _ _ eq_refl). unfold A. by rewrite <- (app_nil_r (hex_digits 16 a)), stoul_hex.
Qed.

(** Breakpoints. Whatever a client sends, no address is twice in the list.
    [Z0] adds an address and [z0] removes it; each answers [OK] when it changed
    the list and [E01] when there was nothing to change. After a pass of the
    harts the machine halts exactly when it was single-stepping or the pc of
    hart 0 is in the list, and is no longer single-stepping. *)
Lemma gdb_breakpoints g a kind c input : NoDup (breakpoints g) -> inw 64 a -> Z.of_nat (length kind) < 2 ^ 32 ->
  is_executing g = true -> g_active g = true ->
  let request z := str z ++ hex_digits 16 a ++ [44] ++ kind in
  (match client_loop USE_FPU c input g with Ret (_, g') => NoDup (breakpoints g') | _ => True end) /\
  run_packet USE_FPU (request "Z0,"%string) g = Ret (tt, bp_add a g) /\
  run_packet USE_FPU (request "z0,"%string) g = Ret (tt, bp_del a g) /\
  (forall x, (x ∈ breakpoints (bp_add a g) <-> x ∈ breakpoints g \/ x = a) /\
    (x ∈ breakpoints (bp_del a g) <-> x ∈ breakpoints g /\ x <> a)) /\
  exists g', gdb_after_pass g = Ret (tt, g') /\ g_world g' = g_world g /\ breakpoints g' = breakpoints g /\ gdb_single_step g' = false /\
    g_mstate g' = (if gdb_single_step g || bool_decide (pc (hart (g_world g)) ∈ breakpoints g) then Halted else g_mstate g).
Proof.
  intros Hn Ha Hk He Hact request. split; [exact (kept_loop c input g Hn)|]. split; [|split; [|split]].
  - change (add_breakpoint ([90; 48; 44] ++ hex_digits 16 a ++ [44] ++ kind) g = Ret (tt, bp_add a g)).
    unfold add_breakpoint. rewrite bp_addr_ok by done. unfold gets, bp_add. cbv [mbind ST_bind]. by destruct (has_breakpoint a (breakpoints g)).
  - change (remove_breakpoint ([122; 48; 44] ++ hex_digits 16 a ++ [44] ++ kind) g = Ret (tt, bp_del a g)).
    unfold remove_breakpoint. rewrite bp_addr_ok by done. unfold gets, bp_del. cbv [mbind ST_bind]. by destruct (has_breakpoint a (breakpoints g)).
  - intros x. unfold bp_add, bp_del. destruct (has_breakpoint a (breakpoints g)) eqn:E; cbn [breakpoints sent add_sent set_breakpoints].
    + apply has_breakpoint_spec in E. split; [|by apply erase_spec]. clear -E. split; [by left|]. by intros [? | ->].
    + assert (a ∉ breakpoints g) as Hna by (rewrite <- has_breakpoint_spec; congruence). clear -Hna. split.
      * rewrite elem_of_app, list_elem_of_singleton. done.
      * split; [|by intros []]. intros Hx. split; [done|]. by intros ->.
  - assert (has_breakpoint (pc (hart (g_world g))) (breakpoints g) = bool_decide (pc (hart (g_world g)) ∈ breakpoints g)) as Hb.
    { apply eq_true_iff_eq. by rewrite has_breakpoint_spec, bool_decide_eq_true. }
    destruct g as [w act st step sig ex bps xml out]. cbn [is_executing g_active breakpoints g_world gdb_single_step g_mstate] in *. subst act ex.
    unfold gdb_after_pass, handle_gdb_breakpoints, gets, modify, the_hart. cbv [mbind ST_bind mret ST_ret]. cbn [gdb_single_step].
    destruct step; cbn -[has_breakpoint bool_decide reply]; rewrite Hb;
      (destruct (bool_decide _); [destruct sig|]); eexists; split; try reflexivity; done.
Qed.
End breakpoint_commands.
