(* ===== verification/Elf.v ===== *)
(** * Program loading ([src/elfparser.cpp], [include/elfparser.hpp], [load_buffer] of [include/memory_map.hpp])

    Images are lists of bytes. Reading an image or a region's array out of
    bounds is undefined. [parse] reads two locals before they are set: the
    initial file offset, [junk_off], and the high bytes of the word that
    receives the class byte, [junk_class]; they are arguments here. *)

From S2P Require Import Prelude Defs MemoryMap.

Definition ELF_MAGIC : Z := 0x464C457F.
Definition ELF_RISCV : Z := 0xF3.
Definition ELF_PT_LOAD : Z := 1.

(** ** Reading *)

(** The bytes [p[off .. off + n)] of an image. *)
Definition slice (buf : list Z) (off n : Z) : outcome (list Z) :=
  if (0 <=? off) && (0 <=? n) && (off + n <=? Z.of_nat (length buf))
  then Ret (take (Z.to_nat n) (drop (Z.to_nat off) buf)) else Undef.

Fixpoint le_value (bs : list Z) : Z :=
  match bs with [] => 0 | b :: bs' => b + 256 * le_value bs' end.

(** A field of [n] bytes at [o] of a structure. *)
Definition field (bs : list Z) (o n : nat) : Z := le_value (take n (drop o bs)).

Record ELF_Header := mkEH {
  e_ident : list Z; e_type : Z; e_machine : Z; e_version : Z; e_entry : Z; e_phoff : Z; e_shoff : Z;
  e_flags : Z; e_ehsize : Z; e_phentsize : Z; e_phnum : Z; e_shentsize : Z; e_shnum : Z; e_shstrndx : Z }.

Record ELF_ProgramHeader := mkPH {
  p_type : Z; p_flags : Z; p_offset : Z; p_vaddr : Z; p_paddr : Z; p_filesz : Z; p_memsz : Z; p_align : Z }.

(** [memcpy] into the structures, which have no padding. *)
Definition header_of (bs : list Z) : ELF_Header :=
  mkEH (take 16 bs) (field bs 16 2) (field bs 18 2) (field bs 20 4) (field bs 24 8) (field bs 32 8) (field bs 40 8)
    (field bs 48 4) (field bs 52 2) (field bs 54 2) (field bs 56 2) (field bs 58 2) (field bs 60 2) (field bs 62 2).

Definition pheader_of (bs : list Z) : ELF_ProgramHeader :=
  mkPH (field bs 0 4) (field bs 4 4) (field bs 8 8) (field bs 16 8) (field bs 24 8) (field bs 32 8) (field bs 40 8) (field bs 48 8).

(** [read_from_buffer] of a structure of [n] bytes, and [k] of them in a row. *)
Definition read_from_buffer (buf : list Z) (offset n : Z) : outcome (list Z * Z) :=
  bs ← slice buf offset n;
  Ret (bs, u64 (offset + n)).

Fixpoint read_many (buf : list Z) (offset n : Z) (k : nat) : outcome (list (list Z)) :=
  match k with
  | O => Ret []
  | S k' =>
      '(bs, offset) ← read_from_buffer buf offset n;
      l ← read_many buf offset n k';
      Ret (bs :: l)
  end.

(** ** Copying *)

(** [memcpy(data + off, bs)]. *)
Fixpoint put_bytes (d : gmap Z Z) (off : Z) (bs : list Z) : gmap Z Z :=
  match bs with [] => d | b :: bs' => put_bytes (<[off := b]> d) (off + 1) bs' end.

Definition copy_in (r : MemoryRegion) (off : Z) (bs : list Z) : outcome MemoryRegion :=
  if in_array r off (length bs) then Ret (mkRegion (base_addr r) (size r) (put_bytes (data r) off bs)) else Undef.

(** The body of the loop over the regions. *)
Definition load_part (buf : list Z) (ph : ELF_ProgramHeader) (r : MemoryRegion) : outcome (bool * MemoryRegion) :=
  let seg_start := p_vaddr ph in
  let seg_end := u64 (seg_start + p_memsz ph) in
  let reg_start := base_addr r in
  let reg_end := u64 (base_addr r + size r) in
  let ov_start := Z.max seg_start reg_start in
  let ov_end := Z.min seg_end reg_end in
  if ov_end <=? ov_start then Ret (false, r) else
  let file_off := u64 (p_offset ph + (ov_start - seg_start)) in
  let avail := u64 (u64 (p_offset ph + p_filesz ph) - file_off) in
  let copy_len := Z.min (ov_end - ov_start) avail in
  bs ← slice buf file_off copy_len;
  r ← copy_in r (ov_start - reg_start) bs;
  r ← (if copy_len <? ov_end - ov_start
       then copy_in r (ov_start - reg_start + copy_len) (replicate (Z.to_nat (ov_end - ov_start - copy_len)) 0)
       else Ret r);
  Ret (true, r).

Fixpoint load_regions (buf : list Z) (ph : ELF_ProgramHeader) (rs : list MemoryRegion) : outcome (bool * list MemoryRegion) :=
  match rs with
  | [] => Ret (false, [])
  | r :: rs' =>
      '(c, r) ← load_part buf ph r;
      '(c', rs') ← load_regions buf ph rs';
      Ret (c || c', r :: rs')
  end.

(** The body of the loop over the program headers. *)
Definition load_segment (buf : list Z) (m : MemoryMap) (ph : ELF_ProgramHeader) : outcome MemoryMap :=
  if negb (p_type ph =? ELF_PT_LOAD) then Ret m else
  '(covered, rs) ← load_regions buf ph (regions m);
  let m := mkMemoryMap rs (ram_direct m) in
  Ret (if (covered : bool) then m else add_region m (p_vaddr ph) (p_memsz ph)).

Fixpoint load_segments (buf : list Z) (phs : list ELF_ProgramHeader) (m : MemoryMap) : outcome MemoryMap :=
  match phs with
  | [] => Ret m
  | ph :: phs' => m ← load_segment buf m ph; load_segments buf phs' m
  end.

(** [parse]: the result, the entry point it stores and the memory. *)
Definition parse (junk_off junk_class : Z) (buf : list Z) (m : MemoryMap) : outcome (bool * option Z * MemoryMap) :=
  '(bs, _) ← read_from_buffer buf junk_off 64;
  let header := header_of bs in
  if negb (field (e_ident header) 0 4 =? ELF_MAGIC) then Ret (false, None, m) else
  if field (e_ident header) 4 1 + 256 * junk_class =? 1 then Ret (false, None, m) else
  if negb (e_machine header =? ELF_RISCV) then Ret (false, None, m) else
  phs ← read_many buf (e_phoff header) 56 (Z.to_nat (e_phnum header));
  _ ← read_many buf (e_shoff header) 64 (Z.to_nat (e_shnum header));
  m ← load_segments buf (pheader_of <$> phs) m;
  Ret (true, Some (e_entry header), m).

(** [load_buffer]: an ELF image, or raw bytes at [memory_path]. *)
Definition load_buffer (junk_off junk_class : Z) (m : MemoryMap) (memory_path : Z) (buf : list Z) (sz : Z)
  : outcome (bool * option Z * MemoryMap) :=
  magic ← slice buf 0 4;
  if le_value magic =? ELF_MAGIC then parse junk_off junk_class buf m
  else
    p ← find_region m memory_path;
    r ← deref m p;
    off ← ptr r memory_path;
    bs ← slice buf 0 sz;
    r ← copy_in r off bs;
    Ret (true, None, set_region m p r).

(** ** Specification *)

(** Byte [k] of a segment: its part of the file, then zeros. *)
Definition seg_byte (buf : list Z) (ph : ELF_ProgramHeader) (k : Z) : Z :=
  if k <? p_filesz ph then nth (Z.to_nat (p_offset ph + k)) buf 0 else 0.

Definition in_seg (ph : ELF_ProgramHeader) (x : Z) : bool :=
  (p_vaddr ph <=? x) && (x <? p_vaddr ph + p_memsz ph).

(** The byte at address [x] once the segments are loaded over [old]. *)
Definition image_byte (buf : list Z) (phs : list ELF_ProgramHeader) (x old : Z) : Z :=
  foldl (fun v ph => if (p_type ph =? ELF_PT_LOAD) && in_seg ph x then seg_byte buf ph (x - p_vaddr ph) else v) old phs.

Definition reg_ok (r : MemoryRegion) : Prop := 0 <= base_addr r /\ 0 <= size r /\ base_addr r + size r < 2 ^ 64.

(** A region and a segment have an address in common. *)
Definition overlaps (ph : ELF_ProgramHeader) (r : MemoryRegion) : bool :=
  Z.max (p_vaddr ph) (base_addr r) <? Z.min (p_vaddr ph + p_memsz ph) (base_addr r + size r).

(** The numbers of a segment whose file part is in the image. *)
Record ph_ok (buf : list Z) (ph : ELF_ProgramHeader) : Prop := {
  po_vaddr : 0 <= p_vaddr ph /\ p_vaddr ph + p_memsz ph < 2 ^ 64;
  po_size : 0 <= p_filesz ph <= p_memsz ph;
  po_file : 0 <= p_offset ph /\ p_offset ph + p_filesz ph <= Z.of_nat (length buf) }.

(** A loadable segment: it overlaps some region, and the part that overlaps a
    region starts in the file part of the segment or right behind it. *)
Record seg_ok (buf : list Z) (rs : list MemoryRegion) (ph : ELF_ProgramHeader) : Prop := {
  sg_ph : ph_ok buf ph;
  sg_cover : existsb (overlaps ph) rs = true;
  sg_start : forall i r, rs !! i = Some r -> overlaps ph r = true -> base_addr r <= p_vaddr ph + p_filesz ph }.

Lemma byte_at_insert d i v x : byte_at (<[i := v]> d) x = if x =? i then v else byte_at d x.
Proof.
  unfold byte_at. destruct (Z.eqb_spec x i) as [->|Hne]; [by rewrite lookup_insert_eq|by rewrite lookup_insert_ne].
Qed.

Lemma put_bytes_at bs : forall d off x, byte_at (put_bytes d off bs) x =
  if (off <=? x) && (x <? off + Z.of_nat (length bs)) then nth (Z.to_nat (x - off)) bs 0 else byte_at d x.
Proof.
  induction bs as [|b bs IH]; intros d off x; cbn [put_bytes length].
  - destruct (Z.leb_spec off x), (Z.ltb_spec x (off + Z.of_nat 0)); cbn [andb]; try lia; done.
  - rewrite IH, byte_at_insert.
    destruct (Z.eqb_spec x off) as [->|Hne].
    + rewrite (proj2 (Z.leb_gt (off + 1) off)) by lia. cbn [andb].
      rewrite Z.leb_refl, (proj2 (Z.ltb_lt off (off + Z.of_nat (S (length bs))))), Z.sub_diag by lia. done.
    + destruct (Z.leb_spec (off + 1) x), (Z.leb_spec off x), (Z.ltb_spec x (off + 1 + Z.of_nat (length bs))),
        (Z.ltb_spec x (off + Z.of_nat (S (length bs)))); cbn [andb]; try lia; try done.
      replace (Z.to_nat (x - off)) with (S (Z.to_nat (x - (off + 1)))) by lia. done.
Qed.

Lemma slice_in buf off n : 0 <= off -> 0 <= n -> off + n <= Z.of_nat (length buf) ->
  slice buf off n = Ret (take (Z.to_nat n) (drop (Z.to_nat off) buf)) /\
  length (take (Z.to_nat n) (drop (Z.to_nat off) buf)) = Z.to_nat n.
Proof.
  intros. unfold slice. rewrite (proj2 (Z.leb_le 0 off)), (proj2 (Z.leb_le 0 n)), (proj2 (Z.leb_le (off + n) _)) by lia.
  split; [done|]. rewrite length_take, length_drop. lia.
Qed.

(** A byte of a slice. *)
Lemma nth_slice (buf : list Z) off n k : 0 <= off -> 0 <= k < n ->
  nth (Z.to_nat k) (take (Z.to_nat n) (drop (Z.to_nat off) buf)) 0 = nth (Z.to_nat (off + k)) buf 0.
Proof.
  intros H0 Hk. rewrite !nth_lookup, lookup_take_lt, lookup_drop by lia. do 2 f_equal. lia.
Qed.

Lemma nth_zeros n k : nth k (replicate n 0) 0 = 0.
Proof. revert k. induction n as [|n IH]; intros [|k]; try done. apply IH. Qed.

Definition with_data (r : MemoryRegion) (d : gmap Z Z) : MemoryRegion := mkRegion (base_addr r) (size r) d.

Lemma copy_in_ok r off bs : 0 <= off -> off + Z.of_nat (length bs) <= size r -> copy_in r off bs = Ret (with_data r (put_bytes (data r) off bs)).
Proof. intros. unfold copy_in, in_array. by rewrite (proj2 (Z.leb_le 0 off)), (proj2 (Z.leb_le (_ + _) _)) by lia. Qed.

(** The layout of a memory map. *)
Definition same_place (r r' : MemoryRegion) : Prop := base_addr r' = base_addr r /\ size r' = size r.

(** Region [r] becomes [r'], whose byte at address [x] is [f x] of the old one. *)
Definition becomes (f : Z -> Z -> Z) (r r' : MemoryRegion) : Prop :=
  same_place r r' /\ forall x, base_addr r <= x < base_addr r + size r ->
    byte_at (data r') (x - base_addr r) = f x (byte_at (data r) (x - base_addr r)).

(** Region [r] after the segments are loaded. *)
Definition loaded (buf : list Z) (phs : list ELF_ProgramHeader) : MemoryRegion -> MemoryRegion -> Prop :=
  becomes (image_byte buf phs).

(** The part of a segment that overlaps a region, with [avail] bytes of it in
    the file. *)
Lemma load_part_copy buf ph r avail : Z.of_nat (length buf) < 2 ^ 64 -> 0 <= p_vaddr ph -> 0 <= p_offset ph ->
  p_vaddr ph + p_memsz ph < 2 ^ 64 -> reg_ok r -> overlaps ph r = true ->
  let s := Z.max (p_vaddr ph) (base_addr r) in
  let e := Z.min (p_vaddr ph + p_memsz ph) (base_addr r + size r) in
  let off := p_offset ph + (s - p_vaddr ph) in
  off < 2 ^ 64 -> u64 (u64 (p_offset ph + p_filesz ph) - off) = avail ->
  off + Z.min (e - s) avail <= Z.of_nat (length buf) ->
  exists r', load_part buf ph r = Ret (true, r') /\
    becomes (fun x old => if (s <=? x) && (x <? e)
                          then if x - s <? avail then nth (Z.to_nat (off + (x - s))) buf 0 else 0 else old) r r'.
Proof.
  intros Hb Hv Ho Hm (H0 & H1 & H2) Hov s e off Hoff Hav Hin. unfold load_part, overlaps in *.
  pose proof (uN_inw 64 (u64 (p_offset ph + p_filesz ph) - off) ltac:(lia)) as [Ha0 Ha1]. rewrite Hav in Ha0, Ha1.
  apply Z.ltb_lt in Hov. fold s e in Hov.
  rewrite (uN_id 64 (p_vaddr ph + _)), (uN_id 64 (base_addr r + _)) by (unfold inw; lia).
  fold s e. rewrite (proj2 (Z.leb_gt _ _)) by lia. fold off. rewrite (uN_id 64 off) by (unfold inw, off in *; lia).
  rewrite Hav. assert (0 <= off) by (unfold off, s; lia).
  destruct (slice_in buf off (Z.min (e - s) avail)) as [-> Hlen]; [lia..|]. cbn [mbind outcome_bind].
  rewrite copy_in_ok by (rewrite ?Hlen; unfold s, e in *; lia). cbn [mbind outcome_bind].
  destruct (Z.ltb_spec (Z.min (e - s) avail) (e - s)) as [Hlt|Hge]; cbn [mbind outcome_bind].
  - rewrite copy_in_ok by (cbn [with_data size]; rewrite ?length_replicate; unfold s, e in *; lia).
    eexists. split; [reflexivity|]. split; [done|]. intros x Hx. cbn [with_data data base_addr].
    rewrite !put_bytes_at, length_replicate, Hlen, nth_zeros.
    destruct (Z.leb_spec s x), (Z.ltb_spec x e), (Z.ltb_spec (x - s) avail),
      (Z.leb_spec (s - base_addr r + Z.min (e - s) avail) (x - base_addr r)),
      (Z.ltb_spec (x - base_addr r) (s - base_addr r + Z.min (e - s) avail + Z.of_nat (Z.to_nat (e - s - Z.min (e - s) avail)))),
      (Z.leb_spec (s - base_addr r) (x - base_addr r)),
      (Z.ltb_spec (x - base_addr r) (s - base_addr r + Z.of_nat (Z.to_nat (Z.min (e - s) avail)))); cbn [andb]; try lia; try done.
    replace (x - base_addr r - (s - base_addr r)) with (x - s) by lia. by rewrite nth_slice by lia.
  - eexists. split; [reflexivity|]. split; [done|]. intros x Hx. cbn [with_data data base_addr].
    rewrite put_bytes_at, Hlen.
    destruct (Z.leb_spec s x), (Z.ltb_spec x e), (Z.ltb_spec (x - s) avail), (Z.leb_spec (s - base_addr r) (x - base_addr r)),
      (Z.ltb_spec (x - base_addr r) (s - base_addr r + Z.of_nat (Z.to_nat (Z.min (e - s) avail)))); cbn [andb]; try lia; try done.
    replace (x - base_addr r - (s - base_addr r)) with (x - s) by lia. by rewrite nth_slice by lia.
Qed.

Lemma overlaps_none ph r : 0 <= p_vaddr ph -> p_vaddr ph + p_memsz ph < 2 ^ 64 -> 0 <= p_memsz ph -> reg_ok r ->
  overlaps ph r = false -> forall buf, load_part buf ph r = Ret (false, r).
Proof.
  intros Hv Hm H (H0 & H1 & H2) Hov%Z.ltb_ge buf. unfold load_part.
  rewrite (uN_id 64 (p_vaddr ph + _)), (uN_id 64 (base_addr r + _)) by (unfold inw; lia).
  by rewrite (proj2 (Z.leb_le _ _)).
Qed.

Section segments.
Context (buf : list Z) (Hbuf : Z.of_nat (length buf) < 2 ^ 64).

(** One region of one loadable segment. *)
Lemma load_part_spec ph r : p_type ph = ELF_PT_LOAD -> ph_ok buf ph -> reg_ok r ->
  (overlaps ph r = true -> base_addr r <= p_vaddr ph + p_filesz ph) ->
  exists r', load_part buf ph r = Ret (overlaps ph r, r') /\ loaded buf [ph] r r'.
Proof.
  intros Ht [[Hv Hm] [Hf0 Hf] [Ho Hl]] Hr Hst. unfold loaded, image_byte. cbn [foldl].
  rewrite Ht, Z.eqb_refl. cbn [andb]. destruct (overlaps ph r) eqn:Hov.
  - specialize (Hst eq_refl). pose proof Hov as Hov'%Z.ltb_lt.
    assert (u64 (u64 (p_offset ph + p_filesz ph) - (p_offset ph + (Z.max (p_vaddr ph) (base_addr r) - p_vaddr ph)))
            = p_vaddr ph + p_filesz ph - Z.max (p_vaddr ph) (base_addr r)) as Hav.
    { rewrite (uN_id 64 (p_offset ph + _)) by (split; lia). rewrite uN_id by (split; lia). lia. }
    destruct (load_part_copy buf ph r _ Hbuf Hv Ho Hm Hr Hov ltac:(lia) Hav ltac:(lia)) as (r' & -> & Hp & Hx).
    exists r'. split; [done|]. split; [done|]. intros x Hrx. rewrite Hx by done. unfold in_seg, seg_byte.
    replace (p_offset ph + (Z.max (p_vaddr ph) (base_addr r) - p_vaddr ph) + (x - Z.max (p_vaddr ph) (base_addr r)))
      with (p_offset ph + (x - p_vaddr ph)) by lia.
    destruct (Z.leb_spec (Z.max (p_vaddr ph) (base_addr r)) x), (Z.leb_spec (p_vaddr ph) x),
      (Z.ltb_spec x (Z.min (p_vaddr ph + p_memsz ph) (base_addr r + size r))), (Z.ltb_spec x (p_vaddr ph + p_memsz ph)),
      (Z.ltb_spec (x - p_vaddr ph) (p_filesz ph)),
      (Z.ltb_spec (x - Z.max (p_vaddr ph) (base_addr r)) (p_vaddr ph + p_filesz ph - Z.max (p_vaddr ph) (base_addr r)));
      cbn [andb]; try lia; done.
  - exists r. rewrite overlaps_none by (done || lia). split; [done|]. split; [done|]. intros x Hx.
    apply Z.ltb_ge in Hov. unfold in_seg.
    destruct (Z.leb_spec (p_vaddr ph) x), (Z.ltb_spec x (p_vaddr ph + p_memsz ph)); cbn [andb]; try done. lia.
Qed.

Lemma load_regions_spec ph rs : p_type ph = ELF_PT_LOAD -> ph_ok buf ph -> Forall reg_ok rs ->
  (forall i r, rs !! i = Some r -> overlaps ph r = true -> base_addr r <= p_vaddr ph + p_filesz ph) ->
  exists rs', load_regions buf ph rs = Ret (existsb (overlaps ph) rs, rs') /\ Forall2 (loaded buf [ph]) rs rs'.
Proof.
  intros Ht Hph Hok Hst. induction Hok as [|r rs Hr Hok IH]; [by exists []|]. cbn [load_regions existsb].
  destruct (load_part_spec ph r Ht Hph Hr (Hst 0%nat r eq_refl)) as (r' & -> & Hl).
  destruct IH as (rs' & -> & Hls); [intros i q Hi; by apply (Hst (S i))|].
  exists (r' :: rs'). split; [done|]. by constructor.
Qed.

Lemma Forall2_same {A} (R : A -> A -> Prop) l : (forall x, R x x) -> Forall2 R l l.
Proof. intros. induction l; by constructor. Qed.

Lemma load_segment_spec ph m : Forall reg_ok (regions m) -> (p_type ph = ELF_PT_LOAD -> seg_ok buf (regions m) ph) ->
  exists m', load_segment buf m ph = Ret m' /\ ram_direct m' = ram_direct m /\ Forall2 (loaded buf [ph]) (regions m) (regions m').
Proof.
  intros Hok Hseg. unfold load_segment. destruct (Z.eqb_spec (p_type ph) ELF_PT_LOAD) as [E|E]; cbn [negb].
  - destruct (Hseg E) as [Hph Hc Hst].
    destruct (load_regions_spec ph (regions m) E Hph Hok Hst) as (rs' & -> & Hl).
    cbn [mbind outcome_bind]. rewrite Hc. eexists. by split_and!.
  - exists m. split; [done|]. split; [done|]. apply Forall2_same. intros r. split; [done|].
    intros x Hx. unfold image_byte. cbn [foldl]. by rewrite (proj2 (Z.eqb_neq _ _) E).
Qed.

Lemma overlaps_place ph r r' : same_place r r' -> overlaps ph r' = overlaps ph r.
Proof. intros [Hb Hs]. unfold overlaps. by rewrite Hb, Hs. Qed.

Lemma seg_ok_layout rs rs' ph : Forall2 same_place rs rs' -> seg_ok buf rs ph -> seg_ok buf rs' ph.
Proof.
  intros Hl [Hp Hc Hst]. split; [done| |].
  - rewrite <- Hc. clear -Hl. induction Hl as [|r r' rs rs' Hr Hl IH]; [done|]. cbn [existsb].
    by rewrite IH, (overlaps_place ph r r').
  - intros i r' Hi. destruct (Forall2_lookup_r _ _ _ _ _ Hl Hi) as (r & Hr & Hpl).
    rewrite (overlaps_place ph r r') by done. destruct Hpl as [-> _]. by apply (Hst i).
Qed.

Lemma reg_ok_layout rs rs' : Forall2 same_place rs rs' -> Forall reg_ok rs -> Forall reg_ok rs'.
Proof.
  intros Hl Hok. apply Forall_lookup_2. intros i r' Hi. destruct (Forall2_lookup_r _ _ _ _ _ Hl Hi) as (r & Hr & Hb & Hs).
  unfold reg_ok. rewrite Hb, Hs. by apply (Forall_lookup_1 _ _ _ _ Hok Hr).
Qed.

Lemma load_segments_spec phs : forall m, Forall reg_ok (regions m) ->
  Forall (fun ph => p_type ph = ELF_PT_LOAD -> seg_ok buf (regions m) ph) phs ->
  exists m', load_segments buf phs m = Ret m' /\ ram_direct m' = ram_direct m /\ Forall2 (loaded buf phs) (regions m) (regions m').
Proof.
  induction phs as [|ph phs IH]; intros m Hok Hseg; cbn [load_segments].
  - exists m. split; [done|]. split; [done|]. by apply Forall2_same.
  - apply List.Forall_cons_iff in Hseg as [Hph Hseg]. destruct (load_segment_spec ph m Hok Hph) as (m1 & -> & Hd1 & Hl1). cbn [mbind outcome_bind].
    assert (Forall2 same_place (regions m) (regions m1)) as Hp1.
    { eapply Forall2_impl; [exact Hl1|]. by intros r r' []. }
    destruct (IH m1) as (m' & -> & Hd & Hl); [by apply (reg_ok_layout (regions m))|..].
    { apply Forall_forall. intros q Hq Ht. rewrite Forall_forall in Hseg. apply (seg_ok_layout (regions m)); [done|]. by apply Hseg. }
    exists m'. split; [done|]. split; [congruence|]. apply Forall2_same_length_lookup_2.
    { rewrite (Forall2_length _ _ _ Hl1). by apply (Forall2_length _ _ _ Hl). }
    intros j r r2 Hj Hj2. destruct (Forall2_lookup_l _ _ _ _ _ Hl1 Hj) as (r1 & Hj1 & [Hb1 Hs1] & Hx1).
    destruct (Forall2_lookup_lr _ _ _ _ _ _ Hl Hj1 Hj2) as [[Hb2 Hs2] Hx2]. split; [split; congruence|].
    intros x Hx. rewrite <- Hb1 at 1. rewrite Hx2 by (rewrite Hb1, Hs1; done). rewrite Hb1, Hx1 by done. done.
Qed.

Lemma load_regions_none ph rs : 0 <= p_vaddr ph -> p_vaddr ph + p_memsz ph < 2 ^ 64 -> 0 <= p_memsz ph ->
  Forall reg_ok rs -> existsb (overlaps ph) rs = false -> load_regions buf ph rs = Ret (false, rs).
Proof.
  intros Hv Hm H0 Hok. induction Hok as [|r rs Hr Hok IH]; [done|]. cbn [load_regions existsb].
  intros [Ho Hc]%orb_false_iff. rewrite overlaps_none by done. cbn [mbind outcome_bind]. by rewrite IH.
Qed.

(** A region that starts behind the file part of a segment: the count of bytes
    left in the file wraps around and the whole overlap is copied. *)
Lemma load_part_bss ph r : ph_ok buf ph -> p_offset ph + p_memsz ph < 2 ^ 64 -> reg_ok r -> overlaps ph r = true ->
  p_vaddr ph + p_filesz ph < base_addr r ->
  let e := Z.min (p_vaddr ph + p_memsz ph) (base_addr r + size r) in
  if p_offset ph + (e - p_vaddr ph) <=? Z.of_nat (length buf)
  then exists r', load_part buf ph r = Ret (true, r') /\
    becomes (fun x old => if in_seg ph x then nth (Z.to_nat (p_offset ph + (x - p_vaddr ph))) buf 0 else old) r r'
  else load_part buf ph r = Undef.
Proof.
  intros [[Hv Hm] [Hf0 Hf] [Ho Hl]] Hof Hr Hov Hbss e. pose proof Hov as Hov'%Z.ltb_lt. fold e in Hov'.
  rewrite Z.max_r in Hov' by lia. pose proof Hr as (H0 & H1 & H2).
  assert (u64 (u64 (p_offset ph + p_filesz ph) - (p_offset ph + (base_addr r - p_vaddr ph)))
          = p_vaddr ph + p_filesz ph - base_addr r + 2 ^ 64) as Hav.
  { rewrite (uN_id 64 (p_offset ph + _)) by (split; lia). unfold uN. symmetry.
    apply (Z.mod_unique_pos _ _ (-1)); lia. }
  destruct (Z.leb_spec (p_offset ph + (e - p_vaddr ph)) (Z.of_nat (length buf))) as [Hin|Hout].
  - rewrite <- (Z.max_r (p_vaddr ph) (base_addr r)) in Hav at 1 by lia.
    destruct (load_part_copy buf ph r _ Hbuf Hv Ho Hm Hr Hov ltac:(lia) Hav ltac:(lia)) as (r' & -> & Hp & Hx).
    exists r'. split; [done|]. split; [done|]. intros x Hrx. rewrite Hx by done. rewrite Z.max_r by lia.
    replace (p_offset ph + (base_addr r - p_vaddr ph) + (x - base_addr r)) with (p_offset ph + (x - p_vaddr ph)) by lia.
    fold e. unfold in_seg. destruct (Z.leb_spec (base_addr r) x), (Z.ltb_spec x e), (Z.leb_spec (p_vaddr ph) x),
      (Z.ltb_spec x (p_vaddr ph + p_memsz ph)),
      (Z.ltb_spec (x - base_addr r) (p_vaddr ph + p_filesz ph - base_addr r + 2 ^ 64)); cbn [andb]; try lia; done.
  - unfold load_part. rewrite (uN_id 64 (p_vaddr ph + _)), (uN_id 64 (base_addr r + _)) by (unfold inw; lia).
    rewrite (Z.max_r (p_vaddr ph)) by lia. fold e. rewrite (proj2 (Z.leb_gt _ _)) by lia.
    rewrite (uN_id 64 (p_offset ph + (base_addr r - p_vaddr ph))) by (split; lia). rewrite Hav, Z.min_l by lia.
    unfold slice. rewrite (proj2 (Z.leb_gt _ (Z.of_nat (length buf)))) by lia. by rewrite andb_false_r.
Qed.
End segments.

Lemma read_many_spec buf n : 0 < n -> Z.of_nat (length buf) < 2 ^ 64 -> forall k off, 0 <= off -> off + n * Z.of_nat k <= Z.of_nat (length buf) ->
  read_many buf off n k = Ret ((fun i => take (Z.to_nat n) (drop (Z.to_nat (off + n * Z.of_nat i)) buf)) <$> seq 0 k).
Proof.
  intros Hn Hb. induction k as [|k IH]; intros off H0 Hk; [done|]. cbn [read_many]. unfold read_from_buffer.
  rewrite (proj1 (slice_in buf off n ltac:(lia) ltac:(lia) ltac:(lia))). cbn [mbind outcome_bind].
  rewrite uN_id by (unfold inw; lia). rewrite IH by lia. cbn [mbind outcome_bind seq fmap list_fmap].
  f_equal. f_equal; [by rewrite Z.mul_0_r, Z.add_0_r|]. rewrite <- seq_shift, <- list_fmap_compose. apply list_fmap_ext.
  intros i x _. cbn. do 2 f_equal. lia.
Qed.

(** The header [parse] reads at offset [j], and the program headers. *)
Definition elf_header (j : Z) (buf : list Z) : ELF_Header := header_of (take 64 (drop (Z.to_nat j) buf)).
Definition elf_pheaders (j : Z) (buf : list Z) : list ELF_ProgramHeader :=
  let h := elf_header j buf in
  (fun i => pheader_of (take 56 (drop (Z.to_nat (e_phoff h + 56 * Z.of_nat i)) buf))) <$> seq 0 (Z.to_nat (e_phnum h)).

(** The magic number, a class other than 32-bit and the RISC-V machine. *)
Definition elf_supported (j c : Z) (buf : list Z) : bool :=
  let h := elf_header j buf in
  (field (e_ident h) 0 4 =? ELF_MAGIC) && negb (field (e_ident h) 4 1 + 256 * c =? 1) && (e_machine h =? ELF_RISCV).

(** The tables lie in the file. *)
Definition elf_ok (j : Z) (buf : list Z) : Prop :=
  let h := elf_header j buf in let len := Z.of_nat (length buf) in
  0 <= e_phoff h /\ e_phoff h + 56 * Z.of_nat (Z.to_nat (e_phnum h)) <= len /\
  0 <= e_shoff h /\ e_shoff h + 64 * Z.of_nat (Z.to_nat (e_shnum h)) <= len.

(** C29: program loading, for any contents [j] and [c] of the two locals that
    [parse] reads uninitialised, the offset of the header and the high bytes of
    the class (with both 0 it reads the file's own header and class). An
    unsupported image is refused and memory is untouched. A supported one whose
    loadable segments each overlap some region, in parts that start within the
    segment's file part or right behind it, is loaded: the entry point is
    returned and every byte of every region, however many of them a segment
    spans, is the one the last loadable segment that covers it describes (file
    contents, then zeros up to the memory size), or else is unchanged. Outside
    that: a segment no region overlaps is given a region of zeros and its
    contents are not loaded; and a region that starts behind the file part of a
    segment receives the bytes that follow in the file instead of zeros, the
    read being undefined where the file ends before. *)
Theorem elf_load j c buf m : Z.of_nat (length buf) < 2 ^ 64 -> Forall reg_ok (regions m) ->
  (~ (0 <= j /\ j + 64 <= Z.of_nat (length buf)) -> parse j c buf m = Undef) /\
  (0 <= j /\ j + 64 <= Z.of_nat (length buf) ->
   (elf_supported j c buf = false -> parse j c buf m = Ret (false, None, m)) /\
   (elf_supported j c buf = true -> elf_ok j buf ->
    Forall (fun ph => p_type ph = ELF_PT_LOAD -> seg_ok buf (regions m) ph) (elf_pheaders j buf) ->
    exists m', parse j c buf m = Ret (true, Some (e_entry (elf_header j buf)), m') /\ ram_direct m' = ram_direct m /\
      Forall2 (loaded buf (elf_pheaders j buf)) (regions m) (regions m'))) /\
  (forall ph, p_type ph = ELF_PT_LOAD -> 0 <= p_vaddr ph -> 0 <= p_memsz ph -> p_vaddr ph + p_memsz ph < 2 ^ 64 ->
   existsb (overlaps ph) (regions m) = false -> load_segment buf m ph = Ret (add_region m (p_vaddr ph) (p_memsz ph))) /\
  (forall ph r, r ∈ regions m -> ph_ok buf ph -> p_offset ph + p_memsz ph < 2 ^ 64 -> overlaps ph r = true ->
   p_vaddr ph + p_filesz ph < base_addr r ->
   if p_offset ph + (Z.min (p_vaddr ph + p_memsz ph) (base_addr r + size r) - p_vaddr ph) <=? Z.of_nat (length buf)
   then exists r', load_part buf ph r = Ret (true, r') /\
     becomes (fun x old => if in_seg ph x then nth (Z.to_nat (p_offset ph + (x - p_vaddr ph))) buf 0 else old) r r'
   else load_part buf ph r = Undef).
Proof.
  intros Hsize Hok. split; [|split; [|split]].
  - intros Hj. unfold parse, read_from_buffer, slice.
    destruct (Z.leb_spec 0 j), (Z.leb_spec (j + 64) (Z.of_nat (length buf))); try done. lia.
  - intros [Hj0 Hj].
    assert (read_from_buffer buf j 64 = Ret (take 64 (drop (Z.to_nat j) buf), j + 64)) as Hread.
    { unfold read_from_buffer. rewrite (proj1 (slice_in buf j 64 ltac:(lia) ltac:(lia) ltac:(lia))).
      cbn [mbind outcome_bind]. by rewrite uN_id by (split; lia). }
    unfold parse, elf_supported. rewrite Hread. cbn [mbind outcome_bind]. fold (elf_header j buf). split.
    + intros Hsup. destruct (field (e_ident (elf_header j buf)) 0 4 =? ELF_MAGIC), (_ =? 1),
        (e_machine (elf_header j buf) =? ELF_RISCV); try done.
    + intros Hsup (Hp0 & Hp1 & Hs0 & Hs1) Hseg.
      apply andb_true_iff in Hsup as [Hsup ->]. apply andb_true_iff in Hsup as [-> Hc]. apply negb_true_iff in Hc as ->. cbn [negb].
      rewrite (read_many_spec buf 56), (read_many_spec buf 64) by (lia || done). cbn [mbind outcome_bind].
      rewrite <- list_fmap_compose.
      destruct (load_segments_spec buf Hsize (elf_pheaders j buf) m Hok Hseg) as (m' & He & Hd & Hl).
      change (load_segments buf _ m) with (load_segments buf (elf_pheaders j buf) m). rewrite He. cbn [mbind outcome_bind]. by exists m'.
  - intros ph Ht Hv H0 Hm Hout. unfold load_segment. rewrite Ht, Z.eqb_refl. cbn [negb].
    rewrite load_regions_none by done. cbn [mbind outcome_bind]. by destruct m.
  - intros ph r Hr Hph Hof Hov Hst. apply (load_part_bss buf Hsize); try done.
    rewrite Forall_forall in Hok. by apply Hok.
Qed.
