(* ===== verification/X86.v ===== *)
(** * The host processor: the part of x86-64 that generated code uses

    A reference for the code that [src/jit/] emits, written from the
    instruction-set manual and not from the program: the operands and
    instructions, how bytes decode to them, and what each does to the
    registers, the flags and the memory. An instruction or an encoding outside
    this part does not decode, a flag the manual leaves undefined is [None]
    (so is every flag after a shift or a multiplication), and a division that
    raises #DE has no result. *)

From S2P Require Import Prelude.

(** ** Instructions *)

Inductive opsize := B8 | B16 | B32 | B64.

Definition width (w : opsize) : Z := match w with B8 => 8 | B16 => 16 | B32 => 32 | B64 => 64 end.
Definition nbytes (w : opsize) : nat := match w with B8 => 1 | B16 => 2 | B32 => 4 | B64 => 8 end.

(** A register, memory at a base register, or memory at the next instruction. *)
Inductive operand := Oreg (r : Z) | Omem (base disp : Z) | Orip (disp : Z).

Inductive xalu := Xadd | Xor | Xand | Xsub | Xxor | Xcmp.
Inductive xunary := Xneg | Xmul | Ximul | Xdiv | Xidiv.
Inductive xshift := Xshl | Xshr | Xsar.

Inductive xinstr :=
| Imov_store (w : opsize) (d : operand) (r : Z)
| Imov_load (w : opsize) (r : Z) (s : operand)
| Imov_imm (w : opsize) (d : operand) (i : Z)
| Imov_abs (r i : Z)
| Ilea (r : Z) (s : operand)
| Imovzx (w from : opsize) (r : Z) (s : operand)
| Imovsx (from : opsize) (r : Z) (s : operand)
| Ipush (r : Z) | Ipop (r : Z) | Iret
| Ialu_store (w : opsize) (op : xalu) (d : operand) (r : Z)
| Ialu_load (w : opsize) (op : xalu) (r : Z) (s : operand)
| Ialu_imm (w : opsize) (op : xalu) (d : operand) (i : Z)
| Iunary (w : opsize) (op : xunary) (s : operand)
| Itest (w : opsize) (s : operand) (r : Z)
| Itest_imm (w : opsize) (s : operand) (i : Z)
| Ishift (w : opsize) (op : xshift) (d : operand) (i : Z)
| Ishift_cl (w : opsize) (op : xshift) (d : operand)
| Isetcc (cc : Z) (d : operand)
| Iimul (w : opsize) (r : Z) (s : operand)
| Iimul_imm (w : opsize) (r : Z) (s : operand) (i : Z)
| Iextend (w : opsize)
| Ijcc (cc rel : Z) | Ijmp (rel : Z) | Ijmp_to (s : operand).

#[global] Instance opsize_eq_dec : EqDecision opsize.
Proof. solve_decision. Defined.
#[global] Instance operand_eq_dec : EqDecision operand.
Proof. solve_decision. Defined.

(** ** Decoding *)

(** The bits of a REX prefix. *)
Record Rex := mkRex { rexW : bool; rexR : bool; rexX : bool; rexB : bool; has_rex : bool }.

Definition no_rex : Rex := mkRex false false false false false.

Definition dec_rex (l : list Z) : Rex * list Z :=
  match l with
  | b :: l' =>
      if Z.shiftr b 4 =? 4
      then (mkRex (Z.testbit b 3) (Z.testbit b 2) (Z.testbit b 1) (Z.testbit b 0) true, l')
      else (no_rex, l)
  | [] => (no_rex, l)
  end.

Definition dec_imm8 (l : list Z) : option (Z * list Z) :=
  match l with b :: l' => Some (b, l') | [] => None end.

Definition dec_imm32 (l : list Z) : option (Z * list Z) :=
  match l with
  | b0 :: b1 :: b2 :: b3 :: l' => Some (s32 (b0 + 2 ^ 8 * b1 + 2 ^ 16 * b2 + 2 ^ 24 * b3), l')
  | _ => None
  end.

Definition dec_imm64 (l : list Z) : option (Z * list Z) :=
  match l with
  | b0 :: b1 :: b2 :: b3 :: b4 :: b5 :: b6 :: b7 :: l' =>
      Some (b0 + 2 ^ 8 * b1 + 2 ^ 16 * b2 + 2 ^ 24 * b3 +
            2 ^ 32 * b4 + 2 ^ 40 * b5 + 2 ^ 48 * b6 + 2 ^ 56 * b7, l')
  | _ => None
  end.

Definition ext_reg (b : bool) (r : Z) : Z := if b then r + 8 else r.

(** The ModRM byte and what follows it: the [reg] field, extended and as it
    is, and the other operand. *)
Definition dec_modrm (x : Rex) (l : list Z) : option (Z * Z * operand * list Z) :=
  match l with
  | [] => None
  | m :: l1 =>
      let md := bf_get m 6 2 in
      let field := bf_get m 3 3 in
      let rm := bf_get m 0 3 in
      let reg := ext_reg (rexR x) field in
      if md =? 3 then Some (reg, field, Oreg (ext_reg (rexB x) rm), l1)
      else if md =? 2 then
        '(base, l2) ← (if rm =? 4 then
            match l1 with
            | sib :: l2 =>
                if (bf_get sib 3 3 =? 4) && negb (rexX x)
                then Some (bf_get sib 0 3, l2) else None
            | [] => None
            end else Some (rm, l1));
        '(disp, l3) ← dec_imm32 l2;
        Some (reg, field, Omem (ext_reg (rexB x) base) disp, l3)
      else if (md =? 0) && (rm =? 5) then
        '(disp, l2) ← dec_imm32 l1; Some (reg, field, Orip disp, l2)
      else None
  end.

(** Without a REX prefix the byte registers 4 to 7 are AH to BH. *)
Definition byte_ok (x : Rex) (o : operand) : bool :=
  match o with Oreg r => has_rex x || (r <? 4) | _ => true end.

Definition dec_alu (op : Z) : option xalu :=
  if op =? 0 then Some Xadd else if op =? 1 then Some Xor else if op =? 4 then Some Xand
  else if op =? 5 then Some Xsub else if op =? 6 then Some Xxor
  else if op =? 7 then Some Xcmp else None.

Definition dec_unary (op : Z) : option xunary :=
  if op =? 3 then Some Xneg else if op =? 4 then Some Xmul else if op =? 5 then Some Ximul
  else if op =? 6 then Some Xdiv else if op =? 7 then Some Xidiv else None.

Definition dec_shift (op : Z) : option xshift :=
  if op =? 4 then Some Xshl else if op =? 5 then Some Xshr else if op =? 7 then Some Xsar else None.

(** The two-byte opcodes, after 0F. *)
Definition dec_0f (x : Rex) (w : opsize) (op : Z) (l : list Z) : option (xinstr * list Z) :=
  if op =? 0xB6 then
    '(r, _, o, l') ← dec_modrm x l; if byte_ok x o then Some (Imovzx w B8 r o, l') else None
  else if op =? 0xB7 then '(r, _, o, l') ← dec_modrm x l; Some (Imovzx w B16 r o, l')
  else if (op =? 0xBE) && rexW x then
    '(r, _, o, l') ← dec_modrm x l; if byte_ok x o then Some (Imovsx B8 r o, l') else None
  else if (op =? 0xBF) && rexW x then '(r, _, o, l') ← dec_modrm x l; Some (Imovsx B16 r o, l')
  else if op =? 0xAF then '(r, _, o, l') ← dec_modrm x l; Some (Iimul w r o, l')
  else if Z.shiftr op 4 =? 9 then
    '(_, _, o, l') ← dec_modrm x l;
    if byte_ok x o then Some (Isetcc (bf_get op 0 4) o, l') else None
  else if Z.shiftr op 4 =? 8 then '(i, l') ← dec_imm32 l; Some (Ijcc (bf_get op 0 4) i, l')
  else None.

(** The one-byte opcodes, with the operand size of the prefixes. *)
Definition dec_op (x : Rex) (w : opsize) (op : Z) (l : list Z) : option (xinstr * list Z) :=
  if op =? 0x89 then '(r, _, o, l') ← dec_modrm x l; Some (Imov_store w o r, l')
  else if op =? 0x88 then
    '(r, _, o, l') ← dec_modrm x l;
    if byte_ok x o && byte_ok x (Oreg r) then Some (Imov_store B8 o r, l') else None
  else if op =? 0x8B then '(r, _, o, l') ← dec_modrm x l; Some (Imov_load w r o, l')
  else if (op =? 0x8D) && rexW x then
    '(r, _, o, l') ← dec_modrm x l;
    match o with Oreg _ => None | _ => Some (Ilea r o, l') end
  else if (op =? 0x63) && rexW x then '(r, _, o, l') ← dec_modrm x l; Some (Imovsx B32 r o, l')
  else if op =? 0xC7 then
    if bool_decide (w = B16) then None else
    '(_, f, o, l') ← dec_modrm x l; '(i, l2) ← dec_imm32 l';
    if f =? 0 then Some (Imov_imm w o i, l2) else None
  else if (Z.shiftr op 3 =? 0x17) && rexW x then
    '(i, l') ← dec_imm64 l; Some (Imov_abs (ext_reg (rexB x) (bf_get op 0 3)) i, l')
  else if Z.shiftr op 3 =? 0xA then Some (Ipush (ext_reg (rexB x) (bf_get op 0 3)), l)
  else if Z.shiftr op 3 =? 0xB then Some (Ipop (ext_reg (rexB x) (bf_get op 0 3)), l)
  else if op =? 0xC3 then Some (Iret, l)
  else if (Z.shiftr op 6 =? 0) && (bf_get op 0 3 =? 1) then
    a ← dec_alu (bf_get op 3 3); '(r, _, o, l') ← dec_modrm x l; Some (Ialu_store w a o r, l')
  else if (Z.shiftr op 6 =? 0) && (bf_get op 0 3 =? 3) then
    a ← dec_alu (bf_get op 3 3); '(r, _, o, l') ← dec_modrm x l; Some (Ialu_load w a r o, l')
  else if op =? 0x81 then
    if bool_decide (w = B16) then None else
    '(_, f, o, l') ← dec_modrm x l; a ← dec_alu f; '(i, l2) ← dec_imm32 l';
    Some (Ialu_imm w a o i, l2)
  else if op =? 0xF7 then
    if bool_decide (w = B16) then None else
    '(_, f, o, l') ← dec_modrm x l;
    if f =? 0 then '(i, l2) ← dec_imm32 l'; Some (Itest_imm w o i, l2)
    else u ← dec_unary f; Some (Iunary w u o, l')
  else if op =? 0xF6 then
    '(_, f, o, l') ← dec_modrm x l; '(i, l2) ← dec_imm8 l';
    if (f =? 0) && byte_ok x o then Some (Itest_imm B8 o i, l2) else None
  else if op =? 0x85 then '(r, _, o, l') ← dec_modrm x l; Some (Itest w o r, l')
  else if op =? 0xC1 then
    '(_, f, o, l') ← dec_modrm x l; s ← dec_shift f; '(i, l2) ← dec_imm8 l';
    Some (Ishift w s o i, l2)
  else if op =? 0xD3 then
    '(_, f, o, l') ← dec_modrm x l; s ← dec_shift f; Some (Ishift_cl w s o, l')
  else if op =? 0x69 then
    if bool_decide (w = B16) then None else
    '(r, _, o, l') ← dec_modrm x l; '(i, l2) ← dec_imm32 l'; Some (Iimul_imm w r o i, l2)
  else if op =? 0x99 then Some (Iextend w, l)
  else if Z.shiftr op 4 =? 7 then '(i, l') ← dec_imm8 l; Some (Ijcc (bf_get op 0 4) (s8 i), l')
  else if op =? 0xEB then '(i, l') ← dec_imm8 l; Some (Ijmp (s8 i), l')
  else if op =? 0xE9 then '(i, l') ← dec_imm32 l; Some (Ijmp i, l')
  else if op =? 0xFF then
    '(_, f, o, l') ← dec_modrm x l; if f =? 4 then Some (Ijmp_to o, l') else None
  else None.

(** One instruction at the head of a list of bytes, and the bytes after it. *)
Definition xdecode (l : list Z) : option (xinstr * list Z) :=
  let '(p66, l0) := match l with
                    | b :: l' => if b =? 0x66 then (true, l') else (false, l)
                    | [] => (false, l) end in
  let '(x, l1) := dec_rex l0 in
  let w := if rexW x then B64 else if p66 then B16 else B32 in
  match l1 with
  | op :: l2 =>
      if op =? 0x0F then match l2 with op2 :: l3 => dec_0f x w op2 l3 | [] => None end
      else dec_op x w op l2
  | [] => None
  end.

(** ** State *)

Record Flags := mkFlags {
  fCF : option bool; fZF : option bool; fSF : option bool; fOF : option bool }.

Definition no_flags : Flags := mkFlags None None None None.

(** The registers by their number, the bytes of the memory, the flags, and the
    address of the next instruction. *)
Record Host := mkHost { xr : Z -> Z; xm : Z -> Z; xf : Flags; xip : Z }.

Definition upd (f : Z -> Z) (a v : Z) : Z -> Z := fun x => if x =? a then v else f x.

Definition set_xr (r v : Z) (s : Host) : Host := mkHost (upd (xr s) r v) (xm s) (xf s) (xip s).
Definition set_xm (m : Z -> Z) (s : Host) : Host := mkHost (xr s) m (xf s) (xip s).
Definition set_xf (f : Flags) (s : Host) : Host := mkHost (xr s) (xm s) f (xip s).
Definition set_xip (p : Z) (s : Host) : Host := mkHost (xr s) (xm s) (xf s) p.

(** Little-endian numbers in memory; addresses are modulo 2^64. *)
Fixpoint ld_le (n : nat) (m : Z -> Z) (a : Z) : Z :=
  match n with O => 0 | S k => m (u64 a) + 2 ^ 8 * ld_le k m (a + 1) end.

Fixpoint st_le (n : nat) (m : Z -> Z) (a v : Z) : Z -> Z :=
  match n with O => m | S k => upd (st_le k m (a + 1) (Z.shiftr v 8)) (u64 a) (u8 v) end.

(** ** Execution

    [next] is the address after the instruction. *)

Section exec.
Context (next : Z).

Definition ea (s : Host) (o : operand) : Z :=
  match o with
  | Oreg _ => 0
  | Omem base disp => u64 (xr s base + disp)
  | Orip disp => u64 (next + disp)
  end.

Definition get_op (w : opsize) (o : operand) (s : Host) : Z :=
  match o with
  | Oreg r => uN (width w) (xr s r)
  | _ => ld_le (nbytes w) (xm s) (ea s o)
  end.

(** A write of 32 bits clears the upper half of the register; a smaller one
    keeps the rest. *)
Definition put_reg (w : opsize) (r v : Z) (s : Host) : Host :=
  set_xr r (match w with
            | B64 => u64 v
            | B32 => u32 v
            | _ => bf_set (xr s r) 0 (width w) v
            end) s.

Definition put_op (w : opsize) (o : operand) (v : Z) (s : Host) : Host :=
  match o with
  | Oreg r => put_reg w r v s
  | _ => set_xm (st_le (nbytes w) (xm s) (ea s o) v) s
  end.

(** The condition codes, in pairs: an odd code is the negation of the even one. *)
Definition cond (cc : Z) (f : Flags) : option bool :=
  b ← (let k := Z.shiftr cc 1 in
       if k =? 0 then fOF f
       else if k =? 1 then fCF f
       else if k =? 2 then fZF f
       else if k =? 3 then c ← fCF f; z ← fZF f; Some (c || z)
       else if k =? 4 then fSF f
       else if k =? 6 then a ← fSF f; o ← fOF f; Some (xorb a o)
       else if k =? 7 then z ← fZF f; a ← fSF f; o ← fOF f; Some (z || xorb a o)
       else None);
  Some (xorb (Z.testbit cc 0) b).

Definition flags_of (w : opsize) (r : Z) (c o : bool) : Flags :=
  mkFlags (Some c) (Some (r =? 0)) (Some (Z.testbit r (width w - 1))) (Some o).

(** The result and the flags of [a op b]. *)
Definition alu_op (w : opsize) (op : xalu) (a b : Z) : Z * Flags :=
  let n := width w in
  match op with
  | Xadd => let r := uN n (a + b) in
            (r, flags_of w r (2 ^ n <=? a + b) (negb (sN n r =? sN n a + sN n b)))
  | Xsub | Xcmp => let r := uN n (a - b) in
            (r, flags_of w r (a <? b) (negb (sN n r =? sN n a - sN n b)))
  | Xand => let r := Z.land a b in (r, flags_of w r false false)
  | Xor => let r := Z.lor a b in (r, flags_of w r false false)
  | Xxor => let r := Z.lxor a b in (r, flags_of w r false false)
  end.

Definition alu_to (w : opsize) (op : xalu) (d : operand) (b : Z) (s : Host) : Host :=
  let '(r, f) := alu_op w op (get_op w d s) b in
  set_xf f (match op with Xcmp => s | _ => put_op w d r s end).

Definition shift_op (w : opsize) (op : xshift) (a n : Z) : Z :=
  match op with
  | Xshl => uN (width w) (Z.shiftl a n)
  | Xshr => Z.shiftr a n
  | Xsar => uN (width w) (Z.shiftr (sN (width w) a) n)
  end.

(** The count is taken modulo 64 or 32; a zero count keeps the flags. *)
Definition shift_to (w : opsize) (op : xshift) (d : operand) (c : Z) (s : Host) : Host :=
  let n := Z.land c (if bool_decide (w = B64) then 0x3F else 0x1F) in
  let s' := put_op w d (shift_op w op (get_op w d s) n) s in
  if n =? 0 then s' else set_xf no_flags s'.

(** RDX and RAX as one number of twice the width. *)
Definition wide (w : opsize) (s : Host) : Z :=
  uN (width w) (xr s 2) * 2 ^ width w + uN (width w) (xr s 0).

Definition put_pair (w : opsize) (lo hi : Z) (s : Host) : Host :=
  set_xf no_flags (put_reg w 2 hi (put_reg w 0 lo s)).

Definition unary (w : opsize) (op : xunary) (o : operand) (s : Host) : option Host :=
  let n := width w in
  let b := get_op w o s in
  let a := uN n (xr s 0) in
  match op with
  | Xneg => let r := uN n (- b) in
            Some (set_xf (flags_of w r (negb (b =? 0)) (b =? 2 ^ (n - 1))) (put_op w o r s))
  | Xmul => let p := a * b in Some (put_pair w (uN n p) (uN n (p / 2 ^ n)) s)
  | Ximul => let p := sN n a * sN n b in Some (put_pair w (uN n p) (uN n (p / 2 ^ n)) s)
  | Xdiv =>
      if b =? 0 then None else
      let q := wide w s / b in
      if 2 ^ n <=? q then None else Some (put_pair w q (wide w s mod b) s)
  | Xidiv =>
      if b =? 0 then None else
      let d := sN (2 * n) (wide w s) in
      let q := Z.quot d (sN n b) in
      if (q <? - 2 ^ (n - 1)) || (2 ^ (n - 1) <=? q) then None
      else Some (put_pair w (uN n q) (uN n (Z.rem d (sN n b))) s)
  end.

(** [s] has [xip] already at [next]. *)
Definition exec_at (i : xinstr) (s : Host) : option Host :=
  match i with
  | Imov_store w d r => Some (put_op w d (uN (width w) (xr s r)) s)
  | Imov_load w r o => Some (put_reg w r (get_op w o s) s)
  | Imov_imm w d v => Some (put_op w d (uN (width w) v) s)
  | Imov_abs r v => Some (put_reg B64 r v s)
  | Ilea r o => Some (put_reg B64 r (ea s o) s)
  | Imovzx w from r o => Some (put_reg w r (get_op from o s) s)
  | Imovsx from r o => Some (put_reg B64 r (sN (width from) (get_op from o s)) s)
  | Ipush r =>
      let sp := u64 (xr s 4 - 8) in
      Some (set_xr 4 sp (set_xm (st_le 8 (xm s) sp (xr s r)) s))
  | Ipop r =>
      let v := ld_le 8 (xm s) (xr s 4) in
      Some (set_xr r v (set_xr 4 (u64 (xr s 4 + 8)) s))
  | Iret => Some (set_xip (ld_le 8 (xm s) (xr s 4)) (set_xr 4 (u64 (xr s 4 + 8)) s))
  | Ialu_store w op d r => Some (alu_to w op d (uN (width w) (xr s r)) s)
  | Ialu_load w op r o => Some (alu_to w op (Oreg r) (get_op w o s) s)
  | Ialu_imm w op d v => Some (alu_to w op d (uN (width w) v) s)
  | Iunary w op o => unary w op o s
  | Itest w o r =>
      let v := Z.land (get_op w o s) (uN (width w) (xr s r)) in
      Some (set_xf (flags_of w v false false) s)
  | Itest_imm w o i =>
      let v := Z.land (get_op w o s) (uN (width w) i) in
      Some (set_xf (flags_of w v false false) s)
  | Ishift w op d c => Some (shift_to w op d c s)
  | Ishift_cl w op d => Some (shift_to w op d (u8 (xr s 1)) s)
  | Isetcc cc d => b ← cond cc (xf s); Some (put_op B8 d (Z.b2z b) s)
  | Iimul w r o =>
      Some (set_xf no_flags (put_reg w r (uN (width w) (xr s r * get_op w o s)) s))
  | Iimul_imm w r o i =>
      Some (set_xf no_flags (put_reg w r (uN (width w) (get_op w o s * i)) s))
  | Iextend w =>
      Some (put_reg w 2 (if Z.testbit (xr s 0) (width w - 1) then 2 ^ width w - 1 else 0) s)
  | Ijcc cc rel =>
      match cond cc (xf s) with
      | Some b => Some (if b then set_xip (u64 (next + rel)) s else s)
      | None => None
      end
  | Ijmp rel => Some (set_xip (u64 (next + rel)) s)
  | Ijmp_to o => Some (set_xip (get_op B64 o s) s)
  end.
End exec.

(** The bytes from address [a] of code placed at [base]. *)
Definition code_from (base : Z) (c : list Z) (a : Z) : list Z := drop (Z.to_nat (a - base)) c.

Definition xstep (base : Z) (c : list Z) (s : Host) : option Host :=
  if (xip s <? base) || (base + Z.of_nat (length c) <=? xip s) then None else
  let l := code_from base c (xip s) in
  '(i, l') ← xdecode l;
  let next := xip s + (Z.of_nat (length l) - Z.of_nat (length l')) in
  exec_at next i (set_xip next s).

(** Execution until the address leaves the code or nothing can run. *)
Inductive xsteps (base : Z) (c : list Z) : Host -> Host -> Prop :=
| xsteps_refl s : xsteps base c s s
| xsteps_step s s1 s2 :
    xstep base c s = Some s1 -> xsteps base c s1 s2 -> xsteps base c s s2.

Lemma xsteps_trans base c s1 s2 s3 :
  xsteps base c s1 s2 -> xsteps base c s2 s3 -> xsteps base c s1 s3.
Proof. induction 1; [done|]. intros. econstructor; [done|auto]. Qed.
