(* ===== verification/X86Enc.v ===== *)
(** * The encoder of host instructions ([include/jit/rvjit_x86_64.hpp])

    Module [x86] is the namespace of that name: the code buffer, the constants
    and one function per instruction form, which append bytes. Their operands
    are register numbers, [int32_t] displacements and immediates. The array of
    [CodeBuf] is the list of the bytes below [pos]; a byte past its end, where
    the C++ executes a trap, and a patch outside the emitted bytes are [Undef].

    The lemmas give each function the instruction it stands for: the bytes it
    appends decode to that instruction, whatever follows them. *)

From S2P Require Import Prelude X86.

(** [rvjit_cfg.hpp] *)
Definition RVJIT_MIN_INSTRUCTIONS : Z := 1.
Definition RVJIT_MAX_INSTRUCTIONS : Z := 128.
Definition RVJIT_FUNC_SIZE : Z := 0x1000.
Definition RVJIT_ARENA_PAGES : Z := 0x400.
Definition RVJIT_MAX_CACHE_BYTES : Z := 1024 * 1024 * 1024.
Definition RVJIT_FUNC_MARGIN : Z := 512.
Definition RVJIT_HOT_THRESHOLD : Z := 1.

Module x86.

Definition REG_RAX : Z := 0.
Definition REG_RCX : Z := 1.
Definition REG_RDX : Z := 2.
Definition REG_RBX : Z := 3.
Definition REG_RSP : Z := 4.
Definition REG_RBP : Z := 5.
Definition REG_RSI : Z := 6.
Definition REG_RDI : Z := 7.
Definition REG_R8 : Z := 8.
Definition REG_R9 : Z := 9.
Definition REG_R10 : Z := 10.
Definition REG_R11 : Z := 11.
Definition REG_R12 : Z := 12.
Definition REG_R13 : Z := 13.
Definition REG_R14 : Z := 14.
Definition REG_R15 : Z := 15.

(** Pinned and temporary registers, and the allocator's pool. *)
Definition REG_CTX : Z := REG_R12.
Definition REG_REGS : Z := REG_R13.
Definition REG_TMP : Z := REG_RCX.
Definition REG_ACC0 : Z := REG_RAX.
Definition REG_ACC1 : Z := REG_RDX.
Definition RVJIT_HOST_REGS : Z := 6.
Definition RVJIT_HOST_POOL : list Z := [REG_RSI; REG_RDI; REG_R8; REG_R9; REG_R10; REG_R11].

(** Offsets of the context and of a TLB entry. *)
Definition CTX_OFF_REGS : Z := 0.
Definition CTX_OFF_RAM : Z := 8.
Definition CTX_OFF_MMIO : Z := 16.
Definition CTX_OFF_MEMSIZE : Z := 24.
Definition CTX_OFF_ENTRY : Z := 32.
Definition CTX_OFF_EXIT : Z := 40.
Definition CTX_OFF_HART : Z := 48.
Definition CTX_OFF_LOOP : Z := 56.
Definition CTX_OFF_TLB_ENTRIES : Z := 64.
Definition CTX_OFF_TLB_GEN : Z := 72.
Definition CTX_OFF_SATP_ASID : Z := 80.
Definition CTX_OFF_EXIT_COUNT : Z := 88.
Definition CTX_OFF_CHAIN_EPOCH : Z := 96.
Definition CTX_OFF_CHAIN_BUDGET : Z := 104.
Definition CTX_OFF_CHAIN_MODE : Z := 112.
Definition CTX_OFF_CHAIN_CACHE : Z := 128.
Definition TLB_OFF_VPAGE_MASK_INV : Z := 0.
Definition TLB_OFF_VPAGE_BASE : Z := 8.
Definition TLB_OFF_GENERATION : Z := 16.
Definition TLB_OFF_HOST_PTR : Z := 24.
Definition TLB_OFF_PPAGE_BASE : Z := 32.
Definition TLB_OFF_ASID : Z := 40.
Definition TLB_OFF_PAGE_BITS : Z := 42.
Definition TLB_OFF_PERM : Z := 43.
Definition TLB_OFF_GLOBAL : Z := 44.

Definition USE_JCHAIN : Z := 18.
Definition CHAIN_CACHE_SLOTS : Z := Z.shiftl 1 USE_JCHAIN.
Definition CHAIN_CACHE_MASK : Z := CHAIN_CACHE_SLOTS - 1.
Definition CHAIN_CACHE_STRIDE : Z := 32.
Definition CHAIN_CADENCE : Z := 0x3000.
Definition TLB_ENTRY_LOG2 : Z := 6.
Definition TLB_SIZE_MASK : Z := Z.shiftl 2 16 - 1.

(** ** The code buffer *)

Definition CodeBuf : Type := list Z.

Definition pos (cb : CodeBuf) : Z := Z.of_nat (length cb).

Definition cb_b (v : Z) : ST CodeBuf unit := fun cb =>
  if RVJIT_FUNC_SIZE <=? pos cb then Undef else Ret (tt, cb ++ [u8 v]).

Definition cb_dw (v : Z) : ST CodeBuf unit :=
  cb_b (Z.shiftr v 0) ;; cb_b (Z.shiftr v 8) ;; cb_b (Z.shiftr v 16) ;; cb_b (Z.shiftr v 24).

Definition cb_qw (v : Z) : ST CodeBuf unit :=
  cb_b (Z.shiftr v 0) ;; cb_b (Z.shiftr v 8) ;; cb_b (Z.shiftr v 16) ;; cb_b (Z.shiftr v 24) ;;
  cb_b (Z.shiftr v 32) ;; cb_b (Z.shiftr v 40) ;; cb_b (Z.shiftr v 48) ;; cb_b (Z.shiftr v 56).

(** [bytes[i] = v]. *)
Definition cb_set (i v : Z) : ST CodeBuf unit := fun cb =>
  if (0 <=? i) && (i <? pos cb) then Ret (tt, <[Z.to_nat i := u8 v]> cb) else Undef.

(** ** Prefixes and operands *)

Definition rex (w r x b : bool) : ST CodeBuf unit :=
  cb_b (Z.lor (Z.lor (Z.lor (Z.lor 0x40 (if w then 8 else 0)) (if r then 4 else 0))
    (if x then 2 else 0)) (if b then 1 else 0)).

Definition modrm_reg (regfield rm : Z) : ST CodeBuf unit :=
  cb_b (Z.lor (Z.lor 0xC0 (Z.shiftl (Z.land regfield 7) 3)) (Z.land rm 7)).

Definition modrm_mem (regfield base disp : Z) : ST CodeBuf unit :=
  cb_b (Z.lor (Z.lor 0x80 (Z.shiftl (Z.land regfield 7) 3)) (Z.land base 7)) ;;
  (if Z.land base 7 =? 0x4 then cb_b 0x24 else mret tt) ;;
  cb_dw (u32 disp).

(** ** Instructions *)

Definition mov_rr (dst src : Z) : ST CodeBuf unit :=
  rex true (8 <=? src) false (8 <=? dst) ;; cb_b 0x89 ;; modrm_reg src dst.
Definition mov_mr (dst base disp : Z) : ST CodeBuf unit :=
  rex true (8 <=? dst) false (8 <=? base) ;; cb_b 0x8B ;; modrm_mem dst base disp.
Definition mov_rm (base disp src : Z) : ST CodeBuf unit :=
  rex true (8 <=? src) false (8 <=? base) ;; cb_b 0x89 ;; modrm_mem src base disp.
Definition lea_r64_mem (dst base disp : Z) : ST CodeBuf unit :=
  rex true (8 <=? dst) false (8 <=? base) ;; cb_b 0x8D ;; modrm_mem dst base disp.
Definition movzx_r64_m8 (dst base disp : Z) : ST CodeBuf unit :=
  rex true (8 <=? dst) false (8 <=? base) ;; cb_b 0x0F ;; cb_b 0xB6 ;; modrm_mem dst base disp.
Definition movzx_r64_m16 (dst base disp : Z) : ST CodeBuf unit :=
  rex true (8 <=? dst) false (8 <=? base) ;; cb_b 0x0F ;; cb_b 0xB7 ;; modrm_mem dst base disp.
Definition movsx_r64_m8 (dst base disp : Z) : ST CodeBuf unit :=
  rex true (8 <=? dst) false (8 <=? base) ;; cb_b 0x0F ;; cb_b 0xBE ;; modrm_mem dst base disp.
Definition movsx_r64_m16 (dst base disp : Z) : ST CodeBuf unit :=
  rex true (8 <=? dst) false (8 <=? base) ;; cb_b 0x0F ;; cb_b 0xBF ;; modrm_mem dst base disp.
Definition movsxd_r64_m32 (dst base disp : Z) : ST CodeBuf unit :=
  rex true (8 <=? dst) false (8 <=? base) ;; cb_b 0x63 ;; modrm_mem dst base disp.
Definition mov_r32_m32 (dst base disp : Z) : ST CodeBuf unit :=
  rex false (8 <=? dst) false (8 <=? base) ;; cb_b 0x8B ;; modrm_mem dst base disp.
Definition mov_m8_r8 (base disp src : Z) : ST CodeBuf unit :=
  rex false (8 <=? src) false (8 <=? base) ;; cb_b 0x88 ;; modrm_mem src base disp.
Definition mov_m16_r16 (base disp src : Z) : ST CodeBuf unit :=
  cb_b 0x66 ;; rex false (8 <=? src) false (8 <=? base) ;; cb_b 0x89 ;; modrm_mem src base disp.
Definition mov_m32_r32 (base disp src : Z) : ST CodeBuf unit :=
  rex false (8 <=? src) false (8 <=? base) ;; cb_b 0x89 ;; modrm_mem src base disp.
Definition mov_imm32 (dst imm : Z) : ST CodeBuf unit :=
  rex true false false (8 <=? dst) ;; cb_b 0xC7 ;; modrm_reg 0 dst ;; cb_dw (u32 imm).
Definition mov_m64_imm (base disp imm : Z) : ST CodeBuf unit :=
  rex true false false (8 <=? base) ;; cb_b 0xC7 ;; modrm_mem 0 base disp ;; cb_dw (u32 imm).
Definition mov_imm64 (dst imm : Z) : ST CodeBuf unit :=
  rex true false false (8 <=? dst) ;; cb_b (Z.lor 0xB8 (Z.land dst 7)) ;; cb_qw imm.
Definition movzx_r64_r8 (dst src : Z) : ST CodeBuf unit :=
  rex true (8 <=? dst) false (8 <=? src) ;; cb_b 0x0F ;; cb_b 0xB6 ;; modrm_reg dst src.
Definition movzx_ecx_r8 (src : Z) : ST CodeBuf unit :=
  rex false false false (8 <=? src) ;; cb_b 0x0F ;; cb_b 0xB6 ;; modrm_reg REG_RCX src.
Definition movsxd (dst src : Z) : ST CodeBuf unit :=
  rex true (8 <=? dst) false (8 <=? src) ;; cb_b 0x63 ;; modrm_reg dst src.
Definition push_r (r : Z) : ST CodeBuf unit :=
  (if 8 <=? r then rex false false false true else mret tt) ;; cb_b (Z.lor 0x50 (Z.land r 7)).
Definition pop_r (r : Z) : ST CodeBuf unit :=
  (if 8 <=? r then rex false false false true else mret tt) ;; cb_b (Z.lor 0x58 (Z.land r 7)).
Definition ret : ST CodeBuf unit :=
  cb_b 0xC3.
Definition arith_rr64 (regfield dst src : Z) : ST CodeBuf unit :=
  rex true (8 <=? src) false (8 <=? dst) ;; cb_b (Z.lor 0x01 (Z.shiftl regfield 3)) ;;
  modrm_reg src dst.
Definition arith_rr32 (regfield dst src : Z) : ST CodeBuf unit :=
  rex false (8 <=? src) false (8 <=? dst) ;; cb_b (Z.lor 0x01 (Z.shiftl regfield 3)) ;;
  modrm_reg src dst.
Definition arith_imm64 (regfield dst imm : Z) : ST CodeBuf unit :=
  rex true false false (8 <=? dst) ;; cb_b 0x81 ;; modrm_reg regfield dst ;; cb_dw (u32 imm).
Definition arith_imm32 (regfield dst imm : Z) : ST CodeBuf unit :=
  rex false false false (8 <=? dst) ;; cb_b 0x81 ;; modrm_reg regfield dst ;; cb_dw (u32 imm).
Definition add_rr (dst src : Z) : ST CodeBuf unit :=
  arith_rr64 0 dst src.
Definition or_rr (dst src : Z) : ST CodeBuf unit :=
  arith_rr64 1 dst src.
Definition and_rr (dst src : Z) : ST CodeBuf unit :=
  arith_rr64 4 dst src.
Definition sub_rr (dst src : Z) : ST CodeBuf unit :=
  arith_rr64 5 dst src.
Definition xor_rr (dst src : Z) : ST CodeBuf unit :=
  arith_rr64 6 dst src.
Definition cmp_rr (a b : Z) : ST CodeBuf unit :=
  arith_rr64 7 a b.
Definition arith_rm64 (regfield dst base disp : Z) : ST CodeBuf unit :=
  rex true (8 <=? dst) false (8 <=? base) ;; cb_b (Z.lor 0x03 (Z.shiftl regfield 3)) ;;
  modrm_mem dst base disp.
Definition add_r64_m64 (dst base disp : Z) : ST CodeBuf unit :=
  arith_rm64 0 dst base disp.
Definition or_r64_m64 (dst base disp : Z) : ST CodeBuf unit :=
  arith_rm64 1 dst base disp.
Definition xor_r64_m64 (dst base disp : Z) : ST CodeBuf unit :=
  arith_rm64 6 dst base disp.
Definition and_r64_m64 (dst base disp : Z) : ST CodeBuf unit :=
  arith_rm64 4 dst base disp.
Definition cmp_r64_m64 (dst base disp : Z) : ST CodeBuf unit :=
  arith_rm64 7 dst base disp.
Definition cmp_r16_m16 (dst base disp : Z) : ST CodeBuf unit :=
  cb_b 0x66 ;; rex false (8 <=? dst) false (8 <=? base) ;; cb_b 0x3B ;; modrm_mem dst base disp.
Definition cmp_m16_r16 (base disp src : Z) : ST CodeBuf unit :=
  cb_b 0x66 ;; rex false (8 <=? src) false (8 <=? base) ;; cb_b 0x39 ;; modrm_mem src base disp.
Definition add_rr32 (dst src : Z) : ST CodeBuf unit :=
  arith_rr32 0 dst src.
Definition or_rr32 (dst src : Z) : ST CodeBuf unit :=
  arith_rr32 1 dst src.
Definition and_rr32 (dst src : Z) : ST CodeBuf unit :=
  arith_rr32 4 dst src.
Definition sub_rr32 (dst src : Z) : ST CodeBuf unit :=
  arith_rr32 5 dst src.
Definition xor_rr32 (dst src : Z) : ST CodeBuf unit :=
  arith_rr32 6 dst src.
Definition add_imm (dst imm : Z) : ST CodeBuf unit :=
  arith_imm64 0 dst imm.
Definition or_imm (dst imm : Z) : ST CodeBuf unit :=
  arith_imm64 1 dst imm.
Definition and_imm (dst imm : Z) : ST CodeBuf unit :=
  arith_imm64 4 dst imm.
Definition xor_imm (dst imm : Z) : ST CodeBuf unit :=
  arith_imm64 6 dst imm.
Definition cmp_imm (dst imm : Z) : ST CodeBuf unit :=
  arith_imm64 7 dst imm.
Definition add_imm32 (dst imm : Z) : ST CodeBuf unit :=
  arith_imm32 0 dst imm.
Definition and_imm32 (dst imm : Z) : ST CodeBuf unit :=
  arith_imm32 4 dst imm.
Definition cmp_imm32 (dst imm : Z) : ST CodeBuf unit :=
  arith_imm32 7 dst imm.
Definition neg64 (dst : Z) : ST CodeBuf unit :=
  rex true false false (8 <=? dst) ;; cb_b 0xF7 ;; modrm_reg 3 dst.
Definition neg32 (dst : Z) : ST CodeBuf unit :=
  rex false false false (8 <=? dst) ;; cb_b 0xF7 ;; modrm_reg 3 dst.
Definition shift_r64_imm (regfield dst imm : Z) : ST CodeBuf unit :=
  rex true false false (8 <=? dst) ;; cb_b 0xC1 ;; modrm_reg regfield dst ;; cb_b imm.
Definition shift_r32_imm (regfield dst imm : Z) : ST CodeBuf unit :=
  rex false false false (8 <=? dst) ;; cb_b 0xC1 ;; modrm_reg regfield dst ;; cb_b imm.
Definition shift_r64_cl (regfield dst : Z) : ST CodeBuf unit :=
  rex true false false (8 <=? dst) ;; cb_b 0xD3 ;; modrm_reg regfield dst.
Definition shift_r32_cl (regfield dst : Z) : ST CodeBuf unit :=
  rex false false false (8 <=? dst) ;; cb_b 0xD3 ;; modrm_reg regfield dst.
Definition setcc (cc dst : Z) : ST CodeBuf unit :=
  rex false false false (8 <=? dst) ;; cb_b 0x0F ;; cb_b cc ;; modrm_reg 0 dst.
Definition mov_rr32 (dst src : Z) : ST CodeBuf unit :=
  rex false (8 <=? src) false (8 <=? dst) ;; cb_b 0x89 ;; modrm_reg src dst.
Definition mul_r (rm : Z) : ST CodeBuf unit :=
  rex true false false (8 <=? rm) ;; cb_b 0xF7 ;; modrm_reg 4 rm.
Definition mul_r32 (rm : Z) : ST CodeBuf unit :=
  rex false false false (8 <=? rm) ;; cb_b 0xF7 ;; modrm_reg 4 rm.
Definition imul_r (rm : Z) : ST CodeBuf unit :=
  rex true false false (8 <=? rm) ;; cb_b 0xF7 ;; modrm_reg 5 rm.
Definition imul_r32 (rm : Z) : ST CodeBuf unit :=
  rex false false false (8 <=? rm) ;; cb_b 0xF7 ;; modrm_reg 5 rm.
Definition imul_rr (dst src : Z) : ST CodeBuf unit :=
  rex true (8 <=? dst) false (8 <=? src) ;; cb_b 0x0F ;; cb_b 0xAF ;; modrm_reg dst src.
Definition imul_r_imm32 (dst imm : Z) : ST CodeBuf unit :=
  rex true (8 <=? dst) false (8 <=? dst) ;; cb_b 0x69 ;; modrm_reg dst dst ;; cb_dw (u32 imm).
Definition imul_rr32 (dst src : Z) : ST CodeBuf unit :=
  rex false (8 <=? dst) false (8 <=? src) ;; cb_b 0x0F ;; cb_b 0xAF ;; modrm_reg dst src.
Definition div_r (rm : Z) : ST CodeBuf unit :=
  rex true false false (8 <=? rm) ;; cb_b 0xF7 ;; modrm_reg 6 rm.
Definition div_r32 (rm : Z) : ST CodeBuf unit :=
  rex false false false (8 <=? rm) ;; cb_b 0xF7 ;; modrm_reg 6 rm.
Definition idiv_r (rm : Z) : ST CodeBuf unit :=
  rex true false false (8 <=? rm) ;; cb_b 0xF7 ;; modrm_reg 7 rm.
Definition idiv_r32 (rm : Z) : ST CodeBuf unit :=
  rex false false false (8 <=? rm) ;; cb_b 0xF7 ;; modrm_reg 7 rm.
Definition cqo : ST CodeBuf unit :=
  rex true false false false ;; cb_b 0x99.
Definition cdq : ST CodeBuf unit :=
  cb_b 0x99.
Definition test_r64_m64 (dst base disp : Z) : ST CodeBuf unit :=
  rex true (8 <=? dst) false (8 <=? base) ;; cb_b 0x85 ;; modrm_mem dst base disp.
Definition test_rr (a b : Z) : ST CodeBuf unit :=
  rex true (8 <=? a) false (8 <=? b) ;; cb_b 0x85 ;; modrm_reg a b.
Definition test_imm (dst imm : Z) : ST CodeBuf unit :=
  rex true false false (8 <=? dst) ;; cb_b 0xF7 ;; modrm_reg 0 dst ;; cb_dw (u32 imm).
Definition test_m8_imm (base disp imm : Z) : ST CodeBuf unit :=
  rex false false false (8 <=? base) ;; cb_b 0xF6 ;; modrm_mem 0 base disp ;; cb_b imm.
Definition jmp_r (r : Z) : ST CodeBuf unit :=
  (if 8 <=? r then cb_b 0x41 else mret tt) ;; cb_b 0xFF ;;
  cb_b (Z.lor (Z.lor 0xC0 (Z.shiftl 0x4 3)) (Z.land r 7)).
Definition lea_r64_rip (dst : Z) : ST CodeBuf unit :=
  rex true (8 <=? dst) false false ;; cb_b 0x8D ;;
  cb_b (Z.lor 0x05 (Z.shiftl (Z.land dst 7) 3)) ;; cb_dw 0.
Definition sub_m64_imm (base disp imm : Z) : ST CodeBuf unit :=
  rex true false false (8 <=? base) ;; cb_b 0x81 ;; modrm_mem 5 base disp ;; cb_dw (u32 imm).

(** ** Labels *)

Definition jcc8 (opcode : Z) : ST CodeBuf Z :=
  cb_b opcode ;; rel ← gets pos; cb_b 0 ;; mret rel.

Definition patch_rel8 (rel target : Z) : ST CodeBuf unit :=
  cb_set rel (u32 (target - u32 (rel + 1))).

Definition jcc32 (cc : Z) : ST CodeBuf Z :=
  cb_b 0x0F ;; cb_b (Z.lor 0x80 (Z.land cc 0xF)) ;; rel ← gets pos; cb_dw 0 ;; mret rel.

Definition patch_rel32 (rel target : Z) : ST CodeBuf unit :=
  let off := s32 (u32 (target - u32 (rel + 4))) in
  cb_set (rel + 0) (Z.shiftr (u32 off) 0) ;; cb_set (rel + 1) (Z.shiftr (u32 off) 8) ;;
  cb_set (rel + 2) (Z.shiftr (u32 off) 16) ;; cb_set (rel + 3) (Z.shiftr (u32 off) 24).

Definition jmp32 : ST CodeBuf Z :=
  cb_b 0xE9 ;; rel ← gets pos; cb_dw 0 ;; mret rel.

End x86.
