(* ===== verification/X86Code.v ===== *)
(** * What the encoder emits

    [emits m a bs]: running [m] on a code buffer appends [bs] and returns [a],
    or meets the end of the buffer. [encodes m i n]: [m] appends at most [n]
    bytes, which decode to the host instruction [i] whatever follows them. *)

From S2P Require Import Prelude X86 X86Enc.
Import x86.

Definition emits {A} (m : ST CodeBuf A) (a : A) (bs : list Z) : Prop :=
  forall cb, pos cb <= RVJIT_FUNC_SIZE ->
  m cb = if pos cb + pos bs <=? RVJIT_FUNC_SIZE then Ret (a, cb ++ bs) else Undef.

Definition encodes (m : ST CodeBuf unit) (i : xinstr) (n : Z) : Prop :=
  exists bs, emits m tt bs /\ 0 < pos bs <= n /\ forall l, xdecode (bs ++ l) = Some (i, l).

(** ** Emission *)

Lemma pos_app c d : pos (c ++ d) = pos c + pos d.
Proof. unfold pos. rewrite length_app. lia. Qed.

Lemma pos_nonneg c : 0 <= pos c.
Proof. unfold pos. lia. Qed.

Lemma emits_cb_b v : emits (cb_b v) tt [u8 v].
Proof.
  intros cb Hcb. unfold cb_b. change (pos [u8 v]) with 1.
  destruct (Z.leb_spec RVJIT_FUNC_SIZE (pos cb)), (Z.leb_spec (pos cb + 1) RVJIT_FUNC_SIZE); try lia; done.
Qed.

Lemma emits_mret {A} (a : A) : emits (mret a) a [].
Proof.
  intros cb Hcb. change (pos []) with 0. rewrite (proj2 (Z.leb_le _ _)) by lia.
  by rewrite app_nil_r.
Qed.

Lemma emits_bind {A B} (m : ST CodeBuf A) (f : A -> ST CodeBuf B) a b bs1 bs2 :
  emits m a bs1 -> emits (f a) b bs2 -> emits (m ≫= f) b (bs1 ++ bs2).
Proof.
  intros Hm Hf cb Hcb. cbv [mbind ST_bind]. rewrite (Hm cb Hcb), !pos_app.
  pose proof (pos_nonneg bs1). pose proof (pos_nonneg bs2).
  destruct (Z.leb_spec (pos cb + pos bs1) RVJIT_FUNC_SIZE).
  - rewrite (Hf (cb ++ bs1)) by (rewrite pos_app; lia). rewrite pos_app, <- app_assoc.
    by rewrite Z.add_assoc.
  - by rewrite (proj2 (Z.leb_gt _ _)) by lia.
Qed.

Lemma emits_if {A} (c : bool) (m1 m2 : ST CodeBuf A) a bs1 bs2 :
  emits m1 a bs1 -> emits m2 a bs2 -> emits (if c then m1 else m2) a (if c then bs1 else bs2).
Proof. by destruct c. Qed.

(** The bytes of the operands. *)

Definition rex_byte (w r x b : bool) : Z :=
  0x40 + (if w then 8 else 0) + (if r then 4 else 0) + (if x then 2 else 0) + (if b then 1 else 0).

Definition modrm_byte (md reg rm : Z) : Z := 64 * md + 8 * Z.land reg 7 + Z.land rm 7.

Definition dw_bytes (v : Z) : list Z :=
  [u8 (Z.shiftr v 0); u8 (Z.shiftr v 8); u8 (Z.shiftr v 16); u8 (Z.shiftr v 24)].

Definition qw_bytes (v : Z) : list Z :=
  dw_bytes v ++ [u8 (Z.shiftr v 32); u8 (Z.shiftr v 40); u8 (Z.shiftr v 48); u8 (Z.shiftr v 56)].

Definition mem_bytes (reg base disp : Z) : list Z :=
  [modrm_byte 2 reg base] ++ (if Z.land base 7 =? 4 then [0x24] else []) ++ dw_bytes (u32 disp).

Lemma emits_rex w r x b : emits (rex w r x b) tt [rex_byte w r x b].
Proof. unfold rex. destruct w, r, x, b; apply emits_cb_b. Qed.

Lemma land7_cases r (P : Z -> Prop) :
  P 0 -> P 1 -> P 2 -> P 3 -> P 4 -> P 5 -> P 6 -> P 7 -> P (Z.land r 7).
Proof.
  intros. change 7 with (Z.ones 3). rewrite Z.land_ones by lia.
  pose proof (Z.mod_pos_bound r (2 ^ 3) ltac:(lia)) as Hr. revert Hr. generalize (r mod 2 ^ 3).
  intros k Hk. assert (k = 0 \/ k = 1 \/ k = 2 \/ k = 3 \/ k = 4 \/ k = 5 \/ k = 6 \/ k = 7) as Hc by lia.
  by repeat destruct Hc as [-> | Hc]; try subst k.
Qed.

Lemma emits_modrm_reg reg rm : emits (modrm_reg reg rm) tt [modrm_byte 3 reg rm].
Proof.
  assert (modrm_byte 3 reg rm = u8 (Z.lor (Z.lor 0xC0 (Z.shiftl (Z.land reg 7) 3)) (Z.land rm 7))) as ->.
  { unfold modrm_byte. by apply (land7_cases reg); apply (land7_cases rm). }
  apply emits_cb_b.
Qed.

Lemma emits_dw v : emits (cb_dw v) tt (dw_bytes v).
Proof.
  unfold cb_dw, dw_bytes.
  do 3 (eapply (emits_bind _ _ tt tt [_] (_ :: _)); [apply emits_cb_b|]). apply emits_cb_b.
Qed.

Lemma emits_qw v : emits (cb_qw v) tt (qw_bytes v).
Proof.
  unfold cb_qw, qw_bytes, dw_bytes. cbn [app].
  do 7 (eapply (emits_bind _ _ tt tt [_] (_ :: _)); [apply emits_cb_b|]). apply emits_cb_b.
Qed.

Lemma emits_modrm_mem reg base disp : emits (modrm_mem reg base disp) tt (mem_bytes reg base disp).
Proof.
  unfold modrm_mem, mem_bytes.
  assert (modrm_byte 2 reg base = u8 (Z.lor (Z.lor 0x80 (Z.shiftl (Z.land reg 7) 3)) (Z.land base 7))) as ->.
  { unfold modrm_byte. by apply (land7_cases reg); apply (land7_cases base). }
  eapply emits_bind; [apply emits_cb_b|].
  apply (emits_bind (if Z.land base 7 =? 4 then cb_b 0x24 else mret tt) _ tt);
    [|apply emits_dw]. apply emits_if; [apply emits_cb_b|apply emits_mret].
Qed.

(** ** Decoding *)

Lemma dec_rex_byte w r x b l : dec_rex (rex_byte w r x b :: l) = (mkRex w r x b true, l).
Proof. by destruct w, r, x, b. Qed.

Lemma ext_reg_low r : 0 <= r < 16 -> ext_reg (8 <=? r) (Z.land r 7) = r.
Proof.
  intros Hr. assert (forallb (fun r => ext_reg (8 <=? r) (Z.land r 7) =? r) (seqZ 0 16) = true) as H by done.
  rewrite forallb_forall in H. specialize (H r). rewrite <- list_elem_of_In, elem_of_seqZ in H.
  apply Z.eqb_eq, H. lia.
Qed.

Lemma modrm_fields md reg rm : md = 2 \/ md = 3 ->
  bf_get (modrm_byte md reg rm) 6 2 = md /\ bf_get (modrm_byte md reg rm) 3 3 = Z.land reg 7 /\
  bf_get (modrm_byte md reg rm) 0 3 = Z.land rm 7.
Proof.
  unfold modrm_byte. intros [-> | ->]; by apply (land7_cases reg); apply (land7_cases rm).
Qed.

Lemma dec_modrm_reg x reg rm l : rexB x = (8 <=? rm) -> 0 <= rm < 16 ->
  dec_modrm x (modrm_byte 3 reg rm :: l) =
  Some (ext_reg (rexR x) (Z.land reg 7), Z.land reg 7, Oreg rm, l).
Proof.
  intros Hb Hrm. unfold dec_modrm.
  destruct (modrm_fields 3 reg rm) as (-> & -> & ->); [by right|]. cbn [Z.eqb Pos.eqb].
  by rewrite Hb, ext_reg_low.
Qed.

Lemma u8_shift v k : 0 <= k -> u8 (Z.shiftr v k) = bf_get v k 8.
Proof. intros. zbits i. zcases; done. Qed.

Lemma dw_bytes_sum v : inw 32 v ->
  u8 (Z.shiftr v 0) + 2 ^ 8 * u8 (Z.shiftr v 8) + 2 ^ 16 * u8 (Z.shiftr v 16) +
  2 ^ 24 * u8 (Z.shiftr v 24) = v.
Proof.
  unfold inw, uN. intros. rewrite !Z.shiftr_div_pow2 by lia. change (2 ^ 0) with 1.
  change (2 ^ 8) with 256. change (2 ^ 16) with 65536. change (2 ^ 24) with 16777216.
  change (2 ^ 32) with 4294967296 in *. Z.div_mod_to_equations. lia.
Qed.

Lemma dec_imm32_dw d l : - 2 ^ 31 <= d < 2 ^ 31 -> dec_imm32 (dw_bytes (u32 d) ++ l) = Some (d, l).
Proof.
  intros Hd. unfold dw_bytes, dec_imm32. cbn [app].
  rewrite dw_bytes_sum by (by apply uN_inw). by rewrite sN_uN, sN_small.
Qed.

Lemma dec_imm64_qw v l : inw 64 v -> dec_imm64 (qw_bytes v ++ l) = Some (v, l).
Proof.
  intros Hv. unfold qw_bytes, dw_bytes, dec_imm64. cbn [app]. f_equal. f_equal.
  unfold inw, uN in *. rewrite !Z.shiftr_div_pow2 by lia. change (2 ^ 0) with 1.
  change (2 ^ 8) with 256. change (2 ^ 16) with 65536. change (2 ^ 24) with 16777216.
  change (2 ^ 32) with 4294967296 in *. change (2 ^ 40) with 1099511627776.
  change (2 ^ 48) with 281474976710656. change (2 ^ 56) with 72057594037927936.
  change (2 ^ 64) with 18446744073709551616 in *. Z.div_mod_to_equations. lia.
Qed.

Lemma dec_modrm_mem x reg base disp l :
  rexB x = (8 <=? base) -> rexX x = false -> 0 <= base < 16 -> - 2 ^ 31 <= disp < 2 ^ 31 ->
  dec_modrm x (mem_bytes reg base disp ++ l) =
  Some (ext_reg (rexR x) (Z.land reg 7), Z.land reg 7, Omem base disp, l).
Proof.
  intros Hb Hx Hbase Hd. unfold dec_modrm, mem_bytes. rewrite <- !app_assoc. cbn [app].
  destruct (modrm_fields 2 reg base) as (-> & -> & ->); [by left|]. cbn [Z.eqb Pos.eqb].
  assert (ext_reg (rexB x) (Z.land base 7) = base) as He by (by rewrite Hb, ext_reg_low).
  destruct (Z.eqb_spec (Z.land base 7) 4) as [E|E]; cbn [app mbind option_bind].
  - change (bf_get 0x24 3 3 =? 4) with true. rewrite Hx. cbn [negb andb mbind option_bind].
    rewrite dec_imm32_dw by done. cbn. change (bf_get 0x24 0 3) with 4. rewrite <- E. by rewrite He.
  - rewrite dec_imm32_dw by done. cbn. by rewrite He.
Qed.

Lemma xdecode_rex w r x b op l : op <> 0x0F ->
  xdecode (rex_byte w r x b :: op :: l) = dec_op (mkRex w r x b true) (if w then B64 else B32) op l.
Proof.
  intros Ho. unfold xdecode.
  assert ((rex_byte w r x b =? 0x66) = false) as -> by (by destruct w, r, x, b).
  rewrite dec_rex_byte. rewrite (proj2 (Z.eqb_neq op 0x0F)) by done. done.
Qed.

Lemma xdecode_rex_0f w r x b op l :
  xdecode (rex_byte w r x b :: 0x0F :: op :: l) =
  dec_0f (mkRex w r x b true) (if w then B64 else B32) op l.
Proof.
  unfold xdecode.
  assert ((rex_byte w r x b =? 0x66) = false) as -> by (by destruct w, r, x, b).
  by rewrite dec_rex_byte.
Qed.

Lemma xdecode_66 r x b op l : op <> 0x0F ->
  xdecode (0x66 :: rex_byte false r x b :: op :: l) = dec_op (mkRex false r x b true) B16 op l.
Proof.
  intros Ho. unfold xdecode. cbn [Z.eqb Pos.eqb]. rewrite dec_rex_byte.
  by rewrite (proj2 (Z.eqb_neq op 0x0F)).
Qed.

(** ** The encoder, one function at a time *)

Definition reg_ok (r : Z) : Prop := 0 <= r < 16.
Definition imm_ok (i : Z) : Prop := - 2 ^ 31 <= i < 2 ^ 31.

Ltac emit1 :=
  lazymatch goal with
  | |- emits (rex _ _ _ _) _ _ => apply emits_rex
  | |- emits (cb_b _) _ _ => apply emits_cb_b
  | |- emits (modrm_reg _ _) _ _ => apply emits_modrm_reg
  | |- emits (modrm_mem _ _ _) _ _ => apply emits_modrm_mem
  | |- emits (cb_dw _) _ _ => apply emits_dw
  | |- emits (cb_qw _) _ _ => apply emits_qw
  | |- emits (mret _) _ _ => apply emits_mret
  | |- emits (if _ then _ else _) _ _ => apply emits_if; emit1
  end.
Ltac head_of t := lazymatch t with ?f _ => head_of f | _ => t end.
Ltac emit_bytes :=
  lazymatch goal with
  | |- emits (mbind _ _) _ _ => eapply emits_bind; [emit1|emit_bytes]
  | |- emits ?m _ _ => first [emit1 | let h := head_of m in unfold h; emit_bytes]
  end.

(** Decide the conditionals at the head of a decoder whose opcode is known. *)
Ltac head_if :=
  match goal with
  | |- (if ?c then _ else _) = _ =>
      let v := eval vm_compute in c in
      first [constr_eq v true | constr_eq v false]; change c with v; cbv iota
  end.

Ltac dec_step := first
  [ head_if
  | rewrite dec_modrm_reg by (cbn; first [reflexivity | lia])
  | rewrite dec_modrm_mem by (cbn; first [reflexivity | lia])
  | rewrite dec_imm32_dw by lia
  | rewrite dec_imm64_qw by done
  | progress cbn [mbind option_bind dec_imm8] ].

Ltac bytes_const :=
  repeat match goal with
  | |- context [u8 ?c] => let v := eval vm_compute in (u8 c) in
      lazymatch v with Z0 => idtac | Zpos _ => idtac end; change (u8 c) with v
  end.

Ltac enc_len_tac :=
  rewrite ?pos_app; unfold mem_bytes, qw_bytes, dw_bytes; rewrite ?pos_app;
  repeat match goal with |- context [if ?b then _ else _] => destruct b end;
  unfold pos; cbn [length app]; lia.

Ltac enc_decode_tac :=
  intros l; rewrite <- ?app_assoc; cbn [app]; bytes_const;
  first [rewrite xdecode_rex by done | rewrite xdecode_rex_0f | rewrite xdecode_66 by done | idtac];
  cbv [dec_op dec_0f]; repeat dec_step; cbn [rexR rexB];
  rewrite ?ext_reg_low by lia; rewrite ?uN_id by assumption; try reflexivity.

Ltac enc := unfold reg_ok, imm_ok in *; eexists; split; [emit_bytes|split; [enc_len_tac|enc_decode_tac]].

(** The operation codes of the instruction groups. *)
Definition alu_code (op : xalu) : Z :=
  match op with Xadd => 0 | Xor => 1 | Xand => 4 | Xsub => 5 | Xxor => 6 | Xcmp => 7 end.
Definition shift_code (sh : xshift) : Z := match sh with Xshl => 4 | Xshr => 5 | Xsar => 7 end.

Section enc.
Context (dst src base disp imm i8 : Z) (op : xalu) (sh : xshift).
Context (Hdst : reg_ok dst) (Hsrc : reg_ok src) (Hbase : reg_ok base).
Context (Hdisp : imm_ok disp) (Himm : imm_ok imm) (Hi8 : inw 8 i8).

Lemma enc_mov_rr : encodes (mov_rr dst src) (Imov_store B64 (Oreg dst) src) 3.
Proof using Hdst Hsrc. enc. Qed.
Lemma enc_mov_mr : encodes (mov_mr dst base disp) (Imov_load B64 dst (Omem base disp)) 8.
Proof using Hdst Hbase Hdisp. enc. Qed.
Lemma enc_mov_rm : encodes (mov_rm base disp src) (Imov_store B64 (Omem base disp) src) 8.
Proof using Hsrc Hbase Hdisp. enc. Qed.
Lemma enc_lea_r64_mem : encodes (lea_r64_mem dst base disp) (Ilea dst (Omem base disp)) 8.
Proof using Hdst Hbase Hdisp. enc. Qed.
Lemma enc_movzx_r64_m8 :
  encodes (movzx_r64_m8 dst base disp) (Imovzx B64 B8 dst (Omem base disp)) 9.
Proof using Hdst Hbase Hdisp. enc. Qed.
Lemma enc_movzx_r64_m16 :
  encodes (movzx_r64_m16 dst base disp) (Imovzx B64 B16 dst (Omem base disp)) 9.
Proof using Hdst Hbase Hdisp. enc. Qed.
Lemma enc_movsx_r64_m8 : encodes (movsx_r64_m8 dst base disp) (Imovsx B8 dst (Omem base disp)) 9.
Proof using Hdst Hbase Hdisp. enc. Qed.
Lemma enc_movsx_r64_m16 : encodes (movsx_r64_m16 dst base disp) (Imovsx B16 dst (Omem base disp)) 9.
Proof using Hdst Hbase Hdisp. enc. Qed.
Lemma enc_movsxd_r64_m32 :
  encodes (movsxd_r64_m32 dst base disp) (Imovsx B32 dst (Omem base disp)) 8.
Proof using Hdst Hbase Hdisp. enc. Qed.
Lemma enc_mov_r32_m32 : encodes (mov_r32_m32 dst base disp) (Imov_load B32 dst (Omem base disp)) 8.
Proof using Hdst Hbase Hdisp. enc. Qed.
Lemma enc_mov_m8_r8 : encodes (mov_m8_r8 base disp src) (Imov_store B8 (Omem base disp) src) 8.
Proof using Hsrc Hbase Hdisp. enc. Qed.
Lemma enc_mov_m16_r16 : encodes (mov_m16_r16 base disp src) (Imov_store B16 (Omem base disp) src) 9.
Proof using Hsrc Hbase Hdisp. enc. Qed.
Lemma enc_mov_m32_r32 : encodes (mov_m32_r32 base disp src) (Imov_store B32 (Omem base disp) src) 8.
Proof using Hsrc Hbase Hdisp. enc. Qed.
Lemma enc_mov_imm32 : encodes (mov_imm32 dst imm) (Imov_imm B64 (Oreg dst) imm) 7.
Proof using Hdst Himm. enc. Qed.
Lemma enc_mov_m64_imm : encodes (mov_m64_imm base disp imm) (Imov_imm B64 (Omem base disp) imm) 12.
Proof using Hbase Hdisp Himm. enc. Qed.
Lemma enc_movzx_r64_r8 : encodes (movzx_r64_r8 dst src) (Imovzx B64 B8 dst (Oreg src)) 4.
Proof using Hdst Hsrc. enc. Qed.
Lemma enc_movzx_ecx_r8 : encodes (movzx_ecx_r8 src) (Imovzx B32 B8 REG_RCX (Oreg src)) 4.
Proof using Hsrc. enc. Qed.
Lemma enc_movsxd : encodes (movsxd dst src) (Imovsx B32 dst (Oreg src)) 3.
Proof using Hdst Hsrc. enc. Qed.
Lemma enc_ret : encodes ret Iret 1.
Proof. enc. Qed.
Lemma enc_arith_rr64 :
  encodes (arith_rr64 (alu_code op) dst src) (Ialu_store B64 op (Oreg dst) src) 3.
Proof using Hdst Hsrc. destruct op; enc. Qed.
Lemma enc_arith_rr32 :
  encodes (arith_rr32 (alu_code op) dst src) (Ialu_store B32 op (Oreg dst) src) 3.
Proof using Hdst Hsrc. destruct op; enc. Qed.
Lemma enc_arith_imm64 :
  encodes (arith_imm64 (alu_code op) dst imm) (Ialu_imm B64 op (Oreg dst) imm) 7.
Proof using Hdst Himm. destruct op; enc. Qed.
Lemma enc_arith_imm32 :
  encodes (arith_imm32 (alu_code op) dst imm) (Ialu_imm B32 op (Oreg dst) imm) 7.
Proof using Hdst Himm. destruct op; enc. Qed.
Lemma enc_arith_rm64 :
  encodes (arith_rm64 (alu_code op) dst base disp) (Ialu_load B64 op dst (Omem base disp)) 8.
Proof using Hdst Hbase Hdisp. destruct op; enc. Qed.
Lemma enc_cmp_r16_m16 :
  encodes (cmp_r16_m16 dst base disp) (Ialu_load B16 Xcmp dst (Omem base disp)) 9.
Proof using Hdst Hbase Hdisp. enc. Qed.
Lemma enc_cmp_m16_r16 :
  encodes (cmp_m16_r16 base disp src) (Ialu_store B16 Xcmp (Omem base disp) src) 9.
Proof using Hsrc Hbase Hdisp. enc. Qed.
Lemma enc_neg64 : encodes (neg64 dst) (Iunary B64 Xneg (Oreg dst)) 3.
Proof using Hdst. enc. Qed.
Lemma enc_neg32 : encodes (neg32 dst) (Iunary B32 Xneg (Oreg dst)) 3.
Proof using Hdst. enc. Qed.
Lemma enc_shift_r64_imm :
  encodes (shift_r64_imm (shift_code sh) dst i8) (Ishift B64 sh (Oreg dst) i8) 4.
Proof using Hdst Hi8. destruct sh; enc. Qed.
Lemma enc_shift_r32_imm :
  encodes (shift_r32_imm (shift_code sh) dst i8) (Ishift B32 sh (Oreg dst) i8) 4.
Proof using Hdst Hi8. destruct sh; enc. Qed.
Lemma enc_shift_r64_cl : encodes (shift_r64_cl (shift_code sh) dst) (Ishift_cl B64 sh (Oreg dst)) 3.
Proof using Hdst. destruct sh; enc. Qed.
Lemma enc_shift_r32_cl : encodes (shift_r32_cl (shift_code sh) dst) (Ishift_cl B32 sh (Oreg dst)) 3.
Proof using Hdst. destruct sh; enc. Qed.
Lemma enc_mov_rr32 : encodes (mov_rr32 dst src) (Imov_store B32 (Oreg dst) src) 3.
Proof using Hdst Hsrc. enc. Qed.
Lemma enc_mul_r : encodes (mul_r src) (Iunary B64 Xmul (Oreg src)) 3.
Proof using Hsrc. enc. Qed.
Lemma enc_mul_r32 : encodes (mul_r32 src) (Iunary B32 Xmul (Oreg src)) 3.
Proof using Hsrc. enc. Qed.
Lemma enc_imul_r : encodes (imul_r src) (Iunary B64 Ximul (Oreg src)) 3.
Proof using Hsrc. enc. Qed.
Lemma enc_imul_r32 : encodes (imul_r32 src) (Iunary B32 Ximul (Oreg src)) 3.
Proof using Hsrc. enc. Qed.
Lemma enc_imul_rr : encodes (imul_rr dst src) (Iimul B64 dst (Oreg src)) 4.
Proof using Hdst Hsrc. enc. Qed.
Lemma enc_imul_r_imm32 : encodes (imul_r_imm32 dst imm) (Iimul_imm B64 dst (Oreg dst) imm) 7.
Proof using Hdst Himm. enc. Qed.
Lemma enc_imul_rr32 : encodes (imul_rr32 dst src) (Iimul B32 dst (Oreg src)) 4.
Proof using Hdst Hsrc. enc. Qed.
Lemma enc_div_r : encodes (div_r src) (Iunary B64 Xdiv (Oreg src)) 3.
Proof using Hsrc. enc. Qed.
Lemma enc_div_r32 : encodes (div_r32 src) (Iunary B32 Xdiv (Oreg src)) 3.
Proof using Hsrc. enc. Qed.
Lemma enc_idiv_r : encodes (idiv_r src) (Iunary B64 Xidiv (Oreg src)) 3.
Proof using Hsrc. enc. Qed.
Lemma enc_idiv_r32 : encodes (idiv_r32 src) (Iunary B32 Xidiv (Oreg src)) 3.
Proof using Hsrc. enc. Qed.
Lemma enc_cqo : encodes cqo (Iextend B64) 2.
Proof. enc. Qed.
Lemma enc_cdq : encodes cdq (Iextend B32) 1.
Proof. enc. Qed.
Lemma enc_test_r64_m64 : encodes (test_r64_m64 dst base disp) (Itest B64 (Omem base disp) dst) 8.
Proof using Hdst Hbase Hdisp. enc. Qed.
Lemma enc_test_rr : encodes (test_rr dst src) (Itest B64 (Oreg src) dst) 3.
Proof using Hdst Hsrc. enc. Qed.
Lemma enc_test_imm : encodes (test_imm dst imm) (Itest_imm B64 (Oreg dst) imm) 7.
Proof using Hdst Himm. enc. Qed.
Lemma enc_test_m8_imm : encodes (test_m8_imm base disp i8) (Itest_imm B8 (Omem base disp) i8) 9.
Proof using Hbase Hdisp Hi8. enc. Qed.
Lemma enc_sub_m64_imm :
  encodes (sub_m64_imm base disp imm) (Ialu_imm B64 Xsub (Omem base disp) imm) 12.
Proof using Hbase Hdisp Himm. enc. Qed.
End enc.

(** Case split on a register number. *)
Ltac reg_cases r :=
  assert (r = 0 \/ r = 1 \/ r = 2 \/ r = 3 \/ r = 4 \/ r = 5 \/ r = 6 \/ r = 7 \/ r = 8 \/ r = 9 \/
    r = 10 \/ r = 11 \/ r = 12 \/ r = 13 \/ r = 14 \/ r = 15) by (unfold reg_ok in *; lia);
  destruct_or!; subst r.

Lemma enc_mov_imm64 dst imm : reg_ok dst -> inw 64 imm ->
  encodes (mov_imm64 dst imm) (Imov_abs dst imm) 10.
Proof. intros Hd Hi. reg_cases dst; enc. Qed.

Lemma enc_push_r r : reg_ok r -> encodes (push_r r) (Ipush r) 2.
Proof.
  intros Hr. reg_cases r; (eexists; split; [emit_bytes|split; [enc_len_tac|intros l; reflexivity]]).
Qed.

Lemma enc_pop_r r : reg_ok r -> encodes (pop_r r) (Ipop r) 2.
Proof.
  intros Hr. reg_cases r; (eexists; split; [emit_bytes|split; [enc_len_tac|intros l; reflexivity]]).
Qed.

Lemma enc_jmp_r r : reg_ok r -> encodes (jmp_r r) (Ijmp_to (Oreg r)) 3.
Proof.
  intros Hr. reg_cases r; (eexists; split; [emit_bytes|split; [enc_len_tac|intros l; reflexivity]]).
Qed.

Lemma enc_setcc k dst : reg_ok k -> reg_ok dst -> encodes (setcc (0x90 + k) dst) (Isetcc k (Oreg dst)) 4.
Proof. intros Hk Hd. reg_cases k; enc. Qed.

Lemma enc_lea_r64_rip dst : reg_ok dst -> encodes (lea_r64_rip dst) (Ilea dst (Orip 0)) 7.
Proof.
  intros Hr. reg_cases dst; (eexists; split; [emit_bytes|split; [enc_len_tac|intros l; reflexivity]]).
Qed.

(** The lemma of an encoder. *)
Ltac enc1 :=
  lazymatch goal with
  | |- encodes (mov_rr _ _) _ _ => apply enc_mov_rr
  | |- encodes (mov_rr32 _ _) _ _ => apply enc_mov_rr32
  | |- encodes (mov_mr _ _ _) _ _ => apply enc_mov_mr
  | |- encodes (mov_r32_m32 _ _ _) _ _ => apply enc_mov_r32_m32
  | |- encodes (mov_m32_r32 _ _ _) _ _ => apply enc_mov_m32_r32
  | |- encodes (mov_m16_r16 _ _ _) _ _ => apply enc_mov_m16_r16
  | |- encodes (mov_m8_r8 _ _ _) _ _ => apply enc_mov_m8_r8
  | |- encodes (movzx_r64_m8 _ _ _) _ _ => apply enc_movzx_r64_m8
  | |- encodes (movzx_r64_m16 _ _ _) _ _ => apply enc_movzx_r64_m16
  | |- encodes (movsx_r64_m8 _ _ _) _ _ => apply enc_movsx_r64_m8
  | |- encodes (movsx_r64_m16 _ _ _) _ _ => apply enc_movsx_r64_m16
  | |- encodes (movsxd_r64_m32 _ _ _) _ _ => apply enc_movsxd_r64_m32
  | |- encodes (movzx_ecx_r8 _) _ _ => apply enc_movzx_ecx_r8
  | |- encodes (mov_m64_imm _ _ _) _ _ => apply enc_mov_m64_imm
  | |- encodes (mov_rm _ _ _) _ _ => apply enc_mov_rm
  | |- encodes (mov_imm32 _ _) _ _ => apply enc_mov_imm32
  | |- encodes (mov_imm64 _ _) _ _ => apply enc_mov_imm64
  | |- encodes (lea_r64_mem _ _ _) _ _ => apply enc_lea_r64_mem
  | |- encodes (movsxd _ _) _ _ => apply enc_movsxd
  | |- encodes (movzx_r64_r8 _ _) _ _ => apply enc_movzx_r64_r8
  | |- encodes (add_rr _ _) _ _ => apply (enc_arith_rr64 _ _ Xadd)
  | |- encodes (or_rr _ _) _ _ => apply (enc_arith_rr64 _ _ Xor)
  | |- encodes (and_rr _ _) _ _ => apply (enc_arith_rr64 _ _ Xand)
  | |- encodes (sub_rr _ _) _ _ => apply (enc_arith_rr64 _ _ Xsub)
  | |- encodes (xor_rr _ _) _ _ => apply (enc_arith_rr64 _ _ Xxor)
  | |- encodes (cmp_rr _ _) _ _ => apply (enc_arith_rr64 _ _ Xcmp)
  | |- encodes (add_imm _ _) _ _ => apply (enc_arith_imm64 _ _ Xadd)
  | |- encodes (or_imm _ _) _ _ => apply (enc_arith_imm64 _ _ Xor)
  | |- encodes (and_imm _ _) _ _ => apply (enc_arith_imm64 _ _ Xand)
  | |- encodes (xor_imm _ _) _ _ => apply (enc_arith_imm64 _ _ Xxor)
  | |- encodes (cmp_imm _ _) _ _ => apply (enc_arith_imm64 _ _ Xcmp)
  | |- encodes (neg64 _) _ _ => apply enc_neg64
  | |- encodes (neg32 _) _ _ => apply enc_neg32
  | |- encodes (shift_r64_cl 4 _) _ _ => apply (enc_shift_r64_cl _ Xshl)
  | |- encodes (shift_r64_cl 5 _) _ _ => apply (enc_shift_r64_cl _ Xshr)
  | |- encodes (shift_r64_cl 7 _) _ _ => apply (enc_shift_r64_cl _ Xsar)
  | |- encodes (shift_r32_cl 4 _) _ _ => apply (enc_shift_r32_cl _ Xshl)
  | |- encodes (shift_r32_cl 5 _) _ _ => apply (enc_shift_r32_cl _ Xshr)
  | |- encodes (shift_r32_cl 7 _) _ _ => apply (enc_shift_r32_cl _ Xsar)
  | |- encodes (shift_r64_imm 4 _ _) _ _ => apply (enc_shift_r64_imm _ _ Xshl)
  | |- encodes (shift_r64_imm 5 _ _) _ _ => apply (enc_shift_r64_imm _ _ Xshr)
  | |- encodes (shift_r64_imm 7 _ _) _ _ => apply (enc_shift_r64_imm _ _ Xsar)
  | |- encodes (shift_r32_imm 4 _ _) _ _ => apply (enc_shift_r32_imm _ _ Xshl)
  | |- encodes (shift_r32_imm 5 _ _) _ _ => apply (enc_shift_r32_imm _ _ Xshr)
  | |- encodes (shift_r32_imm 7 _ _) _ _ => apply (enc_shift_r32_imm _ _ Xsar)
  | |- encodes (setcc 0x9C _) _ _ => apply (enc_setcc 0xC)
  | |- encodes (setcc 0x92 _) _ _ => apply (enc_setcc 0x2)
  | |- encodes (mul_r _) _ _ => apply enc_mul_r
  | |- encodes (imul_r _) _ _ => apply enc_imul_r
  | |- encodes (imul_rr _ _) _ _ => apply enc_imul_rr
  | |- encodes (imul_rr32 _ _) _ _ => apply enc_imul_rr32
  | |- encodes (div_r _) _ _ => apply enc_div_r
  | |- encodes (div_r32 _) _ _ => apply enc_div_r32
  | |- encodes (idiv_r _) _ _ => apply enc_idiv_r
  | |- encodes (idiv_r32 _) _ _ => apply enc_idiv_r32
  | |- encodes cqo _ _ => apply enc_cqo
  | |- encodes cdq _ _ => apply enc_cdq
  | |- encodes (add_rr32 _ _) _ _ => apply (enc_arith_rr32 _ _ Xadd)
  | |- encodes (or_rr32 _ _) _ _ => apply (enc_arith_rr32 _ _ Xor)
  | |- encodes (and_rr32 _ _) _ _ => apply (enc_arith_rr32 _ _ Xand)
  | |- encodes (sub_rr32 _ _) _ _ => apply (enc_arith_rr32 _ _ Xsub)
  | |- encodes (xor_rr32 _ _) _ _ => apply (enc_arith_rr32 _ _ Xxor)
  | |- encodes (add_imm32 _ _) _ _ => apply (enc_arith_imm32 _ _ Xadd)
  | |- encodes (and_imm32 _ _) _ _ => apply (enc_arith_imm32 _ _ Xand)
  | |- encodes (cmp_imm32 _ _) _ _ => apply (enc_arith_imm32 _ _ Xcmp)
  | |- encodes (add_r64_m64 _ _ _) _ _ => apply (enc_arith_rm64 _ _ _ Xadd)
  | |- encodes (or_r64_m64 _ _ _) _ _ => apply (enc_arith_rm64 _ _ _ Xor)
  | |- encodes (and_r64_m64 _ _ _) _ _ => apply (enc_arith_rm64 _ _ _ Xand)
  | |- encodes (xor_r64_m64 _ _ _) _ _ => apply (enc_arith_rm64 _ _ _ Xxor)
  | |- encodes (cmp_r64_m64 _ _ _) _ _ => apply (enc_arith_rm64 _ _ _ Xcmp)
  | |- encodes (cmp_r16_m16 _ _ _) _ _ => apply enc_cmp_r16_m16
  | |- encodes (cmp_m16_r16 _ _ _) _ _ => apply enc_cmp_m16_r16
  | |- encodes (sub_m64_imm _ _ _) _ _ => apply enc_sub_m64_imm
  | |- encodes (setcc (0x90 + _) _) _ _ => apply enc_setcc
  | |- encodes (mul_r32 _) _ _ => apply enc_mul_r32
  | |- encodes (imul_r32 _) _ _ => apply enc_imul_r32
  | |- encodes (imul_r_imm32 _ _) _ _ => apply enc_imul_r_imm32
  | |- encodes (test_rr _ _) _ _ => apply enc_test_rr
  | |- encodes (test_r64_m64 _ _ _) _ _ => apply enc_test_r64_m64
  | |- encodes (test_imm _ _) _ _ => apply enc_test_imm
  | |- encodes (test_m8_imm _ _ _) _ _ => apply enc_test_m8_imm
  | |- encodes (jmp_r _) _ _ => apply enc_jmp_r
  | |- encodes (push_r _) _ _ => apply enc_push_r
  | |- encodes (pop_r _) _ _ => apply enc_pop_r
  | |- encodes ret _ _ => apply enc_ret
  | |- encodes (lea_r64_rip _) _ _ => apply enc_lea_r64_rip
  end.

(** ** Jumps *)

Lemma emits_long {A} (m : ST CodeBuf A) a bs cb :
  emits m a bs -> pos cb + pos bs <= RVJIT_FUNC_SIZE -> m cb = Ret (a, cb ++ bs).
Proof.
  intros Hm Hc. pose proof (pos_nonneg bs). rewrite Hm by lia. by rewrite (proj2 (Z.leb_le _ _)).
Qed.

Lemma jcc8_emits op cb : pos cb + 2 <= RVJIT_FUNC_SIZE ->
  jcc8 op cb = Ret (pos cb + 1, cb ++ [u8 op; 0]).
Proof.
  intros Hc. unfold jcc8. cbv [mbind ST_bind gets mret ST_ret].
  rewrite (emits_cb_b op) by lia. rewrite (proj2 (Z.leb_le _ _)) by (change (pos [u8 op]) with 1; lia).
  cbv beta iota. rewrite (emits_cb_b 0) by (rewrite pos_app; change (pos [u8 op]) with 1; lia).
  rewrite (proj2 (Z.leb_le _ _)) by (rewrite pos_app; change (pos [u8 op]) with 1; change (pos [u8 0]) with 1; lia).
  rewrite pos_app, <- app_assoc. done.
Qed.

Lemma jcc32_emits cc cb : pos cb + 6 <= RVJIT_FUNC_SIZE ->
  jcc32 cc cb = Ret (pos cb + 2, cb ++ [0x0F; u8 (Z.lor 0x80 (Z.land cc 0xF)); 0; 0; 0; 0]).
Proof.
  intros Hc. unfold jcc32. cbv [mbind ST_bind gets mret ST_ret].
  rewrite (emits_long _ tt _ _ (emits_cb_b 0x0F)) by (change (pos [u8 0x0F]) with 1; lia).
  rewrite (emits_long _ tt _ _ (emits_cb_b _)) by (rewrite pos_app; change (pos [u8 _]) with 1; lia).
  cbv beta iota. rewrite (emits_long _ tt _ _ (emits_dw 0))
    by (rewrite !pos_app; change (pos [u8 _]) with 1; change (pos (dw_bytes 0)) with 4; lia).
  rewrite !pos_app, <- !app_assoc. change (pos [u8 _]) with 1.
  replace (pos cb + 2) with (pos cb + 1 + 1) by lia. done.
Qed.

Lemma jmp32_emits cb : pos cb + 5 <= RVJIT_FUNC_SIZE ->
  jmp32 cb = Ret (pos cb + 1, cb ++ [0xE9; 0; 0; 0; 0]).
Proof.
  intros Hc. unfold jmp32. cbv [mbind ST_bind gets mret ST_ret].
  rewrite (emits_long _ tt _ _ (emits_cb_b 0xE9)) by (change (pos [u8 0xE9]) with 1; lia).
  cbv beta iota. rewrite (emits_long _ tt _ _ (emits_dw 0))
    by (rewrite !pos_app; change (pos [u8 _]) with 1; change (pos (dw_bytes 0)) with 4; lia).
  rewrite !pos_app, <- !app_assoc. done.
Qed.

Lemma cb_set_at c1 x c2 v : cb_set (pos c1) v (c1 ++ x :: c2) = Ret (tt, c1 ++ u8 v :: c2).
Proof.
  unfold cb_set. rewrite (proj2 (Z.leb_le _ _)), (proj2 (Z.ltb_lt _ _)); try apply pos_nonneg.
  2:{ rewrite pos_app. unfold pos. cbn [length]. lia. }
  unfold pos. rewrite Nat2Z.id. cbn [andb]. do 2 f_equal.
  etransitivity; [apply (insert_app_r_alt c1 (x :: c2)); lia|]. by rewrite Nat.sub_diag.
Qed.

Lemma patch_rel8_at c1 x c2 target : pos (c1 ++ x :: c2) <= RVJIT_FUNC_SIZE ->
  0 <= target <= RVJIT_FUNC_SIZE ->
  patch_rel8 (pos c1) target (c1 ++ x :: c2) = Ret (tt, c1 ++ u8 (target - (pos c1 + 1)) :: c2).
Proof.
  intros Hc Ht. unfold patch_rel8. rewrite cb_set_at. do 3 f_equal. f_equal.
  unfold uN. rewrite Z.mod_mod_divide by (exists (2 ^ 24); lia).
  rewrite Zminus_mod. rewrite Z.mod_mod_divide by (exists (2 ^ 24); lia). by rewrite <- Zminus_mod.
Qed.

Lemma patch_rel32_at c1 x0 x1 x2 x3 c2 target :
  patch_rel32 (pos c1) target (c1 ++ x0 :: x1 :: x2 :: x3 :: c2) =
  Ret (tt, c1 ++ dw_bytes (u32 (target - (pos c1 + 4))) ++ c2).
Proof.
  unfold patch_rel32. set (o := u32 (s32 (u32 (target - u32 (pos c1 + 4))))).
  assert (o = u32 (target - (pos c1 + 4))) as Eo.
  { unfold o. rewrite uN_sN by lia. unfold uN. rewrite Z.mod_mod by lia.
    by rewrite Zminus_mod_idemp_r. }
  cbv zeta. cbv [mbind ST_bind]. rewrite Z.add_0_r, cb_set_at. cbv beta iota.
  set (b0 := u8 (Z.shiftr o 0)). set (b1 := u8 (Z.shiftr o 8)). set (b2 := u8 (Z.shiftr o 16)).
  replace (c1 ++ b0 :: x1 :: x2 :: x3 :: c2) with ((c1 ++ [b0]) ++ x1 :: x2 :: x3 :: c2)
    by (by rewrite <- app_assoc).
  replace (pos c1 + 1) with (pos (c1 ++ [b0])) by (rewrite pos_app; done).
  rewrite cb_set_at. cbv beta iota.
  replace ((c1 ++ [b0]) ++ u8 (Z.shiftr o 8) :: x2 :: x3 :: c2)
    with ((c1 ++ [b0; b1]) ++ x2 :: x3 :: c2) by (by rewrite <- !app_assoc).
  replace (pos c1 + 2) with (pos (c1 ++ [b0; b1])) by (rewrite pos_app; done).
  rewrite cb_set_at. cbv beta iota.
  replace ((c1 ++ [b0; b1]) ++ u8 (Z.shiftr o 16) :: x3 :: c2)
    with ((c1 ++ [b0; b1; b2]) ++ x3 :: c2) by (by rewrite <- !app_assoc).
  replace (pos c1 + 3) with (pos (c1 ++ [b0; b1; b2])) by (rewrite pos_app; done).
  rewrite cb_set_at. rewrite <- app_assoc. rewrite <- Eo. done.
Qed.

Lemma dec_jcc8 k d l : reg_ok k -> xdecode (0x70 + k :: d :: l) = Some (Ijcc k (s8 d), l).
Proof. intros Hk. reg_cases k; reflexivity. Qed.

Lemma dec_jmp8 d l : xdecode (0xEB :: d :: l) = Some (Ijmp (s8 d), l).
Proof. reflexivity. Qed.

Lemma jcc32_opcode cc : reg_ok cc -> u8 (Z.lor 0x80 (Z.land cc 0xF)) = 0x80 + cc.
Proof. intros Hk. reg_cases cc; reflexivity. Qed.

(** An opcode that is no prefix. *)
Lemma xdecode_plain op l : op <> 0x66 -> Z.shiftr op 4 <> 4 ->
  xdecode (op :: l) = if op =? 0x0F then match l with op2 :: l' => dec_0f no_rex B32 op2 l' | [] => None end
                      else dec_op no_rex B32 op l.
Proof.
  intros H1 H2. unfold xdecode, dec_rex. rewrite (proj2 (Z.eqb_neq op 0x66)) by done.
  by rewrite (proj2 (Z.eqb_neq _ 4)) by done.
Qed.

Lemma dec_jcc32 cc d l : reg_ok cc -> imm_ok d ->
  xdecode (0x0F :: 0x80 + cc :: dw_bytes (u32 d) ++ l) = Some (Ijcc cc d, l).
Proof.
  intros Hk Hd. unfold imm_ok in *. rewrite xdecode_plain by done. cbn [Z.eqb Pos.eqb].
  reg_cases cc; cbv [dec_0f]; repeat dec_step; reflexivity.
Qed.

Lemma dec_jmp32 d l : imm_ok d -> xdecode (0xE9 :: dw_bytes (u32 d) ++ l) = Some (Ijmp d, l).
Proof.
  intros Hd. unfold imm_ok in *. rewrite xdecode_plain by done. cbn [Z.eqb Pos.eqb].
  cbv [dec_op]; repeat dec_step; reflexivity.
Qed.

(** A jump emitted at the end of [cb] and patched once the bytes [bs] follow it. *)
Lemma jcc32_patched cc cb bs t : reg_ok cc -> pos cb + 6 <= RVJIT_FUNC_SIZE -> imm_ok (t - (pos cb + 6)) ->
  exists r c b, jcc32 cc cb = Ret (r, c) /\ patch_rel32 r t (c ++ bs) = Ret (tt, cb ++ b ++ bs) /\
    pos b = 6 /\ forall l, xdecode (b ++ l) = Some (Ijcc cc (t - (pos cb + 6)), l).
Proof.
  intros Hk Hc Ht. eexists _, _, (0x0F :: 0x80 + cc :: dw_bytes (u32 (t - (pos cb + 6)))).
  rewrite jcc32_emits, jcc32_opcode by done. split; [reflexivity|]. split; [|split; [done|]].
  - pose proof (patch_rel32_at (cb ++ [0x0F; 0x80 + cc]) 0 0 0 0 bs t) as H.
    rewrite pos_app, <- !app_assoc in H. change (pos [0x0F; 0x80 + cc]) with 2 in H.
    rewrite <- Z.add_assoc in H. rewrite <- app_assoc. exact H.
  - intros l. apply dec_jcc32; done.
Qed.

Lemma jmp32_patched cb bs t : pos cb + 5 <= RVJIT_FUNC_SIZE -> imm_ok (t - (pos cb + 5)) ->
  exists r c b, jmp32 cb = Ret (r, c) /\ patch_rel32 r t (c ++ bs) = Ret (tt, cb ++ b ++ bs) /\
    pos b = 5 /\ forall l, xdecode (b ++ l) = Some (Ijmp (t - (pos cb + 5)), l).
Proof.
  intros Hc Ht. eexists _, _, (0xE9 :: dw_bytes (u32 (t - (pos cb + 5)))).
  rewrite jmp32_emits by done. split; [reflexivity|]. split; [|split; [done|]].
  - pose proof (patch_rel32_at (cb ++ [0xE9]) 0 0 0 0 bs t) as H.
    rewrite pos_app, <- !app_assoc in H. change (pos [0xE9]) with 1 in H.
    rewrite <- Z.add_assoc in H. rewrite <- app_assoc. exact H.
  - intros l. apply dec_jmp32; done.
Qed.

Lemma jcc8_patched cc cb bs : reg_ok cc -> pos cb + 2 + pos bs <= RVJIT_FUNC_SIZE -> pos bs < 128 ->
  exists r c b, jcc8 (0x70 + cc) cb = Ret (r, c) /\
    patch_rel8 r (pos (c ++ bs)) (c ++ bs) = Ret (tt, cb ++ b ++ bs) /\
    pos b = 2 /\ forall l, xdecode (b ++ l) = Some (Ijcc cc (pos bs), l).
Proof.
  intros Hk Hc Hb. pose proof (pos_nonneg bs) as Hb0. pose proof (pos_nonneg cb) as Hc0.
  assert (u8 (0x70 + cc) = 0x70 + cc) as Eo by (unfold reg_ok in Hk; apply uN_id; split; lia).
  eexists _, _, [0x70 + cc; pos bs]. rewrite jcc8_emits, Eo by lia.
  split; [reflexivity|]. split; [|split; [done|]].
  - pose proof (patch_rel8_at (cb ++ [0x70 + cc]) 0 bs (pos ((cb ++ [0x70 + cc; 0]) ++ bs))) as H.
    rewrite !pos_app in H. rewrite !pos_app. change (pos [0x70 + cc]) with 1 in H.
    change (pos [0x70 + cc; 0]) with 2 in *.
    assert (pos (0 :: bs) = 1 + pos bs) as E1 by (unfold pos; cbn [length]; lia). rewrite E1 in H.
    specialize (H ltac:(lia) ltac:(lia)).
    replace (u8 (pos cb + 2 + pos bs - (pos cb + 1 + 1))) with (pos bs) in H
      by (rewrite uN_id; [lia|split; lia]).
    rewrite <- !app_assoc in H. rewrite <- app_assoc. exact H.
  - intros l. cbn [app]. rewrite dec_jcc8 by done. by rewrite (sN_small 8) by lia.
Qed.

(** C17: every encoder of [rvjit_x86_64.hpp] appends bytes that decode to the
    host instruction it is named after, with the registers, displacement and
    immediate it was given, whatever bytes follow; and a jump that is patched
    once its target is known decodes to a jump to that target, the bytes around
    it being unchanged. *)
Theorem x86_encoder dst src base disp imm v i8 cc : reg_ok dst -> reg_ok src -> reg_ok base ->
  imm_ok disp -> imm_ok imm -> inw 64 v -> inw 8 i8 -> reg_ok cc ->
  Forall (fun '(m, i) => exists n, encodes m i n) [
    (mov_rr dst src, Imov_store B64 (Oreg dst) src); (mov_rr32 dst src, Imov_store B32 (Oreg dst) src);
    (mov_mr dst base disp, Imov_load B64 dst (Omem base disp)); (mov_r32_m32 dst base disp, Imov_load B32 dst (Omem base disp));
    (mov_rm base disp src, Imov_store B64 (Omem base disp) src); (mov_m32_r32 base disp src, Imov_store B32 (Omem base disp) src);
    (mov_m16_r16 base disp src, Imov_store B16 (Omem base disp) src); (mov_m8_r8 base disp src, Imov_store B8 (Omem base disp) src);
    (lea_r64_mem dst base disp, Ilea dst (Omem base disp)); (lea_r64_rip dst, Ilea dst (Orip 0));
    (movzx_r64_m8 dst base disp, Imovzx B64 B8 dst (Omem base disp)); (movzx_r64_m16 dst base disp, Imovzx B64 B16 dst (Omem base disp));
    (movsx_r64_m8 dst base disp, Imovsx B8 dst (Omem base disp)); (movsx_r64_m16 dst base disp, Imovsx B16 dst (Omem base disp));
    (movsxd_r64_m32 dst base disp, Imovsx B32 dst (Omem base disp)); (movsxd dst src, Imovsx B32 dst (Oreg src));
    (movzx_r64_r8 dst src, Imovzx B64 B8 dst (Oreg src)); (movzx_ecx_r8 src, Imovzx B32 B8 REG_RCX (Oreg src));
    (mov_imm32 dst imm, Imov_imm B64 (Oreg dst) imm); (mov_m64_imm base disp imm, Imov_imm B64 (Omem base disp) imm);
    (mov_imm64 dst v, Imov_abs dst v); (push_r dst, Ipush dst); (pop_r dst, Ipop dst); (ret, Iret);
    (add_rr dst src, Ialu_store B64 Xadd (Oreg dst) src); (or_rr dst src, Ialu_store B64 Xor (Oreg dst) src);
    (and_rr dst src, Ialu_store B64 Xand (Oreg dst) src); (sub_rr dst src, Ialu_store B64 Xsub (Oreg dst) src);
    (xor_rr dst src, Ialu_store B64 Xxor (Oreg dst) src); (cmp_rr dst src, Ialu_store B64 Xcmp (Oreg dst) src);
    (add_rr32 dst src, Ialu_store B32 Xadd (Oreg dst) src); (or_rr32 dst src, Ialu_store B32 Xor (Oreg dst) src);
    (and_rr32 dst src, Ialu_store B32 Xand (Oreg dst) src); (sub_rr32 dst src, Ialu_store B32 Xsub (Oreg dst) src);
    (xor_rr32 dst src, Ialu_store B32 Xxor (Oreg dst) src);
    (add_imm dst imm, Ialu_imm B64 Xadd (Oreg dst) imm); (or_imm dst imm, Ialu_imm B64 Xor (Oreg dst) imm);
    (and_imm dst imm, Ialu_imm B64 Xand (Oreg dst) imm); (xor_imm dst imm, Ialu_imm B64 Xxor (Oreg dst) imm);
    (cmp_imm dst imm, Ialu_imm B64 Xcmp (Oreg dst) imm); (add_imm32 dst imm, Ialu_imm B32 Xadd (Oreg dst) imm);
    (and_imm32 dst imm, Ialu_imm B32 Xand (Oreg dst) imm); (cmp_imm32 dst imm, Ialu_imm B32 Xcmp (Oreg dst) imm);
    (add_r64_m64 dst base disp, Ialu_load B64 Xadd dst (Omem base disp)); (or_r64_m64 dst base disp, Ialu_load B64 Xor dst (Omem base disp));
    (xor_r64_m64 dst base disp, Ialu_load B64 Xxor dst (Omem base disp)); (and_r64_m64 dst base disp, Ialu_load B64 Xand dst (Omem base disp));
    (cmp_r64_m64 dst base disp, Ialu_load B64 Xcmp dst (Omem base disp)); (cmp_r16_m16 dst base disp, Ialu_load B16 Xcmp dst (Omem base disp));
    (cmp_m16_r16 base disp src, Ialu_store B16 Xcmp (Omem base disp) src); (sub_m64_imm base disp imm, Ialu_imm B64 Xsub (Omem base disp) imm);
    (neg64 dst, Iunary B64 Xneg (Oreg dst)); (neg32 dst, Iunary B32 Xneg (Oreg dst));
    (mul_r src, Iunary B64 Xmul (Oreg src)); (mul_r32 src, Iunary B32 Xmul (Oreg src));
    (imul_r src, Iunary B64 Ximul (Oreg src)); (imul_r32 src, Iunary B32 Ximul (Oreg src));
    (div_r src, Iunary B64 Xdiv (Oreg src)); (div_r32 src, Iunary B32 Xdiv (Oreg src));
    (idiv_r src, Iunary B64 Xidiv (Oreg src)); (idiv_r32 src, Iunary B32 Xidiv (Oreg src));
    (imul_rr dst src, Iimul B64 dst (Oreg src)); (imul_rr32 dst src, Iimul B32 dst (Oreg src));
    (imul_r_imm32 dst imm, Iimul_imm B64 dst (Oreg dst) imm); (cqo, Iextend B64); (cdq, Iextend B32);
    (shift_r64_imm 4 dst i8, Ishift B64 Xshl (Oreg dst) i8); (shift_r64_imm 5 dst i8, Ishift B64 Xshr (Oreg dst) i8);
    (shift_r64_imm 7 dst i8, Ishift B64 Xsar (Oreg dst) i8); (shift_r32_imm 4 dst i8, Ishift B32 Xshl (Oreg dst) i8);
    (shift_r32_imm 5 dst i8, Ishift B32 Xshr (Oreg dst) i8); (shift_r32_imm 7 dst i8, Ishift B32 Xsar (Oreg dst) i8);
    (shift_r64_cl 4 dst, Ishift_cl B64 Xshl (Oreg dst)); (shift_r64_cl 5 dst, Ishift_cl B64 Xshr (Oreg dst));
    (shift_r64_cl 7 dst, Ishift_cl B64 Xsar (Oreg dst)); (shift_r32_cl 4 dst, Ishift_cl B32 Xshl (Oreg dst));
    (shift_r32_cl 5 dst, Ishift_cl B32 Xshr (Oreg dst)); (shift_r32_cl 7 dst, Ishift_cl B32 Xsar (Oreg dst));
    (setcc (0x90 + cc) dst, Isetcc cc (Oreg dst)); (test_rr dst src, Itest B64 (Oreg src) dst);
    (test_r64_m64 dst base disp, Itest B64 (Omem base disp) dst); (test_imm dst imm, Itest_imm B64 (Oreg dst) imm);
    (test_m8_imm base disp i8, Itest_imm B8 (Omem base disp) i8); (jmp_r dst, Ijmp_to (Oreg dst))] /\
  (forall cb bs, pos cb + 6 + pos bs <= RVJIT_FUNC_SIZE -> forall t, 0 <= t <= RVJIT_FUNC_SIZE ->
    (exists r c b, jcc32 cc cb = Ret (r, c) /\ patch_rel32 r t (c ++ bs) = Ret (tt, cb ++ b ++ bs) /\
       forall l, xdecode (b ++ l) = Some (Ijcc cc (t - pos (cb ++ b)), l)) /\
    (exists r c b, jmp32 cb = Ret (r, c) /\ patch_rel32 r t (c ++ bs) = Ret (tt, cb ++ b ++ bs) /\
       forall l, xdecode (b ++ l) = Some (Ijmp (t - pos (cb ++ b)), l)) /\
    (pos bs < 128 -> exists r c b, jcc8 (0x70 + cc) cb = Ret (r, c) /\
       patch_rel8 r (pos (c ++ bs)) (c ++ bs) = Ret (tt, cb ++ b ++ bs) /\
       forall l, xdecode (b ++ l) = Some (Ijcc cc (pos (cb ++ b ++ bs) - pos (cb ++ b)), l))).
Proof.
  intros Hd Hs Hb Hdi Hi Hv H8 Hc. split.
  - repeat (apply List.Forall_cons; [eexists; by enc1|]). apply List.Forall_nil.
  - intros cb bs Hsz t Ht. pose proof (pos_nonneg cb). pose proof (pos_nonneg bs).
    assert (RVJIT_FUNC_SIZE = 4096) as Ef by reflexivity. split_and!.
    + destruct (jcc32_patched cc cb bs t) as (r & c & b & ? & ? & Hp & Hx); try done; try (unfold imm_ok; lia).
      exists r, c, b. split_and!; try done. by rewrite pos_app, Hp.
    + destruct (jmp32_patched cb bs t) as (r & c & b & ? & ? & Hp & Hx); try done; try (unfold imm_ok; lia).
      exists r, c, b. split_and!; try done. by rewrite pos_app, Hp.
    + intros Hn. destruct (jcc8_patched cc cb bs) as (r & c & b & ? & ? & Hp & Hx); try done; try lia.
      exists r, c, b. split_and!; try done. intros l. rewrite Hx, !pos_app. do 2 f_equal. f_equal. lia.
Qed.
