(* ===== verification/JitEmit.v ===== *)
(** * The block emitter ([include/jit/rvjit_emit.hpp], [src/jit/arch/x86_64/emit.cpp])

    The register allocator, which keeps guest registers in six host registers,
    and the code of each instruction. [JIT_Emitter] is the struct of that name,
    with its block; the code buffer is the one of [X86Enc]. The arrays [dv] and
    [ds] of a miss site are the list of their first [dcnt] pairs. A branch that
    the C++ declares unreachable, and an explicit trap, are [Undef]. *)

From S2P Require Import Prelude X86 X86Enc Tlb.

(** [JIT_Block] *)

Record ExitLink := mkExitLink {
  data_idx : Z; lea_disp_off : Z; budget_js : Z; fail : list Z }.

Definition MAX_EXITS : Z := 6.

Record JIT_Block := mkJIT_Block {
  code : x86.CodeBuf;
  chain_off : Z;
  instr_index : Z;
  instr_bytes : Z;
  exits : list ExitLink }.

Definition n_exits (b : JIT_Block) : Z := Z.of_nat (length (exits b)).

Definition new_block : JIT_Block := mkJIT_Block [] 0 0 0 [].

Record VReg := mkVReg { slot : Z; dirty : bool }.

Module ALUOp.
Inductive t := ADD | SUB | XOR | OR | AND | SLL | SRL | SRA | SLT | SLTU | LUI | AUIPC.
End ALUOp.

Module MOp.
Inductive t := MUL | MULH | MULHU | MULHSU | DIV | DIVU | REM | REMU.
End MOp.

#[global] Instance ALUOp_eq_dec : EqDecision ALUOp.t.
Proof. solve_decision. Defined.
#[global] Instance MOp_eq_dec : EqDecision MOp.t.
Proof. solve_decision. Defined.

(** A jump to the stub of instruction [m_instr], [m_bytes] guest bytes into the
    block, with the guest registers that are dirty there and their slots. *)
Record MissSite := mkMissSite {
  rel_pos : Z; m_instr : Z; m_bytes : Z; dregs : list (Z * Z) }.

Definition SUPERBLOCK_MAX : Z := MAX_EXITS - 2.

Record JIT_Emitter := mkEmitter {
  blk : JIT_Block;
  vr : list VReg;
  hr_vreg : list Z;
  eff_mode : Z;
  em_mxr : bool;
  em_sum : bool;
  misses : list MissSite;
  stub_reserve : Z;
  exited : bool;
  n_super : Z }.

(** The constructor, with the translation context [compile] bakes in. *)
Definition new_emitter (b : JIT_Block) (mode : Z) (mxr sum : bool) : JIT_Emitter :=
  mkEmitter b (replicate 32 (mkVReg (-1) false)) (replicate 6 0xFF) mode mxr sum [] 0 false 0.

(** ** Field updates *)

Definition set_code (c : x86.CodeBuf) (b : JIT_Block) : JIT_Block :=
  mkJIT_Block c (chain_off b) (instr_index b) (instr_bytes b) (exits b).
Definition set_blk (b : JIT_Block) (e : JIT_Emitter) : JIT_Emitter :=
  mkEmitter b (vr e) (hr_vreg e) (eff_mode e) (em_mxr e) (em_sum e) (misses e) (stub_reserve e)
    (exited e) (n_super e).
Definition set_vr (l : list VReg) (e : JIT_Emitter) : JIT_Emitter :=
  mkEmitter (blk e) l (hr_vreg e) (eff_mode e) (em_mxr e) (em_sum e) (misses e) (stub_reserve e)
    (exited e) (n_super e).
Definition set_hr_vreg (l : list Z) (e : JIT_Emitter) : JIT_Emitter :=
  mkEmitter (blk e) (vr e) l (eff_mode e) (em_mxr e) (em_sum e) (misses e) (stub_reserve e)
    (exited e) (n_super e).
Definition set_misses (l : list MissSite) (r : Z) (e : JIT_Emitter) : JIT_Emitter :=
  mkEmitter (blk e) (vr e) (hr_vreg e) (eff_mode e) (em_mxr e) (em_sum e) l r (exited e) (n_super e).
Definition set_exited (x : bool) (e : JIT_Emitter) : JIT_Emitter :=
  mkEmitter (blk e) (vr e) (hr_vreg e) (eff_mode e) (em_mxr e) (em_sum e) (misses e)
    (stub_reserve e) x (n_super e).
Definition set_n_super (n : Z) (e : JIT_Emitter) : JIT_Emitter :=
  mkEmitter (blk e) (vr e) (hr_vreg e) (eff_mode e) (em_mxr e) (em_sum e) (misses e)
    (stub_reserve e) (exited e) n.
Definition set_exits (l : list ExitLink) (b : JIT_Block) : JIT_Block :=
  mkJIT_Block (code b) (chain_off b) (instr_index b) (instr_bytes b) l.
Definition set_chain_off (o : Z) (b : JIT_Block) : JIT_Block :=
  mkJIT_Block (code b) o (instr_index b) (instr_bytes b) (exits b).
Definition set_instr (i n : Z) (b : JIT_Block) : JIT_Block :=
  mkJIT_Block (code b) (chain_off b) i n (exits b).

(** Programs over the emitter. *)
Definition EM (A : Type) : Type := ST JIT_Emitter A.

(** Run an encoder on [em.code()]. *)
Definition emit {A} (m : ST x86.CodeBuf A) : EM A := fun e =>
  match m (code (blk e)) with
  | Ret (a, c) => Ret (a, set_blk (set_code c (blk e)) e)
  | Throw x => Throw x
  | Undef => Undef
  end.

Definition code_pos (e : JIT_Emitter) : Z := x86.pos (code (blk e)).
Definition no_vreg : VReg := mkVReg (-1) false.
Definition vreg (e : JIT_Emitter) (v : Z) : VReg := nth (Z.to_nat v) (vr e) no_vreg.
Definition put_vreg (v : Z) (g : VReg) (e : JIT_Emitter) : JIT_Emitter :=
  set_vr (<[Z.to_nat v := g]> (vr e)) e.
Definition set_slot (v s : Z) : EM unit :=
  modify (fun e => put_vreg v (mkVReg s (dirty (vreg e v))) e).
Definition set_dirty (v : Z) (d : bool) : EM unit :=
  modify (fun e => put_vreg v (mkVReg (slot (vreg e v)) d) e).
Definition set_hr (i h : Z) : EM unit :=
  modify (fun e => set_hr_vreg (<[Z.to_nat i := h]> (hr_vreg e)) e).

(** ** The register allocator *)

Definition KEEP_NONE : Z := 0xFFFFFFFF.

Definition phys (s : Z) : Z := nth (Z.to_nat s) x86.RVJIT_HOST_POOL 0.

(** The first slot whose content satisfies [p]. *)
Fixpoint find_slot (p : Z -> bool) (l : list Z) (i : Z) : option (Z * Z) :=
  match l with
  | [] => None
  | h :: l' => if p h then Some (i, h) else find_slot p l' (i + 1)
  end.

Definition evictable (keep1 keep2 h : Z) : bool :=
  negb (h =? 0xFF) && negb (h =? 0xFE) && (h <? 32) && negb (h =? keep1) && negb (h =? keep2).

Definition flush_guest (v : Z) : EM unit :=
  g ← gets (fun e => vreg e v);
  if (0 <=? slot g) && dirty g
  then emit (x86.mov_rm x86.REG_REGS (s32 (v * 8)) (phys (slot g))) ;; set_dirty v false
  else mret tt.

Fixpoint flush_from (v : Z) (n : nat) : EM unit :=
  match n with O => mret tt | S k => flush_guest v ;; flush_from (v + 1) k end.

Definition flush_all_regs : EM unit := flush_from 1 31.

Definition take_slot (i h : Z) : EM Z := set_slot h (-1) ;; set_hr i 0xFE ;; mret i.

Definition free_slot (keep1 keep2 : Z) : EM Z := fun e =>
  (match find_slot (fun h => h =? 0xFF) (hr_vreg e) 0 with
   | Some (i, _) => set_hr i 0xFE ;; mret i
   | None =>
       match find_slot (fun h => evictable keep1 keep2 h && negb (dirty (vreg e h))) (hr_vreg e) 0 with
       | Some (i, h) => take_slot i h
       | None =>
           match find_slot (evictable keep1 keep2) (hr_vreg e) 0 with
           | Some (i, h) => flush_guest h ;; take_slot i h
           | None => undef
           end
       end
   end) e.

Definition release_slot (s : Z) : EM unit := set_hr s 0xFF.

Definition hreg_for_read (v keep : Z) : EM Z :=
  g ← gets (fun e => vreg e v);
  if 0 <=? slot g then mret (phys (slot g)) else
  s ← free_slot keep KEEP_NONE;
  let p := phys s in
  set_hr s (u8 v) ;; set_slot v s ;;
  (if v =? 0 then emit (x86.xor_rr p p) else emit (x86.mov_mr p x86.REG_REGS (s32 (v * 8)))) ;;
  mret p.

Definition hreg_for_write (v keep1 keep2 : Z) : EM Z :=
  g ← gets (fun e => vreg e v);
  if 0 <=? slot g then mret (phys (slot g)) else
  s ← free_slot keep1 keep2;
  set_hr s (u8 v) ;; set_slot v s ;; mret (phys s).

Definition load_imm64 (p im : Z) : EM unit := emit (x86.mov_imm64 p im).

(** ** Entry, space *)

Definition emit_prologue : EM unit :=
  emit (x86.push_r x86.REG_RBP) ;;
  emit (x86.mov_rr x86.REG_RBP x86.REG_RSP) ;;
  emit (x86.push_r x86.REG_R15) ;;
  emit (x86.push_r x86.REG_R13) ;;
  emit (x86.push_r x86.REG_R12) ;;
  emit (x86.mov_rr x86.REG_R12 x86.REG_RDI) ;;
  emit (x86.mov_mr x86.REG_R13 x86.REG_R12 x86.CTX_OFF_REGS) ;;
  modify (fun e => set_blk (set_chain_off (code_pos e) (blk e)) e).

Definition STUB_BYTES : Z := 104.
Definition EPILOGUE_BYTES : Z := 256.

Definition eof (e : JIT_Emitter) : bool :=
  RVJIT_FUNC_SIZE <=? code_pos e + EPILOGUE_BYTES + RVJIT_FUNC_MARGIN + stub_reserve e.

(** ** Block exits *)

Definition CC_JE : Z := 0x4.
Definition CC_JNE : Z := 0x5.

Definition emit_chain_tail (count : Z) : EM unit :=
  emit (x86.mov_rm x86.REG_CTX x86.CTX_OFF_EXIT x86.REG_RAX) ;;
  emit (x86.mov_rm x86.REG_CTX x86.CTX_OFF_ENTRY x86.REG_RAX) ;;
  emit (x86.sub_m64_imm x86.REG_CTX x86.CTX_OFF_CHAIN_BUDGET (s32 count)) ;;
  n ← gets (fun e => n_exits (blk e));
  if MAX_EXITS <=? n then undef else
  js ← emit (x86.jcc32 0x8);
  lea_off ← gets code_pos;
  emit (x86.lea_r64_rip x86.REG_R15) ;;
  emit (x86.mov_mr x86.REG_R11 x86.REG_R15 0) ;;
  emit (x86.test_rr x86.REG_R11 x86.REG_R11) ;;
  f0 ← emit (x86.jcc32 0x4);
  emit (x86.cmp_r64_m64 x86.REG_RAX x86.REG_R15 8) ;;
  f1 ← emit (x86.jcc32 0x5);
  emit (x86.mov_mr x86.REG_RDX x86.REG_CTX x86.CTX_OFF_CHAIN_EPOCH) ;;
  emit (x86.cmp_r64_m64 x86.REG_RDX x86.REG_R15 16) ;;
  f2 ← emit (x86.jcc32 0x5);
  emit (x86.mov_mr x86.REG_R10 x86.REG_CTX x86.CTX_OFF_CHAIN_MODE) ;;
  emit (x86.cmp_r64_m64 x86.REG_R10 x86.REG_R15 24) ;;
  f3 ← emit (x86.jcc32 0x5);
  emit (x86.jmp_r x86.REG_R11) ;;
  modify (fun e => set_blk (set_exits
    (exits (blk e) ++ [mkExitLink n (lea_off + 3) js [f0; f1; f2; f3]]) (blk e)) e).

Definition entry_plus (delta : Z) : EM unit :=
  emit (x86.mov_mr x86.REG_RAX x86.REG_CTX x86.CTX_OFF_ENTRY) ;;
  emit (x86.add_imm x86.REG_RAX (s32 delta)).

Definition emit_block_exit (delta_va count : Z) : EM unit :=
  flush_all_regs ;; entry_plus delta_va ;; emit_chain_tail count.

Definition emit_block_exit_rax (count : Z) : EM unit :=
  flush_all_regs ;; emit_chain_tail count.

Definition emit_epilogue (guest_bytes guest_count : Z) : EM unit :=
  x ← gets exited;
  if (x : bool) then undef else emit_block_exit guest_bytes guest_count.

(** ** Misses *)

(** [for(v = 1; v < 32 && n < 6; v++)]; [n] counts the pairs found. *)
Fixpoint snapshot_from (e : JIT_Emitter) (v : Z) (n : Z) (k : nat) : list (Z * Z) :=
  match k with
  | O => []
  | S k' =>
      if 6 <=? n then [] else
      let g := vreg e v in
      if dirty g && (0 <=? slot g)
      then (v, slot g) :: snapshot_from e (v + 1) (n + 1) k'
      else snapshot_from e (v + 1) n k'
  end.

Definition snapshot_dirty (e : JIT_Emitter) : list (Z * Z) := snapshot_from e 1 0 31.

Definition push_miss (rel instr : Z) : EM unit := modify (fun e =>
  let r := match last (misses e) with
           | Some m => if m_instr m =? instr then stub_reserve e
                       else u32 (stub_reserve e + STUB_BYTES)
           | None => u32 (stub_reserve e + STUB_BYTES)
           end in
  set_misses (misses e ++ [mkMissSite rel instr (instr_bytes (blk e)) (snapshot_dirty e)]) r e).

(** The sites at the head of the list that share [instr], and the rest. *)
Fixpoint span_instr (instr : Z) (l : list MissSite) : list MissSite * list MissSite :=
  match l with
  | [] => ([], [])
  | m :: l' => if m_instr m =? instr
               then let '(a, r) := span_instr instr l' in (m :: a, r) else ([], l)
  end.

Fixpoint patch_sites (l : list MissSite) (target : Z) : EM unit :=
  match l with
  | [] => mret tt
  | m :: l' => emit (x86.patch_rel32 (rel_pos m) target) ;; patch_sites l' target
  end.

Fixpoint commit_regs (l : list (Z * Z)) : EM unit :=
  match l with
  | [] => mret tt
  | (v, s) :: l' => emit (x86.mov_rm x86.REG_REGS (s32 (v * 8)) (phys s)) ;; commit_regs l'
  end.

Definition pop_frame : EM unit :=
  emit (x86.pop_r x86.REG_R12) ;; emit (x86.pop_r x86.REG_R13) ;;
  emit (x86.pop_r x86.REG_R15) ;; emit (x86.pop_r x86.REG_RBP) ;; emit x86.ret.

Definition emit_stub (m : MissSite) : EM unit :=
  commit_regs (dregs m) ;;
  entry_plus (m_bytes m) ;;
  emit (x86.mov_rm x86.REG_CTX x86.CTX_OFF_EXIT x86.REG_RAX) ;;
  emit (x86.sub_m64_imm x86.REG_CTX x86.CTX_OFF_CHAIN_BUDGET (s32 (m_instr m))) ;;
  pop_frame.

(** One pass per group of sites: there are no more of them than sites. *)
Fixpoint miss_stubs_loop (n : nat) (l : list MissSite) : EM unit :=
  match n, l with
  | S n', m :: _ =>
      let '(grp, rest) := span_instr (m_instr m) l in
      target ← gets code_pos;
      patch_sites grp target ;; emit_stub m ;; miss_stubs_loop n' rest
  | _, _ => mret tt
  end.

Definition emit_miss_stubs : EM unit := fun e =>
  miss_stubs_loop (length (misses e)) (misses e) e.

(** ** Exit links *)

Fixpoint patch_all (l : list Z) (target : Z) : EM unit :=
  match l with
  | [] => mret tt
  | r :: l' => emit (x86.patch_rel32 r target) ;; patch_all l' target
  end.

Fixpoint patch_links (l : list ExitLink) (ret_pos go_pos : Z) : EM unit :=
  match l with
  | [] => mret tt
  | L :: l' => emit (x86.patch_rel32 (budget_js L) ret_pos) ;; patch_all (fail L) go_pos ;;
               patch_links l' ret_pos go_pos
  end.

(** [chain_dispatcher] is the address the dispatcher was placed at. *)
Definition emit_link_stubs (chain_dispatcher : Z) : EM unit :=
  go_pos ← gets code_pos;
  emit (x86.mov_imm64 x86.REG_R11 chain_dispatcher) ;;
  emit (x86.jmp_r x86.REG_R11) ;;
  ret_pos ← gets code_pos;
  pop_frame ;;
  l ← gets (fun e => exits (blk e));
  patch_links l ret_pos go_pos.

(** ** Control transfers *)

(** The superblock form: the taken side leaves, the other continues inline. *)
Definition emit_super_exit (cc target count_before : Z) (check_align : bool) : EM bool :=
  skip ← emit (x86.jcc32 (Z.lxor cc 1));
  entry_plus target ;;
  (if (check_align : bool) then
     emit (x86.test_imm x86.REG_RAX 1) ;;
     j ← emit (x86.jcc32 CC_JNE); push_miss j count_before
   else mret tt) ;;
  emit_chain_tail (u32 (count_before + 1)) ;;
  here ← gets code_pos;
  emit (x86.patch_rel32 skip here) ;;
  modify (fun e => set_n_super (n_super e + 1) e) ;;
  mret true.

(** The form that ends the block: an exit for each side. *)
Definition emit_end_exit (cc fall target count_before : Z) (check_align : bool) : EM bool :=
  taken_rel ← emit (x86.jcc32 cc);
  emit_block_exit fall (u32 (count_before + 1)) ;;
  taken_target ← gets code_pos;
  entry_plus target ;;
  (if (check_align : bool) then
     emit (x86.test_imm x86.REG_RAX 1) ;;
     j ← emit (x86.jcc32 CC_JNE); push_miss j count_before
   else mret tt) ;;
  emit_block_exit_rax (u32 (count_before + 1)) ;;
  emit (x86.patch_rel32 taken_rel taken_target) ;;
  modify (set_exited true) ;;
  mret false.

Definition emit_exit (cc fall target count_before : Z) (check_align : bool) : EM bool :=
  superblock ← gets (fun e => (n_super e <? SUPERBLOCK_MAX) && negb (eof e));
  if (superblock : bool) then emit_super_exit cc target count_before check_align
  else emit_end_exit cc fall target count_before check_align.

Definition emit_cond_exit (rs1 rs2 cc im off size count_before : Z) (check_align : bool) : EM bool :=
  S1 ← hreg_for_read rs1 KEEP_NONE;
  S2 ← (if rs2 =? rs1 then mret S1 else hreg_for_read rs2 rs1);
  flush_all_regs ;;
  emit (x86.cmp_rr S1 S2) ;;
  emit_exit cc (off + size) (off + im) count_before check_align.

Definition emit_cond_exit_zero (rs cc im off count_before : Z) : EM bool :=
  r ← hreg_for_read rs KEEP_NONE;
  flush_all_regs ;;
  emit (x86.test_rr r r) ;;
  emit_exit cc (off + 2) (off + im) count_before false.

Definition emit_jump (link_rd src_rs1 im off size count_before : Z)
    (check_align from_rs1 : bool) : EM unit :=
  flush_all_regs ;;
  (if (from_rs1 : bool) then
     S1 ← hreg_for_read src_rs1 KEEP_NONE;
     emit (x86.mov_rr x86.REG_RAX S1) ;;
     (if negb (im =? 0) then emit (x86.add_imm x86.REG_RAX (s32 im)) else mret tt) ;;
     emit (x86.and_imm x86.REG_RAX (-2))
   else entry_plus (off + im)) ;;
  (if (check_align : bool) then
     emit (x86.test_imm x86.REG_RAX 1) ;;
     j ← emit (x86.jcc32 CC_JNE); push_miss j count_before
   else mret tt) ;;
  (if negb (link_rd =? 0) then
     D ← hreg_for_write link_rd src_rs1 KEEP_NONE;
     emit (x86.mov_mr D x86.REG_CTX x86.CTX_OFF_ENTRY) ;;
     emit (x86.add_imm D (s32 (off + size))) ;;
     set_dirty link_rd true
   else mret tt) ;;
  emit_block_exit_rax (u32 (count_before + 1)) ;;
  modify (set_exited true).

(** ** Memory *)

Definition miss_jump (cc instr : Z) : EM unit := j ← emit (x86.jcc32 cc); push_miss j instr.

(** The permission bits that must and must not be set. *)
Definition perm_must (e : JIT_Emitter) (store : bool) : Z :=
  let must := if store then Z.lor PERM_W PERM_D
              else if em_mxr e then Z.lor PERM_R PERM_X else PERM_R in
  if eff_mode e =? 0 then Z.lor must PERM_U else must.
Definition perm_forb (e : JIT_Emitter) : Z :=
  if eff_mode e =? 0 then 0 else if (eff_mode e =? 1) && negb (em_sum e) then PERM_U else 0.

Definition emit_tlb_checks (H width : Z) (store : bool) (instr : Z) : EM unit :=
  emit (x86.mov_rr x86.REG_RCX H) ;;
  emit (x86.shift_r64_imm 5 x86.REG_RCX 12) ;;
  emit (x86.and_imm x86.REG_RCX x86.TLB_SIZE_MASK) ;;
  emit (x86.shift_r64_imm 4 x86.REG_RCX x86.TLB_ENTRY_LOG2) ;;
  emit (x86.add_r64_m64 x86.REG_RCX x86.REG_CTX x86.CTX_OFF_TLB_ENTRIES) ;;
  emit (x86.mov_mr x86.REG_RDX x86.REG_RCX x86.TLB_OFF_GENERATION) ;;
  emit (x86.cmp_r64_m64 x86.REG_RDX x86.REG_CTX x86.CTX_OFF_TLB_GEN) ;;
  miss_jump CC_JNE instr ;;
  emit (x86.mov_rr x86.REG_RAX H) ;;
  emit (x86.xor_r64_m64 x86.REG_RAX x86.REG_RCX x86.TLB_OFF_VPAGE_BASE) ;;
  emit (x86.and_r64_m64 x86.REG_RAX x86.REG_RCX x86.TLB_OFF_VPAGE_MASK_INV) ;;
  miss_jump CC_JNE instr ;;
  emit (x86.movzx_r64_m16 x86.REG_RDX x86.REG_CTX x86.CTX_OFF_SATP_ASID) ;;
  emit (x86.cmp_m16_r16 x86.REG_RCX x86.TLB_OFF_ASID x86.REG_RDX) ;;
  ok_a ← emit (x86.jcc8 0x74);
  emit (x86.test_m8_imm x86.REG_RCX x86.TLB_OFF_GLOBAL 0xFF) ;;
  ok_b ← emit (x86.jcc8 0x75);
  asid_miss ← emit x86.jmp32;
  push_miss asid_miss instr ;;
  here ← gets code_pos;
  emit (x86.patch_rel8 ok_a here) ;;
  emit (x86.patch_rel8 ok_b here) ;;
  e ← get_st;
  let must := perm_must e store in
  let forb := perm_forb e in
  emit (x86.movzx_r64_m8 x86.REG_RAX x86.REG_RCX x86.TLB_OFF_PERM) ;;
  emit (x86.and_imm32 x86.REG_RAX (s32 (Z.lor must forb))) ;;
  emit (x86.cmp_imm32 x86.REG_RAX (s32 must)) ;;
  miss_jump CC_JNE instr ;;
  (if 1 <? width then emit (x86.test_imm H (width - 1)) ;; miss_jump CC_JNE instr else mret tt) ;;
  emit (x86.mov_mr x86.REG_RDX x86.REG_RCX x86.TLB_OFF_HOST_PTR) ;;
  emit (x86.test_rr x86.REG_RDX x86.REG_RDX) ;;
  miss_jump CC_JE instr ;;
  emit (x86.add_rr H x86.REG_RDX).

(** [mov] to register [D] of the [width] bytes at [D]. *)
Definition load_width (D width : Z) (sign_extend : bool) : ST x86.CodeBuf unit :=
  if width =? 1 then
    if sign_extend then x86.movsx_r64_m8 D D 0 else x86.movzx_r64_m8 D D 0
  else if width =? 2 then
    if sign_extend then x86.movsx_r64_m16 D D 0 else x86.movzx_r64_m16 D D 0
  else if width =? 4 then
    if sign_extend then x86.movsxd_r64_m32 D D 0 else x86.mov_r32_m32 D D 0
  else x86.mov_mr D D 0.

Definition emit_load (rd rs1 im width : Z) (sign_extend : bool) : EM unit :=
  instr ← gets (fun e => instr_index (blk e));
  if rd =? 0 then
    S1 ← hreg_for_read rs1 KEEP_NONE;
    s ← free_slot rs1 KEEP_NONE;
    let H := phys s in
    emit (x86.lea_r64_mem H S1 (s32 im)) ;;
    emit_tlb_checks H width false instr ;;
    release_slot s
  else
    S1 ← hreg_for_read rs1 KEEP_NONE;
    flush_guest rd ;;
    D ← hreg_for_write rd rs1 KEEP_NONE;
    emit (x86.lea_r64_mem D S1 (s32 im)) ;;
    emit_tlb_checks D width false instr ;;
    emit (load_width D width sign_extend) ;;
    set_dirty rd true.

Definition store_width (H V width : Z) : ST x86.CodeBuf unit :=
  if width =? 1 then x86.mov_m8_r8 H 0 V
  else if width =? 2 then x86.mov_m16_r16 H 0 V
  else if width =? 4 then x86.mov_m32_r32 H 0 V
  else x86.mov_rm H 0 V.

Definition emit_store (rs1 im rs2 width : Z) : EM unit :=
  instr ← gets (fun e => instr_index (blk e));
  V ← hreg_for_read rs2 KEEP_NONE;
  S1 ← hreg_for_read rs1 rs2;
  s ← free_slot rs1 rs2;
  let H := phys s in
  emit (x86.lea_r64_mem H S1 (s32 im)) ;;
  emit_tlb_checks H width true instr ;;
  emit (store_width H V width) ;;
  release_slot s.
