(* ===== verification/JitAlu.v ===== *)
(** * Code of the arithmetic instructions ([src/jit/arch/x86_64/emit.cpp])

    [emit_r_to], [emit_m_r_to], [emit_i_to] and [emit_u_to]. A zero source
    register is not loaded, so its host register is 0xFF and is not used. *)

From S2P Require Import Prelude X86 X86Enc Tlb JitEmit.

Definition mark_dirty (v : Z) : EM unit := set_dirty v true.

(** [x86::xor_rr], [or_rr] or [and_rr] of the logical operations. *)
Definition logic_rr (op : ALUOp.t) (d s : Z) : ST x86.CodeBuf unit :=
  match op with
  | ALUOp.XOR => x86.xor_rr d s
  | ALUOp.OR => x86.or_rr d s
  | _ => x86.and_rr d s
  end.

Definition logic_imm (op : ALUOp.t) (d i : Z) : ST x86.CodeBuf unit :=
  match op with
  | ALUOp.XOR => x86.xor_imm d i
  | ALUOp.OR => x86.or_imm d i
  | _ => x86.and_imm d i
  end.

Definition shift_field (op : ALUOp.t) : Z :=
  match op with ALUOp.SLL => 4 | ALUOp.SRL => 5 | _ => 7 end.

Definition slt_cc (op : ALUOp.t) : Z := match op with ALUOp.SLT => 0x9C | _ => 0x92 end.

Definition is_and (op : ALUOp.t) : bool := bool_decide (op = ALUOp.AND).

(** [if(D != S) mov_rr(D, S)]. *)
Definition mov_unless (D S : Z) : EM unit :=
  if negb (D =? S) then emit (x86.mov_rr D S) else mret tt.

Definition r_ADD (r1 r2 : bool) (D S1 S2 : Z) : EM unit :=
  if negb r1 && negb r2 then emit (x86.xor_rr D D)
  else if negb r1 then mov_unless D S2
  else if negb r2 then mov_unless D S1
  else if D =? S1 then emit (x86.add_rr D S2)
  else if D =? S2 then emit (x86.add_rr D S1)
  else emit (x86.mov_rr D S1) ;; emit (x86.add_rr D S2).

Definition r_SUB (r1 r2 : bool) (D S1 S2 : Z) : EM unit :=
  if negb r1 && negb r2 then emit (x86.xor_rr D D)
  else if negb r2 then mov_unless D S1
  else if negb r1 then
    if D =? S2 then
      emit (x86.mov_rr x86.REG_TMP S2) ;; emit (x86.neg64 x86.REG_TMP) ;;
      emit (x86.mov_rr D x86.REG_TMP)
    else emit (x86.xor_rr D D) ;; emit (x86.sub_rr D S2)
  else if D =? S1 then emit (x86.sub_rr D S2)
  else if D =? S2 then
    emit (x86.mov_rr x86.REG_TMP S1) ;; emit (x86.sub_rr x86.REG_TMP S2) ;;
    emit (x86.mov_rr D x86.REG_TMP)
  else emit (x86.mov_rr D S1) ;; emit (x86.sub_rr D S2).

Definition r_LOGIC (op : ALUOp.t) (r1 r2 : bool) (D S1 S2 : Z) : EM unit :=
  if negb r1 && negb r2 then emit (x86.xor_rr D D)
  else if negb r1 then
    if is_and op then emit (x86.xor_rr D D) else mov_unless D S2
  else if negb r2 then
    if is_and op then emit (x86.xor_rr D D) else mov_unless D S1
  else if D =? S1 then emit (logic_rr op D S2)
  else if D =? S2 then emit (logic_rr op D S1)
  else emit (x86.mov_rr D S1) ;; emit (logic_rr op D S2).

Definition r_SHIFT (op : ALUOp.t) (wVariant r1 r2 : bool) (D S1 S2 : Z) : EM unit :=
  if negb r1 && negb r2 then emit (x86.xor_rr D D)
  else if negb r2 then mov_unless D S1
  else if negb r1 then emit (x86.xor_rr D D)
  else
    emit (x86.mov_rr x86.REG_TMP S2) ;;
    mov_unless D S1 ;;
    (if wVariant then emit (x86.shift_r32_cl (shift_field op) D)
     else emit (x86.shift_r64_cl (shift_field op) D)).

(** [cmp(A, B); setcc(cc, R); movzx(R, R)]. *)
Definition set_if (A B cc R : Z) : EM unit :=
  emit (x86.cmp_rr A B) ;; emit (x86.setcc cc R) ;; emit (x86.movzx_r64_r8 R R).

Definition r_SLT (op : ALUOp.t) (r1 r2 : bool) (D S1 S2 : Z) : EM unit :=
  let cc := slt_cc op in
  let T := x86.REG_TMP in
  if negb r1 && negb r2 then emit (x86.xor_rr D D)
  else if negb r1 then
    if D =? S2 then emit (x86.xor_rr T T) ;; set_if T S2 cc T ;; emit (x86.mov_rr D T)
    else emit (x86.xor_rr D D) ;; set_if D S2 cc D
  else if negb r2 then
    if D =? S1 then emit (x86.xor_rr T T) ;; set_if S1 T cc T ;; emit (x86.mov_rr D T)
    else emit (x86.xor_rr D D) ;; set_if S1 D cc D
  else set_if S1 S2 cc D.

(** The [switch] of [emit_r_to]; LUI and AUIPC have no case. *)
Definition r_body (op : ALUOp.t) (wVariant r1 r2 : bool) (D S1 S2 : Z) : EM unit :=
  match op with
  | ALUOp.ADD => r_ADD r1 r2 D S1 S2
  | ALUOp.SUB => r_SUB r1 r2 D S1 S2
  | ALUOp.XOR | ALUOp.OR | ALUOp.AND => r_LOGIC op r1 r2 D S1 S2
  | ALUOp.SLL | ALUOp.SRL | ALUOp.SRA => r_SHIFT op wVariant r1 r2 D S1 S2
  | ALUOp.SLT | ALUOp.SLTU => r_SLT op r1 r2 D S1 S2
  | ALUOp.LUI | ALUOp.AUIPC => mret tt
  end.

Definition NO_REG : Z := 0xFF.

Definition emit_r_to (dstReg src1Reg src2Reg : Z) (op : ALUOp.t) (wVariant : bool) : EM unit :=
  let r1 := negb (src1Reg =? 0) in
  let r2 := negb (src2Reg =? 0) in
  S1 ← (if r1 then hreg_for_read src1Reg KEEP_NONE else mret NO_REG);
  S2 ← (if r2 then if src2Reg =? src1Reg then mret S1 else hreg_for_read src2Reg src1Reg
        else mret NO_REG);
  D ← hreg_for_write dstReg src1Reg src2Reg;
  r_body op wVariant r1 r2 D S1 S2 ;;
  mark_dirty dstReg ;;
  (if wVariant then emit (x86.movsxd D D) else mret tt).

(** ** Immediate operands *)

Definition i_SHIFT (op : ALUOp.t) (wVariant r1 : bool) (D S1 shamt : Z) : EM unit :=
  if negb r1 then emit (x86.xor_rr D D)
  else
    mov_unless D S1 ;;
    (if wVariant then emit (x86.shift_r32_imm (shift_field op) D shamt)
     else emit (x86.shift_r64_imm (shift_field op) D shamt)).

Definition i_body (op : ALUOp.t) (wVariant r1 : bool) (D S1 im : Z) : EM unit :=
  match op with
  | ALUOp.ADD =>
      if negb r1 then emit (x86.mov_imm32 D (s32 im))
      else if D =? S1 then emit (x86.add_imm D (s32 im))
      else emit (x86.mov_rr D S1) ;; emit (x86.add_imm D (s32 im))
  | ALUOp.XOR | ALUOp.OR | ALUOp.AND =>
      if negb r1 then
        if is_and op then emit (x86.xor_rr D D) else emit (x86.mov_imm32 D (s32 im))
      else if D =? S1 then emit (logic_imm op D (s32 im))
      else emit (x86.mov_rr D S1) ;; emit (logic_imm op D (s32 im))
  | ALUOp.SLL | ALUOp.SRL | ALUOp.SRA => i_SHIFT op wVariant r1 D S1 (u8 (Z.land im 0x3F))
  | ALUOp.SLT | ALUOp.SLTU =>
      let cc := slt_cc op in
      if negb r1 && (im =? 0) then emit (x86.xor_rr D D)
      else if negb r1 then
        emit (x86.xor_rr D D) ;; emit (x86.cmp_imm D (s32 im)) ;;
        emit (x86.setcc cc D) ;; emit (x86.movzx_r64_r8 D D)
      else
        emit (x86.cmp_imm S1 (s32 im)) ;;
        emit (x86.setcc cc D) ;; emit (x86.movzx_r64_r8 D D)
  | ALUOp.SUB | ALUOp.LUI | ALUOp.AUIPC => mret tt
  end.

Definition emit_i_to (dstReg src1Reg im : Z) (op : ALUOp.t) (wVariant : bool) : EM unit :=
  let r1 := negb (src1Reg =? 0) in
  S1 ← (if r1 then hreg_for_read src1Reg KEEP_NONE else mret NO_REG);
  D ← hreg_for_write dstReg src1Reg KEEP_NONE;
  i_body op wVariant r1 D S1 im ;;
  mark_dirty dstReg ;;
  (if wVariant then emit (x86.movsxd D D) else mret tt).

Definition emit_u_to (dstReg im : Z) (op : ALUOp.t) : EM unit :=
  D ← hreg_for_write dstReg KEEP_NONE KEEP_NONE;
  (match op with
   | ALUOp.LUI => emit (x86.mov_imm64 D (u64 im))
   | ALUOp.AUIPC =>
       off ← gets (fun e => instr_bytes (blk e));
       emit (x86.mov_mr D x86.REG_CTX x86.CTX_OFF_ENTRY) ;;
       emit (x86.add_imm D (s32 (im + off)))
   | _ => mret tt
   end) ;;
  mark_dirty dstReg.

(** ** Multiplication and division *)

Definition is_mul (op : MOp.t) : bool :=
  match op with MOp.MUL | MOp.MULH | MOp.MULHU | MOp.MULHSU => true | _ => false end.
Definition is_rem (op : MOp.t) : bool :=
  match op with MOp.REM | MOp.REMU => true | _ => false end.
Definition is_signed (op : MOp.t) : bool :=
  match op with MOp.MULH | MOp.MULHSU | MOp.DIV | MOp.REM => true | _ => false end.

(** The case [rs2 == x0]. *)
Definition m_by_x0 (dstReg src1Reg : Z) (op : MOp.t) (wVariant : bool) : EM unit :=
  (if is_mul op then
     D ← hreg_for_write dstReg src1Reg KEEP_NONE; emit (x86.xor_rr D D)
   else if negb (is_rem op) then
     D ← hreg_for_write dstReg src1Reg KEEP_NONE; emit (x86.mov_imm32 D (-1))
   else
     S1 ← hreg_for_read src1Reg KEEP_NONE;
     D ← hreg_for_write dstReg src1Reg KEEP_NONE;
     if bool_decide (op = MOp.REM) && wVariant then
       (if negb (D =? S1) then emit (x86.mov_rr32 D S1) else mret tt) ;;
       emit (x86.movsxd D D)
     else mov_unless D S1) ;;
  mark_dirty dstReg.

(** [imul_rr] or its 32-bit form and the sign extension. *)
Definition mul_low (wVariant : bool) (D S : Z) : EM unit :=
  if wVariant then emit (x86.imul_rr32 D S) ;; emit (x86.movsxd D D)
  else emit (x86.imul_rr D S).

Definition m_MUL (wVariant : bool) (D S1 S2 : Z) : EM unit :=
  if D =? S1 then mul_low wVariant D S2
  else if D =? S2 then mul_low wVariant D S1
  else if wVariant then
    (if negb (D =? S1) then emit (x86.mov_rr32 D S1) else mret tt) ;; mul_low true D S2
  else mov_unless D S1 ;; mul_low false D S2.

Definition m_MULH (op : MOp.t) (D S1 S2 : Z) : EM unit :=
  emit (x86.mov_rr x86.REG_ACC0 S1) ;;
  (match op with
   | MOp.MULHSU =>
       emit (x86.mul_r S2) ;;
       emit (x86.mov_rr x86.REG_TMP S1) ;;
       emit (x86.shift_r64_imm 7 x86.REG_TMP 63) ;;
       emit (x86.and_rr x86.REG_TMP S2) ;;
       emit (x86.sub_rr x86.REG_ACC1 x86.REG_TMP)
   | MOp.MULH => emit (x86.imul_r S2)
   | _ => emit (x86.mul_r S2)
   end) ;;
  mov_unless D x86.REG_ACC1.

(** Dividend and divisor to RAX and RCX. *)
Definition div_operands (op : MOp.t) (wVariant : bool) (S1 S2 : Z) : EM unit :=
  if wVariant then
    if is_signed op then
      emit (x86.movsxd x86.REG_TMP S2) ;; emit (x86.movsxd x86.REG_ACC0 S1)
    else
      emit (x86.mov_rr32 x86.REG_TMP S2) ;; emit (x86.mov_rr32 x86.REG_ACC0 S1)
  else emit (x86.mov_rr x86.REG_TMP S2) ;; emit (x86.mov_rr x86.REG_ACC0 S1).

(** The result when the divisor is zero. *)
Definition div_by_zero (op : MOp.t) (wVariant : bool) (D S1 : Z) : EM unit :=
  if is_rem op then
    if bool_decide (op = MOp.REMU) && wVariant then mov_unless D S1
    else if bool_decide (op = MOp.REM) && wVariant then emit (x86.mov_rr D x86.REG_ACC0)
    else mov_unless D x86.REG_ACC0
  else emit (x86.mov_imm32 D (-1)).

(** The result when a signed divisor is -1. *)
Definition div_by_m1 (op : MOp.t) (wVariant : bool) (D : Z) : EM unit :=
  if is_rem op then emit (x86.xor_rr D D)
  else
    (if wVariant then
       emit (x86.neg32 x86.REG_ACC0) ;; emit (x86.movsxd x86.REG_ACC0 x86.REG_ACC0)
     else emit (x86.neg64 x86.REG_ACC0)) ;;
    mov_unless D x86.REG_ACC0.

(** The quotient or the remainder to [D]. *)
Definition div_result (op : MOp.t) (wVariant : bool) (D : Z) : EM unit :=
  let R := if is_rem op then x86.REG_ACC1 else x86.REG_ACC0 in
  if wVariant then emit (x86.mov_rr32 D R) ;; emit (x86.movsxd D D)
  else mov_unless D R.

Definition m_DIV (op : MOp.t) (wVariant : bool) (D S1 S2 : Z) : EM unit :=
  div_operands op wVariant S1 S2 ;;
  emit (x86.or_rr x86.REG_TMP x86.REG_TMP) ;;
  fix_nz ← emit (x86.jcc8 0x75);
  div_by_zero op wVariant D S1 ;;
  fix_done0 ← emit (x86.jcc8 0xEB);
  label_div ← gets code_pos;
  emit (x86.patch_rel8 fix_nz label_div) ;;
  if is_signed op then
    emit (x86.cmp_imm x86.REG_TMP (-1)) ;;
    fix_n1 ← emit (x86.jcc8 0x75);
    div_by_m1 op wVariant D ;;
    fix_done1 ← emit (x86.jcc8 0xEB);
    label_idiv ← gets code_pos;
    emit (x86.patch_rel8 fix_n1 label_idiv) ;;
    (if wVariant then emit x86.cdq ;; emit (x86.idiv_r32 x86.REG_TMP)
     else emit x86.cqo ;; emit (x86.idiv_r x86.REG_TMP)) ;;
    div_result op wVariant D ;;
    here ← gets code_pos; emit (x86.patch_rel8 fix_done1 here) ;;
    here ← gets code_pos; emit (x86.patch_rel8 fix_done0 here)
  else
    emit (x86.xor_rr x86.REG_ACC1 x86.REG_ACC1) ;;
    (if wVariant then emit (x86.div_r32 x86.REG_TMP) else emit (x86.div_r x86.REG_TMP)) ;;
    div_result op wVariant D ;;
    here ← gets code_pos; emit (x86.patch_rel8 fix_done0 here).

Definition emit_m_r_to (dstReg src1Reg src2Reg : Z) (op : MOp.t) (wVariant : bool) : EM unit :=
  let r1 := negb (src1Reg =? 0) in
  let r2 := negb (src2Reg =? 0) in
  if negb r2 then m_by_x0 dstReg src1Reg op wVariant
  else if negb r1 && (is_mul op || is_rem op) then
    D ← hreg_for_write dstReg src1Reg KEEP_NONE;
    emit (x86.xor_rr D D) ;; mark_dirty dstReg
  else
    S1 ← hreg_for_read src1Reg KEEP_NONE;
    S2 ← (if src2Reg =? src1Reg then mret S1 else hreg_for_read src2Reg src1Reg);
    D ← hreg_for_write dstReg src1Reg src2Reg;
    (match op with
     | MOp.MUL => m_MUL wVariant D S1 S2
     | MOp.MULH | MOp.MULHU | MOp.MULHSU => m_MULH op D S1 S2
     | _ => m_DIV op wVariant D S1 S2
     end) ;;
    mark_dirty dstReg.
