(* ===== verification/JitIsa.v ===== *)
(** * Translators of the instructions ([src/jit/arch/x86_64/rv64i.cpp], [rv64m.cpp], [rv64c.cpp])

    One function per instruction that has native code, and the assignments of
    [jit_func] in [init_rv64i], [init_rv64m] and [init_rv64c], by the mask of
    the instruction. A translator emits code and says whether the block may go
    on; [b.instr_bytes] and [b.instr_index] are those of the block. *)

From Stdlib Require Import Strings.String.
From S2P Require Import Prelude X86 X86Enc Decode JitEmit JitAlu.

Definition JitFunc : Type := InstructionData -> EM bool.

(** [return !em.eof();] *)
Definition keep_on : EM bool := gets (fun e => negb (eof e)).

(** [(int64_t)d.imm]. *)
Definition simm (d : InstructionData) : Z := s64 (imm d).

(** ** RV64I *)

Definition alu_r (d : InstructionData) (op : ALUOp.t) (w : bool) : EM bool :=
  if rd d =? 0 then keep_on else emit_r_to (rd d) (rs1 d) (rs2 d) op w ;; keep_on.

Definition alu_i (d : InstructionData) (op : ALUOp.t) (w : bool) : EM bool :=
  if rd d =? 0 then keep_on else emit_i_to (rd d) (rs1 d) (simm d) op w ;; keep_on.

Definition alu_u (d : InstructionData) (op : ALUOp.t) : EM bool :=
  if rd d =? 0 then keep_on else emit_u_to (rd d) (s32 (simm d)) op ;; keep_on.

Definition ld (d : InstructionData) (width : Z) (sign : bool) : EM bool :=
  emit_load (rd d) (rs1 d) (simm d) width sign ;; keep_on.

Definition st (d : InstructionData) (width : Z) : EM bool :=
  emit_store (rs1 d) (simm d) (rs2 d) width ;; keep_on.

Definition jit_ADD : JitFunc := fun d => alu_r d ALUOp.ADD false.
Definition jit_ADDW : JitFunc := fun d => alu_r d ALUOp.ADD true.
Definition jit_SUB : JitFunc := fun d => alu_r d ALUOp.SUB false.
Definition jit_SUBW : JitFunc := fun d => alu_r d ALUOp.SUB true.
Definition jit_XOR : JitFunc := fun d => alu_r d ALUOp.XOR false.
Definition jit_OR : JitFunc := fun d => alu_r d ALUOp.OR false.
Definition jit_AND : JitFunc := fun d => alu_r d ALUOp.AND false.
Definition jit_SLL : JitFunc := fun d => alu_r d ALUOp.SLL false.
Definition jit_SLLW : JitFunc := fun d => alu_r d ALUOp.SLL true.
Definition jit_SRL : JitFunc := fun d => alu_r d ALUOp.SRL false.
Definition jit_SRLW : JitFunc := fun d => alu_r d ALUOp.SRL true.
Definition jit_SRA : JitFunc := fun d => alu_r d ALUOp.SRA false.
Definition jit_SRAW : JitFunc := fun d => alu_r d ALUOp.SRA true.
Definition jit_SLT : JitFunc := fun d => alu_r d ALUOp.SLT false.
Definition jit_SLTU : JitFunc := fun d => alu_r d ALUOp.SLTU false.
Definition jit_ADDI : JitFunc := fun d => alu_i d ALUOp.ADD false.
Definition jit_ADDIW : JitFunc := fun d => alu_i d ALUOp.ADD true.
Definition jit_XORI : JitFunc := fun d => alu_i d ALUOp.XOR false.
Definition jit_ORI : JitFunc := fun d => alu_i d ALUOp.OR false.
Definition jit_ANDI : JitFunc := fun d => alu_i d ALUOp.AND false.
Definition jit_SLLI : JitFunc := fun d => alu_i d ALUOp.SLL false.
Definition jit_SLLIW : JitFunc := fun d => alu_i d ALUOp.SLL true.
Definition jit_SRLI : JitFunc := fun d => alu_i d ALUOp.SRL false.
Definition jit_SRLIW : JitFunc := fun d => alu_i d ALUOp.SRL true.
Definition jit_SRAI : JitFunc := fun d => alu_i d ALUOp.SRA false.
Definition jit_SRAIW : JitFunc := fun d => alu_i d ALUOp.SRA true.
Definition jit_SLTI : JitFunc := fun d => alu_i d ALUOp.SLT false.
Definition jit_SLTIU : JitFunc := fun d => alu_i d ALUOp.SLTU false.
Definition jit_LUI : JitFunc := fun d => alu_u d ALUOp.LUI.
Definition jit_AUIPC : JitFunc := fun d => alu_u d ALUOp.AUIPC.
Definition jit_LB : JitFunc := fun d => ld d 1 true.
Definition jit_LBU : JitFunc := fun d => ld d 1 false.
Definition jit_LH : JitFunc := fun d => ld d 2 true.
Definition jit_LHU : JitFunc := fun d => ld d 2 false.
Definition jit_LW : JitFunc := fun d => ld d 4 true.
Definition jit_LWU : JitFunc := fun d => ld d 4 false.
Definition jit_LD : JitFunc := fun d => ld d 8 true.
Definition jit_SB : JitFunc := fun d => st d 1.
Definition jit_SH : JitFunc := fun d => st d 2.
Definition jit_SW : JitFunc := fun d => st d 4.
Definition jit_SD : JitFunc := fun d => st d 8.

(** [e.emit_cond_exit(d.rs1, d.rs2, cc, d.imm, b.instr_bytes, 4, b.instr_index, true)]. *)
Definition jit_branch (cc : Z) : JitFunc := fun d =>
  '(off, index) ← gets (fun e => (instr_bytes (blk e), instr_index (blk e)));
  emit_cond_exit (rs1 d) (rs2 d) cc (simm d) off 4 index true.

Definition jit_BEQ : JitFunc := jit_branch 0x4.
Definition jit_BNE : JitFunc := jit_branch 0x5.
Definition jit_BLT : JitFunc := jit_branch 0xC.
Definition jit_BGE : JitFunc := jit_branch 0xD.
Definition jit_BLTU : JitFunc := jit_branch 0x2.
Definition jit_BGEU : JitFunc := jit_branch 0x3.

(** [em.emit_jump(link, src, imm, b.instr_bytes, size, b.instr_index, align, from)]. *)
Definition jump (link src im size : Z) (align from : bool) : EM bool :=
  '(off, index) ← gets (fun e => (instr_bytes (blk e), instr_index (blk e)));
  emit_jump link src im off size index align from ;; mret false.

Definition jit_JAL : JitFunc := fun d => jump (rd d) 0 (simm d) 4 true false.
Definition jit_JALR : JitFunc := fun d => jump (rd d) (rs1 d) (simm d) 4 false true.

(** ** RV64M *)

Definition m_op (d : InstructionData) (op : MOp.t) (w : bool) : EM bool :=
  if rd d =? 0 then keep_on else emit_m_r_to (rd d) (rs1 d) (rs2 d) op w ;; keep_on.

Definition jit_MUL : JitFunc := fun d => m_op d MOp.MUL false.
Definition jit_MULW : JitFunc := fun d => m_op d MOp.MUL true.
Definition jit_MULH : JitFunc := fun d => m_op d MOp.MULH false.
Definition jit_MULHU : JitFunc := fun d => m_op d MOp.MULHU false.
Definition jit_MULHSU : JitFunc := fun d => m_op d MOp.MULHSU false.
Definition jit_DIV : JitFunc := fun d => m_op d MOp.DIV false.
Definition jit_DIVU : JitFunc := fun d => m_op d MOp.DIVU false.
Definition jit_DIVW : JitFunc := fun d => m_op d MOp.DIV true.
Definition jit_DIVUW : JitFunc := fun d => m_op d MOp.DIVU true.
Definition jit_REM : JitFunc := fun d => m_op d MOp.REM false.
Definition jit_REMU : JitFunc := fun d => m_op d MOp.REMU false.
Definition jit_REMW : JitFunc := fun d => m_op d MOp.REM true.
Definition jit_REMUW : JitFunc := fun d => m_op d MOp.REMU true.

(** ** RV64C *)

Definition c_rd (d : InstructionData) : Z := 8 + u8 (d_c_rd (inst d)).
Definition c_rs1 (d : InstructionData) : Z := 8 + u8 (d_c_rs1 (inst d)).

Definition jit_C_NOP : JitFunc := fun d => keep_on.
Definition jit_C_ADDI4SPN : JitFunc := fun d =>
  emit_i_to (c_rd d) 2 (simm d) ALUOp.ADD false ;; keep_on.
Definition jit_C_ADDI : JitFunc := fun d =>
  if rd d =? 0 then keep_on else emit_i_to (rd d) (rd d) (simm d) ALUOp.ADD false ;; keep_on.
Definition jit_C_ADDIW : JitFunc := fun d =>
  if rd d =? 0 then keep_on else emit_i_to (rd d) (rd d) (simm d) ALUOp.ADD true ;; keep_on.
Definition jit_C_LI : JitFunc := fun d =>
  if rd d =? 0 then keep_on else emit_i_to (rd d) 0 (simm d) ALUOp.ADD false ;; keep_on.
Definition jit_C_LUI_ADDI16SP : JitFunc := fun d =>
  (if rd d =? 2 then emit_i_to 2 2 (sext (u32 (d_c_nzimm_9 (inst d))) 10) ALUOp.ADD false
   else if negb (rd d =? 0) then emit_i_to (rd d) 0 (s64 (u64 (Z.shiftl (imm d) 12))) ALUOp.ADD false
   else mret tt) ;; keep_on.
Definition jit_C_SLLI : JitFunc := fun d =>
  if rd d =? 0 then keep_on else emit_i_to (rd d) (rd d) (simm d) ALUOp.SLL false ;; keep_on.

Definition c_shift (d : InstructionData) (op : ALUOp.t) : EM bool :=
  emit_i_to (c_rs1 d) (c_rs1 d) (simm d) op false ;; keep_on.
Definition jit_C_SRLI : JitFunc := fun d => c_shift d ALUOp.SRL.
Definition jit_C_SRAI : JitFunc := fun d => c_shift d ALUOp.SRA.
Definition jit_C_ANDI : JitFunc := fun d =>
  emit_i_to (c_rs1 d) (c_rs1 d) (sext (u32 (imm d)) 6) ALUOp.AND false ;; keep_on.

Definition c_alu (d : InstructionData) (op : ALUOp.t) (w : bool) : EM bool :=
  emit_r_to (c_rs1 d) (c_rs1 d) (c_rd d) op w ;; keep_on.

Definition jit_C_SUB : JitFunc := fun d => c_alu d ALUOp.SUB false.
Definition jit_C_XOR : JitFunc := fun d => c_alu d ALUOp.XOR false.
Definition jit_C_OR : JitFunc := fun d => c_alu d ALUOp.OR false.
Definition jit_C_AND : JitFunc := fun d => c_alu d ALUOp.AND false.
Definition jit_C_SUBW : JitFunc := fun d => c_alu d ALUOp.SUB true.
Definition jit_C_ADDW : JitFunc := fun d => c_alu d ALUOp.ADD true.

Definition c_rs2 (d : InstructionData) : Z := u8 (d_c_rs2 (inst d)).
Definition jit_C_MV : JitFunc := fun d =>
  if rd d =? 0 then keep_on else emit_r_to (rd d) 0 (c_rs2 d) ALUOp.ADD false ;; keep_on.
Definition jit_C_ADD : JitFunc := fun d =>
  if rd d =? 0 then keep_on else emit_r_to (rd d) (rd d) (c_rs2 d) ALUOp.ADD false ;; keep_on.

Definition c_ld (d : InstructionData) (width : Z) (sign : bool) : EM bool :=
  emit_load (c_rd d) (c_rs1 d) (simm d) width sign ;; keep_on.
Definition c_st (d : InstructionData) (width : Z) : EM bool :=
  emit_store (c_rs1 d) (simm d) (c_rd d) width ;; keep_on.
Definition jit_C_LW : JitFunc := fun d => c_ld d 4 true.
Definition jit_C_LD : JitFunc := fun d => c_ld d 8 true.
Definition jit_C_SW : JitFunc := fun d => c_st d 4.
Definition jit_C_SD : JitFunc := fun d => c_st d 8.

Definition c_ld_sp (d : InstructionData) (width : Z) (sign : bool) : EM bool :=
  emit_load (u8 (rd d)) 2 (simm d) width sign ;; keep_on.
Definition c_st_sp (d : InstructionData) (width : Z) : EM bool :=
  emit_store 2 (simm d) (c_rs2 d) width ;; keep_on.
Definition jit_C_LWSP : JitFunc := fun d => c_ld_sp d 4 true.
Definition jit_C_LDSP : JitFunc := fun d => c_ld_sp d 8 true.
Definition jit_C_SWSP : JitFunc := fun d => c_st_sp d 4.
Definition jit_C_SDSP : JitFunc := fun d => c_st_sp d 8.

Definition jit_C_J : JitFunc := fun d => jump 0 0 (simm d) 2 false false.

(** [em.emit_cond_exit_zero(rs, cc, d.imm, b.instr_bytes, b.instr_index)]. *)
Definition branch_zero (cc : Z) : JitFunc := fun d =>
  '(off, index) ← gets (fun e => (instr_bytes (blk e), instr_index (blk e)));
  emit_cond_exit_zero (c_rs1 d) cc (simm d) off index.
Definition jit_C_BEQZ : JitFunc := branch_zero 0x4.
Definition jit_C_BNEZ : JitFunc := branch_zero 0x5.
Definition jit_C_JR : JitFunc := fun d => jump 0 (u8 (rd d)) 0 2 false true.
Definition jit_C_JALR : JitFunc := fun d => jump 1 (u8 (rd d)) 0 2 false true.

(** ** Registration *)

Definition jit_rv64i : list (string * JitFunc) :=
  [
   ("0000000**********000*****0110011"%string, jit_ADD);
   ("0000000**********000*****0111011"%string, jit_ADDW);
   ("0100000**********000*****0110011"%string, jit_SUB);
   ("0100000**********000*****0111011"%string, jit_SUBW);
   ("0000000**********100*****0110011"%string, jit_XOR);
   ("0000000**********110*****0110011"%string, jit_OR);
   ("0000000**********111*****0110011"%string, jit_AND);
   ("0000000**********001*****0110011"%string, jit_SLL);
   ("0000000**********001*****0111011"%string, jit_SLLW);
   ("0000000**********101*****0110011"%string, jit_SRL);
   ("0000000**********101*****0111011"%string, jit_SRLW);
   ("0100000**********101*****0110011"%string, jit_SRA);
   ("0100000**********101*****0111011"%string, jit_SRAW);
   ("0000000**********010*****0110011"%string, jit_SLT);
   ("0000000**********011*****0110011"%string, jit_SLTU);
   ("*****************000*****0010011"%string, jit_ADDI);
   ("*****************000*****0011011"%string, jit_ADDIW);
   ("*****************100*****0010011"%string, jit_XORI);
   ("*****************110*****0010011"%string, jit_ORI);
   ("*****************111*****0010011"%string, jit_ANDI);
   ("000000***********001*****0010011"%string, jit_SLLI);
   ("0000000**********001*****0011011"%string, jit_SLLIW);
   ("000000***********101*****0010011"%string, jit_SRLI);
   ("0000000**********101*****0011011"%string, jit_SRLIW);
   ("010000***********101*****0010011"%string, jit_SRAI);
   ("0100000**********101*****0011011"%string, jit_SRAIW);
   ("*****************010*****0010011"%string, jit_SLTI);
   ("*****************011*****0010011"%string, jit_SLTIU);
   ("*****************000*****0000011"%string, jit_LB);
   ("*****************001*****0000011"%string, jit_LH);
   ("*****************010*****0000011"%string, jit_LW);
   ("*****************011*****0000011"%string, jit_LD);
   ("*****************100*****0000011"%string, jit_LBU);
   ("*****************101*****0000011"%string, jit_LHU);
   ("*****************110*****0000011"%string, jit_LWU);
   ("*****************000*****0100011"%string, jit_SB);
   ("*****************001*****0100011"%string, jit_SH);
   ("*****************010*****0100011"%string, jit_SW);
   ("*****************011*****0100011"%string, jit_SD);
   ("*************************0110111"%string, jit_LUI);
   ("*************************0010111"%string, jit_AUIPC);
   ("*****************000*****1100011"%string, jit_BEQ);
   ("*****************001*****1100011"%string, jit_BNE);
   ("*****************100*****1100011"%string, jit_BLT);
   ("*****************101*****1100011"%string, jit_BGE);
   ("*****************110*****1100011"%string, jit_BLTU);
   ("*****************111*****1100011"%string, jit_BGEU);
   ("*************************1101111"%string, jit_JAL);
   ("*****************000*****1100111"%string, jit_JALR)].

Definition jit_rv64m : list (string * JitFunc) :=
  [
   ("0000001**********000*****0110011"%string, jit_MUL);
   ("0000001**********000*****0111011"%string, jit_MULW);
   ("0000001**********001*****0110011"%string, jit_MULH);
   ("0000001**********010*****0110011"%string, jit_MULHSU);
   ("0000001**********011*****0110011"%string, jit_MULHU);
   ("0000001**********100*****0110011"%string, jit_DIV);
   ("0000001**********101*****0110011"%string, jit_DIVU);
   ("0000001**********101*****0111011"%string, jit_DIVUW);
   ("0000001**********100*****0111011"%string, jit_DIVW);
   ("0000001**********110*****0110011"%string, jit_REM);
   ("0000001**********111*****0110011"%string, jit_REMU);
   ("0000001**********111*****0111011"%string, jit_REMUW);
   ("0000001**********110*****0111011"%string, jit_REMW)].

Definition jit_rv64c : list (string * JitFunc) :=
  [
   ("000***********00"%string, jit_C_ADDI4SPN);
   ("0000000000000001"%string, jit_C_NOP);
   ("000***********01"%string, jit_C_ADDI);
   ("001***********01"%string, jit_C_ADDIW);
   ("010***********01"%string, jit_C_LI);
   ("011***********01"%string, jit_C_LUI_ADDI16SP);
   ("100*00********01"%string, jit_C_SRLI);
   ("100*01********01"%string, jit_C_SRAI);
   ("100*10********01"%string, jit_C_ANDI);
   ("100011***00***01"%string, jit_C_SUB);
   ("100011***01***01"%string, jit_C_XOR);
   ("100011***10***01"%string, jit_C_OR);
   ("100011***11***01"%string, jit_C_AND);
   ("100111***00***01"%string, jit_C_SUBW);
   ("100111***01***01"%string, jit_C_ADDW);
   ("000***********10"%string, jit_C_SLLI);
   ("1000**********10"%string, jit_C_MV);
   ("1001**********10"%string, jit_C_ADD);
   ("010***********00"%string, jit_C_LW);
   ("011***********00"%string, jit_C_LD);
   ("110***********00"%string, jit_C_SW);
   ("111***********00"%string, jit_C_SD);
   ("010***********10"%string, jit_C_LWSP);
   ("011***********10"%string, jit_C_LDSP);
   ("110***********10"%string, jit_C_SWSP);
   ("111***********10"%string, jit_C_SDSP);
   ("101***********01"%string, jit_C_J);
   ("110***********01"%string, jit_C_BEQZ);
   ("111***********01"%string, jit_C_BNEZ);
   ("1000*****0000010"%string, jit_C_JR);
   ("1001*****0000010"%string, jit_C_JALR)].

Definition jit_funcs : list (string * JitFunc) := jit_rv64i ++ jit_rv64m ++ jit_rv64c.

(** [inst->jit_func] of the instruction with this mask. *)
Definition jit_func (mask : string) : option JitFunc :=
  snd <$> find (fun p => String.eqb (fst p) mask) jit_funcs.
