(* ===== verification/JitGen.v ===== *)
(** * Reasoning about generated code

    [GEN e m n P E Q QM]: from the emitter [e], with [n] bytes left, the
    generator [m] returns, appends at most [n] bytes and leaves an emitter
    satisfying [E]; and executing these bytes from a host state satisfying [P]
    ends after them in a state satisfying [Q], or at the target of one of the
    jumps whose displacement is filled in later (the holes), in a state
    satisfying [QM]. It is a Hoare triple of two levels: what the generator
    does to the emitter, and what the code does to the host. *)

From stdpp Require Import sorting.
From S2P Require Import Prelude X86 X86Enc X86Code JitEmit.
Import x86.

(** ** Straight-line code *)

(** Operands and instructions that do not depend on the instruction pointer. *)
Definition plain_op (o : operand) : bool := match o with Orip _ => false | _ => true end.

Definition plain (i : xinstr) : bool :=
  match i with
  | Imov_store _ o _ | Imov_load _ _ o | Imov_imm _ o _ | Ilea _ o | Imovzx _ _ _ o
  | Imovsx _ _ o | Ialu_store _ _ o _ | Ialu_load _ _ _ o | Ialu_imm _ _ o _ | Iunary _ _ o
  | Itest _ o _ | Itest_imm _ o _ | Ishift _ _ o _ | Ishift_cl _ _ o | Isetcc _ o
  | Iimul _ _ o | Iimul_imm _ _ o _ => plain_op o
  | Imov_abs _ _ | Iextend _ | Ipush _ | Ipop _ => true
  | Iret | Ijcc _ _ | Ijmp _ | Ijmp_to _ => false
  end.

Definition xeval (i : xinstr) (x : Host) : option Host := exec_at 0 i x.

Fixpoint xrun (l : list xinstr) (x : Host) : option Host :=
  match l with [] => Some x | i :: l' => x' ← xeval i x; xrun l' x' end.

Lemma xrun_app l1 l2 x : xrun (l1 ++ l2) x = (x' ← xrun l1 x; xrun l2 x').
Proof.
  revert x. induction l1 as [|i l1 IH]; intros x; [done|]. cbn.
  destruct (xeval i x); cbn; [apply IH|done].
Qed.

Lemma put_reg_xip q w r v x : put_reg w r v (set_xip q x) = set_xip q (put_reg w r v x).
Proof. by destruct w. Qed.

Lemma put_op_xip next k q w o v x : plain_op o = true ->
  put_op next w o v (set_xip q x) = set_xip q (put_op k w o v x).
Proof. destruct o; [intros _; apply put_reg_xip|done|done]. Qed.

Lemma get_op_xip next k q w o x : plain_op o = true ->
  get_op next w o (set_xip q x) = get_op k w o x.
Proof. by destruct o. Qed.

Lemma alu_to_xip next k q w op d b x : plain_op d = true ->
  alu_to next w op d b (set_xip q x) = set_xip q (alu_to k w op d b x).
Proof.
  intros Hp. unfold alu_to. rewrite (get_op_xip next k) by done.
  destruct (alu_op w op (get_op k w d x) b).
  destruct op; rewrite ?(put_op_xip next k) by done; done.
Qed.

(** The effect of a plain instruction does not depend on where it is. *)
Lemma plain_exec next k q i x : plain i = true ->
  exec_at next i (set_xip q x) = set_xip q <$> exec_at k i x.
Proof.
  intros Hp. destruct i; try done; cbn [plain] in Hp; cbn [exec_at fmap option_fmap option_map];
    rewrite ?(put_op_xip next k), ?(get_op_xip next k), ?(alu_to_xip next k), ?put_reg_xip by done;
    try reflexivity.
  - destruct s; done.
  - unfold unary. rewrite (get_op_xip next k) by done. change (xr (set_xip q x)) with (xr x).
    change (wide w (set_xip q x)) with (wide w x).
    destruct op; rewrite ?(put_op_xip next k) by done; unfold put_pair; rewrite ?put_reg_xip; try done.
    + destruct (_ =? 0); [done|]. destruct (_ <=? _); [done|]. by rewrite ?put_reg_xip.
    + destruct (_ =? 0); [done|]. destruct (_ || _); [done|]. by rewrite ?put_reg_xip.
  - unfold shift_to. rewrite (get_op_xip next k), (put_op_xip next k) by done.
    by destruct (_ =? 0).
  - unfold shift_to. rewrite (get_op_xip next k), (put_op_xip next k) by done.
    change (xr (set_xip q x)) with (xr x). by destruct (_ =? 0).
  - change (xf (set_xip q x)) with (xf x). destruct (cond cc (xf x)); [|done]. cbn.
    by rewrite (put_op_xip next k).
Qed.

Lemma xrun_xip q l x : forallb plain l = true -> xrun l (set_xip q x) = set_xip q <$> xrun l x.
Proof.
  revert x. induction l as [|i l IH]; intros x Hp; [done|].
  cbn in Hp. apply andb_true_iff in Hp as [Hp Hpl]. cbn [xrun]. unfold xeval.
  rewrite (plain_exec 0 0) by done. destruct (exec_at 0 i x); cbn; [by apply IH|done].
Qed.

(** [bs] is the concatenation of encodings of the instructions [l]. *)
Inductive asm : list Z -> list xinstr -> Prop :=
| asm_nil : asm [] []
| asm_cons b i bs l : 0 < pos b -> (forall t, xdecode (b ++ t) = Some (i, t)) -> asm bs l ->
    asm (b ++ bs) (i :: l).

Lemma asm_app bs1 l1 bs2 l2 : asm bs1 l1 -> asm bs2 l2 -> asm (bs1 ++ bs2) (l1 ++ l2).
Proof. induction 1; intros; [done|]. rewrite <- app_assoc. cbn. constructor; auto. Qed.

Lemma asm_one b i : 0 < pos b -> (forall t, xdecode (b ++ t) = Some (i, t)) -> asm b [i].
Proof. intros. rewrite <- (app_nil_r b). constructor; auto using asm_nil. Qed.

(** ** Code in place *)

Definition code_at (c : list Z) (k : Z) (bs : list Z) : Prop :=
  exists c1 c2, c = c1 ++ bs ++ c2 /\ pos c1 = k.

(** The code, and its link slots behind it, do not wrap around the address space. *)
Definition placed (base : Z) (c : list Z) : Prop :=
  0 <= base /\ base + pos c < 2 ^ 64 /\ base + 2 * RVJIT_FUNC_SIZE < 2 ^ 64.

Lemma code_at_app c k bs1 bs2 :
  code_at c k (bs1 ++ bs2) -> code_at c k bs1 /\ code_at c (k + pos bs1) bs2.
Proof.
  intros (c1 & c2 & -> & <-). split.
  - exists c1, (bs2 ++ c2). by rewrite <- app_assoc.
  - exists (c1 ++ bs1), c2. rewrite pos_app, <- !app_assoc. done.
Qed.

Lemma xstep_at base c k b i x :
  code_at c k b -> xip x = base + k -> 0 < pos b -> (forall t, xdecode (b ++ t) = Some (i, t)) ->
  xstep base c x = exec_at (base + k + pos b) i (set_xip (base + k + pos b) x).
Proof.
  intros (c1 & c2 & -> & Hk) Hx Hb Hd. unfold xstep.
  assert (Z.of_nat (length (c1 ++ b ++ c2)) = pos c1 + pos b + pos c2) as Hl.
  { unfold pos. rewrite !length_app. lia. }
  pose proof (pos_nonneg c1). pose proof (pos_nonneg c2).
  rewrite (proj2 (Z.ltb_ge (xip x) base)), (proj2 (Z.leb_gt _ (xip x))) by lia. cbn [orb].
  assert (code_from base (c1 ++ b ++ c2) (xip x) = b ++ c2) as ->.
  { unfold code_from. replace (Z.to_nat (xip x - base)) with (length c1) by (unfold pos in *; lia).
    by rewrite drop_app_length. }
  rewrite Hd. cbn [mbind option_bind]. rewrite length_app.
  replace (xip x + (Z.of_nat (length b + length c2) - Z.of_nat (length c2)))
    with (base + k + pos b) by (unfold pos in *; lia). done.
Qed.

Lemma xsteps_asm base c bs l : asm bs l -> forall k x x',
  code_at c k bs -> xip x = base + k -> forallb plain l = true -> xrun l x = Some x' ->
  xsteps base c x (set_xip (base + k + pos bs) x').
Proof.
  induction 1 as [|b i bs l Hb Hd Hl IH]; intros k x x' Hc Hx Hp Hr.
  - injection Hr as <-. change (pos []) with 0. rewrite Z.add_0_r, <- Hx. destruct x. constructor.
  - cbn in Hp. apply andb_true_iff in Hp as [Hp Hpl]. cbn [xrun] in Hr.
    destruct (xeval i x) as [x1|] eqn:E; [|done]. cbn in Hr. apply code_at_app in Hc as [Hc1 Hc2].
    econstructor.
    { rewrite (xstep_at base c k b i) by done. rewrite (plain_exec _ 0) by done. fold (xeval i x). by rewrite E. }
    rewrite pos_app, !Z.add_assoc.
    assert (xrun l (set_xip (base + k + pos b) x1) = Some (set_xip (base + k + pos b) x')) as Hr'
      by (by rewrite xrun_xip, Hr by done).
    specialize (IH (k + pos b) (set_xip (base + k + pos b) x1) _ Hc2 ltac:(cbn; lia) Hpl Hr').
    rewrite !Z.add_assoc in IH. by destruct x'.
Qed.

(** ** Holes *)

(** What a displacement field filled in later stands for: the jump of an
    exhausted budget, a failed guard of the exit whose [lea] field is at [lea],
    the address of the link slot of exit [i], a jump to a miss stub. *)
Inductive Site := SBudget | SFail (lea : Z) | SLea (i : Z) | SMiss (m : MissSite).

Record Hole := mkHole { h_pos : Z; h_site : Site }.

(** The displacement field at [h], in bytes emitted at [k], for the target [T h]. *)
Definition fill (T : Z -> Z) (k : Z) (bs : list Z) (h : Hole) : list Z :=
  list_inserts (Z.to_nat (h_pos h - k)) (dw_bytes (u32 (T (h_pos h) - (h_pos h + 4)))) bs.

Definition resolve (T : Z -> Z) (k : Z) (hs : list Hole) (bs : list Z) : list Z := foldl (fill T k) bs hs.

(** The fields at [hs] lie within [n] bytes at [k], and follow one another. *)
Definition inside (k n : Z) (hs : list Hole) : Prop := Forall (fun h => k <= h_pos h /\ h_pos h + 4 <= k + n) hs.

Definition sorted (hs : list Hole) : Prop := StronglySorted (fun a b => h_pos a + 4 <= h_pos b) hs.

Record in_range (k n : Z) (hs : list Hole) : Prop := { ir_inside : inside k n hs; ir_sorted : sorted hs }.

Lemma in_range_nil k n : in_range k n [].
Proof. split; constructor. Qed.
#[local] Hint Resolve in_range_nil : core.

Lemma inserts_app (l : list Z) i (l1 l2 : list Z) : (i + length l <= length l1)%nat ->
  list_inserts i l (l1 ++ l2) = list_inserts i l l1 ++ l2.
Proof.
  revert i. induction l as [|x l IH]; intros i Hi; [done|]. cbn [list_inserts length] in *.
  rewrite IH by lia. apply insert_app_l. rewrite length_inserts. lia.
Qed.

Lemma fill_pos T k bs h : pos (fill T k bs h) = pos bs.
Proof. unfold fill, pos. by rewrite length_inserts. Qed.

Lemma resolve_pos T k hs bs : pos (resolve T k hs bs) = pos bs.
Proof.
  unfold resolve. revert bs. induction hs as [|h hs IH]; intros bs; [done|].
  cbn [foldl]. rewrite IH. apply fill_pos.
Qed.

Lemma resolve_app_l T k hs bs1 bs2 : inside k (pos bs1) hs ->
  resolve T k hs (bs1 ++ bs2) = resolve T k hs bs1 ++ bs2.
Proof.
  unfold resolve. revert bs1. induction hs as [|h hs IH]; intros bs1 Hr; [done|].
  inversion_clear Hr as [|? ? Hh Hr']. cbn [foldl].
  assert (fill T k (bs1 ++ bs2) h = fill T k bs1 h ++ bs2) as ->.
  { unfold fill. apply inserts_app. unfold pos in Hh. change (length (dw_bytes _)) with 4%nat. lia. }
  apply IH. by rewrite fill_pos.
Qed.

Lemma resolve_app_r T k hs bs1 bs2 : inside (k + pos bs1) (pos bs2) hs ->
  resolve T k hs (bs1 ++ bs2) = bs1 ++ resolve T (k + pos bs1) hs bs2.
Proof.
  unfold resolve. revert bs2. induction hs as [|h hs IH]; intros bs2 Hr; [done|].
  inversion_clear Hr as [|? ? Hh Hr']. cbn [foldl].
  assert (fill T k (bs1 ++ bs2) h = bs1 ++ fill T (k + pos bs1) bs2 h) as ->.
  { unfold fill. replace (Z.to_nat (h_pos h - k)) with (length bs1 + Z.to_nat (h_pos h - (k + pos bs1)))%nat
      by (unfold pos in *; lia). apply list_inserts_app_r. }
  apply IH. by rewrite fill_pos.
Qed.

Lemma resolve_app T k hs1 hs2 bs1 bs2 :
  inside k (pos bs1) hs1 -> inside (k + pos bs1) (pos bs2) hs2 ->
  resolve T k (hs1 ++ hs2) (bs1 ++ bs2) = resolve T k hs1 bs1 ++ resolve T (k + pos bs1) hs2 bs2.
Proof.
  intros H1 H2. unfold resolve at 1. rewrite foldl_app. fold (resolve T k hs1 (bs1 ++ bs2)).
  rewrite resolve_app_l by done.
  fold (resolve T k hs2 (resolve T k hs1 bs1 ++ bs2)).
  rewrite resolve_app_r; rewrite resolve_pos; done.
Qed.

Lemma in_range_app k n1 n2 hs1 hs2 : 0 <= n1 -> 0 <= n2 ->
  in_range k n1 hs1 -> in_range (k + n1) n2 hs2 -> in_range k (n1 + n2) (hs1 ++ hs2).
Proof.
  intros H1 H2 [Ha Sa] [Hb Sb]. unfold inside in Ha, Hb. rewrite Forall_forall in Ha, Hb.
  split; unfold inside; rewrite ?Forall_app, ?Forall_forall; [split; intros h Hh; [specialize (Ha h Hh)|specialize (Hb h Hh)]; lia|].
  apply StronglySorted_app. split_and!; [|done..].
  intros h1 h2 Hh1 Hh2. specialize (Ha h1 Hh1). specialize (Hb h2 Hh2). lia.
Qed.

(** ** The judgement *)

Definition targets (T : Z -> Z) : Prop := forall h, 0 <= T h <= 2 * RVJIT_FUNC_SIZE.

(** How the code is left at a hole: by the jump, or past the untaken jump by a
    jump through a register. *)
Inductive Way := Taken | Past.

(** The assertion where the code is left; it may mention the addresses of the
    targets. *)
Definition Exits : Type := (Z -> Z) -> Way -> Hole -> Host -> Prop.

Definition leaves (base : Z) (T : Z -> Z) (hs : list Hole) (QM : Exits) (x : Host) : Prop :=
  exists w h, h ∈ hs /\ (w = Taken -> xip x = base + T (h_pos h)) /\ QM (fun p => base + T p) w h x.

Definition AGEN {A} (e : JIT_Emitter) (m : EM A) (n : Z) (P : (Z -> Z) -> Host -> Prop)
    (E : A -> JIT_Emitter -> list Hole -> Prop) (Q : A -> JIT_Emitter -> (Z -> Z) -> Host -> Prop)
    (QM : Exits) : Prop :=
  code_pos e + n <= RVJIT_FUNC_SIZE ->
  exists a e' bs hs,
    m e = Ret (a, e') /\ code (blk e') = code (blk e) ++ bs /\ pos bs <= n /\
    in_range (code_pos e) (pos bs) hs /\ E a e' hs /\
    forall base c T x, placed base c -> targets T ->
      code_at c (code_pos e) (resolve T (code_pos e) hs bs) ->
      xip x = base + code_pos e -> P (fun p => base + T p) x ->
      exists x', xsteps base c x x' /\
        ((xip x' = base + code_pos e + pos bs /\ Q a e' (fun p => base + T p) x') \/ leaves base T hs QM x').

(** The usual form: the assertions before and after do not mention the addresses. *)
Definition GEN {A} (e : JIT_Emitter) (m : EM A) (n : Z) (P : Host -> Prop)
    (E : A -> JIT_Emitter -> list Hole -> Prop) (Q : A -> JIT_Emitter -> Host -> Prop)
    (QM : Exits) : Prop :=
  AGEN e m n (fun _ => P) E (fun a e' _ => Q a e') QM.

Lemma leaves_weaken base T hs hs' QM QM' x : (forall h, h ∈ hs -> h ∈ hs') ->
  (forall AA w h x, QM AA w h x -> QM' AA w h x) -> leaves base T hs QM x -> leaves base T hs' QM' x.
Proof. intros Hh HM (w & h & Hin & Hw & Hq). exists w, h. auto. Qed.

Lemma agen_weaken {A} e (m : EM A) n n' P P' E E' Q Q' (QM QM' : Exits) :
  AGEN e m n P E Q QM -> n <= n' -> (forall AA x, P' AA x -> P AA x) ->
  (forall a e' hs, E a e' hs -> E' a e' hs) ->
  (forall a e' hs AA x, E a e' hs -> Q a e' AA x -> Q' a e' AA x) -> (forall AA w h x, QM AA w h x -> QM' AA w h x) ->
  AGEN e m n' P' E' Q' QM'.
Proof.
  intros Hg Hn HP HE HQ HM Hs. destruct (Hg ltac:(lia)) as (a & e' & bs & hs & Hm & Hc & Hb & Hh & He & Hx).
  exists a, e', bs, hs. split_and!; try done; [lia|by apply HE|].
  intros base c T x Hpl HT Hat Hip Hp. destruct (Hx base c T x Hpl HT Hat Hip (HP _ x Hp)) as (x' & Hst & Ho).
  exists x'. split; [done|]. destruct Ho as [[Hi Hq]|Hl]; [left; eauto|right].
  by eapply leaves_weaken; [|exact HM|exact Hl].
Qed.

Lemma gen_weaken {A} e (m : EM A) n n' (P P' : Host -> Prop) E E' Q Q' (QM QM' : Exits) :
  GEN e m n P E Q QM -> n <= n' -> (forall x, P' x -> P x) ->
  (forall a e' hs, E a e' hs -> E' a e' hs) ->
  (forall a e' hs x, E a e' hs -> Q a e' x -> Q' a e' x) -> (forall AA w h x, QM AA w h x -> QM' AA w h x) ->
  GEN e m n' P' E' Q' QM'.
Proof. intros Hg Hn HP HE HQ HM. by eapply agen_weaken; eauto. Qed.

Lemma gen_le {A} e (m : EM A) n n' P E Q QM : GEN e m n P E Q QM -> n <= n' -> GEN e m n' P E Q QM.
Proof. intros H Hn. by eapply gen_weaken; [exact H|..]. Qed.

Lemma gen_pre {A} e (m : EM A) n (P P' : Host -> Prop) E Q QM :
  GEN e m n P E Q QM -> (forall x, P' x -> P x) -> GEN e m n P' E Q QM.
Proof. intros H HP. by eapply gen_weaken; [exact H|..]. Qed.

(** Steps of the emitter that emit nothing. *)
Lemma agen_step {A} e e' (m m' : EM A) n P E Q QM :
  code (blk e') = code (blk e) -> m e = m' e' -> AGEN e' m' n P E Q QM -> AGEN e m n P E Q QM.
Proof.
  unfold AGEN, code_pos. intros Hc Hm Hg Hs. rewrite Hc in Hg. destruct (Hg Hs) as (a & e2 & bs & hs & H).
  exists a, e2, bs, hs. by rewrite Hm.
Qed.

Lemma gen_step {A} e e' (m m' : EM A) n P E Q QM :
  code (blk e') = code (blk e) -> m e = m' e' -> GEN e' m' n P E Q QM -> GEN e m n P E Q QM.
Proof. apply agen_step. Qed.

Lemma agen_pure {A} e (m : EM A) a e' (P : (Z -> Z) -> Host -> Prop) (E : A -> JIT_Emitter -> list Hole -> Prop)
    (Q : A -> JIT_Emitter -> (Z -> Z) -> Host -> Prop) QM :
  m e = Ret (a, e') -> code (blk e') = code (blk e) -> E a e' [] -> (forall AA x, P AA x -> Q a e' AA x) ->
  AGEN e m 0 P E Q QM.
Proof.
  intros Hm Hc He Hq Hs. exists a, e', [], []. split_and!; try done; [by rewrite app_nil_r|].
  intros base c T x _ _ _ Hx Hp. exists x. split; [constructor|left]. split; [change (pos []) with 0; lia|auto].
Qed.

Lemma gen_pure {A} e (m : EM A) a e' (P : Host -> Prop) (E : A -> JIT_Emitter -> list Hole -> Prop)
    (Q : A -> JIT_Emitter -> Host -> Prop) QM :
  m e = Ret (a, e') -> code (blk e') = code (blk e) -> E a e' [] -> (forall x, P x -> Q a e' x) ->
  GEN e m 0 P E Q QM.
Proof. intros Hm Hc He Hq. by eapply agen_pure; eauto. Qed.

Lemma gen_ret {A} e (a : A) (P : Host -> Prop) (E : A -> JIT_Emitter -> list Hole -> Prop)
    (Q : A -> JIT_Emitter -> Host -> Prop) QM :
  E a e [] -> (forall x, P x -> Q a e x) -> GEN e (mret a) 0 P E Q QM.
Proof. intros He Hq. by eapply gen_pure. Qed.

Lemma agen_bind {A B} e (m : EM A) (f : A -> EM B) n1 n2 P E1 Q1 E Q QM :
  0 <= n2 ->
  AGEN e m n1 P E1 Q1 QM ->
  (forall a e' hs1, E1 a e' hs1 ->
     AGEN e' (f a) n2 (Q1 a e') (fun b e2 hs2 => E b e2 (hs1 ++ hs2)) Q QM) ->
  AGEN e (m ≫= f) (n1 + n2) P E Q QM.
Proof.
  intros Hn2 Hm Hf Hs.
  destruct (Hm ltac:(lia)) as (a & e1 & bs1 & hs1 & Hr1 & Hc1 & Hb1 & Hh1 & He1 & Hx1).
  assert (code_pos e1 = code_pos e + pos bs1) as Hp1 by (unfold code_pos; by rewrite Hc1, pos_app).
  destruct (Hf a e1 hs1 He1 ltac:(lia)) as (b & e2 & bs2 & hs2 & Hr2 & Hc2 & Hb2 & Hh2 & He2 & Hx2).
  rewrite Hp1 in Hh2, Hx2.
  exists b, e2, (bs1 ++ bs2), (hs1 ++ hs2). split_and!; try done.
  - cbv [mbind ST_bind]. by rewrite Hr1.
  - by rewrite Hc2, Hc1, app_assoc.
  - rewrite pos_app. lia.
  - rewrite pos_app. apply in_range_app; auto using pos_nonneg.
  - intros base c T x Hpl HT Hat Hip Hp. rewrite resolve_app in Hat by (apply Hh1 || apply Hh2).
    apply code_at_app in Hat as [Hat1 Hat2]. rewrite resolve_pos in Hat2.
    destruct (Hx1 base c T x Hpl HT Hat1 Hip Hp) as (x1 & Hst1 & [[Hi1 Hq1]|Hl]).
    + rewrite <- Z.add_assoc in Hi1.
      destruct (Hx2 base c T x1 Hpl HT Hat2 Hi1 Hq1) as (x2 & Hst2 & Ho).
      exists x2. split; [by eapply xsteps_trans|]. rewrite pos_app.
      destruct Ho as [[Hi2 Hq2]|Hl]; [left; split; [lia|done]|right].
      eapply leaves_weaken; [|done|exact Hl]. set_solver.
    + exists x1. split; [done|right]. eapply leaves_weaken; [|done|exact Hl]. set_solver.
Qed.

Lemma gen_bind {A B} e (m : EM A) (f : A -> EM B) n1 n2 P E1 Q1 E Q QM :
  0 <= n2 ->
  GEN e m n1 P E1 Q1 QM ->
  (forall a e' hs1, E1 a e' hs1 ->
     GEN e' (f a) n2 (Q1 a e') (fun b e2 hs2 => E b e2 (hs1 ++ hs2)) Q QM) ->
  GEN e (m ≫= f) (n1 + n2) P E Q QM.
Proof. intros Hn Hm Hf. by eapply agen_bind; eauto. Qed.

(** ** Straight-line generators *)

Definition with_code (e : JIT_Emitter) (c : CodeBuf) : JIT_Emitter := set_blk (set_code c (blk e)) e.

(** [m] only emits: at most [n] bytes, which are the instructions [l]. *)
Definition STR (m : EM unit) (n : Z) (l : list xinstr) : Prop := forall e,
  code_pos e + n <= RVJIT_FUNC_SIZE ->
  exists bs, m e = Ret (tt, with_code e (code (blk e) ++ bs)) /\ asm bs l /\ pos bs <= n.

Lemma str_emit m i n : encodes m i n -> STR (emit m) n [i].
Proof.
  intros (bs & He & [Hb Hn] & Hd) e Hs. exists bs. split_and!; [|by apply asm_one|done].
  unfold emit. rewrite (emits_long _ tt bs) by (done || (unfold code_pos in Hs; lia)). done.
Qed.

Lemma str_ret : STR (mret tt) 0 [].
Proof.
  intros e Hs. exists []. rewrite app_nil_r. split_and!; [|constructor|done].
  destruct e as [[]]. done.
Qed.

Lemma str_seq m1 m2 n1 n2 l1 l2 : 0 <= n2 ->
  STR m1 n1 l1 -> STR m2 n2 l2 -> STR (m1 ;; m2) (n1 + n2) (l1 ++ l2).
Proof.
  intros Hn H1 H2 e Hs. destruct (H1 e ltac:(lia)) as (b1 & E1 & A1 & N1).
  set (e1 := with_code e (code (blk e) ++ b1)) in *.
  assert (code_pos e1 = code_pos e + pos b1) as Hp by (unfold code_pos; cbn; by rewrite pos_app).
  destruct (H2 e1 ltac:(lia)) as (b2 & E2 & A2 & N2).
  exists (b1 ++ b2). split_and!; [|by apply asm_app|rewrite pos_app; lia].
  cbv [mbind ST_bind]. rewrite E1, E2. cbn. by rewrite <- app_assoc.
Qed.

Lemma str_if (c : bool) m1 m2 n l1 l2 :
  STR m1 n l1 -> STR m2 n l2 -> STR (if c then m1 else m2) n (if c then l1 else l2).
Proof. by destruct c. Qed.

Lemma str_weaken m n n' l : STR m n l -> n <= n' -> STR m n' l.
Proof.
  intros Hm Hn e Hs. destruct (Hm e ltac:(lia)) as (bs & ? & ? & ?). exists bs. split_and!; try done. lia.
Qed.

Lemma agen_str e m n l (P : (Z -> Z) -> Host -> Prop) (E : unit -> JIT_Emitter -> list Hole -> Prop)
    (Q : unit -> JIT_Emitter -> (Z -> Z) -> Host -> Prop) QM :
  STR m n l -> forallb plain l = true ->
  (forall c, E tt (with_code e c) []) ->
  (forall AA x, P AA x -> exists x', xrun l x = Some x' /\ forall q c, Q tt (with_code e c) AA (set_xip q x')) ->
  AGEN e m n P E Q QM.
Proof.
  intros Hm Hl He Hx Hs. destruct (Hm e Hs) as (bs & Em & Ha & Hn).
  eexists tt, _, bs, []. split_and!; [exact Em|done|done|apply in_range_nil|apply He|].
  intros base c T x Hpl HT Hat Hip Hp. destruct (Hx _ x Hp) as (x' & Hr & Hq).
  eexists. split; [by eapply xsteps_asm|]. left. split; [done|apply Hq].
Qed.

Lemma gen_str e m n l (P : Host -> Prop) (E : unit -> JIT_Emitter -> list Hole -> Prop)
    (Q : unit -> JIT_Emitter -> Host -> Prop) QM :
  STR m n l -> forallb plain l = true ->
  (forall c, E tt (with_code e c) []) ->
  (forall x, P x -> exists x', xrun l x = Some x' /\ forall q c, Q tt (with_code e c) (set_xip q x')) ->
  GEN e m n P E Q QM.
Proof. intros Hm Hl He Hx. by eapply agen_str; eauto. Qed.

(** Straight-line code, then the rest. *)
Lemma gen_str_bind {A} e m (f : unit -> EM A) n1 n2 n l P E Q QM :
  STR m n1 l -> forallb plain l = true -> 0 <= n2 -> n1 + n2 <= n ->
  (forall x, P x -> exists x', xrun l x = Some x') ->
  (forall c, GEN (with_code e c) (f tt) n2
     (fun y => exists x x' q, P x /\ xrun l x = Some x' /\ y = set_xip q x') E Q QM) ->
  GEN e (m ≫= f) n P E Q QM.
Proof.
  intros Hm Hl Hn2 Hn Hx Hf.
  eapply gen_le; [|exact Hn].
  eapply (gen_bind e m f n1 n2 P (fun _ e' hs => hs = [] /\ exists c, e' = with_code e c)
    (fun _ _ y => exists x x' q, P x /\ xrun l x = Some x' /\ y = set_xip q x')); [done| |].
  - eapply gen_str; [done|done|eauto|]. intros x Hp. destruct (Hx x Hp) as [x' Hr]. eauto 8.
  - intros [] e' hs1 [-> [c ->]]. apply Hf.
Qed.
