(* ===== verification/JitAlloc.v ===== *)
(** * The register allocator

    [alloc_ok]: the two tables of the allocator describe one partial injection
    from guest registers to slots. [R e g x]: the host state [x] holds the guest
    registers [g] where the tables of the emitter [e] say they are. The lemmas
    give each allocator operation as a [GEN] triple: it keeps the tables
    consistent, finds a slot, never takes one that holds a protected operand,
    and the code it emits keeps every guest register. *)

From S2P Require Import Prelude X86 X86Enc X86Code JitEmit JitGen.
Import x86.

(** ** Host memory *)

Record hwf (x : Host) : Prop := {
  hwf_reg : forall r, inw 64 (xr x r);
  hwf_mem : forall a, inw 8 (xm x a) }.

Lemma upd_eq f a v : upd f a v a = v.
Proof. unfold upd. by rewrite Z.eqb_refl. Qed.

Lemma upd_ne f a b v : b <> a -> upd f a v b = f b.
Proof. intros. unfold upd. by rewrite (proj2 (Z.eqb_neq b a)). Qed.

Lemma land_small x n : 0 <= n -> 0 <= Z.land x (Z.ones n) < 2 ^ n.
Proof. intros. rewrite Z.land_ones by lia. apply Z.mod_pos_bound. by apply pow2_pos. Qed.

Lemma ld_le_ext n m m' a :
  (forall b, a <= b < a + Z.of_nat n -> m (u64 b) = m' (u64 b)) -> ld_le n m a = ld_le n m' a.
Proof.
  revert a. induction n as [|n IH]; intros a H; [done|]. cbn [ld_le].
  rewrite (H a) by lia. rewrite (IH (a + 1)); [done|]. intros b Hb. apply H. lia.
Qed.

Lemma ld_le_range n m a : (forall b, inw 8 (m b)) -> 0 <= ld_le n m a < 2 ^ (8 * Z.of_nat n).
Proof.
  intros Hm. revert a. induction n as [|n IH]; intros a; [done|]. cbn [ld_le].
  specialize (IH (a + 1)). pose proof (Hm (u64 a)) as Hb. unfold inw in Hb.
  replace (8 * Z.of_nat (S n)) with (8 + 8 * Z.of_nat n) by lia. rewrite Z.pow_add_r by lia. nia.
Qed.

Lemma st_le_other n m a v b : 0 <= a -> a + Z.of_nat n <= 2 ^ 64 ->
  ~ (a <= b < a + Z.of_nat n) -> st_le n m a v b = m b.
Proof.
  revert a v. induction n as [|n IH]; intros a v H0 H1 Hb; [done|]. cbn [st_le].
  rewrite (uN_id 64 a) by (split; lia). rewrite upd_ne by lia. apply IH; lia.
Qed.

Lemma ld_st_same n m a v : 0 <= a -> a + Z.of_nat n <= 2 ^ 64 ->
  ld_le n (st_le n m a v) a = uN (8 * Z.of_nat n) v.
Proof.
  revert a v m. induction n as [|n IH]; intros a v m H0 H1; [by unfold uN; rewrite Z.mod_1_r|].
  cbn [st_le ld_le]. rewrite (uN_id 64 a) by (split; lia). rewrite upd_eq.
  rewrite (ld_le_ext n _ (st_le n m (a + 1) (Z.shiftr v 8))).
  2:{ intros b Hb. rewrite (uN_id 64 b) by (split; lia). by rewrite upd_ne by lia. }
  rewrite IH by lia. unfold uN. rewrite Z.shiftr_div_pow2 by lia.
  replace (8 * Z.of_nat (S n)) with (8 + 8 * Z.of_nat n) by lia.
  rewrite Z.pow_add_r, Z.rem_mul_r by lia. lia.
Qed.

Lemma ld_st_other n k m a b v : 0 <= a -> a + Z.of_nat n <= 2 ^ 64 -> 0 <= b -> b + Z.of_nat k <= 2 ^ 64 ->
  b + Z.of_nat k <= a \/ a + Z.of_nat n <= b -> ld_le k (st_le n m a v) b = ld_le k m b.
Proof.
  intros. apply ld_le_ext. intros c Hc. rewrite (uN_id 64 c) by (split; lia). apply st_le_other; lia.
Qed.

Lemma st_le_wf n m a v : (forall b, inw 8 (m b)) -> forall b, inw 8 (st_le n m a v b).
Proof.
  intros Hm. revert a v. induction n as [|n IH]; intros a v b; [apply Hm|]. cbn [st_le].
  unfold upd. destruct (_ =? _); [by apply uN_inw|apply IH].
Qed.

#[global] Arguments ld_le : simpl never.
#[global] Arguments st_le : simpl never.
#[global] Arguments phys : simpl never.
#[global] Arguments vreg : simpl never.

(** ** The tables *)

Definition hr (e : JIT_Emitter) (s : Z) : Z := nth (Z.to_nat s) (hr_vreg e) 0xFF.

(** [o] is the slot handed out by [free_slot] and not yet given a register. *)
Record alloc_ok (o : option Z) (e : JIT_Emitter) : Prop := {
  ao_vr : length (vr e) = 32%nat;
  ao_hr : length (hr_vreg e) = 6%nat;
  ao_slot : forall v, 0 <= v < 32 ->
    slot (vreg e v) = -1 \/ (0 <= slot (vreg e v) < 6 /\ hr e (slot (vreg e v)) = v);
  ao_hreg : forall s, 0 <= s < 6 ->
    hr e s = 0xFF \/ (o = Some s /\ hr e s = 0xFE) \/ (0 <= hr e s < 32 /\ slot (vreg e (hr e s)) = s);
  ao_owned : forall s, o = Some s -> 0 <= s < 6 /\ hr e s = 0xFE;
  ao_dirty : forall v, 0 <= v < 32 -> dirty (vreg e v) = true -> 1 <= v /\ 0 <= slot (vreg e v) }.

Lemma nth_same {A} (n k : nat) (a : A) : nth k (replicate n a) a = a.
Proof. rewrite nth_lookup. destruct (_ !! k) eqn:E; [by apply lookup_replicate in E as [-> _]|done]. Qed.

Lemma alloc_ok_new b m mxr sum : alloc_ok None (new_emitter b m mxr sum).
Proof.
  assert (forall v, vreg (new_emitter b m mxr sum) v = no_vreg) as Hv by (intros v; apply nth_same).
  assert (forall s, hr (new_emitter b m mxr sum) s = 0xFF) as Hs by (intros s; apply nth_same).
  constructor; try done.
  - intros v _. left. by rewrite Hv.
  - intros s _. left. apply Hs.
  - intros v _. by rewrite Hv.
Qed.

(** What the allocator does not change. *)
Definition ctx_of (e : JIT_Emitter) :=
  (chain_off (blk e), instr_index (blk e), instr_bytes (blk e), exits (blk e), eff_mode e, em_mxr e,
   em_sum e, misses e, stub_reserve e, exited e, n_super e).

Lemma vreg_put e v w g : length (vr e) = 32%nat -> 0 <= v < 32 -> 0 <= w < 32 ->
  vreg (put_vreg v g e) w = if w =? v then g else vreg e w.
Proof.
  intros Hl Hv Hw. unfold vreg, put_vreg, set_vr. cbn [vr].
  destruct (Z.eqb_spec w v) as [->|Hn].
  - rewrite nth_lookup, list_lookup_insert_eq by lia. done.
  - rewrite !nth_lookup, list_lookup_insert_ne by lia. done.
Qed.

Lemma hr_set e s t h : length (hr_vreg e) = 6%nat -> 0 <= s < 6 -> 0 <= t < 6 ->
  hr (set_hr_vreg (<[Z.to_nat s := h]> (hr_vreg e)) e) t = if t =? s then h else hr e t.
Proof.
  intros Hl Hs Ht. unfold hr, set_hr_vreg. cbn [hr_vreg].
  destruct (Z.eqb_spec t s) as [->|Hn].
  - rewrite nth_lookup, list_lookup_insert_eq by lia. done.
  - rewrite !nth_lookup, list_lookup_insert_ne by lia. done.
Qed.

Lemma phys_range s : 0 <= s < 6 -> 6 <= phys s <= 11.
Proof.
  intros Hs. assert (s = 0 \/ s = 1 \/ s = 2 \/ s = 3 \/ s = 4 \/ s = 5) as Hc by lia.
  destruct_or!; subst s; done.
Qed.

Lemma phys_inj s t : 0 <= s < 6 -> 0 <= t < 6 -> phys s = phys t -> s = t.
Proof.
  intros Hs Ht. assert (forall s, 0 <= s < 6 -> phys s = s + 6) as Hp.
  { clear. intros s Hs. assert (s = 0 \/ s = 1 \/ s = 2 \/ s = 3 \/ s = 4 \/ s = 5) as Hc by lia.
    destruct_or!; subst s; done. }
  rewrite !Hp by done. lia.
Qed.

(** Two registers do not share a slot. *)
Lemma vreg_slot_inj o e v w : alloc_ok o e -> 0 <= v < 32 -> 0 <= w < 32 ->
  0 <= slot (vreg e v) -> slot (vreg e v) = slot (vreg e w) -> v = w.
Proof.
  intros He Hv Hw H0 Hs. destruct (ao_slot o e He v Hv) as [|[_ H1]]; [lia|].
  destruct (ao_slot o e He w Hw) as [|[_ H2]]; [lia|]. congruence.
Qed.

Lemma slot_range o e v : alloc_ok o e -> 0 <= v < 32 -> 0 <= slot (vreg e v) ->
  0 <= slot (vreg e v) < 6 /\ o <> Some (slot (vreg e v)).
Proof.
  intros He Hv H0. destruct (ao_slot o e He v Hv) as [|[H1 H2]]; [lia|]. split; [done|].
  intros ->. destruct (ao_owned _ e He _ eq_refl) as [_ H3]. lia.
Qed.

Lemma find_slot_Some p l i j h : find_slot p l i = Some (j, h) ->
  i <= j < i + Z.of_nat (length l) /\ nth (Z.to_nat (j - i)) l 0xFF = h /\ p h = true.
Proof.
  revert i. induction l as [|x l IH]; intros i H; [done|]. cbn in H. destruct (p x) eqn:E.
  - injection H as <- <-. rewrite Z.sub_diag. cbn [length]. split_and!; try done; lia.
  - destruct (IH _ H) as (H1 & H2 & H3). cbn [length]. split_and!; try done; try lia.
    replace (Z.to_nat (j - i)) with (S (Z.to_nat (j - (i + 1)))) by lia. done.
Qed.

Lemma find_slot_None p l i : find_slot p l i = None ->
  forall j, 0 <= j < Z.of_nat (length l) -> p (nth (Z.to_nat j) l 0xFF) = false.
Proof.
  revert i. induction l as [|x l IH]; intros i H j Hj; [cbn in Hj; lia|]. cbn in H.
  destruct (p x) eqn:E; [done|]. destruct (decide (j = 0)) as [->|Hn]; [done|].
  replace (Z.to_nat j) with (S (Z.to_nat (j - 1))) by lia. cbn. eapply IH; [done|]. cbn in Hj. lia.
Qed.

(** A slot can always be found: of six, at most two are protected. *)
Lemma some_evictable e k1 k2 : alloc_ok None e ->
  find_slot (fun h => h =? 0xFF) (hr_vreg e) 0 = None ->
  find_slot (evictable k1 k2) (hr_vreg e) 0 <> None.
Proof.
  intros He Hf Hn. pose proof (ao_hr _ _ He) as Hl.
  assert (forall s, 0 <= s < 6 -> (0 <= hr e s < 32 /\ slot (vreg e (hr e s)) = s) /\ (hr e s = k1 \/ hr e s = k2)) as Hk.
  { intros s Hs. pose proof (find_slot_None _ _ _ Hf s ltac:(lia)) as H1.
    pose proof (find_slot_None _ _ _ Hn s ltac:(lia)) as H2. fold (hr e s) in H1, H2.
    cbv beta in H1. apply Z.eqb_neq in H1.
    destruct (ao_hreg _ _ He s Hs) as [H|[[H _]|H]]; [lia|done|]. split; [done|].
    unfold evictable in H2. rewrite (proj2 (Z.eqb_neq _ 0xFF)), (proj2 (Z.eqb_neq _ 0xFE)),
      (proj2 (Z.ltb_lt _ 32)) in H2 by lia. cbn [negb andb] in H2.
    destruct (Z.eqb_spec (hr e s) k1), (Z.eqb_spec (hr e s) k2); try done; auto. }
  destruct (Hk 0 ltac:(lia)) as [[_ A0] [B0|B0]], (Hk 1 ltac:(lia)) as [[_ A1] [B1|B1]],
    (Hk 2 ltac:(lia)) as [[_ A2] [B2|B2]]; congruence.
Qed.

(** Side conditions of the encoder's lemmas. *)
Ltac opnd :=
  lazymatch goal with
  | |- reg_ok ?r => first [change (0 <= r < 16); lia | (split; vm_compute; congruence)]
  | |- imm_ok ?i => change (- 2 ^ 31 <= i < 2 ^ 31); rewrite ?sN_small by lia; lia
  end.

(** ** Guest registers in the host *)

Section sim.
(** [rb] is the address of [hart.GPR], [ctx] that of the context, and [x0] the
    host state when the block was entered. *)
Context (rb ctx : Z) (x0 : Host) (Hrb : 0 <= rb /\ rb + 256 <= 2 ^ 64).

(** The host registers the code must give back. *)
Definition callee_saved : list Z := [3; 4; 5; 14; 15].

Record R (e : JIT_Emitter) (g : Z -> Z) (x : Host) : Prop := {
  r_regs : xr x REG_REGS = rb;
  r_ctx : xr x REG_CTX = ctx;
  r_slot : forall v, 0 <= v < 32 -> 0 <= slot (vreg e v) -> xr x (phys (slot (vreg e v))) = g v;
  r_mem : forall v, 1 <= v < 32 -> dirty (vreg e v) = false -> ld_le 8 (xm x) (rb + 8 * v) = g v;
  r_zero : g 0 = 0;
  r_frame : forall a, ~ (rb + 8 <= a < rb + 256) -> xm x a = xm x0 a;
  r_saved : forall r, r ∈ callee_saved -> xr x r = xr x0 r;
  r_wf : hwf x }.

Lemma R_gpr o e g x v : alloc_ok o e -> R e g x -> 0 <= v < 32 -> inw 64 (g v).
Proof.
  intros He Hr Hv. destruct (decide (v = 0)) as [->|Hn]; [rewrite (r_zero _ _ _ Hr); by apply inw_0|].
  destruct (dirty (vreg e v)) eqn:E.
  - destruct (ao_dirty _ _ He v Hv E) as [_ Hs]. rewrite <- (r_slot _ _ _ Hr v Hv Hs). apply (r_wf _ _ _ Hr).
  - rewrite <- (r_mem _ _ _ Hr v ltac:(lia) E). apply (ld_le_range 8). apply (r_wf _ _ _ Hr).
Qed.

(** [R] sees of the host its registers and memory, of the emitter [vr]. *)
Lemma R_view e e' g x x' : vr e' = vr e -> xr x' = xr x -> xm x' = xm x -> R e g x -> R e' g x'.
Proof.
  intros Hv Hx Hm [A B C D E F G [H I]].
  assert (forall v, vreg e' v = vreg e v) as Hw by (intros v; unfold vreg; by rewrite Hv).
  constructor; rewrite ?Hx, ?Hm; try done; try (intros v; rewrite Hw; auto).
  split; rewrite ?Hx, ?Hm; done.
Qed.

(** The [slot] and [dirty] fields after the updates of the allocator. *)
Lemma vreg_code e c v : vreg (with_code e c) v = vreg e v.
Proof. done. Qed.

Lemma alloc_ok_view o e e' : vr e' = vr e -> hr_vreg e' = hr_vreg e -> alloc_ok o e -> alloc_ok o e'.
Proof.
  intros Hv Hh [A B C D E F].
  assert (forall v, vreg e' v = vreg e v) as Hw by (intros v; unfold vreg; by rewrite Hv).
  assert (forall s, hr e' s = hr e s) as Hs by (intros s; unfold hr; by rewrite Hh).
  constructor.
  - by rewrite Hv.
  - by rewrite Hh.
  - intros v. rewrite Hw, Hs. apply C.
  - intros s. rewrite Hs, Hw. apply D.
  - intros s. rewrite Hs. apply E.
  - intros v. rewrite Hw. apply F.
Qed.

(** The address of a guest register, as the generated code computes it. *)
Lemma gpr_addr v : 0 <= v < 32 -> u64 (rb + s32 (v * 8)) = rb + 8 * v.
Proof.
  intros Hv. rewrite sN_small by lia. rewrite uN_id; [lia|]. split; lia.
Qed.

Lemma R_store e e' g x v : alloc_ok None e -> R e g x -> 1 <= v < 32 -> 0 <= slot (vreg e v) ->
  (forall w, 0 <= w < 32 -> slot (vreg e' w) = slot (vreg e w)) ->
  (forall w, 0 <= w < 32 -> dirty (vreg e' w) = if w =? v then false else dirty (vreg e w)) ->
  R e' g (set_xm (st_le 8 (xm x) (rb + 8 * v) (g v)) x).
Proof.
  intros He Hr Hv Hs Hslot Hdirty. pose proof (R_gpr _ _ _ _ v He Hr ltac:(lia)) as Hg.
  destruct Hr as [A B C D E F G [H I]]. constructor; cbn; try done.
  - intros w Hw. rewrite Hslot by lia. apply C; lia.
  - intros w Hw. rewrite Hdirty by lia. destruct (Z.eqb_spec w v) as [->|Hn]; intros Hd.
    + rewrite ld_st_same by lia. by apply uN_id.
    + rewrite ld_st_other by lia. by apply D.
  - intros a Ha. rewrite st_le_other by lia. by apply F.
  - split; cbn; [done|]. by apply st_le_wf.
Qed.

(** The tables, apart from the dirty bit of [v]. *)
Definition flushed (v : Z) (e e' : JIT_Emitter) : Prop :=
  hr_vreg e' = hr_vreg e /\ length (vr e') = length (vr e) /\ ctx_of e' = ctx_of e /\
  (forall w, 0 <= w < 32 -> slot (vreg e' w) = slot (vreg e w)) /\
  (forall w, 0 <= w < 32 -> dirty (vreg e' w) = if w =? v then false else dirty (vreg e w)).

Lemma flushed_ok o v e e' : 0 <= v < 32 -> alloc_ok o e -> flushed v e e' -> alloc_ok o e'.
Proof.
  intros Hv [A B C D E F] (Hh & Hl & _ & Hs & Hd).
  assert (forall s, hr e' s = hr e s) as Hh' by (intros s; unfold hr; by rewrite Hh).
  constructor.
  - congruence.
  - congruence.
  - intros w Hw. rewrite Hs, Hh' by done. by apply C.
  - intros s Hs'. rewrite Hh'. destruct (D s Hs') as [|[|[? ?]]]; auto. right; right. split; [done|].
    by rewrite Hs.
  - intros s. rewrite Hh'. apply E.
  - intros w Hw. rewrite Hs, Hd by done. destruct (w =? v); [done|]. by apply F.
Qed.

Lemma set_dirty_flushed v e : length (vr e) = 32%nat -> 0 <= v < 32 ->
  flushed v e (put_vreg v (mkVReg (slot (vreg e v)) false) e).
Proof.
  intros Hl Hv. repeat split.
  - cbn. by rewrite length_insert.
  - intros w Hw. rewrite vreg_put by done. by destruct (Z.eqb_spec w v) as [->|].
  - intros w Hw. rewrite vreg_put by done. by destruct (Z.eqb_spec w v) as [->|].
Qed.

Lemma gen_flush_guest v e g QM : alloc_ok None e -> 0 <= v < 32 ->
  GEN e (flush_guest v) 8 (R e g) (fun _ e' hs => hs = [] /\ flushed v e e')
    (fun _ e' x => R e' g x) QM.
Proof.
  intros He Hv.
  apply (gen_step e e _ (if (0 <=? slot (vreg e v)) && dirty (vreg e v)
    then emit (mov_rm REG_REGS (s32 (v * 8)) (phys (slot (vreg e v)))) ;; set_dirty v false
    else mret tt)); [done|done|].
  destruct ((0 <=? slot (vreg e v)) && dirty (vreg e v)) eqn:E.
  2:{ eapply gen_weaken; [by apply (gen_ret e tt (R e g) (fun _ e' hs => hs = [] /\ e' = e) (fun _ e' x => R e' g x) QM)
        |lia|done| |done|done].
      intros _ e' hs [-> ->]. split; [done|]. repeat split. intros w Hw.
      destruct (Z.eqb_spec w v) as [->|]; [|done]. destruct (dirty (vreg e v)) eqn:Ed; [|done].
      destruct (ao_dirty _ _ He v Hv Ed). rewrite (proj2 (Z.leb_le _ _)) in E by lia. done. }
  bool_hyps. destruct (ao_dirty _ _ He v Hv ltac:(done)) as [Hv1 Hs].
  pose proof (slot_range _ _ _ He Hv Hs) as [Hr _]. pose proof (phys_range _ Hr) as Hp.
  eapply (gen_str_bind _ _ _ 8 0); [apply str_emit, enc_mov_rm; opnd|done|lia|lia| |].
  { intros x Hx. by eexists. }
  intros c. eapply gen_pure; [reflexivity|done| |].
  - split; [done|]. pose proof (set_dirty_flushed v (with_code e c) (ao_vr _ _ He) Hv) as (A & B & C & D & F).
    repeat split; done.
  - intros y (x & x' & q & Hx & [= <-] & ->).
    pose proof (set_dirty_flushed v e (ao_vr _ _ He) Hv) as (_ & _ & _ & D & F).
    eapply (R_view (put_vreg v (mkVReg (slot (vreg e v)) false) e) _ _
      (set_xm (st_le 8 (xm x) (rb + 8 * v) (g v)) x)); [done|done| |apply (R_store e); try done; lia].
    cbn. rewrite (r_regs _ _ _ Hx), gpr_addr by lia. f_equal.
    rewrite (r_slot _ _ _ Hx) by done. apply (uN_id 64). by eapply R_gpr.
Qed.

(** What [free_slot] does to the tables: [s] is taken, nothing moves, and a
    register that loses its slot was not protected. *)
Definition slot_taken (k1 k2 s : Z) (e e' : JIT_Emitter) : Prop :=
  0 <= s < 6 /\ alloc_ok (Some s) e' /\ ctx_of e' = ctx_of e /\
  forall v, 0 <= v < 32 ->
    (slot (vreg e' v) = slot (vreg e v) \/ (slot (vreg e' v) = -1 /\ v <> k1 /\ v <> k2)).

Lemma take_free_ok e i : alloc_ok None e -> 0 <= i < 6 -> hr e i = 0xFF ->
  alloc_ok (Some i) (set_hr_vreg (<[Z.to_nat i := 0xFE]> (hr_vreg e)) e).
Proof.
  intros [A B C D E F] Hi Hh. constructor; try done.
  - cbn. by rewrite length_insert.
  - intros v Hv. change (vreg (set_hr_vreg _ e) v) with (vreg e v).
    destruct (C v Hv) as [|[H1 H2]]; [auto|right]. split; [done|]. rewrite hr_set by done.
    destruct (Z.eqb_spec (slot (vreg e v)) i) as [Ei|]; [|done]. rewrite Ei in H2. lia.
  - intros s Hs. rewrite hr_set by done. destruct (Z.eqb_spec s i) as [->|]; [auto|].
    destruct (D s Hs) as [|[[? ?]|]]; auto. done.
  - intros s [= <-]. rewrite hr_set by done. by rewrite Z.eqb_refl.
Qed.

Lemma take_slot_ok e i h : alloc_ok None e -> 0 <= i < 6 -> hr e i = h -> 0 <= h < 32 ->
  dirty (vreg e h) = false ->
  let e' := set_hr_vreg (<[Z.to_nat i := 0xFE]> (hr_vreg e)) (put_vreg h (mkVReg (-1) false) e) in
  alloc_ok (Some i) e' /\
  (forall v, 0 <= v < 32 -> vreg e' v = if v =? h then mkVReg (-1) false else vreg e v).
Proof.
  intros He Hi Hh Hr Hd e'. pose proof He as [A B C D E F].
  assert (slot (vreg e h) = i) as Hs by (destruct (D i Hi) as [|[[? ?]|[? ?]]]; [lia|done|congruence]).
  assert (forall v, 0 <= v < 32 -> vreg e' v = if v =? h then mkVReg (-1) false else vreg e v) as Hv
    by (intros v Hv; by apply vreg_put).
  assert (forall s, 0 <= s < 6 -> hr e' s = if s =? i then 0xFE else hr e s) as Hhr
    by (intros s Hs'; by apply (hr_set (put_vreg h (mkVReg (-1) false) e))).
  split; [|done]. constructor.
  - cbn. by rewrite length_insert.
  - cbn. by rewrite length_insert.
  - intros v Hv'. rewrite Hv by done. destruct (Z.eqb_spec v h) as [->|Hn]; [by left|].
    destruct (C v Hv') as [|[H1 H2]]; [auto|right]. split; [done|]. rewrite Hhr by done.
    destruct (Z.eqb_spec (slot (vreg e v)) i) as [Ei|]; [|done]. rewrite Ei in H2. congruence.
  - intros s Hs'. rewrite Hhr by done. destruct (Z.eqb_spec s i) as [->|Hn]; [auto|].
    destruct (D s Hs') as [|[[? ?]|[H1 H2]]]; auto; [done|]. right; right. split; [done|].
    rewrite Hv by done. destruct (Z.eqb_spec (hr e s) h) as [Eh|]; [|done]. rewrite Eh in H2. lia.
  - intros s [= <-]. rewrite Hhr, Z.eqb_refl by done. done.
  - intros v Hv'. rewrite Hv by done. destruct (v =? h); [done|]. by apply F.
Qed.

(** A register that is not dirty may leave its slot. *)
Lemma R_evict e e' h g x : 0 <= h < 32 -> dirty (vreg e h) = false ->
  (forall v, 0 <= v < 32 -> vreg e' v = if v =? h then mkVReg (-1) false else vreg e v) ->
  R e g x -> R e' g x.
Proof.
  intros Hh Hd Hv [A B C D E F G H]. constructor; try done.
  - intros v Hv'. rewrite Hv by done. destruct (v =? h); [done|]. by apply C.
  - intros v Hv'. rewrite Hv by lia. destruct (Z.eqb_spec v h) as [->|]; intros; by apply D.
Qed.

Lemma evictable_spec k1 k2 h : evictable k1 k2 h = true -> h < 32 /\ h <> k1 /\ h <> k2 /\ h <> 0xFE.
Proof. unfold evictable. intros. bool_hyps. lia. Qed.

Lemma gen_free_slot k1 k2 e g QM : alloc_ok None e ->
  GEN e (free_slot k1 k2) 8 (R e g) (fun s e' hs => hs = [] /\ slot_taken k1 k2 s e e')
    (fun _ e' x => R e' g x) QM.
Proof.
  intros He. pose proof (ao_hr _ _ He) as Hl.
  assert (forall p i h, find_slot p (hr_vreg e) 0 = Some (i, h) -> 0 <= i < 6 /\ hr e i = h /\ p h = true) as Hf.
  { intros p i h H. destruct (find_slot_Some _ _ _ _ _ H) as (H1 & H2 & H3). rewrite Z.sub_0_r in H2.
    split_and!; try done; lia. }
  assert (forall i h e1, 0 <= i < 6 -> hr e i = h -> h <> 0xFF -> alloc_ok None e1 -> hr_vreg e1 = hr_vreg e ->
    h <> k1 -> h <> k2 -> ctx_of e1 = ctx_of e -> dirty (vreg e1 h) = false ->
    (forall w, 0 <= w < 32 -> slot (vreg e1 w) = slot (vreg e w)) ->
    GEN e1 (take_slot i h) 0 (R e1 g) (fun s e' hs => hs = [] /\ slot_taken k1 k2 s e e')
      (fun _ e' x => R e' g x) QM) as Htake.
  { intros i h e1 Hi Hh Hne He1 Hhr N1 N2 Hc Hd Hs.
    assert (hr e1 i = h) as Hh1 by (unfold hr; rewrite Hhr; exact Hh).
    assert (0 <= h < 32) as Hr.
    { destruct (ao_hreg _ _ He i Hi) as [|[[? _]|[? _]]]; [congruence|done|lia]. }
    destruct (take_slot_ok e1 i h He1 Hi Hh1 Hr Hd) as [Hok Hv]. cbv zeta in Hok, Hv.
    eapply gen_pure; [unfold take_slot, set_slot, set_hr; cbv [mbind ST_bind modify mret ST_ret]; rewrite Hd; reflexivity|done| |].
    - split; [done|]. split_and!; try done; try lia. intros w Hw. rewrite Hv by done.
      destruct (Z.eqb_spec w h) as [->|]; [by right|left; by apply Hs].
    - intros x Hx. by eapply R_evict. }
  unfold free_slot.
  destruct (find_slot (fun h => h =? 0xFF) (hr_vreg e) 0) as [[i h]|] eqn:E1.
  { destruct (Hf _ _ _ E1) as (Hi & Hh & Hp). apply Z.eqb_eq in Hp. subst h.
    apply (gen_step e e _ (set_hr i 0xFE ;; mret i)); [done|by rewrite E1|].
    eapply (gen_le _ _ 0); [|lia]. eapply gen_pure; [reflexivity|done| |].
    - split; [done|]. split_and!; try done; try lia; [by apply take_free_ok|]. by left.
    - intros x Hx. by apply (R_view e _ g x x). }
  destruct (find_slot (fun h => evictable k1 k2 h && negb (dirty (vreg e h))) (hr_vreg e) 0)
    as [[i h]|] eqn:E2.
  { destruct (Hf _ _ _ E2) as (Hi & Hh & Hp). bool_hyps.
    destruct (evictable_spec k1 k2 h ltac:(done)) as (? & ? & ? & ?).
    apply (gen_step e e _ (take_slot i h)); [done|by rewrite E1, E2|].
    eapply (gen_le _ _ 0); [|lia]. apply Htake; try done. lia. }
  destruct (find_slot (evictable k1 k2) (hr_vreg e) 0) as [[i h]|] eqn:E3.
  2:{ by destruct (some_evictable e k1 k2 He E1). }
  destruct (Hf _ _ _ E3) as (Hi & Hh & Hp).
  destruct (evictable_spec k1 k2 h ltac:(done)) as (? & ? & ? & ?).
  apply (gen_step e e _ (flush_guest h ;; take_slot i h)); [done|by rewrite E1, E2, E3|].
  assert (0 <= h < 32) as Hr.
  { destruct (ao_hreg _ _ He i Hi) as [|[[? _]|[? _]]]; [lia|done|lia]. }
  eapply (gen_bind _ _ _ 8 0); [lia|by apply gen_flush_guest|].
  intros [] e1 hs1 [-> Hfl]. pose proof (flushed_ok _ _ _ _ Hr He Hfl) as He1.
  destruct Hfl as (Hhr & _ & Hc & Hs & Hd).
  apply Htake; try done; [lia|]. rewrite Hd, Z.eqb_refl; done.
Qed.

(** A protected register that has a slot keeps it. *)
Definition kept (k : Z) (e e' : JIT_Emitter) : Prop :=
  0 <= k < 32 -> 0 <= slot (vreg e k) -> slot (vreg e' k) = slot (vreg e k).

(** [v] has a slot, whose host register is [p]. *)
Definition has_reg (v p : Z) (e : JIT_Emitter) : Prop :=
  0 <= slot (vreg e v) /\ p = phys (slot (vreg e v)).

Lemma has_reg_range o v p e : alloc_ok o e -> 0 <= v < 32 -> has_reg v p e -> 6 <= p <= 11.
Proof.
  intros He Hv [Hs ->]. apply phys_range. by eapply slot_range.
Qed.

Lemma has_reg_kept v p e e' : 0 <= v < 32 -> kept v e e' -> has_reg v p e -> has_reg v p e'.
Proof. intros Hv Hk [Hs ->]. unfold has_reg. by rewrite Hk. Qed.

(** Slot [s], taken before, given to [v]. *)
Definition give (v s : Z) (e : JIT_Emitter) : JIT_Emitter :=
  let e1 := set_hr_vreg (<[Z.to_nat s := u8 v]> (hr_vreg e)) e in
  put_vreg v (mkVReg s (dirty (vreg e1 v))) e1.

Lemma give_ok e v s : alloc_ok (Some s) e -> 0 <= v < 32 -> slot (vreg e v) = -1 ->
  alloc_ok None (give v s e) /\
  (forall w, 0 <= w < 32 -> vreg (give v s e) w = if w =? v then mkVReg s false else vreg e w).
Proof.
  intros He Hv Hs. pose proof He as [A B C D E F]. destruct (E s eq_refl) as [Hs6 Hfe].
  assert (dirty (vreg e v) = false) as Hd.
  { destruct (dirty (vreg e v)) eqn:Ed; [|done]. destruct (F v Hv Ed). lia. }
  assert (u8 v = v) as Hu by (apply (uN_id 8); split; lia).
  assert (forall w, 0 <= w < 32 -> vreg (give v s e) w = if w =? v then mkVReg s false else vreg e w) as Hw.
  { intros w Hw. unfold give. rewrite vreg_put by done. change (vreg (set_hr_vreg _ e)) with (vreg e).
    by rewrite Hd. }
  assert (forall t, 0 <= t < 6 -> hr (give v s e) t = if t =? s then v else hr e t) as Hh.
  { intros t Ht. unfold give. cbv zeta. rewrite Hu. by apply (hr_set e). }
  split; [|done]. constructor; try done.
  - unfold give. cbn. by rewrite length_insert.
  - unfold give. cbn. by rewrite length_insert.
  - intros w Hw'. rewrite Hw by done. destruct (Z.eqb_spec w v) as [->|Hn].
    + right. cbn [slot]. rewrite Hh, Z.eqb_refl by done. done.
    + destruct (C w Hw') as [|[H1 H2]]; [auto|right]. split; [done|]. rewrite Hh by done.
      destruct (Z.eqb_spec (slot (vreg e w)) s) as [Es|]; [|done]. rewrite Es in H2. lia.
  - intros t Ht. rewrite Hh by done. destruct (Z.eqb_spec t s) as [->|Hn].
    + right; right. split; [done|]. by rewrite Hw, Z.eqb_refl.
    + destruct (D t Ht) as [|[[[= ?] ?]|[H1 H2]]]; auto; [congruence|]. right; right. split; [done|].
      rewrite Hw by done. destruct (Z.eqb_spec (hr e t) v) as [Eh|]; [|done]. rewrite Eh in H2. lia.
  - intros w Hw'. rewrite Hw by done. destruct (w =? v); [done|]. by apply F.
Qed.

(** The register [p] of [v] loaded with [g v]. *)
Lemma R_give e v s g x x' : alloc_ok (Some s) e -> 0 <= v < 32 -> slot (vreg e v) = -1 ->
  R e g x -> xr x' = upd (xr x) (phys s) (g v) -> xm x' = xm x -> R (give v s e) g x'.
Proof.
  intros He Hv Hs Hr Hx Hm. destruct (give_ok e v s He Hv Hs) as [_ Hw].
  destruct (ao_owned _ _ He s eq_refl) as [Hs6 _]. pose proof (phys_range s Hs6) as Hp.
  pose proof (R_gpr _ _ _ _ v He Hr Hv) as Hg.
  destruct Hr as [A B C D E F G [H I]].
  constructor; rewrite ?Hx, ?Hm; try done.
  - by rewrite upd_ne by (unfold REG_REGS, REG_R13; lia).
  - by rewrite upd_ne by (unfold REG_CTX, REG_R12; lia).
  - intros w Hw'. rewrite Hw by done. destruct (Z.eqb_spec w v) as [->|Hn]; cbn [slot]; intros H0.
    + by rewrite upd_eq.
    + rewrite upd_ne; [by apply C|]. intros Heq. destruct (slot_range _ _ _ He Hw' H0) as [Hsr Hns].
      apply Hns. f_equal. symmetry. by apply phys_inj.
  - intros w Hw'. rewrite Hw by lia. destruct (Z.eqb_spec w v) as [->|Hn]; [|by apply D].
    intros _. apply D; [done|]. destruct (dirty (vreg e v)) eqn:Ed; [|done].
    destruct (ao_dirty _ _ He v Hv Ed). lia.
  - intros r Hr'. rewrite upd_ne; [by apply G|]. unfold callee_saved in Hr'. set_solver by lia.
  - split; rewrite ?Hx, ?Hm; [|done]. intros r. unfold upd. by destruct (_ =? _).
Qed.

Lemma u8_reg v : 0 <= v < 32 -> u8 v = v.
Proof. intros. apply (uN_id 8). split; lia. Qed.

Lemma gen_read v keep e g QM : alloc_ok None e -> 0 <= v < 32 ->
  GEN e (hreg_for_read v keep) 16 (R e g)
    (fun p e' hs => hs = [] /\ alloc_ok None e' /\ ctx_of e' = ctx_of e /\ has_reg v p e' /\ kept keep e e')
    (fun _ e' x => R e' g x) QM.
Proof.
  intros He Hv. destruct (Z.leb_spec 0 (slot (vreg e v))) as [H0|H0].
  { eapply (gen_le _ _ 0); [|lia]. eapply gen_pure; [|done| |intros x Hx; exact Hx].
    - unfold hreg_for_read. cbv [mbind ST_bind gets]. rewrite (proj2 (Z.leb_le _ _)) by done. reflexivity.
    - split_and!; try done. }
  assert (slot (vreg e v) = -1) as Hs1 by (destruct (ao_slot _ _ He v Hv); lia).
  eapply (gen_step e e _ (s ← free_slot keep KEEP_NONE; let p := phys s in
    set_hr s (u8 v) ;; set_slot v s ;;
    (if v =? 0 then emit (xor_rr p p) else emit (mov_mr p REG_REGS (s32 (v * 8)))) ;; mret p)); [done| |].
  { unfold hreg_for_read. cbv [mbind ST_bind gets]. by rewrite (proj2 (Z.leb_gt _ _)) by done. }
  eapply (gen_bind _ _ _ 8 8); [lia|by apply gen_free_slot|].
  intros s e1 hs1 [-> (Hs & He1 & Hc & Hk)].
  assert (slot (vreg e1 v) = -1) as Hs2 by (destruct (Hk v Hv) as [|[? _]]; lia).
  destruct (give_ok e1 v s He1 Hv Hs2) as [Hok Hw]. pose proof (phys_range s Hs) as Hp.
  eapply (gen_step _ (give v s e1) _ ((if v =? 0 then emit (xor_rr (phys s) (phys s))
    else emit (mov_mr (phys s) REG_REGS (s32 (v * 8)))) ;; mret (phys s))); [done|done|].
  assert (forall c, let e2 := with_code (give v s e1) c in
    alloc_ok None e2 /\ ctx_of e2 = ctx_of e /\ has_reg v (phys s) e2 /\ kept keep e e2) as HE.
  { intros c e2. split_and!; [by apply (alloc_ok_view None (give v s e1))|exact Hc| |].
    - unfold has_reg, e2. rewrite vreg_code, Hw, Z.eqb_refl by done. split; [cbn [slot]; lia|done].
    - intros Hk0 Hks. unfold e2. rewrite vreg_code, Hw by done. destruct (Z.eqb_spec keep v) as [->|]; [lia|].
      destruct (Hk keep Hk0) as [|(_ & Hn & _)]; [done|congruence]. }
  assert (STR (if v =? 0 then emit (xor_rr (phys s) (phys s)) else emit (mov_mr (phys s) REG_REGS (s32 (v * 8))))
    8 [if v =? 0 then Ialu_store B64 Xxor (Oreg (phys s)) (phys s)
       else Imov_load B64 (phys s) (Omem REG_REGS (s32 (v * 8)))]) as Hstr.
  { destruct (v =? 0).
    - eapply str_weaken; [apply str_emit, (enc_arith_rr64 _ _ Xxor); opnd|lia].
    - apply str_emit, enc_mov_mr; opnd. }
  eapply (gen_str_bind _ _ _ 8 0); [exact Hstr|by destruct (v =? 0)|lia|lia| |].
  { intros x Hx. destruct (v =? 0); by eexists. }
  intros c. eapply gen_ret; [split; [done|apply (HE c)]|].
  intros y (x & x' & q & Hx & Hrun & ->).
  eapply (R_view (give v s e1) _ _ x'); [done..|].
  eapply (R_give e1); try done.
  - destruct (Z.eqb_spec v 0) as [->|Hn]; injection Hrun as <-; cbn.
    + rewrite Z.lxor_nilpotent. by rewrite (r_zero _ _ _ Hx).
    + rewrite (r_regs _ _ _ Hx), gpr_addr by lia.
      rewrite (r_mem _ _ _ Hx); [|lia|].
      2:{ destruct (dirty (vreg e1 v)) eqn:Ed; [|done]. destruct (ao_dirty _ _ He1 v Hv Ed). lia. }
      f_equal. apply (uN_id 64). by apply (R_gpr (Some s) e1 g x).
  - destruct (v =? 0); injection Hrun as <-; done.
Qed.

(** The state once [v] has a register to be written: as [R] but for the value
    in that register. *)
Definition Rw (v : Z) (e : JIT_Emitter) (g : Z -> Z) (x : Host) : Prop :=
  let p := phys (slot (vreg e v)) in R e g (set_xr p (g v) x) /\ inw 64 (xr x p).

Lemma gen_write v k1 k2 e g QM : alloc_ok None e -> 0 <= v < 32 ->
  GEN e (hreg_for_write v k1 k2) 8 (R e g)
    (fun p e' hs => hs = [] /\ alloc_ok None e' /\ ctx_of e' = ctx_of e /\ has_reg v p e' /\
       kept k1 e e' /\ kept k2 e e' /\ kept v e e')
    (fun _ e' x => Rw v e' g x /\ (0 <= slot (vreg e v) -> R e' g x)) QM.
Proof.
  intros He Hv. destruct (Z.leb_spec 0 (slot (vreg e v))) as [H0|H0].
  { eapply (gen_le _ _ 0); [|lia]. eapply gen_pure; [|done| |].
    - unfold hreg_for_write. cbv [mbind ST_bind gets]. rewrite (proj2 (Z.leb_le _ _)) by done. reflexivity.
    - split_and!; done.
    - intros x Hx. split; [|done]. split; [|apply (r_wf _ _ _ Hx)].
      pose proof (r_slot _ _ _ Hx v Hv H0) as Hxv. destruct Hx as [A B C D E F G [H I]].
      assert (forall r, upd (xr x) (phys (slot (vreg e v))) (g v) r = xr x r) as Hu.
      { intros r. unfold upd. destruct (Z.eqb_spec r (phys (slot (vreg e v)))) as [->|]; done. }
      constructor; cbn; intros; rewrite ?Hu; auto. split; cbn; intros; rewrite ?Hu; auto. }
  assert (slot (vreg e v) = -1) as Hs1 by (destruct (ao_slot _ _ He v Hv); lia).
  eapply (gen_step e e _ (s ← free_slot k1 k2; set_hr s (u8 v) ;; set_slot v s ;; mret (phys s))); [done| |].
  { unfold hreg_for_write. cbv [mbind ST_bind gets]. by rewrite (proj2 (Z.leb_gt _ _)) by done. }
  eapply (gen_bind _ _ _ 8 0); [lia|by apply gen_free_slot|].
  intros s e1 hs1 [-> (Hs & He1 & Hc & Hk)].
  assert (slot (vreg e1 v) = -1) as Hs2 by (destruct (Hk v Hv) as [|[? _]]; lia).
  destruct (give_ok e1 v s He1 Hv Hs2) as [Hok Hw].
  assert (vreg (give v s e1) v = mkVReg s false) as Hwv by (by rewrite Hw, Z.eqb_refl).
  eapply (gen_pure _ _ (phys s) (give v s e1)); [done|done| |].
  - split; [done|]. split_and!; [done|done| | | |intros _ ?; lia].
    + unfold has_reg. rewrite Hwv. split; [cbn [slot]; lia|done].
    + intros Hk0 Hks. rewrite Hw by done. destruct (Z.eqb_spec k1 v) as [->|]; [lia|].
      destruct (Hk k1 Hk0) as [|(_ & Hn & _)]; [done|congruence].
    + intros Hk0 Hks. rewrite Hw by done. destruct (Z.eqb_spec k2 v) as [->|]; [lia|].
      destruct (Hk k2 Hk0) as [|(_ & _ & Hn)]; [done|congruence].
  - intros x Hx. split; [|lia]. unfold Rw. rewrite Hwv. split; [|apply (r_wf _ _ _ Hx)].
    by eapply (R_give e1).
Qed.

(** The registers that code for an instruction may change besides its result. *)
Definition scratch (r : Z) : Prop := r = REG_RAX \/ r = REG_RCX \/ r = REG_RDX.

(** [x'] differs from [x] in [D] and the scratch registers. *)
Definition only (D : Z) (x x' : Host) : Prop :=
  xm x' = xm x /\ (forall r, r <> D -> ~ scratch r -> xr x' r = xr x r) /\
  (hwf x -> hwf x').

Lemma has_reg_ne v w p q e o : alloc_ok o e -> 0 <= v < 32 -> 0 <= w < 32 -> v <> w ->
  has_reg v p e -> has_reg w q e -> p <> q.
Proof.
  intros He Hv Hw Hn [Hs1 ->] [Hs2 ->] Heq. apply Hn. eapply vreg_slot_inj; try done.
  apply phys_inj; [by eapply slot_range..|done].
Qed.

Lemma Rw_reg v w p e g x : alloc_ok None e -> 0 <= v < 32 -> 0 <= w < 32 -> w <> v ->
  has_reg v (phys (slot (vreg e v))) e -> has_reg w p e -> Rw v e g x -> xr x p = g w.
Proof.
  intros He Hv Hw Hn Hhv Hhw [Hr _]. pose proof (has_reg_ne w v p _ e None He Hw Hv Hn Hhw Hhv) as Hne.
  destruct Hhw as [Hs ->]. rewrite <- (r_slot _ _ _ Hr w Hw Hs). cbn. by rewrite upd_ne.
Qed.

Lemma Rw_hwf v e g x : Rw v e g x -> hwf x.
Proof.
  intros [Hr Hp]. destruct (r_wf _ _ _ Hr) as [H I]. split; [|done]. intros r.
  specialize (H r). cbn in H. unfold upd in H.
  destruct (Z.eqb_spec r (phys (slot (vreg e v)))) as [E|]; [by rewrite E|done].
Qed.

(** The result written and the register marked dirty. *)
Lemma R_write v e g x x' val : alloc_ok None e -> 1 <= v < 32 -> 0 <= slot (vreg e v) ->
  Rw v e g x -> only (phys (slot (vreg e v))) x x' -> xr x' (phys (slot (vreg e v))) = val ->
  R (put_vreg v (mkVReg (slot (vreg e v)) true) e) (upd g v val) x'.
Proof.
  intros He Hv Hs Hrw (Hm & Hr & Hwf) Hval. pose proof (Rw_hwf _ _ _ _ Hrw) as Hx.
  destruct Hrw as [[A B C D E F G H] _]. cbn in A, B, C, D, F, G.
  set (p := phys (slot (vreg e v))) in *.
  assert (6 <= p <= 11) as Hp by (apply phys_range; by eapply slot_range; [done|lia|]).
  assert (forall w, 0 <= w < 32 -> vreg (put_vreg v (mkVReg (slot (vreg e v)) true) e) w =
    if w =? v then mkVReg (slot (vreg e v)) true else vreg e w) as Hw.
  { intros w Hw. apply vreg_put; [apply He|lia|done]. }
  assert (forall r, 11 < r \/ 2 < r < 6 -> xr x' r = xr x r) as Hfix.
  { intros r Hr'. apply Hr; [lia|]. unfold scratch, REG_RAX, REG_RCX, REG_RDX. lia. }
  constructor.
  - rewrite Hfix by (unfold REG_REGS, REG_R13; lia). by rewrite upd_ne in A by (unfold REG_REGS, REG_R13; lia).
  - rewrite Hfix by (unfold REG_CTX, REG_R12; lia). by rewrite upd_ne in B by (unfold REG_CTX, REG_R12; lia).
  - intros w Hw'. rewrite Hw by done. destruct (Z.eqb_spec w v) as [->|Hn]; cbn [slot]; intros H0.
    + by rewrite upd_eq.
    + rewrite upd_ne by done. specialize (C w Hw' H0).
      assert (phys (slot (vreg e w)) <> p) as Hne.
      { apply (has_reg_ne w v _ _ e None); try done; lia. }
      rewrite upd_ne in C by done. rewrite Hr; [done|done|].
      pose proof (phys_range _ (proj1 (slot_range _ _ _ He Hw' H0))).
      unfold scratch, REG_RAX, REG_RCX, REG_RDX. lia.
  - intros w Hw'. rewrite Hw by lia. destruct (Z.eqb_spec w v) as [->|Hn]; [done|].
    intros Hd. rewrite Hm, upd_ne by done. by apply D.
  - rewrite upd_ne by lia. done.
  - intros a Ha. rewrite Hm. by apply F.
  - intros r Hr'. assert (2 < r < 6 \/ 11 < r) by (unfold callee_saved in Hr'; set_solver by lia).
    rewrite Hfix by lia. specialize (G r Hr'). by rewrite upd_ne in G by lia.
  - auto.
Qed.

Lemma mark_ok o v e d : alloc_ok o e -> 1 <= v < 32 -> 0 <= slot (vreg e v) ->
  alloc_ok o (put_vreg v (mkVReg (slot (vreg e v)) d) e).
Proof.
  intros [A B C D E F] Hv Hs.
  assert (forall w, 0 <= w < 32 -> vreg (put_vreg v (mkVReg (slot (vreg e v)) d) e) w =
    if w =? v then mkVReg (slot (vreg e v)) d else vreg e w) as Hw by (intros; apply vreg_put; done || lia).
  assert (forall w, 0 <= w < 32 -> slot (vreg (put_vreg v (mkVReg (slot (vreg e v)) d) e) w) = slot (vreg e w)) as Hsl.
  { intros w Hw'. rewrite Hw by done. by destruct (Z.eqb_spec w v) as [->|]. }
  constructor; try done.
  - cbn. by rewrite length_insert.
  - intros w Hw'. rewrite Hsl by done. by apply C.
  - intros s Hs'. destruct (D s Hs') as [|[|[H1 H2]]]; auto. right; right. split; [done|].
    by rewrite Hsl.
  - intros w Hw'. rewrite Hw by done. destruct (Z.eqb_spec w v) as [->|]; [cbn [slot]; lia|by apply F].
Qed.
End sim.
