(* ===== verification/JitSim.v ===== *)
(** * Code of the arithmetic instructions does what the interpreter does

    [xrun_frame], [xrun_wf]: what straight-line code may change. [r_body_ok],
    [i_body_ok], [m_body_ok]: the value each emitted sequence leaves in its
    destination is the one of the operation [op_X] of the interpreter, for
    every choice of host registers, aliased or not. *)

From S2P Require Import Prelude Decode State Rv64i Rv64m X86 X86Enc X86Code JitEmit JitAlu JitGen JitAlloc.
Import x86.

(** ** What straight-line code changes *)

(** The registers an instruction writes, and whether it writes memory. *)
Definition dest (o : operand) : list Z := match o with Oreg r => [r] | _ => [] end.
Definition to_mem (o : operand) : bool := match o with Oreg _ => false | _ => true end.

Definition writes (i : xinstr) : list Z :=
  match i with
  | Imov_store _ o _ | Imov_imm _ o _ | Ishift _ _ o _ | Ishift_cl _ _ o | Isetcc _ o => dest o
  | Ialu_store _ op o _ | Ialu_imm _ op o _ => match op with Xcmp => [] | _ => dest o end
  | Ialu_load _ op r _ => match op with Xcmp => [] | _ => [r] end
  | Imov_load _ r _ | Imov_abs r _ | Ilea r _ | Imovzx _ _ r _ | Imovsx _ r _ | Iimul _ r _
  | Iimul_imm _ r _ _ => [r]
  | Iunary _ op o => match op with Xneg => dest o | _ => [0; 2] end
  | Iextend _ => [2]
  | Ipush _ => [4] | Ipop r => [4; r]
  | _ => []
  end.

Definition stores (i : xinstr) : bool :=
  match i with
  | Imov_store _ o _ | Imov_imm _ o _ | Ishift _ _ o _ | Ishift_cl _ _ o | Isetcc _ o => to_mem o
  | Ialu_store _ op o _ | Ialu_imm _ op o _ => match op with Xcmp => false | _ => to_mem o end
  | Iunary _ op o => match op with Xneg => to_mem o | _ => false end
  | Ipush _ => true
  | _ => false
  end.

Lemma put_op_frame k w o v x r : r ∉ dest o -> xr (put_op k w o v x) r = xr x r.
Proof.
  destruct o; [|done..]. intros Hr. cbn. apply upd_ne. intros ->. apply Hr. by left.
Qed.

Lemma put_op_mem k w o v x : to_mem o = false -> xm (put_op k w o v x) = xm x.
Proof. by destruct o. Qed.

Lemma alu_to_frame k w op o b x :
  (forall r, r ∉ (match op with Xcmp => [] | _ => dest o end) -> xr (alu_to k w op o b x) r = xr x r) /\
  ((match op with Xcmp => false | _ => to_mem o end) = false -> xm (alu_to k w op o b x) = xm x).
Proof.
  unfold alu_to. destruct (alu_op w op (get_op k w o x) b).
  destruct op; cbn; split; intros; rewrite ?put_op_frame, ?put_op_mem by done; done.
Qed.

Lemma shift_to_frame k w op o c x :
  (forall r, r ∉ dest o -> xr (shift_to k w op o c x) r = xr x r) /\
  (to_mem o = false -> xm (shift_to k w op o c x) = xm x).
Proof.
  unfold shift_to. split; intros; destruct (_ =? 0); cbn; by rewrite ?put_op_frame, ?put_op_mem.
Qed.

Lemma put_pair_frame w lo hi x :
  (forall r, r ∉ [0; 2] -> xr (put_pair w lo hi x) r = xr x r) /\ xm (put_pair w lo hi x) = xm x.
Proof.
  split; [|done]. intros r Hr. rewrite not_elem_of_cons, list_elem_of_singleton in Hr.
  cbn. by rewrite !upd_ne by tauto.
Qed.

Ltac head_none H :=
  repeat match type of H with (if ?b then None else _) = _ => destruct b; [discriminate H|] end.

Lemma unary_frame k w op o x x' : unary k w op o x = Some x' ->
  (forall r, r ∉ (match op with Xneg => dest o | _ => [0; 2] end) -> xr x' r = xr x r) /\
  ((match op with Xneg => to_mem o | _ => false end) = false -> xm x' = xm x).
Proof.
  unfold unary. intros H.
  destruct op; head_none H; injection H as <-;
    try (split; intros; cbn; rewrite ?put_op_frame, ?put_op_mem by done; done);
    by split; intros; apply put_pair_frame.
Qed.

Ltac notin H := intros ->; apply H; set_solver.

Lemma xeval_frame i x x' : plain i = true -> xeval i x = Some x' ->
  (forall r, r ∉ writes i -> xr x' r = xr x r) /\ (stores i = false -> xm x' = xm x).
Proof.
  unfold xeval. intros Hp H. destruct i; try done; cbn [exec_at writes stores] in *;
    try (by eapply unary_frame); try (injection H as <-);
    try apply alu_to_frame; try apply shift_to_frame;
    try (split; [intros r0 Hr0|intros Hs];
         first [done | by rewrite put_op_frame | by apply put_op_mem
               | cbn; apply upd_ne; notin Hr0
               | cbn; rewrite !upd_ne by notin Hr0; done]; fail).
  { destruct (alu_to_frame 0 w op (Oreg r) (get_op 0 w s x) x) as [F M]. split; [exact F|].
    intros _. apply M. by destruct op. }
  destruct (cond cc (xf x)); [|done]. cbn in H. injection H as <-.
  split; [intros r0 Hr0; by rewrite put_op_frame|by apply put_op_mem].
Qed.

(** ** The types of the host state *)

Lemma put_reg_wf w r v x : hwf x -> hwf (put_reg w r v x).
Proof.
  intros [H I]. split; [|done]. intros r'. cbn. unfold upd. destruct (r' =? r); [|apply H].
  destruct w; [apply bf_set_inw; cbn; try lia; apply H..| |by apply uN_inw].
  apply (inw_mono 32); [lia|by apply uN_inw].
Qed.

Lemma put_op_wf k w o v x : hwf x -> hwf (put_op k w o v x).
Proof.
  intros Hx. destruct o; [by apply put_reg_wf|..]; destruct Hx; (split; [done|]); by apply st_le_wf.
Qed.

Lemma set_xf_wf f x : hwf x -> hwf (set_xf f x).
Proof. by intros [H I]. Qed.

Lemma set_xr_wf r v x : hwf x -> inw 64 v -> hwf (set_xr r v x).
Proof. intros [H I] Hv. split; [|done]. intros r'. cbn. unfold upd. by destruct (r' =? r). Qed.

Lemma xeval_wf i x x' : plain i = true -> xeval i x = Some x' -> hwf x -> hwf x'.
Proof.
  unfold xeval. intros Hp H Hx. destruct i; try done; cbn [exec_at] in H;
    try (injection H as <-; eauto using put_op_wf, put_reg_wf, set_xf_wf; fail).
  - injection H as <-. apply set_xr_wf; [|by apply uN_inw]. destruct Hx. split; [done|]. by apply st_le_wf.
  - injection H as <-. apply set_xr_wf; [|apply (ld_le_range 8); apply Hx].
    apply set_xr_wf; [done|by apply uN_inw].
  - injection H as <-. unfold alu_to. destruct (alu_op _ _ _ _). apply set_xf_wf.
    destruct op; by try apply put_op_wf.
  - injection H as <-. unfold alu_to. destruct (alu_op _ _ _ _). apply set_xf_wf.
    destruct op; by try apply put_op_wf.
  - injection H as <-. unfold alu_to. destruct (alu_op _ _ _ _). apply set_xf_wf.
    destruct op; by try apply put_op_wf.
  - unfold unary in H. destruct op; head_none H; injection H as <-;
      unfold put_pair; eauto 6 using put_op_wf, put_reg_wf, set_xf_wf.
  - injection H as <-. unfold shift_to. destruct (_ =? 0); eauto using put_op_wf, set_xf_wf.
  - injection H as <-. unfold shift_to. destruct (_ =? 0); eauto using put_op_wf, set_xf_wf.
  - destruct (cond cc (xf x)); [|done]. cbn in H. injection H as <-. by apply put_op_wf.
Qed.

Definition xwrites (l : list xinstr) : list Z := concat (writes <$> l).

Lemma xrun_frame l x x' : forallb plain l = true -> xrun l x = Some x' ->
  (forall r, r ∉ xwrites l -> xr x' r = xr x r) /\ (forallb (fun i => negb (stores i)) l = true -> xm x' = xm x) /\
  (hwf x -> hwf x').
Proof.
  revert x. induction l as [|i l IH]; intros x Hp Hr; [injection Hr as <-; done|].
  cbn in Hp. apply andb_true_iff in Hp as [Hp Hpl]. cbn [xrun] in Hr.
  destruct (xeval i x) as [x1|] eqn:E; [|done]. cbn in Hr.
  destruct (xeval_frame _ _ _ Hp E) as [F1 M1]. destruct (IH _ Hpl Hr) as (F2 & M2 & W2).
  split_and!.
  - intros r Hn. unfold xwrites in Hn. cbn in Hn. rewrite elem_of_app in Hn.
    rewrite F2 by tauto. apply F1. tauto.
  - cbn. intros Hs. bool_hyps. rewrite M2 by done. by apply M1.
  - intros Hx. apply W2. by eapply xeval_wf.
Qed.

(** Code that writes only [D] and the scratch registers. *)
Definition writes_only (D : Z) (l : list xinstr) : bool :=
  forallb (fun r => (r =? D) || (r =? 0) || (r =? 1) || (r =? 2)) (xwrites l) &&
  forallb (fun i => negb (stores i)) l.

Lemma xrun_only D l x x' : forallb plain l = true -> writes_only D l = true ->
  xrun l x = Some x' -> only D x x'.
Proof.
  intros Hp Hw Hr. unfold writes_only in Hw. bool_hyps.
  destruct (xrun_frame l x x' Hp Hr) as (F & M & W). split_and!; [by apply M| |done].
  intros r Hn Hs. apply F. intros Hin. rewrite forallb_forall in H. apply list_elem_of_In, H in Hin.
  unfold scratch, REG_RAX, REG_RCX, REG_RDX in Hs. lia.
Qed.

(** ** The host instructions of a generator *)

(** The instructions of a generator without conditionals. *)
Ltac str :=
  lazymatch goal with
  | |- STR (mbind _ _) _ _ => eapply str_seq; [|str|str]
  | |- STR (emit _) _ _ => apply str_emit; enc1
  | |- STR (mret _) _ _ => apply str_ret
  end.

(** [m] emits at most [n] bytes of plain code that leaves in [D] a value
    satisfying [V], when it runs from a state satisfying [P], and changes no
    other register but the scratch ones. *)
Definition computes (m : EM unit) (n D : Z) (P : Host -> Prop) (V : Z -> Prop) : Prop :=
  exists l, STR m n l /\ forallb plain l = true /\ writes_only D l = true /\
    forall x, hwf x -> P x -> exists x', xrun l x = Some x' /\ V (xr x' D).

Definition pool (p : Z) : Prop := 6 <= p <= 11.

Lemma uN_uN w x : 0 <= w -> uN w (uN w x) = uN w x.
Proof. intros. apply uN_id. by apply uN_inw. Qed.

Ltac reg_lia := unfold REG_TMP, REG_ACC0, REG_ACC1, REG_RCX, REG_RAX, REG_RDX in *; lia.

(** Registers of an updated file. *)
Ltac regs :=
  repeat first [rewrite upd_eq | rewrite upd_ne by reg_lia].

Ltac only_tac :=
  unfold writes_only, xwrites; cbn;
  rewrite ?Z.eqb_refl; cbn; rewrite ?orb_true_r; done.

Ltac computes :=
  eexists; split; [eapply str_weaken; [str; first [assumption | opnd | lia | by split]|lia]|split; [done|split; [only_tac|]]].

(** The operands are where the allocator put them; a zero register is not
    loaded. *)
Definition operands (r1 r2 : bool) (S1 S2 a b : Z) (x : Host) : Prop :=
  (if r1 then xr x S1 = a else True) /\ (if r2 then xr x S2 = b else True).

Definition operands_ok (r1 r2 : bool) (S1 S2 a b : Z) : Prop :=
  (if r1 then pool S1 else a = 0) /\ (if r2 then pool S2 else b = 0) /\ inw 64 a /\ inw 64 b.

(** Simplify the value left in a register. *)
Ltac val Ha Hb :=
  repeat match goal with H : xr _ _ = _ |- _ => rewrite H end;
  rewrite ?(uN_id 64 _ Ha), ?(uN_id 64 _ Hb), ?uN_uN by lia.

Ltac body Ha Hb :=
  computes; intros x Hx [P1 P2]; eexists; (split; [reflexivity|]); cbn; regs; val Ha Hb.

Lemma c_mov_unless D S1 v (P : Host -> Prop) (V : Z -> Prop) n : pool D -> pool S1 -> inw 64 v -> V v ->
  (forall x, P x -> xr x S1 = v) -> 3 <= n -> computes (mov_unless D S1) n D P V.
Proof.
  intros HD HS Hv HV HP Hn. unfold pool, mov_unless in *. destruct (Z.eqb_spec D S1) as [->|Hne]; cbn [negb].
  - exists []. split; [eapply str_weaken; [apply str_ret|lia]|]. split_and!; [done..|].
    intros x Hx Hp. exists x. rewrite HP by done. done.
  - computes. intros x Hx Hp. eexists. split; [reflexivity|]. cbn. regs.
    rewrite (HP x Hp). by rewrite !(uN_id 64 v).
Qed.

(** The result of a shift instruction on a register. *)
Lemma shift_reg k w sh r c x : w = B32 \/ w = B64 ->
  xr (shift_to k w sh (Oreg r) c x) r =
  uN (width w) (shift_op w sh (uN (width w) (xr x r)) (Z.land c (width w - 1))).
Proof.
  intros [-> | ->]; unfold shift_to; cbn [bool_decide]; destruct (_ =? 0); cbn; by rewrite upd_eq.
Qed.

Lemma shift_reg_ne k w sh d c x r : r <> d -> xr (shift_to k w sh (Oreg d) c x) r = xr x r.
Proof. intros H. apply shift_to_frame. cbn. by rewrite list_elem_of_singleton. Qed.

Lemma land_uN_mask w x m : 0 <= w -> inw w m -> Z.land (uN w x) m = Z.land x m.
Proof.
  intros Hw Hm. apply Z.bits_inj'. intros i Hi. rewrite !Z.land_spec, uN_bits by lia.
  destruct (Z.ltb_spec i w); [done|]. rewrite (inw_high w m i), !andb_false_r by done. done.
Qed.

(** The sign extension that ends the W forms. *)
Definition fin (w : bool) (v : Z) : Z := if w then u64 (s32 v) else v.

(** The interpreter's operations, by the argument of the emitter. *)
Definition r_val (op : ALUOp.t) (w : bool) : Z -> Z -> Z :=
  match op, w with
  | ALUOp.ADD, false => op_ADD | ALUOp.ADD, true => op_ADDW
  | ALUOp.SUB, false => op_SUB | ALUOp.SUB, true => op_SUBW
  | ALUOp.SLL, false => op_SLL | ALUOp.SLL, true => op_SLLW
  | ALUOp.SRL, false => op_SRL | ALUOp.SRL, true => op_SRLW
  | ALUOp.SRA, false => op_SRA | ALUOp.SRA, true => op_SRAW
  | ALUOp.XOR, _ => op_XOR | ALUOp.OR, _ => op_OR | ALUOp.AND, _ => op_AND
  | ALUOp.SLT, _ => op_SLT | _, _ => op_SLTU
  end.

Definition has_w (op : ALUOp.t) : bool :=
  match op with ALUOp.ADD | ALUOp.SUB | ALUOp.SLL | ALUOp.SRL | ALUOp.SRA => true | _ => false end.

Definition shift_kind (op : ALUOp.t) : xshift :=
  match op with ALUOp.SLL => Xshl | ALUOp.SRL => Xshr | _ => Xsar end.
Definition is_shift (op : ALUOp.t) : bool :=
  match op with ALUOp.SLL | ALUOp.SRL | ALUOp.SRA => true | _ => false end.

Definition wsize (w : bool) : opsize := if w then B32 else B64.

Lemma u64_s32_mod x y : u32 x = u32 y -> u64 (s32 x) = u64 (s32 y).
Proof. intros H. rewrite <- (sN_uN 32 x), <- (sN_uN 32 y), H by lia. done. Qed.

(** The shift instruction and the sign extension are the interpreter's shift. *)
Lemma shift_value op (w : bool) a b : is_shift op = true -> inw 64 a -> inw 64 b ->
  fin w (uN (width (wsize w)) (shift_op (wsize w) (shift_kind op) (uN (width (wsize w)) a)
    (Z.land (u8 b) (width (wsize w) - 1)))) = r_val op w a b.
Proof.
  intros Hop Ha Hb.
  rewrite (land_uN_mask 8) by (lia || destruct w; by split).
  destruct op; try done; destruct w; cbn [wsize width fin shift_kind shift_op r_val];
    change (32 - 1) with 0x1F; change (64 - 1) with 0x3F;
    unfold op_SLL, op_SLLW, op_SRL, op_SRLW, op_SRA, op_SRAW; rewrite ?uN_uN by lia;
    rewrite ?(uN_id 64 a Ha), ?sN_uN, ?(land_uN_mask 32 b 31) by (lia || done); try done.
  apply uN_id, inw_shiftr; [lia|apply Z.land_nonneg; lia|done].
Qed.

Lemma shift_by_0 op w a : is_shift op = true -> inw 64 a -> fin w a = r_val op w a 0.
Proof.
  intros Hop Ha. rewrite <- shift_value by (done || by apply inw_0). change (Z.land (u8 0) _) with 0.
  destruct op; try done; destruct w; cbn [wsize width fin shift_kind shift_op];
    rewrite ?Z.shiftl_0_r, ?Z.shiftr_0_r, ?uN_sN, ?uN_uN, ?sN_uN, ?(uN_id 64 a Ha) by lia; done.
Qed.

Lemma shift_of_0 op w b : is_shift op = true -> inw 64 b -> 0 = r_val op w 0 b.
Proof.
  intros Hop Hb. rewrite <- shift_value by (done || by apply inw_0).
  destruct op; try done; destruct w; cbn [wsize width fin shift_kind shift_op];
    change (uN _ 0) with 0; change (sN _ 0) with 0; rewrite ?Z.shiftl_0_l, ?Z.shiftr_0_l; done.
Qed.

Lemma sign_bit w x : 0 < w -> inw w x -> Z.testbit x (w - 1) = (sN w x <? 0).
Proof.
  intros Hw Hx. rewrite sN_eq, Z.testbit_eqb by (done || lia). destruct Hx as [H0 H1].
  assert (2 ^ w = 2 * 2 ^ (w - 1)) as Hd by (rewrite <- Z.pow_succ_r by lia; f_equal; lia).
  pose proof (pow2_pos (w - 1) ltac:(lia)).
  destruct (Z.ltb_spec x (2 ^ (w - 1))).
  - rewrite (Z.div_small x) by lia. rewrite (proj2 (Z.ltb_ge _ _)) by lia. done.
  - rewrite (proj2 (Z.ltb_lt _ _)) by lia.
    rewrite <- (Z.div_unique x (2 ^ (w - 1)) 1 (x - 2 ^ (w - 1))) by lia. done.
Qed.

(** The comparisons [setcc] makes after [cmp]. *)
Lemma cmp_less a b : inw 64 a -> inw 64 b ->
  xorb (Z.testbit (u64 (a - b)) 63) (negb (s64 (u64 (a - b)) =? s64 a - s64 b)) = (s64 a <? s64 b).
Proof.
  intros Ha Hb. pose proof (sN_range 64 a ltac:(lia)) as Ra. pose proof (sN_range 64 b ltac:(lia)) as Rb.
  pose proof (sN_range 64 (u64 (a - b)) ltac:(lia)) as Rr.
  assert (exists k, s64 (u64 (a - b)) = s64 a - s64 b + k * 2 ^ 64) as [k Hk].
  { rewrite !sN_eq by (lia || done || by apply uN_inw). unfold uN.
    pose proof (Z.div_mod (a - b) (2 ^ 64) ltac:(lia)) as Hd. set (q := (a - b) / 2 ^ 64) in *.
    set (m := (a - b) mod 2 ^ 64) in *.
    exists (- q + (if a <? 2 ^ (64 - 1) then 0 else 1) - (if b <? 2 ^ (64 - 1) then 0 else 1)
            - (if m <? 2 ^ (64 - 1) then 0 else 1)).
    destruct (m <? _), (a <? _), (b <? _); lia. }
  rewrite (sign_bit 64) by (lia || by apply uN_inw).
  change (2 ^ (64 - 1)) with (2 ^ 63) in *. change (2 ^ 64) with (2 * 2 ^ 63) in Hk.
  set (p := 2 ^ 63) in *. assert (k = 0 \/ k = 1 \/ k = -1) as Hc by nia.
  destruct_or!; subst k; zcases; cbn; lia.
Qed.

Lemma low_byte v x : uN 8 (bf_set v 0 8 x) = uN 8 x.
Proof. rewrite <- (uN_uN 8 x) by lia. zbits i. rewrite Z.sub_0_r. zcases; done. Qed.

Lemma flag_value b : u64 (u8 (b2z b)) = b2z b.
Proof. by destruct b. Qed.

Ltac set_flag :=
  rewrite ?Z.lxor_nilpotent; change (u64 0) with 0; rewrite ?low_byte;
  change (64 - 1) with 63; change (Z.testbit 12 0) with false; change (Z.testbit 2 0) with false;
  rewrite ?cmp_less by (done || by apply inw_0);
  rewrite ?uN_uN, ?flag_value by lia; done.

Lemma computes_weaken m n D P (V V' : Z -> Prop) :
  computes m n D P V -> (forall v, V v -> V' v) -> computes m n D P V'.
Proof.
  intros (l & Hm & Hp & Hw & H) HV. exists l. split_and!; try done.
  intros x Hx HP. destruct (H x Hx HP) as (x' & ? & ?). eauto.
Qed.

Lemma addw_value a b : fin true (op_ADD a b) = op_ADDW a b.
Proof. unfold op_ADD, op_ADDW. cbn [fin]. apply u64_s32_mod. unfold uN. Z.div_mod_to_equations; lia. Qed.

Lemma subw_value a b : fin true (op_SUB a b) = op_SUBW a b.
Proof. unfold op_SUB, op_SUBW. cbn [fin]. apply u64_s32_mod. unfold uN. Z.div_mod_to_equations; lia. Qed.

Section values.
Context (D S1 S2 a b : Z) (r1 r2 : bool) (HD : pool D) (Ho : operands_ok r1 r2 S1 S2 a b).

Abbreviation C m V := (computes m 24 D (operands r1 r2 S1 S2 a b) V).

Ltac start :=
  destruct Ho as (H1 & H2 & Ha & Hb); unfold operands, pool in *; destruct r1, r2; cbn [negb andb].
(** Split on the aliasing of the destination. *)
Ltac alias :=
  destruct (Z.eqb_spec D S1) as [->|N1]; [|destruct (Z.eqb_spec D S2) as [->|N2]].

Lemma u64_id_r x : inw 64 x -> u64 x = x.
Proof. apply uN_id. Qed.

Lemma r_ADD_ok : C (r_ADD r1 r2 D S1 S2) (eq (op_ADD a b)).
Proof.
  unfold r_ADD. start.
  - alias; body Ha Hb; unfold op_ADD; f_equal; lia.
  - apply (c_mov_unless D S1 a); [done..| |by intros x []|lia]. subst b. unfold op_ADD. by rewrite Z.add_0_r, (uN_id 64).
  - apply (c_mov_unless D S2 b); [done..| |by intros x []|lia]. subst a. unfold op_ADD. by rewrite (uN_id 64).
  - subst. body Ha Hb. by rewrite Z.lxor_nilpotent.
Qed.

Lemma r_SUB_ok : C (r_SUB r1 r2 D S1 S2) (eq (op_SUB a b)).
Proof.
  unfold r_SUB. start.
  - alias; body Ha Hb; done.
  - apply (c_mov_unless D S1 a); [done..| |by intros x []|lia]. subst b. unfold op_SUB. by rewrite Z.sub_0_r, (uN_id 64).
  - subst a. destruct (Z.eqb_spec D S2) as [->|N2]; body Ha Hb; [done|].
    by rewrite Z.lxor_nilpotent.
  - subst. body Ha Hb. by rewrite Z.lxor_nilpotent.
Qed.

(** The logical operations. *)
Definition logic_val (op : ALUOp.t) : Z -> Z -> Z :=
  match op with ALUOp.XOR => op_XOR | ALUOp.OR => op_OR | _ => op_AND end.

Lemma r_LOGIC_ok op : op = ALUOp.XOR \/ op = ALUOp.OR \/ op = ALUOp.AND ->
  C (r_LOGIC op r1 r2 D S1 S2) (eq (logic_val op a b)).
Proof.
  intros Hop. unfold r_LOGIC, is_and. start.
  - destruct_or!; subst op; cbn [logic_rr logic_val]; alias; body Ha Hb;
      unfold op_XOR, op_OR, op_AND;
      rewrite (uN_id 64) by (apply inw_lxor || apply inw_lor || apply inw_land; done || apply Ha || apply Hb);
      first [done | apply Z.lxor_comm | apply Z.lor_comm | apply Z.land_comm].
  - subst b. assert (logic_val op a 0 = if bool_decide (op = ALUOp.AND) then 0 else a) as Hv.
    { destruct_or!; subst op; cbn; unfold op_XOR, op_OR, op_AND;
        rewrite ?Z.lxor_0_r, ?Z.lor_0_r, ?Z.land_0_r; done. }
    rewrite Hv. case_bool_decide.
    + body Ha Hb. by rewrite Z.lxor_nilpotent.
    + by apply (c_mov_unless D S1 a); [..|intros x []|].
  - subst a. assert (logic_val op 0 b = if bool_decide (op = ALUOp.AND) then 0 else b) as Hv.
    { destruct_or!; subst op; cbn; unfold op_XOR, op_OR, op_AND;
        rewrite ?Z.lxor_0_l, ?Z.lor_0_l, ?Z.land_0_l; done. }
    rewrite Hv. case_bool_decide.
    + body Ha Hb. by rewrite Z.lxor_nilpotent.
    + by apply (c_mov_unless D S2 b); [..|intros x []|].
  - subst. assert (logic_val op 0 0 = 0) as -> by (by destruct_or!; subst op).
    body Ha Hb. by rewrite Z.lxor_nilpotent.
Qed.

Lemma r_SHIFT_ok op w : is_shift op = true ->
  C (r_SHIFT op w r1 r2 D S1 S2) (fun v => fin w v = r_val op w a b).
Proof.
  intros Hop. unfold r_SHIFT. start.
  - rewrite <- (shift_value op w a b Hop Ha Hb). unfold mov_unless.
    destruct op; try done; destruct w, (Z.eqb_spec D S1) as [->|N]; cbn [negb shift_field];
      computes; intros x Hx [P1 P2]; eexists; (split; [reflexivity|]); cbn [xrun mbind option_bind]; rewrite shift_reg by auto; cbn; regs; val Ha Hb; done.
  - subst b. apply (c_mov_unless D S1 a); [done..|by apply shift_by_0|by intros x []|lia].
  - subst a. computes. intros x _ _. eexists. split; [reflexivity|]. cbn. regs.
    rewrite Z.lxor_nilpotent. change (u64 0) with 0. rewrite <- shift_of_0 by done. by destruct w.
  - subst. computes. intros x _ _. eexists. split; [reflexivity|]. cbn. regs.
    rewrite Z.lxor_nilpotent. change (u64 0) with 0. rewrite <- shift_of_0 by done. by destruct w.
Qed.

Lemma r_SLT_ok op : op = ALUOp.SLT \/ op = ALUOp.SLTU ->
  C (r_SLT op r1 r2 D S1 S2) (eq (r_val op false a b)).
Proof.
  intros Hop. unfold r_SLT, set_if. start.
  - destruct_or!; subst op; cbn [slt_cc r_val]; body Ha Hb; set_flag.
  - subst b. destruct_or!; subst op; cbn [slt_cc r_val];
      destruct (Z.eqb_spec D S1) as [->|N]; body Ha Hb; set_flag.
  - subst a. destruct_or!; subst op; cbn [slt_cc r_val];
      destruct (Z.eqb_spec D S2) as [->|N]; body Ha Hb; set_flag.
  - subst. destruct_or!; subst op; body Ha Hb; set_flag.
Qed.

Lemma r_body_ok op w : op <> ALUOp.LUI -> op <> ALUOp.AUIPC -> (w = true -> has_w op = true) ->
  C (r_body op w r1 r2 D S1 S2) (fun v => fin w v = r_val op w a b).
Proof.
  intros H1 H2 Hw. destruct op; try done; cbn [r_body].
  { eapply computes_weaken; [apply r_ADD_ok|]. intros v <-. destruct w; [|done]. by apply addw_value. }
  { eapply computes_weaken; [apply r_SUB_ok|]. intros v <-. destruct w; [|done]. by apply subw_value. }
  all: try by apply r_SHIFT_ok.
  all: destruct w; [by discriminate (Hw eq_refl)|].
  all: eapply computes_weaken; [first [apply r_LOGIC_ok; by auto|apply r_SLT_ok; by auto]|by intros v <-].
Qed.
End values.

(** ** Immediate operands *)

(** The interpreter's operation on an immediate, which is extended to 64 bits. *)
Definition i_val (op : ALUOp.t) (w : bool) : Z -> Z -> Z :=
  match op, w with
  | ALUOp.ADD, false => op_ADDI | ALUOp.ADD, true => op_ADDIW
  | ALUOp.SLL, false => op_SLLI | ALUOp.SLL, true => op_SLLIW
  | ALUOp.SRL, false => op_SRLI | ALUOp.SRL, true => op_SRLIW
  | ALUOp.SRA, false => op_SRAI | ALUOp.SRA, true => op_SRAIW
  | ALUOp.XOR, _ => op_XORI | ALUOp.OR, _ => op_ORI | ALUOp.AND, _ => op_ANDI
  | ALUOp.SLT, _ => op_SLTI | _, _ => op_SLTIU
  end.

(** The immediates of the instructions: 32 bits, and a shift count within the
    width of the operand. *)
Definition i_imm_ok (op : ALUOp.t) (w : bool) (im : Z) : Prop :=
  if is_shift op then 0 <= im < width (wsize w) else imm_ok im.

Lemma addiw_value a im : fin true (op_ADDI a (u64 im)) = op_ADDIW a (u64 im).
Proof. unfold op_ADDI, op_ADDIW. cbn [fin]. apply u64_s32_mod. unfold uN. Z.div_mod_to_equations; lia. Qed.

Lemma shiftr_range n x k : 0 <= n -> 0 <= k -> - 2 ^ n <= x < 2 ^ n -> - 2 ^ n <= Z.shiftr x k < 2 ^ n.
Proof.
  intros Hn Hk Hx. rewrite Z.shiftr_div_pow2 by lia. pose proof (pow2_pos k Hk). pose proof (pow2_pos n Hn).
  split; [apply Z.div_le_lower_bound|apply Z.div_lt_upper_bound]; nia.
Qed.

Lemma shifti_value op (w : bool) a im : is_shift op = true -> inw 64 a -> 0 <= im < width (wsize w) ->
  fin w (uN (width (wsize w)) (shift_op (wsize w) (shift_kind op) (uN (width (wsize w)) a)
    (Z.land im (width (wsize w) - 1)))) = i_val op w a im.
Proof.
  intros Hop Ha Him.
  assert (Z.land im (width (wsize w) - 1) = im) as ->.
  { destruct w; cbn [wsize width] in *; [change (32 - 1) with (Z.ones 5)|change (64 - 1) with (Z.ones 6)];
      rewrite Z.land_ones by lia; apply Z.mod_small; lia. }
  destruct op; try done; destruct w; cbn [wsize width fin shift_kind shift_op i_val];
    unfold op_SLLI, op_SLLIW, op_SRLI, op_SRLIW, op_SRAI, op_SRAIW; rewrite ?uN_uN by lia;
    rewrite ?(uN_id 64 a Ha), ?sN_uN by lia; try done.
  - apply uN_id, inw_shiftr; by lia || done.
  - rewrite (sN_small 32 (Z.shiftr _ _)); [done|lia|].
    apply shiftr_range; [lia..|]. apply (sN_range 32). lia.
Qed.

Lemma shifti_of_0 op w n : is_shift op = true -> 0 <= n < width (wsize w) -> 0 = i_val op w 0 n.
Proof.
  intros Hop Hn. rewrite <- shifti_value by (done || by apply inw_0).
  destruct op; try done; destruct w; cbn [wsize width fin shift_kind shift_op];
    change (uN _ 0) with 0; change (sN _ 0) with 0; rewrite ?Z.shiftl_0_l, ?Z.shiftr_0_l; done.
Qed.

Section ivalues.
Context (D S1 a im : Z) (r1 : bool) (HD : pool D).
Context (Ho : if r1 then pool S1 else a = 0) (Ha : inw 64 a).

Abbreviation CI m V := (computes m 24 D (fun x => if r1 then xr x S1 = a else True) V).

Ltac ibody := computes; intros x Hx P1; eexists; (split; [reflexivity|]); cbn; regs;
  rewrite ?P1, ?(uN_id 64 a Ha), ?uN_uN by lia.

Lemma i_SHIFT_ok op w : is_shift op = true -> 0 <= im < width (wsize w) ->
  CI (i_SHIFT op w r1 D S1 im) (fun v => fin w v = i_val op w a im).
Proof.
  intros Hop Him. unfold i_SHIFT, pool in *.
  assert (inw 8 im) as Hi8 by (destruct w; cbn in Him; split; cbn; lia).
  rewrite <- (shifti_value op w a im Hop Ha Him). unfold mov_unless. destruct r1; cbn [negb].
  - destruct op; try done; destruct w, (Z.eqb_spec D S1) as [->|N]; cbn [negb shift_field];
      ibody; rewrite shift_reg by auto; cbn; regs; rewrite ?P1, ?(uN_id 64 a Ha), ?uN_uN by lia; done.
  - subst a. computes. intros x _ _. eexists. split; [reflexivity|]. cbn. regs.
    rewrite Z.lxor_nilpotent. rewrite (shifti_value op w 0 im Hop Ha Him).
    rewrite <- shifti_of_0 by done. by destruct w.
Qed.

Lemma i_LOGIC_ok op : op = ALUOp.XOR \/ op = ALUOp.OR \/ op = ALUOp.AND -> imm_ok im ->
  CI (i_body op false r1 D S1 im) (eq (i_val op false a (u64 im))).
Proof.
  intros Hop Him. pose proof (uN_inw 64 im ltac:(lia)) as Hi. unfold pool, imm_ok in *.
  assert (s32 im = im) as Es by (by apply sN_small).
  destruct_or!; subst op; cbn [i_body]; unfold is_and; cbn [bool_decide decide logic_imm i_val]; rewrite Es; destruct r1; cbn [negb].
  all: try (case_bool_decide; try done); try destruct (Z.eqb_spec D S1) as [->|N]; ibody.
  all: unfold op_XORI, op_ORI, op_ANDI; rewrite ?Z.lxor_nilpotent.
  all: try (subst a; rewrite ?Z.lxor_0_l, ?Z.lor_0_l, ?Z.land_0_l; done).
  all: symmetry; apply uN_id; first [by apply inw_lxor|by apply inw_lor|apply inw_land; try done; apply Hi].
Qed.

Lemma i_SLT_ok op : op = ALUOp.SLT \/ op = ALUOp.SLTU -> imm_ok im ->
  CI (i_body op false r1 D S1 im) (eq (i_val op false a (u64 im))).
Proof.
  intros Hop Him. pose proof (uN_inw 64 im ltac:(lia)) as Hi. unfold pool, imm_ok in *.
  assert (s32 im = im) as Es by (by apply sN_small).
  destruct_or!; subst op; cbn [i_body slt_cc i_val]; rewrite Es; destruct r1; cbn [negb andb].
  all: try (destruct (Z.eqb_spec im 0) as [Hz|]); ibody;
    first [set_flag | subst; set_flag | subst; by rewrite Z.lxor_nilpotent].
Qed.

Lemma i_ADD_ok : imm_ok im -> CI (i_body ALUOp.ADD false r1 D S1 im) (eq (op_ADDI a (u64 im))).
Proof.
  intros Him. unfold pool, imm_ok in *. assert (s32 im = im) as Es by (by apply sN_small).
  cbn [i_body]. rewrite Es. unfold op_ADDI. destruct r1; cbn [negb].
  - destruct (Z.eqb_spec D S1) as [->|N]; ibody; done.
  - ibody. subst a. by rewrite Z.add_0_l, uN_uN by lia.
Qed.

Lemma i_body_ok op w : op <> ALUOp.LUI -> op <> ALUOp.AUIPC -> op <> ALUOp.SUB ->
  (w = true -> has_w op = true) -> i_imm_ok op w im ->
  CI (i_body op w r1 D S1 im) (fun v => fin w v = i_val op w a (if is_shift op then im else u64 im)).
Proof.
  intros H1 H2 H3 Hw Him. unfold i_imm_ok in Him. destruct (is_shift op) eqn:Hs.
  - assert (u8 (Z.land im 0x3F) = im) as Hm.
    { change 0x3F with (Z.ones 6). rewrite Z.land_ones by lia.
      assert (0 <= im < 64) by (destruct w; cbn in Him; lia).
      rewrite Z.mod_small by done. apply uN_id. split; cbn; lia. }
    destruct op; try done; cbn [i_body]; rewrite Hm; by apply i_SHIFT_ok.
  - destruct op; try done.
    { eapply computes_weaken; [by apply i_ADD_ok|]. intros v <-.
      destruct w; [by apply addiw_value|done]. }
    all: destruct w; [by discriminate (Hw eq_refl)|].
    all: eapply computes_weaken; [first [apply i_LOGIC_ok; by auto|apply i_SLT_ok; by auto]|by intros v <-].
Qed.
End ivalues.

(** ** Multiplication *)

(** The interpreter's operation. *)
Definition m_val (op : MOp.t) (w : bool) (a b : Z) : outcome Z :=
  match op, w with
  | MOp.MUL, true => op_MULW a b
  | MOp.MUL, false => Ret (op_MUL a b)
  | MOp.MULH, _ => Ret (op_MULH a b)
  | MOp.MULHU, _ => Ret (op_MULHU a b)
  | MOp.MULHSU, _ => Ret (op_MULHSU a b)
  | MOp.DIV, false => Ret (op_DIV a b) | MOp.DIV, true => Ret (op_DIVW a b)
  | MOp.DIVU, false => Ret (op_DIVU a b) | MOp.DIVU, true => Ret (op_DIVUW a b)
  | MOp.REM, false => Ret (op_REM a b) | MOp.REM, true => Ret (op_REMW a b)
  | MOp.REMU, false => Ret (op_REMU a b) | MOp.REMU, true => Ret (op_REMUW a b)
  end.

(** [v] is the result of the interpreter, which may leave it undefined. *)
Definition m_agrees (op : MOp.t) (w : bool) (a b v : Z) : Prop :=
  forall r, m_val op w a b = Ret r -> v = r.

Lemma uN_mul w x y : uN w (x * y) = uN w (uN w x * uN w y).
Proof. apply Zmult_mod. Qed.

Lemma mulw_value a b r : op_MULW a b = Ret r -> u64 (s32 (a * b)) = r.
Proof.
  unfold op_MULW. destruct (_ && _) eqn:E; [|done]. intros [= <-]. bool_hyps. unfold INT32_MIN in *.
  rewrite <- (sN_small 32 (s32 a * s32 b)) by lia.
  apply u64_s32_mod. by rewrite uN_mul, (uN_mul 32 (s32 a)), !uN_sN by lia.
Qed.

(** The correction MULHSU makes to the high half of the unsigned product. *)
Lemma mulhsu_value a b : inw 64 a -> inw 64 b ->
  u64 (u64 (a * b / 2 ^ 64) - u64 (Z.land (u64 (Z.shiftr (s64 a) (Z.land 63 (64 - 1)))) b)) = op_MULHSU a b.
Proof.
  intros Ha Hb. change (Z.land 63 (64 - 1)) with 63.
  unfold op_MULHSU. rewrite u128_hi.
  assert (u64 (u128 (s64 a) * b / 2 ^ 64) = u64 (s64 a * b / 2 ^ 64)) as ->.
  { rewrite <- !u128_hi. do 2 f_equal. unfold uN. by rewrite Zmult_mod_idemp_l. }
  pose proof (sN_eq 64 a ltac:(lia) Ha) as Es. change (2 ^ (64 - 1)) with (2 ^ 63) in Es.
  pose proof (sN_range 64 a ltac:(lia)) as Rs. change (2 ^ (64 - 1)) with (2 ^ 63) in Rs.
  rewrite Z.shiftr_div_pow2 by lia. destruct Ha as [A0 A1].
  destruct (Z.ltb_spec a (2 ^ 63)) as [H|H]; rewrite Es in *.
  - rewrite (Z.div_small a) by lia. change (u64 0) with 0. rewrite Z.land_0_l. change (u64 0) with 0.
    by rewrite Z.sub_0_r, uN_uN by lia.
  - rewrite <- (Z.div_unique_pos (a - 2 ^ 64) (2 ^ 63) (-1) (a - 2 ^ 63)) by lia.
    assert (Z.land (u64 (-1)) b = b) as ->.
    { rewrite Z.land_comm. change (u64 (-1)) with (Z.ones 64). rewrite <- uN_land by lia. by apply uN_id. }
    replace ((a - 2 ^ 64) * b) with (a * b + (- b) * 2 ^ 64) by lia. rewrite Z.div_add by lia.
    unfold uN. rewrite Zminus_mod_idemp_l, Zminus_mod_idemp_r. done.
Qed.

Section mvalues.
Context (D S1 S2 a b : Z) (HD : pool D) (HS1 : pool S1) (HS2 : pool S2) (Ha : inw 64 a) (Hb : inw 64 b).

Abbreviation CM m V := (computes m 24 D (operands true true S1 S2 a b) V).

Lemma m_MUL_ok w : CM (m_MUL w D S1 S2) (m_agrees MOp.MUL w a b).
Proof.
  unfold m_MUL, mul_low, operands, pool, mov_unless in *.
  destruct (Z.eqb_spec D S1) as [->|N1]; [|destruct (Z.eqb_spec D S2) as [->|N2]]; destruct w; cbn [negb]; body Ha Hb;
      intros r Hr; unfold m_val in Hr; first [apply mulw_value in Hr as <- | injection Hr as <-]; unfold op_MUL.
  all: try reflexivity; try (rewrite (Z.mul_comm b a); reflexivity).
  all: apply u64_s32_mod; unfold uN; rewrite ?Zmult_mod_idemp_l, ?Zmult_mod_idemp_r, ?Z.mod_mod by lia;
    first [done | by rewrite Z.mul_comm].
Qed.

Lemma m_MULH_ok op : op = MOp.MULH \/ op = MOp.MULHU \/ op = MOp.MULHSU ->
  CM (m_MULH op D S1 S2) (m_agrees op false a b).
Proof.
  intros Hop. unfold m_MULH, operands, pool, mov_unless in *.
  assert ((D =? REG_ACC1) = false) as -> by (unfold REG_ACC1, REG_RDX; lia). cbn [negb].
  destruct_or!; subst op; body Ha Hb; intros r Hr; unfold m_val in Hr; injection Hr as <-.
  - unfold op_MULH. by rewrite Z.shiftr_div_pow2.
  - unfold op_MULHU. by rewrite u128_hi.
  - rewrite !shift_reg by auto. rewrite !shift_reg_ne by reg_lia. cbn. regs. val Ha Hb.
    by apply mulhsu_value.
Qed.
End mvalues.
