(* ===== verification/JitDiv.v ===== *)
(** * Division ([emit_m_r_to]): code with forward branches

    [RUN m n P Q]: the generator [m] emits at most [n] bytes that take every
    host state [x] with [P x0 x] to one with [Q x0 x'], for every state [x0],
    and end after the last byte. [run_if]: the rule for the two-armed conditional the emitter builds
    with short jumps it patches afterwards. [m_body_ok]: the code of the
    multiplication and division instructions computes the interpreter's value,
    division by zero and overflow included. *)

From S2P Require Import Prelude Decode State Rv64i Rv64m X86 X86Enc X86Code JitEmit JitAlu JitGen JitAlloc JitSim.
Import x86.

Definition RUN (m : EM unit) (n : Z) (P Q : Host -> Host -> Prop) : Prop := forall e,
  code_pos e + n <= RVJIT_FUNC_SIZE ->
  exists bs, m e = Ret (tt, with_code e (code (blk e) ++ bs)) /\ pos bs <= n /\
    forall base c k x0 x, placed base c -> code_at c k bs -> xip x = base + k -> P x0 x ->
      exists x', xsteps base c x x' /\ xip x' = base + k + pos bs /\ Q x0 x'.

(** A relation of host states that does not mention the address of the next instruction. *)
Definition ipfree (P : Host -> Host -> Prop) : Prop := forall q x0 x, P x0 x -> P x0 (set_xip q x).

Lemma run_weaken m n n' (P P' Q Q' : Host -> Host -> Prop) : RUN m n P Q -> n <= n' ->
  (forall x0 x, P' x0 x -> P x0 x) -> (forall x0 x, Q x0 x -> Q' x0 x) -> RUN m n' P' Q'.
Proof.
  intros Hr Hn HP HQ e Hs. destruct (Hr e ltac:(lia)) as (bs & He & Hb & Hx).
  exists bs. split_and!; [done|lia|]. intros base c k x0 x Hpl Hat Hip Hp.
  destruct (Hx base c k x0 x Hpl Hat Hip (HP x0 x Hp)) as (x' & ? & ? & ?). eauto.
Qed.

Lemma run_le m n n' P Q : RUN m n P Q -> n <= n' -> RUN m n' P Q.
Proof. intros H Hn. by eapply run_weaken; [exact H|..]. Qed.

Lemma run_ext m m' n P Q : (forall e, m e = m' e) -> RUN m n P Q -> RUN m' n P Q.
Proof. intros He Hr e Hs. rewrite <- He. by apply Hr. Qed.

Lemma run_str m n l (P Q : Host -> Host -> Prop) : STR m n l -> forallb plain l = true -> ipfree Q ->
  (forall x0 x, P x0 x -> exists x', xrun l x = Some x' /\ Q x0 x') -> RUN m n P Q.
Proof.
  intros Hm Hl HQ Hx e Hs. destruct (Hm e Hs) as (bs & Em & Ha & Hn).
  exists bs. split_and!; [done..|]. intros base c k x0 x Hpl Hat Hip Hp.
  destruct (Hx x0 x Hp) as (x' & Hr & Hq). eexists. split; [by eapply xsteps_asm|]. split; [done|by apply HQ].
Qed.

Lemma run_seq m1 m2 n1 n2 (P Q Q' : Host -> Host -> Prop) : 0 <= n2 ->
  RUN m1 n1 P Q -> RUN m2 n2 Q Q' -> RUN (m1 ;; m2) (n1 + n2) P Q'.
Proof.
  intros Hn H1 H2 e Hs. destruct (H1 e ltac:(lia)) as (b1 & E1 & N1 & X1).
  set (e1 := with_code e (code (blk e) ++ b1)) in *.
  assert (code_pos e1 = code_pos e + pos b1) as Hp by (unfold code_pos; cbn; by rewrite pos_app).
  destruct (H2 e1 ltac:(lia)) as (b2 & E2 & N2 & X2).
  exists (b1 ++ b2). split_and!; [|rewrite pos_app; lia|].
  - cbv [mbind ST_bind]. rewrite E1, E2. cbn. by rewrite <- app_assoc.
  - intros base c k x0 x Hpl Hat Hip HP. apply code_at_app in Hat as [Hat1 Hat2].
    destruct (X1 base c k x0 x Hpl Hat1 Hip HP) as (x1 & Hst1 & Hi1 & Hq1).
    destruct (X2 base c (k + pos b1) x0 x1 Hpl Hat2 ltac:(lia) Hq1) as (x2 & Hst2 & Hi2 & Hq2).
    exists x2. split_and!; [by eapply xsteps_trans| |done]. rewrite pos_app. lia.
Qed.

Lemma code_at_bounds c k bs : code_at c k bs -> 0 <= k /\ k + pos bs <= pos c.
Proof.
  intros (c1 & c2 & -> & <-). pose proof (pos_nonneg c1). pose proof (pos_nonneg c2).
  rewrite !pos_app. lia.
Qed.

Lemma set_xip_xip p q x : set_xip p (set_xip q x) = set_xip p x.
Proof. done. Qed.

(** ** The two-armed conditional *)

Definition if_else (op : Z) (A B : EM unit) : EM unit :=
  f ← emit (jcc8 op); A ;;
  d ← emit (jcc8 0xEB); l ← gets code_pos; emit (patch_rel8 f l) ;; B ;;
  h ← gets code_pos; emit (patch_rel8 d h).

(** The bytes it emits. *)
Definition if_bytes (op : Z) (a b : list Z) : list Z :=
  (op :: u8 (pos a + 2) :: a) ++ (0xEB :: u8 (pos b) :: b).

Lemma pos_cons x l : pos (x :: l) = 1 + pos l.
Proof. unfold pos. cbn [length]. lia. Qed.

Lemma emit_at {A} (m : ST CodeBuf A) e a c : m (code (blk e)) = Ret (a, c) -> emit m e = Ret (a, with_code e c).
Proof. intros H. unfold emit. by rewrite H. Qed.

Lemma emit_jcc8 op e c : code (blk e) = c -> pos c + 2 <= RVJIT_FUNC_SIZE ->
  emit (jcc8 op) e = Ret (pos c + 1, with_code e (c ++ [u8 op; 0])).
Proof. intros <- Hs. by apply emit_at, jcc8_emits. Qed.

Lemma emit_patch8 e c1 x c2 f t d : code (blk e) = c1 ++ x :: c2 -> f = pos c1 ->
  pos (c1 ++ x :: c2) <= RVJIT_FUNC_SIZE -> 0 <= t <= RVJIT_FUNC_SIZE -> d = u8 (t - (f + 1)) ->
  emit (patch_rel8 f t) e = Ret (tt, with_code e (c1 ++ d :: c2)).
Proof. intros He -> Hs Ht ->. apply emit_at. rewrite He. by apply patch_rel8_at. Qed.

Ltac lens := repeat first [rewrite pos_app | rewrite pos_cons]; change (pos []) with 0.

Ltac apps := repeat first [progress cbn [app] | rewrite <- app_assoc].

Lemma with_with e c1 c2 : with_code (with_code e c1) c2 = with_code e c2.
Proof. done. Qed.

Lemma if_else_emits op A B e a b : inw 8 op -> let c := code (blk e) in
  pos c + pos a + pos b + 4 <= RVJIT_FUNC_SIZE ->
  A (with_code e (c ++ [op; 0])) = Ret (tt, with_code e ((c ++ [op; 0]) ++ a)) ->
  B (with_code e (c ++ op :: u8 (pos a + 2) :: a ++ [0xEB; 0])) =
    Ret (tt, with_code e ((c ++ op :: u8 (pos a + 2) :: a ++ [0xEB; 0]) ++ b)) ->
  if_else op A B e = Ret (tt, with_code e (c ++ if_bytes op a b)).
Proof.
  intros Hop c Hs EA EB. pose proof (pos_nonneg a). pose proof (pos_nonneg b). pose proof (pos_nonneg c).
  unfold if_else, code_pos. cbv [mbind ST_bind gets].
  rewrite (emit_jcc8 op e c) by (done || lia). rewrite (uN_id 8 op), EA by done.
  rewrite (emit_jcc8 0xEB _ ((c ++ [op]) ++ 0 :: a)); [|cbn; by apps|lens; lia].
  cbn [code blk with_code set_blk set_code].
  rewrite (emit_patch8 _ (c ++ [op]) 0 (a ++ [0xEB; 0]) _ _ (u8 (pos a + 2)));
    [|cbn; by apps|lens; lia|lens; lia|lens; lia|f_equal; lens; lia].
  replace ((c ++ [op]) ++ u8 (pos a + 2) :: a ++ [0xEB; 0])
    with (c ++ op :: u8 (pos a + 2) :: a ++ [0xEB; 0]) by (by apps).
  rewrite !with_with, EB. cbn [code blk with_code set_blk set_code].
  rewrite (emit_patch8 _ (c ++ [op; u8 (pos a + 2)] ++ a ++ [0xEB]) 0 b _ _ (u8 (pos b)));
    [|cbn; by apps|lens; lia|lens; lia|lens; lia|f_equal; lens; lia].
  rewrite with_with. unfold if_bytes. by apps.
Qed.

Lemma s8_small n : 0 <= n < 128 -> s8 (u8 n) = n.
Proof. intros. rewrite sN_uN by lia. apply sN_small; cbn; lia. Qed.

Lemma run_if cc A B nA nB (P PA PB Q : Host -> Host -> Prop) : reg_ok cc ->
  0 <= nA < 126 -> 0 <= nB < 128 -> ipfree PA -> ipfree PB -> ipfree Q ->
  RUN A nA PA Q -> RUN B nB PB Q ->
  (forall x0 x, P x0 x -> exists b, cond cc (xf x) = Some b /\ (if b then PB x0 x else PA x0 x)) ->
  RUN (if_else (0x70 + cc) A B) (nA + nB + 4) P Q.
Proof.
  intros Hcc HnA HnB IA IB IQ HA HB Hc e Hs.
  assert (inw 8 (0x70 + cc)) as Hop by (unfold reg_ok in Hcc; split; cbn; lia).
  set (c := code (blk e)). unfold code_pos in Hs. fold c in Hs.
  destruct (HA (with_code e (c ++ [0x70 + cc; 0]))) as (a & Ea & Na & Xa).
  { unfold code_pos. cbn. lens. lia. }
  destruct (HB (with_code e (c ++ 0x70 + cc :: u8 (pos a + 2) :: a ++ [0xEB; 0]))) as (b & Eb & Nb & Xb).
  { unfold code_pos. cbn. lens. lia. }
  pose proof (pos_nonneg a). pose proof (pos_nonneg b).
  exists (if_bytes (0x70 + cc) a b). split_and!.
  - apply if_else_emits; [done|fold c; lia|exact Ea|exact Eb].
  - unfold if_bytes. lens. lia.
  - intros base c0 k x0 x Hpl Hat Hip Hp.
    assert (pos (if_bytes (0x70 + cc) a b) = pos a + pos b + 4) as Hl by (unfold if_bytes; lens; lia).
    destruct (code_at_bounds _ _ _ Hat) as [Hk Hk2]. destruct Hpl as [Hb0 Hb1]. rewrite Hl in Hk2 |- *.
    unfold if_bytes in Hat. apply code_at_app in Hat as [Hat1 Hat2].
    apply (code_at_app _ _ [0x70 + cc; u8 (pos a + 2)]) in Hat1 as [Hj Ha].
    apply (code_at_app _ _ [0xEB; u8 (pos b)]) in Hat2 as [Hd Hb].
    rewrite !pos_cons in Hb, Hd. change (pos [_; _]) with 2 in *.
    destruct (Hc x0 x Hp) as (t & Ht & HPt).
    assert (xstep base c0 x = Some (set_xip (base + k + 2 + if t then pos a + 2 else 0) x)) as Hst.
    { rewrite (xstep_at base c0 k [0x70 + cc; u8 (pos a + 2)] (Ijcc cc (pos a + 2)) x); [|done..|].
      2:{ intros l. cbn [app]. rewrite (dec_jcc8 cc), s8_small by (done || lia). done. }
      cbn [exec_at xf set_xip]. rewrite Ht. change (pos [_; _]) with 2. destruct t.
      - rewrite uN_id by (split; lia). by rewrite set_xip_xip.
      - by rewrite Z.add_0_r. }
    destruct t.
    + destruct (Xb base c0 (k + (1 + (1 + pos a)) + 2) x0 (set_xip (base + k + 2 + (pos a + 2)) x))
        as (x2 & Hs2 & Hi2 & Hq2); [done|exact Hb|cbn; lia|by apply IB|].
      exists x2. split_and!; [by econstructor|lia|done].
    + destruct (Xa base c0 (k + 2) x0 (set_xip (base + k + 2 + 0) x))
        as (x2 & Hs2 & Hi2 & Hq2); [done|exact Ha|cbn; lia|by apply IA|].
      exists (set_xip (base + k + (pos a + pos b + 4)) x2). split_and!; [|done|by apply IQ].
      eapply xsteps_step; [exact Hst|]. eapply xsteps_trans; [exact Hs2|].
      eapply xsteps_step; [|constructor].
      rewrite (xstep_at base c0 (k + (1 + (1 + pos a))) [0xEB; u8 (pos b)] (Ijmp (pos b)) x2); [|done|lia|done|].
      2:{ intros l. cbn [app]. rewrite dec_jmp8, s8_small by lia. done. }
      cbn [exec_at]. change (pos [_; _]) with 2. rewrite uN_id by (split; lia).
      rewrite set_xip_xip. do 2 f_equal. lia.
Qed.

(** ** Division *)

(** The division of the emitter, as nested conditionals. *)
Definition idiv_code (op : MOp.t) (w : bool) (D : Z) : EM unit :=
  (if w then emit cdq ;; emit (idiv_r32 REG_TMP) else emit cqo ;; emit (idiv_r REG_TMP)) ;;
  div_result op w D.

Definition udiv_code (op : MOp.t) (w : bool) (D : Z) : EM unit :=
  emit (xor_rr REG_ACC1 REG_ACC1) ;;
  (if w then emit (div_r32 REG_TMP) else emit (div_r REG_TMP)) ;;
  div_result op w D.

Definition div_code (op : MOp.t) (w : bool) (D S1 S2 : Z) : EM unit :=
  (div_operands op w S1 S2 ;; emit (or_rr REG_TMP REG_TMP)) ;;
  if_else 0x75 (div_by_zero op w D S1)
    (if is_signed op then
       emit (cmp_imm REG_TMP (-1)) ;; if_else 0x75 (div_by_m1 op w D) (idiv_code op w D)
     else udiv_code op w D).

Lemma m_DIV_code op w D S1 S2 e : m_DIV op w D S1 S2 e = div_code op w D S1 S2 e.
Proof.
  unfold m_DIV, div_code, if_else, idiv_code, udiv_code. destruct (is_signed op), w.
  all: cbv [mbind ST_bind gets].
  all: repeat match goal with |- context [match ?m with Ret _ => _ | Throw _ => _ | Undef => _ end] =>
         lazymatch m with context [match _ with Ret _ => _ | Throw _ => _ | Undef => _ end] => fail
         | _ => destruct m as [[]|ex|]; try done end end.
Qed.

(** ** The pieces of the division *)

(** From [x0], only [D] and the scratch registers have changed, and [P] holds. *)
Definition upto (D : Z) (P : Host -> Prop) (x0 x : Host) : Prop := only D x0 x /\ hwf x /\ P x.

Definition xipfree (P : Host -> Prop) : Prop := forall q x, P x -> P (set_xip q x).

Lemma only_trans D x y z : only D x y -> only D y z -> only D x z.
Proof.
  intros (M1 & R1 & W1) (M2 & R2 & W2). split_and!; [congruence| |auto].
  intros r Hr Hs. rewrite R2, R1; done.
Qed.

Lemma only_xip D q x y : only D x y -> only D x (set_xip q y).
Proof. intros (M & Hr & W). split_and!; [done|done|]. intros Hx. destruct (W Hx). by split. Qed.

Lemma upto_ipfree D P : xipfree P -> ipfree (upto D P).
Proof. intros HP q x0 x (Ho & [H I] & Hx). split_and!; [by apply only_xip|by split|by apply HP]. Qed.

Lemma run_upto m n l D (P Q : Host -> Prop) : STR m n l -> forallb plain l = true ->
  writes_only D l = true -> xipfree Q ->
  (forall x, hwf x -> P x -> exists x', xrun l x = Some x' /\ Q x') -> RUN m n (upto D P) (upto D Q).
Proof.
  intros Hm Hp Hw HQ Hx. eapply run_str; [exact Hm|done|by apply upto_ipfree|].
  intros x0 x (Ho & Hwf & HP). destruct (Hx x Hwf HP) as (x' & Hr & Hq).
  pose proof (xrun_only D l x x' Hp Hw Hr) as Ho'.
  exists x'. split; [done|]. split; [by eapply only_trans|]. split; [by apply Ho'|done].
Qed.

(** A straight-line piece. *)
Ltac piece :=
  eapply run_upto; [eapply str_weaken; [str; first [assumption | opnd | lia | by split]|lia]|done|only_tac|intros ? ? Hip; exact Hip|].

(** The dividend and the divisor in RAX and RCX. *)
Definition ext_val (op : MOp.t) (w : bool) (a : Z) : Z :=
  if w then if is_signed op then u64 (s32 a) else u32 a else a.

Definition divop (op : MOp.t) : bool :=
  match op with MOp.DIV | MOp.DIVU | MOp.REM | MOp.REMU => true | _ => false end.

Lemma u32_u64 x : u32 (u64 x) = u32 x.
Proof. unfold uN. apply Z.mod_mod_divide. exists (2 ^ 32). lia. Qed.

Lemma ext_val_zero op w b : inw 64 b -> ext_val op w b = 0 ->
  (w = false -> b = 0) /\ (w = true -> s32 b = 0) /\ (w = true -> u32 b = 0).
Proof.
  intros Hb. unfold ext_val. destruct w; [|done]. intros Hz.
  assert (u32 b = 0) as Hu.
  { destruct (is_signed op); [|done]. rewrite <- (uN_sN 32) by lia.
    rewrite <- (u32_u64 (s32 b)), Hz. done. }
  split_and!; [done|intros _|done]. rewrite <- (sN_uN 32), Hu by lia. done.
Qed.

Lemma ext_val_m1 op w b : is_signed op = true -> ext_val op w b = UINT64_MAX ->
  (w = false -> b = UINT64_MAX) /\ (w = true -> s32 b = -1).
Proof.
  intros Hs. unfold ext_val. rewrite Hs. destruct w; intros Hz; split; try done. intros _.
  pose proof (sN_range 32 b ltac:(lia)) as Hr.
  rewrite <- (sN_small 64 (s32 b)), <- (sN_uN 64 (s32 b)), Hz by (cbn in Hr |- *; lia). done.
Qed.

Lemma uN_opp w x : uN w (- uN w x) = uN w (- x).
Proof. unfold uN. rewrite <- !Z.sub_0_l. by rewrite Zminus_mod_idemp_r. Qed.

Lemma quot_m1 x : Z.quot x (-1) = - x.
Proof. change (-1) with (- (1)). by rewrite Z.quot_opp_r, Z.quot_1_r. Qed.

Lemma divw_m1 a b : s32 b = -1 -> op_DIVW a b = u64 (s32 (- s32 a)).
Proof.
  intros Hb. unfold op_DIVW. rewrite Hb. cbn [Z.eqb]. rewrite andb_true_r.
  pose proof (sN_range 32 a ltac:(lia)) as Hr. change (2 ^ (32 - 1)) with (2 ^ 31) in Hr. unfold INT32_MIN.
  destruct (Z.eqb_spec (s32 a) 0) as [->|]; [done|]. destruct (Z.eqb_spec (s32 a) (- 2 ^ 31)) as [->|]; [done|].
  rewrite quot_m1, (sN_small 32 (- s32 a)); [done|lia|]. change (2 ^ (32 - 1)) with (2 ^ 31). lia.
Qed.

Lemma div_m1 a b : inw 64 a -> b = UINT64_MAX -> op_DIV a b = u64 (- a).
Proof.
  intros Ha ->. unfold op_DIV. cbn [Z.eqb]. rewrite Z.eqb_refl, andb_true_r.
  destruct (Z.eqb_spec a 0) as [->|]; [done|]. destruct (Z.eqb_spec a (2 ^ 63)) as [->|]; [done|].
  change (s64 UINT64_MAX) with (-1). rewrite quot_m1.
  by rewrite <- (uN_opp 64 (s64 a)), uN_sN, uN_opp by lia.
Qed.

(** The dividend sign-extended into RDX. *)
Lemma wide_signed n A : 1 < n -> inw n A ->
  sN (2 * n) ((if Z.testbit A (n - 1) then 2 ^ n - 1 else 0) * 2 ^ n + A) = sN n A.
Proof.
  intros Hn HA. rewrite (sign_bit n) by (lia || done). pose proof (sN_range n A ltac:(lia)) as Hr.
  assert (2 ^ (2 * n - 1) = 2 ^ (n - 1) * 2 ^ n) as E1 by (rewrite <- Z.pow_add_r by lia; f_equal; lia).
  assert (2 ^ (2 * n) = 2 ^ n * 2 ^ n) as E2 by (rewrite <- Z.pow_add_r by lia; f_equal; lia).
  pose proof (pow2_pos n ltac:(lia)). pose proof (pow2_pos (n - 1) ltac:(lia)).
  assert (2 ^ n = 2 * 2 ^ (n - 1)) as E3 by (rewrite <- Z.pow_succ_r by lia; f_equal; lia).
  rewrite (sN_eq n A) in * by (lia || done). destruct HA as [H1 H2].
  destruct (Z.ltb_spec A (2 ^ (n - 1))).
  - rewrite (proj2 (Z.ltb_ge _ _)) by lia. apply sN_small; nia.
  - rewrite (proj2 (Z.ltb_lt _ _)) by lia. rewrite sN_eq by (lia || split; nia).
    rewrite (proj2 (Z.ltb_ge _ _)) by nia. nia.
Qed.

Lemma idiv_exec k W x : let n := width W in let A := uN n (xr x 0) in let B := uN n (xr x 1) in
  W = B32 \/ W = B64 -> uN n (xr x 2) = (if Z.testbit A (n - 1) then 2 ^ n - 1 else 0) ->
  B <> 0 -> sN n B <> -1 ->
  unary k W Xidiv (Oreg 1) x = Some (put_pair W (uN n (Z.quot (sN n A) (sN n B))) (uN n (Z.rem (sN n A) (sN n B))) x).
Proof.
  intros n A B HW H2 HB HB1. assert (1 < n) as Hn by (unfold n; by destruct HW as [-> | ->]).
  unfold unary, wide. cbn [get_op]. fold n A B.
  rewrite (proj2 (Z.eqb_neq B 0)), H2, wide_signed by (done || by apply uN_inw; lia).
  assert (sN n B <> 0) as Hs.
  { intros E. apply HB. rewrite <- (uN_id n B), <- uN_sN, E by (lia || apply uN_inw; lia). apply Zmod_0_l. }
  pose proof (quot_bound (sN n A) (sN n B) (n - 1) ltac:(lia) ltac:(apply sN_range; lia) Hs ltac:(done)) as [Hq1 Hq2].
  rewrite (proj2 (Z.ltb_ge _ _)), (proj2 (Z.leb_gt _ _)) by done. done.
Qed.

(** A straight-line piece run on the loaded operands. *)
Tactic Notation "leaf" uconstr(V) :=
  piece; intros x Hx [(P1 & P2 & P3) Hc]; eexists; (split; [reflexivity|]);
  intros r Hr; rewrite V in Hr by auto; injection Hr as <-; cbn; regs;
  change REG_ACC0 with 0; change REG_TMP with 1; rewrite ?P1, ?P2, ?P3; unfold ext_val; cbn [is_signed]; rewrite ?uN_uN by lia.

Lemma testbit_uN n x : 0 < n -> Z.testbit (uN n x) (n - 1) = Z.testbit x (n - 1).
Proof. intros. rewrite uN_bits by lia. by rewrite (proj2 (Z.ltb_lt (n - 1) n)) by lia. Qed.

Lemma divw_signed a b : s32 b <> 0 -> s32 b <> -1 -> u64 (s32 (u32 (Z.quot (s32 a) (s32 b)))) = op_DIVW a b.
Proof.
  intros H0 H1. unfold op_DIVW. rewrite sN_uN, (proj2 (Z.eqb_neq (s32 b) 0)) by (done || lia).
  destruct (Z.eqb_spec (s32 a) 0) as [->|]; [by rewrite Z.quot_0_l|].
  rewrite (proj2 (Z.eqb_neq (s32 b) (-1))), andb_false_r, sN_small; [done|lia| |done].
  apply (quot_bound _ _ (32 - 1)); [lia|apply sN_range; lia|done|done].
Qed.

Lemma div_signed a b : inw 64 b -> s64 b <> 0 -> s64 b <> -1 -> u64 (Z.quot (s64 a) (s64 b)) = op_DIV a b.
Proof.
  intros Hb H0 H1. unfold op_DIV. rewrite (proj2 (Z.eqb_neq b 0)) by (by intros ->).
  destruct (Z.eqb_spec a 0) as [->|]; [by rewrite Z.quot_0_l|].
  rewrite (proj2 (Z.eqb_neq b UINT64_MAX)), andb_false_r by (by intros ->). done.
Qed.

Lemma remw_signed a b : s32 b <> 0 -> s32 b <> -1 -> u64 (s32 (u32 (Z.rem (s32 a) (s32 b)))) = op_REMW a b.
Proof.
  intros H0 H1. unfold op_REMW. rewrite sN_uN, (proj2 (Z.eqb_neq (s32 b) 0)) by (done || lia).
  rewrite (proj2 (Z.eqb_neq (s32 b) (-1))), andb_false_r, sN_small; [done|lia| |done].
  pose proof (Z.rem_bound_abs (s32 a) (s32 b) H0). pose proof (sN_range 32 b ltac:(lia)). lia.
Qed.

Lemma rem_signed a b : inw 64 b -> s64 b <> 0 -> s64 b <> -1 -> u64 (Z.rem (s64 a) (s64 b)) = op_REM a b.
Proof.
  intros Hb H0 H1. unfold op_REM. rewrite (proj2 (Z.eqb_neq b 0)) by (by intros ->).
  rewrite (proj2 (Z.eqb_neq b UINT64_MAX)), andb_false_r by (by intros ->). done.
Qed.

Section division.
Context (D S1 S2 a b : Z) (HD : pool D) (HS1 : pool S1) (HS2 : pool S2) (Ha : inw 64 a) (Hb : inw 64 b).

Definition loaded (op : MOp.t) (w : bool) (x : Host) : Prop :=
  xr x S1 = a /\ xr x 0 = ext_val op w a /\ xr x 1 = ext_val op w b.

(** The operands are loaded, and the path to this point implies [C]. *)
Definition on_path (op : MOp.t) (w : bool) (C : Prop) (x : Host) : Prop := loaded op w x /\ C.

(** The zero flag says whether the divisor is [v]. *)
Definition tested (op : MOp.t) (w : bool) (C : Prop) (v : Z) (x : Host) : Prop :=
  on_path op w C x /\ fZF (xf x) = Some (ext_val op w b =? v).

Definition result (op : MOp.t) (w : bool) (x : Host) : Prop := m_agrees op w a b (xr x D).

Lemma div_operands_ok op w :
  RUN (div_operands op w S1 S2 ;; emit (or_rr REG_TMP REG_TMP)) 16
    (upto D (operands true true S1 S2 a b)) (upto D (tested op w True 0)).
Proof.
  unfold div_operands, tested, on_path, loaded, ext_val, operands, pool in *.
  destruct w; [destruct (is_signed op)|]; piece; intros x Hx [P1 P2];
    eexists; (split; [reflexivity|]); cbn; regs; val Ha Hb; rewrite ?Z.lor_diag.
  all: rewrite ?sN_uN, ?uN_uN, ?(uN_id 64 (u32 b)), ?(uN_id 64 b Hb) by (lia || apply u32_inw64); done.
Qed.

(** The divisor is zero. *)
Lemma div_by_zero_val op w : divop op = true -> ext_val op w b = 0 ->
  m_val op w a b = Ret (match op with MOp.REM => if w then u64 (s32 a) else a | MOp.REMU => a | _ => UINT64_MAX end).
Proof.
  intros Hop Hz. destruct (ext_val_zero op w b Hb Hz) as (? & ? & ?). destruct op, w; try done; cbn [m_val];
    unfold op_DIV, op_DIVW, op_DIVU, op_DIVUW, op_REM, op_REMW, op_REMU, op_REMUW;
    rewrite (proj2 (Z.eqb_eq _ 0)) by auto; done.
Qed.

Lemma div_by_zero_ok op w C : divop op = true -> (C -> ext_val op w b = 0) ->
  RUN (div_by_zero op w D S1) 8 (upto D (on_path op w C)) (upto D (result op w)).
Proof.
  intros Hop HC. unfold div_by_zero, mov_unless, pool in *.
  assert ((D =? REG_ACC0) = false) as -> by (unfold REG_ACC0, REG_RAX; lia).
  destruct op, w; try done; cbn [is_rem negb andb bool_decide decide decide_rel];
   repeat (case_bool_decide; try done); cbn [andb].
  7: destruct (Z.eqb_spec D S1) as [HDS|]; cbn [negb].
  all: leaf (div_by_zero_val _ _ Hop); rewrite ?(uN_id 64 a Ha) by done; try done.
  by rewrite HDS.
Qed.

(** The divisor is -1. *)
Lemma div_by_m1_val op w : divop op = true -> is_signed op = true -> ext_val op w b = UINT64_MAX ->
  m_val op w a b = Ret (match op with MOp.REM => 0 | _ => if w then u64 (s32 (- s32 a)) else u64 (- a) end).
Proof.
  intros Hop Hsg Hz. destruct (ext_val_m1 op w b Hsg Hz) as [H0 H1].
  destruct op, w; try done; cbn [m_val]; f_equal.
  - apply divw_m1; auto.
  - apply div_m1; auto.
  - unfold op_REMW. rewrite H1 by done. destruct (_ && _); [done|].
    change (-1) with (- (1)). by rewrite Z.rem_opp_r, Z.rem_1_r by done.
  - unfold op_REM. rewrite H0 by done. change (s64 UINT64_MAX) with (- (1)). destruct (_ && _); [done|].
    by rewrite Z.rem_opp_r, Z.rem_1_r by done.
Qed.

Lemma div_by_m1_ok op w C : divop op = true -> is_signed op = true -> (C -> ext_val op w b = UINT64_MAX) ->
  RUN (div_by_m1 op w D) 12 (upto D (on_path op w C)) (upto D (result op w)).
Proof.
  intros Hop Hsg HC. unfold div_by_m1, mov_unless, pool in *.
  assert ((D =? REG_ACC0) = false) as -> by (unfold REG_ACC0, REG_RAX; lia).
  destruct op, w; try done; cbn [is_rem negb].
  all: leaf (div_by_m1_val _ _ Hop Hsg); rewrite ?Z.lxor_nilpotent, ?(uN_id 64 a Ha) by done; try done.
  rewrite sN_uN, u32_u64, uN_sN by lia. apply u64_s32_mod.
  rewrite <- (uN_opp 32 (s32 a)), uN_sN, uN_opp by lia. done.
Qed.

Lemma idiv_run op w x : is_signed op = true -> loaded op w x ->
  ext_val op w b <> 0 -> ext_val op w b <> UINT64_MAX -> let n := width (wsize w) in
  exists x1, xrun [Iextend (wsize w); Iunary (wsize w) Xidiv (Oreg REG_TMP)] x = Some x1 /\
    xr x1 0 = uN n (Z.quot (sN n a) (sN n b)) /\ xr x1 2 = uN n (Z.rem (sN n a) (sN n b)) /\
    sN n b <> 0 /\ sN n b <> -1.
Proof.
  intros Hsg (P1 & P2 & P3) Hz Hm n.
  assert (forall c, uN n (ext_val op w c) = uN n c) as He.
  { intros c. unfold n, ext_val. destruct w; [|done]. rewrite Hsg. cbn [wsize width]. by rewrite u32_u64, uN_sN by lia. }
  assert (uN n b <> 0) as Hb0.
  { intros E. apply Hz. unfold ext_val. rewrite Hsg. destruct w; cbn [n wsize width] in E.
    - rewrite <- (sN_uN 32), E by lia. done.
    - by rewrite <- (uN_id 64 b). }
  assert (sN n b <> -1) as Hb1.
  { intros E. apply Hm. unfold ext_val. rewrite Hsg. destruct w; cbn [n wsize width] in E.
    - by rewrite E.
    - rewrite <- (uN_id 64 b), <- uN_sN, E by (done || lia). done. }
  cbn [xrun]. unfold xeval. cbn [exec_at mbind option_bind]. change REG_TMP with 1.
  set (x1 := put_reg (wsize w) 2 _ x).
  assert (xr x1 0 = ext_val op w a) as Q2 by (unfold x1; by destruct w).
  assert (xr x1 1 = ext_val op w b) as Q3 by (unfold x1; by destruct w).
  rewrite idiv_exec; fold n; rewrite ?Q2, ?Q3, ?He, ?sN_uN by (by destruct w).
  - eexists. split; [reflexivity|]. unfold put_pair, n. split_and!; [by destruct w; cbn; rewrite ?uN_uN..| |done].
    intros E. change (sN n b = 0) in E. apply Hb0. rewrite <- uN_sN, E by (by destruct w). apply Zmod_0_l.
  - by destruct w; auto.
  - rewrite <- (He a), testbit_uN, <- P2 by (by destruct w).
    unfold x1, n. destruct w; cbn [wsize width put_reg xr set_xr]; rewrite upd_eq; by destruct (Z.testbit _ _).
  - done.
  - done.
Qed.

Lemma idiv_ok op w (C : Prop) : divop op = true -> is_signed op = true ->
  (C -> ext_val op w b <> 0) -> (C -> ext_val op w b <> UINT64_MAX) ->
  RUN (idiv_code op w D) 16 (upto D (on_path op w C)) (upto D (result op w)).
Proof.
  intros Hop Hsg Hz Hm1. unfold idiv_code, div_result, result, mov_unless, pool in *.
  assert ((D =? REG_ACC0) = false) as E0 by (unfold REG_ACC0, REG_RAX; lia).
  assert ((D =? REG_ACC1) = false) as E1 by (unfold REG_ACC1, REG_RDX; lia).
  destruct op, w; try done; cbn [is_rem]; rewrite ?E0, ?E1; cbn [negb].
  all: piece; intros x Hx [HP HC]; destruct (idiv_run _ _ x Hsg HP (Hz HC) (Hm1 HC)) as (x1 & Hr & R0 & R2 & B0 & B1);
     rewrite xrun_app; cbn [app] in Hr |- *; cbn [wsize width] in *; rewrite Hr; cbn [mbind option_bind];
     eexists; (split; [reflexivity|]); intros r [= <-]; cbn; regs; change REG_ACC0 with 0; change REG_ACC1 with 2; rewrite ?R0, ?R2, ?uN_uN by lia.
  - by apply divw_signed.
  - by apply div_signed.
  - by apply remw_signed.
  - by apply rem_signed.
Qed.

Lemma udiv_run op w x : is_signed op = false -> loaded op w x -> ext_val op w b <> 0 ->
  let n := width (wsize w) in
  exists x1, xrun [Ialu_store B64 Xxor (Oreg REG_ACC1) REG_ACC1; Iunary (wsize w) Xdiv (Oreg REG_TMP)] x = Some x1 /\
    xr x1 0 = uN n a / uN n b /\ xr x1 2 = uN n a mod uN n b /\ uN n b <> 0.
Proof.
  intros Hsg (P1 & P2 & P3) Hz n.
  assert (1 < n) as Hn by (unfold n; by destruct w).
  assert (forall c, inw 64 c -> ext_val op w c = uN n c) as He.
  { intros c Hc. unfold n, ext_val. rewrite Hsg. destruct w; [done|]. symmetry. by apply (uN_id 64). }
  rewrite He in * by done.
  cbn [xrun]. unfold xeval. cbn [exec_at mbind option_bind]. change REG_TMP with 1. change REG_ACC1 with 2.
  set (x1 := alu_to _ _ _ _ _ x).
  assert (xr x1 0 = uN n a) as Q2 by done. assert (xr x1 1 = uN n b) as Q3 by done.
  assert (xr x1 2 = 0) as Q4 by (unfold x1; cbn; by rewrite Z.lxor_nilpotent).
  unfold unary, wide. cbn [get_op]. fold n. rewrite Q2, Q3, Q4, !uN_uN by lia.
  change (uN n 0) with (0 mod 2 ^ n). rewrite Zmod_0_l, Z.mul_0_l, Z.add_0_l.
  rewrite (proj2 (Z.eqb_neq _ 0)) by done.
  destruct (uN_inw n a ltac:(lia)) as [A0 A1]. destruct (uN_inw n b ltac:(lia)) as [B0 B1].
  assert (0 <= uN n a / uN n b < 2 ^ n) as Hq.
  { split; [apply Z.div_pos; lia|]. apply Z.le_lt_trans with (uN n a); [|done]. apply Z.div_le_upper_bound; nia. }
  pose proof (Z.mod_pos_bound (uN n a) (uN n b) ltac:(lia)) as Hr.
  rewrite (proj2 (Z.leb_gt _ _)) by lia.
  eexists. split; [reflexivity|]. unfold put_pair.
  assert (forall v, 0 <= v < 2 ^ n -> uN n v = v) as Hid by (intros; by apply uN_id).
  split_and!; [..|done]; unfold n in *; destruct w; cbn; apply Hid; cbn [wsize width] in *; lia.
Qed.

Lemma udiv_ok op w (C : Prop) : divop op = true -> is_signed op = false -> (C -> ext_val op w b <> 0) ->
  RUN (udiv_code op w D) 16 (upto D (on_path op w C)) (upto D (result op w)).
Proof.
  intros Hop Hsg Hz. unfold udiv_code, div_result, result, mov_unless, pool in *.
  assert ((D =? REG_ACC0) = false) as E0 by (unfold REG_ACC0, REG_RAX; lia).
  assert ((D =? REG_ACC1) = false) as E1 by (unfold REG_ACC1, REG_RDX; lia).
  destruct op, w; try done; cbn [is_rem]; rewrite ?E0, ?E1; cbn [negb].
  all: piece; intros x Hx [HP HC]; destruct (udiv_run _ _ x Hsg HP (Hz HC)) as (x1 & Hr & R0 & R2 & B0);
    match goal with |- context [xrun ([?i] ++ [?j] ++ ?l) x] =>
      change ([i] ++ [j] ++ l) with ([i; j] ++ l) end;
    rewrite xrun_app; cbn [wsize width] in *; rewrite Hr; cbn [mbind option_bind];
    eexists; (split; [reflexivity|]); intros r [= <-]; cbn; regs; change REG_ACC0 with 0; change REG_ACC1 with 2;
    rewrite ?R0, ?R2, ?uN_uN by lia.
  all: unfold op_DIVUW, op_DIVU, op_REMUW, op_REMU; rewrite ?uN_sN by lia; rewrite ?(uN_id 64 a Ha), ?(uN_id 64 b Hb) in * by done;
    rewrite (proj2 (Z.eqb_neq _ 0)) by done.
  - rewrite sN_uN by lia. by destruct (Z.eqb_spec (u32 a) 0) as [->|].
  - destruct (Z.eqb_spec a 0) as [->|]; [done|]. destruct Ha, Hb. apply uN_id. split; [apply Z.div_pos; lia|].
    apply Z.le_lt_trans with a; [apply Z.div_le_upper_bound; nia|done].
  - by rewrite sN_uN by lia.
  - destruct Ha, Hb. apply uN_id. pose proof (Z.mod_pos_bound a b ltac:(lia)). split; lia.
Qed.

Lemma cmp_m1_ok op w C : RUN (emit (cmp_imm REG_TMP (-1))) 8
  (upto D (on_path op w C)) (upto D (tested op w C UINT64_MAX)).
Proof.
  unfold tested, on_path, loaded. piece. intros x [Hx _] ((P1 & P2 & P3) & HC). specialize (Hx 1).
  eexists; (split; [reflexivity|]); cbn. change (xr x REG_TMP) with (xr x 1). rewrite (uN_id 64 (xr x 1)), P1, P2, P3 by done.
  split; [done|]. f_equal. rewrite <- P3.
  destruct Hx as [H0 H1]. change (u64 (-1)) with UINT64_MAX. unfold UINT64_MAX. unfold uN.
  destruct (Z.eqb_spec (xr x 1) (2 ^ 64 - 1)) as [->|]; [done|]. apply Z.eqb_neq.
  replace (xr x 1 - (2 ^ 64 - 1)) with (xr x 1 + 1 + (-1) * 2 ^ 64) by lia.
  rewrite Z_mod_plus_full, Z.mod_small by lia. lia.
Qed.

(** The conditional on the zero flag: [A] when the divisor is [v]. *)
Lemma run_tested op w C v A B nA nB (Q : Host -> Host -> Prop) : 0 <= nA < 126 -> 0 <= nB < 128 -> ipfree Q ->
  RUN A nA (upto D (on_path op w (C /\ ext_val op w b = v))) Q ->
  RUN B nB (upto D (on_path op w (C /\ ext_val op w b <> v))) Q ->
  RUN (if_else 0x75 A B) (nA + nB + 4) (upto D (tested op w C v)) Q.
Proof.
  intros HnA HnB HQ HA HB. eapply (run_if 5); [by split|done|done| | |done|exact HA|exact HB|].
  1, 2: apply upto_ipfree; intros q x Hx; exact Hx.
  intros x0 x (Ho & Hwf & [HP HC] & Hz). unfold cond. rewrite Hz. cbn.
  eexists. split; [reflexivity|]. destruct (Z.eqb_spec (ext_val op w b) v); split_and!; done.
Qed.

Lemma m_DIV_ok op w : divop op = true ->
  RUN (m_DIV op w D S1 S2) 96 (upto D (operands true true S1 S2 a b)) (upto D (result op w)).
Proof.
  intros Hop. eapply run_ext; [intros e; symmetry; apply m_DIV_code|].
  assert (ipfree (upto D (result op w))) as HQ by (apply upto_ipfree; by intros ? ? ?).
  eapply (run_weaken _ (16 + (8 + 40 + 4))); [|lia|done..].
  eapply (run_seq _ _ 16); [lia|apply div_operands_ok|].
  eapply (run_tested _ _ _ _ _ _ 8 40); [lia..|done|by apply div_by_zero_ok; [|intros []]|].
  destruct (is_signed op) eqn:Hsg.
  - eapply (run_seq _ _ 8 32); [lia|apply cmp_m1_ok|].
    eapply (run_tested _ _ _ _ _ _ 12 16); [lia..|done| |].
    + apply div_by_m1_ok; [done..|]. tauto.
    + apply idiv_ok; [done..| |]; tauto.
  - eapply (run_weaken _ 16); [|lia|done..]. apply udiv_ok; [done..|]. tauto.
Qed.

End division.
