(* ===== verification/JitIns.v ===== *)
(** * The code of one instruction, with the register allocator

    [gen_emit_r], [gen_emit_i], [gen_emit_m], [gen_emit_u]: from a state that
    holds the guest registers [g], the code of an arithmetic instruction leads
    to one that holds [g] with the destination updated by the interpreter's
    operation, and the tables of the allocator stay consistent. *)

From S2P Require Import Prelude Decode State Rv64i Rv64m X86 X86Enc X86Code JitEmit JitAlu JitGen JitAlloc JitSim JitDiv.
Import x86.

Lemma gen_run e m n (I : Host -> Prop) (P Q : Host -> Host -> Prop) QM : RUN m n P Q ->
  GEN e m n (fun x => exists y, I y /\ P y x)
    (fun _ e' hs => hs = [] /\ exists c, e' = with_code e c)
    (fun _ _ x' => exists y, I y /\ Q y x') QM.
Proof.
  intros Hm Hs. destruct (Hm e Hs) as (bs & Em & Hn & Hx).
  eexists tt, _, bs, []. split_and!; [exact Em|done|done|apply in_range_nil|done|by eexists|].
  intros base c T x Hpl HT Hat Hip (y & Hy & Hp).
  destruct (Hx base c _ y x Hpl Hat Hip Hp) as (x' & Hst & Hi & Hq).
  exists x'. split; [done|]. left. eauto.
Qed.

Lemma run_computes m n D P V : computes m n D P V -> RUN m n (upto D P) (upto D (fun x => V (xr x D))).
Proof.
  intros (l & Hm & Hp & Hw & Hx). by eapply run_upto; [..|intros q x H; exact H|].
Qed.

Lemma only_refl D x : only D x x.
Proof. by split_and!. Qed.

(** The sign extension of the W forms. *)
Definition sext_w (w : bool) (D : Z) : EM unit := if w then emit (movsxd D D) else mret tt.

Lemma sext_ok w D val : pool D ->
  RUN (sext_w w D) 8 (upto D (fun x => fin w (xr x D) = val)) (upto D (fun x => xr x D = val)).
Proof.
  unfold pool, sext_w. intros HD. destruct w; piece; intros x Hx HP; eexists; (split; [reflexivity|]).
  - cbn. regs. by rewrite sN_uN by lia.
  - done.
Qed.

Section ins.
Context (rb ctx : Z) (x0 : Host) (Hrb : 0 <= rb /\ rb + 256 <= 2 ^ 64).
Abbreviation R := (R rb ctx x0).
Abbreviation Rw := (Rw rb ctx x0).

(** What an instruction leaves of the emitter. *)
Definition kept_ctx {A} (e : JIT_Emitter) : A -> JIT_Emitter -> list Hole -> Prop :=
  fun _ e' hs => hs = [] /\ alloc_ok None e' /\ ctx_of e' = ctx_of e.

Definition marked (v : Z) (e : JIT_Emitter) : JIT_Emitter := put_vreg v (mkVReg (slot (vreg e v)) true) e.

(** The value written, the destination is marked and sign-extended. *)
Lemma gen_finish e v D g w val (I : Host -> Prop) QM :
  alloc_ok None e -> 1 <= v < 32 -> has_reg v D e -> (forall y, I y -> Rw v e g y) ->
  GEN e (mark_dirty v ;; sext_w w D) 8
    (fun x => exists y, I y /\ upto D (fun x => fin w (xr x D) = val) y x)
    (kept_ctx e) (fun _ e' x => R e' (upd g v val) x) QM.
Proof.
  intros He Hv Hd HI. destruct Hd as [Hs ->]. set (D := phys (slot (vreg e v))).
  pose proof (phys_range _ (proj1 (slot_range None e v He ltac:(lia) Hs))) as HD. fold D in HD.
  apply (gen_step e (marked v e) _ (sext_w w D)); [done..|].
  eapply gen_weaken; [apply (gen_run _ _ 8 I _ _ _ (sext_ok w D val HD))|done|intros x Hx; exact Hx| | |intros A o h x H; exact H].
  - intros a e' hs [-> [c ->]]. split; [done|]. split; [|done].
    by apply (alloc_ok_view None (marked v e)), mark_ok.
  - intros a e' hs x [-> [c ->]] (y & Hy & Ho & Hwf & Hval).
    apply (R_view _ _ _ (marked v e) _ _ x); [done..|]. by eapply R_write; eauto.
Qed.

(** The code of the operation, then [gen_finish]. *)
Lemma gen_result e m n v D g w val (I P : Host -> Prop) QM :
  alloc_ok None e -> 1 <= v < 32 -> has_reg v D e -> (forall y, I y -> Rw v e g y /\ P y) ->
  RUN m n (upto D P) (upto D (fun x => fin w (xr x D) = val)) ->
  GEN e (m ;; mark_dirty v ;; sext_w w D) (n + 8) I
    (kept_ctx e) (fun _ e' x => R e' (upd g v val) x) QM.
Proof.
  intros He Hv Hd HI Hm.
  apply (gen_pre e _ _ (fun x => exists y, I y /\ upto D P y x)).
  - eapply (gen_bind e m _ n 8); [lia|apply (gen_run _ _ _ I _ _ _ Hm)|].
    intros [] e' hs1 [-> [c ->]]. apply (gen_finish (with_code e c)); [by apply (alloc_ok_view None e)|done|done|].
    intros y Hy. apply HI in Hy as [[Hr Hp] _]. split; [|done]. eapply (R_view _ _ _ e); [done..|exact Hr].
  - intros x Hx. exists x. split; [done|]. destruct (HI x Hx) as [Hrw HP].
    split; [apply only_refl|]. split; [by eapply Rw_hwf|done].
Qed.

(** ** The operands *)

Lemma kept_none e e' : kept KEEP_NONE e e'.
Proof. unfold kept, KEEP_NONE. lia. Qed.

(** The source [s], if it is read ([r]), is in the host register [p]. *)
Definition src_reg (r : bool) (s p : Z) (e : JIT_Emitter) : Prop := if r then has_reg s p e else True.

Lemma src_kept r s p e e' : 0 <= s < 32 -> kept s e e' -> src_reg r s p e -> src_reg r s p e'.
Proof. destruct r; [|done]. intros. by eapply has_reg_kept. Qed.

Lemma gen_src (r : bool) e s keep g QM : alloc_ok None e -> 0 <= s < 32 ->
  GEN e (if r then hreg_for_read s keep else mret NO_REG) 16 (R e g)
    (fun p e' hs => hs = [] /\ alloc_ok None e' /\ ctx_of e' = ctx_of e /\
       src_reg r s p e' /\ kept keep e e')
    (fun _ e' x => R e' g x) QM.
Proof.
  intros He Hs. destruct r; [by apply gen_read|].
  eapply (gen_le _ _ 0); [|lia]. by apply gen_ret; [split_and!|].
Qed.

(** The second source, which may be the first; [r1] is true when they coincide
    and are read. *)
Lemma gen_src2 (r1 r2 : bool) e s1 s2 p1 g QM : alloc_ok None e -> 0 <= s1 < 32 -> 0 <= s2 < 32 ->
  src_reg r1 s1 p1 e -> (s2 = s1 -> r2 = true -> r1 = true) ->
  GEN e (if r2 then if s2 =? s1 then mret p1 else hreg_for_read s2 s1 else mret NO_REG) 16 (R e g)
    (fun p e' hs => hs = [] /\ alloc_ok None e' /\ ctx_of e' = ctx_of e /\
       src_reg r1 s1 p1 e' /\ src_reg r2 s2 p e')
    (fun _ e' x => R e' g x) QM.
Proof.
  intros He Hs1 Hs2 Hp Hr. destruct (Z.eqb_spec s2 s1) as [->|].
  - eapply (gen_le _ _ 0); [|lia]. destruct r2; [rewrite Hr in * by done|]; by apply gen_ret; [split_and!|].
  - eapply gen_weaken; [by apply (gen_src r2 e s2 s1)|done|done| |done|done].
    intros p e' hs (-> & He' & Hc & H2 & Hk). split_and!; try done. by eapply src_kept.
Qed.

(** The sources in host registers, the destination ready to be written. *)
Definition ready (r1 r2 : bool) (rd s1 s2 p1 p2 : Z) (e : JIT_Emitter) (g : Z -> Z) (x : Host) : Prop :=
  Rw rd e g x /\ operands r1 r2 p1 p2 (g s1) (g s2) x.

(** The host register of a source holds its value, if the source was read before
    the destination got its register. *)
Lemma src_value e rd s p D g x : alloc_ok None e -> 1 <= rd < 32 -> 0 <= s < 32 -> has_reg s p e ->
  has_reg rd D e -> Rw rd e g x -> (s = rd -> R e g x) -> xr x p = g s.
Proof.
  intros He Hrd Hs Hp [Hd0 HD] Hrw Hr. destruct (decide (s = rd)) as [->|Hn].
  - destruct Hp as [Hp0 ->]. by apply (r_slot _ _ _ _ _ _ (Hr eq_refl)); [lia|].
  - by eapply (Rw_reg _ _ _ rd s p e g x); try done; lia.
Qed.

(** The destination, protecting [k1] and [k2] from eviction. *)
Lemma gen_dst r1 r2 e rd k1 k2 s1 s2 p1 p2 g QM : alloc_ok None e -> 1 <= rd < 32 -> 0 <= s1 < 32 -> 0 <= s2 < 32 ->
  src_reg r1 s1 p1 e -> src_reg r2 s2 p2 e -> (r1 = true -> k1 = s1) -> (r2 = true -> k2 = s2) ->
  GEN e (hreg_for_write rd k1 k2) 8 (R e g)
    (fun D e' hs => hs = [] /\ alloc_ok None e' /\ ctx_of e' = ctx_of e /\ has_reg rd D e' /\
       src_reg r1 s1 p1 e' /\ src_reg r2 s2 p2 e')
    (fun _ e' x => ready r1 r2 rd s1 s2 p1 p2 e' g x) QM.
Proof.
  intros He Hrd Hs1 Hs2 H1 H2 K1 K2.
  assert (forall r s p k e', 0 <= s < 32 -> (r = true -> k = s) -> kept k e e' -> src_reg r s p e -> src_reg r s p e') as Hk.
  { intros [] s p k e' Hs Hsk Hk Hp; [|done]. rewrite Hsk in Hk by done. by eapply src_kept. }
  eapply gen_weaken; [apply (gen_write rb ctx x0 Hrb rd k1 k2 e g); [done|lia]|done|done| | |done].
  - intros D e' hs (-> & He' & Hc & Hd & J1 & J2 & _). split_and!; try done; by eapply Hk.
  - intros D e' hs x (-> & He' & Hc & Hd & J1 & J2 & J3) [Hrw Hr]. split; [done|].
    assert (forall r s p k, 0 <= s < 32 -> (r = true -> k = s) -> kept k e e' -> src_reg r s p e ->
      if r then xr x p = g s else True) as Hv.
    { intros r s p k Hs Hsk Hkk Hp. pose proof (Hk r s p k e' Hs Hsk Hkk Hp) as Hp'. destruct r; [|done].
      eapply src_value; eauto. intros ->. apply Hr, Hp. }
    split; by eapply Hv.
Qed.

(** ** The instructions *)

(** The guest registers hold 64-bit numbers, and [x0] is zero. *)
Definition guest (g : Z -> Z) : Prop := g 0 = 0 /\ forall v, 0 <= v < 32 -> inw 64 (g v).

Lemma src_pool (r : bool) e s p : alloc_ok None e -> 0 <= s < 32 -> src_reg r s p e -> if r then pool p else True.
Proof. intros He Hs Hp. destruct r; [|done]. by eapply has_reg_range. Qed.

Lemma src_ok e s p g : alloc_ok None e -> 0 <= s < 32 -> src_reg (negb (s =? 0)) s p e -> guest g ->
  (if negb (s =? 0) then pool p else g s = 0) /\ inw 64 (g s).
Proof.
  intros He Hs Hp [H0 Hg]. split; [|by apply Hg]. pose proof (src_pool _ _ _ _ He Hs Hp).
  by destruct (Z.eqb_spec s 0) as [->|]; cbn [negb] in *.
Qed.

(** An instruction that leaves [val] in [rd]. *)
Definition gen_ins (m : EM unit) (rd n : Z) (g : Z -> Z) (val : Z) : Prop :=
  forall e QM, alloc_ok None e -> GEN e m n (R e g) (kept_ctx e) (fun _ e' x => R e' (upd g rd val) x) QM.

(** The code of an operation in a state where the destination can be written. *)
Lemma gen_op_at e e0 rd D m n w val g (I P : Host -> Prop) QM :
  alloc_ok None e -> 1 <= rd < 32 -> has_reg rd D e -> ctx_of e = ctx_of e0 ->
  (forall y, I y -> Rw rd e g y /\ P y) ->
  RUN m n (upto D P) (upto D (fun x => fin w (xr x D) = val)) ->
  GEN e (m ;; mark_dirty rd ;; sext_w w D) (n + 8) I
    (kept_ctx e0) (fun _ e' x => R e' (upd g rd val) x) QM.
Proof.
  intros He Hrd HD Hc HI Hm.
  eapply gen_weaken; [exact (gen_result e m n rd D g w val I P QM He Hrd HD HI Hm)|done|done| |done|done].
  intros a e' hs (-> & He' & Hc'). split_and!; [done..|congruence].
Qed.

Lemma gen_op r1 r2 e e0 rd s1 s2 p1 p2 D m n w val g QM :
  alloc_ok None e -> 1 <= rd < 32 -> has_reg rd D e -> ctx_of e = ctx_of e0 ->
  RUN m n (upto D (operands r1 r2 p1 p2 (g s1) (g s2))) (upto D (fun x => fin w (xr x D) = val)) ->
  GEN e (m ;; mark_dirty rd ;; sext_w w D) (n + 8) (ready r1 r2 rd s1 s2 p1 p2 e g)
    (kept_ctx e0) (fun _ e' x => R e' (upd g rd val) x) QM.
Proof. intros He Hrd HD Hc Hm. eapply gen_op_at; [done..| |exact Hm]. by intros y Hy. Qed.

Lemma gen_emit_r rd s1 s2 op w g : 1 <= rd < 32 -> 0 <= s1 < 32 -> 0 <= s2 < 32 -> guest g ->
  op <> ALUOp.LUI -> op <> ALUOp.AUIPC -> (w = true -> has_w op = true) ->
  gen_ins (emit_r_to rd s1 s2 op w) rd 72 g (r_val op w (g s1) (g s2)).
Proof.
  intros Hrd Hs1 Hs2 Hg Ho1 Ho2 Hw e QM He. unfold emit_r_to.
  set (r1 := negb (s1 =? 0)). set (r2 := negb (s2 =? 0)).
  eapply (gen_bind _ _ _ 16 56); [lia|by apply (gen_src r1)|]. intros p1 e1 h1 (-> & He1 & C1 & P1 & _).
  eapply (gen_bind _ _ _ 16 40); [lia|apply (gen_src2 r1 r2 e1 s1 s2 p1); try done; by intros ->|].
  intros p2 e2 h2 (-> & He2 & C2 & Q1 & Q2).
  eapply (gen_bind _ _ _ 8 32); [lia|by apply (gen_dst r1 r2 e2 rd s1 s2 s1 s2 p1 p2)|].
  intros D e3 h3 (-> & He3 & C3 & HD & T1 & T2).
  destruct (src_ok e3 s1 p1 g) as [O1 I1]; [done..|]. destruct (src_ok e3 s2 p2 g) as [O2 I2]; [done..|].
  assert (pool D) as HpD by (eapply has_reg_range; [exact He3| |exact HD]; lia).
  apply (gen_op r1 r2 e3 e rd s1 s2 p1 p2 D _ 24); [done..|congruence|].
  apply (run_computes _ _ _ _ (fun v => fin w v = r_val op w (g s1) (g s2))), r_body_ok; auto. by split_and!.
Qed.

Lemma gen_emit_i rd s1 im op w g : 1 <= rd < 32 -> 0 <= s1 < 32 -> guest g ->
  op <> ALUOp.LUI -> op <> ALUOp.AUIPC -> op <> ALUOp.SUB -> (w = true -> has_w op = true) -> i_imm_ok op w im ->
  gen_ins (emit_i_to rd s1 im op w) rd 56 g (i_val op w (g s1) (if is_shift op then im else u64 im)).
Proof.
  intros Hrd Hs1 Hg Ho1 Ho2 Ho3 Hw Him e QM He. unfold emit_i_to. set (r1 := negb (s1 =? 0)).
  eapply (gen_bind _ _ _ 16 40); [lia|by apply (gen_src r1)|]. intros p1 e1 h1 (-> & He1 & C1 & P1 & _).
  eapply (gen_bind _ _ _ 8 32); [lia|by apply (gen_dst r1 false e1 rd s1 KEEP_NONE s1 s1 p1 0)|].
  intros D e3 h3 (-> & He3 & C3 & HD & T1 & _).
  destruct (src_ok e3 s1 p1 g) as [O1 I1]; [done..|].
  assert (pool D) as HpD by (eapply has_reg_range; [exact He3| |exact HD]; lia).
  apply (gen_op r1 false e3 e rd s1 s1 p1 0 D _ 24); [done..|congruence|].
  set (val := i_val op w (g s1) (if is_shift op then im else u64 im)).
  eapply (run_weaken _ 24 24 (upto D (fun x => if r1 then xr x p1 = g s1 else True))); [|done| |done].
  - apply (run_computes _ _ _ _ (fun v => fin w v = val)). by apply i_body_ok.
  - intros y x (Ho & Hx & [P1' _]). done.
Qed.

(** *** Multiplication and division *)

Lemma gen_ext {A} e (m m' : EM A) n P E Q QM : m e = m' e -> GEN e m' n P E Q QM -> GEN e m n P E Q QM.
Proof. intros H Hg Hs. rewrite H. by apply Hg. Qed.

Lemma em_assoc {A B C} (m : EM A) (f : A -> EM B) (k : B -> EM C) e :
  ((m ≫= f) ≫= k) e = (m ≫= fun a => f a ≫= k) e.
Proof. cbv [mbind ST_bind]. by destruct (m e) as [[]| |]. Qed.

(** When nothing follows the mark. *)
Lemma gen_op0_at e e0 rd D m n val g (I P : Host -> Prop) QM :
  alloc_ok None e -> 1 <= rd < 32 -> has_reg rd D e -> ctx_of e = ctx_of e0 ->
  (forall y, I y -> Rw rd e g y /\ P y) ->
  RUN m n (upto D P) (upto D (fun x => xr x D = val)) ->
  GEN e (m ;; mark_dirty rd) (n + 8) I (kept_ctx e0) (fun _ e' x => R e' (upd g rd val) x) QM.
Proof.
  intros. eapply gen_ext; [|by eapply (gen_op_at e e0 rd D m n false)].
  unfold sext_w. cbv [mbind ST_bind mret ST_ret]. destruct (m e) as [[]| |]; [|done..]. by destruct (mark_dirty _ _) as [[[] ]| |].
Qed.

Lemma gen_op0 r1 r2 e e0 rd s1 s2 p1 p2 D m n val g QM :
  alloc_ok None e -> 1 <= rd < 32 -> has_reg rd D e -> ctx_of e = ctx_of e0 ->
  RUN m n (upto D (operands r1 r2 p1 p2 (g s1) (g s2))) (upto D (fun x => xr x D = val)) ->
  GEN e (m ;; mark_dirty rd) (n + 8) (ready r1 r2 rd s1 s2 p1 p2 e g)
    (kept_ctx e0) (fun _ e' x => R e' (upd g rd val) x) QM.
Proof. intros He Hrd HD Hc Hm. eapply gen_op0_at; [done..| |exact Hm]. by intros y Hy. Qed.

(** A constant or a copy of the first source written to the destination. *)
Lemma gen_const e e0 rd k g (c : Z -> EM unit) val QM : alloc_ok None e -> 1 <= rd < 32 -> 0 <= k < 32 ->
  ctx_of e = ctx_of e0 ->
  (forall D, pool D -> RUN (c D) 8 (upto D (fun _ => True)) (upto D (fun x => xr x D = val))) ->
  GEN e (D ← hreg_for_write rd k KEEP_NONE; c D ;; mark_dirty rd) 24 (R e g)
    (kept_ctx e0) (fun _ e' x => R e' (upd g rd val) x) QM.
Proof.
  intros He Hrd Hk Hc Hm.
  eapply (gen_bind _ _ _ 8 16); [lia|by apply (gen_dst false false e rd k KEEP_NONE k k 0 0)|].
  intros D e3 h3 (-> & He3 & C3 & HD & _).
  assert (pool D) as HpD by (eapply has_reg_range; [exact He3| |exact HD]; lia).
  apply (gen_op0 false false e3 e0 rd k k 0 0 D _ 8); [done..|congruence|].
  eapply run_weaken; [by apply Hm|done| |done]. intros y x (Ho & Hx & _). done.
Qed.

Lemma zero_ok D : pool D -> RUN (emit (xor_rr D D)) 8 (upto D (fun _ => True)) (upto D (fun x => xr x D = 0)).
Proof.
  unfold pool. intros HD. piece. intros x Hx _. eexists. split; [reflexivity|]. cbn. regs.
  by rewrite Z.lxor_nilpotent.
Qed.

Lemma ones_ok D : pool D ->
  RUN (emit (mov_imm32 D (-1))) 8 (upto D (fun _ => True)) (upto D (fun x => xr x D = UINT64_MAX)).
Proof. unfold pool. intros HD. piece. intros x Hx _. eexists. split; [reflexivity|]. cbn. by regs. Qed.

(** The copy of the dividend, which REMW sign-extends. *)
Lemma copy_ok (c : bool) D p1 a b : pool D -> pool p1 -> inw 64 a ->
  RUN (if c then (if negb (D =? p1) then emit (mov_rr32 D p1) else mret tt) ;; emit (movsxd D D)
       else mov_unless D p1) 16
    (upto D (operands true false p1 0 a b)) (upto D (fun x => xr x D = if c then u64 (s32 a) else a)).
Proof.
  unfold pool, mov_unless, operands. intros HD Hp Ha.
  destruct c, (Z.eqb_spec D p1) as [->|]; cbn [negb]; piece; intros x Hx [P1 _];
    (eexists; split; [reflexivity|]); cbn; regs; rewrite ?P1, ?sN_uN, ?(uN_id 64 a) by (done || lia); done.
Qed.

(** The results the special cases rely on. *)
Lemma m_val_x0 op w a : inw 64 a -> m_val op w a 0 =
  Ret (if is_mul op then 0 else if negb (is_rem op) then UINT64_MAX
       else if bool_decide (op = MOp.REM) && w then u64 (s32 a) else a).
Proof.
  intros Ha. destruct op, w; cbn; unfold op_MULW, op_MUL, op_MULH, op_MULHU, op_MULHSU, op_DIV, op_DIVW, op_DIVU, op_DIVUW,
    op_REM, op_REMW, op_REMU, op_REMUW; rewrite ?Z.mul_0_r; done.
Qed.

Lemma rem_0 y : Z.rem 0 y = 0.
Proof. by destruct y. Qed.

Lemma m_val_0 op w b : inw 64 b -> is_mul op = true \/ is_rem op = true -> m_val op w 0 b = Ret 0.
Proof.
  intros Hb Hop. destruct op, w; cbn in Hop |- *; try (by destruct Hop);
    unfold op_MULW, op_MUL, op_MULH, op_MULHU, op_MULHSU, op_REM, op_REMW, op_REMU, op_REMUW; try done.
  all: f_equal; try (by destruct (_ =? 0)).
  all: destruct (_ =? 0); [done|]; destruct (_ && _); [done|]; by rewrite rem_0.
Qed.

(** The case of a zero second register. *)
Lemma gen_m_x0 rd s1 op w g val e QM : 1 <= rd < 32 -> 0 <= s1 < 32 -> guest g ->
  m_val op w (g s1) (g 0) = Ret val -> alloc_ok None e ->
  GEN e (m_by_x0 rd s1 op w) 56 (R e g) (kept_ctx e) (fun _ e' x => R e' (upd g rd val) x) QM.
Proof.
  intros Hrd Hs1 [G0 G] Hval He. rewrite G0, m_val_x0 in Hval by auto. injection Hval as <-.
  unfold m_by_x0. destruct (is_mul op).
  { eapply gen_ext; [apply em_assoc|]. eapply (gen_le _ _ 24); [|lia].
    apply (gen_const e e rd s1 g (fun D => emit (xor_rr D D))); [done..|]. apply zero_ok. }
  destruct (negb (is_rem op)).
  { eapply gen_ext; [apply em_assoc|]. eapply (gen_le _ _ 24); [|lia].
    apply (gen_const e e rd s1 g (fun D => emit (mov_imm32 D (-1)))); [done..|]. apply ones_ok. }
  eapply gen_ext; [apply em_assoc|].
  eapply (gen_bind _ _ _ 16 40); [lia|by apply (gen_src true)|]. intros p1 e1 h1 (-> & He1 & C1 & P1 & _).
  eapply gen_ext; [apply em_assoc|].
  eapply (gen_bind _ _ _ 8 32); [lia|by apply (gen_dst true false e1 rd s1 KEEP_NONE s1 s1 p1 0)|].
  intros D e3 h3 (-> & He3 & C3 & HD & T1 & _).
  assert (pool D) as HpD by (eapply has_reg_range; [exact He3| |exact HD]; lia).
  pose proof (src_pool true e3 s1 p1 He3 Hs1 T1) as Hp1.
  eapply (gen_le _ _ 24); [|lia].
  apply (gen_op0 true false e3 e rd s1 s1 p1 0 D _ 16); [done..|congruence|].
  apply copy_ok; auto.
Qed.

Lemma mult_ok op w D p1 p2 a b : pool D -> pool p1 -> pool p2 -> inw 64 a -> inw 64 b ->
  (w = true -> op = MOp.MUL \/ divop op = true) ->
  RUN (match op with
       | MOp.MUL => m_MUL w D p1 p2
       | MOp.MULH | MOp.MULHU | MOp.MULHSU => m_MULH op D p1 p2
       | _ => m_DIV op w D p1 p2
       end) 96 (upto D (operands true true p1 p2 a b)) (upto D (fun x => m_agrees op w a b (xr x D))).
Proof.
  intros HD H1 H2 Ha Hb Hw. destruct op; try by apply m_DIV_ok.
  { apply (run_le _ 24); [|lia]. apply (run_computes _ _ _ _ (m_agrees MOp.MUL w a b)). by apply m_MUL_ok. }
  all: destruct w; [by destruct (Hw eq_refl) as [|]|].
  all: apply (run_le _ 24); [|lia].
  all: lazymatch goal with |- context [m_agrees ?o] => apply (run_computes _ _ _ _ (m_agrees o false a b)) end.
  all: apply m_MULH_ok; auto.
Qed.

Lemma gen_emit_m rd s1 s2 op w g val : 1 <= rd < 32 -> 0 <= s1 < 32 -> 0 <= s2 < 32 -> guest g ->
  (w = true -> op = MOp.MUL \/ divop op = true) -> m_val op w (g s1) (g s2) = Ret val ->
  gen_ins (emit_m_r_to rd s1 s2 op w) rd 144 g val.
Proof.
  intros Hrd Hs1 Hs2 Hg Hw Hval e QM He. unfold emit_m_r_to.
  set (r1 := negb (s1 =? 0)). destruct (Z.eqb_spec s2 0) as [->|Hn2]; cbn [negb].
  { eapply gen_le; [by apply gen_m_x0|lia]. }
  destruct (negb r1 && (is_mul op || is_rem op)) eqn:E0.
  { eapply (gen_le _ _ 24); [|lia]. apply (gen_const e e rd s1 g (fun D => emit (xor_rr D D))); [done..|].
    assert (s1 = 0) as -> by (unfold r1 in E0; lia). rewrite (proj1 Hg), m_val_0 in Hval; [..|by apply Hg|].
    - injection Hval as <-. intros D HD. by apply zero_ok.
    - destruct (is_mul op); [by left|right]. unfold r1 in E0. bool_hyps. done. }
  eapply (gen_bind _ _ _ 16 128); [lia|by apply (gen_src true)|]. intros p1 e1 h1 (-> & He1 & C1 & P1 & _).
  eapply (gen_bind _ _ _ 16 112); [lia|by apply (gen_src2 true true e1 s1 s2 p1)|].
  intros p2 e2 h2 (-> & He2 & C2 & Q1 & Q2).
  eapply (gen_bind _ _ _ 8 104); [lia|by apply (gen_dst true true e2 rd s1 s2 s1 s2 p1 p2)|].
  intros D e3 h3 (-> & He3 & C3 & HD & T1 & T2).
  assert (pool D) as HpD by (eapply has_reg_range; [exact He3| |exact HD]; lia).
  pose proof (src_pool true e3 s1 p1 He3 Hs1 T1). pose proof (src_pool true e3 s2 p2 He3 Hs2 T2).
  apply (gen_op0 true true e3 e rd s1 s2 p1 p2 D _ 96); [done..|congruence|].
  assert (inw 64 (g s1) /\ inw 64 (g s2)) as [I1 I2] by (by split; apply Hg).
  eapply run_weaken; [exact (mult_ok op w D p1 p2 (g s1) (g s2) HpD H H0 I1 I2 Hw)|done|done|].
  intros y x (Ho & Hx & Hv). split_and!; [done..|]. by apply Hv.
Qed.

(** *** Upper immediates *)

Lemma gen_emit_lui rd im g : 1 <= rd < 32 -> gen_ins (emit_u_to rd im ALUOp.LUI) rd 40 g (u64 im).
Proof.
  intros Hrd e QM He. unfold emit_u_to.
  eapply (gen_bind _ _ _ 8 32); [lia|by apply (gen_dst false false e rd KEEP_NONE KEEP_NONE 0 0 0 0)|].
  intros D e3 h3 (-> & He3 & C3 & HD & _).
  assert (pool D) as HpD by (eapply has_reg_range; [exact He3| |exact HD]; lia). unfold pool in HpD.
  apply (gen_op0 false false e3 e rd 0 0 0 0 D _ 24); [done..|congruence|].
  pose proof (uN_inw 64 im ltac:(lia)). piece.
  intros x Hx _. eexists. split; [reflexivity|]. cbn. regs. by rewrite uN_uN by lia.
Qed.

(** The address the block was entered at, which the context holds. *)
Context (entry : Z).
Context (Hctx : 0 <= ctx /\ ctx + 40 <= 2 ^ 64) (Hdis : ctx + 40 <= rb + 8 \/ rb + 256 <= ctx + 32).
Context (Hentry : ld_le 8 (xm x0) (ctx + 32) = entry).

Lemma entry_value e v g x : Rw v e g x -> 6 <= phys (slot (vreg e v)) <= 11 ->
  ld_le 8 (xm x) (u64 (xr x REG_CTX + CTX_OFF_ENTRY)) = entry.
Proof.
  intros [Hr _] Hp. pose proof (r_ctx _ _ _ _ _ _ Hr) as Hc. cbn in Hc.
  rewrite upd_ne in Hc by (unfold REG_CTX, REG_R12; lia). rewrite Hc. unfold CTX_OFF_ENTRY.
  rewrite uN_id by (split; lia). rewrite <- Hentry. apply ld_le_ext. intros b Hb.
  rewrite uN_id by (split; lia). by apply (r_frame _ _ _ _ _ _ Hr); lia.
Qed.

Lemma gen_emit_auipc rd im g e QM : 1 <= rd < 32 -> alloc_ok None e ->
  let off := instr_bytes (blk e) in - 2 ^ 31 <= im + off < 2 ^ 31 ->
  GEN e (emit_u_to rd im ALUOp.AUIPC) 40 (R e g) (kept_ctx e)
    (fun _ e' x => R e' (upd g rd (u64 (entry + (im + off)))) x) QM.
Proof.
  intros Hrd He off Hoff. unfold emit_u_to.
  eapply (gen_bind _ _ _ 8 32); [lia|by apply (gen_dst false false e rd KEEP_NONE KEEP_NONE 0 0 0 0)|].
  intros D e3 h3 (-> & He3 & C3 & HD & _).
  assert (pool D) as HpD by (eapply has_reg_range; [exact He3| |exact HD]; lia).
  assert (instr_bytes (blk e3) = off) as Hb by (unfold off, ctx_of in *; congruence).
  eapply gen_ext; [apply em_assoc|].
  apply (gen_step e3 e3 _ ((emit (mov_mr D REG_CTX CTX_OFF_ENTRY) ;; emit (add_imm D (s32 (im + off)))) ;; mark_dirty rd)); [done| |].
  { cbv [mbind ST_bind gets]. by rewrite Hb. }
  destruct HD as [Hs ED]. assert (has_reg rd D e3) as HD by done.
  apply (gen_op0_at e3 e rd D _ 24 _ g _
    (fun x => ld_le 8 (xm x) (u64 (xr x REG_CTX + CTX_OFF_ENTRY)) = entry)); [done..|congruence| |].
  { intros y [Hy _]. split; [done|]. rewrite ED in HpD. by eapply entry_value. }
  unfold pool in HpD. assert (s32 (im + off) = im + off) as -> by (by apply sN_small).
  piece. intros x Hx Hp. eexists. split; [reflexivity|]. cbn. regs.
  rewrite Hp. unfold uN. by rewrite ?Zplus_mod_idemp_l, ?Zplus_mod_idemp_r, ?Z.mod_mod by lia.
Qed.
End ins.
