(* ===== verification/JitCorrect.v ===== *)
(** * The translators and the interpreter agree

    [translates]: what it means for a translator to do the work of a handler of
    the interpreter. [jit_alu_correct]: every translator registered for an
    arithmetic instruction does what the handler registered under the same mask
    does. *)

From Stdlib Require Import Strings.String.
From S2P Require Import Prelude Defs Decode Hart State Rv64i Rv64m Rv64c Isa X86 X86Enc X86Code JitEmit JitAlu JitIsa JitGen JitAlloc JitSim JitDiv JitIns.

Section correct.
Context {B : Type} `{BusOps B}.
(** The address of the guest registers and of the context, the host state at
    the entry of the block, and the guest address it was entered at. *)
Context (rb ctx : Z) (x0 : Host) (entry : Z).
Context (Hrb : 0 <= rb /\ rb + 256 <= 2 ^ 64).
Context (Hctx : 0 <= ctx /\ ctx + 40 <= 2 ^ 64) (Hdis : ctx + 40 <= rb + 8 \/ rb + 256 <= ctx + 32).
Context (Hentry : ld_le 8 (xm x0) (ctx + 32) = entry).

Abbreviation R := (R rb ctx x0).

(** The guest registers after the instruction: the dispatcher clears [x0]. *)
Definition regs_after (s : State B) : Z -> Z := gpr (put_gpr 0 0 (hart s)).

(** [m] emits code that leads from the guest registers [g] to [g'], and leaves
    an emitter whose tables are consistent. *)
Definition runs_as (m : EM bool) (e : JIT_Emitter) (g g' : Z -> Z) : Prop :=
  exists e' bs,
    m e = Ret (negb (eof e'), e') /\ code (blk e') = code (blk e) ++ bs /\ alloc_ok None e' /\ ctx_of e' = ctx_of e /\
    forall base c x, placed base c -> code_at c (code_pos e) bs -> xip x = base + code_pos e -> R e g x ->
      exists x', xsteps base c x x' /\ xip x' = base + code_pos e' /\ R e' g' x'.

(** The state of the emitter when the instruction at [pc] is translated. *)
Definition at_instr (e : JIT_Emitter) (s : State B) : Prop :=
  alloc_ok None e /\ eof e = false /\ 0 <= stub_reserve e /\ 0 <= instr_bytes (blk e) < 4096 /\
  pc (hart s) = u64 (entry + instr_bytes (blk e)).

(** If the handler returns, it changed registers only, and the code of the
    translator changes them in the same way. *)
Definition translates (jf : JitFunc) (ex : InstructionData -> M B ExecReturn) (d : InstructionData) : Prop :=
  forall s r s' e, hart_wf (hart s) -> gpr (hart s) 0 = 0 -> ex d s = Ret (r, s') -> at_instr e s ->
    s' = set_hart (set_GPR (GPR (hart s')) (hart s)) s /\ er_success r = true /\
    runs_as (jf d) e (gpr (hart s)) (regs_after s').

(** ** From the generator to the statement *)

Lemma R_ext e g g' x : (forall v, 0 <= v < 32 -> g v = g' v) -> R e g x -> R e g' x.
Proof.
  intros Hg [A C D E F G J K]. constructor; try done.
  - intros v Hv Hs. rewrite <- Hg by lia. by apply D.
  - intros v Hv Hd. rewrite <- Hg by lia. by apply E.
  - by rewrite <- Hg by lia.
Qed.

Lemma gpr_put i v h w : length (GPR h) = 32%nat -> 0 <= i < 32 -> 0 <= w < 32 ->
  gpr (put_gpr i v h) w = if w =? i then v else gpr h w.
Proof.
  intros Hl Hi Hw. unfold gpr, put_gpr. cbn [GPR set_GPR]. rewrite !nth_lookup.
  destruct (Z.eqb_spec w i) as [->|Hn].
  - by rewrite list_lookup_insert_eq by lia.
  - by rewrite list_lookup_insert_ne by lia.
Qed.

Lemma gen_runs_as e m n g g' : GEN e m n (R e g)
    (fun b e' hs => hs = [] /\ alloc_ok None e' /\ ctx_of e' = ctx_of e /\ b = negb (eof e'))
    (fun _ e' x => R e' g' x) (fun _ _ _ _ => False) ->
  n <= RVJIT_FUNC_MARGIN -> eof e = false -> 0 <= stub_reserve e -> runs_as m e g g'.
Proof.
  intros Hm Hn He Hsr.
  assert (code_pos e + n <= RVJIT_FUNC_SIZE) as Hs.
  { unfold eof in He. apply Z.leb_gt in He. unfold EPILOGUE_BYTES in He. lia. }
  destruct (Hm Hs) as (b & e' & bs & hs & Em & Hc & Hb & _ & (-> & He' & Hctx' & ->) & Hx).
  exists e', bs. split_and!; try done. intros base c x Hpl Hat Hip Hr.
  destruct (Hx base c (fun _ => 0) x) as (x' & Hst & [[Hi Hq]|(w & h & _ & _ & [])]); try done.
  - exists x'. split_and!; [done| |done]. unfold code_pos in *. rewrite Hc, pos_app. lia.
Qed.

Lemma gen_keep_on e (P : Host -> Prop) QM : alloc_ok None e ->
  GEN e keep_on 0 P (fun b e' hs => hs = [] /\ e' = e /\ b = negb (eof e')) (fun _ e' x => P x) QM.
Proof. intros He. eapply gen_pure; [done|done|done|done]. Qed.
(** The handler writes [val] to the register [rdx]; the translator emits [m]
    unless that is [x0]. *)
Lemma translates_write jf ex d rdx (m : EM unit) :
  0 <= rdx < 32 ->
  (forall e, jf d e = (if rdx =? 0 then keep_on else m ;; keep_on) e) ->
  (forall s r s' e, hart_wf (hart s) -> gpr (hart s) 0 = 0 -> ex d s = Ret (r, s') -> at_instr e s ->
     exists val, s' = set_hart (put_gpr rdx val (hart s)) s /\ er_success r = true /\
       (1 <= rdx -> forall QM, GEN e m 144 (R e (gpr (hart s))) (kept_ctx e)
          (fun _ e' x => R e' (upd (gpr (hart s)) rdx val) x) QM)) ->
  translates jf ex d.
Proof.
  intros Hr Hj Hex s r s' e Hwf H0 Hret Hat.
  destruct (Hex s r s' e Hwf H0 Hret Hat) as (val & -> & Hok & Hm).
  destruct Hat as (He & Heof & Hsr & Hib & Hpc). split; [by destruct (hart s)|split; [done|]].
  pose proof (wf_gpr_len _ Hwf) as Hlen.
  assert (forall v, 0 <= v < 32 -> regs_after (set_hart (put_gpr rdx val (hart s)) s) v =
    if rdx =? 0 then gpr (hart s) v else upd (gpr (hart s)) rdx val v) as Hg.
  { intros v Hv. unfold regs_after. change (hart (set_hart ?h s)) with h.
    rewrite gpr_put by (done || cbn; rewrite ?length_insert; lia). destruct (Z.eqb_spec v 0) as [->|Hn].
    - unfold upd. by destruct (Z.eqb_spec rdx 0) as [|], (Z.eqb_spec 0 rdx) as [|].
    - rewrite gpr_put by lia. unfold upd. destruct (Z.eqb_spec v rdx) as [->|]; by destruct (Z.eqb_spec rdx 0) as [|]. }
  apply (gen_runs_as e _ 144); [|unfold RVJIT_FUNC_MARGIN; lia|done|done].
  eapply gen_ext; [apply Hj|]. destruct (Z.eqb_spec rdx 0) as [->|Hn].
  - eapply gen_weaken; [by apply (gen_keep_on _ _ (fun _ _ _ _ => False))|done|intros x Hx; exact Hx| | |done].
    + intros b e' hs (-> & -> & ->). done.
    + intros b e' hs x (-> & -> & ->) Hx. eapply R_ext; [|exact Hx]. intros v Hv. by rewrite Hg.
  - eapply (gen_bind _ _ _ 144 0); [lia|apply Hm; lia|]. intros [] e1 h1 (-> & He1 & Hc1).
    eapply gen_weaken; [by apply (gen_keep_on _ _ (fun _ _ _ _ => False))|done|intros x Hx; exact Hx| | |done].
    + intros b e' hs (-> & -> & ->). done.
    + intros b e' hs x (-> & -> & ->) Hx. eapply R_ext; [|exact Hx]. intros v Hv. by rewrite Hg.
Qed.


(** ** The groups of instructions *)

Lemma wf_guest h : hart_wf h -> gpr h 0 = 0 -> guest (gpr h).
Proof. intros Hh H0. split; [done|]. intros v Hv. by apply gpr_wf. Qed.

Lemma translates_r jf ex d rdx s1 s2 op w er :
  0 <= rdx < 32 -> 0 <= s1 < 32 -> 0 <= s2 < 32 ->
  op <> ALUOp.LUI -> op <> ALUOp.AUIPC -> (w = true -> has_w op = true) -> er_success er = true ->
  (forall e, jf d e = (if rdx =? 0 then keep_on else emit_r_to rdx s1 s2 op w ;; keep_on) e) ->
  (forall s, inw 64 (gpr (hart s) s1) -> inw 64 (gpr (hart s) s2) -> gpr (hart s) 0 = 0 ->
     ex d s = Ret (er, set_hart (put_gpr rdx (r_val op w (gpr (hart s) s1) (gpr (hart s) s2)) (hart s)) s)) ->
  translates jf ex d.
Proof.
  intros Hr H1 H2 Ho1 Ho2 Hw Her Hj Hex. apply (translates_write jf ex d rdx _ Hr Hj).
  intros s r s' e Hwf H0 Hret Hat. rewrite Hex in Hret by (done || by apply gpr_wf). injection Hret as <- <-.
  eexists. split; [done|]. split; [done|]. intros Hr1 QM. eapply (gen_le _ _ 72); [|lia].
  apply gen_emit_r; try done; [lia|by apply wf_guest|apply Hat].
Qed.

Lemma translates_i jf ex d rdx s1 im op w er :
  0 <= rdx < 32 -> 0 <= s1 < 32 ->
  op <> ALUOp.LUI -> op <> ALUOp.AUIPC -> op <> ALUOp.SUB -> (w = true -> has_w op = true) ->
  i_imm_ok op w im -> er_success er = true ->
  (forall e, jf d e = (if rdx =? 0 then keep_on else emit_i_to rdx s1 im op w ;; keep_on) e) ->
  (forall s, inw 64 (gpr (hart s) s1) -> gpr (hart s) 0 = 0 ->
     ex d s = Ret (er, set_hart (put_gpr rdx (i_val op w (gpr (hart s) s1) (if is_shift op then im else u64 im)) (hart s)) s)) ->
  translates jf ex d.
Proof.
  intros Hr H1 Ho1 Ho2 Ho3 Hw Him Her Hj Hex. apply (translates_write jf ex d rdx _ Hr Hj).
  intros s r s' e Hwf H0 Hret Hat. rewrite Hex in Hret by (done || by apply gpr_wf). injection Hret as <- <-.
  eexists. split; [done|]. split; [done|]. intros Hr1 QM. eapply (gen_le _ _ 56); [|lia].
  apply gen_emit_i; try done; [lia|by apply wf_guest|apply Hat].
Qed.

Lemma translates_m jf ex d op w er :
  0 <= rd d < 32 -> 0 <= rs1 d < 32 -> 0 <= rs2 d < 32 -> (w = true -> op = MOp.MUL \/ divop op = true) ->
  er_success er = true ->
  (forall e, jf d e = (if rd d =? 0 then keep_on else emit_m_r_to (rd d) (rs1 d) (rs2 d) op w ;; keep_on) e) ->
  (forall s r s', ex d s = Ret (r, s') -> exists val,
     m_val op w (gpr (hart s) (rs1 d)) (gpr (hart s) (rs2 d)) = Ret val /\ r = er /\
     s' = set_hart (put_gpr (rd d) val (hart s)) s) ->
  translates jf ex d.
Proof.
  intros Hr H1 H2 Hw Her Hj Hex. apply (translates_write jf ex d (rd d) _ Hr Hj).
  intros s r s' e Hwf H0 Hret Hat. destruct (Hex _ _ _ Hret) as (val & Hv & -> & ->).
  eexists. split; [done|]. split; [done|]. intros Hr1 QM.
  apply gen_emit_m; try done; [lia|by apply wf_guest|apply Hat].
Qed.

(** The fields of a decoded word. *)
Lemma data_fields w im : let d := decode_data w im in
  0 <= rd d < 32 /\ 0 <= rs1 d < 32 /\ 0 <= rs2 d < 32 /\ imm d = im /\ inst d = w.
Proof.
  cbn. unfold d_rd, d_rs1, d_rs2. change 0x1f with (Z.ones 5). rewrite !Z.land_ones by lia.
  split_and!; try done; apply Z.mod_pos_bound; lia.
Qed.

Lemma alu_r_ok op wv f w im : (forall a b, r_val op wv a b = f a b) -> op <> ALUOp.LUI -> op <> ALUOp.AUIPC ->
  (wv = true -> has_w op = true) -> translates (fun d => alu_r d op wv) (alu_rr f) (decode_data w im).
Proof.
  intros Hf Ho1 Ho2 Hw. destruct (data_fields w im) as (? & ? & ? & _). set (d := decode_data w im) in *.
  apply (translates_r _ _ _ (rd d) (rs1 d) (rs2 d) op wv exec_ok); try done.
  intros s Ha Hb _. rewrite Hf. done.
Qed.

(** The immediate [im] as the emitter sees it, and as the interpreter does. *)
Definition imm_agrees (op : ALUOp.t) (wv : bool) (f : Z -> Z -> Z) (im : Z) : Prop :=
  i_imm_ok op wv (s64 im) /\ forall a, inw 64 a -> i_val op wv a (if is_shift op then s64 im else u64 (s64 im)) = f a im.

Lemma alu_i_ok op wv f w im : imm_agrees op wv f im -> op <> ALUOp.LUI -> op <> ALUOp.AUIPC -> op <> ALUOp.SUB ->
  (wv = true -> has_w op = true) -> translates (fun d => alu_i d op wv) (alu_ri f) (decode_data w im).
Proof.
  intros [Hi Hf] Ho1 Ho2 Ho3 Hw. destruct (data_fields w im) as (? & ? & ? & _). set (d := decode_data w im) in *.
  apply (translates_i _ _ _ (rd d) (rs1 d) (s64 im) op wv exec_ok); try done.
  intros s Ha _. rewrite Hf by done. done.
Qed.

Lemma m_op_ok op wv f w im : (forall a b, m_val op wv a b = Ret (f a b)) ->
  (wv = true -> op = MOp.MUL \/ divop op = true) -> translates (fun d => m_op d op wv) (alu_rr f) (decode_data w im).
Proof.
  intros Hf Hw. destruct (data_fields w im) as (? & ? & ? & _). set (d := decode_data w im) in *.
  apply (translates_m _ _ _ op wv exec_ok); try done.
  intros s r s' [= <- <-]. rewrite Hf. eauto.
Qed.

Lemma mulw_ok w im : translates jit_MULW exec_MULW (decode_data w im).
Proof.
  destruct (data_fields w im) as (? & ? & ? & _). set (d := decode_data w im) in *.
  apply (translates_m _ _ _ MOp.MUL true exec_ok); try done; [by left|].
  intros s r s'. unfold exec_MULW, alu_rr_ub, reg, setreg, mod_hart. cbv [mbind ST_bind gets modify]. cbn [m_val].
  destruct (op_MULW _ _) as [v| |]; [|done..]. intros [= <- <-]. eauto.
Qed.

(** ** Immediates *)

Lemma sext_range v bits : 0 < bits <= 32 -> - 2 ^ (bits - 1) <= sext v bits < 2 ^ (bits - 1).
Proof.
  intros Hb. unfold sext. rewrite Z.shiftr_div_pow2 by lia.
  pose proof (sN_range 32 (Z.shiftl v (32 - bits)) ltac:(lia)) as Hr. 
  assert (2 ^ (32 - 1) = 2 ^ (bits - 1) * 2 ^ (32 - bits)) as E by (rewrite <- Z.pow_add_r by lia; f_equal; lia).
  rewrite E in Hr. pose proof (pow2_pos (32 - bits) ltac:(lia)).
  split; [apply Z.div_le_lower_bound|apply Z.div_lt_upper_bound]; nia.
Qed.

Lemma s64_u64_int x : - 2 ^ 31 <= x < 2 ^ 31 -> s64 (u64 x) = x.
Proof. intros. rewrite sN_uN by lia. apply sN_small; [lia|]. change (2 ^ (64 - 1)) with (2 ^ 63). lia. Qed.

(** An immediate that is a sign-extended [int]. *)
Lemma imm_signed op wv f x : - 2 ^ 31 <= x < 2 ^ 31 -> is_shift op = false ->
  (forall a, i_val op wv a (u64 x) = f a (u64 x)) -> imm_agrees op wv f (u64 x).
Proof.
  intros Hx Hs Hf. split; unfold i_imm_ok; rewrite Hs, s64_u64_int by done; [done|]. intros a _. apply Hf.
Qed.

(** A shift count. *)
Lemma imm_count op wv f x : is_shift op = true -> 0 <= x < width (wsize wv) ->
  (forall a, inw 64 a -> i_val op wv a x = f a x) -> imm_agrees op wv f x.
Proof.
  intros Hs Hx Hf.
  assert (s64 x = x) as E.
  { apply sN_small; [lia|]. assert (0 <= x < 64) by (destruct wv; cbn in Hx; lia).
    change (2 ^ (64 - 1)) with (2 ^ 63). lia. }
  split; unfold i_imm_ok; rewrite Hs, E by done; done.
Qed.

Lemma shamt_range w : 0 <= shamt w < 32 /\ 0 <= shamt64 w < 64.
Proof.
  unfold shamt, shamt64. change 0x1f with (Z.ones 5). change 0x3f with (Z.ones 6).
  rewrite !Z.land_ones by lia.
  pose proof (Z.mod_pos_bound (imm_I w) (2 ^ 5) ltac:(lia)). pose proof (Z.mod_pos_bound (imm_I w) (2 ^ 6) ltac:(lia)).
  rewrite !uN_id by (split; lia). lia.
Qed.

Lemma imm_I_int w : - 2 ^ 31 <= sext (Z.shiftr w 20) 12 < 2 ^ 31.
Proof. pose proof (sext_range (Z.shiftr w 20) 12 ltac:(lia)). lia. Qed.

(** ** Upper immediates *)

Lemma imm_U_int w : exists u, imm_U w = u64 u /\ - 2 ^ 31 <= u <= 2 ^ 31 - 4096.
Proof.
  exists (s32 (Z.land w 0xFFFFF000)). split; [done|].
  assert (Z.land w 0xFFFFF000 mod 2 ^ 12 = 0) as Hm.
  { rewrite <- Z.land_ones, <- Z.land_assoc by lia. by rewrite Z.land_0_r. }
  pose proof (sN_range 32 (Z.land w 0xFFFFF000) ltac:(lia)) as Hr. split; [lia|].
  assert (s32 (Z.land w 0xFFFFF000) mod 2 ^ 12 = 0) as Hm2.
  { rewrite <- Hm. pose proof (uN_sN 32 (Z.land w 0xFFFFF000) ltac:(lia)) as Hu. unfold uN in Hu.
    apply (f_equal (fun z => z mod 2 ^ 12)) in Hu. rewrite !Z.mod_mod_divide in Hu by (exists (2 ^ 20); lia). done. }
  change (2 ^ (32 - 1)) with (2 ^ 31) in Hr. Z.div_mod_to_equations. lia.
Qed.

Lemma lui_ok w : translates jit_LUI exec_LUI (decode_data w (imm_U w)).
Proof.
  destruct (data_fields w (imm_U w)) as (? & ? & ? & Him & _). destruct (imm_U_int w) as (u & Hu & Hr).
  set (d := decode_data w (imm_U w)) in *.
  apply (translates_write _ _ _ (rd d) (emit_u_to (rd d) (s32 (simm d)) ALUOp.LUI)); try done.
  intros s r s' e Hwf H0' [= <- <-] Hat. eexists. split; [done|]. split; [done|]. intros Hr1 QM.
  eapply (gen_le _ _ 40); [|lia].
  assert (imm_U w = u64 (s32 (simm d))) as ->.
  { unfold simm. rewrite Him, Hu, s64_u64_int, (sN_small 32) by lia. done. }
  apply gen_emit_lui; try done; [lia|apply Hat].
Qed.

Lemma auipc_ok w : translates jit_AUIPC exec_AUIPC (decode_data w (imm_U w)).
Proof.
  destruct (data_fields w (imm_U w)) as (? & ? & ? & Him & _). destruct (imm_U_int w) as (u & Hu & Hr).
  set (d := decode_data w (imm_U w)) in *.
  apply (translates_write _ _ _ (rd d) (emit_u_to (rd d) (s32 (simm d)) ALUOp.AUIPC)); try done.
  intros s r s' e Hwf H0' [= <- <-] (He & Heof & Hsr & Hib & Hpc).
  eexists. split; [done|]. split; [done|]. intros Hr1 QM. eapply (gen_le _ _ 40); [|lia].
  assert (s32 (simm d) = u) as -> by (unfold simm; rewrite Him, Hu, s64_u64_int by lia; apply sN_small; lia).
  assert (u64 (pc (hart s) + imm_U w) = u64 (entry + (u + instr_bytes (blk e)))) as ->.
  { rewrite Hpc, Hu. unfold uN. rewrite Zplus_mod_idemp_l, Zplus_mod_idemp_r. f_equal. lia. }
  apply gen_emit_auipc; try done; lia.
Qed.

(** ** Compressed instructions *)

Lemma c_fields w im : let d := decode_data w im in
  c_rd d = 8 + d_c_rd (inst d) /\ 8 <= c_rd d < 16 /\
  c_rs1 d = c_reg d /\ c_rs1 d = 8 + d_c_rs1 (inst d) /\ 8 <= c_rs1 d < 16 /\
  c_rs2 d = d_c_rs2 (inst d) /\ 0 <= c_rs2 d < 32.
Proof.
  cbn. unfold c_rd, c_rs1, c_rs2, c_reg. cbn [inst rd decode_data].
  pose proof (land_small (Z.shiftr (u16 w) 2) 3 ltac:(lia)). pose proof (land_small (Z.shiftr (u16 w) 7) 3 ltac:(lia)).
  pose proof (land_small (Z.shiftr (u16 w) 2) 5 ltac:(lia)).
  change (Z.ones 3) with 0x7 in *. change (Z.ones 5) with 0x1f in *. unfold d_c_rd, d_c_rs1, d_c_rs2.
  assert (forall n x, 0 <= n <= 8 -> 0 <= x < 2 ^ n -> u8 x = x) as Hid.
  { intros n x Hn Hx. apply uN_id. split; [lia|]. assert (2 ^ n <= 2 ^ 8) by (apply Z.pow_le_mono_r; lia). lia. }
  rewrite !(Hid 3), (Hid 5) by lia. split_and!; try lia. f_equal. unfold d_rd.
  change (Z.land (Z.shiftr (u16 w) 7) (Z.ones 3) = Z.land (Z.land (Z.shiftr w 7) (Z.ones 5)) (Z.ones 3)).
  zbits i. zcases; by rewrite ?andb_true_r, ?andb_false_r.
Qed.

(** The immediate forms: the destination and the source are named directly. *)
Lemma c_i_ok jf (ex : InstructionData -> M B ExecReturn) d rdx s1 im imx op wv f :
  0 <= rdx < 32 -> 0 <= s1 < 32 -> op <> ALUOp.LUI -> op <> ALUOp.AUIPC -> op <> ALUOp.SUB ->
  (wv = true -> has_w op = true) -> imm_agrees op wv f imx -> im = s64 imx ->
  (forall e, jf d e = (if rdx =? 0 then keep_on else emit_i_to rdx s1 im op wv ;; keep_on) e) ->
  (forall s, inw 64 (gpr (hart s) s1) -> gpr (hart s) 0 = 0 ->
     ex d s = Ret (exec_ok2, set_hart (put_gpr rdx (f (gpr (hart s) s1) imx) (hart s)) s)) ->
  translates jf ex d.
Proof.
  intros Hr H1 Ho1 Ho2 Ho3 Hw [Hi Hf] -> Hj Hex.
  apply (translates_i jf ex d rdx s1 (s64 imx) op wv exec_ok2); try done.
  intros s Ha Hz. rewrite Hex, Hf by done. done.
Qed.

Lemma c_alu_ok op wv f g d : d = decode_data (inst d) (imm d) ->
  (forall a b, r_val op wv a b = f a b) -> (forall a b, f a b = g a b) -> op <> ALUOp.LUI -> op <> ALUOp.AUIPC ->
  (wv = true -> has_w op = true) -> translates (fun d => c_alu d op wv) (c_arith g) d.
Proof.
  intros Hd Hf Hg Ho1 Ho2 Hw. destruct (c_fields (inst d) (imm d)) as (E1 & R1 & E2 & _ & R2 & _).
  rewrite <- Hd in *.
  apply (translates_r _ _ _ (c_rs1 d) (c_rs1 d) (c_rd d) op wv exec_ok2); try done; try lia.
  - intros e. by rewrite (proj2 (Z.eqb_neq _ 0)) by lia.
  - intros s Ha Hb _. rewrite Hf, Hg, E2, E1. done.
Qed.

Lemma nop_ok d : translates jit_C_NOP exec_C_NOP d.
Proof.
  intros s r s' e Hwf H0 [= <- <-] (He & Heof & Hsr & _). split; [by destruct s as [[]]|]. split; [done|].
  apply (gen_runs_as e _ 0); [|unfold RVJIT_FUNC_MARGIN; lia|done|done].
  unfold regs_after. 
  eapply gen_weaken; [by apply (gen_keep_on _ _ (fun _ _ _ _ => False))|done|intros x Hx; exact Hx| | |done].
  - intros b e' hs (-> & -> & ->). done.
  - intros b e' hs x (-> & -> & ->) Hx. eapply R_ext; [|exact Hx]. intros v Hv.
    rewrite gpr_put by (lia || apply Hwf). by destruct (Z.eqb_spec v 0) as [->|].
Qed.

Lemma inw_land_r n x m : 0 <= n -> inw n m -> inw n (Z.land x m).
Proof.
  intros Hn Hm. apply inw_bits; [done|apply Z.land_nonneg; right; apply Hm|].
  intros i Hi. by rewrite Z.land_spec, (inw_high n m), andb_false_r.
Qed.

Lemma uimm_ranges w : 0 <= d_c_uimm w < 2 ^ 31 /\ 0 <= d_c_uimm_arith w < 64.
Proof.
  assert (inw 10 (d_c_uimm w)) as H1.
  { unfold d_c_uimm. repeat apply inw_lor; try done; apply inw_land_r; done. }
  assert (inw 6 (d_c_uimm_arith w)) as H2.
  { unfold d_c_uimm_arith, cbits. apply inw_lor; [done|apply inw_land_r; done|].
    pose proof (land_small (Z.shiftr w 12) 1 ltac:(lia)) as Hl. change (Z.ones 1) with 1 in Hl.
    rewrite Z.shiftl_mul_pow2 by lia. split; lia. }
  unfold inw in *. lia.
Qed.

Lemma imm_unsigned op wv f x : 0 <= x < 2 ^ 31 -> is_shift op = false ->
  (forall a, i_val op wv a x = f a x) -> imm_agrees op wv f x.
Proof.
  intros Hx Hs Hf. rewrite <- (uN_id 64 x) by (split; lia). apply imm_signed; [lia|done|].
  intros a. rewrite uN_id by (split; lia). apply Hf.
Qed.

Lemma nzimm_int w : exists x, d_c_nzimm w = u64 x /\ - 32 <= x < 32.
Proof. eexists. split; [done|]. apply (sext_range _ 6). lia. Qed.

Lemma c_addi4spn_ok w : translates jit_C_ADDI4SPN exec_C_ADDI4SPN (decode_data w (d_c_uimm w)).
Proof.
  destruct (c_fields w (d_c_uimm w)) as (E1 & R1 & _). destruct (uimm_ranges w) as [Hu _].
  set (d := decode_data w (d_c_uimm w)) in *.
  apply (c_i_ok _ _ _ (c_rd d) 2 (simm d) (d_c_uimm w) ALUOp.ADD false op_ADDI); try done; try lia.
  - by apply imm_unsigned.
  - intros e. by rewrite (proj2 (Z.eqb_neq _ 0)) by lia.
  - intros s Ha _. rewrite E1. done.
Qed.

Lemma c_addi_ok w : translates jit_C_ADDI exec_C_ADDI (decode_data w (d_c_nzimm w)).
Proof.
  destruct (data_fields w (d_c_nzimm w)) as (? & _). destruct (nzimm_int w) as (x & Hx & Hr).
  set (d := decode_data w (d_c_nzimm w)) in *.
  apply (c_i_ok _ _ _ (rd d) (rd d) (simm d) (d_c_nzimm w) ALUOp.ADD false op_ADDI); try done.
  rewrite Hx. apply imm_signed; [lia|done..].
Qed.

Lemma c_addiw_ok w : translates jit_C_ADDIW exec_C_ADDIW (decode_data w (d_c_nzimm w)).
Proof.
  destruct (data_fields w (d_c_nzimm w)) as (? & _). destruct (nzimm_int w) as (x & Hx & Hr).
  set (d := decode_data w (d_c_nzimm w)) in *.
  apply (c_i_ok _ _ _ (rd d) (rd d) (simm d) (d_c_nzimm w) ALUOp.ADD true (fun a im => u64 (s32 (u64 (a + im))))); try done.
  rewrite Hx. apply imm_signed; [lia|done|]. intros a. cbn [i_val]. unfold op_ADDIW.
  by rewrite (proj2 (proj2 (word_sum a (u64 x)))).
Qed.

Lemma c_li_ok w : translates jit_C_LI exec_C_LI (decode_data w (d_c_nzimm w)).
Proof.
  destruct (data_fields w (d_c_nzimm w)) as (? & _). destruct (nzimm_int w) as (x & Hx & Hr).
  set (d := decode_data w (d_c_nzimm w)) in *.
  apply (c_i_ok _ _ _ (rd d) 0 (simm d) (d_c_nzimm w) ALUOp.ADD false op_ADDI); try done.
  - rewrite Hx. apply imm_signed; [lia|done..].
  - intros s _ Hz. unfold op_ADDI. rewrite Hz, Z.add_0_l, Hx, uN_uN by lia. by rewrite <- Hx.
Qed.

Lemma c_lui_ok w : translates jit_C_LUI_ADDI16SP exec_C_LUI_ADDI16SP (decode_data w (d_c_nzimm w)).
Proof.
  destruct (data_fields w (d_c_nzimm w)) as (? & _). destruct (nzimm_int w) as (x & Hx & Hr).
  set (d := decode_data w (d_c_nzimm w)) in *.
  destruct (Z.eqb_spec (rd d) 2) as [E|Hn].
  - pose proof (sext_range (u32 (d_c_nzimm_9 (inst d))) 10 ltac:(lia)) as Hs.
    set (z := sext (u32 (d_c_nzimm_9 (inst d))) 10) in *.
    apply (c_i_ok _ _ _ 2 2 z (u64 z) ALUOp.ADD false op_ADDI); try done.
    + apply imm_signed; [lia|done..].
    + by rewrite s64_u64_int by lia.
    + intros e. unfold jit_C_LUI_ADDI16SP. by rewrite E.
    + intros s _ _. unfold exec_C_LUI_ADDI16SP. rewrite E. unfold c_upd, reg, setreg, mod_hart, op_ADDI.
      cbv [mbind ST_bind gets modify mret ST_ret]. cbn [Z.eqb Pos.eqb]. fold z.
      assert (u64 (gpr (hart s) 2 + u64 z) = u64 (gpr (hart s) 2 + z)) as -> by (unfold uN; by rewrite Zplus_mod_idemp_r).
      done.
  - assert (u64 (Z.shiftl (imm d) 12) = u64 (x * 4096)) as Ei.
    { change (imm d) with (d_c_nzimm w). rewrite Hx, Z.shiftl_mul_pow2 by lia. unfold uN. by rewrite Zmult_mod_idemp_l. }
    apply (c_i_ok _ _ _ (rd d) 0 (s64 (u64 (Z.shiftl (imm d) 12))) (u64 (x * 4096)) ALUOp.ADD false op_ADDI); try done.
    + apply imm_signed; [lia|done..].
    + by rewrite Ei.
    + intros e. unfold jit_C_LUI_ADDI16SP. rewrite (proj2 (Z.eqb_neq (rd d) 2)) by done. by destruct (rd d =? 0).
    + intros s _ Hz. unfold exec_C_LUI_ADDI16SP, op_ADDI. rewrite (proj2 (Z.eqb_neq (rd d) 2)), Hz, Ei, Z.add_0_l, uN_uN by (done || lia). done.
Qed.

Lemma c_slli_ok w : translates jit_C_SLLI exec_C_SLLI (decode_data w (d_c_uimm_arith w)).
Proof.
  destruct (data_fields w (d_c_uimm_arith w)) as (? & _). destruct (uimm_ranges w) as [_ Hu].
  set (d := decode_data w (d_c_uimm_arith w)) in *.
  apply (c_i_ok _ _ _ (rd d) (rd d) (simm d) (d_c_uimm_arith w) ALUOp.SLL false op_SLLI); try done.
  by apply imm_count.
Qed.

Lemma c_srai_ok w : translates jit_C_SRAI exec_C_SRAI (decode_data w (d_c_uimm_arith w)).
Proof.
  destruct (c_fields w (d_c_uimm_arith w)) as (_ & _ & E2 & _ & R2 & _). destruct (uimm_ranges w) as [_ Hu].
  set (d := decode_data w (d_c_uimm_arith w)) in *.
  apply (c_i_ok _ _ _ (c_rs1 d) (c_rs1 d) (simm d) (d_c_uimm_arith w) ALUOp.SRA false op_SRAI); try done; try lia.
  - by apply imm_count.
  - intros e. by rewrite (proj2 (Z.eqb_neq _ 0)) by lia.
  - intros s _ _. by rewrite E2.
Qed.

Lemma c_srli_ok w : rd (decode_data w (d_c_uimm_arith w)) < 8 ->
  translates jit_C_SRLI exec_C_SRLI (decode_data w (d_c_uimm_arith w)).
Proof.
  destruct (data_fields w (d_c_uimm_arith w)) as (Hrd & _).
  destruct (c_fields w (d_c_uimm_arith w)) as (_ & _ & E2 & _ & R2 & _). destruct (uimm_ranges w) as [_ Hu].
  set (d := decode_data w (d_c_uimm_arith w)) in *. intros H8.
  assert (c_rs1 d = 8 + rd d) as E.
  { rewrite E2. unfold c_reg. change 0x7 with (Z.ones 3). rewrite Z.land_ones, Z.mod_small by lia. done. }
  apply (c_i_ok _ _ _ (c_rs1 d) (c_rs1 d) (simm d) (d_c_uimm_arith w) ALUOp.SRL false op_SRLI); try done; try lia.
  - by apply imm_count.
  - intros e. by rewrite (proj2 (Z.eqb_neq _ 0)) by lia.
  - intros s _ _. unfold exec_C_SRLI. rewrite (proj2 (Z.leb_gt _ _)) by lia. by rewrite E.
Qed.

Lemma c_andi_ok w : translates jit_C_ANDI exec_C_ANDI (decode_data w (d_c_uimm_arith w)).
Proof.
  destruct (c_fields w (d_c_uimm_arith w)) as (_ & _ & E2 & _ & R2 & _).
  set (d := decode_data w (d_c_uimm_arith w)) in *.
  pose proof (sext_range (u32 (imm d)) 6 ltac:(lia)) as Hs. set (z := sext (u32 (imm d)) 6) in *.
  apply (c_i_ok _ _ _ (c_rs1 d) (c_rs1 d) z (u64 z) ALUOp.AND false op_ANDI); try done; try lia.
  - apply imm_signed; [lia|done..].
  - by rewrite s64_u64_int by lia.
  - intros e. by rewrite (proj2 (Z.eqb_neq _ 0)) by lia.
  - intros s _ _. by rewrite E2.
Qed.

Lemma c_mv_ok w im : translates jit_C_MV exec_C_MV (decode_data w im).
Proof.
  destruct (data_fields w im) as (? & _). destruct (c_fields w im) as (_ & _ & _ & _ & _ & E3 & R3).
  set (d := decode_data w im) in *.
  apply (translates_r _ _ _ (rd d) 0 (c_rs2 d) ALUOp.ADD false exec_ok2); try done.
  intros s _ Hb Hz. cbn [r_val]. unfold op_ADD. rewrite Hz, Z.add_0_l, (uN_id 64) by done. by rewrite E3.
Qed.

Lemma c_add_ok w im : translates jit_C_ADD exec_C_ADD (decode_data w im).
Proof.
  destruct (data_fields w im) as (? & _). destruct (c_fields w im) as (_ & _ & _ & _ & _ & E3 & R3).
  set (d := decode_data w im) in *.
  apply (translates_r _ _ _ (rd d) (rd d) (c_rs2 d) ALUOp.ADD false exec_ok2); try done.
  intros s _ _ _. cbn [r_val]. unfold op_ADD. by rewrite E3.
Qed.


(** ** All of them *)

(** The handler registered under a mask. *)
Definition find_instr (mask : string) : option (Instr B) :=
  find (fun i => String.eqb (i_mask i) mask) instructions.

Definition instr_imm (i : Instr B) (w : Z) : Z := match i_imm i with Some f => f w | None => 0 end.

(** The words the mask selects. *)
Definition word_of (mask : string) (w : Z) : Prop :=
  exists p, parse_mask mask = Some p /\ Z.land w (p_mask p) = p_match p.

Definition same_work (mask : string) (jf : JitFunc) : Prop :=
  exists i, find_instr mask = Some i /\
    forall w, word_of mask w -> translates jf (i_func i) (decode_data w (instr_imm i w)).

(** The masks of the arithmetic instructions: by the opcode, or by exclusion of
    the compressed loads, stores, branches and jumps. *)
Definition alu_mask (mask : string) : bool :=
  if (String.length mask =? 32)%nat then
    existsb (String.eqb (substring 25 7 mask))
      ["0110011"; "0111011"; "0010011"; "0011011"; "0110111"; "0010111"]%string
  else negb (existsb (String.eqb mask)
      ["010***********00"; "011***********00"; "110***********00"; "111***********00";
       "010***********10"; "011***********10"; "110***********10"; "111***********10";
       "101***********01"; "110***********01"; "111***********01";
       "1000*****0000010"; "1001*****0000010"]%string).

Lemma srli_rd w : word_of "100*00********01" w -> rd (decode_data w (d_c_uimm_arith w)) < 8.
Proof.
  intros (p & Hp & Hm). injection Hp as <-. cbn [p_mask p_match] in Hm. cbn [rd decode_data]. unfold d_rd.
  assert (Z.land (Z.shiftr w 7) 0x1f = Z.land (Z.shiftr w 7) (Z.ones 3)) as ->.
  { assert (Z.land (Z.shiftr w 10) (Z.ones 2) = 0) as Hz.
    { apply (f_equal (fun z => Z.land (Z.shiftr z 10) (Z.ones 2))) in Hm.
      rewrite Z.shiftr_land, <- Z.land_assoc in Hm. exact Hm. }
    change 0x1f with (Z.ones 5). apply Z.bits_inj'. intros i Hi. tb.
    apply (f_equal (fun z => Z.testbit z (i - 3))) in Hz. revert Hz. tb. replace (i - 3 + 10) with (i + 7) by lia.
    zcases; destruct (Z.testbit w (i + 7)); done. }
  pose proof (land_small (Z.shiftr w 7) 3 ltac:(lia)). lia.
Qed.

(** One goal per arithmetic instruction of a table, in its order. *)
Ltac entries :=
  repeat constructor; intros Hm; try discriminate Hm; clear Hm;
  (eexists; split; [reflexivity|]); intros w Hw; cbn [i_func instr_imm i_imm].

Ltac signed_entry := apply alu_i_ok; [|done..]; apply imm_signed; [apply imm_I_int|done..].
Ltac count_entry := apply alu_i_ok; [|done..]; apply imm_count; [done|apply shamt_range|done].

Lemma jit_table_rv64i : Forall (fun '(mask, jf) => alu_mask mask = true -> same_work mask jf) jit_rv64i.
Proof.
  entries.
  1-15: by apply alu_r_ok.
  1-5: signed_entry.
  1-6: count_entry.
  1-2: signed_entry.
  - apply lui_ok.
  - apply auipc_ok.
Qed.

Lemma jit_table_rv64m : Forall (fun '(mask, jf) => alu_mask mask = true -> same_work mask jf) jit_rv64m.
Proof.
  entries.
  2: apply mulw_ok.
  all: apply m_op_ok; [done|by auto].
Qed.

Lemma jit_table_rv64c : Forall (fun '(mask, jf) => alu_mask mask = true -> same_work mask jf) jit_rv64c.
Proof.
  entries.
  - apply c_addi4spn_ok.
  - apply nop_ok.
  - apply c_addi_ok.
  - apply c_addiw_ok.
  - apply c_li_ok.
  - apply c_lui_ok.
  - by apply c_srli_ok, srli_rd.
  - apply c_srai_ok.
  - apply c_andi_ok.
  - by eapply c_alu_ok.
  - by eapply c_alu_ok.
  - by eapply c_alu_ok.
  - by eapply c_alu_ok.
  - eapply (c_alu_ok ALUOp.SUB true op_SUBW); try done.
    intros a b. unfold op_SUBW. by rewrite (proj1 (proj2 (word_sum a b))).
  - eapply (c_alu_ok ALUOp.ADD true op_ADDW); try done.
    intros a b. unfold op_ADDW. by rewrite (proj1 (word_sum a b)).
  - apply c_slli_ok.
  - apply c_mv_ok.
  - apply c_add_ok.
Qed.

(** C16: native code does the work of the interpreter. Take an arithmetic
    instruction (RV64I, RV64M or RV64C, loads, stores and control transfers
    excepted) that has a translator, any word of its encoding, and any state of
    the emitter with room left. The translator returns without trapping and
    appends code; executed from any host state that holds the guest registers
    of a state in which the interpreter's handler returns, that code ends at its
    last byte in a host state that holds the registers the handler leaves, [x0]
    cleared, with nothing else in memory or in the callee-saved registers
    changed and the tables of the register allocator consistent. Division by
    zero and the overflowing division are included; the handler itself changes
    nothing but registers and reports success. *)
Theorem jit_alu_correct mask jf : jit_func mask = Some jf -> alu_mask mask = true -> same_work mask jf.
Proof.
  intros Hf Ha. unfold jit_func in Hf.
  destruct (find _ jit_funcs) as [[m j]|] eqn:E; [|done]. injection Hf as ->.
  apply find_some in E as [Hin Hm]. cbn in Hm. apply String.eqb_eq in Hm as ->.
  assert (Forall (fun '(mask, jf) => alu_mask mask = true -> same_work mask jf) jit_funcs) as Hall.
  { unfold jit_funcs. rewrite !Forall_app. auto using jit_table_rv64i, jit_table_rv64m, jit_table_rv64c. }
  rewrite Forall_forall in Hall. apply list_elem_of_In in Hin. by apply (Hall _ Hin).
Qed.
End correct.
