(* ===== verification/JitExit.v ===== *)
(** * Leaving a block

    The rules for jumps whose displacement is filled in later, and the code of
    the exits ([emit_chain_tail], [flush_all], [emit_block_exit]): every way out
    of it finds the guest registers in memory, the exit address and the budget
    in the context, and the stack and the saved registers as they were. *)

From S2P Require Import Prelude X86 X86Enc X86Code JitEmit JitGen JitAlloc JitSim.
Import x86.

(** ** Jumps *)

Lemma code_pos_bounds base c e bs : placed base c -> code_at c (code_pos e) bs -> 0 <= code_pos e.
Proof. intros _ (c1 & c2 & _ & <-). apply pos_nonneg. Qed.

(** The field of one hole. *)
Lemma resolve_one T k n a (v : Z) s : n = k + pos a ->
  resolve T k [mkHole n s] (a ++ dw_bytes v) = a ++ dw_bytes (u32 (T n - (n + 4))).
Proof.
  intros ->. unfold resolve, fill. cbn [foldl h_pos].
  replace (Z.to_nat (k + pos a - k)) with (length a + 0)%nat by (unfold pos; lia).
  by rewrite list_inserts_app_r.
Qed.

Lemma range_one k a v s n : n = k + pos a -> in_range k (pos (a ++ dw_bytes v)) [mkHole n s].
Proof.
  intros ->. split; [|by repeat constructor]. constructor; [|constructor]. cbn. rewrite pos_app.
  change (pos (dw_bytes v)) with 4. pose proof (pos_nonneg a). lia.
Qed.

Lemma target_imm T k n : targets T -> 0 <= k -> 0 <= n -> k + n <= RVJIT_FUNC_SIZE -> forall h, imm_ok (T h - (k + n)).
Proof. intros HT H0 Hn Hk h. specialize (HT h). unfold imm_ok, RVJIT_FUNC_SIZE in *. lia. Qed.

Lemma target_addr base c T h : placed base c -> targets T -> u64 (base + T h) = base + T h.
Proof. intros (H0 & _ & H2) HT. specialize (HT h). unfold RVJIT_FUNC_SIZE in *. apply uN_id. split; lia. Qed.

(** A conditional jump with a hole: it goes to its target when [b x]. *)
Lemma agen_jcc cc s e (P : (Z -> Z) -> Host -> Prop) (b : Host -> bool) (QM : Exits) : reg_ok cc ->
  (forall AA x, P AA x -> cond cc (xf x) = Some (b x)) ->
  (forall AA x q, P AA x -> b x = true -> QM AA Taken (mkHole (code_pos e + 2) s) (set_xip q x)) ->
  AGEN e (emit (jcc32 cc)) 6 P
    (fun r e' hs => r = code_pos e + 2 /\ hs = [mkHole r s] /\ exists c, e' = with_code e c)
    (fun _ _ AA y => exists x q, P AA x /\ b x = false /\ y = set_xip q x) QM.
Proof.
  intros Hcc Hb HM Hs.
  pose proof (jcc32_emits cc (code (blk e)) Hs) as Em. rewrite jcc32_opcode in Em by done.
  eexists _, _, ([0x0F; 0x80 + cc] ++ dw_bytes 0), [mkHole (code_pos e + 2) s].
  split_and!; [unfold emit; rewrite Em; reflexivity|done|done|by apply range_one|done|done|by eexists|].
  intros base c T x Hpl HT Hat Hip Hp. rewrite resolve_one in Hat by done.
  pose proof (code_pos_bounds _ _ _ _ Hpl Hat) as H0.
  pose proof (target_imm T (code_pos e) 6 HT H0 ltac:(lia) Hs (code_pos e + 2)) as Hi.
  replace (code_pos e + 2 + 4) with (code_pos e + 6) in Hat by lia.
  assert (xstep base c x = Some (set_xip (if b x then base + T (code_pos e + 2) else base + code_pos e + 6) x)) as Hst.
  { rewrite (xstep_at base c _ _ (Ijcc cc (T (code_pos e + 2) - (code_pos e + 6))) x Hat Hip); [|done|].
    2:{ intros t. rewrite <- app_assoc. cbn [app]. by apply dec_jcc32. }
    cbn [exec_at]. change (xf (set_xip _ x)) with (xf x). rewrite (Hb _ _ Hp).
    change (pos _) with 6. destruct (b x); [|done].
    replace (base + code_pos e + 6 + (T (code_pos e + 2) - (code_pos e + 6)))
      with (base + T (code_pos e + 2)) by lia. by rewrite (target_addr base c T _ Hpl HT). }
  eexists. split; [eapply xsteps_step; [exact Hst|constructor]|].
  destruct (b x) eqn:E; [right|left].
  - exists Taken, (mkHole (code_pos e + 2) s). split_and!; [by apply list_elem_of_singleton|done|by apply HM].
  - split; [done|]. eauto.
Qed.

(** [lea r, \[rip + field\]]: the address is filled in later. *)
Lemma agen_lea r s e (P : (Z -> Z) -> Host -> Prop) (QM : Exits) : reg_ok r ->
  AGEN e (emit (lea_r64_rip r)) 7 P
    (fun _ e' hs => hs = [mkHole (code_pos e + 3) s] /\ exists c, e' = with_code e c)
    (fun _ _ AA y => inw 64 (AA (code_pos e + 3)) /\
       exists x q, P AA x /\ y = set_xip q (set_xr r (AA (code_pos e + 3)) x)) QM.
Proof.
  intros Hr Hs.
  set (a := [rex_byte true (8 <=? r) false false; 0x8D; Z.lor 0x05 (Z.shiftl (Z.land r 7) 3)]).
  assert (emits (lea_r64_rip r) tt (a ++ dw_bytes 0)) as Em.
  { reg_cases r; unfold lea_r64_rip, a; cbn [app];
      do 3 (eapply (emits_bind _ _ tt tt [_] (_ :: _)); [apply emits_cb_b || apply emits_rex|]); apply emits_dw. }
  eexists tt, _, (a ++ dw_bytes 0), [mkHole (code_pos e + 3) s].
  split_and!; [unfold emit; rewrite (emits_long _ tt _ _ Em) by exact Hs; reflexivity|done|done|by apply range_one|done|by eexists|].
  intros base c T x Hpl HT Hat Hip Hp. rewrite resolve_one in Hat by done.
  pose proof (code_pos_bounds _ _ _ _ Hpl Hat) as H0.
  pose proof (target_imm T (code_pos e) 7 HT H0 ltac:(lia) Hs (code_pos e + 3)) as Hi.
  replace (code_pos e + 3 + 4) with (code_pos e + 7) in Hat by lia.
  eexists. split; [eapply xsteps_step; [|constructor]|].
  { rewrite (xstep_at base c _ _ (Ilea r (Orip (T (code_pos e + 3) - (code_pos e + 7)))) x Hat Hip); [reflexivity|done|].
    intros t. rewrite <- app_assoc. unfold imm_ok in Hi. reg_cases r; unfold a; cbn [app];
      (rewrite xdecode_rex by done); cbv [dec_op]; repeat head_if; cbn [dec_modrm];
      cbv [dec_modrm]; repeat head_if; (rewrite dec_imm32_dw by lia); reflexivity. }
  cbn [ea]. left. change (pos _) with 7. split; [done|].
  split; [rewrite <- (target_addr base c T _ Hpl HT); by apply uN_inw|].
  exists x, (base + code_pos e + 7). split; [done|].
  unfold put_reg. cbn [set_xr xr xm xf xip set_xip].
  replace (base + code_pos e + 7 + (T (code_pos e + 3) - (code_pos e + 7))) with (base + T (code_pos e + 3)) by lia.
  by rewrite !(target_addr base c T _ Hpl HT).
Qed.

(** A conditional jump followed by a jump through a register: the code is left
    in any case. *)
Lemma agen_jcc_jmp {A} cc r s e (m : Z -> EM A) (P : (Z -> Z) -> Host -> Prop) (b : Host -> bool) (QM : Exits) E :
  reg_ok cc -> reg_ok r ->
  (forall AA x, P AA x -> cond cc (xf x) = Some (b x) /\ inw 64 (xr x r)) ->
  (forall AA x q, P AA x -> b x = true -> QM AA Taken (mkHole (code_pos e + 2) s) (set_xip q x)) ->
  (forall AA x, P AA x -> b x = false -> QM AA Past (mkHole (code_pos e + 2) s) (set_xip (xr x r) x)) ->
  (forall f c, exists a e', m f (with_code e c) = Ret (a, e') /\ code (blk e') = c /\
     (f = code_pos e + 2 -> E a e' [mkHole f s])) ->
  AGEN e (f ← emit (jcc32 cc); emit (jmp_r r) ;; m f) 9 P E (fun _ _ _ _ => False) QM.
Proof.
  intros Hcc Hr HP HT HF Hm Hs.
  destruct (agen_jcc cc s e P b QM Hcc (fun AA x H => proj1 (HP AA x H)) HT ltac:(lia))
    as (f & e1 & bs1 & hs1 & E1 & C1 & N1 & R1 & (-> & -> & c1 & ->) & X1).
  destruct (enc_jmp_r r Hr) as (bs & Em & [Hb Hn] & Hd).
  assert (c1 = code (blk e) ++ bs1) as -> by done.
  assert (code_pos (with_code e (code (blk e) ++ bs1)) = code_pos e + pos bs1) as Hp1
    by (unfold code_pos; cbn; by rewrite pos_app).
  destruct (Hm (code_pos e + 2) ((code (blk e) ++ bs1) ++ bs)) as (a & e' & Ea & Ca & Ha).
  exists a, e', (bs1 ++ bs), [mkHole (code_pos e + 2) s]. split_and!.
  - cbv [mbind ST_bind]. rewrite E1. unfold emit at 1.
    rewrite (emits_long _ tt _ _ Em) by (unfold code_pos in *; cbn in *; lia). exact Ea.
  - by rewrite Ca, app_assoc.
  - rewrite pos_app. lia.
  - rewrite pos_app. rewrite <- (app_nil_r [_]). apply in_range_app; auto using pos_nonneg, in_range_nil.
  - by apply Ha.
  - intros base c T x Hpl HTg Hat Hip Hp. rewrite resolve_app_l in Hat by apply R1.
    apply code_at_app in Hat as [Hat1 Hat2]. rewrite resolve_pos in Hat2.
    destruct (X1 base c T x Hpl HTg Hat1 Hip Hp) as (x1 & S1 & [[Hi (x2 & q & Hp2 & Hf & ->)]|Hl]).
    2:{ exists x1. split; [done|by right]. }
    eexists. split; [eapply xsteps_trans; [exact S1|]; eapply xsteps_step; [|constructor]|].
    { rewrite (xstep_at base c _ bs (Ijmp_to (Oreg r)) _ Hat2); [reflexivity| |done|exact Hd]. by rewrite Hi, Z.add_assoc. }
    right. exists Past, (mkHole (code_pos e + 2) s). split_and!; [by apply list_elem_of_singleton|done|].
    cbn [get_op width]. change (xr (set_xip _ (set_xip q x2)) r) with (xr x2 r).
    rewrite (uN_id 64) by (by apply (HP _ _ Hp2)). apply (HF _ _ Hp2 Hf).
Qed.

(** ** Writing the registers back *)

Section exit.
Context (rb ctx : Z) (x0 : Host) (Hrb : 0 <= rb /\ rb + 256 <= 2 ^ 64).
Abbreviation R := (R rb ctx x0).

(** [e'] is [e] with the dirty bits of the registers in [v .. v + n - 1] cleared. *)
Definition cleaned (v n : Z) (e e' : JIT_Emitter) : Prop :=
  hr_vreg e' = hr_vreg e /\ length (vr e') = length (vr e) /\ ctx_of e' = ctx_of e /\
  (forall w, 0 <= w < 32 -> slot (vreg e' w) = slot (vreg e w)) /\
  (forall w, 0 <= w < 32 -> dirty (vreg e' w) = if (v <=? w) && (w <? v + n) then false else dirty (vreg e w)).

Lemma cleaned_ok o v n e e' : alloc_ok o e -> cleaned v n e e' -> alloc_ok o e'.
Proof.
  intros [A B C D E F] (Hh & Hl & _ & Hs & Hd).
  assert (forall s, hr e' s = hr e s) as Hh' by (intros s; unfold hr; by rewrite Hh).
  constructor.
  - congruence.
  - congruence.
  - intros w Hw. rewrite Hs, Hh' by done. by apply C.
  - intros s Hs'. rewrite Hh'. destruct (D s Hs') as [|[|[? ?]]]; auto. right; right. split; [done|]. by rewrite Hs.
  - intros s. rewrite Hh'. apply E.
  - intros w Hw. rewrite Hs, Hd by done. destruct (_ && _); [done|]. by apply F.
Qed.

(** The dirty registers in [v .. v + n - 1]. *)
Fixpoint dirty_from (e : JIT_Emitter) (v : Z) (n : nat) : list Z :=
  match n with
  | O => []
  | S k => if dirty (vreg e v) then v :: dirty_from e (v + 1) k else dirty_from e (v + 1) k
  end.

Lemma dirty_from_elem e v n w : w ∈ dirty_from e v n <-> v <= w < v + Z.of_nat n /\ dirty (vreg e w) = true.
Proof.
  revert v. induction n as [|n IH]; intros v; cbn [dirty_from]; [set_solver by lia|].
  destruct (dirty (vreg e v)) eqn:E; rewrite ?elem_of_cons, IH.
  - split; [intros [->|[? ?]]; split; done || lia|]. intros [? ?]. destruct (decide (w = v)); [by left|right; split; [lia|done]].
  - split; intros [? ?]; (split; [|done]); [lia|]. destruct (decide (w = v)) as [->|]; [congruence|lia].
Qed.

Lemma dirty_from_ext e e' v n : (forall w, v <= w < v + Z.of_nat n -> dirty (vreg e' w) = dirty (vreg e w)) ->
  dirty_from e' v n = dirty_from e v n.
Proof.
  revert v. induction n as [|n IH]; intros v H; [done|]. cbn [dirty_from]. rewrite (H v) by lia.
  rewrite (IH (v + 1)); [done|]. intros w Hw. apply H. lia.
Qed.

Lemma dirty_from_nodup e v n : NoDup (dirty_from e v n).
Proof.
  revert v. induction n as [|n IH]; intros v; cbn [dirty_from]; [constructor|].
  destruct (dirty (vreg e v)); [|apply IH]. constructor; [|apply IH].
  intros H. apply dirty_from_elem in H. lia.
Qed.

(** Every dirty register has a slot of its own, so there are at most six. *)
Lemma dirty_count o e : alloc_ok o e -> (length (dirty_from e 1 31) <= 6)%nat.
Proof.
  intros He. rewrite <- (length_fmap (fun v => slot (vreg e v))).
  transitivity (length (seqZ 0 6)); [|done]. apply submseteq_length, NoDup_submseteq.
  - apply NoDup_fmap_2_strong; [|apply dirty_from_nodup]. intros v w Hv Hw Heq.
    apply dirty_from_elem in Hv as [Hv Dv], Hw as [Hw Dw].
    destruct (ao_dirty _ _ He v ltac:(lia) Dv). by apply (vreg_slot_inj o e v w He ltac:(lia) ltac:(lia)).
  - intros s Hs. apply list_elem_of_fmap in Hs as (v & -> & Hv). apply dirty_from_elem in Hv as [Hv Dv].
    destruct (ao_dirty _ _ He v ltac:(lia) Dv) as [_ H0]. apply elem_of_seqZ.
    destruct (slot_range _ _ v He ltac:(lia) H0). lia.
Qed.

Lemma gen_flush_clean v e g QM : dirty (vreg e v) = false ->
  GEN e (flush_guest v) 0 (R e g) (fun _ e' hs => hs = [] /\ e' = e) (fun _ e' x => R e' g x) QM.
Proof.
  intros Hd. eapply gen_pure; [|done|done|intros x Hx; exact Hx].
  unfold flush_guest. cbv [mbind ST_bind gets]. by rewrite Hd, andb_false_r.
Qed.

Lemma gen_flush_from v n e g QM : alloc_ok None e -> 0 <= v -> v + Z.of_nat n <= 32 ->
  GEN e (flush_from v n) (8 * Z.of_nat (length (dirty_from e v n))) (R e g)
    (fun _ e' hs => hs = [] /\ cleaned v (Z.of_nat n) e e') (fun _ e' x => R e' g x) QM.
Proof.
  revert v e. induction n as [|n IH]; intros v e He Hv Hn.
  { apply gen_ret; [|done]. split; [done|]. repeat split. intros w Hw. zcases; done. }
  cbn [flush_from dirty_from]. destruct (dirty (vreg e v)) eqn:Ed.
  - cbn [length]. replace (8 * Z.of_nat (S _)) with (8 + 8 * Z.of_nat (length (dirty_from e (v + 1) n))) by lia.
    eapply gen_bind; [lia|apply gen_flush_guest; done || lia|].
    intros [] e1 h1 [-> Hf]. pose proof (flushed_ok None v e e1 ltac:(lia) He Hf) as He1.
    destruct Hf as (Hh & Hl & Hc & Hs & Hd).
    rewrite <- (dirty_from_ext e e1) by (intros w Hw; rewrite Hd by lia; destruct (Z.eqb_spec w v); [lia|done]).
    eapply gen_weaken; [apply (IH (v + 1) e1 He1); lia|done|intros x Hx; exact Hx| |done|done].
    intros [] e2 h2 [-> (Hh2 & Hl2 & Hc2 & Hs2 & Hd2)]. split; [done|]. split_and!; try congruence.
    + intros w Hw. by rewrite Hs2, Hs.
    + intros w Hw. rewrite Hd2, Hd by done. zcases; done.
  - change (8 * Z.of_nat (length (dirty_from e (v + 1) n))) with (0 + 8 * Z.of_nat (length (dirty_from e (v + 1) n))).
    eapply gen_bind; [lia|by apply gen_flush_clean|]. intros [] e1 h1 [-> ->].
    eapply gen_weaken; [apply (IH (v + 1) e He); lia|done|intros x Hx; exact Hx| |done|done].
    intros [] e2 h2 [-> (Hh2 & Hl2 & Hc2 & Hs2 & Hd2)]. split; [done|]. split_and!; try congruence; try done.
    intros w Hw. rewrite Hd2 by done. destruct (decide (w = v)) as [->|]; [rewrite Ed|]; zcases; done.
Qed.

(** [flush_all]: nothing is dirty after it. *)
Definition all_clean (e : JIT_Emitter) : Prop := forall w, 0 <= w < 32 -> dirty (vreg e w) = false.

Lemma gen_flush_all e g QM : alloc_ok None e ->
  GEN e flush_all_regs 48 (R e g)
    (fun _ e' hs => hs = [] /\ alloc_ok None e' /\ ctx_of e' = ctx_of e /\ all_clean e' /\
       forall w, 0 <= w < 32 -> slot (vreg e' w) = slot (vreg e w))
    (fun _ e' x => R e' g x) QM.
Proof.
  intros He. pose proof (dirty_count _ _ He) as Hn.
  eapply gen_weaken; [apply (gen_flush_from 1 31 e g QM He); lia|lia|intros x Hx; exact Hx| |done|done].
  intros [] e' hs [-> Hc]. split; [done|]. pose proof (cleaned_ok _ _ _ _ _ He Hc) as He'.
  destruct Hc as (Hh & Hl & Hctx & Hs & Hd). split_and!; try done.
  intros w Hw. rewrite Hd by done. destruct (dirty (vreg e w)) eqn:Ed; [|by destruct (_ && _)].
  destruct (ao_dirty _ _ He w Hw Ed). zcases; done.
Qed.

(** Nothing is emitted when nothing is dirty. *)
Lemma gen_flush_none e g QM : alloc_ok None e -> all_clean e ->
  GEN e flush_all_regs 0 (R e g)
    (fun _ e' hs => hs = [] /\ alloc_ok None e' /\ ctx_of e' = ctx_of e /\ all_clean e') (fun _ e' x => R e' g x) QM.
Proof.
  intros He Hcl.
  assert (dirty_from e 1 31 = []) as Hd.
  { apply elem_of_nil_inv. intros w Hw. apply dirty_from_elem in Hw as [Hw Ew]. rewrite Hcl in Ew by lia. done. }
  eapply gen_weaken; [apply (gen_flush_from 1 31 e g QM He); lia|by rewrite Hd|intros x Hx; exact Hx| |done|done].
  intros [] e' hs [-> Hc]. split; [done|]. pose proof (cleaned_ok _ _ _ _ _ He Hc) as He'.
  destruct Hc as (Hh & Hl & Hctx & Hs & Hd'). split_and!; try done.
  intros w Hw. rewrite Hd' by done. destruct (_ && _); [done|]. by apply Hcl.
Qed.
End exit.
