(* ===== verification/JitTail.v ===== *)
(** * The chain tail ([emit_chain_tail])

    [left]: the state in which a block is left. The guest registers are in
    memory, the exit address is in the context as the exit and the entry
    address, the budget is reduced by the instructions executed, the stack
    pointer and the registers of the C++ caller are as at the entry.
    [gen_chain_tail]: the code leaves in such a state, for the runner when the
    budget is exhausted, and otherwise for the block the link slot names when
    the slot is valid, or for the dispatcher. *)

From S2P Require Import Prelude X86 X86Enc X86Code JitEmit JitGen JitAlloc JitSim JitIns JitExit.
Import x86.

Lemma agen_ext {A} e (m m' : EM A) n P E Q QM : m e = m' e -> AGEN e m' n P E Q QM -> AGEN e m n P E Q QM.
Proof. intros H Hg Hs. rewrite H. by apply Hg. Qed.

(** Membership in a list of numbers. *)
Ltac elem := eapply bool_decide_unpack; vm_compute; exact I.

(** Straight-line code that is followed by something else. *)
Lemma agen_str_bind {A} e m (f : unit -> EM A) n1 n2 l P (Q1 : (Z -> Z) -> Host -> Prop) E Q QM :
  STR m n1 l -> forallb plain l = true -> 0 <= n2 ->
  (forall AA x, P AA x -> exists x', xrun l x = Some x' /\ forall q, Q1 AA (set_xip q x')) ->
  (forall c, AGEN (with_code e c) (f tt) n2 Q1 E Q QM) ->
  AGEN e (m ≫= f) (n1 + n2) P E Q QM.
Proof.
  intros Hm Hl Hn Hx Hf.
  eapply (agen_bind e m f n1 n2 P (fun _ e' hs => hs = [] /\ exists c, e' = with_code e c) (fun _ _ => Q1)); [done| |].
  - eapply agen_str; [exact Hm|done|eauto|]. intros AA x Hp. destruct (Hx _ _ Hp) as (x' & ? & ?). eauto.
  - intros [] e' hs1 [-> [c ->]]. apply Hf.
Qed.

Lemma mem_addr b d : 0 <= b -> 0 <= d -> b + d < 2 ^ 64 -> u64 (b + d) = b + d.
Proof. intros. apply uN_id. split; lia. Qed.

(** The displacement fields of an exit, in their order. *)
Definition link_sites (L : ExitLink) : list Hole :=
  mkHole (budget_js L) SBudget :: mkHole (lea_disp_off L) (SLea (data_idx L)) ::
  map (fun f => mkHole f (SFail (lea_disp_off L))) (fail L).

Section left.
Context (rb ctx : Z) (Hrb : 0 <= rb /\ rb + 256 <= 2 ^ 64).
Context (Hctx : 0 <= ctx /\ ctx + 128 <= 2 ^ 64) (Hdis : ctx + 128 <= rb \/ rb + 256 <= ctx).

Definition field (o : Z) (x : Host) : Z := ld_le 8 (xm x) (ctx + o).

Record left (x0 : Host) (g : Z -> Z) (va n : Z) (x : Host) : Prop := {
  lf_regs : xr x REG_REGS = rb;
  lf_ctx : xr x REG_CTX = ctx;
  lf_gpr : forall v, 1 <= v < 32 -> ld_le 8 (xm x) (rb + 8 * v) = g v;
  lf_exit : field CTX_OFF_EXIT x = va;
  lf_entry : field CTX_OFF_ENTRY x = va;
  lf_budget : field CTX_OFF_CHAIN_BUDGET x = u64 (field CTX_OFF_CHAIN_BUDGET x0 - n);
  lf_frame : forall a, ~ (rb + 8 <= a < rb + 256) -> ~ (ctx + 32 <= a < ctx + 48) ->
    ~ (ctx + 104 <= a < ctx + 112) -> xm x a = xm x0 a;
  lf_saved : forall r, r ∈ [3; 4; 5; 14] -> xr x r = xr x0 r;
  lf_wf : hwf x }.

Lemma left_view x0 g va n x x' : xm x' = xm x -> (forall r, r ∈ [3; 4; 5; 12; 13; 14] -> xr x' r = xr x r) ->
  hwf x' -> left x0 g va n x -> left x0 g va n x'.
Proof.
  intros Hm Hr Hw [A B C D E F G H I]. unfold field in *.
  constructor; unfold field; rewrite ?Hm; try done.
  - rewrite Hr; [done|]. unfold REG_REGS, REG_R13. elem.
  - rewrite Hr; [done|]. unfold REG_CTX, REG_R12. elem.
  - intros r Hin. rewrite Hr by set_solver + Hin. by apply H.
Qed.

(** The first instructions of the tail. *)
Definition spend_code (count : Z) : list xinstr :=
  [Imov_store B64 (Omem REG_CTX CTX_OFF_EXIT) REG_RAX; Imov_store B64 (Omem REG_CTX CTX_OFF_ENTRY) REG_RAX;
   Ialu_imm B64 Xsub (Omem REG_CTX CTX_OFF_CHAIN_BUDGET) (s32 count)].

Definition exhausted (x : Host) : bool := s64 (field CTX_OFF_CHAIN_BUDGET x) <? 0.

Lemma spend_run x0 e g va count x : all_clean e -> R rb ctx x0 e g x -> xr x REG_RAX = va -> 0 <= count < 2 ^ 31 ->
  exists x', xrun (spend_code count) x = Some x' /\ left x0 g va count x' /\ xr x' REG_RAX = va /\
    cond 0x8 (xf x') = Some (exhausted x').
Proof.
  intros Hcl Hx Hva Hcnt. pose proof (r_wf _ _ _ _ _ _ Hx) as Hwf.
  assert (inw 64 va) as Hv by (rewrite <- Hva; apply Hwf).
  set (m1 := st_le 8 (xm x) (ctx + 40) va). set (m2 := st_le 8 m1 (ctx + 32) va).
  set (b := ld_le 8 m2 (ctx + 104)).
  set (b' := u64 (b - count)).
  set (m3 := st_le 8 m2 (ctx + 104) b').
  assert (b = ld_le 8 (xm x0) (ctx + 104)) as Hb.
  { unfold b, m2, m1. rewrite !ld_st_other by (cbn; lia). apply ld_le_ext. intros a Ha.
    change (Z.of_nat 8) with 8 in Ha. rewrite (uN_id 64 a) by (split; lia).
    apply (r_frame _ _ _ _ _ _ Hx); lia. }
  assert (forall a, inw 8 (m3 a)) as Hm3 by (repeat apply st_le_wf; apply Hwf).
  eexists. split.
  { unfold spend_code, xrun, xeval. cbn [exec_at mbind option_bind].
    cbn [put_op ea set_xm xr xm nbytes width]. rewrite Hva, (r_ctx _ _ _ _ _ _ Hx).
    unfold CTX_OFF_EXIT, CTX_OFF_ENTRY. rewrite !mem_addr, (uN_id 64 va Hv) by lia. fold m1. fold m2.
    unfold alu_to. cbn [alu_op get_op put_op ea set_xm xr xm width nbytes].
    rewrite (r_ctx _ _ _ _ _ _ Hx). unfold CTX_OFF_CHAIN_BUDGET. rewrite !mem_addr by lia. fold b. reflexivity. }
  assert (u64 (b - u64 (s32 count)) = b') as Hb'.
  { unfold b'. rewrite sN_small by (cbn; lia). rewrite (uN_id 64 count) by (split; lia). done. }
  rewrite Hb'. fold m3. cbn [xr xm set_xf set_xm].
  assert (ld_le 8 m3 (ctx + 104) = b') as Hl3.
  { unfold m3. rewrite ld_st_same by (cbn; lia). apply (uN_uN 64). lia. }
  split; [|split; [exact Hva|]].
  - constructor; unfold field; cbn [xr xm set_xf set_xm].
    + apply (r_regs _ _ _ _ _ _ Hx).
    + apply (r_ctx _ _ _ _ _ _ Hx).
    + intros v Hvr. unfold m3, m2, m1. rewrite !ld_st_other by (cbn; lia).
      apply (r_mem _ _ _ _ _ _ Hx); [done|]. apply Hcl. lia.
    + unfold m3, m2, CTX_OFF_EXIT. rewrite !ld_st_other by (cbn; lia). unfold m1.
      rewrite ld_st_same by (cbn; lia). by apply (uN_id 64).
    + unfold m3, CTX_OFF_ENTRY. rewrite !ld_st_other by (cbn; lia). unfold m2.
      rewrite ld_st_same by (cbn; lia). by apply (uN_id 64).
    + unfold CTX_OFF_CHAIN_BUDGET. rewrite Hl3. unfold b'. by rewrite Hb.
    + intros a H1 H2 H3. unfold m3, m2, m1. rewrite !st_le_other by (cbn; lia). by apply (r_frame _ _ _ _ _ _ Hx).
    + intros r Hr. apply (r_saved _ _ _ _ _ _ Hx). unfold callee_saved. set_solver + Hr.
    + split; cbn [xr xm set_xf set_xm]; [apply Hwf|done].
  - cbn [xf set_xf]. unfold exhausted, field, CTX_OFF_CHAIN_BUDGET. cbn [xm set_xf set_xm]. rewrite Hl3.
    unfold flags_of, cond. cbn. f_equal. rewrite (sign_bit 64) by (lia || by apply uN_inw). done.
Qed.
End left.

(** ** Guards *)

Lemma agen_assoc {A B C} e (m : EM A) (f : A -> EM B) (k : B -> EM C) n P E Q QM :
  AGEN e ((m ≫= f) ≫= k) n P E Q QM -> AGEN e (m ≫= fun a => f a ≫= k) n P E Q QM.
Proof. apply agen_ext. cbv [mbind ST_bind]. by destruct (m e) as [[]| |]. Qed.

Lemma agen_le {A} e (m : EM A) n n' P E Q QM : AGEN e m n P E Q QM -> n <= n' -> AGEN e m n' P E Q QM.
Proof. intros H Hn. by eapply agen_weaken; [exact H|..]. Qed.

(** Straight-line code [l] that ends in a conditional jump. *)
Lemma agen_guard m n l cc s e (P Q : (Z -> Z) -> Host -> Prop) (QM : Exits) :
  STR m n l -> forallb plain l = true -> reg_ok cc ->
  (forall AA x, P AA x -> exists x' b, xrun l x = Some x' /\ cond cc (xf x') = Some b /\
     forall q, if b then forall p, QM AA Taken (mkHole p s) (set_xip q x') else Q AA (set_xip q x')) ->
  AGEN e (m ;; emit (jcc32 cc)) (n + 6) P
    (fun r e' hs => hs = [mkHole r s] /\ exists c, e' = with_code e c) (fun _ _ => Q) QM.
Proof.
  intros Hm Hl Hcc Hx.
  set (Q1 AA x' := exists b, cond cc (xf x') = Some b /\
    forall q, if b then forall p, QM AA Taken (mkHole p s) (set_xip q x') else Q AA (set_xip q x')).
  eapply (agen_str_bind e m _ n 6 l P Q1); [done|done|lia| |].
  { intros AA x Hp. destruct (Hx AA x Hp) as (x' & b & Hr & Hc & Hq). exists x'. split; [done|].
    intros q. exists b. split; [done|]. intros q'. apply Hq. }
  intros c.
  eapply agen_weaken; [apply (agen_jcc cc s (with_code e c) Q1
    (fun x => default false (cond cc (xf x))) QM Hcc)|lia|auto| | |auto].
  - intros AA x (b & Hc & _). by rewrite Hc.
  - intros AA x q (b & Hc & Hq). rewrite Hc. cbn. intros ->. apply Hq.
  - intros r e' hs (-> & -> & c' & ->). split; [done|]. by exists c'.
  - intros r e' hs AA y _ (x & q & (b & Hc & Hq) & Hf & ->). rewrite Hc in Hf. cbn in Hf. subst b. apply (Hq q).
Qed.

(** ** The tail *)

Definition REG_SLOT : Z := REG_R15.
Definition slot_field (o : Z) (x : Host) : Z := ld_le 8 (xm x) (u64 (xr x REG_SLOT + o)).

Lemma cmp_zero a b : inw 64 a -> inw 64 b -> (u64 (a - b) =? 0) = (a =? b).
Proof.
  intros Ha Hb. unfold inw in *. destruct (Z.eqb_spec a b) as [->|H]; [by rewrite Z.sub_diag|].
  apply Z.eqb_neq. unfold uN. intros H0. apply Z.mod_divide in H0 as [k Hk]; [|lia]. nia.
Qed.

Lemma cond_ne w a b : cond 0x5 (snd (alu_op w Xcmp a b)) = Some (negb (uN (width w) (a - b) =? 0)).
Proof. done. Qed.

Lemma hwf_ld x a : hwf x -> inw 64 (ld_le 8 (xm x) a).
Proof. intros [_ Hm]. by apply (ld_le_range 8). Qed.

Lemma set_flags_wf x f : hwf x -> hwf (set_xf f x).
Proof. intros []. by constructor. Qed.

Lemma set_reg_wf x r v : inw 64 v -> hwf x -> hwf (set_xr r v x).
Proof.
  intros Hv [Hr Hm]. split; [|done]. intros r'. cbn. unfold upd. by destruct (_ =? _).
Qed.

Lemma xrun_one i x : xrun [i] x = xeval i x.
Proof. cbn [xrun]. by destruct (xeval i x). Qed.

(** A number in memory. *)
Definition at_mem (x : Host) (b d : Z) : Z := ld_le 8 (xm x) (u64 (xr x b + d)).

Lemma load_run r b d x : hwf x -> xeval (Imov_load B64 r (Omem b d)) x = Some (set_xr r (at_mem x b d) x).
Proof.
  intros Hw. transitivity (Some (set_xr r (u64 (at_mem x b d)) x)); [done|].
  by rewrite (uN_id 64) by (by apply hwf_ld).
Qed.

(** [mov r, \[b + d\]; test r, r] *)
Lemma load_test_run r b d x : hwf x -> let v := at_mem x b d in
  let x' := set_xf (flags_of B64 v false false) (set_xr r v x) in
  xrun [Imov_load B64 r (Omem b d); Itest B64 (Oreg r) r] x = Some x' /\ hwf x' /\ cond 0x4 (xf x') = Some (v =? 0).
Proof.
  intros Hw v x'. assert (inw 64 v) as Hv by (by apply hwf_ld). split_and!; [|by apply set_flags_wf, set_reg_wf|done].
  cbn [xrun mbind option_bind]. rewrite load_run by done. fold v.
  transitivity (Some (set_xf (flags_of B64 (Z.land (u64 (upd (xr x) r v r)) (u64 (upd (xr x) r v r))) false false) (set_xr r v x)));
    [done|]. by rewrite upd_eq, !(uN_id 64 v), Z.land_diag by done.
Qed.

(** [cmp r, \[b + d\]] *)
Lemma cmp_run r b d x : hwf x -> let x' := set_xf (snd (alu_op B64 Xcmp (xr x r) (at_mem x b d))) x in
  xeval (Ialu_load B64 Xcmp r (Omem b d)) x = Some x' /\ hwf x' /\
  cond 0x5 (xf x') = Some (negb (xr x r =? at_mem x b d)).
Proof.
  intros Hw x'. assert (inw 64 (xr x r)) as Hr by apply Hw. split_and!; [|by apply set_flags_wf|].
  - unfold x'. rewrite <- (uN_id 64 (xr x r) Hr) at 1. done.
  - unfold x'. cbn [xf set_xf]. rewrite cond_ne. cbn [width]. by rewrite cmp_zero by (done || by apply hwf_ld).
Qed.

(** [mov r, \[b + d\]; cmp r, \[b' + d'\]] *)
Lemma load_cmp_run r b d b' d' x : hwf x -> b' <> r -> let v := at_mem x b d in exists x',
  xrun [Imov_load B64 r (Omem b d); Ialu_load B64 Xcmp r (Omem b' d')] x = Some x' /\ hwf x' /\
  xm x' = xm x /\ xr x' = upd (xr x) r v /\ cond 0x5 (xf x') = Some (negb (v =? at_mem x b' d')).
Proof.
  intros Hw Hne v. assert (inw 64 v) as Hv by (by apply hwf_ld).
  assert (hwf (set_xr r v x)) as Hw1 by (by apply set_reg_wf).
  destruct (cmp_run r b' d' _ Hw1) as (Hr & Hw2 & Hc). eexists. split; [|split; [exact Hw2|split_and!; [done..|]]].
  - cbn [xrun mbind option_bind]. rewrite load_run by done. cbn [mbind option_bind]. fold v. by rewrite Hr.
  - rewrite Hc. cbn [xr set_xr]. rewrite upd_eq. unfold at_mem. cbn [xr xm set_xr]. by rewrite upd_ne.
Qed.

Section tail.
Context (rb ctx : Z) (Hrb : 0 <= rb /\ rb + 256 <= 2 ^ 64).
Context (Hctx : 0 <= ctx /\ ctx + 128 <= 2 ^ 64) (Hdis : ctx + 128 <= rb \/ rb + 256 <= ctx).
Context (x0 : Host) (g : Z -> Z) (va n : Z).
Abbreviation left := (left rb ctx x0 g va n).

(** The guards of the slot, in the order of the code. *)
Definition guards (x : Host) : list bool :=
  [negb (slot_field 0 x =? 0); va =? slot_field 8 x;
   field ctx CTX_OFF_CHAIN_EPOCH x =? slot_field 16 x; field ctx CTX_OFF_CHAIN_MODE x =? slot_field 24 x].

(** The slot holds a block for the exit address, the epoch and the mode. *)
Definition slot_ok (x : Host) : bool := forallb id (guards x).

(** Where the tail is left. *)
Definition tail_exit : Exits := fun A w h y =>
  left y /\
  match w, h_site h with
  | Taken, SBudget => exhausted ctx y = true
  | Taken, SFail lea => exhausted ctx y = false /\ xr y REG_SLOT = A lea /\ slot_ok y = false
  | Past, SFail lea => exhausted ctx y = false /\ xr y REG_SLOT = A lea /\ slot_ok y = true /\ xip y = slot_field 0 y
  | _, _ => False
  end.

(** After the first [k] guards. *)
Record passed (lea : Z) (k : nat) (A : Z -> Z) (x : Host) : Prop := {
  ps_left : left x;
  ps_budget : exhausted ctx x = false;
  ps_slot : xr x REG_SLOT = A lea;
  ps_va : xr x REG_RAX = va;
  ps_fn : (1 <= k)%nat -> xr x REG_R11 = slot_field 0 x;
  ps_guards : forallb id (take k (guards x)) = true }.

(** Registers the guards use may change. *)
Definition kept_regs : list Z := [0; 3; 4; 5; 12; 13; 14; 15].

Lemma guards_view x x' : xm x' = xm x -> xr x' REG_SLOT = xr x REG_SLOT -> guards x' = guards x.
Proof. intros Hm Hr. unfold guards, slot_field, field. by rewrite Hm, Hr. Qed.

Lemma guard_fails (k : nat) x : guards x !! k = Some false -> slot_ok x = false.
Proof.
  unfold slot_ok. generalize (guards x). induction k as [|k IH]; intros [|b l] H; try done.
  - by injection H as ->.
  - cbn. rewrite (IH l H). apply andb_false_r.
Qed.

(** One guard: its code changes no memory and none of the registers that count. *)
Lemma guard_step lea (k : nat) A x x' (b : bool) : passed lea k A x -> guards x !! k = Some b ->
  xm x' = xm x -> (forall r, r ∈ kept_regs -> xr x' r = xr x r) -> xr x' REG_R11 = slot_field 0 x -> hwf x' ->
  forall q, if negb b then forall p, tail_exit A Taken (mkHole p (SFail lea)) (set_xip q x')
    else passed lea (S k) A (set_xip q x').
Proof.
  intros [L B S V F G] Hb Hm Hr Hfn Hw q. set (y := set_xip q x').
  assert (xr y REG_SLOT = xr x REG_SLOT) as Hs by (apply Hr; unfold REG_SLOT; elem).
  assert (guards y = guards x) as Hg by (by apply guards_view).
  assert (left y) as Ly.
  { apply (left_view rb ctx x0 g va n x); [done| |by destruct Hw; constructor|done].
    intros r Hin. apply Hr. unfold kept_regs. set_solver + Hin. }
  assert (exhausted ctx y = false) as By by (unfold exhausted, field in *; cbn; by rewrite Hm).
  assert (slot_field 0 y = slot_field 0 x) as Hf by (unfold slot_field; rewrite Hs; change (xm y) with (xm x'); by rewrite Hm).
  rewrite <- Hg in *. destruct b; cbn [negb].
  - constructor; try done; [by rewrite <- S| |by intros _; rewrite Hf|].
    + change (xr x' REG_RAX = va). rewrite Hr; [done|]. unfold REG_RAX. elem.
    + rewrite (take_S_r _ _ _ Hb), forallb_app, G. done.
  - intros p. split; [done|]. cbn. split_and!; [done|by rewrite <- S|by eapply guard_fails].
Qed.

Lemma set_kept x r v : r ∉ kept_regs -> forall s, s ∈ kept_regs -> upd (xr x) r v s = xr x s.
Proof. intros Hr s Hs. apply upd_ne. by intros ->. Qed.

(** [fn != 0] *)
Lemma first_guard lea A x : passed lea 0 A x -> exists x' b,
  xrun [Imov_load B64 REG_R11 (Omem REG_SLOT 0); Itest B64 (Oreg REG_R11) REG_R11] x = Some x' /\
  cond 0x4 (xf x') = Some b /\
  forall q, if b then forall p, tail_exit A Taken (mkHole p (SFail lea)) (set_xip q x')
    else passed lea 1 A (set_xip q x').
Proof.
  intros Hp. assert (hwf x) as Hwf by apply Hp. set (fn := slot_field 0 x).
  destruct (load_test_run REG_R11 REG_SLOT 0 x Hwf) as (Hr & Hw & Hc).
  eexists _, (fn =? 0). split_and!; [exact Hr|exact Hc|]. rewrite <- (negb_involutive (fn =? 0)).
  apply (guard_step lea 0 A x); [done..| | |done].
  - apply set_kept. elem.
  - apply upd_eq.
Qed.

(** [cmp r, \[r15 + o\]; jne] *)
Lemma cmp_guard lea (k : nat) A x r o : passed lea k A x -> (1 <= k)%nat ->
  guards x !! k = Some (xr x r =? slot_field o x) -> exists x' b,
  xrun [Ialu_load B64 Xcmp r (Omem REG_SLOT o)] x = Some x' /\ cond 0x5 (xf x') = Some b /\
  forall q, if b then forall p, tail_exit A Taken (mkHole p (SFail lea)) (set_xip q x')
    else passed lea (S k) A (set_xip q x').
Proof.
  intros Hp Hk Hg. assert (hwf x) as Hwf by apply Hp. destruct (cmp_run r REG_SLOT o x Hwf) as (Hr & Hw & Hc).
  eexists _, _. split_and!; [rewrite xrun_one; exact Hr|exact Hc|].
  apply (guard_step lea k A x); [done..| |done]. by apply Hp.
Qed.

(** [mov r, \[r12 + d\]; cmp r, \[r15 + o\]; jne] *)
Lemma field_guard lea (k : nat) A x r d o : passed lea k A x -> (1 <= k)%nat ->
  r = REG_RDX \/ r = REG_R10 -> 0 <= d <= 120 ->
  guards x !! k = Some (field ctx d x =? slot_field o x) -> exists x' b,
  xrun [Imov_load B64 r (Omem REG_CTX d); Ialu_load B64 Xcmp r (Omem REG_SLOT o)] x = Some x' /\
  cond 0x5 (xf x') = Some b /\
  forall q, if b then forall p, tail_exit A Taken (mkHole p (SFail lea)) (set_xip q x')
    else passed lea (S k) A (set_xip q x').
Proof.
  intros Hp Hk Hr Hd Hg. assert (hwf x) as Hwf by apply Hp.
  assert (r ∉ kept_regs /\ r <> REG_R11 /\ REG_SLOT <> r) as (Hkr & H11 & Hsl)
    by (destruct Hr as [-> | ->]; (split; [elem|done])).
  assert (at_mem x REG_CTX d = field ctx d x) as Hf.
  { unfold at_mem. rewrite (lf_ctx _ _ _ _ _ _ _ (ps_left _ _ _ _ Hp)). by rewrite mem_addr by lia. }
  destruct (load_cmp_run r REG_CTX d REG_SLOT o x Hwf Hsl) as (x' & Hx & Hw & Hm & Hxr & Hc). rewrite Hf in *.
  eexists _, _. split_and!; [exact Hx|exact Hc|]. apply (guard_step lea k A x); [done..| | |done].
  - rewrite Hxr. by apply set_kept.
  - rewrite Hxr, upd_ne by done. by apply Hp.
Qed.

(** The emitter after the tail. *)
Definition linked (e e' : JIT_Emitter) (L : ExitLink) : Prop :=
  data_idx L = n_exits (blk e) /\
  exists c, e' = set_blk (set_exits (exits (blk e) ++ [L]) (set_code c (blk e))) e.

Lemma linked_code e c e' L : linked (with_code e c) e' L -> linked e e' L.
Proof. intros [H [c' ->]]. split; [done|]. by exists c'. Qed.

(** The last guard: it fails, or the code is left for the block of the slot. *)
Lemma last_guard lea e m E : 
  (forall f c, exists a e', m f (with_code e c) = Ret (a, e') /\ code (blk e') = c /\ E a e' [mkHole f (SFail lea)]) ->
  AGEN e (emit (mov_mr REG_R10 REG_CTX CTX_OFF_CHAIN_MODE) ;; emit (cmp_r64_m64 REG_R10 REG_R15 24) ;;
     f3 ← emit (jcc32 0x5); emit (jmp_r REG_R11) ;; m f3) 25
    (passed lea 3) E (fun (_ : unit) _ _ _ => False) tail_exit.
Proof.
  intros Hm. set (Q1 AA x' := exists b, cond 0x5 (xf x') = Some b /\
    forall q, if b then forall p, tail_exit AA Taken (mkHole p (SFail lea)) (set_xip q x')
      else passed lea 4 AA (set_xip q x')).
  apply agen_assoc. eapply agen_le.
  { eapply (agen_str_bind _ _ _ _ _ _ (passed lea 3) Q1); [str; first [opnd | lia | by split]|done| | |].
    2:{ intros AA x Hp. destruct (field_guard lea 3 AA x REG_R10 CTX_OFF_CHAIN_MODE 24 Hp) as (x' & b & Hr & Hc & Hq);
          [lia|by right|done|done|].
        exists x'. split; [exact Hr|]. intros q. exists b. split; [done|]. intros q'. apply Hq. }
    2:{ intros c. eapply (agen_jcc_jmp 0x5 REG_R11 (SFail lea) _ m Q1 (fun x => default false (cond 0x5 (xf x)))); [done|done|..].
      - intros AA x (b & Hc & Hq). rewrite Hc. split; [done|]. specialize (Hq 0).
        assert (hwf (set_xip 0 x)) as Hw by (destruct b; [apply (Hq 0)|apply Hq]). apply Hw.
      - intros AA x q (b & Hc & Hq). rewrite Hc. cbn. intros ->. apply Hq.
      - intros AA x (b & Hc & Hq). rewrite Hc. cbn. intros ->. destruct (Hq (xr x REG_R11)) as [L B S V F G].
        split; [done|]. cbn. split_and!; [done..|]. by rewrite <- F by lia.
      - intros f c'. destruct (Hm f c') as (a & e' & ? & ? & ?). exists a, e'. auto. }
    done. }
  lia.
Qed.

(** The last guards, and the jump to the block of the slot. *)
Definition guard_code (idx js lea_off : Z) : EM unit :=
  emit (mov_mr REG_R11 REG_R15 0) ;; emit (test_rr REG_R11 REG_R11) ;; f0 ← emit (jcc32 0x4);
  emit (cmp_r64_m64 REG_RAX REG_R15 8) ;; f1 ← emit (jcc32 0x5);
  emit (mov_mr REG_RDX REG_CTX CTX_OFF_CHAIN_EPOCH) ;; emit (cmp_r64_m64 REG_RDX REG_R15 16) ;;
  f2 ← emit (jcc32 0x5);
  emit (mov_mr REG_R10 REG_CTX CTX_OFF_CHAIN_MODE) ;; emit (cmp_r64_m64 REG_R10 REG_R15 24) ;;
  f3 ← emit (jcc32 0x5);
  emit (jmp_r REG_R11) ;;
  modify (fun e => set_blk (set_exits
    (exits (blk e) ++ [mkExitLink idx (lea_off + 3) js [f0; f1; f2; f3]]) (blk e)) e).

Lemma gen_guards e lea_off js :
  AGEN e (guard_code (n_exits (blk e)) js lea_off) 90
    (fun A x => passed (lea_off + 3) 0 A x)
    (fun _ e' hs => exists f, let L := mkExitLink (n_exits (blk e)) (lea_off + 3) js f in
       linked e e' L /\ hs = map (fun f => mkHole f (SFail (lea_off + 3))) f)
    (fun _ _ _ _ => False) tail_exit.
Proof.
  set (lea := lea_off + 3). unfold guard_code. eapply agen_le.
  { do 2 apply agen_assoc. eapply agen_bind.
    2:{ eapply (agen_guard _ _ _ _ (SFail lea) _ (passed lea 0) (passed lea 1)); [str; first [opnd | lia | by split]|done|done|].
        intros AA x Hp. apply (first_guard lea AA x Hp). }
    2:{ intros f0 e1 h1 (-> & c1 & ->). apply agen_assoc. eapply agen_bind.
      2:{ eapply (agen_guard _ _ _ _ (SFail lea) _ (passed lea 1) (passed lea 2)); [str; first [opnd | lia | by split]|done|done|].
          intros AA x Hp. apply (cmp_guard lea 1 AA x REG_RAX 8 Hp); [lia|].
          cbn. by rewrite (ps_va _ _ _ _ Hp). }
      2:{ intros f1 e2 h2 (-> & c2 & ->). do 2 apply agen_assoc. eapply agen_bind.
        2:{ eapply (agen_guard _ _ _ _ (SFail lea) _ (passed lea 2) (passed lea 3)); [str; first [opnd | lia | by split]|done|done|].
            intros AA x Hp. apply (field_guard lea 2 AA x _ _ _ Hp); [lia|by left|done|done]. }
        2:{ intros f2 e3 h3 (-> & c3 & ->). apply last_guard. intros f3 c. eexists _, _. split; [reflexivity|]. split; [done|].
            exists [f0; f1; f2; f3]. split; [|done]. split; [done|]. by eexists. }
        lia. }
      lia. }
    lia. }
  lia.
Qed.

(** [emit_chain_tail]: it leaves the block in any case. *)
Lemma gen_chain_tail e : all_clean e -> n_exits (blk e) < MAX_EXITS -> 0 <= n < 2 ^ 31 ->
  AGEN e (emit_chain_tail n) 140 (fun _ x => R rb ctx x0 e g x /\ xr x REG_RAX = va)
    (fun _ e' hs => exists L, linked e e' L /\ hs = link_sites L) (fun _ _ _ _ => False) tail_exit.
Proof.
  intros Hcl Hn Hc.
  set (spent (A : Z -> Z) x := left x /\ exhausted ctx x = false /\ xr x REG_RAX = va).
  eapply (agen_ext _ _ (js ← (emit (mov_rm REG_CTX CTX_OFF_EXIT REG_RAX) ;;
      emit (mov_rm REG_CTX CTX_OFF_ENTRY REG_RAX) ;; emit (sub_m64_imm REG_CTX CTX_OFF_CHAIN_BUDGET (s32 n))) ;;
      emit (jcc32 0x8); lea_off ← gets code_pos; emit (lea_r64_rip REG_R15) ;;
      guard_code (n_exits (blk e)) js lea_off)).
  { unfold emit_chain_tail, emit. cbv [mbind ST_bind gets].
    destruct (mov_rm _ _ _ (code (blk e))) as [[]| |]; [|done..].
    destruct (mov_rm _ _ _ _) as [[]| |]; [|done..]. destruct (sub_m64_imm _ _ _ _) as [[]| |]; [|done..].
    change (n_exits (blk _)) with (n_exits (blk e)). by rewrite (proj2 (Z.leb_gt _ _) Hn). }
  eapply agen_le.
  { eapply agen_bind.
    2:{ eapply (agen_guard _ _ _ _ SBudget _ _ spent tail_exit); [str; first [opnd | lia | by split]|done|done|].
        intros AA x [Hx Hva]. destruct (spend_run rb ctx Hrb Hctx Hdis x0 e g va n x) as (x' & Hr & Hl & Hv & Hcd); [done..|].
        exists x', (exhausted ctx x'). split; [exact Hr|]. split; [done|]. intros q.
        assert (left (set_xip q x')) as Hq.
        { apply (left_view rb ctx x0 g va n x'); [done|done| |done]. destruct (lf_wf _ _ _ _ _ _ _ Hl); by constructor. }
        destruct (exhausted ctx x') eqn:Ex; [by split|done]. }
    2:{ intros js e1 h1 (-> & c1 & ->). apply (agen_step _ (with_code e c1) _ (emit (lea_r64_rip REG_R15) ;;
          guard_code (n_exits (blk e)) js (code_pos (with_code e c1)))); [done|done|].
        eapply agen_bind.
        2:{ apply (agen_lea REG_R15 (SLea (n_exits (blk e)))). done. }
        2:{ intros [] e2 h2 (-> & c2 & ->). eapply agen_weaken; [apply (gen_guards (with_code (with_code e c1) c2))|done| | |done|done].
            - intros AA x (HA & y & q & (Ly & By & Vy) & ->). set (lea := code_pos (with_code e c1) + 3).
              assert (hwf y) as Hw by apply Ly.
              constructor; [|done|apply upd_eq|exact Vy|lia|done].
              apply (left_view rb ctx x0 g va n y); [done| | |done].
              + intros r Hr. cbn. rewrite upd_ne; [done|]. intros ->. revert Hr. elem.
              + apply (set_reg_wf _ REG_R15 (AA lea) HA) in Hw. by destruct Hw; constructor.
            - intros [] e' hs (f & HL & ->).
              exists (mkExitLink (n_exits (blk e)) (code_pos (with_code e c1) + 3) js f).
              split; [|done]. by eapply linked_code, linked_code. }
        done. }
    done. }
  done.
Qed.
End tail.
