(* ===== verification/Jit.v ===== *)
(** * The compiled-code cache ([include/jit/rvjit.hpp], [src/jit/rvjit.cpp])

    [JIT_Context]: the arenas that hold the code, the set-associative cache of
    compiled blocks, and the compiler. [mmap] belongs to the host: it is the
    argument [os_mmap], which gives the address of the [n]-th mapping, or
    [None] for [MAP_FAILED], where the C++ traps. The bytes of the host are the
    function [hmem]. One thread runs, so the spin lock of [compile] is always
    free and has no state; [nullptr] is the address 0. *)

From Stdlib Require Import Strings.String.
From S2P Require Import Prelude Defs MemoryMap SelfMod Tlb Decode Hart State Mmu Mmio Isa Exec.
From S2P Require Import X86 X86Enc X86Code JitEmit JitIsa.

Definition JIT_ARENA_BYTES : Z := RVJIT_ARENA_PAGES * 4096.
Definition JIT_CACHE_SIZE : Z := Z.shiftl 1 18.
Definition CACHE_WAYS : nat := 8.

(** [JITExec]: [fn] is null when the interpreter has to run. *)
Record JITExec := mkJITExec { fn : Z; chain_fn : Z; je_count : Z }.

Definition no_exec : JITExec := mkJITExec 0 0 0.

Record CachedBlock := mkCached {
  cb_fn : Z; cb_chain_fn : Z; cb_start_phys : Z; cb_smc_epoch : Z;
  cb_eff_mode : Z; cb_mxr : bool; cb_sum : bool;
  cb_hits : Z; cb_count : Z; cb_guest_bytes : Z; cb_text_hash : Z * Z;
  cb_arena_gen : Z; cb_valid : bool }.

Definition no_block : CachedBlock := mkCached 0 0 0 0 0 false false 0 0 0 (0, 0) 0 false.

Record GiveUpSlot := mkGiveUp { gu_phys : Z; gu_skip : bool }.
Record HotSlot := mkHot { hot : Z; hot_epoch : Z }.

(** The vectors are zero when they are made: an absent entry is the default. *)
Record JIT_Context := mkJitCtx {
  jcache : gmap Z CachedBlock;
  giveup : gmap Z GiveUpSlot;
  hotmap : gmap Z HotSlot;
  arenas : list Z;
  cur : Z;
  cur_used : Z }.

Definition jit_new : JIT_Context := mkJitCtx ∅ ∅ ∅ [] 0 0.

Definition cached (j : JIT_Context) (i : Z) : CachedBlock := default no_block (jcache j !! i).
Definition giveup_at (j : JIT_Context) (i : Z) : GiveUpSlot := default (mkGiveUp 0 false) (giveup j !! i).
Definition hot_at (j : JIT_Context) (i : Z) : HotSlot := default (mkHot 0 0) (hotmap j !! i).

Definition put_cached (i : Z) (e : CachedBlock) (j : JIT_Context) : JIT_Context :=
  mkJitCtx (<[i := e]> (jcache j)) (giveup j) (hotmap j) (arenas j) (cur j) (cur_used j).
Definition put_giveup (i : Z) (g : GiveUpSlot) (j : JIT_Context) : JIT_Context :=
  mkJitCtx (jcache j) (<[i := g]> (giveup j)) (hotmap j) (arenas j) (cur j) (cur_used j).
Definition put_hot (i : Z) (g : HotSlot) (j : JIT_Context) : JIT_Context :=
  mkJitCtx (jcache j) (giveup j) (<[i := g]> (hotmap j)) (arenas j) (cur j) (cur_used j).
Definition set_arenas (l : list Z) (c u : Z) (j : JIT_Context) : JIT_Context :=
  mkJitCtx (jcache j) (giveup j) (hotmap j) l c u.

(** [index_of] *)
Definition index_of (phys_pc : Z) : Z :=
  let h := Z.shiftr phys_pc 1 in
  let h := Z.lxor h (Z.shiftr h 17) in
  let h := u64 (h * 0x9E3779B97F4A7C15) in
  Z.land (Z.shiftr h 20) (JIT_CACHE_SIZE - 1).

(** The state of the process: the context, the generation [g_arena_gen], the
    chain dispatcher ([dispatch] in [ensure_chain_dispatcher], and
    [x86::chain_dispatcher()]), the mappings made so far, the host memory, and
    the machine with the hart that compiles. *)
Record JitState (B : Type) := mkJS {
  jctx : JIT_Context;
  g_arena_gen : Z;
  dispatch_fn : Z;
  chain_dispatcher : Z;
  n_maps : nat;
  hmem : Z -> Z;
  vm : State B }.
Arguments mkJS {B}.
Arguments jctx {B}.
Arguments g_arena_gen {B}.
Arguments dispatch_fn {B}.
Arguments chain_dispatcher {B}.
Arguments n_maps {B}.
Arguments hmem {B}.
Arguments vm {B}.

(** [memcpy] of a list of bytes. *)
Fixpoint write_bytes (a : Z) (l : list Z) (m : Z -> Z) : Z -> Z :=
  match l with [] => m | v :: l' => write_bytes (a + 1) l' (upd m a v) end.

(** The digest of [len] bytes of a region from offset [off]. *)
Definition FNV : Z := 0x100000001b3.

Fixpoint fnv_bytes (d : gmap Z Z) (off : Z) (len : nat) (ab : Z * Z) : Z * Z :=
  match len with
  | O => ab
  | S k => fnv_bytes d (off + 1) k
      (u64 (Z.lxor (fst ab) (byte_at d off) * FNV), u64 (Z.lxor (snd ab) (byte_at d off) * FNV))
  end.

Definition fnv_text (d : gmap Z Z) (off len : Z) : Z * Z :=
  let '(a, b) := fnv_bytes d off (Z.to_nat len) (0xcbf29ce484222325, 0x9ddfea08eb382d69) in
  (u64 (Z.lxor a len * FNV), u64 (Z.lxor b (u64 (Z.shiftl len 1)) * FNV)).

(** [text_hash_phys]: the digest, when the text is readable. *)
Definition text_hash_phys (m : MemoryMap) (phys len : Z) : outcome (option (Z * Z)) :=
  if len =? 0 then Ret None else
  match find_region m phys with
  | Throw _ => Ret None
  | Undef => Undef
  | Ret None => Ret None
  | Ret (Some p) =>
      r ← deref m (Some p);
      if (phys <? base_addr r) || (size r <? u64 (u64 (phys - base_addr r) + len)) then Ret None
      else Ret (Some (fnv_text (data r) (u64 (phys - base_addr r)) len))
  end.

(** ** The chain dispatcher *)

(** The code of [ensure_chain_dispatcher]. *)
Definition dispatcher_code : ST x86.CodeBuf unit :=
  x86.mov_mr x86.REG_RCX x86.REG_CTX x86.CTX_OFF_EXIT ;;
  x86.mov_rr x86.REG_RAX x86.REG_RCX ;;
  x86.shift_r64_imm 5 x86.REG_RAX 1 ;;
  x86.mov_imm64 x86.REG_R10 0x9E3779B97F4A7C15 ;;
  x86.imul_rr x86.REG_RAX x86.REG_R10 ;;
  x86.shift_r64_imm 5 x86.REG_RAX (64 - x86.USE_JCHAIN) ;;
  x86.mov_mr x86.REG_R10 x86.REG_CTX x86.CTX_OFF_CHAIN_MODE ;;
  x86.mov_imm64 x86.REG_RDX 0xD1B54A32D192ED03 ;;
  x86.imul_rr x86.REG_R10 x86.REG_RDX ;;
  x86.shift_r64_imm 5 x86.REG_R10 (64 - x86.USE_JCHAIN) ;;
  x86.xor_rr x86.REG_RAX x86.REG_R10 ;;
  x86.and_imm x86.REG_RAX (s32 x86.CHAIN_CACHE_MASK) ;;
  x86.shift_r64_imm 4 x86.REG_RAX 5 ;;
  x86.add_rr x86.REG_RAX x86.REG_CTX ;;
  x86.add_imm x86.REG_RAX x86.CTX_OFF_CHAIN_CACHE ;;
  x86.mov_mr x86.REG_R11 x86.REG_RAX 0 ;;
  x86.test_rr x86.REG_R11 x86.REG_R11 ;;
  j_nofn ← x86.jcc32 0x4;
  x86.cmp_r64_m64 x86.REG_RCX x86.REG_RAX 8 ;;
  j_pc ← x86.jcc32 0x5;
  x86.mov_mr x86.REG_RDX x86.REG_CTX x86.CTX_OFF_CHAIN_EPOCH ;;
  x86.cmp_r64_m64 x86.REG_RDX x86.REG_RAX 16 ;;
  j_epoch ← x86.jcc32 0x5;
  x86.mov_mr x86.REG_R10 x86.REG_CTX x86.CTX_OFF_CHAIN_MODE ;;
  x86.cmp_r64_m64 x86.REG_R10 x86.REG_RAX 24 ;;
  j_mode ← x86.jcc32 0x5;
  x86.mov_rm x86.REG_R15 16 x86.REG_RDX ;;
  x86.mov_rm x86.REG_R15 0 x86.REG_R11 ;;
  x86.mov_rm x86.REG_R15 8 x86.REG_RCX ;;
  x86.mov_rm x86.REG_R15 24 x86.REG_R10 ;;
  x86.mov_rm x86.REG_CTX x86.CTX_OFF_ENTRY x86.REG_RCX ;;
  x86.jmp_r x86.REG_R11 ;;
  tail ← gets x86.pos;
  x86.pop_r x86.REG_R12 ;; x86.pop_r x86.REG_R13 ;; x86.pop_r x86.REG_R15 ;; x86.pop_r x86.REG_RBP ;; x86.ret ;;
  x86.patch_rel32 j_nofn tail ;; x86.patch_rel32 j_pc tail ;;
  x86.patch_rel32 j_epoch tail ;; x86.patch_rel32 j_mode tail.

(** [chain_cache_index] of [rvjit_ctx.hpp]. *)
Definition chain_cache_index (pc mode_key : Z) : Z :=
  let a := Z.shiftr (u64 (Z.shiftr pc 1 * 0x9E3779B97F4A7C15)) (64 - x86.USE_JCHAIN) in
  let b := Z.shiftr (u64 (mode_key * 0xD1B54A32D192ED03)) (64 - x86.USE_JCHAIN) in
  u32 (Z.land (Z.lxor a b) x86.CHAIN_CACHE_MASK).

Section jit.
Context {B : Type} `{BusOps B} (tb : DecTable) (os_mmap : nat -> option Z).

Definition JM (A : Type) : Type := ST (JitState B) A.

Definition mod_jit (f : JIT_Context -> JIT_Context) : JM unit := modify (fun s =>
  mkJS (f (jctx s)) (g_arena_gen s) (dispatch_fn s) (chain_dispatcher s) (n_maps s) (hmem s) (vm s)).
Definition mod_mem (f : (Z -> Z) -> Z -> Z) : JM unit := modify (fun s =>
  mkJS (jctx s) (g_arena_gen s) (dispatch_fn s) (chain_dispatcher s) (n_maps s) (f (hmem s)) (vm s)).
Definition set_vm (v : State B) (s : JitState B) : JitState B :=
  mkJS (jctx s) (g_arena_gen s) (dispatch_fn s) (chain_dispatcher s) (n_maps s) (hmem s) v.

Definition on_vm {A} (m : M B A) : JM A := fun s =>
  match m (vm s) with
  | Ret (a, v) => Ret (a, set_vm v s)
  | Throw x => Throw x
  | Undef => Undef
  end.

(** Run the emitter on its own state. *)
Definition on_em {A} (m : EM A) (e : JIT_Emitter) : JM (A * JIT_Emitter) := fun s =>
  match m e with
  | Ret r => Ret (r, s)
  | Throw x => Throw x
  | Undef => Undef
  end.

Definition epoch_of : JM Z := gets (fun s => g_smc_epoch (smc (vm s))).

(** [invalidate_all]; [g_smc_epoch.fetch_add(1)]. *)
Definition invalidate_all : JM unit := on_vm (modify (fun v =>
  set_smc (mkSelfMod (u64 (g_smc_epoch (smc v) + 1)) (g_executed_pages (smc v)) (g_code_page_gen (smc v))) v)).

(** ** Arenas *)

(** [mmap]; a failure traps. *)
Definition map_pages : JM Z := fun s =>
  match os_mmap (n_maps s) with
  | Some p => Ret (p, mkJS (jctx s) (g_arena_gen s) (dispatch_fn s) (chain_dispatcher s) (S (n_maps s)) (hmem s) (vm s))
  | None => Undef
  end.

(** The unmapped pages are those of the arenas dropped from the list. *)
Definition release_arenas : JM unit := modify (fun s =>
  mkJS (set_arenas [] 0 0 (jctx s)) (u64 (g_arena_gen s + 1)) (dispatch_fn s) (chain_dispatcher s) (n_maps s)
    (hmem s) (vm s)).

Definition new_arena : JM unit :=
  n ← gets (fun s => u64 (Z.of_nat (length (arenas (jctx s))) * JIT_ARENA_BYTES));
  (if RVJIT_MAX_CACHE_BYTES <=? n then invalidate_all ;; release_arenas else mret tt) ;;
  p ← map_pages;
  mod_jit (fun j => set_arenas (arenas j ++ [p]) p 0 j).

Definition arena_alloc (nbytes : Z) : JM Z :=
  j ← gets jctx;
  (if (cur j =? 0) || (JIT_ARENA_BYTES <? u64 (cur_used j + nbytes)) then new_arena else mret tt) ;;
  j ← gets jctx;
  mod_jit (set_arenas (arenas j) (cur j) (u64 (cur_used j + Z.land (u64 (nbytes + 15)) (not64 15)))) ;;
  mret (cur j + cur_used j).

Definition ensure_chain_dispatcher : JM Z := fun s =>
  if negb (dispatch_fn s =? 0) then Ret (dispatch_fn s, s) else
  ('(p, s) ← map_pages s;
   '(_, cb) ← dispatcher_code [];
   Ret (p, mkJS (jctx s) (g_arena_gen s) p (if chain_dispatcher s =? 0 then p else chain_dispatcher s)
     (n_maps s) (write_bytes p cb (hmem s)) (vm s))).

(** ** The cache *)

Definition ways (phys_pc : Z) : list Z := map (fun w => index_of phys_pc * 8 + w) (seqZ 0 (Z.of_nat CACHE_WAYS)).

Definition same_key (e : CachedBlock) (phys_pc eff_mode : Z) (mxr sum : bool) : bool :=
  cb_valid e && (cb_start_phys e =? phys_pc) &&
  (cb_eff_mode e =? eff_mode) && eqb (cb_mxr e) mxr && eqb (cb_sum e) sum.

Definition exec_of (e : CachedBlock) : JITExec := mkJITExec (cb_fn e) (cb_chain_fn e) (cb_count e).

Definition set_hits (n : Z) (e : CachedBlock) : CachedBlock :=
  mkCached (cb_fn e) (cb_chain_fn e) (cb_start_phys e) (cb_smc_epoch e) (cb_eff_mode e) (cb_mxr e) (cb_sum e)
    n (cb_count e) (cb_guest_bytes e) (cb_text_hash e) (cb_arena_gen e) (cb_valid e).
Definition set_epoch (n : Z) (e : CachedBlock) : CachedBlock :=
  mkCached (cb_fn e) (cb_chain_fn e) (cb_start_phys e) n (cb_eff_mode e) (cb_mxr e) (cb_sum e)
    (cb_hits e) (cb_count e) (cb_guest_bytes e) (cb_text_hash e) (cb_arena_gen e) (cb_valid e).

Definition lookup (phys_pc eff_mode : Z) (mxr sum : bool) : JM JITExec :=
  j ← gets jctx;
  epoch ← epoch_of;
  match find (fun i => let e := cached j i in
          same_key e phys_pc eff_mode mxr sum && (cb_smc_epoch e =? epoch)) (ways phys_pc) with
  | Some i =>
      let e := cached j i in
      mod_jit (put_cached i (set_hits (u32 (cb_hits e + 1)) e)) ;; mret (exec_of e)
  | None => mret no_exec
  end.

(** [for(p = p0; p < p1; p += 0x1000)] over the pages of [bytes] bytes at [phys]. *)
Fixpoint page_loop (f : Z -> M B unit) (p p1 : Z) (k : nat) : M B unit :=
  if negb (p <? p1) then mret tt else
  match k with
  | O => undef
  | S k' => f p ;; page_loop f (u64 (p + 0x1000)) p1 k'
  end.

(** A block is in one page, so at most two are visited; the bound is not reached. *)
Definition PAGE_FUEL : nat := 3.

Definition block_pages (f : Z -> M B unit) (phys bytes : Z) : M B unit :=
  page_loop f (Z.land phys (not64 0xFFF)) (Z.land (u64 (phys + bytes + 0xFFF)) (not64 0xFFF)) PAGE_FUEL.

Definition mark_code (p : Z) : M B unit := modify (fun s => set_smc (mark_page_code (smc s) p) s).

Fixpoint salvage_from (l : list Z) (phys_pc eff_mode : Z) (mxr sum : bool) : JM (option JITExec) :=
  match l with
  | [] => mret None
  | i :: l' =>
      e ← gets (fun s => cached (jctx s) i);
      epoch ← epoch_of;
      agen ← gets g_arena_gen;
      if negb (same_key e phys_pc eff_mode mxr sum) || (cb_smc_epoch e =? epoch) || negb (cb_arena_gen e =? agen)
      then salvage_from l' phys_pc eff_mode mxr sum else
      h ← on_vm (fun v => h ← text_hash_phys (mmap v) phys_pc (cb_guest_bytes e); Ret (h, v));
      if negb (bool_decide (h = Some (cb_text_hash e))) then salvage_from l' phys_pc eff_mode mxr sum else
      on_vm (block_pages mark_code phys_pc (cb_guest_bytes e)) ;;
      mod_jit (put_cached i (set_hits (u32 (cb_hits e + 1)) (set_epoch epoch e))) ;;
      mret (Some (exec_of e))
  end.

Definition salvage (phys_pc eff_mode : Z) (mxr sum : bool) : JM (option JITExec) :=
  salvage_from (ways phys_pc) phys_pc eff_mode mxr sum.

Definition is_giveup_in (j : JIT_Context) (phys_pc : Z) : bool :=
  let g := giveup_at j (index_of phys_pc) in gu_skip g && (gu_phys g =? phys_pc).

Definition is_giveup (phys_pc : Z) : JM bool := gets (fun s => is_giveup_in (jctx s) phys_pc).

Definition hot_tick (phys_pc : Z) : JM bool :=
  let i := index_of phys_pc in
  skip ← is_giveup phys_pc;
  if (skip : bool) then mret false else
  hs ← gets (fun s => hot_at (jctx s) i);
  cur_epoch ← epoch_of;
  let base := if negb (hot_epoch hs =? u32 cur_epoch) then 0 else hot hs in
  let n := u32 (base + 1) in
  mod_jit (put_hot i (mkHot n (u32 cur_epoch))) ;;
  mret (RVJIT_HOT_THRESHOLD <=? n).

(** ** The compiler *)

(** The translator of a decoded instruction. *)
Definition jit_func_of (c : InstructionCache) : option JitFunc :=
  (ic_inst c ≫= (fun k => instructions !! k)) ≫= (fun i : Instr B => jit_func (i_mask i)).

(** [count] instructions of [size] bytes are translated, at most [k] more. *)
Fixpoint translate_loop (k : nat) (e : JIT_Emitter) (phys_pc page_end pc_va count size : Z) :
    JM (JIT_Emitter * Z * Z) :=
  match k with
  | O => mret (e, count, size)
  | S k' =>
      if eof e then mret (e, count, size) else
      '(mr, phys, c) ← on_vm (fetchInstruction tb pc_va);
      if negb (mr_success mr) then mret (e, count, size) else
      match c with
      | None => undef
      | Some c =>
          if ic_pc c =? 0 then mret (e, count, size) else
          let d := ic_data c in
          if page_end <? u64 (pc_va + isize d) then mret (e, count, size) else
          if negb (phys =? u64 (phys_pc + size)) then mret (e, count, size) else
          match jit_func_of c with
          | None => mret (e, count, size)
          | Some jf =>
              '(keep, e) ← on_em (modify (fun e => set_blk (set_instr count size (blk e)) e) ;; jf d) e;
              let count := u32 (count + 1) in
              let size := u32 (size + isize d) in
              if negb keep then mret (e, count, size)
              else translate_loop k' e phys_pc page_end (u64 (pc_va + isize d)) count size
          end
      end
  end.

(** [mark_block_executed] *)
Definition mark_executed (p : Z) : M B unit :=
  modify (fun s => set_smc (mark_page_executed (smc s) p) s) ;;
  mark_code p ;;
  mod_hart (fun h => set_tlb (note_exec (tlb h) p) h).

Definition mark_block_executed (phys_pc guest_bytes : Z) : M B unit :=
  block_pages mark_executed phys_pc guest_bytes.

(** The slots behind the code, and the displacement of every [lea] to its slot. *)
Fixpoint place_slots (dst slot_ : Z) (l : list ExitLink) (m : Z -> Z) : Z -> Z :=
  match l with
  | [] => m
  | L :: l' =>
      let rel := s32 (u32 (slot_ - (dst + lea_disp_off L - 3 + 7))) in
      place_slots dst (slot_ + x86.CHAIN_CACHE_STRIDE) l' (write_bytes (dst + lea_disp_off L) (dw_bytes (u32 rel)) m)
  end.

(** The way to replace: the first free one, or the first with the fewest hits. *)
Fixpoint victim_from (j : JIT_Context) (l : list Z) (best min_hits : Z) : Z :=
  match l with
  | [] => best
  | i :: l' =>
      let e := cached j i in
      if negb (cb_valid e) then i
      else if cb_hits e <? min_hits then victim_from j l' i (cb_hits e)
      else victim_from j l' best min_hits
  end.

Definition victim_way (j : JIT_Context) (phys_pc : Z) : Z :=
  victim_from j (ways phys_pc) (index_of phys_pc * 8) 0xFFFFFFFF.

Definition bits_of_mode (h : Hart) : Z * bool * bool :=
  (mode_val (get_effective_mode h STORE), flag (status h) Status.MXR, flag (status h) Status.SUM).

Definition not32 (x : Z) : Z := u32 (Z.lnot x).

(** The size of a block in its arena: the code, aligned, and its slots. *)
Definition data_base (c : x86.CodeBuf) : Z := Z.land (u32 (x86.pos c + 15)) (not32 15).
Definition slot_span (b : JIT_Block) : Z := u32 (n_exits b * x86.CHAIN_CACHE_STRIDE).

(** The translation of the stream at [va], the exit at its end, and the stubs. *)
Definition translate_block (va phys_pc : Z) (key : Z * bool * bool) : JM (option (JIT_Emitter * Z * Z)) :=
  let '(eff_mode, mxr, sum) := key in
  '(_, e) ← on_em emit_prologue (new_emitter new_block eff_mode mxr sum);
  let page_end := u64 (Z.land va (not64 0xFFF) + 0x1000) in
  '(e, count, size) ← translate_loop (Z.to_nat RVJIT_MAX_INSTRUCTIONS) e phys_pc page_end va 0 0;
  if count <? RVJIT_MIN_INSTRUCTIONS then mret None else
  cd ← gets chain_dispatcher;
  '(_, e) ← on_em ((x ← gets exited; if (x : bool) then mret tt else emit_epilogue size count) ;;
                   emit_link_stubs cd ;; emit_miss_stubs) e;
  mret (Some (e, count, size)).

(** The block in the arena, with its pages marked. *)
Definition install_code (b : JIT_Block) (phys_pc size : Z) : JM Z :=
  dst ← arena_alloc (u32 (data_base (code b) + slot_span b));
  mod_mem (fun m =>
    place_slots dst (dst + data_base (code b)) (exits b)
      (write_bytes (dst + data_base (code b)) (replicate (Z.to_nat (slot_span b)) 0)
        (write_bytes dst (code b) m))) ;;
  mret dst.

(** The block protected, and in the cache. *)
Definition publish_block (phys_pc : Z) (key : Z * bool * bool) (dst chain count size : Z) : JM JITExec :=
  let '(eff_mode, mxr, sum) := key in
  block_epoch ← epoch_of;
  on_vm (mark_block_executed phys_pc size) ;;
  agen ← gets g_arena_gen;
  h ← on_vm (fun v => h ← text_hash_phys (mmap v) phys_pc size; Ret (h, v));
  mod_jit (fun j => put_cached (victim_way j phys_pc)
    (mkCached dst chain phys_pc block_epoch eff_mode mxr sum 0 count size (default (0, 0) h) agen true) j) ;;
  mret (mkJITExec dst chain count).

Definition compile (va phys_pc : Z) : JM JITExec :=
  ensure_chain_dispatcher ;;
  key ← gets (fun s => bits_of_mode (hart (vm s)));
  let '(eff_mode, mxr, sum) := key in
  fast ← lookup phys_pc eff_mode mxr sum;
  if negb (fn fast =? 0) then mret fast else
  t ← translate_block va phys_pc key;
  match t with
  | None => mod_jit (put_giveup (index_of phys_pc) (mkGiveUp phys_pc true)) ;; mret no_exec
  | Some (e, count, size) =>
      let b := blk e in
      dst ← install_code b phys_pc size;
      if dst =? 0 then mret no_exec else
      publish_block phys_pc key dst (dst + chain_off b) count size
  end.
End jit.
