(* ===== verification/JitChain.v ===== *)
(** * The chain dispatcher ([ensure_chain_dispatcher], [chain_cache_index])

    [chain_dispatcher_correct]: the machine code of the dispatcher looks the
    exit address up in the chain cache as the C++ dispatch loop indexes it. *)

From S2P Require Import Prelude X86 X86Enc X86Code JitEmit JitGen JitAlloc JitSim JitExit JitTail Jit.
Import x86.

(** ** Running known code *)

(** From offset [k] the code [c] holds the instructions [l] and ends at [k']. *)
Inductive seg (c : list Z) : nat -> list xinstr -> nat -> Prop :=
| seg_nil k : seg c k [] k
| seg_cons k k1 i l k' : xdecode (drop k c) = Some (i, drop k1 c) -> (k < k1 <= length c)%nat -> seg c k1 l k' -> seg c k (i :: l) k'.

Lemma seg_step c base k k1 i x : xdecode (drop k c) = Some (i, drop k1 c) -> (k < k1 <= length c)%nat ->
  xip x = base + Z.of_nat k ->
  xstep base c x = exec_at (base + Z.of_nat k1) i (set_xip (base + Z.of_nat k1) x).
Proof.
  intros Hd Hk Hx. unfold xstep. rewrite Hx.
  rewrite (proj2 (Z.ltb_ge _ base)), (proj2 (Z.leb_gt _ _)) by lia. cbn [orb].
  unfold code_from. replace (Z.to_nat (base + Z.of_nat k - base)) with k by lia.
  rewrite Hd. cbn [mbind option_bind]. rewrite !length_drop.
  replace (base + Z.of_nat k + (Z.of_nat (length c - k) - Z.of_nat (length c - k1))) with (base + Z.of_nat k1) by lia.
  done.
Qed.

Lemma seg_run c base k l k' : seg c k l k' -> forall x x', xip x = base + Z.of_nat k ->
  forallb plain l = true -> xrun l x = Some x' -> xsteps base c x (set_xip (base + Z.of_nat k') x').
Proof.
  induction 1 as [k|k k1 i l k' Hd Hk Hl IH]; intros x x' Hx Hp Hr.
  - injection Hr as <-. rewrite <- Hx. destruct x. constructor.
  - cbn in Hp. apply andb_true_iff in Hp as [Hp Hpl]. cbn [xrun] in Hr.
    destruct (xeval i x) as [x1|] eqn:E; [|done]. cbn in Hr. econstructor.
    { rewrite (seg_step _ _ _ _ _ _ Hd Hk Hx), (plain_exec _ 0) by done. fold (xeval i x). by rewrite E. }
    assert (xrun l (set_xip (base + Z.of_nat k1) x1) = Some (set_xip (base + Z.of_nat k1) x')) as Hr'
      by (by rewrite xrun_xip, Hr by done).
    specialize (IH (set_xip (base + Z.of_nat k1) x1) _ eq_refl Hpl Hr'). by destruct x'.
Qed.

Lemma seg_one c base k k1 i x : seg c k [i] k1 -> xip x = base + Z.of_nat k ->
  xstep base c x = exec_at (base + Z.of_nat k1) i (set_xip (base + Z.of_nat k1) x).
Proof.
  intros Hs Hx. inversion Hs as [|? ? ? ? ? Hd Hk Hn]; subst. inversion Hn; subst. by apply seg_step with k.
Qed.

(** The [n] instructions from offset [k], and the offset after them. *)
Fixpoint decode_from (c : list Z) (k n : nat) : option (list xinstr * nat) :=
  match n with
  | O => Some ([], k)
  | S n' =>
      match xdecode (drop k c) with
      | Some (i, r) =>
          let k1 := (length c - length r)%nat in
          if bool_decide (r = drop k1 c) && (k <? k1)%nat && (k1 <=? length c)%nat then
            match decode_from c k1 n' with Some (l, k') => Some (i :: l, k') | None => None end
          else None
      | None => None
      end
  end.

Lemma seg_decode c k n l k' : decode_from c k n = Some (l, k') -> seg c k l k'.
Proof.
  revert k l. induction n as [|n IH]; intros k l H; cbn [decode_from] in H; [injection H as <- <-; constructor|].
  destruct (xdecode (drop k c)) as [[i r]|] eqn:E; [|done].
  destruct (bool_decide _ && _ && _) eqn:Eb; [|done].
  apply andb_true_iff in Eb as [[Eb H1]%andb_true_iff H2].
  destruct (decode_from c (length c - length r) n) as [[l' k'']|] eqn:El; [|done]. injection H as <- <-.
  apply bool_decide_eq_true in Eb. econstructor; [rewrite E, <- Eb; reflexivity| |by apply IH].
  apply Nat.ltb_lt in H1. apply Nat.leb_le in H2. lia.
Qed.

(** ** The code *)

Definition dispatcher_bytes : list Z :=
  Eval vm_compute in match dispatcher_code [] with Ret (_, cb) => cb | _ => [] end.

Lemma dispatcher_emits : dispatcher_code [] = Ret (tt, dispatcher_bytes).
Proof. vm_compute. reflexivity. Qed.


(** The lookup, its four guards, the hit and the miss. *)
Definition probe_code : list xinstr :=
  [Imov_load B64 1 (Omem 12 40); Imov_store B64 (Oreg 0) 1; Ishift B64 Xshr (Oreg 0) 1;
   Imov_abs 10 0x9E3779B97F4A7C15; Iimul B64 0 (Oreg 10); Ishift B64 Xshr (Oreg 0) 46;
   Imov_load B64 10 (Omem 12 112); Imov_abs 2 0xD1B54A32D192ED03; Iimul B64 10 (Oreg 2);
   Ishift B64 Xshr (Oreg 10) 46; Ialu_store B64 Xxor (Oreg 0) 10; Ialu_imm B64 Xand (Oreg 0) 0x3FFFF;
   Ishift B64 Xshl (Oreg 0) 5; Ialu_store B64 Xadd (Oreg 0) 12; Ialu_imm B64 Xadd (Oreg 0) 128;
   Imov_load B64 11 (Omem 0 0); Itest B64 (Oreg 11) 11].
Definition pc_code : list xinstr := [Ialu_load B64 Xcmp 1 (Omem 0 8)].
Definition epoch_code : list xinstr := [Imov_load B64 2 (Omem 12 96); Ialu_load B64 Xcmp 2 (Omem 0 16)].
Definition mode_code : list xinstr := [Imov_load B64 10 (Omem 12 112); Ialu_load B64 Xcmp 10 (Omem 0 24)].
Definition stamp_code : list xinstr :=
  [Imov_store B64 (Omem 15 16) 2; Imov_store B64 (Omem 15 0) 11; Imov_store B64 (Omem 15 8) 1;
   Imov_store B64 (Omem 15 24) 10; Imov_store B64 (Omem 12 32) 1].
Definition pop_code : list xinstr := [Ipop 12; Ipop 13; Ipop 15; Ipop 5].

Ltac seg_tac n := apply (seg_decode _ _ n); vm_compute; reflexivity.

Lemma seg_probe : seg dispatcher_bytes 0 probe_code 93. Proof. seg_tac 17%nat. Qed.
Lemma seg_pc : seg dispatcher_bytes 99 pc_code 106. Proof. seg_tac 1%nat. Qed.
Lemma seg_epoch : seg dispatcher_bytes 112 epoch_code 127. Proof. seg_tac 2%nat. Qed.
Lemma seg_mode : seg dispatcher_bytes 133 mode_code 148. Proof. seg_tac 2%nat. Qed.
Lemma seg_stamp : seg dispatcher_bytes 154 stamp_code 190. Proof. seg_tac 5%nat. Qed.
Lemma seg_pop : seg dispatcher_bytes 193 pop_code 200. Proof. seg_tac 4%nat. Qed.

(** The conditional jump at [k] goes to the miss. *)
Lemma jcc_step base k k1 cc x b :
  decode_from dispatcher_bytes k 1 = Some ([Ijcc cc (193 - Z.of_nat k1)], k1) -> (k1 <= 200)%nat ->
  0 <= base -> base + 4096 <= 2 ^ 64 ->
  xip x = base + Z.of_nat k -> cond cc (xf x) = Some b ->
  xsteps base dispatcher_bytes x (set_xip (if b then base + 193 else base + Z.of_nat k1) x).
Proof.
  intros Hd Hk H0 H1 Hx Hc. apply seg_decode in Hd. eapply xsteps_step; [|constructor].
  rewrite (seg_one _ _ _ _ _ _ Hd Hx). cbn [exec_at]. change (xf (set_xip _ x)) with (xf x). rewrite Hc.
  destruct b; [|done]. cbn [set_xip]. unfold set_xip. cbn [xr xm xf xip].
  replace (base + Z.of_nat k1 + (193 - Z.of_nat k1)) with (base + 193) by lia. by rewrite (uN_id 64) by (split; lia).
Qed.

(** ** The lookup *)

Lemma chain_index_eq pc mode : chain_cache_index pc mode =
  Z.land (Z.lxor (Z.shiftr (u64 (Z.shiftr pc 1 * 0x9E3779B97F4A7C15)) 46)
    (Z.shiftr (u64 (mode * 0xD1B54A32D192ED03)) 46)) 0x3FFFF.
Proof.
  apply (uN_id 32). set (z := Z.lxor _ _). pose proof (land_small z 18 ltac:(lia)) as Hi.
  change (Z.ones 18) with 0x3FFFF in Hi. split; [apply Hi|]. etransitivity; [apply Hi|done].
Qed.

Lemma chain_index_range pc mode : 0 <= chain_cache_index pc mode < 2 ^ 18.
Proof. rewrite chain_index_eq. apply (land_small _ 18). lia. Qed.

Definition hash_code : list xinstr :=
  [Imov_load B64 1 (Omem 12 40); Imov_store B64 (Oreg 0) 1; Ishift B64 Xshr (Oreg 0) 1;
   Imov_abs 10 0x9E3779B97F4A7C15; Iimul B64 0 (Oreg 10); Ishift B64 Xshr (Oreg 0) 46].

Lemma shift_to_reg k op r c x : 0 < c < 64 ->
  shift_to k B64 op (Oreg r) c x = set_xf no_flags (set_xr r (u64 (shift_op B64 op (u64 (xr x r)) c)) x).
Proof.
  intros Hc. unfold shift_to. cbn [bool_decide]. change 0x3F with (Z.ones 6).
  replace (if bool_decide (B64 = B64) then Z.ones 6 else 0x1F) with (Z.ones 6) by done.
  rewrite Z.land_ones, Z.mod_small by lia. by rewrite (proj2 (Z.eqb_neq c 0)) by lia.
Qed.

Lemma hash_run x ctx : hwf x -> xr x 12 = ctx -> 0 <= ctx -> ctx + 128 <= 2 ^ 64 -> exists x',
  xrun hash_code x = Some x' /\ xr x' 1 = field ctx 40 x /\
  xr x' 0 = Z.shiftr (u64 (Z.shiftr (field ctx 40 x) 1 * 0x9E3779B97F4A7C15)) 46.
Proof.
  intros Hw Hr H0 H1. set (v := field ctx 40 x). assert (inw 64 v) as Hv by (by apply hwf_ld).
  eexists. split; [reflexivity|]. cbn. rewrite !shift_to_reg by lia. cbn.
  rewrite Hr, mem_addr by lia. change (ld_le 8 (xm x) (ctx + 40)) with v. rewrite !(uN_id 64 v) by done.
  split; [done|]. change (u64 (u64 11400714819323198485)) with 11400714819323198485.
  assert (inw 64 (Z.shiftr v 1)) as Hs by (apply inw_shiftr; done || lia).
  rewrite (uN_id 64 (Z.shiftr v 1)), !uN_uN by (done || lia).
  apply uN_id, inw_shiftr; [lia..|by apply uN_inw].
Qed.

Definition mode_hash_code : list xinstr :=
  [Imov_load B64 10 (Omem 12 112); Imov_abs 2 0xD1B54A32D192ED03; Iimul B64 10 (Oreg 2); Ishift B64 Xshr (Oreg 10) 46].

Lemma mode_hash_run x ctx : hwf x -> xr x 12 = ctx -> 0 <= ctx -> ctx + 128 <= 2 ^ 64 -> exists x',
  xrun mode_hash_code x = Some x' /\
  xr x' 10 = Z.shiftr (u64 (field ctx 112 x * 0xD1B54A32D192ED03)) 46.
Proof.
  intros Hw Hr H0 H1. set (v := field ctx 112 x). assert (inw 64 v) as Hv by (by apply hwf_ld).
  eexists. split; [reflexivity|]. cbn. rewrite !shift_to_reg by lia. cbn.
  rewrite Hr, mem_addr by lia. change (ld_le 8 (xm x) (ctx + 112)) with v. rewrite !(uN_id 64 v) by done.
  change (u64 (u64 15111065706836454659)) with 15111065706836454659.
  rewrite !uN_uN by done. apply uN_id, inw_shiftr; [lia..|by apply uN_inw].
Qed.

Definition entry_code : list xinstr :=
  [Ialu_store B64 Xxor (Oreg 0) 10; Ialu_imm B64 Xand (Oreg 0) 0x3FFFF; Ishift B64 Xshl (Oreg 0) 5;
   Ialu_store B64 Xadd (Oreg 0) 12; Ialu_imm B64 Xadd (Oreg 0) 128].

Lemma entry_run x ctx a b : xr x 12 = ctx -> xr x 0 = a -> xr x 10 = b -> inw 64 a -> inw 64 b ->
  0 <= ctx -> ctx + 128 + 32 * 2 ^ 18 <= 2 ^ 64 -> exists x',
  xrun entry_code x = Some x' /\ xr x' 0 = ctx + 128 + 32 * Z.land (Z.lxor a b) 0x3FFFF.
Proof.
  intros Hr Ha Hb Wa Wb H0 H1.
  pose proof (land_small (Z.lxor a b) 18 ltac:(lia)) as Hi. change (Z.ones 18) with 0x3FFFF in Hi.
  set (i := Z.land (Z.lxor a b) 0x3FFFF) in *.
  assert (inw 64 (Z.lxor a b)) as Wx by (by apply inw_lxor).
  assert (inw 64 i) as Wi by (split; lia).
  eexists. split; [reflexivity|]. cbn. unfold alu_to. cbn. rewrite !shift_to_reg by lia. cbn.
  rewrite Ha, Hb, Hr. rewrite (uN_id 64 a), (uN_id 64 b) by done. rewrite !(uN_id 64 (Z.lxor a b)) by done.
  change (u64 262143) with 0x3FFFF. fold i. rewrite !(uN_id 64 i) by done.
  rewrite Z.shiftl_mul_pow2 by lia. change (2 ^ 5) with 32. change (u64 128) with 128.
  rewrite (uN_id 64 (i * 32)) by (split; lia). rewrite !(uN_id 64 (i * 32)) by (split; lia).
  rewrite (uN_id 64 ctx) by (split; lia). rewrite !(uN_id 64 (i * 32 + ctx)) by (split; lia).
  rewrite !(uN_id 64 (i * 32 + ctx + 128)) by (split; lia). lia.
Qed.

(** The registers the lookup uses. *)
Definition probe_regs : list Z := [0; 1; 2; 10; 11].

(** The cache entry at [ce]. *)
Definition ce_field (ce o : Z) (x : Host) : Z := ld_le 8 (xm x) (ce + o).

Record probed (ctx ce : Z) (x0 x : Host) : Prop := {
  pb_mem : xm x = xm x0;
  pb_regs : forall r, r ∉ probe_regs -> xr x r = xr x0 r;
  pb_wf : hwf x;
  pb_pc : xr x 1 = field ctx 40 x0;
  pb_ce : xr x 0 = ce;
  pb_fn : xr x 11 = ce_field ce 0 x0 }.

Lemma probe_run x ctx : hwf x -> xr x 12 = ctx -> 0 <= ctx -> ctx + 128 + 32 * 2 ^ 18 <= 2 ^ 64 ->
  let ce := ctx + 128 + 32 * chain_cache_index (field ctx 40 x) (field ctx 112 x) in exists x',
  xrun probe_code x = Some x' /\ probed ctx ce x x' /\ cond 0x4 (xf x') = Some (ce_field ce 0 x =? 0).
Proof.
  intros Hw Hr H0 H1 ce.
  change probe_code with (hash_code ++ mode_hash_code ++ entry_code ++
    [Imov_load B64 11 (Omem 0 0); Itest B64 (Oreg 11) 11]).
  destruct (hash_run x ctx Hw Hr H0 ltac:(lia)) as (x1 & R1 & V1 & A1).
  destruct (xrun_frame hash_code _ _ eq_refl R1) as (F1 & M1 & W1). specialize (M1 eq_refl). specialize (W1 Hw).
  assert (xr x1 12 = ctx) as C1 by (rewrite F1; [done|elem]).
  destruct (mode_hash_run x1 ctx W1 C1 H0 ltac:(lia)) as (x2 & R2 & B2).
  destruct (xrun_frame mode_hash_code _ _ eq_refl R2) as (F2 & M2 & W2). specialize (M2 eq_refl). specialize (W2 W1).
  assert (field ctx 112 x1 = field ctx 112 x) as Hm by (unfold field; by rewrite M1). rewrite Hm in B2.
  assert (xr x2 12 = ctx) as C2 by (rewrite F2; [done|elem]).
  assert (xr x2 0 = xr x1 0) as A2 by (rewrite F2; [done|elem]). rewrite A1 in A2.
  destruct (entry_run x2 ctx _ _ C2 A2 B2) as (x3 & R3 & V3);
    [apply inw_shiftr; [lia..|by apply uN_inw]|apply inw_shiftr; [lia..|by apply uN_inw]|done|done|].
  destruct (xrun_frame entry_code _ _ eq_refl R3) as (F3 & M3 & W3). specialize (M3 eq_refl). specialize (W3 W2).
  assert (xr x3 0 = ce) as A3.
  { rewrite V3. unfold ce. by rewrite chain_index_eq. }
  assert (0 <= ce /\ ce + 32 <= 2 ^ 64) as Hce.
  { pose proof (chain_index_range (field ctx 40 x) (field ctx 112 x)). subst ce. lia. }
  assert (xm x3 = xm x) as M by congruence.
  assert (forall r, r ∉ probe_regs -> xr x3 r = xr x r) as F.
  { intros r Hr'. assert (forall l, incl l probe_regs -> r ∉ l) as Hi.
    { intros l Hl Hin. apply Hr'. apply list_elem_of_In, Hl, list_elem_of_In. done. }
    rewrite F3, F2, F1; [done|apply Hi..]; intros z Hz; apply list_elem_of_In; apply list_elem_of_In in Hz;
      revert z Hz; apply Forall_forall; vm_compute; repeat constructor; elem. }
  assert (at_mem x3 0 0 = ce_field ce 0 x) as Hfn.
  { unfold at_mem, ce_field. rewrite A3, M, mem_addr by lia. done. }
  destruct (load_test_run 11 0 0 x3 W3) as (R4 & W4 & Hc). rewrite Hfn in *.
  eexists. split; [|split; [|exact Hc]].
  - rewrite xrun_app, R1. cbn [mbind option_bind]. rewrite xrun_app, R2. cbn [mbind option_bind].
    rewrite xrun_app, R3. exact R4.
  - constructor; [done| |done| |exact A3|apply upd_eq].
    + intros r Hr'. cbn [xr set_xf set_xr]. rewrite upd_ne; [by apply F|]. intros ->. apply Hr'. elem.
    + change (xr x3 1 = field ctx 40 x). rewrite F3, F2; [done|elem..].
Qed.

(** ** The guards *)

(** What the C++ checks of the entry at [ce]. *)
Definition chain_hit (ctx ce : Z) (x : Host) : bool :=
  negb (ce_field ce 0 x =? 0) && (field ctx 40 x =? ce_field ce 8 x) &&
  (field ctx 96 x =? ce_field ce 16 x) && (field ctx 112 x =? ce_field ce 24 x).

Section guards.
Context (ctx ce : Z) (x0 : Host) (Hce : 0 <= ce /\ ce + 32 <= 2 ^ 64).
Context (Hctx : 0 <= ctx /\ ctx + 128 <= 2 ^ 64) (Hr12 : xr x0 12 = ctx).

Lemma probed_field x d : probed ctx ce x0 x -> 0 <= d <= 120 -> at_mem x 12 d = field ctx d x0.
Proof.
  intros Hp Hd. unfold at_mem. rewrite (pb_regs _ _ _ _ Hp) by elem. rewrite Hr12, mem_addr by lia.
  by rewrite (pb_mem _ _ _ _ Hp).
Qed.

Lemma probed_entry x d : probed ctx ce x0 x -> 0 <= d <= 24 -> at_mem x 0 d = ce_field ce d x0.
Proof.
  intros Hp Hd. unfold at_mem. rewrite (pb_ce _ _ _ _ Hp), mem_addr by lia. by rewrite (pb_mem _ _ _ _ Hp).
Qed.

(** A scratch register may change. *)
Lemma probed_upd x x' r v : probed ctx ce x0 x -> r = 2 \/ r = 10 -> xm x' = xm x -> xr x' = upd (xr x) r v -> hwf x' ->
  probed ctx ce x0 x'.
Proof.
  intros [A B C D E F] Hr Hm Hx Hw. constructor; rewrite ?Hm, ?Hx; try done.
  - intros s Hs. rewrite upd_ne; [by apply B|]. intros ->. apply Hs. destruct Hr as [-> | ->]; elem.
  - rewrite upd_ne by lia. done.
  - rewrite upd_ne by lia. done.
  - rewrite upd_ne by lia. done.
Qed.

Lemma probed_xip q x : probed ctx ce x0 x -> probed ctx ce x0 (set_xip q x).
Proof. intros [A B C D E F]. constructor; try done. by destruct C; constructor. Qed.

Lemma pc_guard x : probed ctx ce x0 x -> exists x', xrun pc_code x = Some x' /\ probed ctx ce x0 x' /\
  cond 0x5 (xf x') = Some (negb (field ctx 40 x0 =? ce_field ce 8 x0)).
Proof.
  intros Hp. destruct (cmp_run 1 0 8 x (pb_wf _ _ _ _ Hp)) as (Hr & Hw & Hc).
  rewrite (pb_pc _ _ _ _ Hp), (probed_entry x 8 Hp) in * by lia.
  eexists. split_and!; [unfold pc_code; rewrite xrun_one; exact Hr| |exact Hc].
  destruct Hp as [A B C D E F]. by constructor.
Qed.

Lemma key_guard x r d o : probed ctx ce x0 x -> r = 2 \/ r = 10 -> 0 <= d <= 120 -> 0 <= o <= 24 -> exists x',
  xrun [Imov_load B64 r (Omem 12 d); Ialu_load B64 Xcmp r (Omem 0 o)] x = Some x' /\ probed ctx ce x0 x' /\
  xr x' = upd (xr x) r (field ctx d x0) /\
  cond 0x5 (xf x') = Some (negb (field ctx d x0 =? ce_field ce o x0)).
Proof.
  intros Hp Hr Hd Ho. destruct (load_cmp_run r 12 d 0 o x (pb_wf _ _ _ _ Hp)) as (x' & Hx & Hw & Hm & Hxr & Hc); [lia|].
  rewrite (probed_field x d Hp), (probed_entry x o Hp) in * by lia.
  exists x'. split_and!; try done. by eapply probed_upd.
Qed.
End guards.

(** ** The way out *)

(** The C++ caller's frame is popped: the prologue had pushed RBP, R15, R13 and
    R12 below the return address. *)
Record returned (x0 x : Host) : Prop := {
  rt_ip : xip x = at_mem x0 4 32;
  rt_sp : xr x 4 = xr x0 4 + 40;
  rt_r12 : xr x 12 = at_mem x0 4 0;
  rt_r13 : xr x 13 = at_mem x0 4 8;
  rt_r15 : xr x 15 = at_mem x0 4 16;
  rt_rbp : xr x 5 = at_mem x0 4 24;
  rt_rbx : xr x 3 = xr x0 3;
  rt_r14 : xr x 14 = xr x0 14;
  rt_mem : xm x = xm x0 }.

Lemma pop_eval r x : xeval (Ipop r) x = Some (set_xr r (ld_le 8 (xm x) (xr x 4)) (set_xr 4 (u64 (xr x 4 + 8)) x)).
Proof. done. Qed.

Lemma pop_run x : 0 <= xr x 4 -> xr x 4 + 40 < 2 ^ 64 -> exists x',
  xrun pop_code x = Some x' /\ xm x' = xm x /\ xr x' 4 = xr x 4 + 32 /\
  xr x' 12 = at_mem x 4 0 /\ xr x' 13 = at_mem x 4 8 /\ xr x' 15 = at_mem x 4 16 /\ xr x' 5 = at_mem x 4 24 /\
  xr x' 3 = xr x 3 /\ xr x' 14 = xr x 14.
Proof.
  intros H0 H1. unfold at_mem. set (sp := xr x 4) in *. rewrite !mem_addr by lia. rewrite Z.add_0_r.
  eexists. split; [reflexivity|]. cbn. fold sp.
  rewrite !(uN_id 64 (sp + 8)) by (split; lia). replace (sp + 8 + 8) with (sp + 16) by lia.
  rewrite !(uN_id 64 (sp + 16)) by (split; lia). replace (sp + 16 + 8) with (sp + 24) by lia.
  rewrite !(uN_id 64 (sp + 24)) by (split; lia). replace (sp + 24 + 8) with (sp + 32) by lia.
  rewrite !(uN_id 64 (sp + 32)) by (split; lia). done.
Qed.

(** The memory after a hit: the caller's slot, and the entry address. *)
Definition stamped (slot ctx fn pc epoch mode : Z) (m : Z -> Z) : Z -> Z :=
  st_le 8 (st_le 8 (st_le 8 (st_le 8 (st_le 8 m (slot + 16) epoch) slot fn) (slot + 8) pc) (slot + 24) mode) (ctx + 32) pc.

Lemma stamp_run x ctx slot fn pc epoch mode : hwf x -> xr x 12 = ctx -> xr x 15 = slot -> xr x 11 = fn -> xr x 1 = pc ->
  xr x 2 = epoch -> xr x 10 = mode -> 0 <= ctx -> ctx + 128 <= 2 ^ 64 -> 0 <= slot -> slot + 32 <= 2 ^ 64 ->
  xrun stamp_code x = Some (set_xm (stamped slot ctx fn pc epoch mode (xm x)) x).
Proof.
  intros Hw H12 H15 H11 H1 H2 H10 ? ? ? ?.
  transitivity (Some (set_xm (st_le 8 (st_le 8 (st_le 8 (st_le 8 (st_le 8 (xm x) (u64 (xr x 15 + 16)) (u64 (xr x 2)))
    (u64 (xr x 15 + 0)) (u64 (xr x 11))) (u64 (xr x 15 + 8)) (u64 (xr x 1))) (u64 (xr x 15 + 24)) (u64 (xr x 10)))
    (u64 (xr x 12 + 32)) (u64 (xr x 1))) x)); [reflexivity|].
  rewrite !(fun r => uN_id 64 (xr x r) (hwf_reg _ Hw r)), H12, H15, H11, H1, H2, H10, !mem_addr by lia.
  by rewrite Z.add_0_r.
Qed.

Section run.
Context (base ctx slot : Z) (x : Host).
Context (Hbase : 0 <= base /\ base + 4096 <= 2 ^ 64).
Context (Hctx : 0 <= ctx /\ ctx + 128 + 32 * 2 ^ 18 <= 2 ^ 64) (H12 : xr x 12 = ctx).
Context (Hslot : 0 <= slot /\ slot + 32 <= 2 ^ 64) (H15 : xr x 15 = slot).
Context (Hsp : 0 <= xr x 4 /\ xr x 4 + 40 < 2 ^ 64) (Hw : hwf x).

Abbreviation exit_pc := (field ctx 40 x).
Abbreviation mode_key := (field ctx 112 x).
Abbreviation ce := (ctx + 128 + 32 * chain_cache_index exit_pc mode_key).

Lemma miss_steps y : probed ctx ce x y -> xip y = base + 193 ->
  exists x', xsteps base dispatcher_bytes y x' /\ returned x x'.
Proof.
  intros Hp Hi.
  assert (xr y 4 = xr x 4) as Hy4 by (rewrite (pb_regs _ _ _ _ Hp); [done|elem]).
  destruct (pop_run y) as (z & Hz & Mz & Z4 & Z12 & Z13 & Z15 & Z5 & Z3 & Z14); [lia..|].
  pose proof (seg_run _ base _ _ _ seg_pop y z Hi eq_refl Hz) as S1.
  eexists. split.
  { eapply xsteps_trans; [exact S1|]. eapply xsteps_step; [|constructor].
    assert (seg dispatcher_bytes 200 [Iret] 201) as Hs by seg_tac 1%nat.
    by rewrite (seg_one _ base _ _ _ _ Hs). }
  assert (forall d, at_mem y 4 d = at_mem x 4 d) as Ha by (intros d; unfold at_mem; by rewrite Hy4, (pb_mem _ _ _ _ Hp)).
  rewrite Ha in *.
  assert (ld_le 8 (xm z) (xr z 4) = at_mem x 4 32) as Hret.
  { unfold at_mem. by rewrite Mz, (pb_mem _ _ _ _ Hp), Z4, Hy4, mem_addr by lia. }
  constructor; cbn [xip xr xm set_xip set_xr]; rewrite ?Mz, ?(pb_mem _ _ _ _ Hp), ?Hret; try done;
    rewrite ?upd_ne by lia; rewrite ?Z12, ?Z13, ?Z15, ?Z5, ?Z3, ?Z14, ?Ha; try done.
  - by rewrite <- Hret, Mz, (pb_mem _ _ _ _ Hp).
  - rewrite upd_eq, Z4, Hy4, uN_id by (split; lia). lia.
  - apply (pb_regs _ _ _ _ Hp). elem.
  - apply (pb_regs _ _ _ _ Hp). elem.
Qed.

(** One guard. *)
Lemma guard_one (k km k1 : nat) code cc y y1 b : seg dispatcher_bytes k code km ->
  decode_from dispatcher_bytes km 1 = Some ([Ijcc cc (193 - Z.of_nat k1)], k1) -> (k1 <= 200)%nat ->
  xip y = base + Z.of_nat k -> forallb plain code = true -> xrun code y = Some y1 -> cond cc (xf y1) = Some b ->
  xsteps base dispatcher_bytes y (set_xip (if b then base + 193 else base + Z.of_nat k1) y1).
Proof.
  intros Hs Hd Hk Hi Hp Hr Hc. eapply xsteps_trans; [by eapply seg_run|].
  eapply (jcc_step base km k1 cc (set_xip (base + Z.of_nat km) y1)); done || lia.
Qed.

(** A guard that fails. *)
Lemma guard_out y y1 b rest : xsteps base dispatcher_bytes y (set_xip (base + 193) y1) -> probed ctx ce x y1 ->
  b = false -> exists y' b', xsteps base dispatcher_bytes y y' /\ probed ctx ce x y' /\ b' = b && rest /\
    xip y' = (if b' then base + 154 else base + 193) /\ (b' = true -> xr y' 2 = field ctx 96 x /\ xr y' 10 = mode_key).
Proof.
  intros Hs Hp ->. exists (set_xip (base + 193) y1), false. split_and!; [exact Hs|by apply probed_xip|done..].
Qed.

(** The guards one after the other. *)
Lemma guards_steps y : probed ctx ce x y -> xip y = base + 93 -> cond 0x4 (xf y) = Some (ce_field ce 0 x =? 0) ->
  exists y' b, xsteps base dispatcher_bytes y y' /\ probed ctx ce x y' /\ b = chain_hit ctx ce x /\
    xip y' = (if b then base + 154 else base + 193) /\
    (b = true -> xr y' 2 = field ctx 96 x /\ xr y' 10 = mode_key).
Proof.
  intros Hp Hi Hc.
  pose proof (chain_index_range exit_pc mode_key) as Hix.
  assert (0 <= ce /\ ce + 32 <= 2 ^ 64) as Hce by lia.
  assert (0 <= ctx /\ ctx + 128 <= 2 ^ 64) as Hcx by lia.
  unfold chain_hit. rewrite <- !andb_assoc.
  assert (xsteps base dispatcher_bytes y (set_xip (if ce_field ce 0 x =? 0 then base + 193 else base + Z.of_nat 99) y)) as S0
    by (apply (jcc_step base 93 99 4); done || lia).
  destruct (ce_field ce 0 x =? 0) eqn:E0; [by eapply guard_out|]. cbn [negb andb].
  destruct (pc_guard ctx ce x Hce _ (probed_xip _ _ _ (base + Z.of_nat 99) _ Hp)) as (y1 & R1 & P1 & C1).
  assert (S1 := guard_one 99 106 112 pc_code 5 (set_xip (base + Z.of_nat 99) y) y1 _ seg_pc eq_refl ltac:(lia) eq_refl eq_refl R1 C1).
  pose proof (xsteps_trans _ _ _ _ _ S0 S1) as T1. clear S0 S1.
  destruct (exit_pc =? ce_field ce 8 x) eqn:E1; [|by eapply guard_out]. cbn [negb andb] in *.
  destruct (key_guard ctx ce x Hce Hcx H12 _ 2 96 16 (probed_xip _ _ _ (base + Z.of_nat 112) _ P1))
    as (y2 & R2 & P2 & X2 & C2); [by left|lia..|].
  assert (S2 := guard_one 112 127 133 epoch_code 5 (set_xip (base + Z.of_nat 112) y1) y2 _ seg_epoch eq_refl ltac:(lia) eq_refl eq_refl R2 C2).
  pose proof (xsteps_trans _ _ _ _ _ T1 S2) as T2. clear S2.
  destruct (field ctx 96 x =? ce_field ce 16 x) eqn:E2; [|by eapply guard_out]. cbn [negb andb] in *.
  destruct (key_guard ctx ce x Hce Hcx H12 _ 10 112 24 (probed_xip _ _ _ (base + Z.of_nat 133) _ P2))
    as (y3 & R3 & P3 & X3 & C3); [by right|lia..|].
  assert (S3 := guard_one 133 148 154 mode_code 5 (set_xip (base + Z.of_nat 133) y2) y3 _ seg_mode eq_refl ltac:(lia) eq_refl eq_refl R3 C3).
  pose proof (xsteps_trans _ _ _ _ _ T2 S3) as T3. clear S3.
  destruct (mode_key =? ce_field ce 24 x) eqn:E3; cbn [negb] in T3.
  2:{ rewrite <- (andb_true_r false). by eapply guard_out. }
  exists (set_xip (base + 154) y3), true. split_and!; [exact T3|by apply probed_xip|done|done|].
  intros _. change (xr (set_xip _ y3)) with (xr y3). rewrite X3. split; [|apply upd_eq].
  rewrite upd_ne by done. change (xr (set_xip _ y2)) with (xr y2). rewrite X2. apply upd_eq.
Qed.

(** A hit. *)
Lemma hit_steps y : probed ctx ce x y -> xip y = base + 154 -> xr y 2 = field ctx 96 x -> xr y 10 = mode_key ->
  exists x', xsteps base dispatcher_bytes y x' /\ xip x' = ce_field ce 0 x /\
    xm x' = stamped slot ctx (ce_field ce 0 x) exit_pc (field ctx 96 x) mode_key (xm x) /\
    forall r, r ∉ probe_regs -> xr x' r = xr x r.
Proof.
  intros Hp Hi H2 H10. destruct Hp as [M F W Hpc Hc Hf].
  assert (xrun stamp_code y = Some (set_xm (stamped slot ctx (ce_field ce 0 x) exit_pc (field ctx 96 x) mode_key (xm y)) y)) as Hr.
  { apply stamp_run; try done; try lia; [by rewrite F by elem|by rewrite F by elem]. }
  pose proof (seg_run _ base _ _ _ seg_stamp y _ Hi eq_refl Hr) as S1.
  eexists. split.
  { eapply xsteps_trans; [exact S1|]. eapply xsteps_step; [|constructor].
    assert (seg dispatcher_bytes 190 [Ijmp_to (Oreg 11)] 193) as Hs by seg_tac 1%nat.
    by rewrite (seg_one _ base _ _ _ _ Hs). }
  cbn [xip set_xip xm xr set_xm get_op width]. rewrite Hf, M. split_and!; [|done|done].
  apply (uN_id 64). by apply hwf_ld.
Qed.
End run.

(** The stamped slot passes the guards of the exit that owns it. *)
Lemma stamped_ok slot ctx fn pc epoch mode m x : (forall a, inw 8 (m a)) ->
  inw 64 fn -> inw 64 pc -> inw 64 epoch -> inw 64 mode -> fn <> 0 ->
  0 <= slot -> slot + 32 <= 2 ^ 64 -> 0 <= ctx -> ctx + 128 <= 2 ^ 64 -> slot + 32 <= ctx \/ ctx + 128 <= slot ->
  xr x REG_SLOT = slot -> xm x = stamped slot ctx fn pc epoch mode m ->
  ld_le 8 m (ctx + 96) = epoch -> ld_le 8 m (ctx + 112) = mode -> slot_ok ctx pc x = true.
Proof.
  intros Hm Wf Wp We Wm Hf ? ? ? ? Hd Hs Hx He Hmo.
  assert (forall v, inw 64 v -> uN (8 * Z.of_nat 8) v = v) as Hu by (intros v Hv; by apply (uN_id 64)).
  assert (slot_field 0 x = fn /\ slot_field 8 x = pc /\ slot_field 16 x = epoch /\ slot_field 24 x = mode) as (E0 & E8 & E16 & E24).
  { unfold slot_field. rewrite Hs, Hx, !mem_addr, Z.add_0_r by lia. unfold stamped. split_and!.
    - do 3 rewrite ld_st_other by (cbn; lia). rewrite ld_st_same by (cbn; lia). by apply Hu.
    - do 2 rewrite ld_st_other by (cbn; lia). rewrite ld_st_same by (cbn; lia). by apply Hu.
    - do 4 rewrite ld_st_other by (cbn; lia). rewrite ld_st_same by (cbn; lia). by apply Hu.
    - do 1 rewrite ld_st_other by (cbn; lia). rewrite ld_st_same by (cbn; lia). by apply Hu. }
  assert (field ctx 96 x = epoch /\ field ctx 112 x = mode) as [F1 F2].
  { unfold field. rewrite Hx. unfold stamped. by rewrite !ld_st_other by (cbn; lia). }
  unfold slot_ok, guards. cbn [forallb id]. unfold CTX_OFF_CHAIN_EPOCH, CTX_OFF_CHAIN_MODE.
  rewrite E0, E8, E16, E24, F1, F2, !Z.eqb_refl. by rewrite (proj2 (Z.eqb_neq _ _) Hf).
Qed.

(** C19: the dispatcher's machine code and the C++ agree on the chain cache. The
    code [ensure_chain_dispatcher] emits fits in its page. Entered by an exit
    whose link slot is at R15, it reads the entry of the cache that
    [chain_cache_index] gives for the exit address and the mode key. If the entry
    holds a block for that address, epoch and mode, control goes to the block
    with the exit address as its entry address, and the slot is stamped so that
    the exit passes its own guards the next time. Otherwise the frame of the C++
    caller is popped and control returns to it with memory unchanged. *)
Theorem chain_dispatcher_correct : exists c, dispatcher_code [] = Ret (tt, c) /\ pos c <= 4096 /\
  forall base ctx slot x,
    0 <= base -> base + 4096 <= 2 ^ 64 -> 0 <= ctx -> ctx + 128 + 32 * CHAIN_CACHE_SLOTS <= 2 ^ 64 ->
    0 <= slot -> slot + CHAIN_CACHE_STRIDE <= 2 ^ 64 -> slot + CHAIN_CACHE_STRIDE <= ctx \/ ctx + 128 <= slot ->
    0 <= xr x REG_RSP -> xr x REG_RSP + 40 < 2 ^ 64 -> hwf x ->
    xr x REG_CTX = ctx -> xr x REG_SLOT = slot -> xip x = base ->
    let exit_pc := field ctx CTX_OFF_EXIT x in
    let mode := field ctx CTX_OFF_CHAIN_MODE x in
    let ce := ctx + CTX_OFF_CHAIN_CACHE + CHAIN_CACHE_STRIDE * chain_cache_index exit_pc mode in
    exists x', xsteps base c x x' /\
      if chain_hit ctx ce x then
        xip x' = ce_field ce 0 x /\ slot_ok ctx exit_pc x' = true /\
        xm x' = stamped slot ctx (ce_field ce 0 x) exit_pc (field ctx CTX_OFF_CHAIN_EPOCH x) mode (xm x) /\
        forall r, r ∉ probe_regs -> xr x' r = xr x r
      else returned x x'.
Proof.
  exists dispatcher_bytes. split; [apply dispatcher_emits|]. split; [done|].
  intros base ctx slot x B0 B1 C0 C1 S0 S1 Sd P0 P1 Hw H12 H15 Hi exit_pc mode ce.
  change CHAIN_CACHE_SLOTS with (2 ^ 18) in C1. change CHAIN_CACHE_STRIDE with 32 in *.
  destruct (probe_run x ctx Hw H12 C0 C1) as (y & Ry & Py & Cy).
  pose proof (seg_run _ base _ _ _ seg_probe x y ltac:(lia) eq_refl Ry) as T1.
  destruct (guards_steps base ctx x (conj B0 B1) (conj C0 C1) H12 (set_xip (base + Z.of_nat 93) y)) as (z & b & T2 & Pz & -> & Zi & Zr); [by apply probed_xip|done|done|].
  pose proof (xsteps_trans _ _ _ _ _ T1 T2) as T. clear T1 T2.
  change (chain_hit ctx ce x) with (chain_hit ctx (ctx + 128 + 32 * chain_cache_index (field ctx 40 x) (field ctx 112 x)) x).
  destruct (chain_hit _ _ x) eqn:Eh.
  - destruct (Zr eq_refl) as [Z2 Z10].
    destruct (hit_steps base ctx slot x (conj C0 C1) H12 (conj S0 S1) H15 Hw z Pz Zi Z2 Z10)
      as (x' & T3 & Xi & Xm & Xr).
    exists x'. split; [by eapply xsteps_trans|]. split; [exact Xi|]. split; [|split; [exact Xm|exact Xr]].
    unfold chain_hit in Eh. apply andb_true_iff in Eh as [[[Eh _]%andb_true_iff _]%andb_true_iff _].
    apply negb_true_iff, Z.eqb_neq in Eh.
    assert (ctx + 128 <= 2 ^ 64) as C2 by lia.
    apply (stamped_ok slot ctx (ce_field ce 0 x) exit_pc (field ctx 96 x) mode (xm x) x');
      [apply Hw|by apply hwf_ld..|exact Eh|exact S0|exact S1|exact C0|exact C2|exact Sd| |exact Xm|reflexivity|reflexivity].
    rewrite Xr by elem. exact H15.
  - destruct (miss_steps base ctx x (conj P0 P1) z Pz Zi) as (x' & T3 & Hret).
    exists x'. split; [by eapply xsteps_trans|done].
Qed.
