(* ===== verification/JitFit.v ===== *)
(** * The size of a block

    The code buffer holds [RVJIT_FUNC_SIZE] bytes and a block has [MAX_EXITS]
    exits: an emitter that returns has kept to both, and has not moved the chain
    entry. [fit] proves it of a generator from its form. *)

From Stdlib Require Import Strings.String.
From S2P Require Import Prelude X86 X86Enc JitEmit JitAlu JitIsa.
Import x86.

(** The buffer only grows, within its size. *)
Definition cfits {A} (m : ST CodeBuf A) : Prop := forall c a c', m c = Ret (a, c') ->
  pos c <= RVJIT_FUNC_SIZE -> pos c <= pos c' <= RVJIT_FUNC_SIZE.

Lemma cfits_ret {A} (a : A) : cfits (mret a).
Proof. intros c a' c' [= <- <-] H. lia. Qed.

Lemma cfits_bind {A C} (m : ST CodeBuf A) (f : A -> ST CodeBuf C) :
  cfits m -> (forall a, cfits (f a)) -> cfits (m ≫= f).
Proof.
  intros Hm Hf c b c' H Hc. cbv [mbind ST_bind] in H. destruct (m c) as [[a c1]| |] eqn:E; [|done..].
  destruct (Hm _ _ _ E Hc). destruct (Hf _ _ _ _ H ltac:(lia)). lia.
Qed.

Lemma cfits_gets {A} (g : CodeBuf -> A) : cfits (gets g).
Proof. intros c a c' [= <- <-] H. lia. Qed.

Lemma cfits_b v : cfits (cb_b v).
Proof.
  intros c a c' H Hc. unfold cb_b in H. destruct (Z.leb_spec RVJIT_FUNC_SIZE (pos c)); [done|]. injection H as <- <-.
  unfold pos in *. rewrite length_app. cbn [length]. lia.
Qed.

Lemma cfits_set i v : cfits (cb_set i v).
Proof.
  intros c a c' H Hc. unfold cb_set in H. destruct (_ && _); [|done]. injection H as <- <-.
  assert (length (<[Z.to_nat i := u8 v]> c) = length c) as Hl by apply length_insert. unfold pos in *. lia.
Qed.

(** What an emitter may do to its block. *)
Definition in_size (b : JIT_Block) : Prop := pos (code b) <= RVJIT_FUNC_SIZE /\ n_exits b <= MAX_EXITS.

Definition fits {A} (m : EM A) : Prop := forall e a e', m e = Ret (a, e') -> in_size (blk e) ->
  in_size (blk e') /\ chain_off (blk e') = chain_off (blk e) /\ code_pos e <= code_pos e'.

Lemma fits_ret {A} (a : A) : fits (mret a).
Proof. intros e a' e' [= <- <-] H. done. Qed.

Lemma fits_undef {A} : fits (undef (A := A)).
Proof. done. Qed.

Lemma fits_bind {A C} (m : EM A) (f : A -> EM C) : fits m -> (forall a, fits (f a)) -> fits (m ≫= f).
Proof.
  intros Hm Hf e b e' H He. cbv [mbind ST_bind] in H. destruct (m e) as [[a e1]| |] eqn:E; [|done..].
  destruct (Hm _ _ _ E He) as (S1 & C1 & P1). destruct (Hf _ _ _ _ H S1) as (S2 & C2 & P2). split_and!; [done|congruence|lia].
Qed.

Lemma fits_gets {A} (g : JIT_Emitter -> A) : fits (gets g).
Proof. intros e a e' [= <- <-] H. done. Qed.

Lemma fits_get : fits get_st.
Proof. intros e a e' [= <- <-] H. done. Qed.

Lemma fits_emit {A} (m : ST CodeBuf A) : cfits m -> fits (emit m).
Proof.
  intros Hm e a e' H [Hp Hn]. unfold emit in H. destruct (m _) as [[a1 c1]| |] eqn:E; [|done..]. injection H as <- <-.
  destruct (Hm _ _ _ E Hp). repeat split; done.
Qed.

(** An update that leaves the code and the exits alone. *)
Lemma fits_modify f : (forall e, code (blk (f e)) = code (blk e) /\ exits (blk (f e)) = exits (blk e) /\
    chain_off (blk (f e)) = chain_off (blk e)) -> fits (modify f).
Proof.
  intros Hf e a e' [= <- <-] H. destruct (Hf e) as (Hc & He & Ho). unfold in_size, n_exits, code_pos in *.
  by rewrite Hc, He, Ho.
Qed.

Ltac head_of t := lazymatch t with ?f _ => head_of f | _ => t end.

Ltac cfit :=
  lazymatch goal with
  | |- cfits (mbind _ _) => apply cfits_bind; [cfit|intros; cfit]
  | |- cfits (mret _) => apply cfits_ret
  | |- cfits (gets _) => apply cfits_gets
  | |- cfits (cb_b _) => apply cfits_b
  | |- cfits (cb_set _ _) => apply cfits_set
  | |- cfits (if ?b then _ else _) => destruct b; cfit
  | |- cfits (match ?x with _ => _ end) => destruct x; cfit
  | |- cfits ?m => let h := head_of m in unfold h; cbv beta zeta; cfit
  end.

Create HintDb fits discriminated.

Ltac fit :=
  lazymatch goal with
  | |- fits (mbind _ _) => apply fits_bind; [fit|intros; fit]
  | |- fits (mret _) => apply fits_ret
  | |- fits undef => apply fits_undef
  | |- fits (gets _) => apply fits_gets
  | |- fits get_st => apply fits_get
  | |- fits (emit _) => apply fits_emit; cfit
  | |- fits (modify _) => apply fits_modify; by intros
  | |- fits (if ?b then _ else _) => destruct b; fit
  | |- fits (match ?x with _ => _ end) => destruct x; fit
  | |- fits ?m => first [by auto with fits nocore | let h := head_of m in unfold h; cbv beta zeta; fit]
  end.

Lemma fits_flush_guest v : fits (flush_guest v).
Proof. fit. Qed.
#[export] Hint Resolve fits_flush_guest : fits.

Lemma fits_flush_from v n : fits (flush_from v n).
Proof. revert v. induction n as [|n IH]; intros v; [apply fits_ret|]. cbn. fit. Qed.
#[export] Hint Resolve fits_flush_from : fits.

Lemma fits_patch_sites l t : fits (patch_sites l t).
Proof. induction l as [|m l IH]; [apply fits_ret|]. cbn. fit. Qed.
Lemma fits_commit_regs l : fits (commit_regs l).
Proof. induction l as [|[v s] l IH]; [apply fits_ret|]. cbn. fit. Qed.
Lemma fits_patch_all l t : fits (patch_all l t).
Proof. induction l as [|m l IH]; [apply fits_ret|]. cbn. fit. Qed.
#[export] Hint Resolve fits_patch_sites fits_commit_regs fits_patch_all : fits.
Lemma fits_patch_links l r g : fits (patch_links l r g).
Proof. induction l as [|m l IH]; [apply fits_ret|]. cbn. fit. Qed.
#[export] Hint Resolve fits_patch_links : fits.

Lemma fits_miss_stubs_loop n l : fits (miss_stubs_loop n l).
Proof.
  revert l. induction n as [|n IH]; intros l; [apply fits_ret|]. cbn. destruct l as [|m l]; [apply fits_ret|].
  destruct (span_instr _ _) as [grp rest]. fit.
Qed.

#[export] Hint Resolve fits_miss_stubs_loop : fits.

(** A program that reads the emitter first. *)
Lemma fits_dep {A} (m : JIT_Emitter -> EM A) : (forall e, fits (m e)) -> fits (fun e => m e e).
Proof. intros Hm e a e' H. by apply (Hm e e a e'). Qed.

Lemma fits_free_slot k1 k2 : fits (free_slot k1 k2).
Proof.
  unfold free_slot. apply fits_dep. intros e. destruct (find_slot _ _ 0) as [[i h]|]; [fit|].
  destruct (find_slot _ _ 0) as [[i h]|]; [fit|]. destruct (find_slot _ _ 0) as [[i h]|]; fit.
Qed.
#[export] Hint Resolve fits_free_slot : fits.

Lemma fits_miss_stubs : fits emit_miss_stubs.
Proof. unfold emit_miss_stubs. apply (fits_dep (fun e => miss_stubs_loop (length (misses e)) (misses e))). intros e. fit. Qed.
#[export] Hint Resolve fits_miss_stubs : fits.

(** The same for a block that has [n] exits. *)
Definition fits_with (n : Z) {A} (m : EM A) : Prop := forall e a e', m e = Ret (a, e') -> in_size (blk e) ->
  n_exits (blk e) = n -> in_size (blk e') /\ chain_off (blk e') = chain_off (blk e) /\ code_pos e <= code_pos e'.

Lemma fits_split {A} (m : EM A) : (forall n, fits_with n m) -> fits m.
Proof. intros H e a e' Hm He. by apply (H (n_exits (blk e)) e a e'). Qed.

Lemma with_emit n {A C} (m : ST CodeBuf A) (f : A -> EM C) :
  cfits m -> (forall a, fits_with n (f a)) -> fits_with n (emit m ≫= f).
Proof.
  intros Hm Hf e b e' H He Hn. cbv [mbind ST_bind] in H. destruct (emit m e) as [[a e1]| |] eqn:E; [|done..].
  destruct (fits_emit m Hm _ _ _ E He) as (S1 & C1 & P1).
  assert (n_exits (blk e1) = n) as Hn1.
  { unfold emit in E. destruct (m _) as [[]| |]; [|done..]. by injection E as <- <-. }
  destruct (Hf _ _ _ _ H S1 Hn1) as (S2 & C2 & P2). split_and!; [done|congruence|lia].
Qed.

Lemma with_gets n {A C} (g : JIT_Emitter -> A) (f : A -> EM C) :
  (forall a, fits_with n (f a)) -> fits_with n (gets g ≫= f).
Proof. intros Hf e b e' H He Hn. by apply (Hf (g e) e b e'). Qed.

Lemma with_exit_count n {C} (f : Z -> EM C) :
  fits_with n (f n) -> fits_with n (gets (fun e => n_exits (blk e)) ≫= f).
Proof. intros Hf e b e' H He Hn. cbv [mbind ST_bind gets] in H. rewrite Hn in H. by apply (Hf e b e'). Qed.

Lemma with_link n L : n < MAX_EXITS ->
  fits_with n (modify (fun e => set_blk (set_exits (exits (blk e) ++ [L]) (blk e)) e)).
Proof.
  intros Hn e a e' [= <- <-] [Hp He] Hx. unfold in_size, n_exits, code_pos in *. cbn. rewrite length_app. cbn. lia.
Qed.

Lemma fits_chain_tail count : fits (emit_chain_tail count).
Proof.
  apply fits_split. intros n. unfold emit_chain_tail. do 3 (apply with_emit; [cfit|intros _]).
  apply with_exit_count. destruct (Z.leb_spec MAX_EXITS n); [by intros e a e'|].
  apply with_emit; [cfit|intros js]. apply with_gets. intros lea_off.
  repeat (apply with_emit; [cfit|intros ?]). by apply with_link.
Qed.
#[export] Hint Resolve fits_chain_tail : fits.

(** ** The translators *)

Lemma fits_epilogue size count : fits (emit_epilogue size count).
Proof. fit. Qed.
Lemma fits_link_stubs cd : fits (emit_link_stubs cd).
Proof. fit. Qed.

(** The end of every block. *)
Lemma fits_ending size count cd :
  fits ((x ← gets exited; if (x : bool) then mret tt else emit_epilogue size count) ;; emit_link_stubs cd ;; emit_miss_stubs).
Proof.
  apply fits_bind; [|intros; apply fits_bind; intros; apply fits_link_stubs || apply fits_miss_stubs].
  apply fits_bind; [apply fits_gets|]. intros []; [apply fits_ret|apply fits_epilogue].
Qed.

Ltac fit_entries t := unfold t; repeat apply List.Forall_cons; [intros d; cbn [snd]; fit..|apply List.Forall_nil].

Lemma fits_rv64i : Forall (fun p => forall d, fits (snd p d)) jit_rv64i.
Proof. fit_entries jit_rv64i. Qed.
Lemma fits_rv64m : Forall (fun p => forall d, fits (snd p d)) jit_rv64m.
Proof. fit_entries jit_rv64m. Qed.
Lemma fits_rv64c : Forall (fun p => forall d, fits (snd p d)) jit_rv64c.
Proof. fit_entries jit_rv64c. Qed.

Lemma fits_jit_func mask jf d : jit_func mask = Some jf -> fits (jf d).
Proof.
  unfold jit_func. intros H. destruct (find _ jit_funcs) as [[m j]|] eqn:E; [|done]. injection H as <-.
  apply find_some in E as [Hin _]. apply list_elem_of_In in Hin.
  assert (Forall (fun p => forall d, fits (snd p d)) jit_funcs) as Hall.
  { unfold jit_funcs. rewrite !Forall_app. auto using fits_rv64i, fits_rv64m, fits_rv64c. }
  rewrite Forall_forall in Hall. apply (Hall _ Hin).
Qed.
