(* ===== verification/JitCache.v ===== *)
(** * The code cache is sound

    [jit_ok]: what holds of the cache, the arenas and the tables of
    [SelfMod] together. No block a thread can be given lies in freed memory, and
    none survives a store to its text. *)

From Stdlib Require Import Strings.String.
From S2P Require Import Prelude Defs MemoryMap SelfMod Tlb Decode Hart State Mmu Mmio Isa Exec.
From S2P Require Import X86 X86Enc JitEmit JitIsa JitFit Jit.

(** ** What leaves the tables of [SelfMod] alone *)

Section smc.
Context {B : Type} `{BusOps B} (tb : DecTable).

Definition smc_same {A} (m : M B A) : Prop := forall s a s', m s = Ret (a, s') -> smc s' = smc s.

Lemma smc_bind {A C} (m : M B A) (f : A -> M B C) : smc_same m -> (forall a, smc_same (f a)) -> smc_same (m ≫= f).
Proof.
  intros Hm Hf s b s' Hr. cbv [mbind ST_bind] in Hr. destruct (m s) as [[a s1]| |] eqn:E; [|done..].
  rewrite (Hf _ _ _ _ Hr). by apply (Hm _ _ _ E).
Qed.

Lemma smc_ret {A} (a : A) : smc_same (mret a).
Proof. by intros s a' s' [= <- <-]. Qed.
Lemma smc_gets {A} (g : State B -> A) : smc_same (gets g).
Proof. by intros s a' s' [= <- <-]. Qed.
Lemma smc_get : smc_same get_st.
Proof. by intros s a' s' [= <- <-]. Qed.
Lemma smc_throw {A} x : smc_same (throw x : M B A).
Proof. done. Qed.
Lemma smc_undef {A} : smc_same (undef : M B A).
Proof. done. Qed.
Lemma smc_on_mem {A} (f : MemoryMap -> outcome A) : smc_same (on_mem f).
Proof. intros s a s' Hr. unfold on_mem in Hr. by destruct (f _); simplify_eq. Qed.
Lemma smc_upd_mem f : smc_same (upd_mem f).
Proof. intros s a s' Hr. unfold upd_mem in Hr. by destruct (f _); simplify_eq. Qed.
Lemma smc_modify f : (forall s, smc (f s) = smc s) -> smc_same (modify f : M B unit).
Proof. intros Hf s a s' [= <- <-]. apply Hf. Qed.

Ltac smc_tac :=
  lazymatch goal with
  | |- smc_same (mbind _ _) => apply smc_bind; [smc_tac|intros; smc_tac]
  | |- smc_same (mret _) => apply smc_ret
  | |- smc_same (gets _) => apply smc_gets
  | |- smc_same get_st => apply smc_get
  | |- smc_same (throw _) => apply smc_throw
  | |- smc_same undef => apply smc_undef
  | |- smc_same (on_mem _) => apply smc_on_mem
  | |- smc_same (upd_mem _) => apply smc_upd_mem
  | |- smc_same (modify _) => apply smc_modify; by intros
  | |- smc_same (if ?b then _ else _) => destruct b; smc_tac
  | |- smc_same (match ?x with _ => _ end) => destruct x; smc_tac
  | |- smc_same (let _ := _ in _) => cbv zeta; smc_tac
  | |- smc_same ?m => let h := head_of m in unfold h; cbv beta zeta; smc_tac
  end.

Lemma smc_translate type va : smc_same (translate type va).
Proof. smc_tac. Qed.

Lemma smc_fetch va : smc_same (fetchInstruction tb va).
Proof.
  unfold fetchInstruction. apply smc_bind; [apply smc_translate|]. intros [ret phys].
  destruct (negb _); [smc_tac|]. apply smc_bind; [smc_tac|intros _]. apply smc_bind; [smc_tac|intros memsz].
  destruct (fetch_oob memsz phys); [smc_tac|]. apply smc_bind; [smc_tac|intros lo]. apply smc_bind.
  - destruct (negb _); [smc_tac|]. destruct (_ <=? _); [smc_tac|].
    apply smc_bind; [apply smc_translate|]. intros [ret2 phys2]. smc_tac.
  - intros [r|w]; [smc_tac|]. apply smc_bind; [smc_tac|intros s]. destruct (decode_inst _ _ _ _ _) as [c d]. smc_tac.
Qed.
End smc.

(** ** Protected text *)

(** A store to the page of [a] advances the epoch. *)
Definition marked (m : SelfMod) (a : Z) : Prop :=
  let page := Z.shiftr a 12 in
  page < sv_size (g_executed_pages m) /\ sv_get (g_executed_pages m) page <> 0 /\
  page < sv_size (g_code_page_gen m) /\ sv_get (g_code_page_gen m) page = g_smc_epoch m.

Lemma grow_set_get v page x i : 0 <= i -> i < sv_size v -> i <> page -> sv_get (grow_set v page x) i = sv_get v i.
Proof.
  intros H0 H1 Hn. rewrite sv_get_grow_set by done. rewrite (proj2 (Z.eqb_neq _ _) Hn).
  by rewrite (proj2 (Z.leb_gt (sv_size v) i)), andb_false_r by lia.
Qed.

Lemma grow_set_same v page x : 0 <= page -> sv_get (grow_set v page x) page = x /\ page < sv_size (grow_set v page x).
Proof. intros H. rewrite sv_get_grow_set, Z.eqb_refl, sv_size_grow_set by done. zcases; lia. Qed.

Lemma grow_set_size v page x : sv_size v <= sv_size (grow_set v page x).
Proof. rewrite sv_size_grow_set. zcases; lia. Qed.

Lemma marked_executed m p a : 0 <= a -> 0 <= p -> marked m a -> marked (mark_page_executed m p) a.
Proof.
  intros Ha Hp (A & C & D & E). unfold marked, mark_page_executed. cbn [g_smc_epoch g_executed_pages g_code_page_gen].
  assert (0 <= Z.shiftr a 12) by (by apply Z.shiftr_nonneg). assert (0 <= Z.shiftr p 12) by (by apply Z.shiftr_nonneg).
  pose proof (grow_set_size (g_executed_pages m) (Z.shiftr p 12) 1).
  split_and!; try done; [lia|]. destruct (decide (Z.shiftr a 12 = Z.shiftr p 12)) as [->|Hn].
  - by rewrite (proj1 (grow_set_same _ _ _ ltac:(done))).
  - by rewrite grow_set_get.
Qed.

Lemma marked_code m p a : 0 <= a -> 0 <= p -> Z.shiftr a 12 = Z.shiftr p 12 \/ marked m a -> marked (mark_page_code m p) a.
Proof.
  intros Ha Hp Hm. unfold marked, mark_page_code. cbn [g_smc_epoch g_executed_pages g_code_page_gen].
  assert (0 <= Z.shiftr a 12) by (by apply Z.shiftr_nonneg). assert (0 <= Z.shiftr p 12) by (by apply Z.shiftr_nonneg).
  destruct (decide (Z.shiftr a 12 = Z.shiftr p 12)) as [E|Hn].
  - rewrite E. destruct (grow_set_same (g_executed_pages m) (Z.shiftr p 12) 1) as [-> ?]; [done|].
    destruct (grow_set_same (g_code_page_gen m) (Z.shiftr p 12) (g_smc_epoch m)) as [-> ?]; done.
  - destruct Hm as [|(A & C & D & E)]; [done|].
    pose proof (grow_set_size (g_executed_pages m) (Z.shiftr p 12) 1).
    pose proof (grow_set_size (g_code_page_gen m) (Z.shiftr p 12) (g_smc_epoch m)).
    rewrite !grow_set_get by done. split_and!; [lia|done|lia|done].
Qed.

(** ** The invariant *)

(** The code of a block is in an arena that is mapped. *)
Definition live (j : JIT_Context) (f c : Z) : Prop :=
  f <> 0 /\ exists a, a ∈ arenas j /\ a <= f /\ f <= c /\ c < a + JIT_ARENA_BYTES.

Record block_ok (j : JIT_Context) (agen : Z) (m : SelfMod) (e : CachedBlock) : Prop := {
  bk_epoch : cb_smc_epoch e <= g_smc_epoch m;
  bk_gen : cb_arena_gen e <= agen;
  bk_phys : 0 <= cb_start_phys e;
  bk_bytes : 0 <= cb_guest_bytes e < 2 ^ 32;
  bk_live : cb_arena_gen e = agen -> live j (cb_fn e) (cb_chain_fn e);
  bk_fresh : cb_smc_epoch e = g_smc_epoch m -> cb_arena_gen e = agen;
  bk_text : cb_smc_epoch e = g_smc_epoch m ->
    forall a, cb_start_phys e <= a < cb_start_phys e + cb_guest_bytes e -> marked m a }.

Record arenas_ok (j : JIT_Context) : Prop := {
  ar_cur : cur j = 0 \/ cur j ∈ arenas j;
  ar_used : 0 <= cur_used j <= JIT_ARENA_BYTES;
  ar_align : (16 | cur_used j);
  ar_total : Z.of_nat (length (arenas j)) * JIT_ARENA_BYTES <= RVJIT_MAX_CACHE_BYTES;
  ar_space : forall a, a ∈ arenas j -> 0 < a /\ a + JIT_ARENA_BYTES <= 2 ^ 64 }.

Record cache_ok (j : JIT_Context) (agen : Z) (m : SelfMod) : Prop := {
  ok_arenas : arenas_ok j;
  ok_blocks : forall i, cb_valid (cached j i) = true -> block_ok j agen m (cached j i) }.

Definition jit_ok {B} (s : JitState B) : Prop := cache_ok (jctx s) (g_arena_gen s) (smc (vm s)).

(** The counters have not wrapped. *)
Definition counters_ok {B} (s : JitState B) : Prop :=
  0 <= g_smc_epoch (smc (vm s)) < 2 ^ 64 - 2 /\ 0 <= g_arena_gen s < 2 ^ 64 - 2.

Lemma cached_put i e j k : cached (put_cached i e j) k = if decide (k = i) then e else cached j k.
Proof.
  unfold cached, put_cached. cbn. destruct (decide (k = i)) as [->|Hn].
  - by rewrite lookup_insert_eq.
  - by rewrite lookup_insert_ne.
Qed.

Lemma block_ok_mono j j' agen m m' e :
  (forall f c, live j f c -> live j' f c) -> g_smc_epoch m' = g_smc_epoch m ->
  (forall a, 0 <= a -> marked m a -> marked m' a) -> block_ok j agen m e -> block_ok j' agen m' e.
Proof.
  intros Hl He Hm [A C D D1 E F G]. constructor; rewrite ?He; auto. intros Hx a Ha. apply Hm; [lia|]. by apply G.
Qed.

(** A new epoch: every block is stale. *)
Lemma block_ok_stale j agen m m' e : g_smc_epoch m < g_smc_epoch m' -> block_ok j agen m e -> block_ok j agen m' e.
Proof. intros He [A C D D1 E F G]. constructor; try done; lia. Qed.

(** The interpreter keeps the cache sound. *)
Lemma cache_ok_marks j agen m m' : g_smc_epoch m' = g_smc_epoch m ->
  (forall a, 0 <= a -> marked m a -> marked m' a) -> cache_ok j agen m -> cache_ok j agen m'.
Proof.
  intros He Hm [A C]. constructor; [done|]. intros i Hi. eapply block_ok_mono; [done|exact He|exact Hm|by apply C].
Qed.

Lemma cache_ok_stale j agen m m' : g_smc_epoch m < g_smc_epoch m' -> cache_ok j agen m -> cache_ok j agen m'.
Proof. intros He [A C]. constructor; [done|]. intros i Hi. eapply block_ok_stale; [exact He|by apply C]. Qed.

Lemma store_hit_cases m a : 0 <= g_smc_epoch m < 2 ^ 64 - 1 ->
  (marked m a /\ g_smc_epoch (smc_store_hit m a) = g_smc_epoch m + 1) \/
  (~ marked m a /\ g_smc_epoch (smc_store_hit m a) = g_smc_epoch m /\
   forall b, marked m b -> marked (smc_store_hit m a) b).
Proof.
  intros He. unfold smc_store_hit, marked. set (p := Z.shiftr a 12).
  destruct (Z.ltb_spec p (sv_size (g_executed_pages m))) as [H1|H1]; cbn [andb]; [|right; split_and!; [lia|done|done]].
  destruct (Z.eqb_spec (sv_get (g_executed_pages m) p) 0) as [H2|H2]; cbn [negb]; [right; split_and!; [tauto|done|done]|].
  destruct (Z.ltb_spec p (sv_size (g_code_page_gen m))) as [H3|H3]; cbn [andb].
  - destruct (Z.eqb_spec (sv_get (g_code_page_gen m) p) (g_smc_epoch m)) as [H4|H4].
    + left. split; [done|]. cbn. apply (uN_id 64). split; lia.
    + right. split_and!; [tauto|done|]. intros b (A & C & D & E). cbn. split_and!; try done.
      rewrite sv_get_set_ne; [done|]. intros Hb. apply H4. rewrite Hb. exact E.
  - right. split_and!; [lia|done|]. intros b (A & C & D & E). cbn. split_and!; try done.
    rewrite sv_get_set_ne; [done|]. intros Hb. rewrite Hb in H3. lia.
Qed.

(** A store keeps the cache sound. *)
Lemma store_hit_ok j agen m a : 0 <= g_smc_epoch m < 2 ^ 64 - 1 -> cache_ok j agen m -> cache_ok j agen (smc_store_hit m a).
Proof.
  intros He Hok. destruct (store_hit_cases m a He) as [[_ E]|(_ & E & Hm)].
  - eapply cache_ok_stale; [|exact Hok]. lia.
  - eapply cache_ok_marks; [exact E| |exact Hok]. intros b _. apply Hm.
Qed.

(** ** Pages and sizes *)

(** Rounding down to a multiple of [2 ^ k]. *)
Lemma land_round w k x : 0 <= k <= w -> inw w x -> Z.land x (uN w (Z.lnot (Z.ones k))) = 2 ^ k * (x / 2 ^ k).
Proof.
  intros Hk Hx. rewrite <- Z.shiftr_div_pow2, Z.mul_comm, <- Z.shiftl_mul_pow2 by lia.
  apply Z.bits_inj'. intros i Hi. rewrite Z.land_spec, uN_bits, Z.lnot_spec, Z.testbit_ones by lia.
  rewrite Z.shiftl_spec by lia. destruct (Z.ltb_spec i k).
  - rewrite (Z.testbit_neg_r _ (i - k)) by lia. zcases; by rewrite ?andb_false_r.
  - rewrite Z.shiftr_spec by lia. replace (i - k + k) with i by lia.
    destruct (Z.ltb_spec i w); [zcases; by rewrite ?andb_true_r|]. rewrite (inw_high w x i Hx) by lia. done.
Qed.

Lemma land_page x : inw 64 x -> Z.land x (not64 0xFFF) = 4096 * (x / 4096).
Proof. apply (land_round 64 12). lia. Qed.

Lemma land_16 w x : 4 <= w -> inw w x -> Z.land x (uN w (Z.lnot 15)) = 16 * (x / 16).
Proof. intros. apply (land_round w 4); [lia|done]. Qed.

Lemma page_number a q : 4096 * q <= a < 4096 * (q + 1) -> Z.shiftr a 12 = q.
Proof. intros H. rewrite Z.shiftr_div_pow2 by lia. symmetry. apply (Z.div_unique a (2 ^ 12) q (a - 4096 * q)); lia. Qed.

Lemma page_same a p q : 4096 * q <= a < 4096 * (q + 1) -> p = 4096 * q -> Z.shiftr a 12 = Z.shiftr p 12.
Proof. intros Ha ->. rewrite !(page_number _ q); lia. Qed.

(** The size of a block in its arena. *)
Lemma data_base_bounds c : x86.pos c <= RVJIT_FUNC_SIZE -> x86.pos c <= data_base c <= x86.pos c + 15 /\ (16 | data_base c).
Proof.
  intros Hc. unfold RVJIT_FUNC_SIZE in Hc. assert (0 <= x86.pos c) by (unfold x86.pos; lia).
  unfold data_base, not32. rewrite (uN_id 32 (x86.pos c + 15)) by (split; lia).
  rewrite (land_16 32) by (lia || split; lia).
  pose proof (Z.div_mod (x86.pos c + 15) 16 ltac:(lia)). pose proof (Z.mod_pos_bound (x86.pos c + 15) 16 ltac:(lia)).
  split; [lia|]. apply Z.divide_factor_l.
Qed.

Section ops.
Context {B : Type} `{BusOps B} (tb : DecTable).

(** What marking pages does to the machine. *)
Definition grows (s s' : State B) : Prop :=
  g_smc_epoch (smc s') = g_smc_epoch (smc s) /\ (forall a, 0 <= a -> marked (smc s) a -> marked (smc s') a).

Lemma grows_refl s : grows s s.
Proof. done. Qed.
Lemma grows_trans s1 s2 s3 : grows s1 s2 -> grows s2 s3 -> grows s1 s3.
Proof. intros [A C] [D E]. split; [congruence|auto]. Qed.

Definition marks_page (f : Z -> M B unit) : Prop := forall p s s', 0 <= p -> f p s = Ret (tt, s') ->
  grows s s' /\ forall a, 0 <= a -> Z.shiftr a 12 = Z.shiftr p 12 -> marked (smc s') a.

Lemma mark_code_marks : marks_page mark_code.
Proof.
  intros p s s' Hp [= <-]. cbn. split; [split; [done|]|]; intros a Ha Hm; cbn; apply marked_code; auto.
Qed.

Lemma mark_executed_marks : marks_page mark_executed.
Proof.
  intros p s s' Hp [= <-]. cbn. split; [split; [done|]|]; intros a Ha Hm; cbn; apply marked_code; auto.
  right. by apply marked_executed.
Qed.

Lemma page_loop_marks f : marks_page f -> forall k q q1 s s', 0 <= q -> 4096 * q1 < 2 ^ 64 ->
  page_loop f (4096 * q) (4096 * q1) k s = Ret (tt, s') ->
  grows s s' /\ forall a, 4096 * q <= a < 4096 * q1 -> marked (smc s') a.
Proof.
  intros Hf k. induction k as [|k IH]; intros q q1 s s' Hq H1 Hr; cbn [page_loop] in Hr;
    (destruct (Z.ltb_spec (4096 * q) (4096 * q1)); cbn [negb] in Hr; [|injection Hr as <-; split; [done|intros; lia]]); [done|].
  cbv [mbind ST_bind] in Hr. destruct (f (4096 * q) s) as [[[] s1]| |] eqn:E; [|done..].
  assert (0 <= 4096 * q) as Hq0 by lia. destruct (Hf _ _ _ Hq0 E) as [G1 M1].
  assert (u64 (4096 * q + 0x1000) = 4096 * (q + 1)) as Hp by (rewrite (uN_id 64); [lia|split; lia]).
  rewrite Hp in Hr. destruct (IH (q + 1) q1 s1 s' ltac:(lia) H1 Hr) as [G2 M2].
  split; [by eapply grows_trans|]. intros a Ha.
  destruct (Z.lt_ge_cases a (4096 * (q + 1))); [|apply M2; lia].
  apply G2; [lia|]. apply M1; [lia|]. apply (page_same a _ q); lia.
Qed.

(** Every byte of the block is on a marked page. *)
Lemma block_pages_marks f phys bytes s s' : marks_page f -> 0 <= phys -> 0 <= bytes -> phys + bytes + 0xFFF < 2 ^ 64 ->
  block_pages f phys bytes s = Ret (tt, s') ->
  grows s s' /\ forall a, phys <= a < phys + bytes -> marked (smc s') a.
Proof.
  intros Hf Hp Hb Hs Hr. unfold block_pages in Hr.
  rewrite (uN_id 64 (phys + bytes + 0xFFF)) in Hr by (split; lia). rewrite !land_page in Hr by (split; lia).
  set (n := phys + bytes + 0xFFF) in *.
  pose proof (Z.div_mod phys 4096 ltac:(lia)). pose proof (Z.mod_pos_bound phys 4096 ltac:(lia)).
  pose proof (Z.div_mod n 4096 ltac:(lia)). pose proof (Z.mod_pos_bound n 4096 ltac:(lia)).
  assert (0 <= phys / 4096) as Hq by (apply Z.div_pos; lia). assert (4096 * (n / 4096) < 2 ^ 64) as Hq1 by lia.
  destruct (page_loop_marks f Hf _ _ _ _ _ Hq Hq1 Hr) as [G M].
  split; [done|]. intros a Ha. apply M. lia.
Qed.

(** The bound of the loop is enough for the text of a block: it has at most 128
    instructions of 4 bytes. *)
Lemma page_loop_returns (f : Z -> M B unit) : (forall p s, exists s', f p s = Ret (tt, s')) -> forall k q q1 s, 0 <= q -> 4096 * q1 < 2 ^ 64 ->
  q1 <= q + Z.of_nat k -> exists s', page_loop f (4096 * q) (4096 * q1) k s = Ret (tt, s').
Proof.
  intros Hf k. induction k as [|k IH]; intros q q1 s Hq H1 Hk; cbn [page_loop];
    (destruct (Z.ltb_spec (4096 * q) (4096 * q1)); cbn [negb]; [|by eexists]); [lia|].
  cbv [mbind ST_bind]. destruct (Hf (4096 * q) s) as [s1 ->].
  assert (u64 (4096 * q + 0x1000) = 4096 * (q + 1)) as -> by (rewrite (uN_id 64); [lia|split; lia]).
  apply IH; lia.
Qed.

Lemma block_pages_returns (f : Z -> M B unit) phys bytes s : (forall p s, exists s', f p s = Ret (tt, s')) ->
  0 <= phys < 2 ^ 63 -> 0 <= bytes <= 4096 -> exists s', block_pages f phys bytes s = Ret (tt, s').
Proof.
  intros Hf Hp Hb. unfold block_pages.
  rewrite (uN_id 64 (phys + bytes + 0xFFF)) by (split; lia). rewrite !land_page by (split; lia).
  set (n := phys + bytes + 0xFFF) in *.
  pose proof (Z.div_mod phys 4096 ltac:(lia)). pose proof (Z.mod_pos_bound phys 4096 ltac:(lia)).
  pose proof (Z.div_mod n 4096 ltac:(lia)). pose proof (Z.mod_pos_bound n 4096 ltac:(lia)).
  apply page_loop_returns; [done|apply Z.div_pos; lia|lia|unfold PAGE_FUEL; lia].
Qed.

(** ** The arenas *)

Context (os_mmap : nat -> option Z).

(** [mmap] never gives the null page, and a mapping does not wrap around the
    address space. *)
Context (Hmmap : forall n p, os_mmap n = Some p -> 0 < p /\ p + JIT_ARENA_BYTES <= 2 ^ 64).

Lemma cache_ok_arenas j j' agen m : jcache j' = jcache j -> (forall a, a ∈ arenas j -> a ∈ arenas j') -> arenas_ok j' ->
  cache_ok j agen m -> cache_ok j' agen m.
Proof.
  intros Hc Ha Hok [A C]. assert (forall i, cached j' i = cached j i) as He by (intros i; unfold cached; by rewrite Hc).
  constructor; [done|]. intros i Hi. rewrite He in *. eapply block_ok_mono; [|reflexivity|auto|by apply C].
  intros f c (Hf & a & Hin & Hr). split; [done|]. exists a. auto.
Qed.

(** The state after [invalidate_all ;; release_arenas]: nothing can be served. *)
Definition bump_epoch (m : SelfMod) : SelfMod :=
  mkSelfMod (u64 (g_smc_epoch m + 1)) (g_executed_pages m) (g_code_page_gen m).

Definition released (s : JitState B) : JitState B :=
  mkJS (set_arenas [] 0 0 (jctx s)) (u64 (g_arena_gen s + 1)) (dispatch_fn s) (chain_dispatcher s) (n_maps s)
    (hmem s) (set_smc (bump_epoch (smc (vm s))) (vm s)).

Lemma released_eq s : (invalidate_all ;; release_arenas) s = Ret (tt, released s).
Proof. done. Qed.

Lemma released_ok (s : JitState B) : counters_ok s -> jit_ok s -> jit_ok (released s).
Proof.
  intros [He Hg] [A C]. unfold jit_ok. cbn.
  assert (u64 (g_smc_epoch (smc (vm s)) + 1) = g_smc_epoch (smc (vm s)) + 1) as Ee by (apply (uN_id 64); split; lia).
  assert (u64 (g_arena_gen s + 1) = g_arena_gen s + 1) as Eg by (apply (uN_id 64); split; lia).
  rewrite Eg. constructor.
  - constructor; cbn; [by left|unfold JIT_ARENA_BYTES, RVJIT_ARENA_PAGES; lia|by exists 0|by unfold RVJIT_MAX_CACHE_BYTES|set_solver +].
  - intros i Hi. change (cached _ i) with (cached (jctx s) i) in *. destruct (C i Hi) as [P Q R R1 S T U].
    constructor; cbn; rewrite ?Ee; try done; lia.
Qed.

(** A new arena. *)
Lemma new_arena_ok (s : JitState B) p : arenas_ok (jctx s) -> 0 < p /\ p + JIT_ARENA_BYTES <= 2 ^ 64 ->
  Z.of_nat (length (arenas (jctx s))) * JIT_ARENA_BYTES < RVJIT_MAX_CACHE_BYTES ->
  arenas_ok (set_arenas (arenas (jctx s) ++ [p]) p 0 (jctx s)).
Proof.
  intros [A C D E F] Hp Hl. constructor; cbn.
  - right. set_solver +.
  - unfold JIT_ARENA_BYTES, RVJIT_ARENA_PAGES. lia.
  - by exists 0.
  - rewrite length_app. cbn. unfold JIT_ARENA_BYTES, RVJIT_ARENA_PAGES, RVJIT_MAX_CACHE_BYTES in *. lia.
  - intros a. rewrite elem_of_app, list_elem_of_singleton. intros [Ha| ->]; [by apply F|done].
Qed.

(** The room taken from the current arena. *)
Lemma take_room (s : JitState B) n : arenas_ok (jctx s) -> cur (jctx s) <> 0 -> 0 <= n -> cur_used (jctx s) + n <= JIT_ARENA_BYTES ->
  let j := jctx s in
  arenas_ok (set_arenas (arenas j) (cur j) (u64 (cur_used j + Z.land (u64 (n + 15)) (not64 15))) j) /\
  exists a, a ∈ arenas j /\ a <= cur j + cur_used j /\ cur j + cur_used j + n <= a + JIT_ARENA_BYTES.
Proof.
  intros [A C D E F] Hc Hn Hr j. unfold JIT_ARENA_BYTES, RVJIT_ARENA_PAGES in *.
  destruct A as [|Hin]; [done|]. destruct D as [k Hk].
  assert (u64 (cur_used j + Z.land (u64 (n + 15)) (not64 15)) = 16 * (k + (n + 15) / 16)) as ->.
  { subst j. rewrite (uN_id 64 (n + 15)) by (split; lia). unfold not64. rewrite (land_16 64) by (lia || split; lia).
    pose proof (Z.div_mod (n + 15) 16 ltac:(lia)). pose proof (Z.mod_pos_bound (n + 15) 16 ltac:(lia)).
    rewrite (uN_id 64) by (split; lia). lia. }
  pose proof (Z.div_mod (n + 15) 16 ltac:(lia)). pose proof (Z.mod_pos_bound (n + 15) 16 ltac:(lia)).
  split.
  - constructor; cbn [cur cur_used arenas set_arenas]; try done; [by right| |exists (k + (n + 15) / 16); lia].
    unfold JIT_ARENA_BYTES, RVJIT_ARENA_PAGES. lia.
  - exists (cur j). split; [done|]. subst j. lia.
Qed.

Lemma map_pages_inv (s : JitState B) p s' : map_pages os_mmap s = Ret (p, s') -> (0 < p /\ p + JIT_ARENA_BYTES <= 2 ^ 64) /\
  s' = mkJS (jctx s) (g_arena_gen s) (dispatch_fn s) (chain_dispatcher s) (S (n_maps s)) (hmem s) (vm s).
Proof.
  unfold map_pages. destruct (os_mmap (n_maps s)) as [q|] eqn:E; [|done]. intros [= <- <-]. split; [by eapply Hmmap|done].
Qed.

Lemma new_arena_inv (s : JitState B) s' : jit_ok s -> counters_ok s -> new_arena os_mmap s = Ret (tt, s') ->
  jit_ok s' /\ cur (jctx s') <> 0 /\ cur_used (jctx s') = 0 /\ 0 <= g_smc_epoch (smc (vm s')) < 2 ^ 64 - 1.
Proof.
  intros Hok Hcnt Hr. pose proof Hok as [[A C D E F] G]. pose proof Hcnt as [He Hg].
  unfold JIT_ARENA_BYTES, RVJIT_ARENA_PAGES, RVJIT_MAX_CACHE_BYTES in E.
  assert (exists s1, jit_ok s1 /\ 0 <= g_smc_epoch (smc (vm s1)) < 2 ^ 64 - 1 /\
    Z.of_nat (length (arenas (jctx s1))) * JIT_ARENA_BYTES < RVJIT_MAX_CACHE_BYTES /\
    (p ← map_pages os_mmap; mod_jit (fun j => set_arenas (arenas j ++ [p]) p 0 j)) s1 = Ret (tt, s'))
    as (s1 & Hok1 & He1 & Hl1 & Hr1).
  { unfold new_arena in Hr. cbv [mbind ST_bind gets] in Hr.
    rewrite (uN_id 64) in Hr by (unfold JIT_ARENA_BYTES, RVJIT_ARENA_PAGES; split; lia).
    destruct (Z.leb_spec RVJIT_MAX_CACHE_BYTES (Z.of_nat (length (arenas (jctx s))) * JIT_ARENA_BYTES)).
    - exists (released s). split; [by apply released_ok|]. split; [|split; [done|exact Hr]]. cbn.
      rewrite (uN_id 64) by (split; lia). lia.
    - exists s. split_and!; try done; lia. }
  cbv [mbind ST_bind] in Hr1. destruct (map_pages os_mmap s1) as [[p s2]| |] eqn:Em; [|done..].
  apply map_pages_inv in Em as [Hp ->]. injection Hr1 as <-. cbn. split_and!; try lia.
  unfold jit_ok. cbn. apply (cache_ok_arenas (jctx s1)); [done| | |exact Hok1].
  - intros a Ha. cbn. set_solver + Ha.
  - apply new_arena_ok; [apply Hok1|done|done].
Qed.

(** [arena_alloc]: the block lies in a mapped arena. *)
Lemma arena_alloc_inv n (s : JitState B) p s' : jit_ok s -> counters_ok s -> 0 <= n <= JIT_ARENA_BYTES ->
  arena_alloc os_mmap n s = Ret (p, s') ->
  jit_ok s' /\ p <> 0 /\
  (exists a, a ∈ arenas (jctx s') /\ a <= p /\ p + n <= a + JIT_ARENA_BYTES) /\
  0 <= g_smc_epoch (smc (vm s')) < 2 ^ 64 - 1.
Proof.
  intros Hok Hcnt Hn Hr. pose proof Hok as [[_ C _ _ _] _].
  unfold arena_alloc in Hr. cbv [mbind ST_bind gets] in Hr.
  rewrite (uN_id 64) in Hr by (unfold JIT_ARENA_BYTES, RVJIT_ARENA_PAGES in *; split; lia).
  set (full := (cur (jctx s) =? 0) || (JIT_ARENA_BYTES <? cur_used (jctx s) + n)) in *.
  destruct ((if full then new_arena os_mmap else mret tt) s) as [[[] s1]| |] eqn:E; [|done..].
  assert (jit_ok s1 /\ cur (jctx s1) <> 0 /\ cur_used (jctx s1) + n <= JIT_ARENA_BYTES /\
    0 <= g_smc_epoch (smc (vm s1)) < 2 ^ 64 - 1) as (Hok1 & Hc1 & Hu1 & He1).
  { destruct full eqn:Ef.
    - destruct (new_arena_inv _ _ Hok Hcnt E) as (? & ? & -> & ?). split_and!; try done; lia.
    - injection E as <-. unfold full in Ef. apply orb_false_iff in Ef as [Ec%Z.eqb_neq Eu%Z.ltb_ge].
      destruct Hcnt. split_and!; try done; lia. }
  injection Hr as <- <-. destruct (take_room s1 n) as [Ha (a & Hin & Hl & Hh)]; [apply Hok1|done|lia|done|].
  split_and!; [| |exists a; by split_and!|exact (proj1 He1)|exact (proj2 He1)].
  - unfold jit_ok. cbn. apply (cache_ok_arenas (jctx s1)); [done|done|exact Ha|exact Hok1].
  - pose proof (ar_space _ (ok_arenas _ _ _ Hok1) a Hin). lia.
Qed.
(** ** Steps that leave the cache alone *)

Definition same_cache (s s' : JitState B) : Prop :=
  jctx s' = jctx s /\ g_arena_gen s' = g_arena_gen s /\ smc (vm s') = smc (vm s).

Definition quiet {A} (m : JM A) : Prop := forall s a s', m s = Ret (a, s') -> same_cache s s'.

Lemma same_trans s1 s2 s3 : same_cache s1 s2 -> same_cache s2 s3 -> same_cache s1 s3.
Proof. intros (A & C & D) (E & F & G). repeat split; congruence. Qed.

Lemma same_ok s s' : same_cache s s' -> jit_ok s -> jit_ok s'.
Proof. intros (A & C & D). unfold jit_ok. by rewrite A, C, D. Qed.

Lemma same_counters s s' : same_cache s s' -> counters_ok s -> counters_ok s'.
Proof. intros (A & C & D). unfold counters_ok. by rewrite C, D. Qed.

Lemma quiet_on_vm {A} (m : M B A) : smc_same m -> quiet (on_vm m).
Proof.
  intros Hm s a s' Hr. unfold on_vm in Hr. destruct (m (vm s)) as [[b v]| |] eqn:E; [|done..]. injection Hr as <- <-.
  repeat split. cbn. by apply (Hm _ _ _ E).
Qed.

Lemma on_em_inv {A} (m : EM A) e (s : JitState B) r s' : on_em m e s = Ret (r, s') -> m e = Ret r /\ s' = s.
Proof. unfold on_em. destruct (m e); [|done..]. by intros [= <- <-]. Qed.

Lemma dispatcher_inv (s : JitState B) a s' : ensure_chain_dispatcher os_mmap s = Ret (a, s') ->
  jctx s' = jctx s /\ g_arena_gen s' = g_arena_gen s /\ vm s' = vm s.
Proof.
  intros Hr. unfold ensure_chain_dispatcher in Hr. destruct (negb _); [by injection Hr as <- <-|].
  cbv [mbind outcome_bind] in Hr. destruct (map_pages os_mmap s) as [[p s1]| |] eqn:E; [|done..].
  apply map_pages_inv in E as [_ ->]. destruct (dispatcher_code []) as [[[] cb]| |]; [|done..].
  by injection Hr as <- <-.
Qed.

(** The translator of an instruction, counted before it runs. *)
Lemma fits_translator count size c jf : jit_func_of (B := B) c = Some jf ->
  fits (modify (fun e => set_blk (set_instr count size (blk e)) e) ;; jf (ic_data c)).
Proof.
  intros Hj. apply fits_bind; [by apply fits_modify|]. intros [].
  apply bind_Some in Hj as (i & _ & Hj). by eapply fits_jit_func.
Qed.

Lemma translate_loop_inv phys_pc page_end k : forall e va count size s e' count' size' s',
  translate_loop tb k e phys_pc page_end va count size s = Ret ((e', count', size'), s') ->
  in_size (blk e) -> 0 <= size < 2 ^ 32 ->
  same_cache s s' /\ (in_size (blk e') /\ chain_off (blk e') = chain_off (blk e) /\ code_pos e <= code_pos e') /\
  0 <= size' < 2 ^ 32.
Proof.
  induction k as [|k IH]; intros e va count size s e' count' size' s' Hr Hs Hz; cbn [translate_loop] in Hr.
  { by injection Hr as <- <- <- <-. }
  assert (forall s1, same_cache s s1 -> Ret ((e, count, size), s1) = Ret ((e', count', size'), s') ->
    same_cache s s' /\ (in_size (blk e') /\ chain_off (blk e') = chain_off (blk e) /\ code_pos e <= code_pos e') /\
    0 <= size' < 2 ^ 32) as Hstop by (intros s1 Hsc [= <- <- <- <-]; done).
  destruct (eof e); [by apply (Hstop s)|].
  cbv [mbind ST_bind] in Hr. destruct (on_vm _ s) as [[[[mr phys] c] s1]| |] eqn:Ef; [|done..].
  assert (same_cache s s1) as H1 by (by eapply quiet_on_vm; [apply smc_fetch|exact Ef]).
  destruct (negb (mr_success mr)); [by apply (Hstop s1)|]. destruct c as [c|]; [|done].
  destruct (ic_pc c =? 0); [by apply (Hstop s1)|]. destruct (page_end <? _); [by apply (Hstop s1)|].
  destruct (negb (phys =? _)); [by apply (Hstop s1)|]. destruct (jit_func_of c) as [jf|] eqn:Ej; [|by apply (Hstop s1)].
  destruct (on_em _ e s1) as [[[keep e1] s2]| |] eqn:Ee; [|done..]. apply on_em_inv in Ee as [Em ->].
  destruct (fits_translator _ _ _ _ Ej _ _ _ Em Hs) as (Hs1 & Hc1 & Hp1).
  assert (0 <= u32 (size + isize (ic_data c)) < 2 ^ 32) as Hz1 by (apply (uN_inw 32); lia).
  destruct (negb keep); [by injection Hr as <- <- <- <-|].
  destruct (IH _ _ _ _ _ _ _ _ _ Hr Hs1 Hz1) as (H2 & (Hs2 & Hc2 & Hp2) & Hz2).
  split; [by eapply same_trans|]. split; [|done]. split; [done|]. split; [congruence|lia].
Qed.

Lemma jbind_inv {S A C} (m : ST S A) (f : A -> ST S C) s r : (m ≫= f) s = Ret r ->
  exists a s1, m s = Ret (a, s1) /\ f a s1 = Ret r.
Proof. intros Hr. cbv [mbind ST_bind] in Hr. destruct (m s) as [[a s1]| |]; [by exists a, s1|done..]. Qed.

Lemma prologue_inv b x y r e : emit_prologue (new_emitter new_block b x y) = Ret (r, e) ->
  in_size (blk e) /\ chain_off (blk e) = 21 /\ code_pos e = 21.
Proof. intros Hr. vm_compute in Hr. injection Hr as <- <-. by vm_compute. Qed.

Lemma translate_quiet va phys_pc key : quiet (translate_block tb va phys_pc key).
Proof.
  destruct key as [[mode mxr] sum]. unfold translate_block. intros s t s' Hr.
  apply jbind_inv in Hr as ([u0 e0] & s0 & E0 & Hr). apply on_em_inv in E0 as [E0 ->].
  apply prologue_inv in E0 as [I0 _].
  apply jbind_inv in Hr as ([[e1 c1] z1] & s1 & E1 & Hr).
  apply translate_loop_inv in E1 as (Q1 & _ & _); [|done|lia].
  destruct (c1 <? RVJIT_MIN_INSTRUCTIONS); [by injection Hr as <- <-|].
  apply jbind_inv in Hr as (cd & s2 & [= <- <-] & Hr).
  apply jbind_inv in Hr as ([u2 e2] & s3 & E2 & Hr). apply on_em_inv in E2 as [E2 ->]. by injection Hr as <- <-.
Qed.

Lemma translate_block_inv va phys_pc key s e count size s' :
  translate_block tb va phys_pc key s = Ret (Some (e, count, size), s') ->
  same_cache s s' /\ in_size (blk e) /\ chain_off (blk e) = 21 /\ 21 <= code_pos e /\ 0 <= size < 2 ^ 32.
Proof.
  destruct key as [[mode mxr] sum]. unfold translate_block. intros Hr.
  apply jbind_inv in Hr as ([u0 e0] & s0 & E0 & Hr). apply on_em_inv in E0 as [E0 ->].
  destruct (prologue_inv _ _ _ _ _ E0) as (I0 & C0 & P0).
  apply jbind_inv in Hr as ([[e1 c1] z1] & s1 & E1 & Hr).
  destruct (translate_loop_inv _ _ _ _ _ _ _ _ _ _ _ _ E1 I0 ltac:(lia)) as (Q1 & (I1 & C1 & P1) & Z1).
  destruct (c1 <? RVJIT_MIN_INSTRUCTIONS); [by injection Hr|].
  apply jbind_inv in Hr as (cd & s2 & [= <- <-] & Hr).
  apply jbind_inv in Hr as ([u2 e2] & s3 & E2 & Hr). apply on_em_inv in E2 as [E2 ->].
  destruct (fits_ending _ _ _ _ _ _ E2 I1) as (I2 & C2 & P2).
  injection Hr as <- <- <- <-. split; [done|]. split; [done|]. split; [congruence|]. split; [lia|done].
Qed.

(** ** Serving a block *)

(** The physical addresses of the guest; the code adds the bytes of a block and
    of a page to one. *)
Definition phys_ok (p : Z) : Prop := 0 <= p < 2 ^ 63.

Lemma arena_alloc_same n (s : JitState B) p s' : arena_alloc os_mmap n s = Ret (p, s') -> jcache (jctx s') = jcache (jctx s).
Proof.
  intros Hr. unfold arena_alloc in Hr. apply jbind_inv in Hr as (j & s1 & [= <- <-] & Hr).
  apply jbind_inv in Hr as ([] & s2 & E & Hr).
  apply jbind_inv in Hr as (j & s3 & [= <- <-] & Hr). apply jbind_inv in Hr as ([] & s4 & [= <-] & Hr).
  injection Hr as <- <-. cbn. destruct (_ || _); [|by injection E as <-]. unfold new_arena in E.
  apply jbind_inv in E as (n1 & s5 & [= <- <-] & E). apply jbind_inv in E as ([] & s6 & E1 & E).
  apply jbind_inv in E as (q & s7 & E2 & [= <-]). apply map_pages_inv in E2 as [_ ->]. cbn.
  destruct (_ <=? _); [|by injection E1 as <-]. rewrite released_eq in E1. by injection E1 as <-.
Qed.

(** The block in its arena. *)
Lemma install_code_inv b phys size (s : JitState B) dst s' : jit_ok s -> counters_ok s ->
  in_size b -> chain_off b = 21 -> 21 <= x86.pos (code b) ->
  install_code os_mmap b phys size s = Ret (dst, s') ->
  jit_ok s' /\ live (jctx s') dst (dst + chain_off b) /\ 0 <= g_smc_epoch (smc (vm s')) < 2 ^ 64 - 1.
Proof.
  intros Hok Hcnt [Hp Hx] Ho H21 Hr. unfold install_code in Hr. apply jbind_inv in Hr as (p & s1 & E & Hr).
  apply jbind_inv in Hr as ([] & s2 & [= <-] & Hr). injection Hr as <- <-.
  destruct (data_base_bounds _ Hp) as [Hd [k Hk]].
  assert (0 <= n_exits b) as Hx0 by (unfold n_exits; lia). unfold RVJIT_FUNC_SIZE, MAX_EXITS in *.
  assert (slot_span b = n_exits b * 32) as Hs by (apply (uN_id 32); unfold x86.CHAIN_CACHE_STRIDE; split; lia).
  assert (u32 (data_base (code b) + slot_span b) = data_base (code b) + slot_span b) as Hu by (apply (uN_id 32); split; lia).
  rewrite Hu in E. set (n := data_base (code b) + slot_span b) in *.
  assert (0 <= n <= JIT_ARENA_BYTES) as Hn by (unfold JIT_ARENA_BYTES, RVJIT_ARENA_PAGES; lia).
  destruct (arena_alloc_inv _ _ _ _ Hok Hcnt Hn E) as (Hok1 & Hp0 & (a & Hin & Hl & Hh) & He).
  split; [exact Hok1|]. split; [|exact He]. split; [done|]. exists a. rewrite Ho. split_and!; [done|lia..].
Qed.

(** A block the cache gives for a key. *)
Definition handed (s : JitState B) (phys mode : Z) (mxr sum : bool) (x : JITExec) : Prop := exists i,
  let e := cached (jctx s) i in
  i ∈ ways phys /\ same_key e phys mode mxr sum = true /\ exec_of e = x /\
  cb_smc_epoch e = g_smc_epoch (smc (vm s)) /\ live (jctx s) (fn x) (chain_fn x).

Lemma same_key_phys e phys mode mxr sum : same_key e phys mode mxr sum = true -> cb_valid e = true /\ cb_start_phys e = phys.
Proof. unfold same_key. intros [[[[? E%Z.eqb_eq]%andb_true_iff _]%andb_true_iff _]%andb_true_iff _]%andb_true_iff. done. Qed.

Lemma cache_ok_put j agen m i e : cache_ok j agen m -> block_ok j agen m e -> cache_ok (put_cached i e j) agen m.
Proof.
  intros [[A1 A2 A3 A4 A5] C] He. constructor; [by constructor|]. intros k Hk. rewrite cached_put in *.
  apply (block_ok_mono j _ _ m); [done..|]. destruct (decide (k = i)); [exact He|by apply C].
Qed.

Lemma lookup_inv phys mode mxr sum s x s' : jit_ok s -> lookup phys mode mxr sum s = Ret (x, s') ->
  jit_ok s' /\ g_arena_gen s' = g_arena_gen s /\ vm s' = vm s /\ (fn x <> 0 -> handed s' phys mode mxr sum x) /\
  (fn x = 0 -> s' = s).
Proof.
  intros Hok Hr. unfold lookup in Hr. cbv [mbind ST_bind gets epoch_of] in Hr. cbv zeta in Hr.
  destruct (find _ _) as [i|] eqn:E; [|by injection Hr as <- <-]. injection Hr as <- <-.
  apply find_some in E as [Hin Hk]. apply andb_true_iff in Hk as [Hk He%Z.eqb_eq].
  pose proof (same_key_phys _ _ _ _ _ Hk) as [Hv Hp]. pose proof (ok_blocks _ _ _ Hok i Hv) as Hb.
  set (e := cached (jctx s) i) in *. set (e1 := set_hits _ e).
  assert (block_ok (jctx s) (g_arena_gen s) (smc (vm s)) e1) as Hb1 by (destruct Hb; by constructor).
  assert (live (jctx s) (cb_fn e) (cb_chain_fn e)) as Hl by apply Hb, Hb, He.
  split; [by apply cache_ok_put|]. split_and!; [done..| |intros H0; by destruct Hl].
  intros _. exists i. cbn. rewrite cached_put, decide_True by done. split_and!; [by apply list_elem_of_In|done..].
Qed.

(** Marking the pages of a block; the bytes of [phys] are protected after it. *)
Lemma mark_block_inv f phys bytes (s : JitState B) s' : marks_page f -> phys_ok phys -> 0 <= bytes < 2 ^ 32 ->
  on_vm (block_pages f phys bytes) s = Ret (tt, s') ->
  jctx s' = jctx s /\ g_arena_gen s' = g_arena_gen s /\ grows (vm s) (vm s') /\
  forall a, phys <= a < phys + bytes -> marked (smc (vm s')) a.
Proof.
  intros Hf [Hp Hq] Hb Hr. unfold on_vm in Hr. destruct (block_pages _ _ _ _) as [[[] v]| |] eqn:E; [|done..].
  injection Hr as <-. apply block_pages_marks in E as [G M]; [done|done|lia..].
Qed.

Lemma grows_ok (s s' : JitState B) : jctx s' = jctx s -> g_arena_gen s' = g_arena_gen s -> grows (vm s) (vm s') ->
  jit_ok s -> jit_ok s'.
Proof. intros Hj Hg [He Hm]. unfold jit_ok. rewrite Hj, Hg. by apply cache_ok_marks. Qed.

Lemma hash_same (s : JitState B) phys len h s' :
  on_vm (fun v => h ← text_hash_phys (mmap v) phys len; Ret (h, v)) s = Ret (h, s') -> s' = s.
Proof.
  unfold on_vm. cbv [mbind outcome_bind]. destruct (text_hash_phys _ _ _); [|done..]. intros [= <- <-].
  by destruct s.
Qed.

Lemma salvage_inv phys mode mxr sum l s ox s' : incl l (ways phys) -> jit_ok s -> phys_ok phys ->
  salvage_from l phys mode mxr sum s = Ret (ox, s') ->
  jit_ok s' /\ (forall x, ox = Some x -> handed s' phys mode mxr sum x) /\ (ox = None -> s' = s) /\
  g_smc_epoch (smc (vm s')) = g_smc_epoch (smc (vm s)) /\ g_arena_gen s' = g_arena_gen s.
Proof.
  intros Hl Hok Hp. induction l as [|i l IH]; intros Hr; cbn [salvage_from] in Hr; [by injection Hr as <- <-|].
  assert (incl l (ways phys)) as Hl1 by (intros a Ha; apply Hl; by right).
  apply jbind_inv in Hr as (e & s1 & [= <- <-] & Hr). apply jbind_inv in Hr as (ep & s1 & [= <- <-] & Hr).
  apply jbind_inv in Hr as (ag & s1 & [= <- <-] & Hr). set (e := cached (jctx s) i) in *.
  destruct (same_key e phys mode mxr sum) eqn:Hk; cbn [negb orb] in Hr; [|by apply IH].
  destruct (Z.eqb_spec (cb_smc_epoch e) (g_smc_epoch (smc (vm s)))) as [|Hne]; cbn [orb] in Hr; [by apply IH|].
  destruct (Z.eqb_spec (cb_arena_gen e) (g_arena_gen s)) as [Hag|]; cbn [negb] in Hr; [|by apply IH].
  apply jbind_inv in Hr as (h & s1 & Eh & Hr). apply hash_same in Eh as ->.
  destruct (negb _); [by apply IH|].
  pose proof (same_key_phys _ _ _ _ _ Hk) as [Hv Hs]. pose proof (ok_blocks _ _ _ Hok i Hv) as Hb. fold e in Hb.
  apply jbind_inv in Hr as ([] & s2 & Em & Hr).
  apply mark_block_inv in Em as (Hj & Hg & Hgr & Hm); [|apply mark_code_marks|done|apply Hb].
  apply jbind_inv in Hr as ([] & s3 & [= <-] & Hr). injection Hr as <- <-.
  pose proof (bk_live _ _ _ _ Hb Hag) as Hlive. pose proof Hgr as [He _].
  assert (jit_ok s2) as Hok2 by (by apply (grows_ok s)).
  set (e1 := set_hits _ _).
  assert (block_ok (jctx s2) (g_arena_gen s2) (smc (vm s2)) e1) as Hb1.
  { unfold e1. constructor; cbn [set_hits set_epoch cb_smc_epoch cb_arena_gen cb_start_phys cb_guest_bytes cb_fn cb_chain_fn];
      rewrite ?He, ?Hg, ?Hj, ?Hs; [lia|lia|apply Hp|apply Hb|done|done|intros _; exact Hm]. }
  split; [by apply cache_ok_put|]. split_and!; [|done..].
  intros x [= <-]. exists i. cbn. rewrite cached_put, decide_True, Hj by done.
  split_and!; [apply list_elem_of_In, Hl; by left|done..].
Qed.

(** The way to replace is one of the set. *)
Lemma victim_in j l : forall best n, victim_from j l best n ∈ best :: l.
Proof.
  induction l as [|i l IH]; intros best n; cbn [victim_from]; [set_solver +|].
  destruct (negb _); [set_solver +|]. destruct (_ <? _); [specialize (IH i (cb_hits (cached j i)))|specialize (IH best n)];
    set_solver + IH.
Qed.

Lemma victim_way_in j phys : victim_way j phys ∈ ways phys.
Proof.
  pose proof (victim_in j (ways phys) (index_of phys * 8) 0xFFFFFFFF) as Hin.
  assert (index_of phys * 8 ∈ ways phys) as Hb
    by (apply list_elem_of_In, in_map_iff; exists 0; split; [lia|by apply list_elem_of_In, elem_of_seqZ]).
  apply elem_of_cons in Hin as [E|Hin]; unfold victim_way; [by rewrite E|done].
Qed.

Lemma publish_inv phys mode mxr sum dst chain count size s x s' : jit_ok s -> phys_ok phys -> 0 <= size < 2 ^ 32 ->
  live (jctx s) dst chain -> publish_block phys (mode, mxr, sum) dst chain count size s = Ret (x, s') ->
  jit_ok s' /\ handed s' phys mode mxr sum x /\ g_smc_epoch (smc (vm s')) = g_smc_epoch (smc (vm s)).
Proof.
  intros Hok Hp Hsz Hl Hr. unfold publish_block in Hr.
  apply jbind_inv in Hr as (ep & s4 & [= <- <-] & Hr).
  apply jbind_inv in Hr as ([] & s4 & E4 & Hr).
  apply mark_block_inv in E4 as (Hj & Hg & Hgr & Hm); [|apply mark_executed_marks|done..].
  apply jbind_inv in Hr as (ag & s5 & [= <- <-] & Hr).
  apply jbind_inv in Hr as (h & s5 & E5 & Hr). apply hash_same in E5 as ->.
  apply jbind_inv in Hr as ([] & s5 & [= <-] & Hr). injection Hr as <- <-.
  pose proof Hgr as [He _]. assert (jit_ok s4) as Hok4 by (by apply (grows_ok s)).
  set (b := mkCached _ _ _ _ _ _ _ _ _ _ _ _ _).
  assert (block_ok (jctx s4) (g_arena_gen s4) (smc (vm s4)) b) as Hb.
  { constructor; cbn [b cb_smc_epoch cb_arena_gen cb_start_phys cb_guest_bytes cb_fn cb_chain_fn];
      rewrite ?He, ?Hj; [lia|lia|apply Hp|done|done|done|intros _; exact Hm]. }
  split; [by apply cache_ok_put|]. split; [|exact He].
  exists (victim_way (jctx s4) phys). cbn [jctx vm]. rewrite cached_put, decide_True by done.
  split_and!; [apply victim_way_in| |done|by rewrite He|by rewrite <- Hj in Hl].
  unfold same_key. cbn [b cb_valid cb_start_phys cb_eff_mode cb_mxr cb_sum]. by rewrite !Z.eqb_refl, !eqb_reflx.
Qed.

#[local] Opaque translate_block install_code publish_block lookup ensure_chain_dispatcher index_of.

Lemma compile_inv va phys s x s' mode mxr sum : jit_ok s -> counters_ok s -> phys_ok phys ->
  bits_of_mode (hart (vm s)) = (mode, mxr, sum) -> compile tb os_mmap va phys s = Ret (x, s') ->
  jit_ok s' /\ (fn x <> 0 -> handed s' phys mode mxr sum x) /\ 0 <= g_smc_epoch (smc (vm s')) < 2 ^ 64 - 1.
Proof.
  intros Hok Hcnt Hp Hkey Hr. unfold compile in Hr.
  apply jbind_inv in Hr as (p0 & s1 & E0 & Hr). apply dispatcher_inv in E0 as (Ej & Eg & Ev).
  assert (same_cache s s1) as Q0 by (repeat split; [done..|by rewrite Ev]).
  rewrite <- Ev in Hkey.
  apply (same_ok _ _ Q0) in Hok as Hok1. apply (same_counters _ _ Q0) in Hcnt as Hcnt1. clear s Ej Eg Ev Q0 Hok Hcnt.
  apply jbind_inv in Hr as (key & s2 & Ek & Hr). injection Ek as <- <-. rewrite Hkey in Hr.
  apply jbind_inv in Hr as (fast & s2 & E1 & Hr).
  destruct (lookup_inv _ _ _ _ _ _ _ Hok1 E1) as (Hok2 & Hg2 & Hv2 & Hhand & Hsame).
  destruct (Z.eqb_spec (fn fast) 0) as [Hf|Hf]; cbn [negb] in Hr.
  2:{ injection Hr as <- <-. split; [done|]. split; [done|]. rewrite Hv2. destruct Hcnt1. lia. }
  rewrite (Hsame Hf) in Hr. clear s2 E1 Hok2 Hg2 Hv2 Hhand Hsame Hf.
  apply jbind_inv in Hr as (t & s2 & E2 & Hr). destruct t as [[[e count] size]|].
  - destruct (translate_block_inv _ _ _ _ _ _ _ _ E2) as (Q2 & Hin & H21 & Hpos & Hsz).
    apply (same_ok _ _ Q2) in Hok1 as Hok2. apply (same_counters _ _ Q2) in Hcnt1 as Hcnt2.
    apply jbind_inv in Hr as (dst & s3 & E3 & Hr).
    destruct (install_code_inv _ _ _ _ _ _ Hok2 Hcnt2 Hin H21 Hpos E3) as (Hok3 & Hl3 & He3).
    destruct (Z.eqb_spec dst 0) as [->|Hd]; [by destruct Hl3|].
    destruct (publish_inv _ _ _ _ _ _ _ _ _ _ _ Hok3 Hp Hsz Hl3 Hr) as (Hok4 & Hh & ->). split_and!; [done|done|apply He3..].
  - apply jbind_inv in Hr as ([] & s3 & Es & Hr). injection Es as <-. injection Hr as <- <-.
    apply translate_quiet in E2 as Q2. apply (same_ok _ _ Q2) in Hok1 as Hok2. destruct Q2 as (_ & _ & Qs).
    split; [|split; [done|cbn [vm]; rewrite Qs; destruct Hcnt1; lia]].
    apply (cache_ok_arenas (jctx s2)); [done|done|destruct (ok_arenas _ _ _ Hok2); by constructor|exact Hok2].
Qed.

(** ** Every run *)

(** The ways to ask the cache for a block; [salvage] reports whether it found one. *)
Inductive serves (va phys mode : Z) (mxr sum : bool) (s : JitState B) (x : JITExec) (s' : JitState B) : Prop :=
| serve_lookup : lookup phys mode mxr sum s = Ret (x, s') -> serves va phys mode mxr sum s x s'
| serve_salvage ox : salvage phys mode mxr sum s = Ret (ox, s') -> x = default no_exec ox ->
    serves va phys mode mxr sum s x s'
| serve_compile : bits_of_mode (hart (vm s)) = (mode, mxr, sum) -> compile tb os_mmap va phys s = Ret (x, s') ->
    serves va phys mode mxr sum s x s'.

(** The machine after a store to [a]. *)
Definition after_store (a : Z) (s : JitState B) : JitState B :=
  set_vm (set_smc (smc_store_hit (smc (vm s)) a) (vm s)) s.

(** One event of the process: a block is asked for, a store reaches its hook,
    the interpreter protects a page it runs from, the text is invalidated, or
    the machine moves in a way that leaves the tables alone. *)
Inductive jstep : JitState B -> JitState B -> Prop :=
| step_serve va phys mode mxr sum s x s' : counters_ok s -> phys_ok phys -> serves va phys mode mxr sum s x s' -> jstep s s'
| step_store a s : counters_ok s -> jstep s (after_store a s)
| step_execute p s : 0 <= p ->
    jstep s (set_vm (set_smc (mark_page_code (mark_page_executed (smc (vm s)) p) p) (vm s)) s)
| step_invalidate s s' : counters_ok s -> invalidate_all s = Ret (tt, s') -> jstep s s'
| step_machine s v : smc v = smc (vm s) -> jstep s (set_vm v s).

(** A process that has started: no block, no arena. *)
Definition fresh (s : JitState B) : Prop := jctx s = jit_new.

Definition reachable (s : JitState B) : Prop := exists s0, fresh s0 /\ rtc jstep s0 s.

Lemma fresh_ok s : fresh s -> jit_ok s.
Proof.
  unfold fresh, jit_ok. intros ->. constructor.
  - constructor; cbn; [by left|unfold JIT_ARENA_BYTES, RVJIT_ARENA_PAGES; lia|by exists 0|by unfold RVJIT_MAX_CACHE_BYTES|set_solver +].
  - intros i Hi. by cbn in Hi.
Qed.

Lemma serves_inv va phys mode mxr sum s x s' : jit_ok s -> counters_ok s -> phys_ok phys ->
  serves va phys mode mxr sum s x s' ->
  jit_ok s' /\ (fn x <> 0 -> handed s' phys mode mxr sum x) /\ 0 <= g_smc_epoch (smc (vm s')) < 2 ^ 64 - 1.
Proof.
  intros Hok Hcnt Hp Hs. assert (0 <= g_smc_epoch (smc (vm s)) < 2 ^ 64 - 1) as He by (destruct Hcnt; lia).
  destruct Hs as [Hr|ox Hr ->|Hk Hr].
  - destruct (lookup_inv _ _ _ _ _ _ _ Hok Hr) as (H1 & _ & Hv & H2 & _). by rewrite Hv.
  - destruct (salvage_inv _ _ _ _ _ _ _ _ (incl_refl _) Hok Hp Hr) as (H1 & H2 & _ & -> & _).
    split; [done|]. split; [|done]. destruct ox as [x|]; [intros _; by apply H2|done].
  - by eapply compile_inv.
Qed.

Lemma jstep_ok s s' : jstep s s' -> jit_ok s -> jit_ok s'.
Proof.
  intros Hs Hok. destruct Hs as [va phys mode mxr sum s x s' Hc Hp Hs|a s [Hc _]|p s Hp|s s' [Hc _] Hr|s v Hv].
  - by destruct (serves_inv _ _ _ _ _ _ _ _ Hok Hc Hp Hs).
  - unfold jit_ok. cbn. apply store_hit_ok; [lia|exact Hok].
  - unfold jit_ok. cbn. eapply cache_ok_marks; [|intros b Hb Hm|exact Hok]; [done|].
    apply marked_code; [done|done|]. right. by apply marked_executed.
  - injection Hr as <-. unfold jit_ok. cbn. eapply cache_ok_stale; [|exact Hok]. cbn. rewrite (uN_id 64); [lia|split; lia].
  - unfold jit_ok. cbn. rewrite Hv. exact Hok.
Qed.

Lemma reachable_ok s : reachable s -> jit_ok s.
Proof. intros (s0 & Hf & Hr). apply fresh_ok in Hf. induction Hr; [done|]. eauto using jstep_ok. Qed.

#[local] Transparent lookup.

(** Nothing is served at an epoch no block has. *)
Lemma lookup_stale phys mode mxr sum (s : JitState B) : (forall i, cb_valid (cached (jctx s) i) = true ->
    cb_smc_epoch (cached (jctx s) i) < g_smc_epoch (smc (vm s))) ->
  lookup phys mode mxr sum s = Ret (no_exec, s).
Proof.
  intros Hst. unfold lookup. cbv [mbind ST_bind gets epoch_of]. cbv zeta.
  destruct (find _ _) as [i|] eqn:E; [|done]. apply find_some in E as [_ Hk].
  apply andb_true_iff in Hk as [Hk%same_key_phys He%Z.eqb_eq]. destruct Hk as [Hv _]. specialize (Hst i Hv). lia.
Qed.

(** C18: no thread is given a block whose code is gone or whose text has
    been stored to. In every state the process reaches: a block that [lookup],
    [salvage] or [compile] hands out has the key that was asked for, its code
    and its chain entry lie in an arena that is mapped, and it can be found
    again in its set of the cache. A store to any byte of its text empties the
    cache, when it goes through [smc_store_hit]: after it [lookup] gives no block
    for any key. *)
Theorem jit_code_safe va phys mode mxr sum s x s' :
  reachable s -> counters_ok s -> phys_ok phys -> serves va phys mode mxr sum s x s' -> fn x <> 0 ->
  reachable s' /\ exists i,
    let e := cached (jctx s') i in
    i ∈ ways phys /\ same_key e phys mode mxr sum = true /\ exec_of e = x /\
    live (jctx s') (fn x) (chain_fn x) /\
    forall a, phys <= a < phys + cb_guest_bytes e -> forall phys2 mode2 mxr2 sum2,
      lookup phys2 mode2 mxr2 sum2 (after_store a s') = Ret (no_exec, after_store a s').
Proof.
  intros Hreach Hc Hp Hs Hf. pose proof (reachable_ok _ Hreach) as Hok.
  destruct (serves_inv _ _ _ _ _ _ _ _ Hok Hc Hp Hs) as (Hok' & Hh & He).
  split. { destruct Hreach as (s0 & H0 & Hr). exists s0. split; [done|]. eapply rtc_r; [exact Hr|]. by eapply step_serve. }
  destruct (Hh Hf) as (i & Hin & Hk & Hx & Hfresh & Hl). exists i. cbv zeta. split_and!; try done.
  intros a Ha phys2 mode2 mxr2 sum2. apply lookup_stale. intros k Hk2. cbn in *.
  pose proof (same_key_phys _ _ _ _ _ Hk) as [Hv Hst].
  pose proof (bk_epoch _ _ _ _ (ok_blocks _ _ _ Hok' k Hk2)) as Hle.
  assert (marked (smc (vm s')) a) as Hm.
  { apply (bk_text _ _ _ _ (ok_blocks _ _ _ Hok' i Hv) Hfresh). by rewrite Hst. }
  destruct (store_hit_cases (smc (vm s')) a He) as [[_ ->]|[Hn _]]; [lia|done].
Qed.
End ops.
