(* ===== verification/Machine.v ===== *)
(** * The machine ([src/machine.cpp], [include/machine.hpp], [tick_all] of [include/mmio.hpp])

    All harts, the memory, the caches and the devices, and the work thread's
    loop over them, in a build with the block dispatcher and without the GDB
    stub. A hart runs with the shared parts as its state; afterwards what the
    devices did to the other harts is written to them. *)

From Stdlib Require Import Strings.String.
From S2P Require Import Prelude Defs MemoryMap SelfMod Tlb Decode Lut Hart State Mmu Mmio Isa Exec Block.
From S2P Require Import Device Plic Uart Clint I2c Syscon Platform Fdt FdtBlob Elf.

Record MachineS := mkMachine {
  mc_harts : list Hart;
  mc_mmap : MemoryMap;
  mc_smc : SelfMod;
  mc_idec : DecCache;
  mc_memsize : Z;
  mc_pf : Platform;
  mc_bc : BlockCache;
  dev_tick_time : Z }.

Definition set_tick_time (x : Z) (m : MachineS) : MachineS :=
  mkMachine (mc_harts m) (mc_mmap m) (mc_smc m) (mc_idec m) (mc_memsize m) (mc_pf m) (mc_bc m) x.
Definition set_bc (x : BlockCache) (m : MachineS) : MachineS :=
  mkMachine (mc_harts m) (mc_mmap m) (mc_smc m) (mc_idec m) (mc_memsize m) (mc_pf m) x (dev_tick_time m).
Definition set_devices (hs : list Hart) (b : Platform) (m : MachineS) : MachineS :=
  mkMachine hs (mc_mmap m) (mc_smc m) (mc_idec m) (mc_memsize m) b (mc_bc m) (dev_tick_time m).

Definition set_cur (i : nat) (b : Platform) : Platform :=
  mkPf (pf_clock b) (pf_plic b) (pf_uart b) (pf_clint b) (pf_syscon b) (pf_control b) (pf_i2c b) i (pf_views b).

(** What a device did to a hart, stored in its [uint16_t] and [uint64_t] fields. *)
Definition store_view (v : option HartView) (h : Hart) : Hart :=
  match v with Some v => set_ip (u16 (v_ip v)) (set_ctime (u64 (v_ctime v)) h) | None => h end.

(** The state hart [i] runs in, and the machine afterwards. *)
Definition enter (i : nat) (h : Hart) (m : MachineS) : State Platform :=
  mkState h (mc_mmap m) (mc_smc m) (mc_idec m) (mc_memsize m) (set_cur i (set_views (view_of <$> mc_harts m) (mc_pf m))).

Definition leave (i : nat) (s : State Platform) (m : MachineS) : MachineS :=
  mkMachine (imap (fun j h => if decide (j = i) then hart s else store_view (pf_views (bus s) !! j) h) (mc_harts m))
    (mmap s) (smc s) (idec s) (mmio_memsize s) (bus s) (mc_bc m) (dev_tick_time m).

Definition WM (A : Type) : Type := ST MachineS A.

Definition on_hart_at {A} (i : nat) (p : M Platform A) : WM A := fun m =>
  match mc_harts m !! i with
  | None => Undef
  | Some h => match p (enter i h m) with
              | Ret (a, s) => Ret (a, leave i s m)
              | Throw e => Throw e
              | Undef => Undef
              end
  end.

(** [tick_all]: of the devices only the I2C master has a [tick] with a body. *)
Definition tick_all : WM unit := fun m =>
  let b := mc_pf m in
  match i2c_tick ((pf_i2c b, pf_plic b), view_of <$> mc_harts m) with
  | Ret (_, (d, vs)) =>
      Ret (tt, set_devices (imap (fun j h => store_view (vs !! j) h) (mc_harts m)) (set_plic_i2c d.2 d.1 b) m)
  | Throw e => Throw e
  | Undef => Undef
  end.

Section work.
Context (tb : DecTable).

Definition TICK_PERIOD : Z := 0x1000.
Definition INSTR_BATCH : Z := 256.

(** [while(dev_tick_time >= 0x1000)]: the time is a [uint16_t], so 16 passes
    are enough; [None] if it were not. *)
Fixpoint drain (fuel : nat) : WM (option unit) :=
  t ← gets dev_tick_time;
  if t <? TICK_PERIOD then mret (Some tt) else
  match fuel with
  | O => mret None
  | S fuel' =>
      _ ← modify (set_tick_time (t - TICK_PERIOD));
      _ ← tick_all;
      drain fuel'
  end.

(** A hart's turn. *)
Definition hart_turn (i : nat) : WM (option unit) :=
  bc ← gets mc_bc;
  r ← on_hart_at i (run_blocks tb bc 0x4000);
  match r with
  | None => mret None
  | Some (count, bc) =>
      _ ← modify (set_bc bc);
      let count := if count =? 0 then INSTR_BATCH else count in
      t ← gets dev_tick_time;
      _ ← modify (set_tick_time (u16 (t + count)));
      drain 16
  end.

Fixpoint hart_turns (i k : nat) : WM (option unit) :=
  match k with
  | O => mret (Some tt)
  | S k' =>
      r ← hart_turn i;
      match r with Some _ => hart_turns (S i) k' | None => mret None end
  end.

(** The body of the loop for a running machine. *)
Definition work_running : WM (option unit) :=
  t ← gets dev_tick_time;
  let t := u16 (t + INSTR_BATCH) in
  _ ← modify (set_tick_time t);
  _ ← (if TICK_PERIOD <=? t then _ ← modify (set_tick_time (t - TICK_PERIOD)); tick_all else mret tt);
  k ← gets (fun m => length (mc_harts m));
  hart_turns 0 k.

(** ** Reset *)

(** The files and the device tree, and the values of memory that is not
    initialised: what [malloc] returns, and what the constructor of [Hart]
    leaves as it is. *)
Record Config := mkConfig {
  bios : option (list Z);
  kernel : option (list Z);
  dtb : option (list Z);
  cfg_init_fdt : bool;
  fdt_heap : Heap;
  fdt_root : option positive;
  junk_buf : Z -> list Z;
  entry_pc : Z;
  hart_count : nat;
  junk_hart : nat -> Hart;
  junk_off : Z;
  junk_class : Z }.

Definition hart_new (junk : Hart) (i memsz : Z) : Hart :=
  mkHart i (GPR junk) (FPR junk) (pc junk) (mode junk) (status junk) (ie junk) (ip junk) (stimecmp junk) (fcsr junk)
    (satp junk) (cycle junk) (instret junk) (ctime junk) false (csrs junk) (reservation junk) memsz tlb_init.

Definition reset_memory (m : MemoryMap) : MemoryMap :=
  mkMemoryMap ((fun r => mkRegion (base_addr r) (size r) ∅) <$> regions m) (ram_direct m).

(** [read_file] appends a NUL that is not part of the size. *)
Definition load_image (cfg : Config) (addr : Z) (image : option (list Z)) (m : MemoryMap) : outcome MemoryMap :=
  match image with
  | None => Ret m
  | Some bytes =>
      r ← load_buffer (junk_off cfg) (junk_class cfg) m addr (bytes ++ [0]) (Z.of_nat (length bytes));
      Ret r.2
  end.

Definition dtb_addr (memsz : Z) : Z := u64 (0x80000000 + memsz - 0x20000).

(** [write_fdt] and [load_fdt]. *)
Definition write_fdt (cfg : Config) (memsz : Z) (m : MemoryMap) : outcome MemoryMap :=
  match dtb cfg with
  | Some bytes => load_image cfg (dtb_addr memsz) (Some bytes) m
  | None =>
      if negb (cfg_init_fdt cfg) then Ret m else
      dtb_size ← fdt_size (fdt_heap cfg) (fdt_root cfg);
      '(sz, b) ← fdt_serialize (fdt_heap cfg) (fdt_root cfg) (Some (junk_buf cfg dtb_size)) dtb_size 0;
      r ← load_buffer (junk_off cfg) (junk_class cfg) m (dtb_addr memsz) (default [] b) sz;
      Ret r.2
  end.

Definition reset_harts (cfg : Config) (memsz : Z) : list Hart :=
  (fun i => init (dtb_addr memsz) (entry_pc cfg) (hart_new (junk_hart cfg i) (Z.of_nat i) memsz)) <$> seq 0 (hart_count cfg).

(** The body of the loop for a resetting machine. *)
Definition work_resetting (cfg : Config) : WM unit := fun m =>
  mm ← load_image cfg 0x80000000 (bios cfg) (reset_memory (mc_mmap m));
  mm ← load_image cfg 0x80200000 (kernel cfg) mm;
  mm ← write_fdt cfg (mc_memsize m) mm;
  let b := mc_pf m in
  Ret (tt, mkMachine (reset_harts cfg (mc_memsize m)) mm (mc_smc m) (mc_idec m) (mc_memsize m)
    (set_control (set_m_state Running (pf_control b)) b) (bc_clear (mc_bc m)) (dev_tick_time m)).

(** [run], up to the creation of the work thread; every hart starts at the
    entry point of an ELF firmware, or the configured one. *)
Definition machine_run (cfg : Config) : WM unit := fun m =>
  match bios cfg with
  | None => Ret (tt, m)
  | Some bytes =>
      '(out, entry, mm) ← load_buffer (junk_off cfg) (junk_class cfg) (mc_mmap m) 0x80000000 (bytes ++ [0]) (Z.of_nat (length bytes));
      let stop mm := Ret (tt, mkMachine (mc_harts m) mm (mc_smc m) (mc_idec m) (mc_memsize m) (mc_pf m) (mc_bc m) (dev_tick_time m)) in
      if negb out then stop mm else
      '(out, mm) ← (match kernel cfg with
                    | None => Ret (out, mm)
                    | Some k => r ← load_buffer (junk_off cfg) (junk_class cfg) mm 0x80200000 (k ++ [0]) (Z.of_nat (length k)); Ret (r.1.1, r.2)
                    end);
      if negb out then stop mm else
      let b := mc_pf m in
      Ret (tt, mkMachine (init (dtb_addr (mc_memsize m)) (default (entry_pc cfg) entry) <$> mc_harts m) mm (mc_smc m) (mc_idec m)
        (mc_memsize m) (set_control (mkControl Running true) b) (mc_bc m) (dev_tick_time m))
  end.

(** One pass of [while(state != Off)]; the value tells whether the loop goes on. *)
Definition work_pass (cfg : Config) : WM bool :=
  c ← gets (fun m => pf_control (mc_pf m));
  match m_state c with
  | Off => mret false
  | Resetting => _ ← work_resetting cfg; mret true
  | Halted => mret true
  | Running => _ ← work_running; mret true
  end.
End work.

(** ** Specification of a pass

    Device time is exact: no 16-bit counter and no loop, the quotient by the
    period being the number of ticks and the remainder what is carried on. *)

Section spec.
Context (tb : DecTable).

Fixpoint device_ticks (n : nat) : WM unit :=
  match n with O => mret tt | S n' => _ ← tick_all; device_ticks n' end.

Definition charge (c : Z) : WM unit :=
  t ← gets dev_tick_time;
  _ ← modify (set_tick_time ((t + c) mod 4096));
  device_ticks (Z.to_nat ((t + c) / 4096)).

(** Hart [i] runs up to 16384 instructions, which are charged, or 256 when it
    ran none. *)
Definition turn_spec (i : nat) : WM (option unit) :=
  bc ← gets mc_bc;
  r ← on_hart_at i (run_blocks tb bc 16384);
  match r with
  | None => mret None
  | Some (count, bc') =>
      _ ← modify (set_bc bc');
      _ ← charge (if count =? 0 then 256 else count);
      mret (Some tt)
  end.

Fixpoint turns_spec (i k : nat) : WM (option unit) :=
  match k with
  | O => mret (Some tt)
  | S k' => r ← turn_spec i; match r with Some _ => turns_spec (S i) k' | None => mret None end
  end.

Definition pass_spec : WM (option unit) :=
  _ ← charge 256;
  k ← gets (fun m => length (mc_harts m));
  turns_spec 0 k.
End spec.

(** ** Invariant *)

Section invariant.
Context (tb : DecTable).

Record mach_ok (m : MachineS) : Prop := {
  mo_harts : Forall hart_wf (mc_harts m);
  mo_mmap : wf_mmap (mc_mmap m);
  mo_idec : cache_ok tb (mc_idec m);
  mo_bc : bc_ok tb (mc_bc m) }.

Lemma store_view_wf v h : hart_wf h -> hart_wf (store_view v h).
Proof. intros Hh. destruct v as [v|]; [|done]. apply set_ip_wf; [apply set_ctime_wf; [done|]|]; by apply uN_inw. Qed.

Lemma enter_inv i h m : mach_ok m -> mc_harts m !! i = Some h -> inv tb (enter i h m).
Proof. intros [Hh Hm Hi _] Hl. split; [split; [by apply (Forall_lookup_1 _ _ _ _ Hh Hl)|done]|done]. Qed.

Lemma leave_ok i s m : mach_ok m -> inv tb s -> mach_ok (leave i s m).
Proof.
  intros [Hh Hm Hi Hb] [[Hwf Hmm] Hc]. split; [|done|done|done]. cbn [leave mc_harts]. apply Forall_lookup_2. intros j h Hj.
  rewrite list_lookup_imap in Hj. destruct (mc_harts m !! j) as [h0|] eqn:E; [|done]. injection Hj as <-.
  case_decide; [done|]. apply store_view_wf. by apply (Forall_lookup_1 _ _ _ _ Hh E).
Qed.

(** The harts are as many as before. *)
Lemma leave_length i s m : length (mc_harts (leave i s m)) = length (mc_harts m).
Proof. apply length_imap. Qed.

Lemma tick_all_ok m m' : mach_ok m -> tick_all m = Ret (tt, m') ->
  mach_ok m' /\ length (mc_harts m') = length (mc_harts m) /\ dev_tick_time m' = dev_tick_time m /\ mc_bc m' = mc_bc m.
Proof.
  intros [Hh Hm Hi Hb]. unfold tick_all. destruct (i2c_tick _) as [[[] [d vs]]| |]; [|done..]. intros [= <-].
  split; [|split; [apply length_imap|done]]. split; [|done|done|done]. cbn [set_devices mc_harts]. apply Forall_lookup_2. intros j h Hj.
  rewrite list_lookup_imap in Hj. destruct (mc_harts m !! j) as [h0|] eqn:E; [|done]. injection Hj as <-.
  apply store_view_wf. by apply (Forall_lookup_1 _ _ _ _ Hh E).
Qed.

Lemma tick_all_time x m : tick_all (set_tick_time x m) =
  match tick_all m with Ret (_, m') => Ret (tt, set_tick_time x m') | Throw e => Throw e | Undef => Undef end.
Proof. unfold tick_all. cbn [mc_pf mc_harts set_tick_time]. by destruct (i2c_tick _) as [[[] [d vs]]| |]. Qed.

Lemma device_ticks_ok n : forall m m', mach_ok m -> device_ticks n m = Ret (tt, m') ->
  mach_ok m' /\ length (mc_harts m') = length (mc_harts m) /\ dev_tick_time m' = dev_tick_time m /\ mc_bc m' = mc_bc m.
Proof.
  induction n as [|n IH]; intros m m' Hok; cbn [device_ticks]; cbv [mbind ST_bind mret ST_ret]; [by intros [= <-]|].
  destruct (tick_all m) as [[[] m1]| |] eqn:E; [|done..]. intros Hn.
  destruct (tick_all_ok m m1 Hok E) as (Hok1 & Hl1 & Ht1 & Hb1).
  destruct (IH m1 m' Hok1 Hn) as (Hok2 & Hl2 & Ht2 & Hb2). by rewrite Hl2, Ht2, Hb2.
Qed.

Lemma charge_ok c m m' : mach_ok m -> charge c m = Ret (tt, m') ->
  mach_ok m' /\ length (mc_harts m') = length (mc_harts m) /\ 0 <= dev_tick_time m' < 4096 /\ mc_bc m' = mc_bc m.
Proof.
  intros Hok. unfold charge. cbv [mbind ST_bind gets modify]. intros H. apply device_ticks_ok in H as (? & ? & Ht & ?); [|by destruct Hok].
  rewrite Ht. cbn [set_tick_time dev_tick_time]. split; [done|]. split; [done|]. split; [|done]. by apply Z.mod_pos_bound.
Qed.

(** [drain] ticks the devices once for every whole period and leaves the rest. *)
Lemma drain_charge fuel : forall m, 0 <= dev_tick_time m < 4096 * (Z.of_nat fuel + 1) ->
  drain fuel m = (_ ← charge 0; mret (Some tt)) m.
Proof.
  induction fuel as [|fuel IH]; intros m Ht; cbn [drain]; unfold charge; cbv [mbind ST_bind mret ST_ret gets modify];
    unfold TICK_PERIOD; rewrite Z.add_0_r;
    (destruct (Z.ltb_spec (dev_tick_time m) 0x1000) as [Hlt|Hge];
      [rewrite Z.mod_small, Z.div_small by lia; by destruct m|]); [lia|].
  set (t := dev_tick_time m - 4096) in *.
  assert (dev_tick_time m / 4096 = t / 4096 + 1) as ->.
  { replace (dev_tick_time m) with (t + 1 * 4096) by lia. by apply Z.div_add. }
  assert (dev_tick_time m mod 4096 = t mod 4096) as ->.
  { replace (dev_tick_time m) with (t + 1 * 4096) by lia. apply Z_mod_plus_full. }
  assert (0 <= t / 4096) by (apply Z.div_pos; lia).
  replace (Z.to_nat (t / 4096 + 1)) with (S (Z.to_nat (t / 4096))) by lia.
  change 0x1000 with 4096. fold t. cbn [device_ticks]. cbv [mbind ST_bind mret ST_ret]. rewrite !tick_all_time.
  destruct (tick_all m) as [[[] m1]| |] eqn:E1; [|done..].
  rewrite (IH (set_tick_time t m1)) by (cbn [set_tick_time dev_tick_time]; lia). unfold charge.
  cbv [mbind ST_bind mret ST_ret gets modify]. cbn [set_tick_time dev_tick_time]. by rewrite Z.add_0_r.
Qed.

(** What the dispatcher guarantees for this table. *)
Hypothesis Hblocks : forall bc (s : State Platform) r s', inv tb s -> bc_ok tb bc -> bc_generation bc + 0x4000 + 1 < 2 ^ 64 ->
  run_blocks tb bc 0x4000 s = Ret (r, s') -> inv tb s' /\ exists total bc', r = Some (total, bc') /\ bc_ok tb bc' /\
    0 <= total <= 0x4000 + 15 /\ bc_generation bc' <= bc_generation bc + 0x4000 + 1.

Lemma hart_turn_spec i m : mach_ok m -> bc_generation (mc_bc m) + 0x4001 < 2 ^ 64 -> 0 <= dev_tick_time m < 4096 ->
  hart_turn tb i m = turn_spec tb i m /\
  forall r m', turn_spec tb i m = Ret (r, m') -> r = Some tt /\ mach_ok m' /\ length (mc_harts m') = length (mc_harts m) /\
    bc_generation (mc_bc m') <= bc_generation (mc_bc m) + 0x4001 /\ 0 <= dev_tick_time m' < 4096.
Proof.
  intros Hok Hgen Ht. unfold hart_turn, turn_spec. cbv [mbind ST_bind mret ST_ret gets modify].
  unfold on_hart_at. destruct (mc_harts m !! i) as [h|] eqn:Hi; [|done].
  destruct (run_blocks tb (mc_bc m) 0x4000 (enter i h m)) as [[r1 s1]| |] eqn:Hr; [|done..].
  destruct (Hblocks (mc_bc m) _ r1 s1 (enter_inv i h m Hok Hi) (mo_bc _ Hok) ltac:(lia) Hr)
    as (Hinv & total & bc & -> & Hbc & Htot & Hg). clear Hr. unfold INSTR_BATCH.
  set (c := if total =? 0 then 256 else total). set (m1 := set_bc bc (leave i s1 m)).
  assert (0 <= c <= 0x4000 + 15) as Hc by (unfold c; destruct (total =? 0); lia).
  assert (mach_ok m1) as Hok1 by (destruct (leave_ok i s1 m Hok Hinv); by split).
  assert (dev_tick_time m1 = dev_tick_time m) as Ht1 by done. split.
  - rewrite uN_id by (split; lia). rewrite drain_charge by (cbn [set_tick_time dev_tick_time]; lia).
    unfold charge. cbv [mbind ST_bind mret ST_ret gets modify]. cbn [set_tick_time dev_tick_time]. by rewrite Z.add_0_r.
  - intros r m'. destruct (charge c m1) as [[[] m2]| |] eqn:E; [|done..]. intros [= <- <-].
    destruct (charge_ok c m1 m2 Hok1 E) as (? & Hl & ? & Hb). rewrite Hl, Hb. split; [done|]. split; [done|].
    split; [apply leave_length|]. cbn [m1 set_bc mc_bc]. split; [lia|done].
Qed.

Lemma hart_turns_spec k : forall i m, mach_ok m -> bc_generation (mc_bc m) + 0x4001 * Z.of_nat k < 2 ^ 64 -> 0 <= dev_tick_time m < 4096 ->
  hart_turns tb i k m = turns_spec tb i k m /\
  forall r m', turns_spec tb i k m = Ret (r, m') -> r = Some tt /\ mach_ok m' /\ length (mc_harts m') = length (mc_harts m) /\
    0 <= dev_tick_time m' < 4096.
Proof.
  induction k as [|k IH]; intros i m Hok Hgen Ht; cbn [hart_turns turns_spec]; cbv [mbind ST_bind mret ST_ret].
  - split; [done|]. by intros r m' [= <- <-].
  - destruct (hart_turn_spec i m Hok ltac:(lia) Ht) as [-> Hok1].
    destruct (turn_spec tb i m) as [[r1 m1]| |]; [|done..].
    destruct (Hok1 r1 m1 eq_refl) as (-> & Hm1 & Hl1 & Hg1 & Ht1).
    destruct (IH (S i) m1 Hm1 ltac:(lia) Ht1) as [-> Hok2]. split; [done|]. intros r m' Hr.
    destruct (Hok2 r m' Hr) as (? & ? & Hl2 & ?). by rewrite Hl2.
Qed.

Lemma work_running_core m : mach_ok m ->
  bc_generation (mc_bc m) + 0x4001 * Z.of_nat (length (mc_harts m)) < 2 ^ 64 -> 0 <= dev_tick_time m < 4096 ->
  work_running tb m = pass_spec tb m /\
  forall r m', work_running tb m = Ret (r, m') -> r = Some tt /\ mach_ok m' /\ length (mc_harts m') = length (mc_harts m) /\
    0 <= dev_tick_time m' < 4096.
Proof.
  intros Hok Hgen Ht.
  assert (work_running tb m = (_ ← charge 256; k ← gets (fun m => length (mc_harts m)); hart_turns tb 0 k) m) as ->.
  { unfold work_running, charge, INSTR_BATCH, TICK_PERIOD. cbv [mbind ST_bind mret ST_ret gets modify].
    rewrite uN_id by (split; lia). destruct (Z.leb_spec 0x1000 (dev_tick_time m + 256)) as [Hge|Hlt].
    - assert ((dev_tick_time m + 256) / 4096 = 1) as -> by (symmetry; apply (Z.div_unique_pos _ _ 1 (dev_tick_time m + 256 - 4096)); lia).
      assert ((dev_tick_time m + 256) mod 4096 = dev_tick_time m + 256 - 4096) as -> by (symmetry; apply (Z.mod_unique_pos _ _ 1); lia).
      change (Z.to_nat 1) with 1%nat. cbn [device_ticks]. cbv [mbind ST_bind mret ST_ret].
      change (set_tick_time ?a (set_tick_time ?b m)) with (set_tick_time a m).
      by destruct (tick_all _) as [[[] m1]| |].
    - rewrite Z.mod_small, Z.div_small by lia. done. }
  unfold pass_spec. cbv [mbind ST_bind gets].
  destruct (charge 256 m) as [[[] m1]| |] eqn:E; [|done..].
  destruct (charge_ok 256 m m1 Hok E) as (Hok1 & Hl1 & Ht1 & Hb1).
  destruct (hart_turns_spec (length (mc_harts m1)) 0 m1 Hok1) as [-> Hok2]; [by rewrite Hb1, Hl1|done|].
  split; [done|]. intros r m' Hr. destruct (Hok2 r m' Hr) as (? & ? & Hl2 & ?). by rewrite Hl2.
Qed.
End invariant.

(** C30: a pass of the work thread's loop over a running machine is the pass
    of the specification: 256 are charged to device time, then every hart runs
    in turn and its instructions are charged, or 256 when it ran none; the
    devices tick once for every 4096 charged, between the harts' turns, and the
    16-bit counter carries the rest without loss. A tick steps the I2C master,
    the only device with a tick: it advances a pending operation by one, and
    otherwise changes nothing, and what the master did to the interrupt lines
    reaches the harts. The pass keeps every hart, the memory and both caches
    well-formed and does not run out of fuel. *)
Theorem work_running_ok tb m : init_all_instrs (B := Platform) = Some tb -> mach_ok tb m ->
  bc_generation (mc_bc m) + 0x4001 * Z.of_nat (length (mc_harts m)) < 2 ^ 64 -> 0 <= dev_tick_time m < 4096 ->
  work_running tb m = pass_spec tb m /\
  (forall r m', work_running tb m = Ret (r, m') -> r = Some tt /\ mach_ok tb m' /\
     length (mc_harts m') = length (mc_harts m) /\ 0 <= dev_tick_time m' < 4096) /\
  (forall d p vs, i2c_tick ((pf_i2c (mc_pf m), pf_plic (mc_pf m)), view_of <$> mc_harts m) = Ret (tt, ((d, p), vs)) ->
     exists m', tick_all m = Ret (tt, m') /\ pf_i2c (mc_pf m') = d /\ pf_plic (mc_pf m') = p /\
       (forall j h v, mc_harts m !! j = Some h -> vs !! j = Some v ->
          mc_harts m' !! j = Some (set_ip (u16 (v_ip v)) (set_ctime (u64 (v_ctime v)) h))) /\
       length (mc_harts m') = length (mc_harts m) /\
       mc_mmap m' = mc_mmap m /\ mc_bc m' = mc_bc m /\ dev_tick_time m' = dev_tick_time m) /\
  (op_active (pf_i2c (mc_pf m)) = true -> delay (pf_i2c (mc_pf m)) + 1 < 100 ->
     exists m', tick_all m = Ret (tt, m') /\ delay (pf_i2c (mc_pf m')) = delay (pf_i2c (mc_pf m)) + 1 /\
       op_active (pf_i2c (mc_pf m')) = true) /\
  (op_active (pf_i2c (mc_pf m)) = false -> exists m', tick_all m = Ret (tt, m') /\ mc_pf m' = mc_pf m).
Proof.
  intros Htb Hok Hg Ht.
  assert (forall bc (s : State Platform) r1 s1, inv tb s -> bc_ok tb bc -> bc_generation bc + 0x4000 + 1 < 2 ^ 64 ->
    run_blocks tb bc 0x4000 s = Ret (r1, s1) -> inv tb s1 /\ exists total bc', r1 = Some (total, bc') /\ bc_ok tb bc' /\
    0 <= total <= 0x4000 + 15 /\ bc_generation bc' <= bc_generation bc + 0x4000 + 1) as Hb.
  { intros bc s r1 s1 Hs Hbc Hg1 Hr.
    exact (run_blocks_ret tb bc 0x4000 s r1 s1 Htb Hs Hbc ltac:(lia) ltac:(vm_compute; reflexivity) Hg1 Hr). }
  destruct (work_running_core tb Hb m Hok Hg Ht) as [H1 H2]. clear Hb Htb. split; [exact H1|]. split; [exact H2|].
  split; [|split].
  - intros d p vs E. unfold tick_all. rewrite E. eexists. split; [reflexivity|]. cbn [set_devices mc_pf mc_harts].
    split; [done|]. split; [done|]. split; [|split; [apply length_imap|done]].
    intros j h v Hj Hv. by rewrite list_lookup_imap, Hj, Hv.
  - intros Ha Hd. unfold tick_all, i2c_tick. i2c_unfold. rewrite Ha. cbn [negb].
    rewrite (proj2 (Z.ltb_lt _ RUN_DELAY)) by done. eexists. split; [reflexivity|]. by split.
  - intros Ha. unfold tick_all, i2c_tick. i2c_unfold. rewrite Ha. cbn [negb]. eexists. split; [reflexivity|].
    cbn. by destruct (mc_pf m).
Qed.

(** ** Reset *)

Lemma init_regs dtb_pos pc0 h : length (GPR h) = 32%nat ->
  let h' := init dtb_pos pc0 h in
  pc h' = pc0 /\ mode h' = Defs.Machine /\ gpr h' 10 = hid h /\ gpr h' 11 = dtb_pos /\ WFI h' = WFI h /\ tlb h' = tlb h /\ hid h' = hid h.
Proof.
  intros Hl. split; [done|]. split; [done|]. unfold gpr. cbn [init put_status set_status csr_put set_csrs put_gpr set_GPR set_mode set_pc GPR hid].
  split; [|split; [|done]].
  - apply nth_lookup_Some. rewrite list_lookup_insert_ne by done. apply list_lookup_insert_eq. rewrite Hl. cbn. lia.
  - apply nth_lookup_Some, list_lookup_insert_eq. rewrite length_insert, Hl. cbn. lia.
Qed.

(** Loading a raw image into RAM. *)
Lemma load_buffer_raw jo jc m i r off buf sz : regions m !! i = Some r -> ram_direct m = Some i -> base_addr r = RAM_BASE ->
  RAM_BASE + size r < 2 ^ 64 -> 0 <= off < size r -> 0 <= sz -> off + sz <= size r -> sz <= Z.of_nat (length buf) ->
  4 <= Z.of_nat (length buf) -> le_value (take 4 buf) <> ELF_MAGIC ->
  load_buffer jo jc m (RAM_BASE + off) buf sz =
    Ret (true, None, mkMemoryMap (<[i := with_data r (put_bytes (data r) off (take (Z.to_nat sz) buf))]> (regions m)) (ram_direct m)).
Proof.
  intros Hi Hd Hb Hs Hoff Hsz Hfit Hl H4 Hm. unfold load_buffer.
  rewrite (proj1 (slice_in buf 0 4 ltac:(lia) ltac:(lia) ltac:(lia))). cbn [mbind outcome_bind].
  change (Z.to_nat 0) with 0%nat. change (Z.to_nat 4) with 4%nat. rewrite drop_0, (proj2 (Z.eqb_neq _ _) Hm).
  unfold find_region. rewrite (proj2 (Z.leb_le RAM_BASE (RAM_BASE + off))) by lia. cbn [mbind outcome_bind].
  unfold deref. rewrite Hd. cbn [mbind option_bind]. rewrite Hi.
  cbn [mbind outcome_bind]. unfold ptr. rewrite Hb, uN_id by (unfold inw, RAM_BASE in *; lia).
  rewrite (proj2 (Z.ltb_ge _ RAM_BASE)), (proj2 (Z.leb_gt _ (RAM_BASE + off))) by lia. cbn [orb mbind outcome_bind].
  replace (RAM_BASE + off - RAM_BASE) with off by lia.
  destruct (slice_in buf 0 sz ltac:(lia) ltac:(lia) ltac:(lia)) as [-> Hlen].
  cbn [mbind outcome_bind]. change (Z.to_nat 0) with 0%nat in *. rewrite drop_0 in *.
  rewrite copy_in_ok by lia. cbn [mbind outcome_bind set_region snd]. by rewrite <- Hd.
Qed.

Lemma le_magic_fdt t boot post : le_value (take 4 (blob t boot ++ post)) <> ELF_MAGIC.
Proof. done. Qed.

(** The bytes of a region from [off] on. *)
Definition region_bytes (r : MemoryRegion) (off n : Z) : list Z := (fun k => byte_at (data r) (off + Z.of_nat k)) <$> seq 0 (Z.to_nat n).

Lemma region_bytes_put r d off bs : region_bytes (with_data r (put_bytes d off bs)) off (Z.of_nat (length bs)) = bs.
Proof.
  apply list_eq. intros k. unfold region_bytes. rewrite list_lookup_fmap, Nat2Z.id. cbn [with_data data].
  destruct (decide (k < length bs)%nat) as [Hk|Hk].
  - rewrite (proj2 (lookup_seq 0 (length bs) k k) ltac:(lia)). cbn. rewrite put_bytes_at.
    rewrite (proj2 (Z.leb_le _ _)), (proj2 (Z.ltb_lt _ _)) by lia. cbn [andb]. replace (off + Z.of_nat k - off) with (Z.of_nat k) by lia.
    rewrite Nat2Z.id. destruct (lookup_lt_is_Some_2 bs k Hk) as [b Hbk]. by rewrite Hbk, (nth_lookup_Some bs k 0 b Hbk).
  - rewrite lookup_seq_ge by lia. symmetry. apply lookup_ge_None. lia.
Qed.

(** ** What a reset leaves in memory *)

(** Images by their offset in RAM, later ones over earlier ones and all of
    them over zeros. *)
Definition layered (l : list (Z * list Z)) (x : Z) : Z :=
  foldl (fun v '(off, bs) => if (off <=? x) && (x <? off + Z.of_nat (length bs)) then nth (Z.to_nat (x - off)) bs 0 else v) 0 l.

(** A raw image that fits; at least three bytes and the NUL behind them are
    read as its magic number. *)
Definition raw_fits (sz : Z) (l : Z * list Z) : Prop :=
  0 <= l.1 /\ l.1 + Z.of_nat (length l.2) <= sz /\ 3 <= Z.of_nat (length l.2) /\
  le_value (take 4 (l.2 ++ [0])) <> ELF_MAGIC.

(** The device tree the machine boots with: none, the bytes of a file, or the
    blob of the tree it generated, which is on the heap. *)
Definition boot_fdt (cfg : Config) (fdt : option (list Z)) : Prop :=
  match dtb cfg with
  | Some bytes => fdt = Some bytes
  | None =>
      if cfg_init_fdt cfg
      then exists w v t, fdt = Some (blob t 0) /\ fdt_root cfg = Some w /\ wraps (fdt_heap cfg) !! w = Some v /\
        tree_of (heap_fuel (fdt_heap cfg)) (fdt_heap cfg) (w_node v) = Some t /\ tree_ok t = true /\ blob_size t < 2 ^ 32
      else fdt = None
  end.

Definition boot_layers (cfg : Config) (sz : Z) (fdt : option (list Z)) : list (Z * list Z) :=
  from_option (fun b => [(0, b)]) [] (bios cfg) ++
  from_option (fun k => [(0x200000, k)]) [] (kernel cfg) ++
  from_option (fun b => [(sz - 0x20000, b)]) [] fdt.

Section layers.
Context (m : MemoryMap) (i : nat) (r : MemoryRegion).
Hypothesis (Hd : ram_direct m = Some i) (Hi : (i < length (regions m))%nat).
Hypothesis (Hb : base_addr r = RAM_BASE) (Hs : RAM_BASE + size r < 2 ^ 64).

(** The memory map with [d] as the contents of RAM. *)
Definition ram_with (d : gmap Z Z) : MemoryMap := mkMemoryMap (<[i := with_data r d]> (regions m)) (ram_direct m).

Lemma load_buffer_layer jo jc d off bs buf : raw_fits (size r) (off, bs) -> buf = bs ++ [0] \/ buf = bs /\ 4 <= Z.of_nat (length bs) ->
  load_buffer jo jc (ram_with d) (RAM_BASE + off) buf (Z.of_nat (length bs)) = Ret (true, None, ram_with (put_bytes d off bs)).
Proof.
  intros (H0 & H1 & H2 & H3) Hbuf. cbn [fst snd] in *.
  assert (take (length bs) buf = bs /\ 4 <= Z.of_nat (length buf) /\ Z.of_nat (length bs) <= Z.of_nat (length buf) /\
    le_value (take 4 buf) <> ELF_MAGIC) as (Ht & Hl4 & Hl & Hm).
  { destruct Hbuf as [->|[-> Hl4]].
    - rewrite take_app_length, length_app. cbn [length]. split_and!; [done|lia..|done].
    - rewrite firstn_all. split_and!; [done|lia..|]. rewrite take_app_le in H3 by lia. done. }
  rewrite (load_buffer_raw _ _ _ i (with_data r d)); try done; try (cbn [with_data size]; lia).
  - rewrite Nat2Z.id, Ht. unfold ram_with. cbn [regions ram_direct with_data data base_addr size].
    by rewrite list_insert_insert_eq.
  - cbn [ram_with regions]. by rewrite list_lookup_insert_eq.
Qed.

Lemma load_image_layer cfg d off image :
  (forall bs, image = Some bs -> raw_fits (size r) (off, bs)) ->
  load_image cfg (RAM_BASE + off) image (ram_with d) =
    Ret (ram_with (foldl (fun d '(off, bs) => put_bytes d off bs) d (from_option (fun b => [(off, b)]) [] image))).
Proof.
  intros Hf. unfold load_image. destruct image as [bs|]; [|done].
  rewrite load_buffer_layer by (by auto). done.
Qed.

Lemma write_fdt_layer cfg d fdt : boot_fdt cfg fdt -> (forall n, 0 <= n -> Z.of_nat (length (junk_buf cfg n)) = n) ->
  (forall bs, fdt = Some bs -> raw_fits (size r) (size r - 0x20000, bs)) ->
  write_fdt cfg (size r) (ram_with d) =
    Ret (ram_with (foldl (fun d '(off, bs) => put_bytes d off bs) d (from_option (fun b => [(size r - 0x20000, b)]) [] fdt))).
Proof.
  intros Hfdt Hj Hf. unfold write_fdt, boot_fdt in *.
  assert (0 <= size r - 0x20000 -> dtb_addr (size r) = RAM_BASE + (size r - 0x20000)) as Ha.
  { intros. unfold dtb_addr, RAM_BASE in *. rewrite uN_id by (unfold inw; lia). lia. }
  destruct (dtb cfg) as [bytes|].
  - subst fdt. destruct (Hf bytes eq_refl) as [H0 _]. rewrite Ha by exact H0. by apply (load_image_layer cfg d _ (Some bytes)).
  - destruct (cfg_init_fdt cfg); [|by subst fdt]. destruct Hfdt as (w & v & t & -> & Hw & Hv & Ht & Hok & Hbs).
    destruct (Hf _ eq_refl) as [H0 _]. rewrite Ha by exact H0. cbn [negb]. rewrite Hw.
    pose proof (blob_len t 0) as Hlen. assert (0 <= blob_size t) by (rewrite <- Hlen; lia).
    unfold fdt_size, fdt_serialize. rewrite Hv, (size_of_tree_ok _ _ t) by (done || lia).
    cbn [mbind outcome_bind]. rewrite (serialize_ok _ _ t) by (try done; rewrite ?Hj; lia). rewrite Z.ltb_irrefl. cbn [mbind outcome_bind].
    replace (drop _ (junk_buf cfg (blob_size t))) with (@nil Z) by (symmetry; apply drop_ge; pose proof (Hj (blob_size t)); lia).
    rewrite app_nil_r. cbn [from_option id]. rewrite <- Hlen.
    rewrite load_buffer_layer; [done|by apply Hf|right; split; [done|]]. rewrite Hlen. unfold blob_size. lia.
Qed.

Lemma layered_data l : forall d x v, byte_at d x = v ->
  byte_at (foldl (fun d '(off, bs) => put_bytes d off bs) d l) x =
  foldl (fun v '(off, bs) => if (off <=? x) && (x <? off + Z.of_nat (length bs)) then nth (Z.to_nat (x - off)) bs 0 else v) v l.
Proof.
  induction l as [|[off bs] l IH]; intros d x v Hv; [done|]. cbn [foldl]. apply IH. rewrite put_bytes_at.
  by destruct (_ && _)%bool.
Qed.
End layers.

(** C31: a resetting machine zeroes its memory and loads over it the firmware
    at the start of RAM, the kernel 2 MiB behind it and the device tree in
    front of the end of RAM, where each is configured: the tree is the bytes
    of a file, or else the blob of the one the machine generated, unless that
    is switched off, and a reader of that blob gets the tree back. The images
    are raw and fit in RAM; every other region is zero. The block cache is
    cleared and every hart restarts at the configured entry in machine mode
    with its number in a0, the address of the device tree in a1 and an empty
    TLB, whatever the memory of the new harts held; the machine then runs. *)
Theorem machine_resets tb cfg m i r fdt : m_state (pf_control (mc_pf m)) = Resetting ->
  regions (mc_mmap m) !! i = Some r -> ram_direct (mc_mmap m) = Some i -> base_addr r = RAM_BASE -> RAM_BASE + size r < 2 ^ 64 ->
  mc_memsize m = size r -> boot_fdt cfg fdt -> (forall n, 0 <= n -> Z.of_nat (length (junk_buf cfg n)) = n) ->
  Forall (raw_fits (size r)) (boot_layers cfg (size r) fdt) ->
  (forall j, length (GPR (junk_hart cfg j)) = 32%nat) ->
  exists m', work_pass tb cfg m = Ret (true, m') /\ m_state (pf_control (mc_pf m')) = Running /\
    (exists r', regions (mc_mmap m') !! i = Some r' /\ base_addr r' = RAM_BASE /\ size r' = size r /\
       (forall x, byte_at (data r') x = layered (boot_layers cfg (size r) fdt) x) /\
       (dtb cfg = None -> cfg_init_fdt cfg = true -> forall w v t, fdt_root cfg = Some w -> wraps (fdt_heap cfg) !! w = Some v ->
          tree_of (heap_fuel (fdt_heap cfg)) (fdt_heap cfg) (w_node v) = Some t ->
          read_blob (region_bytes r' (size r - 0x20000) (blob_size t)) = Some t)) /\
    (forall j q, j <> i -> regions (mc_mmap m) !! j = Some q -> regions (mc_mmap m') !! j = Some (new_region (base_addr q) (size q))) /\
    mc_bc m' = bc_clear (mc_bc m) /\
    length (mc_harts m') = hart_count cfg /\
    forall j h, mc_harts m' !! j = Some h -> pc h = entry_pc cfg /\ mode h = Defs.Machine /\ gpr h 10 = Z.of_nat j /\
      gpr h 11 = u64 (RAM_BASE + size r - 0x20000) /\ WFI h = false /\ tlb h = tlb_init.
Proof.
  intros Hst Hi Hd Hb Hs Hms Hfdt Hjb Hfit Hj. unfold work_pass. cbv [mbind ST_bind gets mret ST_ret]. rewrite Hst.
  unfold work_resetting. rewrite Hms.
  set (m0 := reset_memory (mc_mmap m)).
  assert (i < length (regions m0))%nat as Hlt by (cbn [m0 reset_memory regions]; rewrite length_fmap; by apply lookup_lt_Some in Hi).
  assert (m0 = ram_with m0 i r ∅) as E0.
  { unfold ram_with. rewrite list_insert_id; [by destruct m0|]. cbn [m0 reset_memory regions]. by rewrite list_lookup_fmap, Hi. }
  unfold boot_layers in Hfit. apply Forall_app in Hfit as [Hf1 [Hf2 Hf3]%Forall_app].
  rewrite E0. change 0x80000000 with (RAM_BASE + 0). change 0x80200000 with (RAM_BASE + 0x200000).
  rewrite (load_image_layer m0 i r Hd Hlt Hb Hs) by (intros bs E; rewrite E in Hf1; by apply List.Forall_cons_iff in Hf1 as [? _]).
  cbn [mbind outcome_bind].
  rewrite (load_image_layer m0 i r Hd Hlt Hb Hs) by (intros bs E; rewrite E in Hf2; by apply List.Forall_cons_iff in Hf2 as [? _]).
  cbn [mbind outcome_bind].
  rewrite (write_fdt_layer m0 i r Hd Hlt Hb Hs cfg _ fdt Hfdt Hjb) by (intros bs E; rewrite E in Hf3; by apply List.Forall_cons_iff in Hf3 as [? _]).
  cbn [mbind outcome_bind]. rewrite <- !foldl_app. set (d := foldl _ ∅ _).
  eexists. split; [reflexivity|]. split; [done|]. split.
  - exists (with_data r d). cbn [mc_mmap ram_with regions]. split; [by apply list_lookup_insert_eq|]. split; [done|]. split; [done|]. split.
    + intros x. cbn [with_data data]. unfold d, layered, boot_layers. rewrite app_assoc. apply layered_data.
      unfold byte_at. by rewrite lookup_empty.
    + intros Hdtb Hini w v t Hw Hv Ht. unfold boot_fdt in Hfdt. rewrite Hdtb, Hini in Hfdt.
      destruct Hfdt as (w' & v' & t' & -> & Hw' & Hv' & Ht' & Hok & Hbs). simplify_eq.
      unfold d. rewrite !foldl_app. cbn [from_option foldl].
      rewrite <- (blob_len t' 0) at 1. rewrite region_bytes_put, <- (app_nil_r (blob t' 0)). by apply read_blob_ok.
  - split; [|split; [done|]].
    + intros j q Hne Hq. cbn [mc_mmap ram_with regions]. rewrite list_lookup_insert_ne by done.
      cbn [m0 reset_memory regions]. by rewrite list_lookup_fmap, Hq.
    + cbn [mc_harts]. unfold reset_harts. split; [by rewrite length_fmap, length_seq|]. intros j h Hh.
      rewrite list_lookup_fmap in Hh. destruct (seq 0 (hart_count cfg) !! j) as [k|] eqn:E; [|done]. injection Hh as <-.
      apply lookup_seq in E as [-> _]. cbn [Nat.add].
      destruct (init_regs (dtb_addr (size r)) (entry_pc cfg) (hart_new (junk_hart cfg j) (Z.of_nat j) (size r)) (Hj j))
        as (? & ? & ? & ? & ? & ? & _). done.
Qed.
