(* ===== verification/Witnesses.v ===== *)
(** * Concrete instances

    A small machine (64 KiB of RAM, no devices) and, for each theorem with
    hypotheses, an instance of it at concrete values. *)

From Stdlib Require Import Strings.String.
From S2P Require Import Prelude Defs Fdt FdtBlob FdtForest DeviceTree.
From S2P Require Import MemoryMap SelfMod Tlb Decode Lut Hart State Mmu Mmio.
From S2P Require Import Rv64i Rv64m Rv64a Rv64c Zb Float FloatLemmas Rv64f Rv64d FloatSpec Priv Zicsr Isa Exec Precise.
From S2P Require Import Counters Block Device Plic Uart Clint I2c Virtio VirtioSpec Syscon Platform Gdb GdbSpec Elf Machine.

(** ** The machine *)

Definition RAM_SIZE : Z := 0x10000.
Definition mem0 : MemoryMap := add_region mmap_empty RAM_BASE RAM_SIZE.

Definition hart0 : Hart :=
  mkHart 0 (replicate 32 0) (replicate 32 0) 0 Machine 0 0 0 0 0 0 0 0 0 false ∅
    (mkRes 0 0 false) RAM_SIZE tlb_init.

(** The hart after [init], about to run at the start of RAM. *)
Definition hart1 : Hart := init 0x8000F000 RAM_BASE hart0.

Definition state_of (h : Hart) (m : MemoryMap) : State unit := mkState h m smc_init dec_init RAM_SIZE tt.
Definition s0 : State unit := state_of hart1 mem0.

(** The same machine in supervisor mode under Sv39: the root table at
    [0x80001000] has one gigapage that maps addresses from 0 to RAM. *)
Definition root_pte : Z := Z.lor (Z.shiftl (RAM_BASE / 4096) 10) 0xCF.
Definition mem1 : MemoryMap :=
  match store mem0 (RAM_BASE + 0x1000) 64 root_pte with Ret m => m | _ => mem0 end.
Definition hart2 : Hart := set_mode Supervisor (set_satp (Z.lor (Z.shiftl 8 60) 0x80001) hart1).
Definition s1 : State unit := state_of hart2 mem1.

Lemma hart0_wf : hart_wf hart0.
Proof.
  constructor.
  16: { intros n v. cbn [csrs hart0]. by rewrite lookup_empty. }
  17: apply tlb_ok_init.
  all: apply (bool_decide_eq_true_1 _); vm_compute; reflexivity.
Qed.

Lemma hart1_wf : hart_wf hart1.
Proof.
  unfold hart1, init. cbv zeta. pose proof hart0_wf.
  repeat first [apply put_status_wf; [|reflexivity] | apply csr_put_wf | apply put_gpr_wf | apply set_mode_wf
    | apply set_pc_wf]; try assumption; apply (bool_decide_eq_true_1 _); vm_compute; reflexivity.
Qed.

Lemma hart2_wf : hart_wf hart2.
Proof. apply set_mode_wf, set_satp_wf; [exact hart1_wf|]. apply (bool_decide_eq_true_1 _). vm_compute. reflexivity. Qed.

Lemma mem0_wf : wf_mmap mem0.
Proof.
  split; [|vm_compute; lia]. apply List.Forall_cons; [|apply List.Forall_nil].
  split; [|split]; [apply (bool_decide_eq_true_1 _); vm_compute; reflexivity..|].
  intros i. unfold byte_at. cbn [data new_region]. rewrite lookup_empty. by apply inw_0.
Qed.

Lemma store_wf m addr sz v m' : wf_mmap m -> bad_size sz = false -> store m addr sz v = Ret m' -> wf_mmap m'.
Proof.
  intros Hm Hsz Hs. apply store_ret in Hs as (i & r & r' & _ & _ & _ & Hr & Hw & ->); [|done..].
  apply set_region_wf; [done|]. by eapply reg_write_wf.
Qed.

Lemma mem1_wf : wf_mmap mem1.
Proof. apply (store_wf mem0 (RAM_BASE + 0x1000) 64 root_pte); [exact mem0_wf|reflexivity|vm_compute; reflexivity]. Qed.

Lemma s0_dram : dram_ok s0.
Proof.
  split; [exact mem0_wf|]. split; [vm_compute; discriminate|].
  eexists _, _. split; [reflexivity|]. split; [reflexivity|]. split; reflexivity.
Qed.

Lemma s1_dram : dram_ok s1.
Proof.
  split; [exact mem1_wf|]. split; [vm_compute; discriminate|].
  exists 0%nat. eexists. split; [vm_compute; reflexivity|]. split; [vm_compute; reflexivity|]. split; reflexivity.
Qed.

Lemma s0_wf : st_wf s0.
Proof. split; [exact hart1_wf|exact mem0_wf]. Qed.

Lemma s1_wf : st_wf s1.
Proof. split; [exact hart2_wf|exact mem1_wf]. Qed.

(** Evaluate a closed decidable fact. *)
Ltac evals := first [vm_compute; reflexivity | vm_compute; discriminate
                   | apply (bool_decide_eq_true_1 _); vm_compute; reflexivity].

(** The state of a successful run. *)
Definition state_after {A} (m : M unit A) (s : State unit) : State unit :=
  match m s with Ret (_, s') => s' | _ => s end.

(** ** Memory *)

Lemma load_store_witness : exists m,
  store mem0 (RAM_BASE + 4) 32 0x1DEADBEEF = Ret m /\ load m (RAM_BASE + 4) 32 = Ret 0xDEADBEEF /\
  load m RAM_BASE 32 = load mem0 RAM_BASE 32.
Proof.
  exists (match store mem0 (RAM_BASE + 4) 32 0x1DEADBEEF with Ret m => m | _ => mem0 end).
  split; [evals|].
  destruct (load_store mem0 (RAM_BASE + 4) 32 0x1DEADBEEF _ mem0_wf ltac:(evals) ltac:(evals) ltac:(vm_compute; reflexivity)) as (_ & H1 & H2).
  split; [exact H1|]. apply H2; evals.
Defined.

(** ** TLB *)

Lemma tlb_insert_lookup_witness :
  tlb_lookup (tlb_insert tlb_init smc_init 0x1000 0x80002000 12 63 0 false None) 0x1234 LOAD 0 User false false
  = Some 0x80002234.
Proof.
  rewrite (tlb_insert_lookup tlb_init smc_init 0x1000 0x80002000 12 63 0 false None 0x1234 LOAD 0 User false false);
    evals.
Defined.

Definition tlb1 : TLB := tlb_insert tlb_init smc_init 0x1000 0x80002000 12 63 0 false None.

Lemma tlb1_wf : tlb_wf tlb1.
Proof. apply tlb_wf_insert, tlb_wf_init. Qed.

Lemma tlb_flush_correct_witness : tlb_lookup (flush_addr tlb1 0x1000) 0x1000 LOAD 0 User false false = None.
Proof. destruct (tlb_flush_correct tlb1 0x1000 0 LOAD User false false tlb1_wf) as (_ & H & _). exact H. Defined.

(** ** Decoding *)

Definition nop_table : DecTable := mkTable [] [] (mkLuts ∅ ∅).

Lemma decode_inst_transparent_witness :
  let '(e, c) := decode_inst nop_table 0 dec_init RAM_BASE 0x13 in
  (ic_inst e, ic_data e) = pure_decode nop_table 0x13 /\
  (ic_pc e = 0 <-> decode_match nop_table 0x13 = None) /\ cache_ok nop_table c.
Proof. refine (decode_inst_transparent nop_table 0 dec_init RAM_BASE 0x13 (cache_ok_init _) _). evals. Defined.

(** ** Translation and memory accesses *)

Lemma s1_walks : Arch.walks (mmap s1) 0x2008 2 (satp (hart s1) mod 2 ^ 44 * 4096)
  (Ret (Some (RAM_BASE + 0x1000, root_pte, 2%nat))).
Proof.
  apply Arch.walks_leaf; [vm_compute; reflexivity| |left; vm_compute; reflexivity].
  intros [H|[H _]]; vm_compute in H; discriminate H.
Qed.

Lemma sv39_translate_witness : exists s' m p',
  translate_impl STORE 0x2008 s1 = Ret ((mem_ok, 0x80002008), s') /\
  pte_fetch m (RAM_BASE + 0x1000) = Ret p' /\ Arch.accessed STORE root_pte p'.
Proof.
  destruct (sv39_translate s1 STORE 0x2008 mem1_wf ltac:(evals)) as (_ & _ & H).
  assert (Arch.canonical 0x2008) as Hcan by (left; vm_compute; reflexivity).
  destruct (H Hcan) as (w & Hw & Hc).
  rewrite (walks_det _ _ _ _ _ _ Hw s1_walks) in Hc. destruct Hc as [_ Hc].
  destruct Hc as (s' & p' & t & m & Ht & _ & _ & _ & Hp & _ & Hf & _).
  - split; [evals|]. split; [intros E; vm_compute in E; discriminate E|].
    split; [intros _ E; vm_compute in E; discriminate E|evals].
  - exists s', m, p'. split; [exact Ht|]. split; [exact Hf|exact Hp].
Defined.

Lemma translate_again_witness : exists s',
  translate STORE 0x2008 s1 = Ret ((mem_ok, 0x80002008), s') /\
  translate STORE 0x2008 s' = Ret ((mem_ok, 0x80002008), s').
Proof.
  exists (state_after (translate STORE 0x2008) s1). split; [evals|].
  refine (translate_again s1 _ STORE 0x2008 0x80002008 mem1_wf _ _ _ _ _); evals.
Defined.

Lemma write_dram_witness : exists s',
  write 0x2008 Long 0x1122334455667788 false s1 = Ret (mem_ok, s') /\
  phys_read 0x80002008 Long s' = Ret (Some 0x1122334455667788, s').
Proof.
  destruct (write_dram s1 (state_after (translate STORE 0x2008) s1) 0x2008 Long 0x1122334455667788
    false 0x80002008 s1_dram
    ltac:(evals) ltac:(evals) ltac:(evals) ltac:(evals) ltac:(evals)) as (s' & Hw & _ & Hr & _).
  exists s'. split; [exact Hw|exact Hr].
Defined.

Lemma write_crossing_witness :
  (exists s' v1 v2, write 0x2FFE Int 0xAABBCCDD false s1 = Ret (mem_ok, s') /\
    dram s' 0x80002FFE 2 = Ret v1 /\ dram s' 0x80003000 2 = Ret v2 /\ Z.lor v1 (Z.shiftl v2 16) = 0xAABBCCDD) /\
  (exists s', write 0x2FFD Long 0x1122334455667788 false s1 = Ret (mem_ok, s') /\ dram s' 0x80002FFD 1 = Ret 0).
Proof.
  split.
  - pose (t1 := state_after (translate STORE 0x2FFE) s1). pose (t2 := state_after (translate STORE 0x3000) t1).
    destruct (write_crossing s1 t1 t2 0x2FFE Int 0xAABBCCDD 0x80002FFE 0x80003000 s1_dram
      ltac:(evals) ltac:(evals) ltac:(evals) ltac:(evals) ltac:(evals) ltac:(evals) ltac:(evals)) as [H _].
    destruct (H ltac:(evals) ltac:(evals) ltac:(evals)) as (s' & v1 & v2 & Hw & _ & H1 & H2 & Hj & _).
    exists s', v1, v2. split; [exact Hw|]. split; [exact H1|]. split; [exact H2|exact Hj].
  - pose (t1 := state_after (translate STORE 0x2FFD) s1). pose (t2 := state_after (translate STORE 0x3000) t1).
    destruct (write_crossing s1 t1 t2 0x2FFD Long 0x1122334455667788 0x80002FFD 0x80003000 s1_dram
      ltac:(evals) ltac:(evals) ltac:(evals) ltac:(evals) ltac:(evals) ltac:(evals) ltac:(evals)) as [_ H].
    destruct (H ltac:(evals) ltac:(evals)) as (s' & Hw & Hm).
    exists s'. split; [exact Hw|]. unfold dram. rewrite Hm. evals.
Defined.

(** ** Traps and interrupts *)

Lemma trap_entry_witness : exists h', trap EXC_ILLEGAL_INSTRUCTION 0 false hart1 = Ret (tt, h') /\
  mode h' = Machine /\ csr_get h' CSR_MEPC = RAM_BASE.
Proof.
  destruct (trap_entry hart1 EXC_ILLEGAL_INSTRUCTION 0 false hart1_wf ltac:(evals) ltac:(evals))
    as (h' & Ht & Hm & _ & Hepc & _).
  exists h'. split; [exact Ht|]. split; [exact Hm|exact Hepc].
Defined.

(** A hart with the machine timer interrupt pending and enabled. *)
Definition hart_irq : Hart := put_status Status.MIE 1 (set_ie 0x80 (set_ip 0x80 hart1)).

Lemma hart_irq_wf : hart_wf hart_irq.
Proof.
  apply put_status_wf; [|reflexivity]. apply set_ie_wf; [apply set_ip_wf; [exact hart1_wf|]|];
    apply (bool_decide_eq_true_1 _); vm_compute; reflexivity.
Qed.

Lemma check_ints_spec_witness : exists i h', check_ints hart_irq = Ret (true, h') /\
  trap i 0 true hart_irq = Ret (tt, h') /\ takes_int hart_irq i = true.
Proof.
  destruct (check_ints_spec hart_irq hart_irq_wf ltac:(evals)) as [_ H].
  destruct (H 7 ltac:(evals) ltac:(evals)) as (i & h' & Hc & Ht & _ & Hi & _).
  exists i, h'. split; [exact Hc|]. split; [exact Ht|exact Hi].
Defined.

(** ** Arithmetic *)

Lemma rv64i_ops_witness : s64 (op_ADDW 0x7FFFFFFF 1) = - 2 ^ 31 /\ op_SLTU 0x7FFFFFFF 1 = 0.
Proof.
  destruct (rv64i_ops 0x7FFFFFFF 1 0 ltac:(evals) ltac:(evals) ltac:(lia))
    as (_ & (H & _) & _ & _ & _ & H' & _).
  rewrite H. split; [evals|]. apply H'. lia.
Defined.

Lemma rv64m_ops_witness : s64 (op_MULH (2 ^ 63) (2 ^ 64 - 1)) = 0 /\ s64 (op_DIV (2 ^ 63) (2 ^ 64 - 1)) = - 2 ^ 63.
Proof.
  destruct (rv64m_ops (2 ^ 63) (2 ^ 64 - 1) ltac:(evals) ltac:(evals)) as [(_ & H & _) [H' _]].
  rewrite H, H'. split; evals.
Defined.

Lemma zb_bits_witness : op_CLZ 0x8000 = 48 /\ op_ROL 0x8000 64 = Undef /\ exists r, op_ROL 0x8000 4 = Ret r /\ Z.testbit r 19 = true.
Proof.
  split; [exact (proj1 (proj1 (zb_bits 0x8000 64 ltac:(evals))))|].
  split; [exact (proj1 (proj2 (proj2 (zb_bits 0x8000 64 ltac:(evals)))))|].
  destruct (proj1 (proj2 (proj2 (zb_bits 0x8000 4 ltac:(evals))))) as (r & Hr & _ & Hb). exists r. split; [exact Hr|].
  rewrite Hb by lia. evals.
Defined.

(** ** Atomics *)

Lemma reservations_witness :
  (exists v, AMO_LR 0x2000 Long s1 = Ret ((mem_ok, v),
     let t := state_after (translate LOAD 0x2000) s1 in set_hart (set_reservation (mkRes 0x80002000 Long true) (hart t)) t)) /\
  (exists s', AMO_SC 0x2000 Long 5 s1 = Ret ((mem_ok, 1), s')).
Proof.
  split.
  - destruct (reservations s1 (state_after (translate LOAD 0x2000) s1) 0x2000 Long 0x80002000 0 s1_dram
      ltac:(evals) ltac:(evals) ltac:(evals)) as [H _].
    destruct (H ltac:(evals)) as (v & _ & Hv). exists v. exact Hv.
  - destruct (reservations s1 (state_after (translate STORE 0x2000) s1) 0x2000 Long 0x80002000 5 s1_dram
      ltac:(evals) ltac:(evals) ltac:(evals)) as [_ H].
    destruct (proj2 (H ltac:(evals)) ltac:(left; reflexivity)) as (s' & Hs & _). exists s'. exact Hs.
Defined.

Definition s_res : State unit := state_of (set_reservation (mkRes 0x80002000 Long true) hart1) mem0.

Lemma s_res_dram : dram_ok s_res.
Proof. exact s0_dram. Qed.

(** A store to the second word of a reserved double word keeps the reservation. *)
Lemma store_and_reservation_witness : exists s',
  write 0x80002004 Int 1 true s_res = Ret (mem_ok, s') /\ valid (reservation (hart s')) = true.
Proof.
  destruct (store_and_reservation s_res 0x80002004 Int 1 s_res_dram ltac:(evals) ltac:(evals)
    ltac:(evals) ltac:(evals) ltac:(evals)) as (s' & Hw & Hv).
  exists s'. split; [exact Hw|]. rewrite Hv. evals.
Defined.

(** ** Floating point *)

(** 1.0, 2.0 and 2.5 as doubles and as boxed singles, and the single NaN. *)
Definition hart_fp : Hart :=
  put_fpr 5 (f32_out 0x40200000) (put_fpr 4 (f32_out 0x7F800001) (put_fpr 2 0x4000000000000000 (put_fpr 1 0x3FF0000000000000 hart1))).
Definition s_fp : State unit := state_of hart_fp mem0.
Definition env_fp : Fenv := mkFenv FE_UPWARD no_exc.
Definition fops (md r1 r2 rd_ : Z) : InstructionData := mkData 0 md r1 r2 rd_ 0x53 0 4.



Lemma float_forms_witness : exists s', exec_FCLASS_S (fops 0 4 0 6) (env_fp, s_fp) = Ret (exec_ok, (env_fp, s')) /\ gpr (hart s') 6 = 2 ^ 8.
Proof.
  assert (hart_wf hart_fp) as Hw by (unfold hart_fp; pose proof hart1_wf; repeat (apply put_fpr_wf; [|apply (bool_decide_eq_true_1 _); vm_compute; reflexivity]); assumption).
  destruct (float_forms (fops 0 4 0 6) (fops 0 6 0 7) env_fp s_fp Hw ltac:(cbn; lia) eq_refl) as (_ & _ & _ & _ & H & _).
  eexists. split; [exact H|]. vm_compute. reflexivity.
Defined.

(** ** Privileged instructions and CSRs *)

(** Operands of an instruction with the given [rs1], [rd] and immediate. *)
Definition ops (r1 rd_ imm_ : Z) : InstructionData := mkData 0 0 r1 0 rd_ 0x73 imm_ 4.

Lemma trap_return_witness : exists h1 s', trap EXC_BREAKPOINT 0 false hart1 = Ret (tt, h1) /\
  exec_MRET (ops 0 0 0) (set_hart h1 s0) = Ret (exec_jump, s') /\ pc (hart s') = RAM_BASE /\ mode (hart s') = Machine.
Proof.
  assert (trap_target hart1 EXC_BREAKPOINT false = Machine) as Hm by evals.
  pose proof (trap_return (ops 0 0 0) s0 EXC_BREAKPOINT 0 false _ hart1_wf ltac:(evals) ltac:(evals)
    (trap_enter hart1 EXC_BREAKPOINT 0 false ltac:(evals))) as H.
  cbv zeta in H. change (hart s0) with hart1 in H. rewrite Hm in H.
  destruct (H ltac:(discriminate)) as (s' & Hr & Hpc & Hmode & _).
  eexists _, s'. split; [apply trap_enter; evals|]. rewrite Hm. split; [exact Hr|]. split; [exact Hpc|exact Hmode].
Defined.

Definition s_cbo : State unit := state_of (put_gpr 5 0x2010 hart2) mem1.

Lemma s_cbo_dram : dram_ok s_cbo.
Proof. exact s1_dram. Qed.

Lemma cbo_zero_block_witness : exists s', exec_cbo_zero (ops 5 0 0) s_cbo = Ret (exec_ok, s') /\
  dram s' 0x80002000 64 = Ret 0.
Proof.
  destruct (cbo_zero_block (ops 5 0 0) s_cbo (state_after (translate STORE 0x2000) s_cbo) 0x80002000
    s_cbo_dram ltac:(evals) ltac:(evals) ltac:(evals) ltac:(evals)) as [H _].
  destruct (H ltac:(evals)) as (s' & He & _ & _ & Hz & _). exists s'. split; [exact He|exact Hz].
Defined.

(** C.LI a0, 5. *)
Lemma compressed_expand_witness : let d := mkData 0 0 0 0 10 0x4515 5 2 in
  exec_C_LI d s0 = short (exec_ADDI (with_ops d 0 0 10 5)) s0.
Proof.
  intros d. pose proof (compressed_expand d s0) as H. cbv zeta in H.
  assert (inw 64 (imm d)) as Hi by evals.
  do 26 (destruct H as [_ H]). destruct (H hart1_wf eq_refl Hi) as (_ & Hli & _). exact Hli.
Defined.

Lemma csr_access_control_witness :
  exec_CSRRW (ops 0 1 CSR_MSTATUS) s1 = Ret (illegal (ops 0 1 CSR_MSTATUS), s1) /\
  exec_CSRRW (ops 10 5 CSR_MTVEC) s0 = Ret (exec_ok, csr_result s0 5 CSR_MTVEC 0 (Some 0)).
Proof.
  destruct (csr_access_control (ops 0 1 CSR_MSTATUS) s1 ltac:(evals) ltac:(evals)) as [H _].
  destruct (csr_access_control (ops 10 5 CSR_MTVEC) s0 ltac:(evals) ltac:(evals)) as (_ & _ & H').
  split; [exact H|]. destruct (H' ltac:(evals) ltac:(evals)) as [Hw _].
  exact (Hw ltac:(evals)).
Defined.

Lemma csr_views_witness : exists h', csr_write CSR_SIE 0xFFF hart1 = Ret (tt, h') /\
  csr_read CSR_SIE h' = Ret (0x222, h').
Proof.
  destruct (csr_views hart1 0xFFF hart1_wf ltac:(evals)) as (_ & (h' & Hw & Hr & _) & _).
  exists h'. split; [exact Hw|exact Hr].
Defined.

(** ** The interpreter *)

(** A 32-bit word that starts in the last two bytes of a page. *)
Definition cross_pc : Z := RAM_BASE + 0xFFE.
Definition mem2 : MemoryMap := match store mem0 cross_pc 32 0xABCD0073 with Ret m => m | _ => mem0 end.
Definition s2 : State unit := state_of hart1 mem2.

Lemma mem2_wf : wf_mmap mem2.
Proof. apply (store_wf mem0 cross_pc 32 0xABCD0073); [exact mem0_wf|reflexivity|vm_compute; reflexivity]. Qed.

Lemma s2_dram : dram_ok s2.
Proof.
  split; [exact mem2_wf|]. split; [vm_compute; discriminate|].
  exists 0%nat. eexists. split; [vm_compute; reflexivity|]. split; [vm_compute; reflexivity|]. split; reflexivity.
Qed.

Lemma fetch_correct_witness : exists s', fetchInstruction nop_table cross_pc s2 =
  Ret ((mkMem false EXC_ILLEGAL_INSTRUCTION 0xABCD0073, cross_pc, None), s').
Proof.
  pose (t1 := state_after (translate EXEC cross_pc) s2). pose (t2 := state_after (translate EXEC (u64 (cross_pc + 2))) t1).
  destruct (fetch_correct nop_table cross_pc s2 t1 mem_ok cross_pc
    (conj (conj hart1_wf mem2_wf) (cache_ok_init _)) s2_dram ltac:(evals) ltac:(evals) ltac:(evals) ltac:(evals))
    as (_ & _ & H).
  destruct (H ltac:(evals) ltac:(split; evals)) as (lo & Hlo & _ & _ & Hc).
  vm_compute in Hlo. injection Hlo as <-. specialize (Hc ltac:(evals) ltac:(evals)).
  replace (translate EXEC (u64 (cross_pc + 2)) t1) with (Ret ((mem_ok, RAM_BASE + 0x1000), t2)) in Hc
    by (vm_compute; reflexivity).
  destruct Hc as (_ & _ & Hc). destruct (Hc ltac:(evals) ltac:(split; evals)) as (hi & Hhi & s' & _ & _ & Hm).
  vm_compute in Hhi. injection Hhi as <-.
  assert (decode_match nop_table (115 + 2 ^ 16 * 43981) = None) as E.
  { unfold decode_match, lut_candidate. cbn [luts nop_table lut lut16]. rewrite !lookup_empty. by destruct (negb _). }
  rewrite E in Hm. exists s'. exact Hm.
Defined.

(** The emulator's own table, and the entry it gives an ECALL. *)
Lemma ecall_only : forallb (fun a => negb (Z.land 0x73 (p_mask a.2) =? p_match a.2) || Nat.eqb a.1 49)
  (imap pair isa_patterns) = true.
Proof. vm_compute. reflexivity. Qed.


Lemma ecall_table {B} `{BusOps B} : exists tb, init_all_instrs (B := B) = Some tb /\ decode_match tb 0x73 = Some 49%nat.
Proof.
  destruct (make_table_spec _ _ (patterns_parse (B := B)) patterns_ok) as (ls & Hi & Hs).
  eexists. split; [exact Hi|].
  pose proof (decode_match_best isa_patterns (i_imm <$> instructions (B := B)) ls patterns_ok
    patterns_class pairs_checked Hs 0x73) as Hb. clear Hi Hs.
  destruct (decode_match _ 0x73) as [k|].
  - destruct Hb as (p & Hp & Hm & _). pose proof ecall_only as He. rewrite forallb_forall in He.
    specialize (He _ (imap_pair_lookup _ _ _ Hp)). cbn [fst snd] in He.
    unfold matches in Hm. rewrite Hm, Z.eqb_refl in He. apply Nat.eqb_eq in He. by rewrite He.
  - exfalso. destruct (isa_patterns !! 49%nat) as [p|] eqn:E; [|vm_compute in E; discriminate].
    apply (Hb 49%nat p E). vm_compute in E. injection E as <-. reflexivity.
Qed.

Lemma word_73 : inw 32 0x73.
Proof. evals. Qed.

Lemma precise_traps_witness : exists tb e out s2 h', init_all_instrs (B := unit) = Some tb /\
  entry_ok tb 0x73 e /\ single_inst e s0 = Ret (out, s2) /\ er_success out = false /\
  retire out s2 = Ret (tt, set_hart h' s2) /\ csr_get h' CSR_MEPC = RAM_BASE.
Proof.
  destruct (ecall_table (B := unit)) as (tb & Hi & Hk).
  set (e := mkIC 1 (Some 49%nat) (decode_data 0x73 (imm_of tb 49 0x73)) 0 0).
  assert (entry_ok tb 0x73 e) as He.
  { unfold entry_ok, pure_decode. rewrite Hk. split; [reflexivity|]. split; discriminate. }
  assert (single_inst e s0 = Ret (mkExec false true 0 EXC_ENV_CALL_FROM_M 0, s0)) as Hr by (vm_compute; reflexivity).
  pose proof (precise_traps tb e 0x73 s0 s0 (mkExec false true 0 EXC_ENV_CALL_FROM_M 0) Hi word_73 He s0_wf Hr eq_refl) as H.
  cbv zeta in H. destruct H as (h' & H1 & _ & H2 & _).
  exists tb, e, (mkExec false true 0 EXC_ENV_CALL_FROM_M 0), s0, h'. split; [exact Hi|]. split; [exact He|]. split; [exact Hr|].
  split; [evals|]. split; [exact H1|]. exact H2.
Defined.

(** The machine waiting for an interrupt. *)
Definition s_wfi : State unit := state_of (set_WFI true hart1) mem0.

Lemma ticks_invariant_witness : exists tb s', ticks (B := unit) tb 3 s_wfi = Ret (tt, s') /\ inv tb s'.
Proof.
  destruct (ecall_table (B := unit)) as (tb & Hi & _).
  assert (exists s', ticks tb 3 s_wfi = Ret (tt, s')) as [s' Hr] by (eexists; vm_compute; reflexivity).
  assert (inv tb s_wfi) as Hs.
  { split; [split; [apply set_WFI_wf, hart1_wf|exact mem0_wf]|apply cache_ok_init]. }
  exists tb, s'. split; [exact Hr|]. exact (ticks_invariant tb 3 s_wfi s' Hi Hs Hr).
Defined.

Lemma fcsr_off_skips_vector_witness : exists s2 s3,
  exec_CSRRS (ops 0 5 CSR_FFLAGS) s0 = Ret (exec_ok, s2) /\ retire exec_ok s2 = Ret (tt, s3) /\ pc (hart s3) = 4.
Proof.
  destruct (fcsr_off_skips_vector (ops 0 5 CSR_FFLAGS) s0 ltac:(evals) ltac:(evals) ltac:(evals) ltac:(evals))
    as (s2 & s3 & H1 & H2 & _ & H3).
  exists s2, s3. split; [exact H1|]. split; [exact H2|]. rewrite H3. evals.
Defined.

(** ** Blocks *)

#[export] Instance no_devices_quiet : BusQuiet unit.
Proof. split; intros; apply csim_ret; reflexivity. Qed.

Lemma run_blocks_correct_witness : exists tb total bc' s',
  run_blocks (B := unit) tb bc_init 4 s_wfi = Ret (Some (total, bc'), s') /\ inv tb s' /\ 0 <= total <= 19.
Proof.
  destruct (ecall_table (B := unit)) as (tb & Hi & _).
  assert (exists r s', run_blocks tb bc_init 4 s_wfi = Ret (r, s')) as (r & s' & Hr) by (eexists _, _; vm_compute; reflexivity).
  assert (inv tb s_wfi) as Hs.
  { split; [split; [apply set_WFI_wf, hart1_wf|exact mem0_wf]|apply cache_ok_init]. }
  destruct (run_blocks_correct tb bc_init 4 s_wfi r s' Hi Hs (bc_ok_init tb) ltac:(evals) ltac:(evals) ltac:(evals) Hr)
    as (Hinv & total & bc' & He & _ & Ht).
  rewrite He in Hr. exists tb, total, bc', s'. split; [exact Hr|]. split; [exact Hinv|]. exact Ht.
Defined.

(** A block of one ECALL. *)
Definition ecall_block (d : InstructionData) : Block :=
  mkBlock RAM_BASE 1 0 1 0x73 (mkBI (Some 49%nat) d 4 :: replicate 15 (mkBI None (mkData 0 0 0 0 0 0 0 0) 0)).

Lemma ecall_block_ok tb : decode_match tb 0x73 = Some 49%nat ->
  block_ok tb (ecall_block (decode_data 0x73 (imm_of tb 49 0x73))) /\ no_csr (ecall_block (decode_data 0x73 (imm_of tb 49 0x73))).
Proof.
  intros Hk. split.
  - split; [split; evals|]. split; [reflexivity|]. intros j Hj. cbn [count ecall_block] in Hj. destruct j as [|j]; [|lia].
    eexists _, 0x73. split; [reflexivity|]. split; [|intros H; cbn [count ecall_block] in H; lia].
    split; [exact word_73|]. unfold pure_decode. rewrite Hk. split; [discriminate|]. split; reflexivity.
  - intros j bi k Hj Hlt. cbn [count ecall_block] in Hlt. destruct j as [|j]; [|lia]. injection Hj as <-. intros [= <-]. reflexivity.
Qed.

Lemma block_equiv_witness : exists b, step_entries (B := unit) (entries b) s0 =
  match block_step b s0 with
  | Ret (ok, s1) => Ret (ok, recount (if ok then cycle (hart s1) else u64 (cycle (hart s1) + 1)) (instret (hart s1)) s1)
  | Throw e => Throw e
  | Undef => Undef
  end /\ count b = 1.
Proof.
  destruct (ecall_table (B := unit)) as (tb & _ & Hk). destruct (ecall_block_ok tb Hk) as [Hb Hq].
  eexists. split; [exact (block_equiv tb _ s0 Hb Hq ltac:(evals))|reflexivity].
Defined.

(** ** Devices *)

Definition view0 : HartView := mkView 0 0 0 UINT64_MAX.

(** The controller of a machine with one hart, source 1 enabled in its
    machine context with priority 1, and pending. *)
Definition plic1 : PLIC :=
  let p := plic_init_auto 1 in
  mkPLIC (plic_start p) 64 2 2 2 2 (<[1%nat := 1]> (priorities p)) [0; 0]
    [mkCtx 0 [2; 0] 0 false false; mkCtx 0 [0; 0] 0 true false].

Lemma words_ok (l : list Z) : forallb (fun x => (0 <=? x) && (x <? 2 ^ 32)) l = true -> List.Forall (inw 32) l.
Proof. rewrite forallb_forall. intros H. apply List.Forall_forall. intros x Hx. specialize (H x Hx). bool_hyps. split; lia. Qed.

Lemma plic1_wf : plic_wf plic1.
Proof.
  split; [split; [evals|evals|evals|by apply words_ok]|evals..|].
  intros i c Hi. destruct i as [|[|i]]; [..|discriminate]; injection Hi as <-;
    (split; [split; [evals|evals|by apply words_ok]|split; reflexivity]).
Qed.

Lemma plic1_sync : sync plic1 [view0].
Proof.
  split; [evals|]. intros i c Hi. exists view0.
  destruct i as [|[|i]]; [..|discriminate]; injection Hi as <-; (split; [reflexivity|split; [evals|reflexivity]]).
Qed.

Lemma plic_lines_witness : exists p' vs', set_pending 1 true (plic1, [view0]) = Ret (tt, (p', vs')) /\
  bit_of (pending_words p') 1 = true.
Proof.
  destruct (plic_lines plic1 [view0] 1 true plic1_wf plic1_sync ltac:(split; evals) ltac:(evals)) as (p' & vs' & He & _ & _ & Hb & _).
  exists p', vs'. split; [exact He|]. rewrite Hb by lia. reflexivity.
Defined.

Lemma plic_claim_witness : complete_interrupt 0 64 (plic1, [view0]) = Undef /\
  exists r p' vs', claim_interrupt 0 (plic1, [view0]) = Ret (r, (p', vs')).
Proof.
  destruct (plic_claim plic1 [view0] 0 _ plic1_wf plic1_sync ltac:(reflexivity)) as [(r & p' & vs' & He & _) Hu].
  split; [apply Hu; evals|]. exists r, p', vs'. exact He.
Defined.

Definition uart1 : UART := uart_init_auto 1.

Lemma uart1_ok : uart_ok uart1.
Proof. split; [discriminate|reflexivity|reflexivity]. Qed.

Lemma uart1_ready : plic_ready (irq_num uart1) plic1 [view0].
Proof. split; [exact plic1_wf|]. split; [exact plic1_sync|]. split; [split; evals|evals]. Qed.

(** The FIFO is switched on, two bytes arrive, and one is read back. *)
Lemma uart_refines_witness : exists out u' p' vs',
  uart_run Byte [UWrite 0x10000002 1; URecv 65; URecv 66; URead 0x10000000] (uart1, plic1, [view0]) =
    Ret (out, (u', p', vs')) /\ queue (line_of u') = [66] /\ last out = Some 65.
Proof.
  destruct (uart_refines Byte [UWrite 0x10000002 1; URecv 65; URecv 66; URead 0x10000000] uart1 plic1 [view0] uart1_ok uart1_ready)
    as (out & u' & p' & vs' & He & _ & _ & Hr).
  exists out, u', p', vs'. split; [exact He|].
  destruct out as [|v1 [|v2 [|v3 [|v4 [|]]]]]; cbn [line_run] in Hr; [tauto|tauto|tauto|tauto| |tauto].
  destruct Hr as (_ & _ & _ & Hv & Hl). rewrite Hl. split; [vm_compute; reflexivity|].
  cbn [last]. f_equal. apply (proj1 Hv) with (q := [66]); vm_compute; reflexivity.
Defined.

Lemma timer_exact_witness : timer_clocksource 3600000000001 5000000 = 18000000000.
Proof. rewrite (proj1 (timer_exact 5000000 ltac:(evals) ltac:(evals))); evals. Defined.

(** A clock that advances one millisecond per reading. *)
Definition clock1 (n : nat) : Z := Z.of_nat n * 1000000.
Definition clint1 : CLINT := fst (clint_init_auto clock1 1 5000000 [view0]).

Lemma clint1_wf : clint_wf clint1 [view0].
Proof. split; [reflexivity|reflexivity|]. intros [|i] v Hi; [|discriminate]. injection Hi as <-. split; evals. Qed.

Lemma clint_write_spec_witness : exists c' vs', clint_write clock1 (c_start clint1 + 0) Int 1 (clint1, [view0]) = Ret (tt, (c', vs')) /\
  msip c' = [1].
Proof.
  destruct (clint_write_spec clock1 clint1 [view0] 0 Int 1 clint1_wf ltac:(evals) ltac:(evals) ltac:(cbn; lia) ltac:(evals) ltac:(evals))
    as [(c' & vs' & He & Hm & _) _].
  exists c', vs'. split; [exact He|exact Hm].
Defined.

(** An I2C master with a 16-byte slave at address 0x20. *)
Definition slave1 : Slave := slave_new 0x20 16 (replicate 16 0).
Definition i2c1 : I2C Slave := set_ctr 0xC0 (i2c_init_auto 1 [slave1]).

Lemma i2c_roundtrip_witness : exists d' p' vs', transfer 0x20 [1; 2; 3] (i2c1, plic1, [view0]) = Ret ([1; 2; 3], (d', p', vs')).
Proof.
  destruct (i2c_roundtrip i2c1 plic1 [view0] 0 slave1 [1; 2; 3]) as (d' & p' & vs' & _ & He & _).
  - split; [evals|]. split; evals.
  - exact uart1_ready.
  - split; evals.
  - reflexivity.
  - intros j s Hj. lia.
  - split; evals.
  - cbn. lia.
  - exists d', p', vs'. exact He.
Defined.

(** The whole platform, with one hart. *)
Definition pf1 : Platform :=
  mkPf clock1 plic1 uart1 clint1 syscon_init_auto (mkControl Running true) i2c1 0 [view0].
Definition s_pf : State Platform := mkState hart_irq mem0 smc_init dec_init RAM_SIZE pf1.

Lemma s_pf_clint : clint_wf (pf_clint (bus s_pf)) (live_views s_pf).
Proof. split; [reflexivity|reflexivity|]. intros [|i] v Hi; [|discriminate]. injection Hi as <-. split; evals. Qed.

Lemma timer_interrupt_witness : exists s', write 0x02004000 Long 0 true s_pf = Ret (mem_ok, s') /\ takes_int (hart s') 7 = true.
Proof.
  destruct (timer_interrupt s_pf 0 ltac:(split; [|split]; reflexivity) ltac:(cbn; lia) ltac:(evals) s_pf_clint)
    as (s' & Hw & _ & _ & _ & _ & H).
  exists s'. split; [exact Hw|]. apply H; [evals|evals|evals|evals].
Defined.

(** An image with one segment of 4 bytes, of which 2 are in the file, at the start of RAM. *)
Definition image1 : list Z :=
  [0x7F; 0x45; 0x4C; 0x46; 2; 1; 1; 0; 0; 0; 0; 0; 0; 0; 0; 0] ++ [2; 0; 0xF3; 0; 1; 0; 0; 0] ++
  [0; 0; 0; 0x80; 0; 0; 0; 0] ++ [64; 0; 0; 0; 0; 0; 0; 0] ++ replicate 8 0 ++ replicate 4 0 ++ [64; 0; 56; 0; 1; 0; 64; 0; 0; 0; 0; 0] ++
  [1; 0; 0; 0; 5; 0; 0; 0] ++ [120; 0; 0; 0; 0; 0; 0; 0] ++ [0; 0; 0; 0x80; 0; 0; 0; 0] ++ [0; 0; 0; 0x80; 0; 0; 0; 0] ++
  [2; 0; 0; 0; 0; 0; 0; 0] ++ [4; 0; 0; 0; 0; 0; 0; 0] ++ [0; 16; 0; 0; 0; 0; 0; 0] ++ [0xAA; 0xBB].

Lemma image1_ok : elf_ok 0 image1.
Proof. split_and!; evals. Qed.

Lemma mem0_regs : List.Forall reg_ok (regions mem0).
Proof. apply List.Forall_cons; [|apply List.Forall_nil]. split; [|split]; evals. Qed.

Lemma image1_segs : List.Forall (fun ph => p_type ph = ELF_PT_LOAD -> seg_ok image1 (regions mem0) ph) (elf_pheaders 0 image1).
Proof.
  assert (exists ph, elf_pheaders 0 image1 = [ph] /\ ph = mkPH 1 5 120 0x80000000 0x80000000 2 4 0x1000) as (ph & -> & ->)
    by (eexists; split; [vm_compute; reflexivity|reflexivity]).
  apply List.Forall_cons; [|apply List.Forall_nil]. intros _. split; [split; split; evals|evals|].
  intros [|i] r Hr _; [|discriminate]. injection Hr as <-. evals.
Qed.

Lemma elf_load_witness : exists m' r', parse 0 0 image1 mem0 = Ret (true, Some 0x80000000, m') /\
  regions m' !! 0%nat = Some r' /\ byte_at (data r') 1 = 0xBB.
Proof.
  destruct (elf_load 0 0 image1 mem0 ltac:(evals) mem0_regs) as (_ & H & _).
  destruct (H ltac:(split; evals)) as [_ Hs].
  destruct (Hs ltac:(evals) image1_ok image1_segs) as (m' & He & _ & Hl).
  assert (regions mem0 !! 0%nat = Some (new_region RAM_BASE RAM_SIZE)) as E by reflexivity.
  destruct (Forall2_lookup_l _ _ _ _ _ Hl E) as (r' & Hr & _ & Hb).
  exists m', r'. split; [exact He|]. split; [exact Hr|].
  change 1 with ((RAM_BASE + 1) - base_addr (new_region RAM_BASE RAM_SIZE)) at 1. rewrite Hb by (split; evals).
  vm_compute. reflexivity.
Defined.

(** A machine whose only hart waits for an interrupt, near the end of a period
    of device time and with an operation of the I2C master under way. *)
Definition pf_busy : Platform := set_plic_i2c (pf_plic pf1) (set_op_active true (pf_i2c pf1)) pf1.
Definition machine1 : MachineS := mkMachine [set_WFI true hart1] mem0 smc_init dec_init RAM_SIZE pf_busy bc_init 3600.

Lemma machine1_ok tb : mach_ok tb machine1.
Proof. split; [apply List.Forall_cons; [apply set_WFI_wf, hart1_wf|apply List.Forall_nil]|exact mem0_wf|apply cache_ok_init|apply bc_ok_init]. Qed.

Lemma work_running_ok_witness : exists tb m' m1, work_running tb machine1 = Ret (Some tt, m') /\ dev_tick_time m' = 16 /\
  work_running tb machine1 = pass_spec tb machine1 /\
  tick_all machine1 = Ret (tt, m1) /\ delay (pf_i2c (mc_pf m1)) = 1 /\ delay (pf_i2c (mc_pf m')) = 1.
Proof.
  destruct (ecall_table (B := Platform)) as (tb & Hi & _).
  destruct (work_running_ok tb machine1 Hi (machine1_ok tb) ltac:(evals) ltac:(split; evals)) as (Hs & Hr & _ & Ht & _).
  destruct (Ht ltac:(evals) ltac:(evals)) as (m1 & Hm1 & Hd & _).
  assert (exists r m', work_running tb machine1 = Ret (r, m') /\ dev_tick_time m' = 16 /\ delay (pf_i2c (mc_pf m')) = 1)
    as (r & m' & Hw & Hm & Hd').
  { eexists _, _. split; [vm_compute; reflexivity|split; reflexivity]. }
  destruct (Hr r m' Hw) as [-> _].
  exists tb, m', m1. split; [exact Hw|]. split; [exact Hm|]. split; [exact Hs|]. split; [exact Hm1|]. split; [exact Hd|exact Hd'].
Defined.

(** A machine with 4 MiB of RAM that was asked to reset. *)
Definition BOOT_SIZE : Z := 0x400000.
Definition machine2 : MachineS :=
  mkMachine [] (add_region mmap_empty RAM_BASE BOOT_SIZE) smc_init dec_init BOOT_SIZE (set_control (mkControl Resetting true) pf1) bc_init 0.

(** The device tree of a machine with two harts. *)
Definition tree_cfg : TreeConfig := mkTreeConfig BOOT_SIZE 2 5000000 SatpMode_Sv39 (str "console=ttyS0") (replicate 16 0x1234) 1 2 [3].

Definition fdt2 : option positive * Heap := match machine_fdt tree_cfg heap0 with Ret r => r | _ => (None, heap0) end.
Definition wrap2 : fdt_node := default (mkWrap None 1) (wraps fdt2.2 !! default 1%positive fdt2.1).
Definition tree2 : Tree := default (mkTree [] [] []) (tree_of (heap_fuel fdt2.2) fdt2.2 (w_node wrap2)).

Lemma fdt2_root : fdt2.1 = Some 2%positive /\ wraps fdt2.2 !! 2%positive = Some wrap2 /\
  tree_of (heap_fuel fdt2.2) fdt2.2 (w_node wrap2) = Some tree2 /\ tree_ok tree2 = true /\ blob_size tree2 = 3408.
Proof. vm_compute. repeat split. Qed.

Lemma fdt_roundtrip_witness : exists b, fdt_serialize fdt2.2 (Some 2%positive) (Some (replicate (Z.to_nat 4096) 7)) 4096 0 = Ret (3408, Some b) /\
  read_blob b = Some tree2.
Proof.
  destruct fdt2_root as (_ & Hw & Ht & Hok & Hs).
  destruct (fdt_roundtrip fdt2.2 2 wrap2 tree2 (replicate (Z.to_nat 4096) 7) 4096 0 Hw Ht Hok) as (_ & _ & H);
    [rewrite Hs; reflexivity|split; evals|rewrite length_replicate; evals|].
  rewrite Hs in H. destruct H as (b & Hb & _ & _ & Hr); [evals|]. exists b. split; [exact Hb|exact Hr].
Defined.

Definition config1 : Config :=
  mkConfig (Some [0x13; 0; 0; 0]) (Some [0x73; 0; 0; 0]) None true fdt2.2 fdt2.1 (fun n => replicate (Z.to_nat n) 0xAA) RAM_BASE 1 (fun _ => hart2) 0 0.

Lemma config1_fdt : boot_fdt config1 (Some (blob tree2 0)).
Proof.
  destruct fdt2_root as (Hr & Hw & Ht & Hok & Hs). exists 2%positive, wrap2, tree2.
  split; [reflexivity|]. split; [exact Hr|]. split; [exact Hw|]. split; [exact Ht|]. split; [exact Hok|rewrite Hs; evals].
Qed.

Lemma config1_fits : List.Forall (raw_fits BOOT_SIZE) (boot_layers config1 BOOT_SIZE (Some (blob tree2 0))).
Proof.
  unfold boot_layers. cbn [bios kernel config1 from_option app].
  repeat (apply List.Forall_cons; [|]); [..|apply List.Forall_nil]; (split; [evals|split; [|split; [|evals]]]); cbn [fst snd];
    try evals; rewrite (blob_len tree2 0); destruct fdt2_root as (_ & _ & _ & _ & ->); evals.
Qed.

Lemma machine_resets_witness : exists m' r', work_pass (mkTable [] [] (mkLuts ∅ ∅)) config1 machine2 = Ret (true, m') /\
  regions (mc_mmap m') !! 0%nat = Some r' /\ byte_at (data r') 0x200000 = 0x73 /\
  read_blob (region_bytes r' (BOOT_SIZE - 0x20000) (blob_size tree2)) = Some tree2.
Proof.
  destruct (machine_resets (mkTable [] [] (mkLuts ∅ ∅)) config1 machine2 0 (new_region RAM_BASE BOOT_SIZE) (Some (blob tree2 0)))
    as (m' & He & _ & (r' & Hr & _ & _ & Hx & Hb) & _);
    [reflexivity|reflexivity|reflexivity|reflexivity|reflexivity|reflexivity|exact config1_fdt| |exact config1_fits|reflexivity|].
  - intros n Hn. cbn [config1 junk_buf]. rewrite length_replicate. lia.
  - exists m', r'. split; [exact He|]. split; [exact Hr|]. split; [rewrite Hx; evals|].
    destruct fdt2_root as (Hw & Hv & Ht & _).
    exact (Hb eq_refl eq_refl 2%positive wrap2 tree2 Hw Hv Ht).
Defined.

(** A root, a child of it, and its handle. *)
Definition fdt_ops : list Op := [OpCreate []; OpCreate (str "soc"); OpAddChild 1 2; OpAddProp 2 (str "status") (str "okay"); OpPhandle 2].

Lemma fdt_ops_ok : ops_ok heap0 fdt_ops.
Proof.
  unfold fdt_ops. cbn [ops_ok op_ok]. split; [exact I|]. intros h [= <-]. split; [exact I|]. intros h [= <-]. split.
  { exists 0%nat, 1%positive. split; [eapply below_root; reflexivity|]. split; [discriminate|]. split; [eapply below_root; reflexivity|].
    intros q n e Hq Hb. cbn [nodes] in Hq. apply lookup_insert_Some in Hq as [[<- <-]|[_ Hq]]; [reflexivity|].
    apply lookup_insert_Some in Hq as [[<- <-]|[_ Hq]]; [reflexivity|discriminate]. }
  intros h [= <-]. split; [split; [eexists; reflexivity|discriminate]|]. intros h [= <-]. split; [|intros; exact I].
  exists 1%nat, 1%positive. eexists. split; [eapply below_step; [reflexivity|reflexivity|eapply below_root; reflexivity]|]. split; [reflexivity|evals].
Qed.


(** ** Virtio: a queue with one request in memory

    The header of a write of 512 bytes to sector 3 is at [0x80000000], its
    data, with one byte set, at [0x80000100], and its status at [0x80000400];
    the descriptors are at [0x80001000] and the rings after them. *)

Definition put (m : MemoryMap) (x : Z * Z * Z) : MemoryMap :=
  match store m (RAM_BASE + x.1.1) x.1.2 x.2 with Ret m' => m' | _ => m end.

Definition queue_words : list (Z * Z * Z) :=
  [(0, 32, 1); (8, 64, 3); (0x105, 8, 7);
   (0x1000, 64, RAM_BASE); (0x1008, 32, 16); (0x100C, 16, 1); (0x100E, 16, 1);
   (0x1010, 64, RAM_BASE + 0x100); (0x1018, 32, 512); (0x101C, 16, 1); (0x101E, 16, 2);
   (0x1020, 64, RAM_BASE + 0x400); (0x1028, 32, 1); (0x102C, 16, 2);
   (0x1102, 16, 1)].

Definition mem_blk : MemoryMap := foldl put mem0 queue_words.

Lemma put_wf m x : bad_size x.1.2 = false -> wf_mmap m -> wf_mmap (put m x).
Proof. intros Hb Hm. unfold put. destruct (store _ _ _ _) eqn:E; [|done..]. by eapply store_wf. Qed.

Lemma mem_blk_ok : ram_ok mem_blk RAM_SIZE.
Proof.
  split; [|exists 0%nat, (default (new_region 0 0) (regions mem_blk !! 0%nat)); split_and!; evals|split; evals].
  unfold mem_blk, queue_words. cbn [foldl]. repeat (apply put_wf; [reflexivity|]). exact mem0_wf.
Qed.

Definition vio1 : Virtio :=
  set_queue (mkQueue 8 (RAM_BASE + 0x1000) (RAM_BASE + 0x1100) (RAM_BASE + 0x1200) 0 0 true) (virtio_new 0x10001000 1).
Definition disk1 : Disk := mkDisk 4096 ∅.
Definition blk1 : VState BlkExt := mkV vio1 (mkBlk (Some disk1) 8) mem_blk.

Definition blk_chain : list VirtqDesc :=
  [mkDesc RAM_BASE 16 1 1; mkDesc (RAM_BASE + 0x100) 512 1 2; mkDesc (RAM_BASE + 0x400) 1 2 0].

Lemma blk_requests_witness : exists d' m', blk_request blk_chain (blk1, plic1, [view0]) =
    Ret (Some 0, (mkV vio1 (mkBlk (Some d') 8) m', plic1, [view0])) /\
  disk_byte d' (3 * 512 + 5) = 7 /\ disk_byte d' 4095 = disk_byte disk1 4095 /\ mbyte m' (RAM_BASE + 0x400) = VIRTIO_BLK_S_OK.
Proof.
  destruct (blk_requests RAM_SIZE vio1 disk1 8 plic1 [view0] mem_blk (mkDesc RAM_BASE 16 1 1) [mkDesc (RAM_BASE + 0x100) 512 1 2]
    (mkDesc (RAM_BASE + 0x400) 1 2 0) mem_blk_ok) as (_ & H & _);
    [split; evals|evals|apply List.Forall_cons; [split; evals|apply List.Forall_nil]|reflexivity|split; evals|].
  destruct (H (3 * 512)) as (d' & (m' & Hr & _ & E) & _ & Ed); [vm_compute; reflexivity|vm_compute; reflexivity|].
  exists d', m'. split; [exact Hr|]. rewrite !Ed, E. split_and!; vm_compute; reflexivity.
Defined.

Lemma vio1_typed : virtio_typed vio1.
Proof. split; split_and!; evals. Qed.

Lemma virtio_writes_witness : exists s', blk_write (0x10001000 + VIRT_REG_QUEUENOTIFY) Int 0 (blk1, plic1, [view0]) = Ret (Some tt, s') /\
  last_avail_idx (queue0 (vs_vio s'.1.1)) = 1.
Proof.
  destruct virtio_writes as [H _].
  specialize (H (blk1, plic1, [view0]) (0x10001000 + VIRT_REG_QUEUENOTIFY) Int 0 vio1_typed).
  destruct (blk_write _ _ _ _) as [[r s']|e|] eqn:E; [|vm_compute in E; discriminate..].
  destruct H as (Hr & _ & Hn). subst r. exists s'. split; [reflexivity|].
  destruct (Hn eq_refl) as [_ Hq]. destruct (Hq eq_refl eq_refl ltac:(discriminate)) as (a & Ha & Hl).
  vm_compute in Ha. injection Ha as <-. exact Hl.
Defined.

Lemma rng_stream_witness : (virtio_rng_fill_buffer 10 (virtio_rng_seed 42 54)).2 = Nat.iter 3 pcg_next (virtio_rng_seed 42 54) /\
  length (virtio_rng_fill_buffer 10 (virtio_rng_seed 42 54)).1 = 10%nat.
Proof.
  destruct (rng_stream (virtio_rng_seed 42 54) 10) as (E & Hl & _); [split; evals|discriminate|].
  split; [rewrite E; reflexivity|exact Hl].
Defined.

(** ** The GDB stub *)

(** A stub over the small machine, in the middle of its run. *)
Definition stub0 : Stub unit := mkStub s0 true Halted false false true [0x80000010] [] [].

Definition result_of {A} (r : outcome (A * Stub unit)) : Stub unit := match r with Ret (_, g) => g | _ => stub0 end.

Lemma gdb_packets_witness : client_loop false new_client (format_packet (str "Hg0")) stub0 =
  Ret (new_client, sent (str "OK") (add_sent (str "+") stub0)).
Proof.
  destruct (gdb_packets false (str "Hg0") 48 48 [] stub0 eq_refl ltac:(evals) ltac:(repeat constructor; discriminate) ltac:(discriminate) ltac:(discriminate))
    as (_ & _ & _ & H). rewrite app_nil_r in H. rewrite H. reflexivity.
Defined.


Lemma gdb_memory_witness : exists s', let g' := sent (str "OK") (set_world s' stub0) in
  run_packet false (str "M80000100,3:0a0b0c") stub0 = Ret (tt, g') /\ run_packet false (str "m80000100,3") g' = Ret (tt, sent (str "0a0b0c") g').
Proof.
  destruct (gdb_memory (B := unit) false 0x80000100 [10; 11; 12] ltac:(repeat constructor; lia) stub0 ltac:(split; [exact s0_dram|split; evals]) eq_refl eq_refl) as (s' & H1 & H2 & _).
  exists s'. split; [exact H1|exact H2].
Defined.

Lemma gdb_description_witness : exists g', start true true stub0 = Ret (tt, g') /\ download true 2 0 4096 [] g' = Some (create_xml true).
Proof.
  destruct (gdb_description true stub0 true 4096 ltac:(lia)) as (g' & H1 & H2). exists g'. split; [exact H1|]. exact H2.
Defined.

Lemma gdb_breakpoints_witness : run_packet false (str "Z0,80000020,4") stub0 = Ret (tt, sent (str "OK") (set_breakpoints [0x80000010; 0x80000020] stub0)).
Proof.
  destruct (gdb_breakpoints false stub0 0x80000020 (str "4") new_client [] ltac:(apply NoDup_singleton) ltac:(split; lia) ltac:(evals) eq_refl eq_refl) as (_ & H & _).
  exact H.
Defined.
