(* ===== verification/WitnessesJit.v ===== *)
(** * Concrete instances: the native JIT

    The guest registers at [0x10000], the context at [0x20000], a host state
    that holds the registers of the machine of [Witnesses.v], and the theorems
    of the JIT files at these values. *)

From Stdlib Require Import Strings.String.
From S2P Require Import Prelude Defs MemoryMap SelfMod Decode Lut Hart State Isa X86 X86Enc X86Code JitEmit JitAlu JitIsa JitGen JitAlloc JitCorrect JitTail Jit JitChain JitCache Witnesses.

Lemma x86_encoder_witness : exists n, encodes (x86.mov_mr 9 12 (-8)) (Imov_load B64 9 (Omem 12 (-8))) n.
Proof.
  pose proof (x86_encoder 9 1 12 (-8) 5 77 3 5 ltac:(split; vm_compute; congruence) ltac:(split; vm_compute; congruence)
    ltac:(split; vm_compute; congruence) ltac:(split; vm_compute; congruence) ltac:(split; vm_compute; congruence)
    ltac:(split; vm_compute; congruence) ltac:(split; vm_compute; congruence) ltac:(split; vm_compute; congruence)) as [H _].
  rewrite Forall_forall in H. apply (H (_, _)). do 2 apply list_elem_of_further. apply list_elem_of_here.
Defined.

(** ** A block with one instruction *)

Definition REGS_AT : Z := 0x10000.
Definition CTX_AT : Z := 0x20000.

Definition memx : Z -> Z := st_le 8 (st_le 8 (fun _ => 0) CTX_AT REGS_AT) (CTX_AT + 32) RAM_BASE.
Definition hostx : Host :=
  mkHost (upd (upd (fun _ => 0) x86.REG_CTX CTX_AT) x86.REG_REGS REGS_AT) memx no_flags 0x400000.

(** [add a0, a1, a2] *)
Definition add_word : Z := 0xC58533.
Definition add_data : InstructionData := decode_data add_word 0.

Lemma jit_alu_correct_witness : runs_as REGS_AT CTX_AT hostx (jit_ADD add_data) (new_emitter new_block 3 false false)
  (gpr (hart s0)) (regs_after (state_of (put_gpr 10 0x8000F000 hart1) mem0)).
Proof.
  pose proof (jit_alu_correct (B := unit) REGS_AT CTX_AT hostx RAM_BASE ltac:(vm_compute; split; congruence)
    ltac:(vm_compute; split; congruence) ltac:(right; vm_compute; congruence) ltac:(vm_compute; reflexivity)
    "0000000**********000*****0110011" jit_ADD eq_refl eq_refl) as (i & Hi & H).
  eassert (find_instr (B := unit) "0000000**********000*****0110011" = Some _) as E by reflexivity. rewrite Hi in E. injection E as ->. clear Hi. cbn [i_func instr_imm i_imm] in H.
  specialize (H add_word ltac:(eexists; split; [reflexivity|vm_compute; reflexivity])).
  destruct (H s0 exec_ok (state_of (put_gpr 10 0x8000F000 hart1) mem0) (new_emitter new_block 3 false false)) as (_ & _ & Hr).
  - apply hart1_wf.
  - reflexivity.
  - vm_compute. reflexivity.
  - split; [|vm_compute; repeat split; congruence].
    apply alloc_ok_new.
  - exact Hr.
Defined.

(** ** The chain dispatcher *)

(** The block left at [RAM_BASE + 8]; its link slot is at [0x30000], and the
    chain cache has the block there with the code at [0x10000215]. *)
Definition NEXT_PC : Z := RAM_BASE + 8.
Definition next_entry : Z := CTX_AT + x86.CTX_OFF_CHAIN_CACHE + x86.CHAIN_CACHE_STRIDE * chain_cache_index NEXT_PC 3.
Definition memc : Z -> Z :=
  st_le 8 (st_le 8 (st_le 8 (st_le 8 (st_le 8 (st_le 8 (st_le 8 (fun _ => 0)
    (CTX_AT + x86.CTX_OFF_EXIT) NEXT_PC) (CTX_AT + x86.CTX_OFF_CHAIN_EPOCH) 7) (CTX_AT + x86.CTX_OFF_CHAIN_MODE) 3)
    next_entry 0x10000215) (next_entry + 8) NEXT_PC) (next_entry + 16) 7) (next_entry + 24) 3.
Definition hostc : Host :=
  mkHost (upd (upd (upd (fun _ => 0) x86.REG_CTX CTX_AT) REG_SLOT 0x30000) x86.REG_RSP 0x40000) memc no_flags 0x10000000.

Lemma hostc_wf : hwf hostc.
Proof.
  constructor.
  - intros r. unfold hostc, upd. cbn [xr]. repeat (destruct (_ =? _)); split; done.
  - intros a. unfold hostc, memc. cbn [xm]. do 7 apply st_le_wf. by split.
Qed.

Lemma chain_dispatcher_correct_witness : exists c x', dispatcher_code [] = Ret (tt, c) /\ xsteps 0x10000000 c hostc x' /\
  xip x' = 0x10000215 /\ slot_ok CTX_AT NEXT_PC x' = true.
Proof.
  destruct chain_dispatcher_correct as (c & Hc & _ & H).
  destruct (H 0x10000000 CTX_AT 0x30000 hostc ltac:(lia) ltac:(lia) ltac:(done) ltac:(vm_compute; congruence) ltac:(done) ltac:(vm_compute; congruence)
    ltac:(right; vm_compute; congruence) ltac:(done) ltac:(vm_compute; reflexivity) hostc_wf eq_refl eq_refl eq_refl) as (x' & Hs & Hx).
  exists c, x'. split; [exact Hc|]. split; [exact Hs|]. change (chain_hit _ _ hostc) with (chain_hit CTX_AT next_entry hostc) in Hx.
  assert (chain_hit CTX_AT next_entry hostc = true) as E by (vm_compute; reflexivity). rewrite E in Hx.
  destruct Hx as (Hi & Ho & _). split; [|exact Ho]. rewrite Hi. vm_compute. reflexivity.
Defined.

(** ** The code cache *)

Definition add_table : DecTable :=
  mkTable [mkPattern 0xFE00707F 0x33 4] [None] (mkLuts {[pext_u32 add_word HASH_MASK := 0%nat]} ∅).
Definition mem_add : MemoryMap := match store mem0 RAM_BASE 32 add_word with Ret m => m | _ => mem0 end.

(** A host that gives sixteen mappings. *)
Definition map_at (n : nat) : option Z :=
  if (n <? 16)%nat then Some (0x10000000 + Z.of_nat n * JIT_ARENA_BYTES) else None.
Definition jit0 : JitState unit := mkJS jit_new 0 0 0 0 (fun _ => 0) (state_of hart1 mem_add).

Lemma map_at_ok n p : map_at n = Some p -> 0 < p /\ p + JIT_ARENA_BYTES <= 2 ^ 64.
Proof.
  unfold map_at, JIT_ARENA_BYTES, RVJIT_ARENA_PAGES. destruct (Nat.ltb_spec n 16); [|done]. intros [= <-]. lia.
Qed.

Definition compiled (o : outcome (JITExec * JitState unit)) : bool :=
  match o with Ret (x, _) => negb (fn x =? 0) | _ => false end.

Lemma compiled_inv o : compiled o = true -> exists x s, o = Ret (x, s) /\ fn x <> 0.
Proof. destruct o as [[x s]| |]; [|done..]. intros Hx%negb_true_iff%Z.eqb_neq. by exists x, s. Qed.

Lemma jit_code_safe_witness : exists x s i, compile add_table map_at RAM_BASE RAM_BASE jit0 = Ret (x, s) /\
  fn x <> 0 /\ live (jctx s) (fn x) (chain_fn x) /\ cb_start_phys (cached (jctx s) i) = RAM_BASE.
Proof.
  destruct (compiled_inv (compile add_table map_at RAM_BASE RAM_BASE jit0) ltac:(vm_compute; reflexivity)) as (x & s & Hr & Hx).
  destruct (jit_code_safe add_table map_at map_at_ok RAM_BASE RAM_BASE 3 false false jit0 x s) as (_ & i & _ & Hk & _ & Hl & _).
  - exists jit0. split; [reflexivity|apply rtc_refl].
  - vm_compute. repeat split; congruence.
  - vm_compute. split; congruence.
  - apply serve_compile; [vm_compute; reflexivity|exact Hr].
  - exact Hx.
  - exists x, s, i. split; [exact Hr|]. split; [exact Hx|]. split; [exact Hl|]. by apply same_key_phys in Hk as [_ Hp].
Defined.
